(* ===== verification/_CoqProject ===== *)
-Q . S2P
Prelude.v
StdString.v
Enums.v
HashTable.v
BitVector.v
Packet.v
GlobalConf.v
RvStore.v
RvMessages.v
LocalRV.v
RvGraph.v
RvUpdate.v
RvInvariant.v
RvOps.v
RvAdd.v
RvRemove.v
RvUnpublish.v
RvPublish.v
RvSafety.v
Rendezvous.v
Forwarder.v
ForwarderProofs.v
Forwarding.v
PendingLRU.v
ControlReliability.v
Reliability.v
ProxyStore.v
LocalProxy.v
ProxyInvariant.v
ProxyRequests.v
ProxyMessages.v
ProxyDisconnect.v
ProxyDelivery.v
ProxyRendezvous.v
ProxySafety.v
ProxyNotify.v
Proxy.v
ClientApi.v
Client.v
NbQueue.v
NbThreads.v
Netlink.v
Application.v
StdMap.v
LibBitvector.v
Topology.v
TopologyPaths.v
TopologyFID.v
TopologyServe.v
TopologyIgraph.v
TopologyUpdate.v
TopologyLinks.v
TopologyNet.v
TopologyManager.v
TopologyRequests.v
TopologyRendezvous.v
TopologyRepair.v
TopologyFailure.v
TopologyReturn.v
TopologyFailureNet.v
ResiliencyManager.v
Resiliency.v
ResiliencyRecovery.v
DeliveryRecovery.v
DeliveryNet.v
NapTypes.v
Unreliable.v
Reassembly.v
NapIp.v
IpRefinement.v
IpOverIcn.v
