(* ===== verification/Prelude.v ===== *)
(** * Blackadder (POINT 3.0.0): a verification library of the ICN node

    Blackadder is the ICN node of the POINT platform.  Applications link the
    client library (src/lib/) and talk over netlink to a set of Click elements
    (src/src/), which name information by scopes and items.  The LocalProxy
    takes the requests of applications and elements, keeps who publishes and
    subscribes to what, and publishes requests to the rendezvous element
    LocalRV.  LocalRV keeps the information graph, matches publishers with
    subscribers, answers with notifications, and asks the topology manager
    (src/TopologyManager/), an application, for paths.  The topology manager
    chooses a publisher for each subscriber and answers each publisher with the
    Bloom-filter-like identifier (LIPSIN) of its paths; data then leaves
    through the Forwarder over every link whose identifier is included in the
    forwarding identifier of the packet.  ControlReliability repeats requests
    that are not acknowledged; GlobalConf holds the configuration of the node.
    The resiliency manager (rm.cpp) keeps the paths of deliveries and asks for
    new ones when a link is lost.  The network attachment point
    (src/apps/nap/) carries IP packets over the platform.

    ** The files

    - Prelude: bytes, machine widths, faults, the error type [res], the state
      and error monad [M] and its weakest precondition [wp], shared lemmas and
      tactics.  Enums: lib/blackadder_enums.hpp.  HashTable: Click's hash table
      as a class, since Click is not in this repository, with an association
      list as an instance.  StdMap: std::map and std::set as sorted lists.
      Packet: buffers filled and read at offsets.
    - BitVector: ba_bitvector.{hh,cc}; [bv_bit] is the abstract view.
      LibBitvector: its copy in lib/bitvector.{hpp,cpp}, from strings and with
      new memory of any content (class [Heap]).
    - GlobalConf: globalconf.cc.
    - RvStore: remotehost, scope and informationitem, and the state of LocalRV
      (localrv.hh), with objects in heaps indexed by address.  RvMessages: the
      bytes of the packets LocalRV builds.  LocalRV: every handler of
      localrv.cc, [push], [initialize] and [cleanup].
    - RvGraph: the specification of LocalRV: an acyclic graph whose paths are
      the identifiers; the invariant [wf] relates a state to it.  RvUpdate:
      recursivelyUpdateIDs.  RvInvariant: how the invariant follows changes.
      RvOps, RvAdd, RvRemove: the steps the handlers share.  RvUnpublish,
      RvPublish: one specification per handler.  RvSafety: all requests,
      reachable states, cleanup.  Rendezvous: the properties of LocalRV.
    - Forwarder: forwarder.{hh,cc}.  ForwarderProofs: its lemmas.  Forwarding:
      its properties.
    - PendingLRU: the table of pending control messages with its doubly linked
      LRU chain (controlreliability.{hh,cc}), its specification as a list, and
      the refinement.  ControlReliability: [configure], [initialize], [push]
      and [run_timer].  Reliability: its properties.
    - ProxyStore: localhost.hh, activepub.hh, activenode.hh, the state of the
      LocalProxy (localproxy.hh) and the packets it builds.  LocalProxy: every
      method of localproxy.cc, up to [push].
    - ProxyInvariant: who publishes and subscribes to what, and the invariant
      [wf] that all tables of the LocalProxy agree on it.  ProxyRequests,
      ProxyMessages, ProxyDisconnect, ProxyDelivery: a specification per
      method.  ProxyRendezvous: the requests as LocalRV reads them.
      ProxySafety: [push] on any bytes.  ProxyNotify: the notifications of
      LocalRV and of the topology manager.  Proxy: the properties of the
      LocalProxy, on its own, with LocalRV, and from node to node.
    - ClientApi: the messages and events of lib/blackadder.{hpp,cpp} and of
      lib/nb_blackadder.cpp, hexadecimal strings, ba_fnv.hpp.  Client: its
      properties.  NbQueue: the queues, the selector and the worker thread of
      the non-blocking library as a step relation; NbThreads: its runs.
    - Netlink: the elements between the sockets and the proxy, in user space
      and in the kernel ({to,from}netlink.cc, tomgmnetlink.cc).
    - Application: client library, netlink, proxies and LocalRV together.
    - Topology: tm_graph.{hpp,cpp} and tm_igraph.cpp: the state of the topology
      manager, identifiers of paths, the choice of publishers and subscribers.
      The graph is a class [Igraph] with [igraph_laws], since igraph is not in
      this repository.  TopologyPaths: reading the topology.  TopologyFID: the
      identifier of a path.  TopologyServe: publishers for sets of
      subscribers.  TopologyIgraph: graphs as lists, an instance.
      TopologyUpdate: updateGraph.  TopologyLinks, TopologyNet: links that fail
      and return, and an instance.
    - TopologyManager: tm.cpp: the handlers of requests and of reports, and the
      event loop.  TopologyRequests: the answers to a request for paths, and
      the start of the manager.  TopologyRendezvous: LocalRV, the proxies, the
      library and the manager together.  TopologyRepair: what the nodes are
      told after a change.  TopologyFailure, TopologyReturn: a link that is
      lost or back, and the invariant [manager_ok] of the paths the manager
      keeps.  TopologyFailureNet: a ring of four nodes.
    - ResiliencyManager: rm.cpp.  Resiliency: the report about a delivery, from
      the topology manager to the resiliency manager.  ResiliencyRecovery: the
      request for new paths.  DeliveryRecovery: a link on the path of a
      delivery is lost.  DeliveryNet: instances on the ring.
    - StdString: strings as the programs use them (numbers, substrings).
      NapTypes: identifiers and addresses (nap/types/).  Unreliable: the
      fragments of a packet (nap/transport/unreliable.cc).  Reassembly: they
      give the packet in any order.  NapIp: the packet capture, the IP name
      space, its buffer and the cleaner, the dispatch, the loop over events
      (nap/demux/, nap/namespaces/, nap/icncore/).  IpRefinement: a
      specification on destinations, which NapIp implements.  IpOverIcn: the
      routing prefix of a destination, and packets from one attachment point
      to another.

    ** What the theorems show

    LocalRV: from [initialize] on, whatever valid requests arrive in whatever
    order, no handler dereferences a null or deleted pointer, and the indexes
    hold exactly the paths of an acyclic graph (Rendezvous.reachable_serves,
    identifiers_are_paths, every_request_ok).  Each request changes exactly
    the memberships it should, returns the code of its branch, and changes
    nothing on an error (the [_correct] theorems); publishing a scope again
    adds one edge and the update of the identifiers brings the indexes to the
    paths of the larger graph (republish_adds_edge, updateIDs_complete); the
    rendezvous of an item is the one request to the topology manager that it
    should be (domain_rendezvous).  [valid_request] says what the source does
    not test: theorems without a claim number in Rendezvous run the code
    outside it and show the fault.

    Messages: the packets have the documented layout exactly when the
    identifiers have fewer than 256 bytes (RvMessages).

    Forwarder: matching is inclusion of bits, a path identifier matches all its
    links, and the frames that leave, their ports, copies and bytes are given
    in closed form; the packet handed over is used once; nothing is sent back
    over the link it came from; a detour over a switch restores the frame.

    ControlReliability: the chain of objects in memory is a list in the order
    of use, and the three operations of the table are operations of that list
    (lru_refines); the invariant holds in all states that are reached
    (control_reachable); a request that is answered is forgotten, with the
    same bytes at both ends (request_exchange), and one that is not answered is
    sent again after one, two and three seconds and then reported
    (unacknowledged_request).

    LocalProxy: packets of any port and with any bytes keep the invariant or
    stop at an access outside a buffer or an assertion about sizes, never at a
    null or deleted object (proxy_reachable_safe; [trusted] names what a
    packet must not do, each item a fault of the source that is listed with
    the findings); a request changes exactly the memberships it should and is
    forwarded exactly when it should be (local_request_correct); a host that
    leaves is forgotten everywhere (disconnect_correct); data reaches every
    other local host that hears of it once, and the network once
    (user_delivery, network_delivery).  With LocalRV: what an application asks
    is what LocalRV serves, on this node or on another
    (application_request_served, remote_request_served); the notification of
    LocalRV starts the publisher (rendezvous_starts_publisher); data of one
    node arrives on another as it was published (data_crosses_network); a
    failed link is forgotten and its publications start again
    (link_failure_recovery).

    Client library: both libraries send the same messages, with the length of
    their bytes (nb_same_messages, netlink_length); netlink hands them over
    unchanged and in order (application_messages_arrive); the threads keep the
    order of messages and events and, while the socket takes them, can always
    empty their queues, unless a wake-up is lost, which is shown too
    (NbThreads).  Together: a call of the
    library is the request that LocalRV serves (api_request_served), and data
    that one application publishes is the event that another one gets
    (application_to_application).

    Topology manager: the identifier of a path is matched by all its links and
    by the internal link of its end, and has no other bit
    (calculateFID_correct); every subscriber gets one of the nearest publishers, if
    each can be reached (calculateFIDs_correct); a publisher gets its nearest subscriber with a
    path (UcalculateFID_correct); a link that fails is in no path and returns
    with its identifiers (link_fails_and_returns).  With the others: a match of
    LocalRV becomes one answer to each publisher, and the answer starts the
    publications at the proxy of the publisher (match_starts_publishers).
    When a link is lost or is back, and the monitoring agent answers, the
    identifiers that the manager keeps lead through the graph that is left,
    and the nodes whose identifiers changed are told (link_failure_repaired,
    link_return_repaired).

    Resiliency manager: it keeps of a delivery what the topology manager
    reports (delivery_reported), and after the loss of a link on a path of the
    delivery the two find new paths for its subscribers (delivery_recovers).

    Network attachment point: the routing prefix of a destination is the
    longest that covers it (longest_prefix); fragments that arrive in any order
    give each packet once (packets_reassembled); the IP name space does to each
    destination what its specification says (name_space_refines); packets that
    one attachment point captures are published at most once and in order, and
    another one sends exactly those that were published (packets_cross).
    Module Limits shows the packets that are never delivered.

    BitVector, GlobalConf: operators against their bits, strings against
    vectors, the accepted configurations.

    ** Bounds and fuel

    recursivelyUpdateIDs gets one more unit of fuel than there are scopes: a
    path downwards in an acyclic graph is no longer (updateIDs_complete shows
    that this is enough, updateIDs_cycle that no fuel is enough on a cycle).
    The loop over the node types gets the length of the string, the eviction
    of old messages the number of messages, the loop over fragments the length
    of the packet (enough when a fragment has a payload, and with none it does
    not end: IpOverIcn.Limits.no_room_no_end).  Widths are
    kept where the source narrows: [u8] for the [unsigned char] totals and
    counts, [u16] and [u32] in the forwarder and in the lengths of netlink,
    [u64] in the hash of identifiers, 32-bit words in bit vectors.

    ** Not modelled

    Log messages, the listing of LocalRV, Click's argument parsing and its
    checksums (parameters).  Of the topology manager: the parser of GraphML,
    the monitoring agent, whose answer is a parameter, the weighted paths of
    the QoS extension (a parameter of the handlers), the text files for the
    SDN controller and traffic engineering.  Of the resiliency manager: the
    command line and the signal handler.  Of the library and the netlink
    elements: the system calls, whose results are arguments.  Of the network
    attachment point: the name spaces of HTTP and of IP multicast, the
    lightweight transport protocol and the TCP proxies, which are timers,
    threads and sockets around a protocol of their own; its configuration file
    (the routing prefixes are an argument), the filter of the capture, the raw
    socket and the locks (a handler is one step of the model).  The
    monitoring server (moose), coap and the other applications, the add-ons,
    the deployment tool, the bindings and the SDN controllers are outside this
    core. *)

From stdpp Require Export prelude gmap.
From Stdlib Require Export ZArith Lia ZifyNat ZifyBool.
From stdpp Require Export ssreflect.

#[global] Open Scope Z_scope.

Declare Scope blackadder_scope.
Delimit Scope blackadder_scope with ba.

(** ** Bytes and Click strings *)

(** A byte is an integer in [0, 256); a Click [String] is a list of bytes. *)
Abbreviation bytes := (list Z) (only parsing).

(** An object address.  [NULL] is [None] where the source may hold it. *)
Abbreviation ptr := nat (only parsing).

Definition is_byte (b : Z) : Prop := 0 <= b < 256.

(** Conversion to [unsigned char]: wrap around modulo 256. *)
Definition u8 (z : Z) : Z := z mod 256.

(** Conversion to [uint16_t]. *)
Definition u16 (z : Z) : Z := z mod 65536.

(** Conversion to [uint32_t]. *)
Definition u32 (z : Z) : Z := z mod 4294967296.

(** Length of a byte string, as the [int] the source computes with. *)
Definition zlen {A} (l : list A) : Z := Z.of_nat (length l).

(** ** Results *)

(** What the source does when it leaves the defined part of C++: a
    dereference of a null pointer, an access outside a buffer, a use of
    freed memory, a conversion that does not fit; [OutOfFuel] marks a recursion that did not end. *)
Inductive fault :=
  | NullDeref
  | OutOfBounds
  | UseAfterFree
  | OutOfRange
  | OutOfFuel.

#[export] Instance fault_eq_dec : EqDecision fault.
Proof. solve_decision. Defined.

Inductive res (A : Type) :=
  | Ok (a : A)
  | Fault (f : fault).
Arguments Ok {A} a.
Arguments Fault {A} f.

Definition res_bind {A B} (f : A → res B) (r : res A) : res B :=
  match r with Ok a => f a | Fault e => Fault e end.

#[export] Instance res_mret : MRet res := @Ok.
#[export] Instance res_mbind : MBind res := @res_bind.

(** [o] or a fault: a checked read. *)
Definition or_fault {A} (e : fault) (o : option A) : res A :=
  match o with Some a => Ok a | None => Fault e end.

(** ** The state and fault monad of the stateful components *)

Definition M (S A : Type) : Type := S → res (A * S).

Section monad.
Context {S : Type}.

#[export] Instance M_ret : MRet (M S) := λ A a s, Ok (a, s).
#[export] Instance M_bind : MBind (M S) := λ A B f m s,
  match m s with Ok (a, s') => f a s' | Fault e => Fault e end.

Definition gets {A} (f : S → A) : M S A := λ s, Ok (f s, s).
Definition modify (f : S → S) : M S () := λ s, Ok ((), f s).
Definition throw {A} (e : fault) : M S A := λ _, Fault e.
Definition lift_opt {A} (e : fault) (o : option A) : M S A :=
  match o with Some a => mret a | None => throw e end.

Definition from_res {A} (r : res A) : M S A := λ s, match r with Ok a => Ok (a, s) | Fault e => Fault e end.

(** [for (x : l) body x] *)
Fixpoint mfor {A} (l : list A) (body : A → M S ()) : M S () :=
  match l with
  | [] => mret ()
  | x :: l => body x ;; mfor l body
  end.

(** A loop that threads a local variable [b]. *)
Fixpoint mfoldl {A B} (body : B → A → M S B) (b : B) (l : list A) : M S B :=
  match l with
  | [] => mret b
  | x :: l => b' ← body b x ; mfoldl body b' l
  end.

(** Weakest precondition: [m] run in [s] ends without a fault in a result
    that satisfies [Q]. *)
Definition wp {A} (m : M S A) (Q : A → S → Prop) (s : S) : Prop :=
  match m s with Ok (a, s') => Q a s' | Fault _ => False end.

Lemma wp_ret {A} (a : A) Q s : Q a s → wp (mret a) Q s.
Proof. done. Qed.

Lemma wp_bind {A B} (m : M S A) (f : A → M S B) Q s :
  wp m (λ a s', wp (f a) Q s') s → wp (m ≫= f) Q s.
Proof. rw /wp /mbind /M_bind. by destruct (m s) as [[a s']|]. Qed.

Lemma wp_bind_inv {A B} (m : M S A) (f : A → M S B) Q s :
  wp (m ≫= f) Q s → wp m (λ a s', wp (f a) Q s') s.
Proof. rw /wp /mbind /M_bind. by destruct (m s) as [[a s']|]. Qed.

(** Two actions of a sequence taken together. *)
Lemma wp_assoc2 {A} (m n : M S ()) (k : M S A) Q s :
  wp ((m;; n);; k) Q s → wp (m;; n;; k) Q s.
Proof.
  rw /wp /mbind /M_bind. destruct (m s) as [[[] s1]|]; [|done]. by destruct (n s1) as [[[] s2]|].
Qed.

Lemma wp_gets {A} (f : S → A) Q s : Q (f s) s → wp (gets f) Q s.
Proof. done. Qed.

Lemma wp_modify f Q s : Q () (f s) → wp (modify f) Q s.
Proof. done. Qed.

Lemma wp_lift_opt {A} e (o : option A) a Q s :
  o = Some a → Q a s → wp (lift_opt e o) Q s.
Proof. by intros -> ?. Qed.

Lemma wp_from_res {A} (r : res A) a (Q : A → S → Prop) s : r = Ok a → Q a s → wp (from_res r) Q s.
Proof. by intros -> ?. Qed.

Lemma wp_mono {A} (m : M S A) (Q Q' : A → S → Prop) s :
  wp m Q s → (∀ a s', Q a s' → Q' a s') → wp m Q' s.
Proof. rw /wp. destruct (m s) as [[a s']|]; eauto. Qed.

(** A successful run, as an equation. *)
Lemma wp_ok {A} (m : M S A) Q s : wp m Q s → ∃ a s', m s = Ok (a, s') ∧ Q a s'.
Proof. rw /wp. destruct (m s) as [[a s']|]; [eauto|done]. Qed.

Lemma ok_wp {A} (m : M S A) (Q : A → S → Prop) s a s' :
  m s = Ok (a, s') → Q a s' → wp m Q s.
Proof. by rw /wp => ->. Qed.

(** Loop rule: an invariant indexed by what is done and what is left. *)
Lemma wp_mfor {A} (I : list A → list A → S → Prop) (l : list A) (body : A → M S ()) s :
  I [] l s →
  (∀ d x t s, d ++ x :: t = l → I d (x :: t) s → wp (body x) (λ _, I (d ++ [x]) t) s) →
  wp (mfor l body) (λ _, I l []) s.
Proof.
  intros H0 Hstep.
  enough (∀ d t s, d ++ t = l → I d t s → wp (mfor t body) (λ _, I l []) s) as Hgen
    by (by apply (Hgen [])).
  clear s H0. intros d t. revert d.
  induction t as [|x t IH]; intros d s Hl HI; simpl.
  - apply wp_ret. by rw -Hl app_nil_r.
  - apply wp_bind. eapply wp_mono; [by apply Hstep|].
    intros [] s' HI'. apply (IH (d ++ [x])); [|done]. by rw -app_assoc.
Qed.

(** Loop rule with an invariant that does not depend on the position. *)
Lemma wp_mfor_inv {A} (I : S → Prop) (l : list A) (body : A → M S ()) s :
  I s → (∀ x s, x ∈ l → I s → wp (body x) (λ _, I) s) →
  wp (mfor l body) (λ _, I) s.
Proof.
  intros H0 Hstep. apply (wp_mfor (λ _ _, I)); [done|].
  intros d x t s' <- HI. apply Hstep; [set_solver|done].
Qed.

Lemma wp_mfoldl {A B} (I : list A → B → S → Prop) (body : B → A → M S B) (l : list A) b s :
  I l b s →
  (∀ x t b s, (∃ d, d ++ x :: t = l) → I (x :: t) b s → wp (body b x) (λ b s, I t b s) s) →
  wp (mfoldl body b l) (λ b s, I [] b s) s.
Proof.
  revert b s. induction l as [|x l IH]; intros b s H0 Hstep; simpl; [done|].
  apply wp_bind. eapply wp_mono; [apply Hstep; [by exists []|done]|].
  intros b' s' HI. apply IH; [done|]. intros y t b'' s'' [d Hd] HI'. apply Hstep; [|done].
  exists (x :: d). simpl. by rw Hd.
Qed.

Lemma wp_mfoldl_inv {A B} (I : B → S → Prop) (body : B → A → M S B) (l : list A) b s :
  I b s → (∀ b x s, x ∈ l → I b s → wp (body b x) I s) →
  wp (mfoldl body b l) I s.
Proof.
  revert b s. induction l as [|x l IH]; intros b s H0 Hstep; simpl; [done|].
  apply wp_bind. eapply wp_mono; [apply Hstep; [set_solver|done]|].
  intros b' s' HI. apply IH; [done|]. intros. apply Hstep; [set_solver|done].
Qed.

(** Partial correctness: a run that ends without a fault satisfies [Q]. *)
Definition wlp {A} (m : M S A) (Q : A → S → Prop) (s : S) : Prop :=
  match m s with Ok (a, s') => Q a s' | Fault _ => True end.

Lemma wlp_bind {A B} (m : M S A) (f : A → M S B) Q s :
  wlp m (λ a s', wlp (f a) Q s') s → wlp (m ≫= f) Q s.
Proof. rw /wlp /mbind /M_bind. by destruct (m s) as [[a s']|]. Qed.

Lemma wlp_mono {A} (m : M S A) (Q Q' : A → S → Prop) s :
  wlp m Q s → (∀ a s', Q a s' → Q' a s') → wlp m Q' s.
Proof. rw /wlp. destruct (m s) as [[a s']|]; eauto. Qed.

Lemma wlp_mfor {A} (I : S → Prop) (l : list A) (body : A → M S ()) s :
  I s → (∀ x s, x ∈ l → I s → wlp (body x) (λ _, I) s) → wlp (mfor l body) (λ _, I) s.
Proof.
  revert s. induction l as [|x l IH]; intros s H0 Hstep; simpl; [done|].
  apply wlp_bind. eapply wlp_mono; [apply Hstep; [set_solver|done]|].
  intros [] s' HI. apply IH; [done|]. intros. apply Hstep; [set_solver|done].
Qed.

(** A loop that ends without a fault has run its body without a fault for
    every element, in a state that satisfies the invariant. *)
Lemma wlp_mfor_run {A} (I : S → Prop) (l : list A) (body : A → M S ()) x s :
  I s → (∀ x s, x ∈ l → I s → wlp (body x) (λ _, I) s) → x ∈ l →
  wlp (mfor l body) (λ _ _, ∃ s1 s2, I s1 ∧ body x s1 = Ok ((), s2)) s.
Proof.
  revert s. induction l as [|y l IH]; intros s H0 Hstep Hx; simpl; [set_solver|].
  apply wlp_bind. pose proof (Hstep y s ltac:(set_solver) H0) as Hy. unfold wlp in Hy |- *.
  destruct (body y s) as [[[] s']|] eqn:E; [|done].
  apply elem_of_cons in Hx as [->|Hx].
  - destruct (mfor l body s') as [[]|]; [|done]. eauto.
  - apply IH; [done| |done]. intros. apply Hstep; [set_solver|done].
Qed.
End monad.

(** Step through a monadic program in a [wp] goal. *)
Ltac wp_step :=
  lazymatch goal with
  | |- wp (mret _) _ _ => apply wp_ret
  | |- wp (_ ≫= _) _ _ => apply wp_bind
  | |- wp (gets _) _ _ => apply wp_gets
  | |- wp (modify _) _ _ => apply wp_modify
  end; cbv beta.
Ltac wp_steps := repeat wp_step.

(** ** Lists and byte strings *)

Lemma zlen_nil {A} : zlen (@nil A) = 0.
Proof. done. Qed.
Lemma zlen_cons {A} (x : A) l : zlen (x :: l) = 1 + zlen l.
Proof. rw /zlen /=. lia. Qed.
Lemma zlen_app {A} (l k : list A) : zlen (l ++ k) = zlen l + zlen k.
Proof. rw /zlen length_app. lia. Qed.
Lemma zlen_nonneg {A} (l : list A) : 0 <= zlen l.
Proof. rw /zlen. lia. Qed.

(** Two strings with last parts of the same length are equal part by part. *)
Lemma app_inj_suffix {A} (a b c d : list A) :
  length b = length d → a ++ b = c ++ d → a = c ∧ b = d.
Proof. intros Hl He. by apply app_inj_2. Qed.

Create HintDb ba.
Create Rewrite HintDb ba_rw.
#[export] Hint Rewrite @zlen_nil @zlen_cons @zlen_app : ba_rw.
#[export] Hint Resolve zlen_nonneg : ba.

(** ** Relations *)

Lemma tc_subrel {A} (R1 R2 : relation A) x y : (∀ x y, R1 x y → R2 x y) → tc R1 x y → tc R2 x y.
Proof. intros H. apply (tc_congruence id). apply H. Qed.

(** A path after one edge is added: the edge is used, or it is not. *)
Lemma rtc_add_edge {A} (R R' : relation A) a b x y :
  (∀ u v, R' u v → R u v ∨ (u = a ∧ v = b)) →
  rtc R' x y → rtc R x y ∨ (rtc R x a ∧ rtc R b y).
Proof.
  intros H. induction 1 as [x|x y z Hxy _ IH]; [by left|].
  destruct (H _ _ Hxy) as [Hr|[-> ->]]; destruct IH as [IH|[IH1 IH2]].
  - left. by eapply rtc_l.
  - right. split; [by eapply rtc_l|done].
  - right. by split.
  - right. by split.
Qed.

Lemma acyclic_add_edge {A} (R R' : relation A) a b :
  (∀ u v, R' u v → R u v ∨ (u = a ∧ v = b)) →
  (∀ x, ¬ tc R x x) → ¬ rtc R b a → ∀ x, ¬ tc R' x x.
Proof.
  intros H Hac Hba x Ht. inversion Ht as [? ? Hs|? y ? Hs Hr]; subst.
  - destruct (H _ _ Hs) as [Hr|[E1 E2]]; [by apply (Hac x), tc_once|].
    apply Hba. by rw -E1 -E2.
  - apply tc_rtc in Hr. apply (rtc_add_edge R R' a b) in Hr; [|done].
    destruct (H _ _ Hs) as [Hxy|[-> ->]].
    + destruct Hr as [Hr|[Hr1 Hr2]].
      * apply (Hac x). by eapply tc_rtc_r; [apply tc_once|].
      * apply Hba. etrans; [done|]. eapply rtc_l; done.
    + destruct Hr as [Hr|[Hr1 Hr2]]; by apply Hba.
Qed.
