(* ===== verification/StdString.v ===== *)
(** * std::string and its numbers

    What the C++ sources use of the standard library on strings: [substr],
    [atoi], the decimal form that a stream prints, and padding with zeros.  A
    string is the list of its characters. *)

From S2P Require Import Prelude.

(** [string(s, pos, n)], [s.substr(pos, n)] *)
Definition substr (s : bytes) (pos n : nat) : res bytes :=
  if (length s <? pos)%nat then Fault OutOfRange else Ok (take n (drop pos s)).

(** The characters up to the first null. *)
Fixpoint c_str (s : bytes) : bytes :=
  match s with c :: s => if c =? 0 then [] else c :: c_str s | [] => [] end.

(** ** Reading numbers *)

Definition is_digit (c : Z) : bool := (48 <=? c) && (c <=? 57).

Fixpoint digits (acc : Z) (s : bytes) : Z :=
  match s with c :: s => if is_digit c then digits (10 * acc + (c - 48)) s else acc | [] => acc end.
Fixpoint skip_spaces (s : bytes) : bytes :=
  match s with c :: s' => if (c =? 32) || ((9 <=? c) && (c <=? 13)) then skip_spaces s' else s | [] => [] end.
(** The value that is read, before it becomes an [int]. *)
Definition atoi (s : bytes) : Z :=
  match skip_spaces s with
  | c :: s => if c =? 45 then - digits 0 s else if c =? 43 then digits 0 s else digits 0 (c :: s)
  | [] => 0
  end.

(** ** Printing numbers *)

(** The digits of [n], which has at most [fuel]. *)
Fixpoint dec_digits (fuel : nat) (n : Z) (acc : bytes) : bytes :=
  match fuel with
  | O => acc
  | S fuel => let acc := 48 + n mod 10 :: acc in if n <? 10 then acc else dec_digits fuel (n / 10) acc
  end.

(** [oss << n], of an unsigned number of at most 64 bits. *)
Definition dec (n : Z) : bytes := dec_digits 20 n [].

(** [setw(w) << setfill('0') << s] *)
Definition setw (w : nat) (s : bytes) : bytes := replicate (w - length s) 48 ++ s.

(** ** Lemmas *)

Lemma digits_app acc a b : Forall (λ c, is_digit c = true) a → digits acc (a ++ b) = digits (digits acc a) b.
Proof. intros H. revert acc. induction H as [|c a Hc _ IH]; intros acc; [done|]. cbn [app digits]. by rw Hc IH. Qed.

Lemma dec_digits_are fuel n acc : Forall (λ c, is_digit c = true) acc → Forall (λ c, is_digit c = true) (dec_digits fuel n acc).
Proof.
  revert n acc. induction fuel as [|fuel IH]; intros n acc H; [done|]. cbn [dec_digits].
  assert (Forall (λ c, is_digit c = true) (48 + n mod 10 :: acc)) as H'.
  { constructor; [|done]. unfold is_digit. pose proof (Z.mod_pos_bound n 10). lia. }
  case_match; [done|]. by apply IH.
Qed.

Lemma dec_digits_only n : Forall (λ c, is_digit c = true) (dec n).
Proof. by apply dec_digits_are. Qed.

Lemma dec_digits_length fuel n acc k : 0 <= n < 10 ^ Z.of_nat (S k) → (length (dec_digits fuel n acc) ≤ S k + length acc)%nat.
Proof.
  revert fuel n acc. induction k as [|k IH]; intros fuel n acc Hn; (destruct fuel as [|fuel]; [cbn; lia|]); cbn [dec_digits].
  - change (10 ^ Z.of_nat 1) with 10 in Hn. destruct (Z.ltb_spec n 10); [cbn; lia|lia].
  - destruct (Z.ltb_spec n 10); [cbn; lia|]. rw Nat2Z.inj_succ Z.pow_succ_r in Hn; [|lia].
    etransitivity; [apply IH; lia|]. cbn. lia.
Qed.

Lemma dec_length n k : 0 <= n < 10 ^ Z.of_nat (S k) → (length (dec n) ≤ S k)%nat.
Proof. intros Hn. pose proof (dec_digits_length 20 n [] k Hn). cbn in *. lia. Qed.

(** What is printed is read again. *)
Lemma digits_dec_digits fuel n acc : 0 <= n < 10 ^ Z.of_nat fuel → Forall (λ c, is_digit c = true) acc →
  digits 0 (dec_digits fuel n acc) = digits n acc.
Proof.
  revert n acc. induction fuel as [|fuel IH]; intros n acc Hn Hacc.
  - change (10 ^ Z.of_nat 0) with 1 in Hn. cbn. by assert (n = 0) as -> by lia.
  - cbn [dec_digits]. assert (is_digit (48 + n mod 10) = true) as Hd by (unfold is_digit; pose proof (Z.mod_pos_bound n 10); lia).
    destruct (Z.ltb_spec n 10) as [Hlt|Hge].
    + cbn [digits]. rw Hd. f_equal. rw Z.mod_small; lia.
    + rw Nat2Z.inj_succ Z.pow_succ_r in Hn; [|lia]. rw IH; [|lia|by constructor]. cbn [digits]. rw Hd. f_equal. lia.
Qed.

Lemma digits_dec n : 0 <= n < 10 ^ 20 → digits 0 (dec n) = n.
Proof. intros Hn. unfold dec. by rw (digits_dec_digits 20 n []). Qed.

Lemma setw_digits w s : Forall (λ c, is_digit c = true) s → Forall (λ c, is_digit c = true) (setw w s).
Proof. intros H. unfold setw. apply Forall_app. split; [|done]. by apply Forall_replicate. Qed.

Lemma setw_length w s : (length s ≤ w)%nat → length (setw w s) = w.
Proof. intros H. unfold setw. rw length_app length_replicate. lia. Qed.

Lemma digits_zeros n s : digits 0 (replicate n 48 ++ s) = digits 0 s.
Proof. induction n as [|n IH]; [done|]. done. Qed.

Lemma skip_digits c s : is_digit c = true → skip_spaces (c :: s) = c :: s.
Proof. unfold is_digit. intros H. cbn. destruct (Z.eqb_spec c 32); [lia|]. by destruct (Z.leb_spec 9 c), (Z.leb_spec c 13); cbn; try lia. Qed.

Lemma atoi_digits s : Forall (λ c, is_digit c = true) s → atoi s = digits 0 s.
Proof.
  intros H. destruct H as [|c s Hc _]; [done|]. unfold atoi. rw skip_digits //. unfold is_digit in Hc.
  destruct (Z.eqb_spec c 45); [lia|]. by destruct (Z.eqb_spec c 43); [lia|].
Qed.

Lemma atoi_setw w n : 0 <= n < 10 ^ 20 → atoi (setw w (dec n)) = n.
Proof.
  intros Hn. rw atoi_digits; [|apply setw_digits, dec_digits_only]. unfold setw. by rw digits_zeros digits_dec.
Qed.

Lemma setw_inj w n m : 0 <= n < 10 ^ 20 → 0 <= m < 10 ^ 20 → setw w (dec n) = setw w (dec m) → n = m.
Proof. intros Hn Hm E. by rw -(atoi_setw w n Hn) E atoi_setw. Qed.

Lemma substr_at s a b c pos n : s = a ++ b ++ c → length a = pos → length b = n → substr s pos n = Ok b.
Proof.
  intros -> <- <-. unfold substr. rw !length_app. destruct (Nat.ltb_spec (length a + (length b + length c)) (length a)); [lia|].
  f_equal. by rw drop_app_length take_app_length.
Qed.

Lemma c_str_digits s : Forall (λ c, is_digit c = true) s → c_str s = s.
Proof. induction 1 as [|c s Hc _ IH]; [done|]. cbn. unfold is_digit in Hc. destruct (Z.eqb_spec c 0); [lia|]. by rw IH. Qed.
