(* ===== verification/Enums.v ===== *)
(** * Protocol constants

    The enumerations of lib/blackadder_enums.hpp, with the values the C++
    compiler gives them. *)

From S2P Require Import Prelude.

(** ** enum IDLengths: sizes in bytes *)
Definition PURSUIT_ID_LEN : nat := 8.
Definition FID_LEN : nat := 32.
Definition NODEID_LEN : nat := 8.

(** ** enum root_namespaces_t *)
Definition NAMESPACE_IP : Z := 0.
Definition NAMESPACE_HTTP : Z := 1.
Definition NAMESPACE_COAP : Z := 2.
Definition NAMESPACE_MANAGEMENT : Z := 4.
Definition NAMESPACE_LINK_STATE : Z := 6.
Definition NAMESPACE_PATH_MANAGEMENT : Z := 7.
Definition NAMESPACE_IGMP_CTRL : Z := 9.
Definition NAMESPACE_IGMP_DATA : Z := 10.
Definition NAMESPACE_APP_RV : Z := 11.
Definition NAMESPACE_RV_TM : Z := 12.
Definition NAMESPACE_TM_APP : Z := 13.
Definition NAMESPACE_UNKNOWN : Z := 14.

(** enum information_items_t: DEFAULT_HTTP_IID *)
Definition DEFAULT_HTTP_IID : Z := 0.

(** ** enum suffix, enum notification_scopes *)
Definition SUFFIX_NOTIFICATION : Z := 255.
Definition LINK_STATE_NOTIFICATION : Z := 201.

(** ** enum Strategies *)
Definition LINK_LOCAL : Z := 1.
Definition DOMAIN_LOCAL : Z := 2.
Definition IMPLICIT_RENDEZVOUS : Z := 3.
Definition BROADCAST_IF : Z := 4.
Definition NODE_LOCAL : Z := 5.

(** ** enum port_identifiers_t *)
Definition PID_BLACKADDER : Z := 9999.
Definition PID_MAPI : Z := 10004.

(** ** enum ClickMessageTypes *)
Definition UNDEF_EVENT : Z := 0.
Definition PUBLISH_SCOPE : Z := 0.
Definition PUBLISH_INFO : Z := 1.
Definition UNPUBLISH_SCOPE : Z := 2.
Definition UNPUBLISH_INFO : Z := 3.
Definition SUBSCRIBE_SCOPE : Z := 4.
Definition SUBSCRIBE_INFO : Z := 5.
Definition UNSUBSCRIBE_SCOPE : Z := 6.
Definition UNSUBSCRIBE_INFO : Z := 7.
Definition PUBLISH_DATA : Z := 8.
Definition PUBLISH_DATA_iSUB : Z := 9.
Definition CONTROL_REC : Z := 9.
Definition CONTROL_ACK : Z := 10.
Definition DISCONNECT : Z := 11.
Definition ADD_LINK : Z := 12.
Definition REMOVE_LINK : Z := 13.
Definition DISCONNECTED : Z := 14.
Definition RECONNECTED : Z := 15.
Definition UPDATE_RVFID : Z := 55.
Definition UPDATE_TMFID : Z := 56.
Definition UPDATE_DELIVERY : Z := 57.
Definition DISCOVER_FAILURE : Z := 58.
Definition START_PUBLISH : Z := 100.
Definition STOP_PUBLISH : Z := 101.
Definition SCOPE_PUBLISHED : Z := 102.
Definition SCOPE_UNPUBLISHED : Z := 103.
Definition PUBLISHED_DATA : Z := 104.
Definition MATCH_PUB_SUBS : Z := 105.
Definition RV_RESPONSE : Z := 106.
Definition UPDATE_FID : Z := 107.
Definition UPDATE_PUBLISH : Z := 108.
Definition PUBLISHED_DATA_iSUB : Z := 109.
Definition MATCH_PUB_iSUBS : Z := 110.
Definition PUBLISH_DATA_iMULTICAST : Z := 111.
Definition UPDATE_FID_iSUB : Z := 112.
Definition RE_PUBLISH : Z := 113.
Definition PAUSE_PUBLISH : Z := 114.
Definition RESUME_PUBLISH : Z := 115.
Definition START_PUBLISH_iSUB : Z := 116.
Definition STOP_PUBLISH_iSUB : Z := 117.
Definition CONTROL_REQ_FAILURE : Z := 158.
Definition CONTROL_REQ_SUCCESS : Z := 159.

(** ** enum MapiMessageTypes, enum ClickManagementMessageTypes *)
Definition GET_NODEID : Z := 0.
Definition GET_RVTMFID : Z := 1.
Definition SET_CONNECTION_STATUS : Z := 2.
Definition NODEID_IS : Z := 0.
Definition RVTMFID_IS : Z := 1.

(** ** enum ELEMENTtype *)
Inductive ELEMENTtype := LOCAL_PROCESS | CLICK_ELEMENT.

(** ** enum RvReturnCodes *)
Inductive RvReturnCode :=
  | SUCCESS
  | WRONG_IDS
  | STRATEGY_MISMATCH
  | EXISTS
  | FATHER_DOES_NOT_EXIST
  | INFO_ITEM_WITH_SAME_ID
  | SCOPE_DOES_NOT_EXIST
  | SCOPE_WITH_SAME_ID
  | INFO_DOES_NOT_EXIST
  | DOES_NOT_EXIST
  | UNKNOWN_REQUEST_TYPE.

#[export] Instance RvReturnCode_eq_dec : EqDecision RvReturnCode.
Proof. solve_decision. Defined.
