(* ===== verification/HashTable.v ===== *)
(** * The Click hash table, as an interface

    Click's [HashTable] is not part of this repository.  The core elements
    use it for every index and every set, so the development states what they
    rely on as a class: a finite map whose iteration order is not specified.
    A set ([HashTable<LocalHostSetItem>] and the like, common.hh) is a table
    with unit values.  [AList] is a concrete implementation of the class, used
    to run the definitions on concrete inputs. *)

From S2P Require Import Prelude.

Class HashTable (K : Type) {HK : EqDecision K} (T : Type → Type) := {
  ht_empty : ∀ {V}, T V;
  (** [get(k)]: [None] stands for [default_value()] *)
  ht_get : ∀ {V}, K → T V → option V;
  (** [set(k, v)] *)
  ht_set : ∀ {V}, K → V → T V → T V;
  (** assignment through a reference or a pointer held by the table *)
  ht_alter : ∀ {V}, (V → V) → K → T V → T V;
  (** [erase(k)] *)
  ht_erase : ∀ {V}, K → T V → T V;
  (** the elements from [begin()] to [end()] *)
  ht_elems : ∀ {V}, T V → list (K * V);

  ht_get_empty : ∀ {V} k, ht_get k (@ht_empty V) = None;
  ht_get_set : ∀ {V} k k' (v : V) t,
    ht_get k' (ht_set k v t) = if decide (k = k') then Some v else ht_get k' t;
  ht_get_alter : ∀ {V} k k' (f : V → V) t,
    ht_get k' (ht_alter f k t) = if decide (k = k') then f <$> ht_get k' t else ht_get k' t;
  ht_get_erase : ∀ {V} k k' (t : T V),
    ht_get k' (ht_erase k t) = if decide (k = k') then None else ht_get k' t;
  ht_elem_get : ∀ {V} k (v : V) t, (k, v) ∈ ht_elems t ↔ ht_get k t = Some v;
  ht_elems_nodup : ∀ {V} (t : T V), NoDup (ht_elems t).*1;
  (** mutating a value in place does not move it *)
  ht_alter_order : ∀ {V} k (f : V → V) (t : T V),
    (ht_elems (ht_alter f k t)).*1 = (ht_elems t).*1;
}.

Section derived.
Context {K : Type} `{EqDecision K} {T : Type → Type} `{!HashTable K T}.
Context {V : Type}.
Implicit Types (t : T V) (k : K).

Definition ht_keys t : list K := (ht_elems t).*1.
Definition ht_vals t : list V := (ht_elems t).*2.
Definition ht_size t : nat := length (ht_elems t).
(** [empty()] *)
Definition ht_is_empty t : bool := match ht_elems t with [] => true | _ => false end.
(** [find(k) != end()] *)
Definition ht_mem k t : bool := match ht_get k t with Some _ => true | None => false end.
(** [find_insert]: inserts when the key is absent *)
Definition ht_find_insert k (v : V) t : T V :=
  match ht_get k t with Some _ => t | None => ht_set k v t end.
(** [( *begin()).first]; the source dereferences it without a test *)
Definition ht_first t : option K := head (ht_keys t).
End derived.

(** The set operations: tables with unit values. *)
Section sets.
Context {K : Type} `{EqDecision K} {T : Type → Type} `{!HashTable K T}.

Definition hs_insert (k : K) (t : T ()) : T () := ht_find_insert k () t.
(** [for (x : l) t.find_insert(x)] *)
Definition hs_insert_all (l : list K) (t : T ()) : T () := foldl (λ t k, hs_insert k t) t l.
Definition hs_singleton (k : K) : T () := hs_insert k ht_empty.
End sets.

(** The tables the core instantiates: keyed by strings, by addresses and by
    integers. *)
Class ClickTables := {
  SH : Type → Type;
  PH : Type → Type;
  IH : Type → Type;
  SH_table :: HashTable bytes SH;
  PH_table :: HashTable ptr PH;
  IH_table :: HashTable Z IH;
}.

(** ** An implementation: association lists in insertion order *)

Section alist.
Context {K : Type} `{EqDecision K}.

Definition AList (V : Type) : Type := list (K * V).

Fixpoint al_get {V} (k : K) (t : AList V) : option V :=
  match t with
  | [] => None
  | (k', v) :: t => if decide (k = k') then Some v else al_get k t
  end.

Definition al_alter {V} (f : V → V) (k : K) (t : AList V) : AList V :=
  (λ '(k', v), (k', if decide (k = k') then f v else v)) <$> t.

Definition al_erase {V} (k : K) (t : AList V) : AList V := filter (λ '(k', _), k ≠ k') t.

Definition al_set {V} (k : K) (v : V) (t : AList V) : AList V :=
  match al_get k t with
  | Some _ => al_alter (λ _, v) k t
  | None => t ++ [(k, v)]
  end.

(** The first binding of each key. *)
Fixpoint al_elems_from {V} (seen : list K) (t : AList V) : list (K * V) :=
  match t with
  | [] => []
  | (k, v) :: t =>
      if decide (k ∈ seen) then al_elems_from seen t else (k, v) :: al_elems_from (k :: seen) t
  end.
Definition al_elems {V} (t : AList V) : list (K * V) := al_elems_from [] t.

Lemma al_get_alter {V} k k' (f : V → V) t :
  al_get k' (al_alter f k t) = if decide (k = k') then f <$> al_get k' t else al_get k' t.
Proof.
  induction t as [|[k1 v] t IH]; simpl; [by case_decide|].
  rw IH. repeat case_decide; naive_solver.
Qed.

Lemma al_get_app {V} k (t1 t2 : AList V) :
  al_get k (t1 ++ t2) = match al_get k t1 with Some v => Some v | None => al_get k t2 end.
Proof. induction t1 as [|[k1 v] t IH]; simpl; [done|]. by case_decide. Qed.

Lemma al_get_set {V} k k' (v : V) t :
  al_get k' (al_set k v t) = if decide (k = k') then Some v else al_get k' t.
Proof.
  unfold al_set. destruct (al_get k t) as [w|] eqn:Hk.
  - rw al_get_alter. case_decide; [|done]. subst. by rw Hk.
  - rw al_get_app /=. destruct (decide (k = k')) as [<-|]; [by rw Hk decide_True|].
    rw decide_False //. by destruct (al_get k' t).
Qed.

Lemma al_get_erase {V} k k' (t : AList V) :
  al_get k' (al_erase k t) = if decide (k = k') then None else al_get k' t.
Proof.
  unfold al_erase. induction t as [|[k1 v] t IH]; [by case_decide|].
  rw filter_cons. repeat (case_decide || simplify_eq/=); rw ?IH;
    repeat case_decide; naive_solver.
Qed.

Lemma al_elem_get_from {V} seen k (v : V) t :
  (k, v) ∈ al_elems_from seen t ↔ k ∉ seen ∧ al_get k t = Some v.
Proof.
  revert seen. induction t as [|[k1 v1] t IH]; intros seen; simpl; [set_solver|].
  case_decide; [rw IH; case_decide; naive_solver|].
  rw elem_of_cons IH. case_decide; set_solver.
Qed.

Lemma al_elems_nodup_from {V} seen (t : AList V) : NoDup (al_elems_from seen t).*1.
Proof.
  revert seen. induction t as [|[k v] t IH]; intros seen; simpl; [constructor|].
  case_decide; [done|]. simpl. constructor; [|done].
  intros ([k' v'] & -> & Hin)%list_elem_of_fmap. apply al_elem_get_from in Hin. set_solver.
Qed.

Lemma al_alter_order_from {V} seen k (f : V → V) (t : AList V) :
  (al_elems_from seen (al_alter f k t)).*1 = (al_elems_from seen t).*1.
Proof.
  unfold al_alter. revert seen. induction t as [|[k1 v] t IH]; intros seen; simpl; [done|].
  case_decide; simpl; [done|]. f_equal. apply IH.
Qed.

Program Definition AList_table : HashTable K AList := {|
  ht_empty V := []; ht_get := @al_get; ht_set := @al_set; ht_alter := @al_alter;
  ht_erase := @al_erase; ht_elems := @al_elems |}.
Next Obligation. done. Qed.
Next Obligation. intros. apply al_get_set. Qed.
Next Obligation. intros. apply al_get_alter. Qed.
Next Obligation. intros. apply al_get_erase. Qed.
Next Obligation.
  intros. unfold al_elems. rw al_elem_get_from. set_solver.
Qed.
Next Obligation. intros. apply al_elems_nodup_from. Qed.
Next Obligation. intros. apply al_alter_order_from. Qed.
End alist.

(** The instance on which witnesses run. *)
Definition alist_tables : ClickTables := {|
  SH := @AList bytes; PH := @AList ptr; IH := @AList Z;
  SH_table := AList_table; PH_table := AList_table; IH_table := AList_table |}.

(** ** Lemmas on tables *)

Section lemmas.
Context {K : Type} `{EqDecision K} {T : Type → Type} `{!HashTable K T}.
Context {V : Type}.
Implicit Types (t : T V) (k : K) (v : V).

Lemma ht_get_set_eq k v t : ht_get k (ht_set k v t) = Some v.
Proof. rw ht_get_set. by case_decide. Qed.
Lemma ht_get_set_ne k k' v t : k ≠ k' → ht_get k' (ht_set k v t) = ht_get k' t.
Proof. intros. rw ht_get_set. by case_decide. Qed.
Lemma ht_get_erase_eq k t : ht_get k (ht_erase k t) = None.
Proof. rw ht_get_erase. by case_decide. Qed.
Lemma ht_get_erase_ne k k' t : k ≠ k' → ht_get k' (ht_erase k t) = ht_get k' t.
Proof. intros. rw ht_get_erase. by case_decide. Qed.
Lemma ht_is_Some_alter f k k' t : is_Some (ht_get k' (ht_alter f k t)) ↔ is_Some (ht_get k' t).
Proof. rw ht_get_alter. case_decide; [by rw fmap_is_Some|done]. Qed.

Lemma elem_of_ht_keys k t : k ∈ ht_keys t ↔ is_Some (ht_get k t).
Proof.
  unfold ht_keys. rw list_elem_of_fmap. split.
  - intros ([k' v] & -> & Hin). apply ht_elem_get in Hin. eauto.
  - intros [v Hv]. exists (k, v). by rw ht_elem_get.
Qed.

Lemma elem_of_ht_vals v t : v ∈ ht_vals t ↔ ∃ k, ht_get k t = Some v.
Proof.
  unfold ht_vals. rw list_elem_of_fmap. split.
  - intros ([k v'] & -> & Hin). exists k. by apply ht_elem_get.
  - intros [k Hk]. exists (k, v). by rw ht_elem_get.
Qed.

Lemma ht_keys_nodup t : NoDup (ht_keys t).
Proof. apply ht_elems_nodup. Qed.

Lemma ht_get_find_insert k k' v t :
  ht_get k' (ht_find_insert k v t) =
    match ht_get k' t with Some w => Some w | None => if decide (k = k') then Some v else None end.
Proof.
  unfold ht_find_insert. destruct (ht_get k t) as [w|] eqn:Hk.
  - destruct (ht_get k' t) eqn:?; [done|]. case_decide; [congruence|done].
  - rw ht_get_set. case_decide; [|by destruct (ht_get k' t)]. subst. by rw Hk.
Qed.

Lemma ht_mem_true k t : ht_mem k t = true ↔ is_Some (ht_get k t).
Proof. unfold ht_mem. destruct (ht_get k t); naive_solver. Qed.
Lemma ht_mem_false k t : ht_mem k t = false ↔ ht_get k t = None.
Proof. unfold ht_mem. destruct (ht_get k t); naive_solver. Qed.

Lemma ht_is_empty_true t : ht_is_empty t = true ↔ ∀ k, ht_get k t = None.
Proof.
  unfold ht_is_empty. destruct (ht_elems t) as [|[k v] l] eqn:He; split; try done.
  - intros _ k. apply eq_None_not_Some. rw -elem_of_ht_keys /ht_keys He. set_solver.
  - intros Hn. specialize (Hn k).
    assert (ht_get k t = Some v) by (apply ht_elem_get; rw He; set_solver). congruence.
Qed.

Lemma ht_is_empty_false t : ht_is_empty t = false ↔ ∃ k, is_Some (ht_get k t).
Proof.
  unfold ht_is_empty. destruct (ht_elems t) as [|[k v] l] eqn:He; split; try done.
  - intros [k [v Hk]%elem_of_ht_keys%list_elem_of_fmap]. rw He in Hk. set_solver.
  - intros _. exists k. apply elem_of_ht_keys. rw /ht_keys He. set_solver.
Qed.

Lemma ht_size_empty_iff t : ht_size t = 0%nat ↔ ∀ k, ht_get k t = None.
Proof.
  rw -ht_is_empty_true /ht_size /ht_is_empty. by destruct (ht_elems t).
Qed.

Lemma ht_size_nonzero t : ht_size t ≠ 0%nat ↔ ∃ k, is_Some (ht_get k t).
Proof.
  rw -ht_is_empty_false. unfold ht_size, ht_is_empty. by destruct (ht_elems t).
Qed.

Lemma ht_first_Some t k : ht_first t = Some k → is_Some (ht_get k t).
Proof.
  unfold ht_first. intros Hh%head_Some_elem_of. by apply elem_of_ht_keys.
Qed.

Lemma ht_first_nonempty t : (∃ k, is_Some (ht_get k t)) → ∃ k, ht_first t = Some k.
Proof.
  intros [k Hk%elem_of_ht_keys]. unfold ht_first. destruct (ht_keys t); [set_solver|eauto].
Qed.

Lemma ht_size_1 t k : ht_size t = 1%nat → is_Some (ht_get k t) →
  ∀ k', is_Some (ht_get k' t) → k' = k.
Proof.
  intros Hs Hk%elem_of_ht_keys k' Hk'%elem_of_ht_keys.
  unfold ht_size in Hs. unfold ht_keys in *.
  destruct (ht_elems t) as [|x [|y l]]; simpl in *; try lia. set_solver.
Qed.

Lemma ht_size_ne_1 t k : ht_size t ≠ 1%nat → is_Some (ht_get k t) →
  ∃ k', k' ≠ k ∧ is_Some (ht_get k' t).
Proof.
  intros Hs Hk%elem_of_ht_keys. setoid_rewrite <- elem_of_ht_keys.
  pose proof (ht_keys_nodup t) as Hnd. unfold ht_size in Hs. unfold ht_keys in *.
  destruct (ht_elems t) as [|x [|y l]]; simpl in *; [set_solver|done|].
  apply NoDup_cons in Hnd as [Hx _].
  destruct (decide (k = x.1)) as [->|]; [exists y.1; set_solver|exists x.1; set_solver].
Qed.
End lemmas.

Section set_lemmas.
Context {K : Type} `{EqDecision K} {T : Type → Type} `{!HashTable K T}.
Implicit Types (t : T ()).

(** Membership: the abstraction of a set table. *)
Definition hs_in (k : K) t : Prop := is_Some (ht_get k t).

#[export] Instance hs_in_dec k t : Decision (hs_in k t).
Proof. unfold hs_in. apply _. Defined.

Lemma hs_in_empty k : ¬ hs_in k ht_empty.
Proof. unfold hs_in. rw ht_get_empty. by intros []. Qed.

Lemma hs_in_insert k k' t : hs_in k' (hs_insert k t) ↔ k' = k ∨ hs_in k' t.
Proof.
  unfold hs_in, hs_insert. rw ht_get_find_insert.
  destruct (ht_get k' t); [naive_solver|]. case_decide; [naive_solver|].
  split; [by intros []|]. by intros [->|[]].
Qed.

Lemma hs_in_singleton k k' : hs_in k' (hs_singleton (T:=T) k) ↔ k' = k.
Proof.
  unfold hs_singleton. rw hs_in_insert. pose proof (hs_in_empty k'). tauto.
Qed.

Lemma hs_in_insert_all l k t : hs_in k (hs_insert_all l t) ↔ k ∈ l ∨ hs_in k t.
Proof.
  unfold hs_insert_all. revert t. induction l as [|x l IH]; intros t; simpl; [set_solver|].
  rw IH hs_in_insert. set_solver.
Qed.

Lemma hs_in_erase k k' t : hs_in k' (ht_erase k t) ↔ k' ≠ k ∧ hs_in k' t.
Proof. unfold hs_in. rw ht_get_erase. case_decide; [|naive_solver]. split; [by intros []|naive_solver]. Qed.

Lemma hs_in_keys k t : hs_in k t ↔ k ∈ ht_keys t.
Proof. by rw elem_of_ht_keys. Qed.
End set_lemmas.

#[export] Hint Rewrite @ht_get_empty @ht_get_set_eq @ht_get_erase_eq : ba_rw.
