(* ===== verification/BitVector.v ===== *)
(** * BABitvector: the LIPSIN identifiers

    Model of src/src/ba_bitvector.hh and ba_bitvector.cc: a vector of
    [_max + 1] bits stored in 32-bit words, with two words of inline storage.
    The abstract view of a vector is its bit function [bv_bit]; the theorems
    relate every operation on words to the bits it promises. *)

From S2P Require Import Prelude Enums.

(** The fields [_max] and [_data]; [_data] always has at least the two inline
    words [_f0] and [_f1]. *)
Record BABitvector := mkBV { bv_max : Z; bv_data : list Z }.

(** uint32_t *)
Definition word_ok (w : Z) : Prop := 0 <= w < 2 ^ 32.
Definition not32 (w : Z) : Z := Z.land (Z.lnot w) (Z.ones 32).

Definition MAX_INLINE_BIT : Z := 63.
Definition MAX_INLINE_WORD : Z := 1.

Definition BABitvector_max_word (m : Z) : Z := if m <? 0 then -1 else Z.shiftr m 5.
(** iterations of [for (i = 0; i <= max_word(); i++)] *)
Definition nwords (m : Z) : nat := Z.to_nat (BABitvector_max_word m + 1).

Definition BABitvector_size (b : BABitvector) : Z := bv_max b + 1.

Definition BABitvector_empty : BABitvector := mkBV (-1) [0; 0].

Definition BABitvector_resize_to_max (new_max : Z) (valid_n : bool) (b : BABitvector) : BABitvector :=
  let want_u := Z.shiftr new_max 5 + 1 in
  let have_u0 := (if valid_n then BABitvector_max_word (bv_max b) else MAX_INLINE_WORD) + 1 in
  let have_u := if have_u0 <? MAX_INLINE_WORD + 1 then MAX_INLINE_WORD + 1 else have_u0 in
  if want_u <=? have_u then b
  else mkBV (bv_max b) (take (Z.to_nat have_u) (bv_data b) ++ replicate (Z.to_nat (want_u - have_u)) 0).

(** [BABitvector(int n)] *)
Definition BABitvector_make (n : Z) : BABitvector :=
  let b := mkBV (n - 1) [0; 0] in
  if bv_max b >? MAX_INLINE_BIT then BABitvector_resize_to_max (bv_max b) false b else b.

Definition BABitvector_resize (n : Z) (b : BABitvector) : BABitvector :=
  let b' := if n - 1 >? MAX_INLINE_BIT then BABitvector_resize_to_max (n - 1) true b else b in
  mkBV (n - 1) (bv_data b').

(** A loop over the first [n] words of [data] and [o]. *)
Fixpoint word_loop (f : Z → Z → Z) (n : nat) (data o : list Z) : res (list Z) :=
  match n with
  | O => Ok data
  | S n =>
      match data, o with
      | d :: data, w :: o => r ← word_loop f n data o; Ok (f d w :: r)
      | _, _ => Fault OutOfBounds
      end
  end.

Fixpoint word_fill (f : Z → Z) (n : nat) (data : list Z) : res (list Z) :=
  match n with
  | O => Ok data
  | S n =>
      match data with
      | d :: data => r ← word_fill f n data; Ok (f d :: r)
      | [] => Fault OutOfBounds
      end
  end.

Definition BABitvector_clear (b : BABitvector) : res BABitvector :=
  d ← word_fill (λ _, 0) (nwords (bv_max b)) (bv_data b); Ok (mkBV (bv_max b) d).

(** [zero()]: no word of the vector has a bit set *)
Definition BABitvector_zero (b : BABitvector) : bool :=
  forallb (λ w, w =? 0) (take (nwords (bv_max b)) (bv_data b)).

Definition BABitvector_clear_last (b : BABitvector) : BABitvector :=
  if bv_max b <? 0 then mkBV (bv_max b) (<[0%nat := 0]> (bv_data b))
  else if negb (Z.land (bv_max b) 0x1F =? 0x1F) then
    let mask := Z.shiftl 1 (Z.land (bv_max b) 0x1F + 1) - 1 in
    let i := Z.to_nat (Z.shiftr (bv_max b) 5) in
    mkBV (bv_max b) (alter (λ w, Z.land w mask) i (bv_data b))
  else b.

(** [b = o] *)
Definition BABitvector_copy (b o : BABitvector) : BABitvector :=
  if BABitvector_max_word (bv_max o) <=? MAX_INLINE_WORD
  then mkBV (bv_max o) (take 2 (bv_data o) ++ drop 2 (bv_data b))
  else mkBV (bv_max o) (take (nwords (bv_max o)) (bv_data o)).

Definition BABitvector_assign (n : Z) (value : bool) (b : BABitvector) : res BABitvector :=
  let b := BABitvector_resize n b in
  let bits := if value then 0xFFFFFFFF else 0 in
  let copy := if n >? 32 then BABitvector_max_word (bv_max b) else 0 in
  d ← word_fill (λ _, bits) (Z.to_nat (copy + 1)) (bv_data b);
  let b := mkBV (bv_max b) d in
  Ok (if value then BABitvector_clear_last b else b).

Definition BABitvector_negate (b : BABitvector) : res BABitvector :=
  d ← word_fill not32 (nwords (bv_max b)) (bv_data b);
  Ok (BABitvector_clear_last (mkBV (bv_max b) d)).

(** [assert(o._max == _max)] *)
Definition same_max (b o : BABitvector) : res () :=
  if bv_max o =? bv_max b then Ok () else Fault OutOfBounds.

Definition BABitvector_and_assign (b o : BABitvector) : res BABitvector :=
  same_max b o ;;
  d ← word_loop Z.land (nwords (bv_max b)) (bv_data b) (bv_data o); Ok (mkBV (bv_max b) d).

Definition BABitvector_or_assign (b o : BABitvector) : res BABitvector :=
  let b := if bv_max o >? bv_max b then BABitvector_resize (bv_max o + 1) b else b in
  d ← word_loop Z.lor (nwords (bv_max b)) (bv_data b) (bv_data o); Ok (mkBV (bv_max b) d).

Definition BABitvector_xor_assign (b o : BABitvector) : res BABitvector :=
  same_max b o ;;
  d ← word_loop Z.lxor (nwords (bv_max b)) (bv_data b) (bv_data o); Ok (mkBV (bv_max b) d).

(** [x - y] is [x & ~y] *)
Definition BABitvector_sub (b o : BABitvector) : res BABitvector :=
  no ← BABitvector_negate o; BABitvector_and_assign b no.

(** [this |= o], keeping the newly set bits in [diff] *)
Definition BABitvector_or_with_difference (b o diff : BABitvector) : res (BABitvector * BABitvector) :=
  same_max b o ;;
  let diff := if negb (bv_max diff =? bv_max b) then BABitvector_resize (bv_max b + 1) diff else diff in
  dd ← word_loop (λ d w, Z.land w (not32 d)) (nwords (bv_max b)) (bv_data b) (bv_data o);
  d ← word_loop Z.lor (nwords (bv_max b)) (bv_data b) (bv_data o);
  Ok (mkBV (bv_max b) d,
      mkBV (bv_max diff) (take (nwords (bv_max b)) dd ++ drop (nwords (bv_max b)) (bv_data diff))).

Definition BABitvector_nonzero_intersection (b o : BABitvector) : bool :=
  let nn := Nat.min (nwords (bv_max o)) (nwords (bv_max b)) in
  existsb (λ '(d, w), negb (Z.land d w =? 0))
    (zip (take nn (bv_data b)) (take nn (bv_data o))).

Definition BABitvector_eqb (b o : BABitvector) : bool :=
  if negb (bv_max b =? bv_max o) then false
  else if bv_max b <=? MAX_INLINE_BIT
  then bool_decide (take 2 (bv_data b) = take 2 (bv_data o))
  else bool_decide (take (nwords (bv_max b)) (bv_data b) = take (nwords (bv_max b)) (bv_data o)).

(** [operator[](i)]: a read of one bit, with the precondition asserted *)
Definition BABitvector_get (b : BABitvector) (i : Z) : res bool :=
  if (0 <=? i) && (i <=? bv_max b)
  then w ← or_fault OutOfBounds (bv_data b !! Z.to_nat (Z.shiftr i 5));
       Ok (negb (Z.land w (Z.shiftl 1 (Z.land i 31)) =? 0))
  else Fault OutOfBounds.

(** [b[i] = x] through [BABitvector::Bit] *)
Definition Bit_assign (x : bool) (mask w : Z) : Z :=
  if x then Z.lor w mask else Z.land w (not32 mask).
Definition BABitvector_set (b : BABitvector) (i : Z) (x : bool) : res BABitvector :=
  if (0 <=? i) && (i <=? bv_max b)
  then Ok (mkBV (bv_max b)
             (alter (Bit_assign x (Z.shiftl 1 (Z.land i 31))) (Z.to_nat (Z.shiftr i 5)) (bv_data b)))
  else Fault OutOfBounds.

(** [to_string()]: the bits from the last to the first, as '1' (49) and '0' (48) *)
Fixpoint to_string_from (b : BABitvector) (i : nat) : res bytes :=
  match i with
  | O => Ok []
  | S i => x ← BABitvector_get b (Z.of_nat i);
           r ← to_string_from b i;
           Ok ((if x : bool then 49 else 48) :: r)
  end.
Definition BABitvector_to_string (b : BABitvector) : res bytes :=
  to_string_from b (Z.to_nat (BABitvector_size b)).

(** The loop the elements use to read an identifier from its configuration
    string: [for j: v[len - j - 1] = (s.at(j) == '1')]. *)
Fixpoint parse_bits (b : BABitvector) (s : bytes) : res BABitvector :=
  match s with
  | [] => Ok b
  | c :: s => b ← BABitvector_set b (zlen s) (c =? 49); parse_bits b s
  end.

(** [memcpy(v._data, p, FID_LEN)] and its inverse on a little-endian host. *)
Definition word4 (a b c d : Z) : Z :=
  Z.lor a (Z.lor (Z.shiftl b 8) (Z.lor (Z.shiftl c 16) (Z.shiftl d 24))).
Fixpoint words_of_bytes (l : bytes) : list Z :=
  match l with
  | a :: b :: c :: d :: l =>
      word4 a b c d :: words_of_bytes l
  | _ => []
  end.
Definition bytes_of_word (w : Z) : bytes :=
  [Z.land w 255; Z.land (Z.shiftr w 8) 255; Z.land (Z.shiftr w 16) 255; Z.land (Z.shiftr w 24) 255].
Definition bytes_of_words (l : list Z) : bytes := mjoin (bytes_of_word <$> l).

(** [BABitvector FID(FID_LEN * 8); memcpy(FID._data, src, FID_LEN);] *)
Definition FID_of_bytes (src : bytes) : BABitvector :=
  mkBV (Z.of_nat FID_LEN * 8 - 1) (words_of_bytes (take FID_LEN src)).
Definition bytes_of_FID (b : BABitvector) : bytes := take FID_LEN (bytes_of_words (bv_data b)).

(** ** The abstract view *)

(** Bit [i] of the storage. *)
Definition data_bit (d : list Z) (i : nat) : bool :=
  Z.testbit (nth (i / 32) d 0) (Z.of_nat (i mod 32)).
Definition bv_bit (b : BABitvector) (i : nat) : bool := data_bit (bv_data b) i.
Definition bv_len (b : BABitvector) : nat := Z.to_nat (BABitvector_size b).

(** A well-formed vector: storage for its bits, words in range, and no bit
    set between the size and the end of the last word (or of the inline
    storage). *)
Record bv_wf (b : BABitvector) : Prop := {
  wf_max : -1 <= bv_max b;
  wf_len : (2 `max` nwords (bv_max b) ≤ length (bv_data b))%nat;
  wf_words : Forall word_ok (bv_data b);
  wf_clean : ∀ i, bv_max b < Z.of_nat i → (i < 32 * (2 `max` nwords (bv_max b)))%nat →
    bv_bit b i = false;
}.

(** ** Words *)

Ltac Zify.zify_post_hook ::= Z.to_euclidean_division_equations.

Lemma word_ok_bits w : word_ok w ↔ 0 <= w ∧ ∀ k, 32 <= k → Z.testbit w k = false.
Proof.
  unfold word_ok. split.
  - intros [H0 H1]. split; [done|]. intros k Hk. destruct (decide (w = 0)) as [->|].
    { apply Z.bits_0. }
    apply Z.bits_above_log2; [done|]. apply Z.log2_lt_pow2 in H1; lia.
  - intros [H0 Hb]. split; [done|]. destruct (decide (w = 0)) as [->|]; [lia|].
    apply Z.log2_lt_pow2; [lia|]. destruct (decide (Z.log2 w < 32)); [done|].
    specialize (Hb (Z.log2 w) ltac:(lia)). rw Z.bit_log2 in Hb; [done|lia].
Qed.

Lemma not32_bit w k : 0 <= k → Z.testbit (not32 w) k = (k <? 32) && negb (Z.testbit w k).
Proof.
  intros Hk. unfold not32. rw Z.land_spec Z.lnot_spec // Z.testbit_ones; [|lia].
  replace (0 <=? k) with true by lia. simpl. apply andb_comm.
Qed.

Lemma word_ok_op f w v :
  (∀ k, 0 <= k → Z.testbit (f w v) k = true → Z.testbit w k = true ∨ Z.testbit v k = true) →
  0 <= f w v → word_ok w → word_ok v → word_ok (f w v).
Proof.
  intros Hf H0 [_ Hw]%word_ok_bits [_ Hv]%word_ok_bits. apply word_ok_bits. split; [done|].
  intros k Hk. destruct (Z.testbit (f w v) k) eqn:E; [|done].
  apply Hf in E as [E|E]; [rw Hw in E; done|rw Hv in E; done|lia].
Qed.

Lemma word_ok_not32 w : word_ok (not32 w).
Proof.
  apply word_ok_bits. split; [apply Z.land_nonneg; right; done|].
  intros k Hk. rw not32_bit; [|lia]. replace (k <? 32) with false by lia. done.
Qed.

Lemma word_ok_land w m : word_ok w → word_ok (Z.land w m).
Proof.
  intros [H0 Hw]%word_ok_bits. apply word_ok_bits. split; [apply Z.land_nonneg; lia|].
  intros k Hk. by rw Z.land_spec Hw.
Qed.

Lemma word_ok_0 : word_ok 0.
Proof. unfold word_ok. lia. Qed.

(** ** Loops over words *)

Lemma nth_length_default {A} (l : list A) j d : (length l ≤ j)%nat → nth j l d = d.
Proof. apply nth_overflow. Qed.

Lemma word_loop_spec f n data o :
  (n ≤ length data)%nat → (n ≤ length o)%nat →
  ∃ r, word_loop f n data o = Ok r ∧ length r = length data ∧
    ∀ j, nth j r 0 = if decide (j < n)%nat then f (nth j data 0) (nth j o 0) else nth j data 0.
Proof.
  revert data o. induction n as [|n IH]; intros data o Hd Ho; cbn [word_loop].
  { exists data. split_and!; [done..|]. intros j. case_decide; [lia|done]. }
  destruct data as [|d data]; [simpl in *; lia|]. destruct o as [|w o]; [simpl in *; lia|].
  destruct (IH data o) as (r & Hr & Hlen & Hnth); [simpl in *; lia..|].
  rw Hr. exists (f d w :: r). split_and!; [done|simpl; lia|].
  intros [|j]; cbn [nth]; [case_decide; [done|lia]|].
  rw Hnth. repeat case_decide; try done; lia.
Qed.

Lemma word_fill_spec f n data :
  (n ≤ length data)%nat →
  ∃ r, word_fill f n data = Ok r ∧ length r = length data ∧
    ∀ j, nth j r 0 = if decide (j < n)%nat then f (nth j data 0) else nth j data 0.
Proof.
  revert data. induction n as [|n IH]; intros data Hd; cbn [word_fill].
  { exists data. split_and!; [done..|]. intros j. case_decide; [lia|done]. }
  destruct data as [|d data]; [simpl in *; lia|].
  destruct (IH data) as (r & Hr & Hlen & Hnth); [simpl in *; lia|].
  rw Hr. exists (f d :: r). split_and!; [done|simpl; lia|].
  intros [|j]; cbn [nth]; [case_decide; [done|lia]|].
  rw Hnth. repeat case_decide; try done; lia.
Qed.

Lemma Forall_nth_word data : Forall word_ok data ↔ ∀ j, word_ok (nth j data 0).
Proof.
  split.
  - intros H j. destruct (decide (j < length data)%nat).
    + rw Forall_forall in H. apply H, list_elem_of_In, nth_In. lia.
    + rw nth_length_default; [apply word_ok_0|lia].
  - intros H. apply Forall_forall. intros x Hx%list_elem_of_In.
    apply (In_nth _ _ 0) in Hx as (j & _ & <-). done.
Qed.

(** The number of words, and where the bits are. *)
Lemma nwords_eq m : nwords m = if decide (m < 0) then 0%nat else Z.to_nat (m / 32 + 1).
Proof.
  unfold nwords, BABitvector_max_word. case_decide.
  - replace (m <? 0) with true by lia. done.
  - replace (m <? 0) with false by lia. by rw Z.shiftr_div_pow2; [|lia].
Qed.

Lemma bit_in_words m i : Z.of_nat i <= m → (i / 32 < nwords m)%nat.
Proof. intros. rw nwords_eq. case_decide; lia. Qed.

Lemma bv_bit_default d i : (32 * length d ≤ i)%nat → data_bit d i = false.
Proof. intros. unfold data_bit. rw nth_length_default; [apply Z.bits_0|lia]. Qed.

(** ** Bitwise operations *)

Definition bitwise (f : Z → Z → Z) (g : bool → bool → bool) : Prop :=
  g false false = false ∧
  (∀ a b, word_ok a → word_ok b → word_ok (f a b)) ∧
  (∀ a b k, 0 <= k < 32 → Z.testbit (f a b) k = g (Z.testbit a k) (Z.testbit b k)).

Lemma bitwise_land : bitwise Z.land andb.
Proof. split_and!; [done| |intros; apply Z.land_spec]. intros. by apply word_ok_land. Qed.
Lemma bitwise_lor : bitwise Z.lor orb.
Proof.
  split_and!; [done| |intros; apply Z.lor_spec].
  intros a b Ha Hb. apply word_ok_op; try done.
  - intros k _. rw Z.lor_spec. apply orb_true_iff.
  - apply Z.lor_nonneg. destruct Ha, Hb. lia.
Qed.
Lemma bitwise_lxor : bitwise Z.lxor xorb.
Proof.
  split_and!; [done| |intros; apply Z.lxor_spec].
  intros a b Ha Hb. apply word_ok_op; try done.
  - intros k _. rw Z.lxor_spec. by destruct (Z.testbit a k), (Z.testbit b k); auto.
  - apply Z.lxor_nonneg. destruct Ha, Hb. lia.
Qed.
Lemma bitwise_diff : bitwise (λ d w, Z.land w (not32 d)) (λ x y, y && negb x).
Proof.
  split_and!; [done|intros; by apply word_ok_land|].
  intros a b k Hk. rw Z.land_spec not32_bit; [|lia]. by replace (k <? 32) with true by lia.
Qed.

Lemma data_bit_loop f g n data o r :
  bitwise f g →
  (∀ j, nth j r 0 = if decide (j < n)%nat then f (nth j data 0) (nth j o 0) else nth j data 0) →
  ∀ i, data_bit r i = if decide (i / 32 < n)%nat then g (data_bit data i) (data_bit o i)
                      else data_bit data i.
Proof.
  intros (_ & _ & Hg) Hr i. unfold data_bit. rw Hr. case_decide; [|done]. apply Hg. lia.
Qed.

Lemma bitwise_loop f g a b :
  bitwise f g → bv_wf a → bv_wf b → bv_max a = bv_max b →
  ∃ d, word_loop f (nwords (bv_max a)) (bv_data a) (bv_data b) = Ok d ∧
    length d = length (bv_data a) ∧ bv_wf (mkBV (bv_max a) d) ∧
    ∀ i, data_bit d i = if decide (i / 32 < nwords (bv_max a))%nat
                        then g (bv_bit a i) (bv_bit b i) else bv_bit a i.
Proof.
  intros Hfg [Ha1 Ha2 Ha3 Ha4] [Hb1 Hb2 Hb3 Hb4] Hm.
  destruct (word_loop_spec f (nwords (bv_max a)) (bv_data a) (bv_data b)) as (d & Hd & Hlen & Hnth);
    [lia|rw Hm; lia|].
  pose proof (data_bit_loop _ _ _ _ _ _ Hfg Hnth) as Hbit.
  exists d. split_and!; [done|done| |done]. split; simpl; [lia..| |].
  - apply Forall_nth_word. intros j. rw Hnth. rw !Forall_nth_word in Ha3 Hb3.
    case_decide; [|done]. by apply Hfg.
  - intros i Hi1 Hi2. unfold bv_bit in *. simpl. rw Hbit. case_decide; [|by apply Ha4].
    rw Ha4 // Hb4; [apply Hfg|rw -Hm; lia..].
Qed.

(** The generic statement of a binary operation. *)
Definition implements (op : BABitvector → BABitvector → res BABitvector) (g : bool → bool → bool) : Prop :=
  ∀ a b, bv_wf a → bv_wf b → bv_max a = bv_max b →
    ∃ c, op a b = Ok c ∧ bv_wf c ∧ bv_max c = bv_max a ∧
      ∀ i, (i < bv_len a)%nat → bv_bit c i = g (bv_bit a i) (bv_bit b i).

Lemma bit_lt_words b i : (i < bv_len b)%nat → (i / 32 < nwords (bv_max b))%nat.
Proof. unfold bv_len, BABitvector_size. intros. apply bit_in_words. lia. Qed.

Lemma same_max_ok a b : bv_max a = bv_max b → same_max a b = Ok ().
Proof. unfold same_max. intros ->. by rw Z.eqb_refl. Qed.

Ltac solve_implements Hbw :=
  intros a b Ha Hb Hm;
  destruct (bitwise_loop _ _ a b Hbw Ha Hb Hm) as (d & Hd & _ & Hwf & Hbit);
  eexists; split_and!; [|exact Hwf|done|];
  [|intros i Hi; unfold bv_bit at 1; rw Hbit decide_True //; by apply bit_lt_words].

Lemma and_implements : implements BABitvector_and_assign andb.
Proof. solve_implements bitwise_land. unfold BABitvector_and_assign. by rw same_max_ok //= Hd. Qed.
Lemma xor_implements : implements BABitvector_xor_assign xorb.
Proof. solve_implements bitwise_lxor. unfold BABitvector_xor_assign. by rw same_max_ok //= Hd. Qed.
Lemma or_implements : implements BABitvector_or_assign orb.
Proof.
  solve_implements bitwise_lor. unfold BABitvector_or_assign.
  replace (bv_max b >? bv_max a) with false by lia. by rw Hd.
Qed.

(** ** Words and their bits *)

Lemma word_ext w v :
  word_ok w → word_ok v → (∀ k, 0 <= k < 32 → Z.testbit w k = Z.testbit v k) → w = v.
Proof.
  intros [_ Hw]%word_ok_bits [_ Hv]%word_ok_bits Hk. apply Z.bits_inj'. intros k H0.
  destruct (decide (k < 32)); [by apply Hk|]. rw Hw ?Hv //; lia.
Qed.

(** Equality of the first [n] words is equality of the first [32 n] bits. *)
Lemma take_eq_bits n d e :
  (n ≤ length d)%nat → (n ≤ length e)%nat → Forall word_ok d → Forall word_ok e →
  take n d = take n e ↔ ∀ i, (i < 32 * n)%nat → data_bit d i = data_bit e i.
Proof.
  intros Hd He Wd We.
  assert (∀ l j, (j < n)%nat → nth j (take n l) 0 = nth j l 0) as Htake.
  { intros l j Hj. rw !nth_lookup lookup_take_lt //. }
  split.
  - intros Heq i Hi. unfold data_bit. rw -(Htake d) ?Heq ?Htake //; lia.
  - intros Hbit. apply (nth_ext _ _ 0 0); [rw !length_take; lia|].
    intros j Hj. rw length_take in Hj. rw !Htake; [|lia..].
    rw !Forall_nth_word in Wd We. apply word_ext; [done..|]. intros k Hk.
    specialize (Hbit (32 * j + Z.to_nat k)%nat ltac:(lia)). unfold data_bit in Hbit.
    replace ((32 * j + Z.to_nat k) / 32)%nat with j in Hbit by lia.
    replace (Z.of_nat ((32 * j + Z.to_nat k) mod 32)) with k in Hbit by lia. done.
Qed.

(** Two well-formed vectors of one size have the same words, up to the end of
    their last word or of the inline storage, exactly when they have the same bits. *)
Lemma bv_words_eq_bits a b n :
  bv_wf a → bv_wf b → bv_max a = bv_max b →
  (nwords (bv_max a) ≤ n)%nat → (n ≤ 2 `max` nwords (bv_max a))%nat →
  take n (bv_data a) = take n (bv_data b) ↔
    ∀ i, (i < bv_len a)%nat → bv_bit a i = bv_bit b i.
Proof.
  intros [Ha1 Ha2 Ha3 Ha4] [Hb1 Hb2 Hb3 Hb4] Hm Hn Hn'.
  rw take_eq_bits //; [|lia|rw -Hm in Hb2; lia]. split; intros Hbits i Hi.
  - apply Hbits. assert (i / 32 < nwords (bv_max a))%nat; [|lia].
    apply bit_in_words. unfold bv_len, BABitvector_size in Hi. lia.
  - destruct (decide (i < bv_len a)%nat) as [|Hni]; [by apply Hbits|].
    unfold bv_len, BABitvector_size in Hni. unfold bv_bit in *.
    rw Ha4 ?Hb4 //; rw -?Hm; lia.
Qed.

Lemma BABitvector_eqb_bits a b :
  bv_wf a → bv_wf b →
  BABitvector_eqb a b = true ↔
    bv_max a = bv_max b ∧ ∀ i, (i < bv_len a)%nat → bv_bit a i = bv_bit b i.
Proof.
  intros Ha Hb. unfold BABitvector_eqb. destruct (bv_max a =? bv_max b) eqn:Hm; simpl; [|lia].
  assert (bv_max a = bv_max b) as Hm' by lia.
  unfold MAX_INLINE_BIT. destruct (bv_max a <=? 63) eqn:Hi; rw bool_decide_eq_true.
  - rw (bv_words_eq_bits a b 2) //; [naive_solver| |lia]. rw nwords_eq. case_decide; lia.
  - rw (bv_words_eq_bits a b) //; [naive_solver|lia..].
Qed.

Lemma forallb_zero l : forallb (λ w, w =? 0) l = true ↔ l = replicate (length l) 0.
Proof.
  induction l as [|w l IH]; simpl; [done|]. rw andb_true_iff IH Z.eqb_eq. split.
  - intros [-> H]. by f_equal.
  - intros H. by injection H.
Qed.

Lemma nth_replicate_0 n j : nth j (replicate n 0) 0 = 0.
Proof. revert j. induction n; intros [|j]; simpl; done. Qed.

Definition bv_zeros (m : Z) : BABitvector := mkBV m (replicate (2 `max` nwords m) 0).

Lemma bv_zeros_bit m i : bv_bit (bv_zeros m) i = false.
Proof. unfold bv_bit, data_bit, bv_zeros. cbn [bv_data]. by rw nth_replicate_0 Z.bits_0. Qed.

Lemma bv_zeros_wf m : -1 <= m → bv_wf (bv_zeros m).
Proof.
  intros Hm. split; [done|simpl; by rw length_replicate| |intros; apply bv_zeros_bit].
  apply Forall_replicate, word_ok_0.
Qed.

Lemma BABitvector_zero_bits b :
  bv_wf b → BABitvector_zero b = true ↔ ∀ i, (i < bv_len b)%nat → bv_bit b i = false.
Proof.
  intros Hb. unfold BABitvector_zero. rw forallb_zero length_take_le; [|destruct Hb; lia].
  trans (take (nwords (bv_max b)) (bv_data b)
         = take (nwords (bv_max b)) (bv_data (bv_zeros (bv_max b)))).
  { simpl. rw take_replicate. by rw Nat.min_l; [|lia]. }
  rw bv_words_eq_bits //; [|apply bv_zeros_wf, Hb|lia].
  by setoid_rewrite bv_zeros_bit.
Qed.

(** ** Negation *)

Lemma land_bit31 m : 0 <= m → Z.land m 0x1F = m mod 32.
Proof. intros. change 0x1F with (Z.ones 5). by rw Z.land_ones. Qed.

Lemma nth_alter_0 (f : Z → Z) i j l :
  f 0 = 0 → nth j (alter f i l) 0 = if decide (j = i) then f (nth j l 0) else nth j l 0.
Proof.
  intros Hf. rw !nth_lookup. case_decide as H; [subst|].
  - rw list_lookup_alter decide_True //. destruct (l !! i); simpl; [done|by rw Hf].
  - rw list_lookup_alter_ne //.
Qed.

Lemma mask_bit m k : 0 <= m → 0 <= k → Z.testbit (Z.shiftl 1 (m + 1) - 1) k = (k <=? m).
Proof.
  intros Hm Hk. rw Z.shiftl_1_l. replace (2 ^ (m + 1) - 1) with (Z.ones (m + 1)).
  - rw Z.testbit_ones; lia.
  - rw Z.ones_equiv. lia.
Qed.

Lemma clear_last_bit b i :
  0 <= bv_max b →
  bv_bit (BABitvector_clear_last b) i =
    bv_bit b i && (negb (i / 32 =? Z.to_nat (bv_max b / 32))%nat || (Z.of_nat i <=? bv_max b)).
Proof.
  intros H0. unfold BABitvector_clear_last. replace (bv_max b <? 0) with false by lia.
  rw land_bit31 //. destruct (bv_max b mod 32 =? 0x1F) eqn:E; cbn [negb].
  - match goal with |- _ = _ && ?x => replace x with true by lia end. by rw andb_true_r.
  - unfold bv_bit, data_bit. cbn [bv_data]. rw Z.shiftr_div_pow2; [|lia]. change (2 ^ 5) with 32.
    rw nth_alter_0; [|done]. case_decide as H.
    + rw Z.land_spec mask_bit; [|lia..]. f_equal. lia.
    + match goal with |- _ = _ && ?x => replace x with true by lia end. by rw andb_true_r.
Qed.

Lemma clear_last_max b : bv_max (BABitvector_clear_last b) = bv_max b.
Proof. unfold BABitvector_clear_last. by repeat case_match. Qed.

Lemma clear_last_length b : length (bv_data (BABitvector_clear_last b)) = length (bv_data b).
Proof.
  unfold BABitvector_clear_last. repeat case_match; simpl; rw ?length_insert ?length_alter //.
Qed.

Lemma clear_last_words b : Forall word_ok (bv_data b) → Forall word_ok (bv_data (BABitvector_clear_last b)).
Proof.
  intros Hw. unfold BABitvector_clear_last. repeat case_match; cbn [bv_data]; [| |done].
  - by apply Forall_insert; [|apply word_ok_0].
  - apply Forall_alter; [done|]. intros. by apply word_ok_land.
Qed.

Lemma negate_spec b :
  bv_wf b →
  ∃ c, BABitvector_negate b = Ok c ∧ bv_wf c ∧ bv_max c = bv_max b ∧
    ∀ i, (i < bv_len b)%nat → bv_bit c i = negb (bv_bit b i).
Proof.
  intros [H1 H2 H3 H4]. unfold BABitvector_negate.
  destruct (word_fill_spec not32 (nwords (bv_max b)) (bv_data b)) as (d & Hd & Hlen & Hnth); [lia|].
  set (m := mkBV (bv_max b) d).
  assert (∀ i, data_bit d i = if decide (i / 32 < nwords (bv_max b))%nat
                              then negb (bv_bit b i) else bv_bit b i) as Hbit.
  { intros i. unfold bv_bit, data_bit. rw Hnth. case_decide; [|done].
    rw not32_bit; [|lia]. by replace (_ <? 32) with true by lia. }
  exists (BABitvector_clear_last m). rw Hd /= clear_last_max. split_and!; [done| |done|].
  - split; rw ?clear_last_max ?clear_last_length; subst m; cbn [bv_max bv_data]; [done|lia| |].
    + apply clear_last_words, Forall_nth_word. intros j. cbn [bv_data]. rw Hnth.
      case_decide; [apply word_ok_not32|by apply Forall_nth_word].
    + intros i Hi1 Hi2. destruct (decide (bv_max b < 0)) as [Hneg|].
      * assert (nwords (bv_max b) = 0%nat) as Hn by (rw nwords_eq decide_True //).
        unfold BABitvector_clear_last. cbn [bv_max]. replace (bv_max b <? 0) with true by lia.
        rw Hn /= in Hd. simplify_eq. unfold bv_bit, data_bit. cbn [bv_data].
        destruct (i / 32)%nat as [|j] eqn:Ej.
        { destruct (bv_data b); simpl; by rw Z.bits_0. }
        specialize (H4 i Hi1 Hi2). unfold bv_bit, data_bit in H4. rw Ej in H4.
        by destruct (bv_data b).
      * rw clear_last_bit //; [|simpl; lia]. unfold bv_bit at 1. cbn [bv_data bv_max]. rw Hbit.
        case_decide as Hw.
        { apply andb_false_iff. right. rw nwords_eq decide_False // in Hw. lia. }
        rw H4 //.
  - intros i Hi. unfold bv_len, BABitvector_size in Hi. subst m.
    rw clear_last_bit; [|simpl; lia]. unfold bv_bit at 1. cbn [bv_data bv_max].
    rw Hbit decide_True; [|apply bit_in_words; lia].
    replace (Z.of_nat i <=? bv_max b) with true by lia. by rw orb_true_r andb_true_r.
Qed.

(** ** Single bits *)

Lemma land_pow2_testbit w k : 0 <= k → negb (Z.land w (Z.shiftl 1 k) =? 0) = Z.testbit w k.
Proof.
  intros Hk. rw Z.shiftl_1_l. destruct (Z.testbit w k) eqn:E.
  - apply negb_true_iff, Z.eqb_neq. intros H0.
    assert (Z.testbit (Z.land w (2 ^ k)) k = false) as H by by rw H0 Z.bits_0.
    rw Z.land_spec E Z.pow2_bits_true // in H.
  - apply negb_false_iff, Z.eqb_eq, Z.bits_inj_0. intros j. rw Z.land_spec Z.pow2_bits_eqb //.
    destruct (k =? j) eqn:Ej; [|by rw andb_false_r]. assert (k = j) as <- by lia. by rw E.
Qed.

Lemma land31 i : 0 <= i → Z.land i 31 = i mod 32.
Proof. apply land_bit31. Qed.

Lemma shiftr5 i : Z.shiftr i 5 = i / 32.
Proof. by rw Z.shiftr_div_pow2. Qed.

Lemma BABitvector_get_spec b i :
  bv_wf b → (i < bv_len b)%nat → BABitvector_get b (Z.of_nat i) = Ok (bv_bit b i).
Proof.
  intros [H1 H2 H3 H4] Hi. unfold bv_len, BABitvector_size in Hi. unfold BABitvector_get.
  replace ((0 <=? Z.of_nat i) && (Z.of_nat i <=? bv_max b)) with true by lia.
  rw shiftr5 land31; [|lia]. replace (Z.to_nat (Z.of_nat i / 32)) with (i / 32)%nat by lia.
  assert (i / 32 < nwords (bv_max b))%nat as Hw by (apply bit_in_words; lia).
  destruct (lookup_lt_is_Some_2 (bv_data b) (i / 32)) as [w Hlk]; [lia|].
  rw Hlk. cbn [or_fault mbind res_mbind res_bind]. rw land_pow2_testbit; [|lia].
  unfold bv_bit, data_bit. by rw Nat2Z.inj_mod nth_lookup Hlk.
Qed.

Lemma Bit_assign_bit x w k j :
  word_ok w → 0 <= k < 32 → 0 <= j < 32 →
  Z.testbit (Bit_assign x (Z.shiftl 1 k) w) j = if decide (j = k) then x else Z.testbit w j.
Proof.
  intros Hw Hk Hj. unfold Bit_assign. rw Z.shiftl_1_l.
  assert (Z.testbit (2 ^ k) j = bool_decide (j = k)) as Hp.
  { rw Z.pow2_bits_eqb; [|lia]. case_bool_decide; lia. }
  destruct x.
  - rw Z.lor_spec Hp. case_decide.
    + by rw bool_decide_true // orb_true_r.
    + by rw bool_decide_false // orb_false_r.
  - rw Z.land_spec not32_bit; [|lia]. replace (j <? 32) with true by lia. rw Hp. case_decide.
    + by rw bool_decide_true // andb_false_r.
    + by rw bool_decide_false // andb_true_r.
Qed.

Lemma Bit_assign_ok x w k : word_ok w → 0 <= k < 32 → word_ok (Bit_assign x (Z.shiftl 1 k) w).
Proof.
  intros Hw Hk. unfold Bit_assign. destruct x; [|by apply word_ok_land].
  apply bitwise_lor; [done|]. apply word_ok_bits. rw Z.shiftl_1_l. split; [lia|].
  intros j Hj. apply Z.pow2_bits_false. lia.
Qed.

Lemma nth_alter_lt (f : Z → Z) i j l :
  (i < length l)%nat → nth j (alter f i l) 0 = if decide (j = i) then f (nth j l 0) else nth j l 0.
Proof.
  intros Hi. rw !nth_lookup. case_decide as H; [subst|].
  - rw list_lookup_alter decide_True //. by destruct (lookup_lt_is_Some_2 l i Hi) as [w ->].
  - rw list_lookup_alter_ne //.
Qed.

Lemma BABitvector_set_spec b i x :
  bv_wf b → (i < bv_len b)%nat →
  ∃ c, BABitvector_set b (Z.of_nat i) x = Ok c ∧ bv_wf c ∧ bv_max c = bv_max b ∧
    ∀ j, bv_bit c j = if decide (j = i) then x else bv_bit b j.
Proof.
  intros [H1 H2 H3 H4] Hi. unfold bv_len, BABitvector_size in Hi. unfold BABitvector_set.
  replace ((0 <=? Z.of_nat i) && (Z.of_nat i <=? bv_max b)) with true by lia.
  rw shiftr5 land31; [|lia]. replace (Z.to_nat (Z.of_nat i / 32)) with (i / 32)%nat by lia.
  assert (i / 32 < nwords (bv_max b))%nat as Hw by (apply bit_in_words; lia).
  set (f := Bit_assign x _). eexists; split; [done|].
  assert (∀ j, data_bit (alter f (i / 32)%nat (bv_data b)) j
               = if decide (j = i) then x else bv_bit b j) as Hbit.
  { intros j. unfold bv_bit, data_bit. rw nth_alter_lt; [|lia]. case_decide as Hj.
    - subst f. rw Bit_assign_bit; [|by apply Forall_nth_word|lia..]. rw Hj.
      repeat case_decide; try done; lia.
    - case_decide; [subst; done|done]. }
  split_and!; [|done|exact Hbit].
  split; cbn [bv_max bv_data]; [done|by rw length_alter| |].
  - apply Forall_alter; [done|]. intros w _ Hwok. apply Bit_assign_ok; [|lia].
    by apply Hwok.
  - intros j Hj1 Hj2. unfold bv_bit at 1. cbn [bv_data]. rw Hbit. case_decide; [lia|by apply H4].
Qed.

(** ** Identifier strings *)

Lemma parse_bits_spec b s :
  bv_wf b → (length s ≤ bv_len b)%nat →
  ∃ c, parse_bits b s = Ok c ∧ bv_wf c ∧ bv_max c = bv_max b ∧
    ∀ i, bv_bit c i = if decide (i < length s)%nat
                      then nth (length s - 1 - i) s 0 =? 49 else bv_bit b i.
Proof.
  revert b. induction s as [|ch s IH]; intros b Hb Hl; cbn [parse_bits].
  { exists b. split_and!; [done..|]. intros i. case_decide; [simpl in *; lia|done]. }
  simpl in Hl. unfold zlen.
  destruct (BABitvector_set_spec b (length s) (ch =? 49)) as (b' & -> & Hb' & Hm & Hbit); [done|lia|].
  cbn [mbind res_mbind res_bind].
  destruct (IH b') as (c & Hc & Hwf & Hm' & Hbits); [done| |].
  { unfold bv_len, BABitvector_size in *. rw Hm. lia. }
  exists c. split_and!; [done|done|by rw Hm'|]. intros i. rw Hbits. cbn [length].
  case_decide as Hi.
  - rw decide_True; [|lia]. replace (S (length s) - 1 - i)%nat with (S (length s - 1 - i)) by lia. done.
  - rw Hbit. repeat case_decide; try lia; [subst|done].
    by replace (S (length s) - 1 - length s)%nat with 0%nat by lia.
Qed.

Lemma to_string_from_spec b n :
  bv_wf b → (n ≤ bv_len b)%nat →
  to_string_from b n = Ok ((λ i, if bv_bit b i then 49 else 48) <$> rev (seq 0 n)).
Proof.
  intros Hb. induction n as [|n IH]; intros Hn; cbn [to_string_from]; [done|].
  rw BABitvector_get_spec //. rw IH; [|lia]. cbn [mbind res_mbind res_bind].
  rw seq_S rev_app_distr. done.
Qed.

Lemma BABitvector_make_zeros n :
  0 <= n → bv_wf (BABitvector_make n) ∧ bv_max (BABitvector_make n) = n - 1 ∧
    ∀ i, bv_bit (BABitvector_make n) i = false.
Proof.
  intros Hn. enough (BABitvector_make n = bv_zeros (n - 1)) as ->.
  { split_and!; [apply bv_zeros_wf; lia|done|intros; apply bv_zeros_bit]. }
  unfold BABitvector_make, bv_zeros. cbn [bv_max]. unfold MAX_INLINE_BIT.
  pose proof (nwords_eq (n - 1)) as Hnw. destruct (n - 1 >? 63) eqn:E.
  - unfold BABitvector_resize_to_max. cbn [bv_max bv_data]. unfold MAX_INLINE_WORD.
    replace (1 + 1 <? 1 + 1) with false by done. rw shiftr5.
    replace ((n - 1) / 32 + 1 <=? 1 + 1) with false by lia. f_equal.
    change (take (Z.to_nat (1 + 1)) [0; 0]) with (replicate 2 0). rw -replicate_add. f_equal.
    case_decide; lia.
  - replace (2 `max` nwords (n - 1))%nat with 2%nat; [done|]. case_decide; lia.
Qed.

(** ** Forwarding identifiers in packets *)

Lemma byte_bits a k : is_byte a → 8 <= k → Z.testbit a k = false.
Proof.
  intros Ha Hk. assert (word_ok a) as _ by (unfold is_byte, word_ok in *; lia).
  rw -(Z.mod_small a (2 ^ 8)); [|unfold is_byte in Ha; lia]. apply Z.mod_pow2_bits_high. lia.
Qed.

Lemma word4_bit a b c d k :
  is_byte a → is_byte b → is_byte c → is_byte d → 0 <= k →
  Z.testbit (word4 a b c d) k =
    if k <? 8 then Z.testbit a k else if k <? 16 then Z.testbit b (k - 8)
    else if k <? 24 then Z.testbit c (k - 16) else Z.testbit d (k - 24).
Proof.
  intros Ha Hb Hc Hd Hk. unfold word4. rw !Z.lor_spec !Z.shiftl_spec; [|lia..].
  assert (∀ x j, j < 0 → Z.testbit x j = false) as Hneg by (intros; by apply Z.testbit_neg_r).
  destruct (k <? 8) eqn:E1; [|destruct (k <? 16) eqn:E2; [|destruct (k <? 24) eqn:E3]].
  - rw (Hneg b) ?(Hneg c) ?(Hneg d) ?orb_false_r //; lia.
  - rw (byte_bits a k) ?(Hneg c) ?(Hneg d) ?orb_false_r //; lia.
  - rw (byte_bits a k) ?(byte_bits b) ?(Hneg d) ?orb_false_r //; lia.
  - rw (byte_bits a k) ?(byte_bits b) ?(byte_bits c) //; lia.
Qed.

Lemma byte_ext a b :
  is_byte a → is_byte b → (∀ k, 0 <= k < 8 → Z.testbit a k = Z.testbit b k) → a = b.
Proof.
  intros Ha Hb Hk. apply Z.bits_inj'. intros k H0. destruct (decide (k < 8)); [by apply Hk|].
  rw !byte_bits //; lia.
Qed.

Lemma byte_of_shift w j : is_byte (Z.land (Z.shiftr w j) 255).
Proof.
  change 255 with (Z.ones 8). rw Z.land_ones; [|lia]. unfold is_byte. change (2 ^ 8) with 256. lia.
Qed.

Lemma byte_of_shift_bit w j k :
  0 <= j → 0 <= k < 8 → Z.testbit (Z.land (Z.shiftr w j) 255) k = Z.testbit w (k + j).
Proof.
  intros Hj Hk. change 255 with (Z.ones 8). rw Z.land_spec Z.testbit_ones; [|lia].
  rw Z.shiftr_spec; [|lia]. replace ((0 <=? k) && (k <? 8)) with true by lia. by rw andb_true_r.
Qed.

Lemma bytes_of_word4 a b c d :
  is_byte a → is_byte b → is_byte c → is_byte d → bytes_of_word (word4 a b c d) = [a; b; c; d].
Proof.
  intros Ha Hb Hc Hd. unfold bytes_of_word.
  replace (Z.land (word4 a b c d) 255) with (Z.land (Z.shiftr (word4 a b c d) 0) 255) by by rw Z.shiftr_0_r.
  repeat f_equal; (apply byte_ext; [apply byte_of_shift|done|]); intros k Hk;
    rw byte_of_shift_bit ?word4_bit //; try lia;
    repeat case_match; try lia; f_equal; lia.
Qed.

Lemma word4_ok a b c d : is_byte a → is_byte b → is_byte c → is_byte d → word_ok (word4 a b c d).
Proof.
  intros Ha Hb Hc Hd. apply word_ok_bits. split.
  - unfold word4. rw !Z.lor_nonneg !Z.shiftl_nonneg. unfold is_byte in *. lia.
  - intros k Hk. rw word4_bit //; [|lia]. repeat case_match; try lia. apply byte_bits; [done|lia].
Qed.

(** Induction over a byte string four bytes at a time. *)
Lemma quad_ind (P : bytes → Prop) :
  P [] → (∀ a b c d l, P l → P (a :: b :: c :: d :: l)) →
  ∀ n l, length l = (4 * n)%nat → P l.
Proof.
  intros H0 Hs. induction n as [|n IH]; intros l Hl.
  - destruct l; [done|simpl in Hl; lia].
  - do 4 (destruct l as [|? l]; [simpl in Hl; lia|]). apply Hs, IH. simpl in Hl. lia.
Qed.

Lemma bytes_words_inv n l :
  length l = (4 * n)%nat → Forall is_byte l → bytes_of_words (words_of_bytes l) = l.
Proof.
  intros Hl. revert Hl. revert n l. apply (quad_ind (λ l, Forall is_byte l → bytes_of_words (words_of_bytes l) = l)); [done|].
  intros a b c d l IH. rw !Forall_cons. intros (?&?&?&?&Hl). unfold bytes_of_words in *.
  cbn [words_of_bytes fmap list_fmap mjoin list_join].
  rw bytes_of_word4 //. cbn [app]. by rw IH.
Qed.

Lemma words_of_bytes_ok n l :
  length l = (4 * n)%nat → Forall is_byte l →
  length (words_of_bytes l) = n ∧ Forall word_ok (words_of_bytes l).
Proof.
  revert l. induction n as [|n IH]; intros l Hl Hb.
  { destruct l; [done|simpl in Hl; lia]. }
  do 4 (destruct l as [|? l]; [simpl in Hl; lia|]). rw !Forall_cons in Hb.
  destruct Hb as (?&?&?&?&Hb). destruct (IH l) as [IHl IHw]; [simpl in Hl; lia|done|].
  cbn [words_of_bytes]. split; [simpl; lia|]. constructor; [by apply word4_ok|done].
Qed.

Lemma FID_of_bytes_wf src :
  (FID_LEN ≤ length src)%nat → Forall is_byte src → bv_wf (FID_of_bytes src).
Proof.
  intros Hl Hb. destruct (words_of_bytes_ok 8 (take FID_LEN src)) as [Hlen Hok].
  { rw length_take. unfold FID_LEN in *. lia. }
  { by apply Forall_take. }
  assert (nwords (bv_max (FID_of_bytes src)) = 8%nat) as Hn by done.
  split; rw ?Hn; [done|simpl; lia|done|]. intros i Hi Hi'.
  change (bv_max (FID_of_bytes src)) with 255 in Hi. lia.
Qed.

Lemma bytes_of_word_length w : length (bytes_of_word w) = 4%nat.
Proof. done. Qed.

Lemma bytes_of_words_length l : length (bytes_of_words l) = (4 * length l)%nat.
Proof.
  unfold bytes_of_words. induction l as [|w l IH]; [done|].
  change (mjoin (bytes_of_word <$> w :: l)) with (bytes_of_word w ++ mjoin (bytes_of_word <$> l)).
  rw length_app IH bytes_of_word_length. cbn [length]. lia.
Qed.

Lemma word4_of_bytes w : word_ok w →
  word4 (Z.land w 255) (Z.land (Z.shiftr w 8) 255) (Z.land (Z.shiftr w 16) 255) (Z.land (Z.shiftr w 24) 255) = w.
Proof.
  intros Hw. rw -{1}(Z.shiftr_0_r w). apply word_ext; [apply word4_ok; apply byte_of_shift|done|].
  intros k Hk. rw word4_bit; [|apply byte_of_shift..|lia].
  destruct (Z.ltb_spec k 8); [|destruct (Z.ltb_spec k 16); [|destruct (Z.ltb_spec k 24)]];
    (rw byte_of_shift_bit; [f_equal; lia|lia..]).
Qed.

Lemma words_bytes_inv n l : Forall word_ok l → words_of_bytes (take (4 * n) (bytes_of_words l)) = take n l.
Proof.
  intros Hl. revert n. induction Hl as [|w l Hw _ IH]; intros [|n]; try done.
  replace (4 * S n)%nat with (S (S (S (S (4 * n))))) by lia.
  change (bytes_of_words (w :: l)) with (bytes_of_word w ++ bytes_of_words l). cbn [bytes_of_word app take words_of_bytes].
  by rw word4_of_bytes // IH.
Qed.

(** A forwarding identifier written to a packet and read again. *)
Lemma FID_words v : bv_wf v → bv_data (FID_of_bytes (bytes_of_FID v)) = take 8 (bv_data v).
Proof.
  intros Hv. unfold FID_of_bytes, bytes_of_FID. cbn [bv_data]. rw take_take. rw Nat.min_id.
  apply (words_bytes_inv 8), Hv.
Qed.

(** ** Matching *)

(** The test of the forwarding tables: [(FID & LID) == LID]. *)
Lemma and_eq_subset a l :
  bv_wf a → bv_wf l → bv_max a = bv_max l →
  ∃ c, BABitvector_and_assign a l = Ok c ∧
    (BABitvector_eqb c l = true ↔ ∀ i, (i < bv_len l)%nat → bv_bit l i = true → bv_bit a i = true).
Proof.
  intros Ha Hl Hm. destruct (and_implements a l Ha Hl Hm) as (c & Hc & Hwf & Hmc & Hbit).
  exists c. split; [done|]. rw BABitvector_eqb_bits //. unfold bv_len, BABitvector_size in *.
  rw Hmc Hm. rw Hm in Hbit. split.
  - intros [_ Heq] i Hi Hli. specialize (Heq i Hi). by rw Hbit // Hli andb_true_r in Heq.
  - intros Hsub. split; [done|]. intros i Hi. rw Hbit //.
    destruct (bv_bit l i) eqn:E; [by rw Hsub|by rw andb_false_r].
Qed.

Lemma sub_spec a b :
  bv_wf a → bv_wf b → bv_max a = bv_max b →
  ∃ c, BABitvector_sub a b = Ok c ∧ bv_wf c ∧ bv_max c = bv_max a ∧
    ∀ i, (i < bv_len a)%nat → bv_bit c i = bv_bit a i && negb (bv_bit b i).
Proof.
  intros Ha Hb Hm. destruct (negate_spec b Hb) as (nb & Hnb & Hwf & Hmn & Hbn).
  destruct (and_implements a nb) as (c & Hc & Hwfc & Hmc & Hbc); [done|done|congruence|].
  exists c. unfold BABitvector_sub. rw Hnb. split_and!; [done..|].
  intros i Hi. rw Hbc // Hbn //. by rw /bv_len /BABitvector_size -Hm.
Qed.

(** A vector of 256 bits that crossed a packet is the same vector. *)
Lemma FID_of_bytes_of_FID v : bv_wf v → bv_max v = 255 →
  let w := FID_of_bytes (bytes_of_FID v) in
  bv_wf w ∧ bv_max w = 255 ∧ BABitvector_eqb w v = true ∧ ∀ i, (i < 256)%nat → bv_bit w i = bv_bit v i.
Proof.
  intros Hv Hm w. assert (bv_wf w) as Hw.
  { pose proof (bytes_of_words_length (bv_data v)) as Hl. destruct Hv as [_ Hlen Hok _]. rw Hm in Hlen.
    change (2 `max` nwords 255)%nat with 8%nat in Hlen. apply FID_of_bytes_wf.
    - unfold bytes_of_FID. rw length_take Hl. unfold FID_LEN. lia.
    - unfold bytes_of_FID. apply Forall_take. unfold bytes_of_words. apply Forall_join, Forall_fmap, Forall_forall.
      intros x _. cbn. rw -{1}(Z.shiftr_0_r x). repeat constructor; apply byte_of_shift. }
  assert (∀ i, (i < 256)%nat → bv_bit w i = bv_bit v i) as Hb.
  { apply (bv_words_eq_bits w v 8); [done..|vm_compute; lia|vm_compute; lia|].
    subst w. rw FID_words // take_take Nat.min_id //. }
  split_and!; [done|done| |done]. apply BABitvector_eqb_bits; [done|done|]. by split.
Qed.

Lemma to_string_bits c s : bv_wf c → bv_len c = length s → Forall (λ c, c = 48 ∨ c = 49) s →
  (∀ i, (i < length s)%nat → bv_bit c i = (nth (length s - 1 - i) s 0 =? 49)) → BABitvector_to_string c = Ok s.
Proof.
  intros Hc Hlen Hs Hbit. unfold BABitvector_to_string. fold (bv_len c). rw Hlen.
  rw to_string_from_spec //; [|lia]. f_equal.
  apply (nth_ext _ _ 0 0); [by rw length_fmap length_rev length_seq|].
  intros i Hi. rw length_fmap length_rev length_seq in Hi. rw nth_lookup list_lookup_fmap.
  assert (rev (seq 0 (length s)) !! i = Some (length s - 1 - i)%nat) as ->.
  { change (reverse (seq 0 (length s)) !! i = Some (length s - 1 - i)%nat) || rw rev_alt -/(reverse _).
    rw reverse_lookup; [|by rw length_seq]. rw length_seq lookup_seq_lt; [|lia]. f_equal. lia. }
  cbn [fmap option_fmap option_map default]. rw Hbit; [|lia].
  replace (length s - 1 - (length s - 1 - i))%nat with i by lia.
  rw Forall_forall in Hs. specialize (Hs (nth i s 0)).
  destruct Hs as [->| ->]; [apply list_elem_of_In, nth_In; lia|done|done].
Qed.

(** * Properties *)

(** The operators [&=], [|=], [^=] on two vectors of one size compute
    the bitwise and, or and exclusive or, on every bit of the vectors, and
    keep the representation well formed. *)
Theorem bitvector_operators_bitwise :
  implements BABitvector_and_assign andb ∧ implements BABitvector_or_assign orb ∧
  implements BABitvector_xor_assign xorb.
Proof. split_and!; [apply and_implements|apply or_implements|apply xor_implements]. Qed.

(** [negate()] flips every bit of the vector and leaves no stray bit
    after the last one: the result is well formed, so that [zero()] and [==]
    read it correctly. *)
Theorem bitvector_negate_flips b (Hb : bv_wf b) :
  ∃ c, BABitvector_negate b = Ok c ∧ bv_wf c ∧ bv_max c = bv_max b ∧
    ∀ i, (i < bv_len b)%nat → bv_bit c i = negb (bv_bit b i).
Proof. by apply negate_spec. Qed.

Lemma bitvector_negate_flips_witness :
  bv_wf (bv_zeros 69) ∧
  ∃ c, BABitvector_negate (bv_zeros 69) = Ok c ∧ bv_wf c ∧ bv_max c = 69 ∧
    ∀ i, (i < 70)%nat → bv_bit c i = negb (bv_bit (bv_zeros 69) i).
Proof.
  assert (bv_wf (bv_zeros 69)) as H by (apply bv_zeros_wf; lia).
  split; [exact H|]. exact (bitvector_negate_flips (bv_zeros 69) H).
Defined.

(** [operator==] on well-formed vectors, which compares words with
    memcmp (two words for inline vectors, [max_word() + 1] otherwise), holds
    exactly when the sizes and all bits agree; [zero()] holds exactly when no
    bit is set. *)
Theorem bitvector_eq_zero_bits a b (Ha : bv_wf a) (Hb : bv_wf b) :
  (BABitvector_eqb a b = true ↔
     bv_max a = bv_max b ∧ ∀ i, (i < bv_len a)%nat → bv_bit a i = bv_bit b i) ∧
  (BABitvector_zero a = true ↔ ∀ i, (i < bv_len a)%nat → bv_bit a i = false).
Proof. split; [by apply BABitvector_eqb_bits|by apply BABitvector_zero_bits]. Qed.

Lemma bitvector_eq_zero_bits_witness :
  BABitvector_eqb (bv_zeros 40) (bv_zeros 255) = false ∧ BABitvector_zero (bv_zeros 255) = true ∧
  (BABitvector_zero (bv_zeros 255) = true ↔
     ∀ i, (i < bv_len (bv_zeros 255))%nat → bv_bit (bv_zeros 255) i = false).
Proof.
  split; [reflexivity|]. split; [reflexivity|].
  apply (bitvector_eq_zero_bits (bv_zeros 255) (bv_zeros 40)); apply bv_zeros_wf; lia.
Defined.

(** The identifier strings of the configuration: a string of '0' and '1'
    characters read into a fresh vector of that length with the elements'
    parsing loop is printed back unchanged by [to_string()]. *)
Theorem bitvector_string_roundtrip (s : bytes) (Hs : Forall (λ c, c = 48 ∨ c = 49) s) :
  (b ← parse_bits (BABitvector_make (zlen s)) s; BABitvector_to_string b) = Ok s.
Proof.
  destruct (BABitvector_make_zeros (zlen s)) as (Hwf & Hm & _); [apply zlen_nonneg|].
  assert (bv_len (BABitvector_make (zlen s)) = length s) as Hlen.
  { unfold bv_len, BABitvector_size. rw Hm /zlen. lia. }
  destruct (parse_bits_spec _ s Hwf) as (c & -> & Hc & Hmc & Hbit); [lia|].
  apply to_string_bits; [done|by rw -Hlen /bv_len /BABitvector_size Hmc|done|]. intros i Hi. by rw Hbit decide_True.
Qed.

Lemma bitvector_string_roundtrip_witness :
  (b ← parse_bits (BABitvector_make 5) [49; 48; 48; 49; 49]; BABitvector_to_string b)
    = Ok [49; 48; 48; 49; 49].
Proof.
  apply (bitvector_string_roundtrip [49; 48; 48; 49; 49]).
  repeat (constructor; [by (left + right)|]). constructor.
Defined.

(** The header of the class promises that bits added by [resize] are false;
    a vector that was shrunk before shows its old bits again. *)
Theorem bitvector_resize_stale_bits :
  ∃ b, BABitvector_assign 64 true (BABitvector_make 64) = Ok b ∧
    BABitvector_get (BABitvector_resize 64 (BABitvector_resize 10 b)) 40 = Ok true.
Proof. eexists. split; reflexivity. Qed.

(** What the elements rely on when a forwarding identifier crosses a
    packet: a vector of 256 bits copied into the packet and back is the same
    vector, on all bits and by operator==; and the 32 bytes of a packet copied
    into a vector and back are the same bytes. *)
Theorem FID_roundtrip :
  (∀ v, bv_wf v → bv_max v = 255 →
    let w := FID_of_bytes (bytes_of_FID v) in
    bv_wf w ∧ bv_max w = 255 ∧ BABitvector_eqb w v = true ∧ ∀ i, (i < 256)%nat → bv_bit w i = bv_bit v i) ∧
  (∀ b, length b = FID_LEN → Forall is_byte b → bytes_of_FID (FID_of_bytes b) = b).
Proof.
  split.
  - apply FID_of_bytes_of_FID.
  - intros b Hl Hb. unfold bytes_of_FID, FID_of_bytes. cbn [bv_data].
    rw (take_ge b); [|lia]. rw (bytes_words_inv 8) //. by rw take_ge; [|lia].
Qed.
