(* ===== verification/Packet.v ===== *)
(** * Packet buffers

    Click packets as the elements use them: a buffer of fixed length filled
    by [memcpy] at computed offsets, and a received buffer read at computed
    offsets.  An access outside the buffer is a fault; a byte that was never
    written is [None]. *)

From S2P Require Import Prelude Enums BitVector.

(** ** Writing *)

Abbreviation packet := (list (option Z)) (only parsing).

(** [Packet::make(headroom, NULL, len, tailroom)] *)
Definition packet_make (len : Z) : packet := replicate (Z.to_nat len) None.

(** [memcpy(p->data() + off, src, n)], [n] bytes being [src] *)
Definition packet_put (off : nat) (src : bytes) (p : packet) : res packet :=
  if (off + length src <=? length p)%nat
  then Ok (take off p ++ (Some <$> src) ++ drop (off + length src) p)
  else Fault OutOfBounds.

(** [memcpy(p->data() + off, src, n)] in a packet that is all written *)
Definition write (off : nat) (src d : bytes) : res bytes :=
  if (off + length src <=? length d)%nat then Ok (take off d ++ src ++ drop (off + length src) d)
  else Fault OutOfBounds.

(** Consecutive writes: the offset of each one is the end of the last. *)
Fixpoint packet_put_all (off : nat) (chunks : list bytes) (p : packet) : res packet :=
  match chunks with
  | [] => Ok p
  | c :: chunks => p ← packet_put off c p; packet_put_all (off + length c) chunks p
  end.

(** [memcpy(dst, s.c_str(), n)]: the string is followed by a null byte *)
Definition c_str_read (s : bytes) (n : nat) : res bytes :=
  if (n <=? S (length s))%nat then Ok (take n (s ++ [0])) else Fault OutOfBounds.

(** [memcpy(dst, v._data, FID_LEN)] *)
Definition FID_read (v : BABitvector) : res bytes :=
  if (FID_LEN <=? 4 * length (bv_data v))%nat then Ok (bytes_of_FID v) else Fault OutOfBounds.

(** ** Reading *)

(** [String(p->data() + off, n)] *)
Definition data_read (d : bytes) (off n : nat) : res bytes :=
  if (off + n <=? length d)%nat then Ok (take n (drop off d)) else Fault OutOfBounds.

(** [*(p->data() + off)] *)
Definition data_byte (d : bytes) (off : nat) : res Z := or_fault OutOfBounds (d !! off).

(** ** Numbers in memory, least significant byte first *)

Fixpoint le_bytes (n : nat) (z : Z) : bytes := match n with O => [] | S n => z mod 256 :: le_bytes n (z / 256) end.

Fixpoint le_number (l : bytes) : Z := match l with [] => 0 | b :: l => b + 256 * le_number l end.

(** ** Lemmas *)

Lemma le_bytes_length n z : length (le_bytes n z) = n.
Proof. revert z. induction n as [|n IH]; intros z; [done|]. cbn. by rw IH. Qed.
Lemma le_bytes_bytes n z : Forall is_byte (le_bytes n z).
Proof. revert z. induction n as [|n IH]; intros z; constructor; [unfold is_byte; lia|apply IH]. Qed.
Lemma le_number_bytes n z : 0 <= z < 256 ^ Z.of_nat n → le_number (le_bytes n z) = z.
Proof.
  revert z. induction n as [|n IH]; intros z Hz; [cbn in *; lia|]. cbn [le_bytes le_number].
  rw IH; [lia|]. rw Nat2Z.inj_succ Z.pow_succ_r in Hz; [|lia]. lia.
Qed.


Lemma packet_put_in off src (p : packet) :
  (off + length src ≤ length p)%nat →
  packet_put off src p = Ok (take off p ++ (Some <$> src) ++ drop (off + length src) p).
Proof. intros ?. unfold packet_put. by destruct (Nat.leb_spec (off + length src) (length p)); [|lia]. Qed.

Lemma packet_put_length off src (p q : packet) :
  packet_put off src p = Ok q → length q = length p.
Proof.
  unfold packet_put. destruct (Nat.leb_spec (off + length src) (length p)); [|done].
  intros [= <-]. rw !length_app length_take length_drop length_fmap. lia.
Qed.

(** Writes that follow each other put their concatenation into the buffer,
    and fail exactly when it does not fit. *)
Lemma packet_put_all_spec chunks off (p : packet) :
  (off ≤ length p)%nat →
  packet_put_all off chunks p =
    (if (off + length (mjoin chunks) <=? length p)%nat
     then Ok (take off p ++ (Some <$> mjoin chunks) ++ drop (off + length (mjoin chunks)) p)
     else Fault OutOfBounds).
Proof.
  revert off p. induction chunks as [|c chunks IH]; intros off p Hoff.
  { cbn. destruct (Nat.leb_spec (off + 0) (length p)); [|lia]. by rw Nat.add_0_r take_drop. }
  change (mjoin (c :: chunks)) with (c ++ mjoin chunks). rw length_app. cbn [packet_put_all].
  destruct (Nat.leb_spec (off + length c) (length p)) as [Hc|Hc]; last first.
  { unfold packet_put. destruct (Nat.leb_spec (off + length c) (length p)); [lia|].
    by destruct (Nat.leb_spec (off + (length c + length (mjoin chunks))) (length p)); [lia|]. }
  pose proof (packet_put_in off c p Hc) as Hput. rw Hput. cbn [mbind res_mbind res_bind].
  pose proof (packet_put_length _ _ _ _ Hput) as Hlen. rw IH; [|lia]. rw Hlen.
  rw Nat.add_assoc. destruct (_ <=? _)%nat eqn:Hle; [|done]. f_equal. apply Nat.leb_le in Hle.
  assert (length (take off p ++ (Some <$> c)) = (off + length c)%nat) as Ha.
  { rw length_app length_take length_fmap. lia. }
  rw (app_assoc (take off p) (Some <$> c) (drop _ p)). rw (take_app_length' (take off p ++ (Some <$> c))); [|done].
  rw drop_app_ge; [|rw Ha; lia]. rw Ha drop_drop fmap_app -!app_assoc. do 4 f_equal. lia.
Qed.

(** Writes into a fresh packet: they fit exactly when the packet is as long as
    what is written, and the rest stays uninitialised. *)
Lemma packet_put_all_make chunks len :
  0 <= len →
  packet_put_all 0 chunks (packet_make len) =
    if zlen (mjoin chunks) <=? len
    then Ok ((Some <$> mjoin chunks) ++ replicate (Z.to_nat len - length (mjoin chunks)) None)
    else Fault OutOfBounds.
Proof.
  intros Hlen. rw packet_put_all_spec; [|lia]. unfold packet_make. rw length_replicate drop_replicate.
  unfold zlen.
  by destruct (Nat.leb_spec (0 + length (mjoin chunks)) (Z.to_nat len)),
    (Z.leb_spec (Z.of_nat (length (mjoin chunks))) len); try lia.
Qed.

Lemma mjoin_app {A} (l k : list (list A)) : mjoin (l ++ k) = mjoin l ++ mjoin k.
Proof. induction l as [|x l IH]; [done|]. cbn. by rw IH app_assoc. Qed.

Lemma FID_read_ok v : bv_wf v → bv_max v = 255 → FID_read v = Ok (bytes_of_FID v).
Proof.
  intros [_ Hn _ _] Hm. rw Hm in Hn. unfold FID_read.
  destruct (Nat.leb_spec FID_LEN (4 * length (bv_data v))) as [|Hl]; [done|].
  unfold FID_LEN in Hl. change (nwords 255) with 8%nat in Hn. lia.
Qed.

Lemma FID_read_length v b : FID_read v = Ok b → length b = FID_LEN.
Proof.
  unfold FID_read. destruct (Nat.leb_spec FID_LEN (4 * length (bv_data v))); [|done].
  intros [= <-]. unfold bytes_of_FID. rw length_take bytes_of_words_length. lia.
Qed.

Lemma c_str_read_length s n b : c_str_read s n = Ok b → length b = n.
Proof.
  unfold c_str_read. destruct (Nat.leb_spec n (S (length s))); [|done]. intros [= <-].
  rw length_take length_app. cbn. lia.
Qed.

Lemma data_read_ok d off n :
  (off + n ≤ length d)%nat → data_read d off n = Ok (take n (drop off d)).
Proof. intros. unfold data_read. by destruct (Nat.leb_spec (off + n) (length d)); [|lia]. Qed.

Lemma data_read_app d1 d2 d3 :
  data_read (d1 ++ d2 ++ d3) (length d1) (length d2) = Ok d2.
Proof.
  rw data_read_ok; [|rw !length_app; lia]. by rw drop_app_length take_app_length.
Qed.

Lemma data_byte_app d1 b d3 : data_byte (d1 ++ b :: d3) (length d1) = Ok b.
Proof. unfold data_byte. by rw lookup_app_r // Nat.sub_diag. Qed.

Lemma write_ok off src d : (off + length src ≤ length d)%nat →
  write off src d = Ok (take off d ++ src ++ drop (off + length src) d).
Proof. intros H. unfold write. by destruct (Nat.leb_spec (off + length src) (length d)); [|lia]. Qed.

Lemma write_length off src d q : write off src d = Ok q → length q = length d.
Proof.
  unfold write. destruct (Nat.leb_spec (off + length src) (length d)); [|done].
  intros [= <-]. rw !length_app length_take length_drop. lia.
Qed.

(** A write into the first bytes leaves the others. *)
Lemma write_drop off src d q n : write off src d = Ok q → (off + length src ≤ n)%nat → drop n q = drop n d.
Proof.
  unfold write. destruct (Nat.leb_spec (off + length src) (length d)); [|done]. intros [= <-] Hn.
  rw drop_app_ge; [|rw length_take; lia]. rw length_take drop_app_ge; [|lia]. rw drop_drop. f_equal. lia.
Qed.

(** Accesses at the seams of a packet. *)
Lemma data_read_at d d1 d2 d3 off n :
  d = d1 ++ d2 ++ d3 → length d1 = off → length d2 = n → data_read d off n = Ok d2.
Proof. intros -> <- <-. apply data_read_app. Qed.

Lemma data_byte_at d d1 b d3 off : d = d1 ++ b :: d3 → length d1 = off → data_byte d off = Ok b.
Proof. intros -> <-. apply data_byte_app. Qed.

Lemma drop_at (d d1 d2 : bytes) off : d = d1 ++ d2 → length d1 = off → drop off d = d2.
Proof. intros -> <-. apply drop_app_length. Qed.

Lemma write_at d d1 d2 d3 src off : d = d1 ++ d2 ++ d3 → length d1 = off → length d2 = length src →
  write off src d = Ok (d1 ++ src ++ d3).
Proof.
  intros -> <- Hl. rw write_ok; [|rw !length_app; lia].
  by rw take_app_length -Hl -(length_app d1 d2) (app_assoc d1 d2 d3) drop_app_length.
Qed.
