(* ===== verification/GlobalConf.v ===== *)
(** * GlobalConf: the configuration of a node

    Model of GlobalConf::configure (src/src/globalconf.cc).  Reading the
    keyword arguments is Click's [cp_va_kparse]; the model starts from their
    values. *)

From S2P Require Import Prelude Enums BitVector.

(** The values [cp_va_kparse] leaves in the local variables. *)
Record conf_args := mkArgs {
  arg_types : bytes;
  arg_mode : bytes;
  arg_nodeID : bytes;
  arg_defRVFID : bytes;
  arg_defFromRVFID : bytes;
  arg_internalLID : bytes;
  arg_TMFID_str : bytes;
}.

Record gconf := mkConf {
  nodeID : bytes;
  type_FW : bool;
  type_RV : bool;
  type_TM : bool;
  use_mac : bool;
  defaultRV_dl : BABitvector;
  defaultFromRV_dl : BABitvector;
  iLID : BABitvector;
  TMFID : BABitvector;
}.

(** The well-known identifiers, which depend on the node label only. *)
Definition ff (n : nat) : bytes := replicate n 255.
Definition RVScope : bytes := ff PURSUIT_ID_LEN.
Definition RVScopeUC : bytes := ff (PURSUIT_ID_LEN - 1) ++ [253].
Definition TMScope : bytes := ff (PURSUIT_ID_LEN - 1) ++ [254].
Definition TMScopeUC : bytes := ff (PURSUIT_ID_LEN - 1) ++ [253].
Definition controlReliabilityScope : bytes := ff (PURSUIT_ID_LEN - 1) ++ [252].
Definition pathMgmtScope : bytes := ff (PURSUIT_ID_LEN - 1) ++ [249].
Definition pathMgmtIID : bytes := pathMgmtScope ++ pathMgmtScope.
Definition notificationIID (gc : gconf) : bytes := ff (PURSUIT_ID_LEN - 1) ++ [253] ++ nodeID gc.
Definition nodeRVScope (gc : gconf) : bytes := RVScope ++ nodeID gc.
Definition nodeTMScope (gc : gconf) : bytes := TMScope ++ nodeID gc.
Definition nodeTMScopeUC (gc : gconf) : bytes := TMScope ++ TMScopeUC ++ nodeID gc.
Definition IP_ROOTSCOPE : bytes := replicate (PURSUIT_ID_LEN - 1) 0 ++ [NAMESPACE_IP].
Definition HTTP_ROOTSCOPE : bytes := replicate (PURSUIT_ID_LEN - 1) 0 ++ [NAMESPACE_HTTP].
Definition HTTP_DEFAULT_IID : bytes :=
  HTTP_ROOTSCOPE ++ replicate (PURSUIT_ID_LEN - 1) 0 ++ [DEFAULT_HTTP_IID].

(** ASCII *)
Definition str_FW : bytes := [70; 87].
Definition str_RV : bytes := [82; 86].
Definition str_TM : bytes := [84; 77].
Definition str_mac : bytes := [109; 97; 99].
Definition str_mac_ml : bytes := str_mac ++ [95; 109; 108].
Definition str_mac_qos : bytes := str_mac ++ [95; 113; 111; 115].
Definition str_ip : bytes := [105; 112].
Definition delim : Z := 58.

(** [find_left]: the position of the first delimiter of the whole string *)
Fixpoint find_left (c : Z) (s : bytes) : option nat :=
  match s with
  | [] => None
  | x :: s => if x =? c then Some O else S <$> find_left c s
  end.

(** The loop over the node types: [offset] moves by the position of the first
    delimiter plus one. *)
Fixpoint parse_types (fuel : nat) (types : bytes) (offset : nat) (fw rv tm : bool)
    : res (bool * bool * bool) :=
  if decide (length types ≤ offset)%nat then Ok (fw, rv, tm) else
  match fuel with
  | O => Fault OutOfFuel
  | S fuel =>
      let delim_pos := default (length types) (find_left delim types) in
      let node_type := take delim_pos (drop offset types) in
      parse_types fuel types (offset + delim_pos + 1)
        (fw || bool_decide (node_type = str_FW))
        (rv || bool_decide (node_type = str_RV))
        (tm || bool_decide (node_type = str_TM))
  end.

(** One identifier of [FID_LEN * 8] characters. *)
Definition parse_fid (s : bytes) : res BABitvector :=
  parse_bits (BABitvector_make (Z.of_nat FID_LEN * 8)) s.

Definition fid_string_ok (s : bytes) : bool := zlen s =? Z.of_nat FID_LEN * 8.

(** [configure]: [None] is the return value -1. *)
Definition GlobalConf_configure (a : conf_args) : res (option gconf) :=
  '(fw, rv, tm) ← parse_types (length (arg_types a)) (arg_types a) 0 false false false;
  let is_mac := bool_decide (arg_mode a = str_mac) || bool_decide (arg_mode a = str_mac_ml)
                || bool_decide (arg_mode a = str_mac_qos) in
  if negb is_mac && negb (bool_decide (arg_mode a = str_ip)) then Ok None
  else if negb (zlen (arg_nodeID a) =? Z.of_nat NODEID_LEN) then Ok None
  else if negb (fid_string_ok (arg_defRVFID a)) then Ok None
  else rvdl ← parse_fid (arg_defRVFID a);
  if negb (fid_string_ok (arg_defFromRVFID a)) then Ok None
  else fromrv ← parse_fid (arg_defFromRVFID a);
  if negb (fid_string_ok (arg_internalLID a)) then Ok None
  else ilid ← parse_fid (arg_internalLID a);
  if negb (zlen (arg_TMFID_str a) =? 0) then
    if negb (fid_string_ok (arg_TMFID_str a)) then Ok None
    else tmfid ← parse_fid (arg_TMFID_str a);
         Ok (Some (mkConf (arg_nodeID a) fw rv tm is_mac rvdl fromrv ilid tmfid))
  else Ok (Some (mkConf (arg_nodeID a) fw rv tm is_mac rvdl fromrv ilid BABitvector_empty)).

(** What a configured node has. *)
Record gconf_wf (gc : gconf) : Prop := {
  gc_nodeID : length (nodeID gc) = NODEID_LEN;
  gc_rv : bv_wf (defaultRV_dl gc) ∧ bv_max (defaultRV_dl gc) = 255;
  gc_from : bv_wf (defaultFromRV_dl gc) ∧ bv_max (defaultFromRV_dl gc) = 255;
  gc_ilid : bv_wf (iLID gc) ∧ bv_max (iLID gc) = 255;
  gc_tm : bv_wf (TMFID gc) ∧ (bv_max (TMFID gc) = 255 ∨ TMFID gc = BABitvector_empty);
}.

(** ** The loop over the types ends *)

Lemma parse_types_total fuel types offset fw rv tm :
  (length types ≤ offset + fuel)%nat → ∃ r, parse_types fuel types offset fw rv tm = Ok r.
Proof.
  revert offset fw rv tm. induction fuel as [|fuel IH]; intros offset fw rv tm Hl; simpl.
  - case_decide; [eauto|lia].
  - case_decide; [eauto|]. apply IH. lia.
Qed.

Lemma parse_fid_spec s :
  fid_string_ok s = true → ∃ c, parse_fid s = Ok c ∧ bv_wf c ∧ bv_max c = 255 ∧
    ∀ i, (i < 256)%nat → bv_bit c i = (nth (255 - i) s 0 =? 49).
Proof.
  unfold fid_string_ok, zlen. intros Hl. assert (length s = 256%nat) as Hl' by (unfold FID_LEN in Hl; lia).
  destruct (BABitvector_make_zeros (Z.of_nat FID_LEN * 8)) as (Hwf & Hm & _); [lia|].
  destruct (parse_bits_spec _ s Hwf) as (c & Hc & Hcwf & Hcm & Hbit).
  { unfold bv_len, BABitvector_size. rw Hm. unfold FID_LEN. lia. }
  exists c. split_and!; [done|done|rw Hcm Hm //|]. intros i Hi. rw Hbit decide_True; [|lia].
  do 3 f_equal. lia.
Qed.

Lemma BABitvector_empty_wf : bv_wf BABitvector_empty.
Proof. apply (bv_zeros_wf (-1)). lia. Qed.

(** ** Node types *)

(** The type list as it is written: labels separated by colons. *)
Fixpoint join_types (ts : list bytes) : bytes :=
  match ts with
  | [] => []
  | [t] => t
  | t :: ts => t ++ [delim] ++ join_types ts
  end.

Definition node_types : list bytes := [str_FW; str_RV; str_TM].

Lemma join_types_cons t ts : ts ≠ [] → join_types (t :: ts) = t ++ [delim] ++ join_types ts.
Proof. by destruct ts. Qed.

Lemma node_type_length t : t ∈ node_types → length t = 2%nat.
Proof. intros H. repeat (apply elem_of_cons in H as [->|H]; [done|]). by apply elem_of_nil in H. Qed.

Lemma find_left_join t ts : t ∈ node_types →
  default (length (join_types (t :: ts))) (find_left delim (join_types (t :: ts))) = 2%nat.
Proof.
  intros H. destruct ts as [|u ts].
  - repeat (apply elem_of_cons in H as [->|H]; [done|]). by apply elem_of_nil in H.
  - rw join_types_cons //. repeat (apply elem_of_cons in H as [->|H]; [done|]). by apply elem_of_nil in H.
Qed.

Lemma parse_types_join_aux types fuel pre ts fw rv tm :
  default (length types) (find_left delim types) = 2%nat →
  types = pre ++ join_types ts → Forall (λ t, t ∈ node_types) ts → (length ts ≤ fuel)%nat →
  parse_types fuel types (length pre) fw rv tm =
    Ok (fw || bool_decide (str_FW ∈ ts), rv || bool_decide (str_RV ∈ ts), tm || bool_decide (str_TM ∈ ts)).
Proof.
  intros Hd. revert pre ts fw rv tm. induction fuel as [|fuel IH]; intros pre ts fw rv tm E Hts Hf.
  - destruct ts; [|simpl in Hf; lia]. cbn [parse_types]. rw E app_nil_r decide_True //.
    rw !bool_decide_eq_false_2 ?orb_false_r //; apply not_elem_of_nil.
  - destruct ts as [|t ts].
    { cbn [parse_types]. rw E app_nil_r decide_True //. rw !bool_decide_eq_false_2 ?orb_false_r //; apply not_elem_of_nil. }
    apply Forall_cons in Hts as [Ht Hts]. pose proof (node_type_length t Ht) as Lt. cbn [parse_types].
    assert (take 2 (drop (length pre) types) = t) as Etake.
    { rw E drop_app_length. destruct ts; [simpl; by rw take_ge; [|lia]|].
      rw join_types_cons //. by rw take_app_length'. }
    assert (types = (pre ++ t ++ if decide (ts = []) then [] else [delim]) ++ join_types ts) as E'.
    { rw E. case_decide; [subst; simpl; by rw !app_nil_r|]. by rw join_types_cons // -!app_assoc. }
    rw decide_False; last first.
    { rw E length_app. destruct ts; [simpl; lia|]. rw join_types_cons // !length_app. lia. }
    rw Hd Etake. destruct (decide (ts = [])) as [->|Hne].
    + assert (length types = length pre + 2)%nat as L by (rw E length_app /= Lt; lia).
      destruct fuel as [|fuel']; cbn [parse_types]; (rw decide_True; [|lia]);
        do 3 f_equal; f_equal; apply bool_decide_ext; rw list_elem_of_singleton; split; congruence.
    + replace (length pre + 2 + 1)%nat with (length (pre ++ t ++ [delim])) by (rw !length_app Lt; cbn; lia).
      rw (IH _ ts); [|done|done|simpl in Hf; lia]. rw -!orb_assoc.
      do 3 f_equal; f_equal; apply eq_bool_prop_intro; rw orb_True !bool_decide_spec elem_of_cons;
        (split; [intros [?|?]; [left; congruence|by right]|intros [?|?]; [left; congruence|by right]]).
Qed.

Lemma parse_types_join ts : Forall (λ t, t ∈ node_types) ts →
  parse_types (length (join_types ts)) (join_types ts) 0 false false false =
    Ok (bool_decide (str_FW ∈ ts), bool_decide (str_RV ∈ ts), bool_decide (str_TM ∈ ts)).
Proof.
  intros H. destruct ts as [|t ts]; [done|]. apply (parse_types_join_aux _ _ [] (t :: ts) false false false); [|done|done|].
  - apply find_left_join. by apply Forall_cons in H as [? _].
  - clear -H. induction H as [|u us Hu Hus IH]; [done|]. apply node_type_length in Hu.
    destruct us; [simpl; lia|]. rw join_types_cons // !length_app. simpl in *. lia.
Qed.

(** ** What [configure] accepts *)

Definition modes : list bytes := [str_mac; str_mac_ml; str_mac_qos; str_ip].

Definition args_ok (a : conf_args) : bool :=
  bool_decide (arg_mode a ∈ modes) && (zlen (arg_nodeID a) =? Z.of_nat NODEID_LEN) &&
  fid_string_ok (arg_defRVFID a) && fid_string_ok (arg_defFromRVFID a) && fid_string_ok (arg_internalLID a) &&
  ((zlen (arg_TMFID_str a) =? 0) || fid_string_ok (arg_TMFID_str a)).

(** Bit [i] of an identifier is character [255 - i] of its string. *)
Definition bits_of (s : bytes) (v : BABitvector) : Prop :=
  ∀ i, (i < 256)%nat → bv_bit v i = (nth (255 - i) s 0 =? 49).

Lemma mode_test m :
  negb (bool_decide (m = str_mac) || bool_decide (m = str_mac_ml) || bool_decide (m = str_mac_qos))
    && negb (bool_decide (m = str_ip)) = negb (bool_decide (m ∈ modes)).
Proof.
  rw -negb_orb. f_equal. apply eq_bool_prop_intro. rw !orb_True !bool_decide_spec. unfold modes.
  rw !elem_of_cons elem_of_nil. tauto.
Qed.

(** [C40] [GlobalConf::configure] on every input: it rejects (returns -1)
    exactly when the mode is unknown or the node label or an identifier has
    the wrong length; otherwise the configuration is well formed, carries the
    label and the mode, and each identifier has the bits of its string, the
    last character being bit 0; without a TMFID argument the TM identifier
    stays empty.  The loop over the node types always ends. *)
Theorem configure_correct a :
  if args_ok a
  then ∃ gc, GlobalConf_configure a = Ok (Some gc) ∧ gconf_wf gc ∧ nodeID gc = arg_nodeID a ∧
    use_mac gc = negb (bool_decide (arg_mode a = str_ip)) ∧
    bits_of (arg_defRVFID a) (defaultRV_dl gc) ∧ bits_of (arg_defFromRVFID a) (defaultFromRV_dl gc) ∧
    bits_of (arg_internalLID a) (iLID gc) ∧
    (if zlen (arg_TMFID_str a) =? 0 then TMFID gc = BABitvector_empty else bits_of (arg_TMFID_str a) (TMFID gc))
  else GlobalConf_configure a = Ok None.
Proof.
  unfold args_ok, GlobalConf_configure.
  destruct (parse_types_total (length (arg_types a)) (arg_types a) 0 false false false)
    as [[[fw rv] tm] ->]; [lia|]. cbn [mbind res_mbind res_bind]. rw mode_test.
  case_bool_decide as Hmode; cbn [negb andb]; [|done].
  destruct (zlen (arg_nodeID a) =? Z.of_nat NODEID_LEN) eqn:Hn; cbn [negb andb]; [|done].
  destruct (fid_string_ok (arg_defRVFID a)) eqn:H1; cbn [negb andb]; [|done].
  destruct (parse_fid_spec _ H1) as (c1 & -> & W1 & M1 & B1). cbn [mbind res_mbind res_bind].
  destruct (fid_string_ok (arg_defFromRVFID a)) eqn:H2; cbn [negb andb]; [|done].
  destruct (parse_fid_spec _ H2) as (c2 & -> & W2 & M2 & B2). cbn [mbind res_mbind res_bind].
  destruct (fid_string_ok (arg_internalLID a)) eqn:H3; cbn [negb andb]; [|done].
  destruct (parse_fid_spec _ H3) as (c3 & -> & W3 & M3 & B3). cbn [mbind res_mbind res_bind].
  assert (length (arg_nodeID a) = NODEID_LEN) as Hid by (unfold zlen, NODEID_LEN in *; lia).
  assert (bool_decide (arg_mode a = str_mac) || bool_decide (arg_mode a = str_mac_ml)
    || bool_decide (arg_mode a = str_mac_qos) = negb (bool_decide (arg_mode a = str_ip))) as Hmac.
  { repeat (apply elem_of_cons in Hmode as [->|Hmode]; [done|]). by apply elem_of_nil in Hmode. }
  rw Hmac. destruct (zlen (arg_TMFID_str a) =? 0); cbn [negb orb].
  { eexists. split_and!; [done|split; simpl; auto using BABitvector_empty_wf|done..]. }
  destruct (fid_string_ok (arg_TMFID_str a)) eqn:H4; cbn [negb]; [|done].
  destruct (parse_fid_spec _ H4) as (c4 & -> & W4 & M4 & B4). cbn [mbind res_mbind res_bind].
  eexists. split_and!; [done|split; simpl; auto|done..].
Qed.

(** The loop over the node types finds exactly the types
    of the list, in any order and number: all labels have two letters, which
    is why looking for the first colon of the whole string at every step
    works. *)
Theorem configure_types a ts gc
    (Ht : arg_types a = join_types ts) (Hts : Forall (λ t, t ∈ node_types) ts)
    (Hc : GlobalConf_configure a = Ok (Some gc)) :
  type_FW gc = bool_decide (str_FW ∈ ts) ∧ type_RV gc = bool_decide (str_RV ∈ ts) ∧
  type_TM gc = bool_decide (str_TM ∈ ts).
Proof.
  revert Hc. unfold GlobalConf_configure. rw Ht parse_types_join //. cbn [mbind res_mbind res_bind].
  repeat (case_match; cbn [mbind res_mbind res_bind]; try done); try (by intros [= <-]);
    repeat match goal with |- context [parse_fid ?s] => destruct (parse_fid s); cbn [mbind res_mbind res_bind]; try done end;
    repeat (case_match; cbn [mbind res_mbind res_bind]; try done); try (by intros [= <-]);
    repeat match goal with |- context [parse_fid ?s] => destruct (parse_fid s); cbn [mbind res_mbind res_bind]; try done end;
    by intros [= <-].
Qed.

Definition demo_args : conf_args :=
  mkArgs (join_types [str_RV; str_FW]) str_ip (replicate NODEID_LEN 48) (replicate 256 48) (replicate 256 49)
    (replicate 255 48 ++ [49]) [].

Lemma configure_types_witness :
  ∃ gc, GlobalConf_configure demo_args = Ok (Some gc) ∧ (type_FW gc, type_RV gc, type_TM gc) = (true, true, false).
Proof.
  assert (∃ gc, GlobalConf_configure demo_args = Ok (Some gc)) as [gc Hc] by (eexists; vm_compute; reflexivity).
  exists gc. split; [exact Hc|].
  destruct (configure_types demo_args [str_RV; str_FW] gc eq_refl) as (-> & -> & ->); [|exact Hc|reflexivity].
  apply Forall_forall. intros t Ht. apply elem_of_cons in Ht as [->|Ht].
  - right. left.
  - apply list_elem_of_singleton in Ht as ->. left.
Defined.
