(* ===== verification/RvStore.v ===== *)
(** * The information graph: RemoteHost, Scope and InformationItem

    Model of src/src/remotehost.hh, scope.{hh,cc} and informationitem.{hh,cc},
    and of the state of the LocalRV element (localrv.hh).  Objects live in
    heaps indexed by address; the pointers of the source are addresses, so
    that an object reachable under several identifiers is shared, and a use of
    a deleted object is a fault. *)

From S2P Require Import Prelude Enums HashTable.

Section store.
Context `{CT : ClickTables}.

(** RemoteHostSet, ScopeSet, InformationItemSet; StringSet *)
Definition PtrSet : Type := PH ().
Definition StringSet : Type := SH ().

(** IdsHashMap: publishers and subscribers per full identifier.  The pair is
    allocated for one identifier and only reached through the table. *)
Definition RemoteHostPair : Type := PtrSet * PtrSet.
Definition IdsHashMap : Type := SH RemoteHostPair.

Record RemoteHost := mkHost {
  remoteHostID : bytes;
  publishedScopes : StringSet;
  publishedInformationItems : StringSet;
  subscribedScopes : StringSet;
  subscribedInformationItems : StringSet;
}.

Record Scope := mkScope {
  sc_ids : IdsHashMap;
  sc_isRoot : bool;
  sc_fatherScopes : PtrSet;
  sc_childrenScopes : PtrSet;
  sc_informationitems : PtrSet;
  sc_strategy : Z;
}.

(** [fullSubscribersList] is never used by the source. *)
Record InformationItem := mkItem {
  ii_ids : IdsHashMap;
  ii_fatherScopes : PtrSet;
  ii_strategy : Z;
}.

(** What LocalRV pushes to the LocalProxy: one constructor per method that
    builds a packet, with the data the packet carries (RvMessages gives the
    bytes). *)
Inductive rv_msg :=
  (** requestTMAssistanceForRendezvous, all publishers *)
  | TMRendezvous (request_type strategy : Z) (publishers subscribers IDs : list bytes)
  (** requestTMAssistanceForRendezvous, one publisher *)
  | TMRendezvousUC (request_type strategy : Z) (publisher : bytes) (subscribers IDs : list bytes)
  (** requestTMAssistanceForiSubscription *)
  | TMiSubscription (request_type : Z) (isubscribers : list bytes)
  (** requestTMAssistanceForNotifyingSubscribers *)
  | TMNotify (request_type strategy : Z) (subscribers IDs : list bytes)
  (** notifyLocalPublisher; the flag tells whether the FID is sent *)
  | LocalPublisher (type : Z) (IDs : list bytes) (withFID : bool)
  (** notifyLocalSubscriber *)
  | LocalSubscriber (type : Z) (IDs : list bytes).

(** The heaps and the members of LocalRV. *)
Record rv := mkRv {
  hosts : gmap ptr RemoteHost;
  scopes : gmap ptr Scope;
  items : gmap ptr InformationItem;
  next : ptr;
  localProxy : ptr;
  scopeIndex : SH ptr;
  pubIndex : SH ptr;
  pub_sub_Index : SH ptr;
  known_rootscopes : StringSet;
  rootScope_namesapce_Index : SH Z;
  out : list rv_msg;
}.

(** ** Access to the state *)

Definition set_hosts h s := mkRv h (scopes s) (items s) (next s) (localProxy s) (scopeIndex s)
  (pubIndex s) (pub_sub_Index s) (known_rootscopes s) (rootScope_namesapce_Index s) (out s).
Definition set_scopes m s := mkRv (hosts s) m (items s) (next s) (localProxy s) (scopeIndex s)
  (pubIndex s) (pub_sub_Index s) (known_rootscopes s) (rootScope_namesapce_Index s) (out s).
Definition set_items m s := mkRv (hosts s) (scopes s) m (next s) (localProxy s) (scopeIndex s)
  (pubIndex s) (pub_sub_Index s) (known_rootscopes s) (rootScope_namesapce_Index s) (out s).
Definition set_next n s := mkRv (hosts s) (scopes s) (items s) n (localProxy s) (scopeIndex s)
  (pubIndex s) (pub_sub_Index s) (known_rootscopes s) (rootScope_namesapce_Index s) (out s).
Definition set_localProxy p s := mkRv (hosts s) (scopes s) (items s) (next s) p (scopeIndex s)
  (pubIndex s) (pub_sub_Index s) (known_rootscopes s) (rootScope_namesapce_Index s) (out s).
Definition set_scopeIndex t s := mkRv (hosts s) (scopes s) (items s) (next s) (localProxy s) t
  (pubIndex s) (pub_sub_Index s) (known_rootscopes s) (rootScope_namesapce_Index s) (out s).
Definition set_pubIndex t s := mkRv (hosts s) (scopes s) (items s) (next s) (localProxy s) (scopeIndex s)
  t (pub_sub_Index s) (known_rootscopes s) (rootScope_namesapce_Index s) (out s).
Definition set_pub_sub_Index t s := mkRv (hosts s) (scopes s) (items s) (next s) (localProxy s) (scopeIndex s)
  (pubIndex s) t (known_rootscopes s) (rootScope_namesapce_Index s) (out s).
Definition set_roots k r s := mkRv (hosts s) (scopes s) (items s) (next s) (localProxy s) (scopeIndex s)
  (pubIndex s) (pub_sub_Index s) k r (out s).
Definition set_out o s := mkRv (hosts s) (scopes s) (items s) (next s) (localProxy s) (scopeIndex s)
  (pubIndex s) (pub_sub_Index s) (known_rootscopes s) (rootScope_namesapce_Index s) o.

Definition R (A : Type) : Type := M rv A.

(** Reads and writes through a pointer. *)
Definition get_scope (p : ptr) : R Scope := λ s,
  match scopes s !! p with Some x => Ok (x, s) | None => Fault UseAfterFree end.
Definition get_item (p : ptr) : R InformationItem := λ s,
  match items s !! p with Some x => Ok (x, s) | None => Fault UseAfterFree end.
Definition get_host (p : ptr) : R RemoteHost := λ s,
  match hosts s !! p with Some x => Ok (x, s) | None => Fault UseAfterFree end.
Definition upd_scope (p : ptr) (f : Scope → Scope) : R () := λ s,
  match scopes s !! p with
  | Some x => Ok ((), set_scopes (<[p := f x]> (scopes s)) s) | None => Fault UseAfterFree end.
Definition upd_item (p : ptr) (f : InformationItem → InformationItem) : R () := λ s,
  match items s !! p with
  | Some x => Ok ((), set_items (<[p := f x]> (items s)) s) | None => Fault UseAfterFree end.
Definition upd_host (p : ptr) (f : RemoteHost → RemoteHost) : R () := λ s,
  match hosts s !! p with
  | Some x => Ok ((), set_hosts (<[p := f x]> (hosts s)) s) | None => Fault UseAfterFree end.
(** [delete p] *)
Definition delete_scope (p : ptr) : R () := λ s,
  match scopes s !! p with
  | Some _ => Ok ((), set_scopes (delete p (scopes s)) s) | None => Fault UseAfterFree end.
Definition delete_item (p : ptr) : R () := λ s,
  match items s !! p with
  | Some _ => Ok ((), set_items (delete p (items s)) s) | None => Fault UseAfterFree end.
Definition delete_host (p : ptr) : R () := λ s,
  match hosts s !! p with
  | Some _ => Ok ((), set_hosts (delete p (hosts s)) s) | None => Fault UseAfterFree end.

Definition sc_with_ids (t : IdsHashMap) (x : Scope) : Scope := mkScope t (sc_isRoot x)
  (sc_fatherScopes x) (sc_childrenScopes x) (sc_informationitems x) (sc_strategy x).
Definition sc_with_fathers (t : PtrSet) (x : Scope) : Scope := mkScope (sc_ids x) (sc_isRoot x)
  t (sc_childrenScopes x) (sc_informationitems x) (sc_strategy x).
Definition sc_with_children (t : PtrSet) (x : Scope) : Scope := mkScope (sc_ids x) (sc_isRoot x)
  (sc_fatherScopes x) t (sc_informationitems x) (sc_strategy x).
Definition sc_with_items (t : PtrSet) (x : Scope) : Scope := mkScope (sc_ids x) (sc_isRoot x)
  (sc_fatherScopes x) (sc_childrenScopes x) t (sc_strategy x).
Definition ii_with_ids (t : IdsHashMap) (x : InformationItem) : InformationItem :=
  mkItem t (ii_fatherScopes x) (ii_strategy x).
Definition ii_with_fathers (t : PtrSet) (x : InformationItem) : InformationItem :=
  mkItem (ii_ids x) t (ii_strategy x).

Definition alloc : R ptr := λ s, Ok (next s, set_next (S (next s)) s).

(** [output(0).push] *)
Definition emit (m : rv_msg) : R () := modify (λ s, set_out (out s ++ [m]) s).

(** ** Identifier tables: the code Scope and InformationItem share *)

(** [s.substring(s.length() - PURSUIT_ID_LEN, PURSUIT_ID_LEN)] *)
Definition last_fragment (id : bytes) : bytes := drop (length id - PURSUIT_ID_LEN) id.

(** [s.substring(0, PURSUIT_ID_LEN)] *)
Definition first_fragment (id : bytes) : bytes := take PURSUIT_ID_LEN id.

(** [( *ids.begin()).first]: without a test for an empty table *)
Definition first_id (ids : IdsHashMap) : res bytes := or_fault NullDeref (ht_first ids).

Definition empty_pair : RemoteHostPair := (ht_empty, ht_empty).

(** updatePublishers: the table and the value returned *)
Definition ids_updatePublishers (fullID : bytes) (_publisher : ptr) (ids : IdsHashMap)
    : bool * IdsHashMap :=
  match ht_get fullID ids with
  | Some pr =>
      if ht_mem _publisher pr.1 then (false, ids)
      else (true, ht_alter (λ pr, (hs_insert _publisher pr.1, pr.2)) fullID ids)
  | None => (true, ht_set fullID (hs_insert _publisher ht_empty, ht_empty) ids)
  end.

(** updateSubscribers of an InformationItem *)
Definition ids_updateSubscribers (fullID : bytes) (_subscriber : ptr) (ids : IdsHashMap)
    : bool * IdsHashMap :=
  match ht_get fullID ids with
  | Some pr =>
      if ht_mem _subscriber pr.2 then (false, ids)
      else (true, ht_alter (λ pr, (pr.1, hs_insert _subscriber pr.2)) fullID ids)
  | None => (true, ht_set fullID (ht_empty, hs_insert _subscriber ht_empty) ids)
  end.

(** The loop of getSubscribers / getPublishers over all identifiers. *)
Definition ids_getSubscribers (ids : IdsHashMap) (acc : PtrSet) : PtrSet :=
  foldl (λ acc pr, hs_insert_all (ht_keys pr.2) acc) acc (ht_vals ids).
Definition ids_getPublishers (ids : IdsHashMap) (acc : PtrSet) : PtrSet :=
  foldl (λ acc pr, hs_insert_all (ht_keys pr.1) acc) acc (ht_vals ids).

(** [!pr->first.empty() || !pr->second.empty()] *)
Definition pair_used (pr : RemoteHostPair) : bool :=
  negb (ht_is_empty pr.1) || negb (ht_is_empty pr.2).

(** The loop of checkForOtherPubSub over the father's identifiers; the pair is
    dereferenced without a test. *)
Fixpoint other_pubsub_under (ids : IdsHashMap) (suffixID : bytes) (fids : list bytes) : res bool :=
  match fids with
  | [] => Ok false
  | fid :: fids =>
      pr ← or_fault NullDeref (ht_get (fid ++ suffixID) ids);
      if pair_used pr then Ok true else other_pubsub_under ids suffixID fids
  end.

(** ** RemoteHost *)

Definition RemoteHost_new (_remoteHostID : bytes) : R ptr :=
  p ← alloc;
  modify (λ s, set_hosts (<[p := mkHost _remoteHostID ht_empty ht_empty ht_empty ht_empty]> (hosts s)) s);;
  mret p.

Definition host_add_pubScope (id : bytes) (h : RemoteHost) := mkHost (remoteHostID h)
  (hs_insert id (publishedScopes h)) (publishedInformationItems h) (subscribedScopes h)
  (subscribedInformationItems h).
Definition host_add_pubInfo (id : bytes) (h : RemoteHost) := mkHost (remoteHostID h)
  (publishedScopes h) (hs_insert id (publishedInformationItems h)) (subscribedScopes h)
  (subscribedInformationItems h).
Definition host_add_subScope (id : bytes) (h : RemoteHost) := mkHost (remoteHostID h)
  (publishedScopes h) (publishedInformationItems h) (hs_insert id (subscribedScopes h))
  (subscribedInformationItems h).
Definition host_add_subInfo (id : bytes) (h : RemoteHost) := mkHost (remoteHostID h)
  (publishedScopes h) (publishedInformationItems h) (subscribedScopes h)
  (hs_insert id (subscribedInformationItems h)).
Definition host_del_pubScope (id : bytes) (h : RemoteHost) := mkHost (remoteHostID h)
  (ht_erase id (publishedScopes h)) (publishedInformationItems h) (subscribedScopes h)
  (subscribedInformationItems h).
Definition host_del_pubInfo (id : bytes) (h : RemoteHost) := mkHost (remoteHostID h)
  (publishedScopes h) (ht_erase id (publishedInformationItems h)) (subscribedScopes h)
  (subscribedInformationItems h).
Definition host_del_subScope (id : bytes) (h : RemoteHost) := mkHost (remoteHostID h)
  (publishedScopes h) (publishedInformationItems h) (ht_erase id (subscribedScopes h))
  (subscribedInformationItems h).
Definition host_del_subInfo (id : bytes) (h : RemoteHost) := mkHost (remoteHostID h)
  (publishedScopes h) (publishedInformationItems h) (subscribedScopes h)
  (ht_erase id (subscribedInformationItems h)).

(** ** InformationItem *)

Definition InformationItem_new (_strategy : Z) (_father_scope : ptr) : R ptr :=
  this ← alloc;
  modify (λ s, set_items (<[this := mkItem ht_empty (hs_insert _father_scope ht_empty) _strategy]> (items s)) s);;
  upd_scope _father_scope (λ f, sc_with_items (hs_insert this (sc_informationitems f)) f);;
  mret this.

(** One identifier of [updateIDs]. *)
Definition item_add_id (this : ptr) (fullID : bytes) : R () :=
  i ← get_item this;
  match ht_get fullID (ii_ids i) with
  | None =>
      modify (λ s, set_pubIndex (ht_set fullID this (pubIndex s)) s);;
      upd_item this (λ i, ii_with_ids (ht_set fullID empty_pair (ii_ids i)) i)
  | Some _ => mret ()
  end.

Definition InformationItem_updateIDs (this : ptr) (suffixID : bytes) : R () :=
  i ← get_item this;
  mfor (ht_keys (ii_fatherScopes i)) (λ father,
    f ← get_scope father;
    mfor (ht_keys (sc_ids f)) (λ fid, item_add_id this (fid ++ suffixID))).

Definition InformationItem_updatePublishers (this : ptr) (fullID : bytes) (_publisher : ptr) : R bool :=
  i ← get_item this;
  let '(r, ids) := ids_updatePublishers fullID _publisher (ii_ids i) in
  upd_item this (ii_with_ids ids);; mret r.

Definition InformationItem_updateSubscribers (this : ptr) (fullID : bytes) (_subscriber : ptr) : R bool :=
  i ← get_item this;
  let '(r, ids) := ids_updateSubscribers fullID _subscriber (ii_ids i) in
  upd_item this (ii_with_ids ids);; mret r.

Definition lift_res {A} (r : res A) : R A := λ s,
  match r with Ok a => Ok (a, s) | Fault e => Fault e end.

Definition InformationItem_checkForOtherPubSub (this fatherScope : ptr) : R bool :=
  i ← get_item this;
  id0 ← lift_res (first_id (ii_ids i));
  f ← get_scope fatherScope;
  lift_res (other_pubsub_under (ii_ids i) (last_fragment id0) (ht_keys (sc_ids f))).

(** [getRootScopes(StringSet &)] *)
Definition ids_getRootScopes (ids : IdsHashMap) (_ids : StringSet) : StringSet :=
  hs_insert_all (first_fragment <$> ht_keys ids) _ids.

(** [getRootScopes(KnownRootHashMap * )]: an absent key and a stored value
    equal to the default value 0 are not distinguished *)
Definition ids_getRootScopes_known (ids : IdsHashMap) (known : SH Z) : res Z :=
  id0 ← first_id ids;
  let _ns := default 0 (ht_get (first_fragment id0) known) in
  Ok (if _ns =? 0 then NAMESPACE_UNKNOWN else _ns).

(** ** Scope *)

Definition Scope_new (_strategy : Z) (_father_scope : option ptr) : R ptr :=
  this ← alloc;
  match _father_scope with
  | None =>
      modify (λ s, set_scopes (<[this := mkScope ht_empty true ht_empty ht_empty ht_empty _strategy]> (scopes s)) s);;
      mret this
  | Some father =>
      modify (λ s, set_scopes (<[this := mkScope ht_empty false (hs_insert father ht_empty)
                                            ht_empty ht_empty _strategy]> (scopes s)) s);;
      upd_scope father (λ f, sc_with_children (hs_insert this (sc_childrenScopes f)) f);;
      mret this
  end.

Definition Scope_updatePublishers (this : ptr) (fullID : bytes) (_publisher : ptr) : R bool :=
  x ← get_scope this;
  let '(r, ids) := ids_updatePublishers fullID _publisher (sc_ids x) in
  upd_scope this (sc_with_ids ids);; mret r.

(** unlike its namesake of InformationItem, it returns true in every case *)
Definition Scope_updateSubscribers (this : ptr) (fullID : bytes) (_subscriber : ptr) : R bool :=
  x ← get_scope this;
  let '(_, ids) := ids_updateSubscribers fullID _subscriber (sc_ids x) in
  upd_scope this (sc_with_ids ids);; mret true.

(** One identifier of [recursivelyUpdateIDs]. *)
Definition scope_add_id (this : ptr) (fullID : bytes) : R () :=
  x ← get_scope this;
  match ht_get fullID (sc_ids x) with
  | None =>
      modify (λ s, set_scopeIndex (ht_set fullID this (scopeIndex s)) s);;
      upd_scope this (λ x, sc_with_ids (ht_set fullID empty_pair (sc_ids x)) x)
  | Some _ => mret ()
  end.

(** The first loop of [recursivelyUpdateIDs]. *)
Definition scope_update_own_ids (this : ptr) (suffixID : bytes) : R () :=
  x ← get_scope this;
  mfor (ht_keys (sc_fatherScopes x)) (λ father,
    f ← get_scope father;
    mfor (ht_keys (sc_ids f)) (λ fid, scope_add_id this (fid ++ suffixID))).

Fixpoint recursivelyUpdateIDs (fuel : nat) (this : ptr) (suffixID : bytes) : R () :=
  match fuel with
  | O => throw OutOfFuel
  | S fuel =>
      scope_update_own_ids this suffixID;;
      x ← get_scope this;
      mfor (ht_keys (sc_childrenScopes x)) (λ child,
        c ← get_scope child;
        id0 ← lift_res (first_id (sc_ids c));
        recursivelyUpdateIDs fuel child (last_fragment id0));;
      mfor (ht_keys (sc_informationitems x)) (λ pub,
        i ← get_item pub;
        id0 ← lift_res (first_id (ii_ids i));
        InformationItem_updateIDs pub (last_fragment id0))
  end.

(** The call the requests make.  A path downwards in an acyclic graph has at
    most as many scopes as exist. *)
Definition Scope_recursivelyUpdateIDs (this : ptr) (suffixID : bytes) : R () :=
  n ← gets (λ s, size (scopes s));
  recursivelyUpdateIDs (S n) this suffixID.

Definition Scope_checkForOtherPubSub (this : ptr) (fatherScope : option ptr) : R bool :=
  x ← get_scope this;
  match fatherScope with
  | Some father =>
      id0 ← lift_res (first_id (sc_ids x));
      f ← get_scope father;
      lift_res (other_pubsub_under (sc_ids x) (last_fragment id0) (ht_keys (sc_ids f)))
  | None => mret (existsb pair_used (ht_vals (sc_ids x)))
  end.

(** [getIDs] *)
Definition ids_getIDs (ids : IdsHashMap) (_ids : StringSet) : StringSet :=
  hs_insert_all (ht_keys ids) _ids.

(** ** Printing an identifier *)

Definition hex_digit (n : Z) : Z := if n <? 10 then 48 + n else 55 + n.

(** The characters [printID] writes: '/' (47), two digits per byte, and '/'
    after every byte whose count [i] has [i % PURSUIT_ID_LEN * 2 == 0]. *)
Fixpoint print_chars (i : nat) (id : bytes) : bytes :=
  match id with
  | [] => []
  | x :: id =>
      hex_digit (Z.land (Z.shiftr x 4) 0xF) :: hex_digit (Z.land x 0xF) ::
      (if (S i mod PURSUIT_ID_LEN * 2 =? 0)%nat then [47] else []) ++ print_chars (S i) id
  end.

(** [sa.extend(n)] reserves [n] characters, and the string taken has that
    length; the second component is what is written. *)
Definition printID (id : bytes) : nat * bytes :=
  let fragments := (length id / PURSUIT_ID_LEN)%nat in
  ((length id * 2 + fragments)%nat, 47 :: print_chars 0 id).

End store.

Arguments rv : clear implicits.
Arguments rv {CT}.
Arguments RemoteHost : clear implicits.
Arguments RemoteHost {CT}.
Arguments Scope : clear implicits.
Arguments Scope {CT}.
Arguments InformationItem : clear implicits.
Arguments InformationItem {CT}.
