(* ===== verification/RvMessages.v ===== *)
(** * The packets of the rendezvous element

    Model of the methods of LocalRV (src/src/localrv.cc) that build a packet
    for the LocalProxy: requestTMAssistanceForRendezvous (both overloads),
    requestTMAssistanceForiSubscription,
    requestTMAssistanceForNotifyingSubscribers, notifyLocalPublisher,
    notifyLocalSubscriber, and the two subscriptions of initialize.  The
    length of each packet is computed with the widths the source uses. *)

From S2P Require Import Prelude Enums BitVector Packet GlobalConf RvStore.

(** The part for the blackadder API. *)
Definition api_header (IDLenForAPI : Z) (id fid : bytes) : list bytes :=
  [[PUBLISH_DATA]; [IDLenForAPI]; id; [IMPLICIT_RENDEZVOUS]; fid].

(** [unsigned char IDs_total_bytes]: the sum wraps *)
Definition IDs_total_bytes (IDs : list bytes) : Z := foldl (λ acc id, u8 (acc + zlen id)) 0 IDs.

(** [(unsigned char) id.length() / PURSUIT_ID_LEN] *)
Definition IDLength (id : bytes) : Z := u8 (zlen id) / Z.of_nat PURSUIT_ID_LEN.

(** The loop that puts the identifiers: a length byte and the identifier. *)
Definition put_ids (IDs : list bytes) : list bytes := id ← IDs; [[IDLength id]; id].

(** The loops of the notifications: [IDLength * PURSUIT_ID_LEN] bytes of the
    first [numberOfIDs] identifiers. *)
Definition notify_ids (numberOfIDs : Z) (IDs : list bytes) : list bytes :=
  id ← take (Z.to_nat numberOfIDs) IDs;
  [[IDLength id]; take (Z.to_nat (IDLength id) * PURSUIT_ID_LEN) id].

Definition build (packet_len : Z) (chunks : list bytes) : res (list (option Z)) :=
  packet_put_all 0 chunks (packet_make packet_len).

Definition ID_LEN : Z := Z.of_nat PURSUIT_ID_LEN.
Definition NODE_LEN : Z := Z.of_nat NODEID_LEN.
Definition FIDLEN : Z := Z.of_nat FID_LEN.

Section encode.
Context (gc : gconf).

(** requestTMAssistanceForRendezvous(pub, RemoteHostSet &_publishers, ...) *)
Definition encode_TMRendezvous (request_type strategy : Z) (publishers subscribers IDs : list bytes) :=
  let no_publishers := u8 (zlen publishers) in
  let no_subscribers := u8 (zlen subscribers) in
  let no_ids := u8 (zlen IDs) in
  let packet_len := 1 + 1 + 2 * ID_LEN + 1 + FIDLEN
    + 1 + 1 + 1 + zlen publishers * NODE_LEN + 1 + zlen subscribers * NODE_LEN
    + 1 + zlen IDs * 1 + IDs_total_bytes IDs in
  fid ← FID_read (TMFID gc);
  build packet_len (api_header 2 (nodeTMScope gc) fid
    ++ [[request_type]; [strategy]; [no_publishers]] ++ publishers
    ++ [[no_subscribers]] ++ subscribers ++ [[no_ids]] ++ put_ids IDs).

(** requestTMAssistanceForRendezvous(pub, RemoteHostSetItem &_publisher, ...) *)
Definition encode_TMRendezvousUC (request_type strategy : Z) (publisher : bytes) (subscribers IDs : list bytes) :=
  let no_publishers := 1 in
  let no_subscribers := u8 (zlen subscribers) in
  let no_ids := u8 (zlen IDs) in
  let packet_len := 1 + 1 + 3 * ID_LEN + 1 + FIDLEN
    + 1 + 1 + 1 + NODE_LEN + 1 + zlen subscribers * NODE_LEN
    + 1 + zlen IDs * 1 + IDs_total_bytes IDs in
  fid ← FID_read (TMFID gc);
  build packet_len (api_header 3 (nodeTMScopeUC gc) fid
    ++ [[request_type]; [strategy]; [no_publishers]] ++ [publisher]
    ++ [[no_subscribers]] ++ subscribers ++ [[no_ids]] ++ put_ids IDs).

(** requestTMAssistanceForiSubscription *)
Definition encode_TMiSubscription (request_type : Z) (isubscribers : list bytes) :=
  let no_publishers := 1 in
  let no_subscribers := u8 (zlen isubscribers) in
  let packet_len := 1 + 1 + 3 * ID_LEN + 1 + FIDLEN
    + 1 + 1 + NODE_LEN + 1 + no_subscribers * NODE_LEN in
  fid ← FID_read (TMFID gc);
  subs ← foldr (λ s acc, x ← c_str_read s NODEID_LEN; l ← acc; Ok (x :: l)) (Ok []) isubscribers;
  build packet_len (api_header 3 (nodeTMScopeUC gc) fid
    ++ [[request_type]; [no_publishers]; nodeID gc; [no_subscribers]] ++ subs).

(** requestTMAssistanceForNotifyingSubscribers *)
Definition encode_TMNotify (request_type strategy : Z) (subscribers IDs : list bytes) :=
  let no_subscribers := u8 (zlen subscribers) in
  let no_ids := u8 (zlen IDs) in
  let packet_len := 1 + 1 + zlen (nodeTMScope gc) + 1 + FIDLEN
    + 1 + 1 + 1 + zlen subscribers * NODE_LEN + 1 + zlen IDs * 1 + IDs_total_bytes IDs in
  fid ← FID_read (TMFID gc);
  build packet_len (api_header 2 (nodeTMScope gc) fid
    ++ [[request_type]; [strategy]; [no_subscribers]] ++ subscribers ++ [[no_ids]] ++ put_ids IDs).

(** notifyLocalPublisher: FID is NULL or the internal LID *)
Definition encode_LocalPublisher (type : Z) (IDs : list bytes) (withFID : bool) :=
  let numberOfIDs := u8 (zlen IDs) in
  let totalIDsLength := zlen (mjoin IDs) in
  let packet_len := 1 + 1 + zlen (notificationIID gc) + 1 + FIDLEN
    + 1 + 1 + numberOfIDs * 1 + totalIDsLength + (if withFID then FIDLEN else 0) in
  fid ← FID_read (iLID gc);
  build packet_len (api_header (u8 (zlen (notificationIID gc) / ID_LEN)) (notificationIID gc) fid
    ++ [[type]; [numberOfIDs]] ++ notify_ids numberOfIDs IDs ++ (if withFID then [fid] else [])).

(** notifyLocalSubscriber *)
Definition encode_LocalSubscriber (type : Z) (IDs : list bytes) :=
  let numberOfIDs := u8 (zlen IDs) in
  let totalIDsLength := zlen (mjoin IDs) in
  let packet_len := 1 + 1 + zlen (notificationIID gc) + 1 + FIDLEN
    + 1 + 1 + numberOfIDs * 1 + totalIDsLength in
  fid ← FID_read (iLID gc);
  build packet_len (api_header (u8 (zlen (notificationIID gc) / ID_LEN)) (notificationIID gc) fid
    ++ [[type]; [numberOfIDs]] ++ notify_ids numberOfIDs IDs).

Definition encode (m : rv_msg) : res (list (option Z)) :=
  match m with
  | TMRendezvous rt st ps ss ids => encode_TMRendezvous rt st ps ss ids
  | TMRendezvousUC rt st p ss ids => encode_TMRendezvousUC rt st p ss ids
  | TMiSubscription rt ss => encode_TMiSubscription rt ss
  | TMNotify rt st ss ids => encode_TMNotify rt st ss ids
  | LocalPublisher t ids f => encode_LocalPublisher t ids f
  | LocalSubscriber t ids => encode_LocalSubscriber t ids
  end.

(** The packets of initialize, of 100 bytes each ([Packet::make(100)]): the
    subscriptions to RVScope and to RVScope/RVScopeUC. *)
Definition initialize_packet : res (list (option Z)) :=
  build 100 [[SUBSCRIBE_SCOPE]; [1]; RVScope; [0]; [IMPLICIT_RENDEZVOUS]].
Definition initialize_packet_uc : res (list (option Z)) :=
  build 100 [[SUBSCRIBE_SCOPE]; [1]; RVScopeUC; [1]; RVScope; [IMPLICIT_RENDEZVOUS]].

End encode.

(** ** What the packets should hold *)

(** An identifier in a packet: the number of fragments and the bytes. *)
Definition id_field (id : bytes) : bytes := (zlen id / ID_LEN) :: id.

Definition api_bytes (n : Z) (id fid : bytes) : bytes :=
  [PUBLISH_DATA; n] ++ id ++ [IMPLICIT_RENDEZVOUS] ++ fid.

Definition counted (l : list bytes) : bytes := zlen l :: mjoin l.

Definition layout (gc : gconf) (m : rv_msg) : bytes :=
  let TM := bytes_of_FID (TMFID gc) in
  let internal := bytes_of_FID (iLID gc) in
  match m with
  | TMRendezvous rt st ps ss ids =>
      api_bytes 2 (nodeTMScope gc) TM ++ [rt; st] ++ counted ps ++ counted ss ++
      counted (id_field <$> ids)
  | TMRendezvousUC rt st p ss ids =>
      api_bytes 3 (nodeTMScopeUC gc) TM ++ [rt; st] ++ counted [p] ++ counted ss ++
      counted (id_field <$> ids)
  | TMiSubscription rt ss =>
      api_bytes 3 (nodeTMScopeUC gc) TM ++ [rt] ++ counted [nodeID gc] ++ counted ss
  | TMNotify rt st ss ids =>
      api_bytes 2 (nodeTMScope gc) TM ++ [rt; st] ++ counted ss ++ counted (id_field <$> ids)
  | LocalPublisher t ids f =>
      api_bytes 2 (notificationIID gc) internal ++ [t] ++ counted (id_field <$> ids) ++
      (if f then internal else [])
  | LocalSubscriber t ids =>
      api_bytes 2 (notificationIID gc) internal ++ [t] ++ counted (id_field <$> ids)
  end.

Definition node_ids (l : list bytes) : Prop :=
  Forall (λ x, length x = NODEID_LEN) l ∧ zlen l < 256.

(** Identifiers made of whole fragments, short enough for their fields. *)
Definition path_ids (l : list bytes) : Prop :=
  Forall (λ x, (length x `mod` PURSUIT_ID_LEN = 0)%nat ∧ zlen x < 256) l ∧ zlen l < 256.

Definition msg_fields_ok (m : rv_msg) : Prop :=
  match m with
  | TMRendezvous _ _ ps ss ids => node_ids ps ∧ node_ids ss ∧ path_ids ids
  | TMRendezvousUC _ _ p ss ids => length p = NODEID_LEN ∧ node_ids ss ∧ path_ids ids
  | TMiSubscription _ ss => node_ids ss
  | TMNotify _ _ ss ids => node_ids ss ∧ path_ids ids
  | LocalPublisher _ ids _ | LocalSubscriber _ ids => path_ids ids
  end.

(** The identifiers whose total length goes through an [unsigned char]. *)
Definition TM_ids (m : rv_msg) : list bytes :=
  match m with
  | TMRendezvous _ _ _ _ ids | TMRendezvousUC _ _ _ _ ids | TMNotify _ _ _ ids => ids
  | _ => []
  end.

(** The requests whose length is computed through that total. *)
Definition uses_total (m : rv_msg) : bool :=
  match m with TMRendezvous _ _ _ _ _ | TMRendezvousUC _ _ _ _ _ | TMNotify _ _ _ _ => true | _ => false end.

(** ** Lengths *)

Lemma IDs_total_bytes_mod IDs : IDs_total_bytes IDs = zlen (mjoin IDs) mod 256.
Proof.
  unfold IDs_total_bytes. enough (∀ a, foldl (λ acc id, u8 (acc + zlen id)) (a mod 256) IDs
    = (a + zlen (mjoin IDs)) mod 256) as Hg by (by rw -(Hg 0)).
  induction IDs as [|id IDs IH]; intros a; cbn [foldl].
  { by rw zlen_nil Z.add_0_r. }
  unfold u8. rw Zplus_mod_idemp_l IH. f_equal.
  change (mjoin (id :: IDs)) with (id ++ mjoin IDs). rw zlen_app. lia.
Qed.

Lemma zlen_mjoin_fixed n (l : list bytes) :
  Forall (λ x, length x = n) l → zlen (mjoin l) = zlen l * Z.of_nat n.
Proof.
  induction 1 as [|x l Hx _ IH]; [done|].
  change (mjoin (x :: l)) with (x ++ mjoin l). rw zlen_app zlen_cons IH. unfold zlen. lia.
Qed.

Lemma mjoin_put_ids IDs :
  mjoin (put_ids IDs) = mjoin ((λ id, IDLength id :: id) <$> IDs).
Proof.
  unfold put_ids. induction IDs as [|id IDs IH]; [done|]. cbn. by rw -IH.
Qed.

Lemma zlen_id_fields (f : bytes → Z) IDs :
  zlen (mjoin ((λ id, f id :: id) <$> IDs)) = zlen IDs + zlen (mjoin IDs).
Proof.
  induction IDs as [|id IDs IH]; [done|].
  cbn [fmap list_fmap]. change (mjoin (?x :: ?l)) with (x ++ mjoin l).
  rw !zlen_app !zlen_cons IH. lia.
Qed.

Lemma IDLength_eq id : zlen id < 256 → IDLength id = zlen id / ID_LEN.
Proof. intros. unfold IDLength, u8. rw Z.mod_small //. pose proof (zlen_nonneg id). lia. Qed.

Lemma put_ids_fields IDs : path_ids IDs → mjoin (put_ids IDs) = mjoin (id_field <$> IDs).
Proof.
  intros [Hall _]. rw mjoin_put_ids. f_equal. apply list_fmap_ext. intros i id Hid.
  unfold id_field. f_equal. apply IDLength_eq.
  by apply (proj1 (Forall_lookup _ _) Hall i id Hid).
Qed.

Lemma notify_ids_fields IDs : path_ids IDs →
  mjoin (notify_ids (u8 (zlen IDs)) IDs) = mjoin (id_field <$> IDs).
Proof.
  intros [Hall Hn]. unfold notify_ids, u8. rw Z.mod_small; [|pose proof (zlen_nonneg IDs); lia].
  rw take_ge; [|unfold zlen; lia]. clear Hn.
  induction Hall as [|id IDs [Hm Hl] _ IH]; [done|]. cbn. rw -IH. unfold id_field.
  rw IDLength_eq // take_ge //. unfold zlen, ID_LEN, PURSUIT_ID_LEN in *. lia.
Qed.

Lemma build_exact len chunks : len = zlen (mjoin chunks) → build len chunks = Ok (Some <$> mjoin chunks).
Proof.
  intros ->. pose proof (zlen_nonneg (mjoin chunks)). unfold build. rw packet_put_all_make //.
  rw Z.leb_refl. unfold zlen. by rw Nat2Z.id Nat.sub_diag app_nil_r.
Qed.

Lemma build_overflow len chunks : 0 <= len < zlen (mjoin chunks) → build len chunks = Fault OutOfBounds.
Proof. intros. unfold build. rw packet_put_all_make; [|lia]. by destruct (Z.leb_spec (zlen (mjoin chunks)) len); [lia|]. Qed.

Lemma zlen_mjoin_app (l k : list bytes) : zlen (mjoin (l ++ k)) = zlen (mjoin l) + zlen (mjoin k).
Proof. by rw mjoin_app zlen_app. Qed.
Lemma zlen_mjoin_cons (x : bytes) (l : list bytes) : zlen (mjoin (x :: l)) = zlen x + zlen (mjoin l).
Proof. by change (mjoin (x :: l)) with (x ++ mjoin l); rw zlen_app. Qed.
Lemma zlen_mjoin_nil : zlen (mjoin (@nil bytes)) = 0.
Proof. done. Qed.

Lemma mjoin_cons (x : bytes) (l : list bytes) : mjoin (x :: l) = x ++ mjoin l.
Proof. done. Qed.

Lemma zlen_fmap {A B} (f : A → B) l : zlen (f <$> l) = zlen l.
Proof. unfold zlen. by rw length_fmap. Qed.

Lemma mjoin_singleton (x : bytes) : mjoin [x] = x.
Proof. apply app_nil_r. Qed.

(** A string of length [n] stays itself when [n] bytes of it are copied. *)
Lemma c_str_read_all s n : length s = n → c_str_read s n = Ok s.
Proof.
  intros <-. unfold c_str_read. destruct (Nat.leb_spec (length s) (S (length s))); [|lia].
  by rw take_app_length.
Qed.

Lemma c_str_read_list l :
  Forall (λ x, length x = NODEID_LEN) l →
  foldr (λ s acc, x ← c_str_read s NODEID_LEN; l ← acc; Ok (x :: l)) (Ok []) l = Ok l.
Proof. induction 1 as [|x l Hx _ IH]; [done|]. cbn [foldr]. by rw c_str_read_all // IH. Qed.

Lemma mjoin_header n id fid : mjoin (api_header n id fid) = api_bytes n id fid.
Proof. unfold api_bytes. cbn. by rw app_nil_r. Qed.

Lemma zlen_api_bytes n id fid : length fid = FID_LEN → zlen (api_bytes n id fid) = 35 + zlen id.
Proof. intros Hf. unfold api_bytes. rw !zlen_app !zlen_cons !zlen_nil. unfold zlen in *. rw Hf /FID_LEN. lia. Qed.

Section layouts.
Context (gc : gconf) (Hgc : gconf_wf gc).

Lemma zlen_nodeID : zlen (nodeID gc) = 8.
Proof. unfold zlen. by rw (gc_nodeID _ Hgc). Qed.
Lemma zlen_nodeTMScope : zlen (nodeTMScope gc) = 16.
Proof. unfold nodeTMScope. by rw zlen_app zlen_nodeID. Qed.
Lemma zlen_nodeTMScopeUC : zlen (nodeTMScopeUC gc) = 24.
Proof. unfold nodeTMScopeUC. by rw !zlen_app zlen_nodeID. Qed.
Lemma zlen_notificationIID : zlen (notificationIID gc) = 16.
Proof. unfold notificationIID. by rw !zlen_app zlen_nodeID. Qed.

Lemma iLID_read : FID_read (iLID gc) = Ok (bytes_of_FID (iLID gc)).
Proof. destruct (gc_ilid _ Hgc). by apply FID_read_ok. Qed.
Lemma iLID_len : length (bytes_of_FID (iLID gc)) = FID_LEN.
Proof. eapply FID_read_length, iLID_read. Qed.

Section with_TMFID.
Context (Htm : bv_max (TMFID gc) = 255).

Lemma TMFID_read : FID_read (TMFID gc) = Ok (bytes_of_FID (TMFID gc)).
Proof. apply FID_read_ok; [apply Hgc|done]. Qed.
Lemma TMFID_len : length (bytes_of_FID (TMFID gc)) = FID_LEN.
Proof. eapply FID_read_length, TMFID_read. Qed.
End with_TMFID.
End layouts.

Lemma u8_count l : zlen l < 256 → u8 (@zlen bytes l) = zlen l.
Proof. intros. pose proof (zlen_nonneg l). unfold u8. by rw Z.mod_small. Qed.

Lemma TM_request_length gc (Hgc : gconf_wf gc) (Htm : bv_max (TMFID gc) = 255)
    (n : Z) (scope : bytes) (mid : list bytes) (IDs : list bytes) (x : Z) :
  zlen (mjoin (api_header n scope (bytes_of_FID (TMFID gc)) ++ mid ++ [[x]] ++ put_ids IDs))
  = 35 + zlen scope + zlen (mjoin mid) + 1 + zlen IDs + zlen (mjoin IDs).
Proof.
  rw !mjoin_app mjoin_header mjoin_singleton zlen_app zlen_api_bytes; [|by apply TMFID_len].
  rw !zlen_app zlen_cons zlen_nil mjoin_put_ids zlen_id_fields. lia.
Qed.

(** A request whose fixed part has length [fixed], with the length computed
    through the [unsigned char]: it fits iff the identifiers have less than
    256 bytes. *)
Lemma TM_request_build gc (Hgc : gconf_wf gc) (Htm : bv_max (TMFID gc) = 255) n scope mid IDs x len chunks :
  chunks = api_header n scope (bytes_of_FID (TMFID gc)) ++ mid ++ [[x]] ++ put_ids IDs →
  len = 35 + zlen scope + zlen (mjoin mid) + 1 + zlen IDs * 1 + IDs_total_bytes IDs →
  build len chunks =
  if zlen (mjoin IDs) <? 256
  then Ok (Some <$> (api_bytes n scope (bytes_of_FID (TMFID gc)) ++ mjoin mid ++ [x] ++ mjoin (put_ids IDs)))
  else Fault OutOfBounds.
Proof.
  intros -> ->. rw IDs_total_bytes_mod.
  pose proof (zlen_nonneg (mjoin IDs)). pose proof (zlen_nonneg scope).
  pose proof (zlen_nonneg (mjoin mid)). pose proof (zlen_nonneg IDs).
  pose proof (TM_request_length gc Hgc Htm n scope mid IDs x) as Hl.
  destruct (Z.ltb_spec (zlen (mjoin IDs)) 256) as [Hlt|Hge].
  - rw build_exact; [|rw Hl Z.mod_small //; lia]. by rw !mjoin_app mjoin_header mjoin_singleton.
  - apply build_overflow. rw Hl. lia.
Qed.

Lemma node_ids_bytes l : node_ids l → zlen (mjoin l) = zlen l * NODE_LEN.
Proof. intros [H _]. by apply zlen_mjoin_fixed. Qed.

(** The length computed for a packet, against the length written. *)
Ltac packet_len_tac :=
  rw ?zlen_mjoin_app ?zlen_mjoin_cons ?zlen_mjoin_nil;
  repeat match goal with
  | H : node_ids ?l |- context [zlen (mjoin ?l)] => rw (node_ids_bytes l H)
  | H : gconf_wf ?gc |- context [zlen (nodeTMScope ?gc)] => rw (zlen_nodeTMScope gc H)
  | H : gconf_wf ?gc |- context [zlen (nodeTMScopeUC ?gc)] => rw (zlen_nodeTMScopeUC gc H)
  | H : zlen ?l = _ |- context [zlen ?l] => rw H
  end;
  rw ?zlen_cons ?zlen_nil;
  unfold ID_LEN, FIDLEN, NODE_LEN, PURSUIT_ID_LEN, FID_LEN, NODEID_LEN, zlen in *; lia.

(** The chunks written, against the layout. *)
Ltac packet_bytes_tac :=
  unfold layout, counted, node_ids, path_ids in *; destruct_and?;
  rw ?u8_count // ?mjoin_app ?mjoin_cons ?zlen_fmap ?app_nil_r -?app_assoc //.

Section local_layouts.
Context (gc : gconf) (Hgc : gconf_wf gc).

Lemma zlen_notify_ids IDs : path_ids IDs →
  zlen (mjoin (notify_ids (u8 (zlen IDs)) IDs)) = zlen IDs + zlen (mjoin IDs).
Proof. intros H. by rw notify_ids_fields // /id_field zlen_id_fields. Qed.

Lemma notification_IDLen : u8 (zlen (notificationIID gc) / ID_LEN) = 2.
Proof. by rw (zlen_notificationIID gc Hgc). Qed.

Lemma local_publisher_layout t ids f : path_ids ids →
  encode_LocalPublisher gc t ids f = Ok (Some <$> layout gc (LocalPublisher t ids f)).
Proof.
  intros Hi. unfold encode_LocalPublisher. rw (iLID_read gc Hgc) notification_IDLen.
  cbn [mbind res_mbind res_bind]. pose proof (zlen_notificationIID gc Hgc) as Hn.
  pose proof (zlen_notify_ids _ Hi) as Hl. pose proof (iLID_len gc Hgc) as Hf.
  rw build_exact.
  - rw mjoin_app mjoin_header mjoin_app mjoin_app notify_ids_fields //. destruct f; packet_bytes_tac.
  - rw zlen_mjoin_app mjoin_header zlen_api_bytes // !zlen_mjoin_app Hl.
    rw u8_count; [|apply Hi]. rw Hn.
    clear Hl. revert Hf. generalize (bytes_of_FID (iLID gc)) as fid. intros fid Hf.
    destruct f; packet_len_tac.
Qed.

Lemma local_subscriber_layout t ids : path_ids ids →
  encode_LocalSubscriber gc t ids = Ok (Some <$> layout gc (LocalSubscriber t ids)).
Proof.
  intros Hi. unfold encode_LocalSubscriber. rw (iLID_read gc Hgc) notification_IDLen.
  cbn [mbind res_mbind res_bind]. pose proof (zlen_notificationIID gc Hgc) as Hn.
  pose proof (zlen_notify_ids _ Hi) as Hl. pose proof (iLID_len gc Hgc) as Hf.
  rw build_exact.
  - rw mjoin_app mjoin_header mjoin_app notify_ids_fields //. packet_bytes_tac.
  - rw zlen_mjoin_app mjoin_header zlen_api_bytes // !zlen_mjoin_app Hl.
    rw u8_count; [|apply Hi]. rw Hn. clear Hf Hl. packet_len_tac.
Qed.
End local_layouts.

(** ** The packets hold what they should, or do not fit *)

Lemma TM_requests_built gc m (Hgc : gconf_wf gc) (Htm : bv_max (TMFID gc) = 255)
    (Hm : msg_fields_ok m) (Ht : uses_total m = true) :
  encode gc m =
    if zlen (mjoin (TM_ids m)) <? 256 then Ok (Some <$> layout gc m) else Fault OutOfBounds.
Proof.
  pose proof (TMFID_read gc Hgc Htm) as Hfid.
  destruct m as [rt st ps ss ids|rt st p ss ids|rt ss|rt st ss ids|t ids f|t ids]; try done;
    cbn [encode TM_ids msg_fields_ok] in *.
  - destruct Hm as (Hps & Hss & Hi). unfold encode_TMRendezvous. rw Hfid. cbn [mbind res_mbind res_bind].
    erewrite (TM_request_build gc Hgc Htm _ _ ([[rt]; [st]; [_]] ++ ps ++ [[_]] ++ ss));
      [|by rw -!app_assoc|packet_len_tac].
    case_match; [|done]. rw put_ids_fields //. packet_bytes_tac.
  - destruct Hm as (Hp & Hss & Hi). unfold encode_TMRendezvousUC. rw Hfid. cbn [mbind res_mbind res_bind].
    erewrite (TM_request_build gc Hgc Htm _ _ ([[rt]; [st]; [_]] ++ [p] ++ [[_]] ++ ss));
      [|by rw -!app_assoc|packet_len_tac].
    case_match; [|done]. rw put_ids_fields //. packet_bytes_tac.
  - destruct Hm as (Hss & Hi). unfold encode_TMNotify. rw Hfid. cbn [mbind res_mbind res_bind].
    erewrite (TM_request_build gc Hgc Htm _ _ ([[rt]; [st]; [_]] ++ ss));
      [|by rw -!app_assoc|packet_len_tac].
    case_match; [|done]. rw put_ids_fields //. packet_bytes_tac.
Qed.

(** [C38] Every request LocalRV sends to the topology manager about
    identifiers: with well-formed fields, the packet is built, holds exactly
    the documented layout and no uninitialised byte when the identifiers take
    less than 256 bytes; with 256 bytes or more, the [unsigned char] total
    wraps, the packet is too short, and the copies write past its end. *)
Theorem TM_requests_fit_iff gc m (Hgc : gconf_wf gc) (Htm : bv_max (TMFID gc) = 255)
    (Hm : msg_fields_ok m) (Ht : uses_total m = true) :
  encode gc m =
    if zlen (mjoin (TM_ids m)) <? 256 then Ok (Some <$> layout gc m) else Fault OutOfBounds.
Proof. by apply TM_requests_built. Qed.

(** A configured node, for concrete runs: label 00000001. *)
Definition sample_gc : gconf :=
  mkConf [48; 48; 48; 48; 48; 48; 48; 49] true true true true
    (BABitvector_make 256) (BABitvector_make 256) (BABitvector_make 256) (BABitvector_make 256).

Lemma sample_gc_wf : gconf_wf sample_gc ∧ bv_max (TMFID sample_gc) = 255.
Proof.
  assert (bv_wf (BABitvector_make 256) ∧ bv_max (BABitvector_make 256) = 255) as Hb.
  { destruct (BABitvector_make_zeros 256) as (? & ? & _); [lia|done]. }
  split; [|apply Hb]. split; try apply Hb; [done|]. split; [apply Hb|left; apply Hb].
Qed.

Lemma TM_requests_fit_iff_witness :
  let id := replicate 8 1 in
  let m n := TMNotify SCOPE_PUBLISHED DOMAIN_LOCAL [nodeID sample_gc] (replicate n id) in
  encode sample_gc (m 31%nat) = Ok (Some <$> layout sample_gc (m 31%nat)) ∧
  encode sample_gc (m 32%nat) = Fault OutOfBounds.
Proof.
  intros id m. destruct sample_gc_wf as [Hwf Htm].
  assert (∀ n, (n ≤ 32)%nat → msg_fields_ok (m n)) as Hm.
  { intros n Hn. repeat split; simpl; repeat constructor.
    - by apply Forall_replicate.
    - unfold zlen. rw length_replicate. lia. }
  split.
  - rw (TM_requests_fit_iff sample_gc (m 31%nat) Hwf Htm (Hm 31%nat ltac:(lia))) //.
  - rw (TM_requests_fit_iff sample_gc (m 32%nat) Hwf Htm (Hm 32%nat ltac:(lia))) //.
Defined.

(** The packets LocalRV builds without an [unsigned char] total (the
    implicit subscription request and the two local notifications) hold
    exactly their layout for every admissible number of identifiers. *)
Theorem notifications_layout gc m (Hgc : gconf_wf gc) (Htm : bv_max (TMFID gc) = 255)
    (Hm : msg_fields_ok m) (Ht : uses_total m = false) :
  encode gc m = Ok (Some <$> layout gc m).
Proof.
  pose proof (TMFID_read gc Hgc Htm) as Hfid. pose proof (iLID_read gc Hgc) as Hil.
  pose proof (zlen_notificationIID gc Hgc) as Hn.
  destruct m as [rt st ps ss ids|rt st p ss ids|rt ss|rt st ss ids|t ids f|t ids]; try done;
    cbn [encode msg_fields_ok] in *.
  - unfold encode_TMiSubscription. rw Hfid. cbn [mbind res_mbind res_bind].
    rw (c_str_read_list _ (proj1 Hm)). cbn [mbind res_mbind res_bind].
    rw build_exact.
    + rw mjoin_app mjoin_header. packet_bytes_tac.
    + rw zlen_mjoin_app mjoin_header zlen_api_bytes; [|by apply TMFID_len].
      rw u8_count; [|apply Hm]. pose proof (zlen_nodeID gc Hgc). packet_len_tac.
  - apply local_publisher_layout; done.
  - apply local_subscriber_layout; done.
Qed.

Lemma notifications_layout_witness :
  encode sample_gc (TMiSubscription MATCH_PUB_iSUBS [nodeID sample_gc]) =
    Ok (Some <$> layout sample_gc (TMiSubscription MATCH_PUB_iSUBS [nodeID sample_gc])) ∧
  encode sample_gc (LocalPublisher START_PUBLISH [replicate 16 7] true) =
    Ok (Some <$> layout sample_gc (LocalPublisher START_PUBLISH [replicate 16 7] true)).
Proof.
  destruct sample_gc_wf as [Hwf Htm].
  split; apply notifications_layout; try done; repeat split; repeat constructor.
Defined.

(** With no TMFID in the configuration the vector keeps the inline
    storage of an empty bit vector, 8 bytes, and every request to the
    topology manager copies 32 bytes from it: a read outside the vector. *)
Theorem TM_requests_need_TMFID gc m (Hun : TMFID gc = BABitvector_empty)
    (Hm : uses_total m = true) :
  encode gc m = Fault OutOfBounds.
Proof. destruct m; try done; cbn [encode]; unfold encode_TMRendezvous, encode_TMRendezvousUC, encode_TMNotify; by rw Hun. Qed.

Lemma TM_requests_need_TMFID_witness :
  let gc := mkConf (nodeID sample_gc) true true true true (iLID sample_gc) (iLID sample_gc)
    (iLID sample_gc) BABitvector_empty in
  encode gc (TMNotify SCOPE_PUBLISHED DOMAIN_LOCAL [nodeID gc] [replicate 8 1]) = Fault OutOfBounds.
Proof. by apply TM_requests_need_TMFID. Defined.
