(* ===== verification/LocalRV.v ===== *)
(** * The rendezvous element

    Model of src/src/localrv.cc: every request handler of LocalRV, the
    rendezvous and notification functions they call, the packet parser
    [push], [initialize] and [cleanup].

    A handler returns the code of the source and threads the state; a use of
    a null pointer or of a deleted object is a fault.  A loop whose body
    erases from the table it runs over goes through the elements the table
    had when the loop began: Click keeps the link of an erased cell, so its
    iterator goes on to the same elements.  The log messages
    ([click_chatter]) are not modelled. *)

From S2P Require Import Prelude Enums HashTable BitVector Packet GlobalConf RvStore RvMessages.

Section localrv.
Context `{CT : ClickTables}.

(** ** Reading the indexes and the objects *)

Definition find_scope (id : bytes) : R (option ptr) := gets (λ s, ht_get id (scopeIndex s)).
Definition find_item (id : bytes) : R (option ptr) := gets (λ s, ht_get id (pubIndex s)).
Definition scope_exists (id : bytes) : R bool := gets (λ s, ht_mem id (scopeIndex s)).
Definition item_exists (id : bytes) : R bool := gets (λ s, ht_mem id (pubIndex s)).
(** [p->...] for a pointer that may be null *)
Definition not_null (p : option ptr) : R ptr := lift_opt NullDeref p.

Definition Scope_getSubscribers (this : ptr) (subscribers : PtrSet) : R PtrSet :=
  x ← get_scope this; mret (ids_getSubscribers (sc_ids x) subscribers).
Definition InformationItem_getSubscribers (this : ptr) (subscribers : PtrSet) : R PtrSet :=
  i ← get_item this; mret (ids_getSubscribers (ii_ids i) subscribers).
Definition InformationItem_getPublishers (this : ptr) (publishers : PtrSet) : R PtrSet :=
  i ← get_item this; mret (ids_getPublishers (ii_ids i) publishers).
Definition Scope_getIDs (this : ptr) : R StringSet :=
  x ← get_scope this; mret (ids_getIDs (sc_ids x) ht_empty).
Definition InformationItem_getRootScopes (this : ptr) (_ids : StringSet) : R StringSet :=
  i ← get_item this; mret (ids_getRootScopes (ii_ids i) _ids).

(** The subscribers of an item and of all its father scopes. *)
Definition interested (pub : ptr) : R PtrSet :=
  subscribers ← InformationItem_getSubscribers pub ht_empty;
  i ← get_item pub;
  mfoldl (λ acc father, Scope_getSubscribers father acc) subscribers (ht_keys (ii_fatherScopes i)).

(** [known_rootscopes.find(( *_RootScopeids.begin())._strData) != end()] *)
Definition first_root_known (_RootScopeids : StringSet) : R bool :=
  root ← lift_opt NullDeref (ht_first _RootScopeids);
  gets (λ s, ht_mem root (known_rootscopes s)).

(** ** Messages *)

Definition host_names (l : list ptr) : R (list bytes) :=
  mfoldl (λ acc h, x ← get_host h; mret (acc ++ [remoteHostID x])) [] l.

Definition request_of (update_only : bool) (otherwise : Z) : Z :=
  if update_only then UPDATE_FID else otherwise.

(** requestTMAssistanceForRendezvous with the set of publishers *)
Definition requestTMAssistanceForRendezvous (pub : ptr) (_publishers _subscribers : PtrSet)
    (update_only : bool) : R () :=
  i ← get_item pub;
  ps ← host_names (ht_keys _publishers);
  ss ← host_names (ht_keys _subscribers);
  emit (TMRendezvous (request_of update_only MATCH_PUB_SUBS) (ii_strategy i) ps ss (ht_keys (ii_ids i))).

(** requestTMAssistanceForRendezvous with one publisher *)
Definition requestTMAssistanceForRendezvous1 (pub _publisher : ptr) (_subscribers : PtrSet)
    (update_only : bool) : R () :=
  i ← get_item pub;
  p ← get_host _publisher;
  ss ← host_names (ht_keys _subscribers);
  emit (TMRendezvousUC (request_of update_only MATCH_PUB_SUBS) (ii_strategy i) (remoteHostID p) ss
    (ht_keys (ii_ids i))).

Definition requestTMAssistanceForiSubscription (_isubscribers : StringSet) (update_only : bool) : R () :=
  emit (TMiSubscription (request_of update_only MATCH_PUB_iSUBS) (ht_keys _isubscribers)).

Definition requestTMAssistanceForNotifyingSubscribers (request_type : Z) (IDs : StringSet)
    (_subscribers : PtrSet) (strategy : Z) : R () :=
  ss ← host_names (ht_keys _subscribers);
  emit (TMNotify request_type strategy ss (ht_keys IDs)).

(** [FID] is NULL or the internal LID of the node *)
Definition notifyLocalPublisher (pub : ptr) (FID update_only : bool) : R () :=
  i ← get_item pub;
  let type := if FID then request_of update_only START_PUBLISH else STOP_PUBLISH in
  emit (LocalPublisher type (ht_keys (ii_ids i)) FID).

Definition notifyLocalSubscriber (type : Z) (IDs : StringSet) : R () :=
  emit (LocalSubscriber type (ht_keys IDs)).

Definition notifySubscribers (type : Z) (IDs : StringSet) (strategy : Z) (subscribers : PtrSet) : R () :=
  if strategy =? NODE_LOCAL then
    lp ← gets localProxy;
    if ht_mem lp subscribers then notifyLocalSubscriber type IDs else mret ()
  else if (0 <? ht_size subscribers)%nat then
    requestTMAssistanceForNotifyingSubscribers type IDs subscribers strategy
  else mret ().

Definition rendezvous (pub : ptr) (_subscribers : PtrSet) (update_only : bool) : R () :=
  _RootScopeids ← InformationItem_getRootScopes pub ht_empty;
  _publishers ← InformationItem_getPublishers pub ht_empty;
  if (0 <? ht_size _publishers)%nat then
    i ← get_item pub;
    if ii_strategy i =? NODE_LOCAL then
      notifyLocalPublisher pub (0 <? ht_size _subscribers)%nat update_only
    else if ii_strategy i =? DOMAIN_LOCAL then
      known_scope ← first_root_known _RootScopeids;
      if known_scope : bool then
        mfor (ht_keys _publishers) (λ p, requestTMAssistanceForRendezvous1 pub p _subscribers update_only)
      else requestTMAssistanceForRendezvous pub _publishers _subscribers update_only
    else mret ()
  else mret ().

(** Adds the subscribers of the HTTP wildcard item, if there is one. *)
Definition getHTTPgw (_subscribers : PtrSet) : R PtrSet :=
  pub ← find_item HTTP_DEFAULT_IID;
  match pub with
  | Some pub => InformationItem_getSubscribers pub _subscribers
  | None => mret _subscribers
  end.

(** ** Blocks the handlers share *)

(** [if (updatePublishers(...)) { ...; ret = SUCCESS; } else ret = EXISTS;] *)
Definition when_added (added : bool) (k : R ()) : R RvReturnCode :=
  if added then k;; mret SUCCESS else mret EXISTS.

(** The switch that repeats the rendezvous unless the item is under a known
    root scope. *)
Definition rendezvous_unless_known (pub : ptr) (_RootScopeids : StringSet) (update_only : bool) : R () :=
  known_scope ← first_root_known _RootScopeids;
  if known_scope : bool then mret ()
  else subscribers ← interested pub; rendezvous pub subscribers update_only.

(** Deleting an item: all identifiers leave the index. *)
Definition item_delete_all (pub fatherScope : ptr) : R () :=
  upd_scope fatherScope (λ f, sc_with_items (ht_erase pub (sc_informationitems f)) f);;
  i ← get_item pub;
  mfor (ht_keys (ii_ids i)) (λ id, modify (λ s, set_pubIndex (ht_erase id (pubIndex s)) s));;
  delete_item pub.

(** Deleting one branch of an item that has several father scopes. *)
Definition item_delete_branch (pub fatherScope : ptr) : R () :=
  upd_scope fatherScope (λ f, sc_with_items (ht_erase pub (sc_informationitems f)) f);;
  upd_item pub (λ i, ii_with_fathers (ht_erase fatherScope (ii_fatherScopes i)) i);;
  i ← get_item pub;
  id0 ← lift_res (first_id (ii_ids i));
  let suffixID := last_fragment id0 in
  f ← get_scope fatherScope;
  mfor (ht_keys (sc_ids f)) (λ fid,
    upd_item pub (λ i, ii_with_ids (ht_erase (fid ++ suffixID) (ii_ids i)) i);;
    modify (λ s, set_pubIndex (ht_erase (fid ++ suffixID) (pubIndex s)) s)).

Definition scope_erase_index (sc : ptr) : R () :=
  x ← get_scope sc;
  mfor (ht_keys (sc_ids x)) (λ id, modify (λ s, set_scopeIndex (ht_erase id (scopeIndex s)) s)).

(** The identifiers of all other branches leave the set. *)
Definition keep_only (fullID : bytes) (_ids : StringSet) : StringSet :=
  foldl (λ t id, if decide (id = fullID) then t else ht_erase id t) _ids (ht_keys _ids).

(** The last part of unpublish_scope and unsubscribe_scope for a scope that
    has a father: delete the scope, or its branch under that father, if
    nobody uses it any more. *)
Definition scope_release (sc fatherScope : ptr) (fullID : bytes) : R () :=
  x ← get_scope sc;
  if (ht_size (sc_childrenScopes x) =? 0)%nat && (ht_size (sc_informationitems x) =? 0)%nat then
    used ← Scope_checkForOtherPubSub sc (Some fatherScope);
    if used : bool then mret () else
    subscribers ← Scope_getSubscribers fatherScope ht_empty;
    _ids ← Scope_getIDs sc;
    if (ht_size (sc_fatherScopes x) =? 1)%nat then
      notifySubscribers SCOPE_UNPUBLISHED _ids (sc_strategy x) subscribers;;
      upd_scope fatherScope (λ f, sc_with_children (ht_erase sc (sc_childrenScopes f)) f);;
      scope_erase_index sc;;
      delete_scope sc
    else
      notifySubscribers SCOPE_UNPUBLISHED (keep_only fullID _ids) (sc_strategy x) subscribers;;
      upd_scope fatherScope (λ f, sc_with_children (ht_erase sc (sc_childrenScopes f)) f);;
      upd_scope sc (λ x, sc_with_fathers (ht_erase fatherScope (sc_fatherScopes x)) x);;
      x ← get_scope sc;
      id0 ← lift_res (first_id (sc_ids x));
      let suffixID := last_fragment id0 in
      f ← get_scope fatherScope;
      mfor (ht_keys (sc_ids f)) (λ fid,
        upd_scope sc (λ x, sc_with_ids (ht_erase (fid ++ suffixID) (sc_ids x)) x);;
        modify (λ s, set_scopeIndex (ht_erase (fid ++ suffixID) (scopeIndex s)) s))
  else mret ().

(** The same part for a root scope. *)
Definition root_scope_release (sc : ptr) : R () :=
  x ← get_scope sc;
  if (ht_size (sc_childrenScopes x) =? 0)%nat && (ht_size (sc_informationitems x) =? 0)%nat then
    used ← Scope_checkForOtherPubSub sc None;
    if used : bool then mret () else scope_erase_index sc;; delete_scope sc
  else mret ().

(** ** Requests about information items: unpublish *)

Definition unpublish_info (_publisher : ptr) (ID prefixID : bytes) (strategy : Z)
    (update_only : bool) : R RvReturnCode :=
  let fullID := prefixID ++ ID in
  pub ← find_item fullID;
  fatherScope ← find_scope prefixID;
  match pub with
  | None => mret INFO_DOES_NOT_EXIST
  | Some pub =>
      father ← not_null fatherScope;
      f ← get_scope father;
      if negb (sc_strategy f =? strategy) then mret STRATEGY_MISMATCH else
      _RootScopeids ← InformationItem_getRootScopes pub ht_empty;
      i ← get_item pub;
      pr ← lift_opt NullDeref (ht_get fullID (ii_ids i));
      if ht_mem _publisher pr.1 then
        upd_item pub (λ i, ii_with_ids (ht_alter (λ pr, (ht_erase _publisher pr.1, pr.2)) fullID (ii_ids i)) i);;
        upd_host _publisher (host_del_pubInfo fullID);;
        used ← InformationItem_checkForOtherPubSub pub father;
        (if (ht_size (ii_fatherScopes i) =? 1)%nat then
           if negb used then item_delete_all pub father
           else rendezvous_unless_known pub _RootScopeids update_only
         else
           (if negb used then item_delete_branch pub father else mret ());;
           rendezvous_unless_known pub _RootScopeids update_only);;
        mret SUCCESS
      else mret DOES_NOT_EXIST
  end.

(** One-shot publication: every publisher is unpublished. *)
Definition unpublish_all (publishers : PtrSet) (ID prefixID : bytes) (strategy : Z) (update_only : bool) : R () :=
  mfor (ht_keys publishers) (λ p, _ ← unpublish_info p ID prefixID strategy update_only; mret ()).

(** ** Publishing scopes *)

Definition publish_root_scope (_publisher : ptr) (ID : bytes) (strategy : Z) : R RvReturnCode :=
  sc ← find_scope ID;
  match sc with
  | None =>
      sc ← Scope_new strategy None;
      modify (λ s, set_scopeIndex (ht_set ID sc (scopeIndex s)) s);;
      added ← Scope_updatePublishers sc ID _publisher;
      when_added added (upd_host _publisher (host_add_pubScope ID))
  | Some sc =>
      x ← get_scope sc;
      if sc_strategy x =? strategy then
        added ← Scope_updatePublishers sc ID _publisher;
        when_added added (upd_host _publisher (host_add_pubScope ID))
      else mret STRATEGY_MISMATCH
  end.

Definition publish_inner_scope (_publisher : ptr) (ID prefixID : bytes) (strategy : Z) : R RvReturnCode :=
  let fullID := prefixID ++ ID in
  item ← item_exists fullID;
  if item : bool then mret INFO_ITEM_WITH_SAME_ID else
  fatherScope ← find_scope prefixID;
  match fatherScope with
  | None => mret FATHER_DOES_NOT_EXIST
  | Some father =>
      sc ← find_scope fullID;
      match sc with
      | None =>
          f ← get_scope father;
          if sc_strategy f =? strategy then
            sc ← Scope_new strategy (Some father);
            Scope_recursivelyUpdateIDs sc (last_fragment fullID);;
            added ← Scope_updatePublishers sc fullID _publisher;
            when_added added (
              upd_host _publisher (host_add_pubScope fullID);;
              subscribers ← Scope_getSubscribers father ht_empty;
              _ids ← Scope_getIDs sc;
              x ← get_scope sc;
              notifySubscribers SCOPE_PUBLISHED _ids (sc_strategy x) subscribers)
          else mret STRATEGY_MISMATCH
      | Some sc =>
          x ← get_scope sc;
          if sc_strategy x =? strategy then
            added ← Scope_updatePublishers sc fullID _publisher;
            when_added added (upd_host _publisher (host_add_pubScope fullID))
          else mret STRATEGY_MISMATCH
      end
  end.

Definition republish_inner_scope (_publisher : ptr) (ID prefixID : bytes) (strategy : Z) : R RvReturnCode :=
  let suffixID := last_fragment ID in
  let fullID := prefixID ++ suffixID in
  let existingPrefixID := take (length ID - PURSUIT_ID_LEN) ID in
  item ← item_exists fullID;
  if item : bool then mret INFO_ITEM_WITH_SAME_ID else
  fatherScope ← find_scope prefixID;
  match fatherScope with
  | None => mret FATHER_DOES_NOT_EXIST
  | Some father =>
      existingScope ← find_scope ID;
      match existingScope with
      | None => mret SCOPE_DOES_NOT_EXIST
      | Some existing =>
          equivalentScope ← find_scope fullID;
          match equivalentScope with
          | None =>
              f ← get_scope father;
              if sc_strategy f =? strategy then
                upd_scope existing (λ x, sc_with_fathers (hs_insert father (sc_fatherScopes x)) x);;
                upd_scope father (λ x, sc_with_children (hs_insert existing (sc_childrenScopes x)) x);;
                Scope_recursivelyUpdateIDs existing suffixID;;
                added ← Scope_updatePublishers existing fullID _publisher;
                when_added added (
                  upd_host _publisher (host_add_pubScope fullID);;
                  subscribers ← Scope_getSubscribers father ht_empty;
                  _ids ← Scope_getIDs existing;
                  x ← get_scope existing;
                  notifySubscribers SCOPE_PUBLISHED (ht_erase (existingPrefixID ++ suffixID) _ids)
                    (sc_strategy x) subscribers)
              else mret STRATEGY_MISMATCH
          | Some equivalent =>
              x ← get_scope equivalent;
              if sc_strategy x =? strategy then
                added ← Scope_updatePublishers equivalent fullID _publisher;
                when_added added (upd_host _publisher (host_add_pubScope fullID))
              else mret STRATEGY_MISMATCH
          end
      end
  end.

Definition publish_scope (_publisher : ptr) (ID prefixID : bytes) (strategy : Z) : R RvReturnCode :=
  if (length prefixID =? 0)%nat && (length ID =? PURSUIT_ID_LEN)%nat then
    publish_root_scope _publisher ID strategy
  else if (0 <? length prefixID)%nat && (length ID =? PURSUIT_ID_LEN)%nat then
    publish_inner_scope _publisher ID prefixID strategy
  else if (0 <? length prefixID)%nat && (PURSUIT_ID_LEN <? length ID)%nat then
    republish_inner_scope _publisher ID prefixID strategy
  else mret WRONG_IDS.

(** ** Advertising information items *)

(** The switch on the name space of the first root scope: IP and HTTP items
    are matched once and their publishers removed, other items are matched
    and stay.  The HTTP case falls through to the IP case. *)
Definition rendezvous_by_namespace (pub : ptr) (subscribers : PtrSet) (ID prefixID : bytes)
    (strategy : Z) (update_only : bool) : R () :=
  let one_shot (subscribers : PtrSet) : R () :=
    rendezvous pub subscribers update_only;;
    if (0 <? ht_size subscribers)%nat then
      publishers ← InformationItem_getPublishers pub ht_empty;
      unpublish_all publishers ID prefixID strategy update_only
    else mret () in
  i ← get_item pub;
  known ← gets rootScope_namesapce_Index;
  _RootScopeid ← lift_res (ids_getRootScopes_known (ii_ids i) known);
  if _RootScopeid =? NAMESPACE_HTTP then
    subscribers ← (if (ht_size subscribers <=? 0)%nat then getHTTPgw subscribers else mret subscribers);
    one_shot subscribers
  else if _RootScopeid =? NAMESPACE_IP then one_shot subscribers
  else if _RootScopeid =? NAMESPACE_UNKNOWN then rendezvous pub subscribers update_only
  else mret ().

Definition advertise_info (_publisher : ptr) (ID prefixID : bytes) (strategy : Z)
    (update_only : bool) : R RvReturnCode :=
  let fullID := prefixID ++ ID in
  fatherScope ← find_scope prefixID;
  match fatherScope with
  | None => mret FATHER_DOES_NOT_EXIST
  | Some father =>
      pub ← find_item fullID;
      match pub with
      | None =>
          sc ← scope_exists fullID;
          if sc : bool then mret SCOPE_WITH_SAME_ID else
          f ← get_scope father;
          if sc_strategy f =? strategy then
            pub ← InformationItem_new (sc_strategy f) father;
            InformationItem_updateIDs pub (last_fragment fullID);;
            added ← InformationItem_updatePublishers pub fullID _publisher;
            when_added added (
              upd_host _publisher (host_add_pubInfo fullID);;
              subscribers ← InformationItem_getSubscribers pub ht_empty;
              subscribers ← Scope_getSubscribers father subscribers;
              rendezvous_by_namespace pub subscribers ID prefixID strategy update_only)
          else mret STRATEGY_MISMATCH
      | Some pub =>
          f ← get_scope father;
          if sc_strategy f =? strategy then
            added ← InformationItem_updatePublishers pub fullID _publisher;
            when_added added (
              upd_host _publisher (host_add_pubInfo fullID);;
              subscribers ← interested pub;
              rendezvous_by_namespace pub subscribers ID prefixID strategy update_only)
          else mret STRATEGY_MISMATCH
      end
  end.

Definition readvertise_info (_publisher : ptr) (ID prefixID : bytes) (strategy : Z)
    (update_only : bool) : R RvReturnCode :=
  let suffixID := last_fragment ID in
  let fullID := prefixID ++ suffixID in
  sc ← scope_exists fullID;
  if sc : bool then mret SCOPE_WITH_SAME_ID else
  fatherScope ← find_scope prefixID;
  match fatherScope with
  | None => mret FATHER_DOES_NOT_EXIST
  | Some father =>
      existingPub ← find_item ID;
      match existingPub with
      | None => mret INFO_DOES_NOT_EXIST
      | Some existing =>
          equivalentPub ← find_item fullID;
          f ← get_scope father;
          match equivalentPub with
          | None =>
              if sc_strategy f =? strategy then
                upd_item existing (λ i, ii_with_fathers (hs_insert father (ii_fatherScopes i)) i);;
                upd_scope father (λ x, sc_with_items (hs_insert existing (sc_informationitems x)) x);;
                InformationItem_updateIDs existing suffixID;;
                added ← InformationItem_updatePublishers existing fullID _publisher;
                when_added added (
                  upd_host _publisher (host_add_pubInfo fullID);;
                  subscribers ← interested existing;
                  rendezvous_by_namespace existing subscribers suffixID prefixID strategy update_only)
              else mret STRATEGY_MISMATCH
          | Some equivalent =>
              if sc_strategy f =? strategy then
                added ← InformationItem_updatePublishers equivalent fullID _publisher;
                when_added added (
                  upd_host _publisher (host_add_pubInfo fullID);;
                  subscribers ← interested equivalent;
                  rendezvous_by_namespace equivalent subscribers suffixID prefixID strategy update_only)
              else mret STRATEGY_MISMATCH
          end
      end
  end.

Definition publish_info (_publisher : ptr) (ID prefixID : bytes) (strategy : Z)
    (update_only : bool) : R RvReturnCode :=
  if (0 <? length prefixID)%nat && (length ID =? PURSUIT_ID_LEN)%nat then
    advertise_info _publisher ID prefixID strategy update_only
  else if (0 <? length prefixID)%nat && (PURSUIT_ID_LEN <? length ID)%nat then
    readvertise_info _publisher ID prefixID strategy update_only
  else mret WRONG_IDS.

(** ** Unpublishing scopes *)

(** The loops that try to unpublish the publisher from every item of the
    scope, under every identifier of the scope. *)
Definition unpublish_items (sc _publisher : ptr) (strategy : Z) (update_only : bool) : R () :=
  x ← get_scope sc;
  mfor (ht_keys (sc_informationitems x)) (λ pub,
    i ← get_item pub;
    id0 ← lift_res (first_id (ii_ids i));
    let pubSuffixID := last_fragment id0 in
    x ← get_scope sc;
    mfor (ht_keys (sc_ids x)) (λ scPrefixID,
      _ ← unpublish_info _publisher pubSuffixID scPrefixID strategy update_only; mret ())).

Definition unpublish_scope (_publisher : ptr) (ID prefixID : bytes) (strategy : Z)
    (update_only : bool) : R RvReturnCode :=
  let fullID := prefixID ++ ID in
  sc ← find_scope fullID;
  match sc with
  | None => mret SCOPE_DOES_NOT_EXIST
  | Some sc =>
      x ← get_scope sc;
      if negb (sc_strategy x =? strategy) then mret STRATEGY_MISMATCH else
      fatherScope ← find_scope prefixID;
      unpublish_items sc _publisher strategy update_only;;
      x ← get_scope sc;
      pr ← lift_opt NullDeref (ht_get fullID (sc_ids x));
      if ht_mem _publisher pr.1 then
        upd_scope sc (λ x, sc_with_ids (ht_alter (λ pr, (ht_erase _publisher pr.1, pr.2)) fullID (sc_ids x)) x);;
        upd_host _publisher (host_del_pubScope fullID);;
        match fatherScope with
        | Some father => scope_release sc father fullID
        | None => root_scope_release sc
        end;;
        mret SUCCESS
      else mret DOES_NOT_EXIST
  end.

(** ** Subscribing *)

(** The new subscriber learns about the existing subscopes. *)
Definition announce_subscopes (sc _subscriber : ptr) : R () :=
  let subscribers := hs_insert _subscriber ht_empty : PtrSet in
  x ← get_scope sc;
  let _subscopes := hs_insert_all (ht_keys (sc_childrenScopes x)) (ht_empty : PtrSet) in
  mfor (ht_keys _subscopes) (λ child,
    _ids ← Scope_getIDs child;
    c ← get_scope child;
    notifySubscribers SCOPE_PUBLISHED _ids (sc_strategy c) subscribers).

(** After a match under a known root scope: the publishers are unpublished
    under [prefixID]; the item is read again for each of them. *)
Definition unpublish_matched (pub : ptr) (prefixID : bytes) (strategy : Z) (update_only : bool) : R () :=
  publishers ← InformationItem_getPublishers pub ht_empty;
  mfor (ht_keys publishers) (λ p,
    i ← get_item pub;
    IID ← lift_res (first_id (ii_ids i));
    _ ← unpublish_info p (last_fragment IID) prefixID strategy update_only; mret ()).

Definition getInformationItems (sc : ptr) : R PtrSet :=
  x ← get_scope sc; mret (hs_insert_all (ht_keys (sc_informationitems x)) ht_empty).

Definition subscribe_root_scope (_subscriber : ptr) (ID : bytes) (strategy : Z)
    (update_only : bool) : R RvReturnCode :=
  sc ← find_scope ID;
  match sc with
  | None =>
      sc ← Scope_new strategy None;
      modify (λ s, set_scopeIndex (ht_set ID sc (scopeIndex s)) s);;
      added ← Scope_updateSubscribers sc ID _subscriber;
      when_added added (upd_host _subscriber (host_add_subScope ID))
  | Some sc =>
      x ← get_scope sc;
      if sc_strategy x =? strategy then
        added ← Scope_updateSubscribers sc ID _subscriber;
        when_added added (
          upd_host _subscriber (host_add_subScope ID);;
          announce_subscopes sc _subscriber;;
          _informationitems ← getInformationItems sc;
          mfor (ht_keys _informationitems) (λ pub,
            subscribers ← interested pub;
            known_scope ← gets (λ s, ht_mem ID (known_rootscopes s));
            rendezvous pub subscribers update_only;;
            if known_scope : bool then unpublish_matched pub ID strategy update_only else mret ()))
      else mret STRATEGY_MISMATCH
  end.

(** [_RootScopeids] is declared once and keeps the root scopes of the items
    already visited. *)
Definition subscribe_inner_scope (_subscriber : ptr) (ID prefixID : bytes) (strategy : Z)
    (update_only : bool) : R RvReturnCode :=
  let fullID := prefixID ++ ID in
  item ← item_exists fullID;
  if item : bool then mret INFO_ITEM_WITH_SAME_ID else
  fatherScope ← find_scope prefixID;
  match fatherScope with
  | None => mret FATHER_DOES_NOT_EXIST
  | Some father =>
      sc ← find_scope fullID;
      match sc with
      | None =>
          f ← get_scope father;
          if sc_strategy f =? strategy then
            sc ← Scope_new strategy (Some father);
            Scope_recursivelyUpdateIDs sc (last_fragment fullID);;
            added ← Scope_updateSubscribers sc fullID _subscriber;
            when_added added (
              upd_host _subscriber (host_add_subScope fullID);;
              subscribers ← Scope_getSubscribers father ht_empty;
              _ids ← Scope_getIDs sc;
              x ← get_scope sc;
              notifySubscribers SCOPE_PUBLISHED _ids (sc_strategy x) subscribers)
          else mret STRATEGY_MISMATCH
      | Some sc =>
          x ← get_scope sc;
          if sc_strategy x =? strategy then
            added ← Scope_updateSubscribers sc fullID _subscriber;
            when_added added (
              upd_host _subscriber (host_add_subScope fullID);;
              announce_subscopes sc _subscriber;;
              _informationitems ← getInformationItems sc;
              _ ← mfoldl (λ (_RootScopeids : StringSet) pub,
                subscribers ← interested pub;
                _RootScopeids ← InformationItem_getRootScopes pub _RootScopeids;
                known_scope ← first_root_known _RootScopeids;
                rendezvous pub subscribers update_only;;
                (if known_scope : bool then unpublish_matched pub fullID strategy update_only else mret ());;
                mret _RootScopeids) ht_empty (ht_keys _informationitems);
              mret ())
          else mret STRATEGY_MISMATCH
      end
  end.

Definition subscribe_scope (_subscriber : ptr) (ID prefixID : bytes) (strategy : Z)
    (update_only : bool) : R RvReturnCode :=
  if (length prefixID =? 0)%nat && (length ID =? PURSUIT_ID_LEN)%nat then
    subscribe_root_scope _subscriber ID strategy update_only
  else if (0 <? length prefixID)%nat && (length ID =? PURSUIT_ID_LEN)%nat then
    subscribe_inner_scope _subscriber ID prefixID strategy update_only
  else mret WRONG_IDS.

Definition subscribe_info (_subscriber : ptr) (ID prefixID : bytes) (strategy : Z)
    (update_only : bool) : R RvReturnCode :=
  if (0 <? length prefixID)%nat && (length ID =? PURSUIT_ID_LEN)%nat then
    let fullID := prefixID ++ ID in
    fatherScope ← find_scope prefixID;
    match fatherScope with
    | None => mret FATHER_DOES_NOT_EXIST
    | Some father =>
        pub ← find_item fullID;
        match pub with
        | None =>
            sc ← scope_exists fullID;
            if sc : bool then mret SCOPE_WITH_SAME_ID else
            f ← get_scope father;
            if sc_strategy f =? strategy then
              pub ← InformationItem_new (sc_strategy f) father;
              InformationItem_updateIDs pub (last_fragment fullID);;
              added ← InformationItem_updateSubscribers pub fullID _subscriber;
              when_added added (upd_host _subscriber (host_add_subInfo fullID))
            else mret STRATEGY_MISMATCH
        | Some pub =>
            f ← get_scope father;
            if sc_strategy f =? strategy then
              added ← InformationItem_updateSubscribers pub fullID _subscriber;
              when_added added (
                upd_host _subscriber (host_add_subInfo fullID);;
                subscribers ← interested pub;
                _RootScopeids ← InformationItem_getRootScopes pub ht_empty;
                known_scope ← first_root_known _RootScopeids;
                rendezvous pub subscribers update_only;;
                if known_scope : bool then
                  publishers ← InformationItem_getPublishers pub ht_empty;
                  unpublish_all publishers ID prefixID strategy update_only
                else mret ())
            else mret STRATEGY_MISMATCH
        end
    end
  else mret WRONG_IDS.

(** ** Unsubscribing *)

(** The items of the scope are matched again, unless [root] is a known root
    scope. *)
Definition rematch_items (sc : ptr) (root : bytes) (update_only : bool) : R () :=
  _informationitems ← getInformationItems sc;
  known_scope ← gets (λ s, ht_mem root (known_rootscopes s));
  if known_scope : bool then mret () else
  mfor (ht_keys _informationitems) (λ pub,
    subscribers ← interested pub; rendezvous pub subscribers update_only).

Definition unsubscribe_scope (_subscriber : ptr) (ID prefixID : bytes) (strategy : Z)
    (update_only : bool) : R RvReturnCode :=
  let _RootScopeid := first_fragment prefixID in
  let fullID := prefixID ++ ID in
  sc ← find_scope fullID;
  match sc with
  | None => mret SCOPE_DOES_NOT_EXIST
  | Some sc =>
      x ← get_scope sc;
      if negb (sc_strategy x =? strategy) then mret STRATEGY_MISMATCH else
      fatherScope ← find_scope prefixID;
      pr ← lift_opt NullDeref (ht_get fullID (sc_ids x));
      if ht_mem _subscriber pr.2 then
        upd_scope sc (λ x, sc_with_ids (ht_alter (λ pr, (pr.1, ht_erase _subscriber pr.2)) fullID (sc_ids x)) x);;
        upd_host _subscriber (host_del_subScope fullID);;
        match fatherScope with
        | Some father =>
            rematch_items sc _RootScopeid update_only;;
            scope_release sc father fullID
        | None =>
            rematch_items sc fullID update_only;;
            root_scope_release sc
        end;;
        mret SUCCESS
      else mret DOES_NOT_EXIST
  end.

Definition unsubscribe_info (_subscriber : ptr) (ID prefixID : bytes) (strategy : Z)
    (update_only : bool) : R RvReturnCode :=
  let fullID := prefixID ++ ID in
  pub ← find_item fullID;
  fatherScope ← find_scope prefixID;
  match pub with
  | None => mret INFO_DOES_NOT_EXIST
  | Some pub =>
      father ← not_null fatherScope;
      f ← get_scope father;
      if negb (sc_strategy f =? strategy) then mret STRATEGY_MISMATCH else
      i ← get_item pub;
      pr ← lift_opt NullDeref (ht_get fullID (ii_ids i));
      if ht_mem _subscriber pr.2 then
        upd_item pub (λ i, ii_with_ids (ht_alter (λ pr, (pr.1, ht_erase _subscriber pr.2)) fullID (ii_ids i)) i);;
        upd_host _subscriber (host_del_subInfo fullID);;
        _RootScopeids ← InformationItem_getRootScopes pub ht_empty;
        rendezvous_unless_known pub _RootScopeids update_only;;
        used ← InformationItem_checkForOtherPubSub pub father;
        (if negb used then
           if (ht_size (ii_fatherScopes i) =? 1)%nat then item_delete_all pub father
           else item_delete_branch pub father
         else mret ());;
        mret SUCCESS
      else mret DOES_NOT_EXIST
  end.

(** ** Hosts, packets, start and end *)

Definition getRemoteHost (nodeID : bytes) : R ptr :=
  h ← gets (λ s, ht_get nodeID (pub_sub_Index s));
  match h with
  | Some h => mret h
  | None =>
      h ← RemoteHost_new nodeID;
      modify (λ s, set_pub_sub_Index (ht_set nodeID h (pub_sub_Index s)) s);;
      mret h
  end.

(** The switch of [push] on the request type; the return code is ignored. *)
Definition dispatch (type : Z) (_remotehost : ptr) (ID prefixID : bytes) (strategy : Z) : R () :=
  let run (m : R RvReturnCode) : R () := _ ← m; mret () in
  if type =? PUBLISH_SCOPE then run (publish_scope _remotehost ID prefixID strategy)
  else if type =? PUBLISH_INFO then run (publish_info _remotehost ID prefixID strategy false)
  else if type =? UNPUBLISH_SCOPE then run (unpublish_scope _remotehost ID prefixID strategy false)
  else if type =? UNPUBLISH_INFO then run (unpublish_info _remotehost ID prefixID strategy false)
  else if type =? SUBSCRIBE_SCOPE then run (subscribe_scope _remotehost ID prefixID strategy false)
  else if type =? SUBSCRIBE_INFO then run (subscribe_info _remotehost ID prefixID strategy false)
  else if type =? UNSUBSCRIBE_SCOPE then run (unsubscribe_scope _remotehost ID prefixID strategy true)
  else if type =? UNSUBSCRIBE_INFO then run (unsubscribe_info _remotehost ID prefixID strategy true)
  else mret ().

(** The fields of a request, read at the offsets the source computes. *)
Record request := mkRequest {
  rq_nodeID : bytes;
  rq_type : Z;
  rq_ID : bytes;
  rq_prefixID : bytes;
  rq_strategy : Z;
}.

Definition parse_request (d : bytes) (IDOfAPIEvent : bytes) (off : nat) : res request :=
  let nodeID := drop PURSUIT_ID_LEN IDOfAPIEvent in
  type ← data_byte d off;
  IDLength ← data_byte d (off + 1);
  ID ← data_read d (off + 2) (Z.to_nat IDLength * PURSUIT_ID_LEN);
  prefixIDLength ← data_byte d (off + 2 + length ID);
  prefixID ← data_read d (off + 3 + length ID) (Z.to_nat prefixIDLength * PURSUIT_ID_LEN);
  strategy ← data_byte d (off + 3 + length ID + length prefixID);
  Ok (mkRequest nodeID type ID prefixID strategy).

(** The implicit subscribers of a request. *)
Fixpoint read_isubscribers (d : bytes) (off : nat) (n : nat) (acc : StringSet) : res StringSet :=
  match n with
  | O => Ok acc
  | S n =>
      iSubNodeID ← data_read d off NODEID_LEN;
      read_isubscribers d (off + NODEID_LEN) n (hs_insert iSubNodeID acc)
  end.

(** [push]: [d] are the bytes of the packet. *)
Definition LocalRV_push (in_port : Z) (d : bytes) : R () :=
  if in_port =? 0 then
    typeOfAPIEvent ← lift_res (data_byte d 0);
    IDLengthOfAPIEvent ← lift_res (data_byte d 1);
    let n := (Z.to_nat IDLengthOfAPIEvent * PURSUIT_ID_LEN)%nat in
    IDOfAPIEvent ← lift_res (data_read d 2 n);
    if typeOfAPIEvent =? PUBLISHED_DATA then
      rq ← lift_res (parse_request d IDOfAPIEvent (2 + n));
      _remotehost ← getRemoteHost (rq_nodeID rq);
      dispatch (rq_type rq) _remotehost (rq_ID rq) (rq_prefixID rq) (rq_strategy rq)
    else if typeOfAPIEvent =? PUBLISHED_DATA_iSUB then
      numberOfiSubscribers ← lift_res (data_byte d (2 + n));
      isubscribers ← lift_res (read_isubscribers d (3 + n) (Z.to_nat numberOfiSubscribers) ht_empty);
      requestTMAssistanceForiSubscription isubscribers false
    else mret ()
  else mret ().

(** [initialize]: the two subscription packets and the known root scopes. *)
Definition LocalRV_initialize (gc : gconf) : R (list (list (option Z))) :=
  h ← getRemoteHost (nodeID gc);
  modify (set_localProxy h);;
  p ← lift_res initialize_packet;
  p_uc ← lift_res initialize_packet_uc;
  modify (λ s, set_roots
    (hs_insert HTTP_ROOTSCOPE (hs_insert IP_ROOTSCOPE (known_rootscopes s)))
    (ht_find_insert HTTP_ROOTSCOPE NAMESPACE_HTTP
      (ht_find_insert IP_ROOTSCOPE NAMESPACE_IP (rootScope_namesapce_Index s))) s);;
  mret [p; p_uc].

(** The loops of [cleanup] over an index: each object is deleted when it is
    met for the first time. *)
Fixpoint delete_indexed (del : ptr → R ()) (l : list ptr) (deleted : PtrSet) : R () :=
  match l with
  | [] => mret ()
  | p :: l =>
      if ht_mem p deleted then delete_indexed del l deleted
      else del p;; delete_indexed del l (hs_insert p deleted)
  end.

Definition LocalRV_cleanup : R () :=
  hs ← gets (λ s, ht_vals (pub_sub_Index s));
  mfor hs delete_host;;
  modify (λ s, set_pub_sub_Index ht_empty s);;
  scs ← gets (λ s, ht_vals (scopeIndex s));
  delete_indexed delete_scope scs ht_empty;;
  modify (λ s, set_scopeIndex ht_empty s);;
  iis ← gets (λ s, ht_vals (pubIndex s));
  delete_indexed delete_item iis ht_empty;;
  modify (λ s, set_pubIndex ht_empty s).

End localrv.
