(* ===== verification/RvGraph.v ===== *)
(** * The information graph as a specification

    The abstract view of the LocalRV state: scopes and items are the nodes of
    a directed acyclic graph, every node has one fragment as its suffix, and
    the identifiers of a node are exactly the paths from a root to it.  [wf]
    is the invariant of the concrete state with respect to that view. *)

From S2P Require Import Prelude Enums HashTable RvStore.

Section graph.
Context `{CT : ClickTables}.
Implicit Types (s : rv) (p q f c : ptr) (id : bytes) (sfx : ptr → bytes).

(** ** Views of a state *)

Definition isS s p : Prop := is_Some (scopes s !! p).
Definition isI s p : Prop := is_Some (items s !! p).
Definition root s p : Prop := ∃ x, scopes s !! p = Some x ∧ sc_isRoot x = true.
Definition child s f c : Prop := ∃ x, scopes s !! f = Some x ∧ hs_in c (sc_childrenScopes x).
Definition sfather s f c : Prop := ∃ x, scopes s !! c = Some x ∧ hs_in f (sc_fatherScopes x).
Definition holds s f c : Prop := ∃ x, scopes s !! f = Some x ∧ hs_in c (sc_informationitems x).
Definition ifather s f c : Prop := ∃ i, items s !! c = Some i ∧ hs_in f (ii_fatherScopes i).
Definition edge s f c : Prop := child s f c ∨ holds s f c.
Definition sids s p id : Prop := ∃ x, scopes s !! p = Some x ∧ is_Some (ht_get id (sc_ids x)).
Definition iids s p id : Prop := ∃ i, items s !! p = Some i ∧ is_Some (ht_get id (ii_ids i)).
(** the object at [p] has the identifier [id] *)
Definition oid s p id : Prop := sids s p id ∨ iids s p id.

(** The identifiers the graph gives to a node. *)
Inductive path s sfx : bytes → ptr → Prop :=
  | path_root p : root s p → path s sfx (sfx p) p
  | path_edge id f c : path s sfx id f → edge s f c → path s sfx (id ++ sfx c) c.

(** The identifiers along an edge are up to date. *)
Definition closed s sfx f c : Prop := ∀ id, oid s f id → oid s c (id ++ sfx c).

(** ** The invariant *)

Record wf_struct s sfx : Prop := {
  ws_child : ∀ f c, child s f c ↔ sfather s f c;
  ws_holds : ∀ f c, holds s f c ↔ ifather s f c;
  ws_root : ∀ p, isS s p → (root s p ↔ ∀ f, ¬ sfather s f p);
  ws_item : ∀ p, isI s p → ∃ f, ifather s f p;
  ws_len : ∀ p, isS s p ∨ isI s p → length (sfx p) = PURSUIT_ID_LEN;
  ws_disj : ∀ p, isS s p → ¬ isI s p;
  ws_next : ∀ p, isS s p ∨ isI s p ∨ is_Some (hosts s !! p) → (p < next s)%nat;
  ws_root_inj : ∀ p q, root s p → root s q → sfx p = sfx q → p = q;
  ws_sib_inj : ∀ f c d, edge s f c → edge s f d → sfx c = sfx d → c = d;
  ws_acyclic : ∀ p, ¬ tc (child s) p p;
}.

(** The indexes hold the identifiers of the objects, which are identifiers
    of the graph. *)
Record wf_sub s sfx : Prop := {
  wb_sidx : ∀ id p, ht_get id (scopeIndex s) = Some p ↔ sids s p id;
  wb_pidx : ∀ id p, ht_get id (pubIndex s) = Some p ↔ iids s p id;
  wb_path : ∀ id p, oid s p id → path s sfx id p;
}.

(** The publisher and subscriber sets of the scopes and of the items, and the
    sets every RemoteHost keeps as their mirror. *)
Inductive kind := PubScope | SubScope | PubItem | SubItem.

Definition pair_sel (k : kind) (pr : RemoteHostPair) : PtrSet :=
  match k with PubScope | PubItem => pr.1 | SubScope | SubItem => pr.2 end.
Definition host_sel (k : kind) : RemoteHost → StringSet :=
  match k with
  | PubScope => publishedScopes | SubScope => subscribedScopes
  | PubItem => publishedInformationItems | SubItem => subscribedInformationItems
  end.

(** the pair an object has for an identifier *)
Definition spair s p id : option RemoteHostPair := x ← scopes s !! p; ht_get id (sc_ids x).
Definition ipair s p id : option RemoteHostPair := x ← items s !! p; ht_get id (ii_ids x).
Definition opair s (k : kind) p id : option RemoteHostPair :=
  match k with PubScope | SubScope => spair s p id | PubItem | SubItem => ipair s p id end.

(** host [h] publishes or subscribes under [id] *)
Definition member s (k : kind) id h : Prop :=
  ∃ p pr, opair s k p id = Some pr ∧ hs_in h (pair_sel k pr).
Definition host_has s (k : kind) id h : Prop :=
  ∃ x, hosts s !! h = Some x ∧ hs_in id (host_sel k x).

Record wf_hosts s : Prop := {
  wh_mirror : ∀ k id h, member s k id h ↔ host_has s k id h;
  wh_idx : ∀ n h, ht_get n (pub_sub_Index s) = Some h ↔
    ∃ x, hosts s !! h = Some x ∧ remoteHostID x = n;
}.

Record wf s sfx : Prop := {
  wf_s : wf_struct s sfx;
  wf_b : wf_sub s sfx;
  wf_full : ∀ id p, path s sfx id p → oid s p id;
  wf_named : ∀ p, isS s p ∨ isI s p → ∃ id, oid s p id;
  wf_h : wf_hosts s;
}.

(** ** Paths *)

Lemma root_isS s p : root s p → isS s p.
Proof. intros (x & Hx & _). by exists x. Qed.
Lemma child_isS s f c : child s f c → isS s f.
Proof. intros (x & Hx & _). by exists x. Qed.
Lemma sfather_isS s f c : sfather s f c → isS s c.
Proof. intros (x & Hx & _). by exists x. Qed.
Lemma holds_isS s f c : holds s f c → isS s f.
Proof. intros (x & Hx & _). by exists x. Qed.
Lemma ifather_isI s f c : ifather s f c → isI s c.
Proof. intros (x & Hx & _). by exists x. Qed.
Lemma edge_isS s f c : edge s f c → isS s f.
Proof. intros [?%child_isS|?%holds_isS]; done. Qed.
Lemma sids_isS s p id : sids s p id → isS s p.
Proof. intros (x & Hx & _). by exists x. Qed.
Lemma iids_isI s p id : iids s p id → isI s p.
Proof. intros (x & Hx & _). by exists x. Qed.

Section wf_lemmas.
Context s sfx (W : wf_struct s sfx).

Lemma child_isS_r f c : child s f c → isS s c.
Proof. intros H%(ws_child _ _ W). by eapply sfather_isS. Qed.
Lemma holds_isI_r f c : holds s f c → isI s c.
Proof. intros H%(ws_holds _ _ W). by eapply ifather_isI. Qed.
Lemma edge_alive f c : edge s f c → isS s c ∨ isI s c.
Proof. intros [?%child_isS_r|?%holds_isI_r]; auto. Qed.
Lemma edge_len f c : edge s f c → length (sfx c) = PURSUIT_ID_LEN.
Proof. intros ?%edge_alive. by apply (ws_len _ _ W). Qed.

Lemma path_alive id p : path s sfx id p → isS s p ∨ isI s p.
Proof. intros [q Hq%root_isS|? f c _ He%edge_alive]; auto. Qed.

Lemma path_shape id p : path s sfx id p → ∃ pre, id = pre ++ sfx p ∧ length (sfx p) = PURSUIT_ID_LEN.
Proof.
  intros Hp. pose proof (path_alive _ _ Hp) as Ha%(ws_len _ _ W).
  destruct Hp as [q|pre f c]; [by exists []|by exists pre].
Qed.

Lemma path_length id p : path s sfx id p → (PURSUIT_ID_LEN ≤ length id)%nat.
Proof. intros (pre & -> & Hl)%path_shape. rw length_app. lia. Qed.

Lemma path_last_fragment id p : path s sfx id p → last_fragment id = sfx p.
Proof.
  intros (pre & -> & Hl)%path_shape. unfold last_fragment. rw length_app Hl.
  rw drop_app_length' //. lia.
Qed.

(** A root has the one identifier, and it is one fragment; other nodes have
    the identifiers of their fathers followed by their suffix. *)
Lemma path_root_inv id p : root s p → path s sfx id p → id = sfx p.
Proof.
  intros Hr. pose proof (root_isS _ _ Hr) as HS. destruct 1 as [|id f c Hp He]; [done|].
  destruct He as [Hc|Hh].
  - apply (ws_child _ _ W) in Hc. by apply (ws_root _ _ W) in Hc.
  - apply holds_isI_r in Hh. by apply (ws_disj _ _ W) in HS.
Qed.

Lemma path_edge_inv id p : ¬ root s p → path s sfx id p →
  ∃ pre f, id = pre ++ sfx p ∧ path s sfx pre f ∧ edge s f p.
Proof. intros Hr. destruct 1 as [|id f c Hp He]; [done|]. eauto. Qed.

Lemma path_long_inv id p : (PURSUIT_ID_LEN < length id)%nat → path s sfx id p →
  ∃ pre f, id = pre ++ sfx p ∧ path s sfx pre f ∧ edge s f p.
Proof.
  intros Hl. destruct 1 as [q Hq|pre f c Hp He]; [|eauto].
  apply root_isS in Hq. rw (ws_len _ _ W) in Hl; [lia|auto].
Qed.

(** An identifier names one node. *)
Lemma path_fun id p q : path s sfx id p → path s sfx id q → p = q.
Proof.
  remember (length id) as n eqn:Hn. revert id Hn p q.
  induction (lt_wf n) as [n _ IH]. intros id -> p q Hp Hq.
  destruct (decide (length id ≤ PURSUIT_ID_LEN)%nat) as [Hs|Hl].
  - assert (∀ r, path s sfx id r → root s r ∧ id = sfx r) as Hroot.
    { intros r Hr. destruct Hr as [r Hr|pre f r Hpre He]; [done|].
      pose proof (path_length _ _ Hpre). pose proof (edge_len _ _ He).
      rw length_app in Hs. unfold PURSUIT_ID_LEN in *. lia. }
    destruct (Hroot p Hp) as [Rp ->]. destruct (Hroot q Hq) as [Rq E].
    by apply (ws_root_inj _ _ W).
  - apply path_long_inv in Hp as (pre & f & -> & Hp & He); [|lia].
    apply path_long_inv in Hq as (pre' & f' & E & Hq & He'); [|lia].
    apply app_inj_2 in E as [<- Hs]; [|by rw (edge_len _ _ He) (edge_len _ _ He')].
    assert (f' = f) as ->.
    { eapply (IH (length pre)); [|done|done|done]. rw length_app (edge_len _ _ He). unfold PURSUIT_ID_LEN. lia. }
    by eapply (ws_sib_inj _ _ W).
Qed.
End wf_lemmas.
End graph.
