(* ===== verification/RvUpdate.v ===== *)
(** * Updating identifiers

    [Scope::recursivelyUpdateIDs] and [InformationItem::updateIDs] against
    the graph: they end, they only add identifiers the graph has, and after
    them every edge below the updated scope is up to date. *)

From S2P Require Import Prelude Enums HashTable RvStore RvGraph.

Section wp_rules.
Context `{CT : ClickTables}.
Implicit Types (s : rv) (p : ptr).

Lemma wp_get_scope p x (Q : Scope → rv → Prop) s :
  scopes s !! p = Some x → Q x s → wp (get_scope p) Q s.
Proof. intros Hx ?. unfold wp, get_scope. by rw Hx. Qed.
Lemma wp_get_item p x (Q : InformationItem → rv → Prop) s :
  items s !! p = Some x → Q x s → wp (get_item p) Q s.
Proof. intros Hx ?. unfold wp, get_item. by rw Hx. Qed.
Lemma wp_get_host p x (Q : RemoteHost → rv → Prop) s :
  hosts s !! p = Some x → Q x s → wp (get_host p) Q s.
Proof. intros Hx ?. unfold wp, get_host. by rw Hx. Qed.
Lemma wp_upd_scope p x f (Q : () → rv → Prop) s :
  scopes s !! p = Some x → Q () (set_scopes (<[p := f x]> (scopes s)) s) → wp (upd_scope p f) Q s.
Proof. intros Hx ?. unfold wp, upd_scope. by rw Hx. Qed.
Lemma wp_upd_item p x f (Q : () → rv → Prop) s :
  items s !! p = Some x → Q () (set_items (<[p := f x]> (items s)) s) → wp (upd_item p f) Q s.
Proof. intros Hx ?. unfold wp, upd_item. by rw Hx. Qed.
Lemma wp_upd_host p x f (Q : () → rv → Prop) s :
  hosts s !! p = Some x → Q () (set_hosts (<[p := f x]> (hosts s)) s) → wp (upd_host p f) Q s.
Proof. intros Hx ?. unfold wp, upd_host. by rw Hx. Qed.
Lemma wp_delete_scope p x (Q : () → rv → Prop) s :
  scopes s !! p = Some x → Q () (set_scopes (delete p (scopes s)) s) → wp (delete_scope p) Q s.
Proof. intros Hx ?. unfold wp, delete_scope. by rw Hx. Qed.
Lemma wp_delete_item p x (Q : () → rv → Prop) s :
  items s !! p = Some x → Q () (set_items (delete p (items s)) s) → wp (delete_item p) Q s.
Proof. intros Hx ?. unfold wp, delete_item. by rw Hx. Qed.
Lemma wp_lift_res {A} (r : res A) a (Q : A → rv → Prop) s :
  r = Ok a → Q a s → wp (lift_res r) Q s.
Proof. by intros -> ?. Qed.
Lemma wp_first_id (t : IdsHashMap) (Q : bytes → rv → Prop) s :
  (∃ id, is_Some (ht_get id t)) → (∀ id, is_Some (ht_get id t) → Q id s) →
  wp (lift_res (first_id t)) Q s.
Proof.
  intros [id Hid]%ht_first_nonempty HQ. apply (wp_lift_res _ id).
  - unfold first_id. by rw Hid.
  - by apply HQ, ht_first_Some.
Qed.
End wp_rules.

(** Apply the rule of the next heap access, the object being known. *)
Ltac wp_heap :=
  lazymatch goal with
  | |- wp (get_scope _) _ _ => eapply wp_get_scope; [eassumption|]
  | |- wp (get_item _) _ _ => eapply wp_get_item; [eassumption|]
  | |- wp (get_host _) _ _ => eapply wp_get_host; [eassumption|]
  | |- wp (upd_scope _ _) _ _ => eapply wp_upd_scope; [eassumption|]
  | |- wp (upd_item _ _) _ _ => eapply wp_upd_item; [eassumption|]
  | |- wp (upd_host _ _) _ _ => eapply wp_upd_host; [eassumption|]
  | |- wp (delete_scope _) _ _ => eapply wp_delete_scope; [eassumption|]
  | |- wp (delete_item _) _ _ => eapply wp_delete_item; [eassumption|]
  end; cbv beta.
Ltac wps := repeat first [wp_step | wp_heap].

(** ** States that differ by new identifiers *)

Section grow.
Context `{CT : ClickTables}.
Implicit Types (s : rv) (p q f c : ptr) (id : bytes) (sfx : ptr → bytes).

Definition sc_shape (x : Scope) :=
  (sc_isRoot x, sc_fatherScopes x, sc_childrenScopes x, sc_informationitems x, sc_strategy x).
Definition ii_shape (i : InformationItem) := (ii_fatherScopes i, ii_strategy i).
Definition tgrow (t t' : IdsHashMap) : Prop :=
  ∀ id, ht_get id t' = ht_get id t ∨ (ht_get id t = None ∧ ht_get id t' = Some empty_pair).
Definition sc_grow (x x' : Scope) : Prop := sc_shape x' = sc_shape x ∧ tgrow (sc_ids x) (sc_ids x').
Definition ii_grow (i i' : InformationItem) : Prop := ii_shape i' = ii_shape i ∧ tgrow (ii_ids i) (ii_ids i').
Definition rest s := (hosts s, next s, localProxy s, pub_sub_Index s, known_rootscopes s,
  rootScope_namesapce_Index s, out s).

Record grow s s' : Prop := {
  gr_scopes : ∀ p, option_Forall2 sc_grow (scopes s !! p) (scopes s' !! p);
  gr_items : ∀ p, option_Forall2 ii_grow (items s !! p) (items s' !! p);
  gr_rest : rest s' = rest s;
}.

Lemma tgrow_refl t : tgrow t t.
Proof. intros id. by left. Qed.
Lemma tgrow_trans t1 t2 t3 : tgrow t1 t2 → tgrow t2 t3 → tgrow t1 t3.
Proof.
  intros H1 H2 id.
  destruct (H1 id) as [E1|[N1 S1]], (H2 id) as [E2|[N2 S2]].
  - left. by rw E2.
  - right. by rw -E1.
  - right. by rw E2.
  - by rw S1 in N2.
Qed.

#[export] Instance grow_preorder : PreOrder grow.
Proof.
  split.
  - intros s. split; [| |done]; intros p.
    + destruct (scopes s !! p); constructor; split; [done|apply tgrow_refl].
    + destruct (items s !! p); constructor; split; [done|apply tgrow_refl].
  - intros s1 s2 s3 [A1 B1 C1] [A2 B2 C2]. split; [| |by etrans]; intros p.
    + specialize (A1 p). specialize (A2 p). destruct A1 as [x y [E1 T1]|];
        inversion A2 as [? z [E2 T2]|]; constructor.
      split; [by etrans|by eapply tgrow_trans].
    + specialize (B1 p). specialize (B2 p). destruct B1 as [x y [E1 T1]|];
        inversion B2 as [? z [E2 T2]|]; constructor.
      split; [by etrans|by eapply tgrow_trans].
Qed.

Lemma tgrow_mono t t' id : tgrow t t' → is_Some (ht_get id t) → is_Some (ht_get id t').
Proof. intros H Hs. destruct (H id) as [->|[E _]]; [done|]. rw E in Hs. by destruct Hs. Qed.

Lemma grow_scope s s' p x : grow s s' → scopes s !! p = Some x →
  ∃ x', scopes s' !! p = Some x' ∧ sc_grow x x'.
Proof. intros G Hx. pose proof (gr_scopes _ _ G p) as H. rw Hx in H. inversion H; eauto. Qed.
Lemma grow_scope_back s s' p x' : grow s s' → scopes s' !! p = Some x' →
  ∃ x, scopes s !! p = Some x ∧ sc_grow x x'.
Proof. intros G Hx. pose proof (gr_scopes _ _ G p) as H. rw Hx in H. inversion H; eauto. Qed.
Lemma grow_item s s' p x : grow s s' → items s !! p = Some x →
  ∃ x', items s' !! p = Some x' ∧ ii_grow x x'.
Proof. intros G Hx. pose proof (gr_items _ _ G p) as H. rw Hx in H. inversion H; eauto. Qed.
Lemma grow_item_back s s' p x' : grow s s' → items s' !! p = Some x' →
  ∃ x, items s !! p = Some x ∧ ii_grow x x'.
Proof. intros G Hx. pose proof (gr_items _ _ G p) as H. rw Hx in H. inversion H; eauto. Qed.

(** Equal shapes: the same graph. *)
Record same_graph s s' : Prop := {
  sg_scopes : ∀ p, sc_shape <$> scopes s' !! p = sc_shape <$> scopes s !! p;
  sg_items : ∀ p, ii_shape <$> items s' !! p = ii_shape <$> items s !! p;
}.

#[export] Instance same_graph_equiv : Equivalence same_graph.
Proof.
  split; [by intros s|intros s s' []|intros s s' s'' [A B] [C D]]; split; intros p; [done..|by rw C A|by rw D B].
Qed.

Lemma grow_same_graph s s' : grow s s' → same_graph s s'.
Proof.
  intros [A B _]. split; intros p; [destruct (A p) as [x y [E _]|]|destruct (B p) as [x y [E _]|]];
    try done; cbn; by rw E.
Qed.

Section graph_views.
Context s s' (G : same_graph s s').

(** What the shape of an object decides is kept. *)
Lemma sg_scope_view (P : Scope → Prop) p :
  (∀ x y, sc_shape x = sc_shape y → P x → P y) →
  (∃ x, scopes s' !! p = Some x ∧ P x) ↔ (∃ x, scopes s !! p = Some x ∧ P x).
Proof.
  intros HP. pose proof (sg_scopes _ _ G p) as H.
  destruct (scopes s' !! p) as [x'|], (scopes s !! p) as [x|]; try done.
  assert (sc_shape x' = sc_shape x) as E by exact (inj Some _ _ H).
  split; intros (y & [= <-] & Hy); eexists; (split; [done|]); by eapply HP.
Qed.
Lemma sg_item_view (P : InformationItem → Prop) p :
  (∀ x y, ii_shape x = ii_shape y → P x → P y) →
  (∃ x, items s' !! p = Some x ∧ P x) ↔ (∃ x, items s !! p = Some x ∧ P x).
Proof.
  intros HP. pose proof (sg_items _ _ G p) as H.
  destruct (items s' !! p) as [x'|], (items s !! p) as [x|]; try done.
  assert (ii_shape x' = ii_shape x) as E by exact (inj Some _ _ H).
  split; intros (y & [= <-] & Hy); eexists; (split; [done|]); by eapply HP.
Qed.

Lemma sg_isS p : isS s' p ↔ isS s p.
Proof. unfold isS. by rw -!(fmap_is_Some sc_shape) (sg_scopes _ _ G). Qed.
Lemma sg_isI p : isI s' p ↔ isI s p.
Proof. unfold isI. by rw -!(fmap_is_Some ii_shape) (sg_items _ _ G). Qed.
Lemma sg_root p : root s' p ↔ root s p.
Proof. apply sg_scope_view. intros x y [=E1 E2 E3 E4 E5]. by rw E1. Qed.
Lemma sg_child f c : child s' f c ↔ child s f c.
Proof. apply sg_scope_view. intros x y [=E1 E2 E3 E4 E5]. by rw E3. Qed.
Lemma sg_sfather f c : sfather s' f c ↔ sfather s f c.
Proof. apply sg_scope_view. intros x y [=E1 E2 E3 E4 E5]. by rw E2. Qed.
Lemma sg_holds f c : holds s' f c ↔ holds s f c.
Proof. apply sg_scope_view. intros x y [=E1 E2 E3 E4 E5]. by rw E4. Qed.
Lemma sg_ifather f c : ifather s' f c ↔ ifather s f c.
Proof. apply sg_item_view. intros x y [=E1 E2]. by rw E1. Qed.
Lemma sg_edge f c : edge s' f c ↔ edge s f c.
Proof. unfold edge. by rw sg_child sg_holds. Qed.
Lemma sg_path sfx id p : path s' sfx id p ↔ path s sfx id p.
Proof.
  split; induction 1 as [q Hq|pre f c _ IH He].
  - constructor. by apply sg_root.
  - apply (path_edge _ _ _ f); [done|by apply sg_edge].
  - constructor. by apply sg_root.
  - apply (path_edge _ _ _ f); [done|by apply sg_edge].
Qed.

Lemma sg_wf_struct sfx :
  next s' = next s → (∀ h, is_Some (hosts s' !! h) → is_Some (hosts s !! h)) →
  wf_struct s sfx → wf_struct s' sfx.
Proof.
  intros En Eh W.
  split; intros *; rw ?sg_child ?sg_sfather ?sg_holds ?sg_ifather ?sg_isS ?sg_isI ?sg_root ?sg_edge ?En.
  - apply W.
  - apply W.
  - setoid_rewrite sg_sfather. apply W.
  - setoid_rewrite sg_ifather. apply W.
  - apply W.
  - apply W.
  - intros [?|[?|?%Eh]]; apply (ws_next _ _ W); auto.
  - apply W.
  - apply W.
  - intros Ht. apply (ws_acyclic _ _ W p). eapply tc_subrel; [|done].
    intros u v. by rw sg_child.
Qed.
End graph_views.

#[export] Instance path_proper sfx id p : Proper (same_graph ==> iff) (λ s, path s sfx id p).
Proof. intros s s' G. split; by apply (sg_path s' s) || apply (sg_path s s'). Qed.

Section views.
Context s s' (G : grow s s').

Lemma grow_isS p : isS s' p ↔ isS s p.
Proof. by apply sg_isS, grow_same_graph. Qed.
Lemma grow_isI p : isI s' p ↔ isI s p.
Proof. by apply sg_isI, grow_same_graph. Qed.
Lemma grow_root p : root s' p ↔ root s p.
Proof. by apply sg_root, grow_same_graph. Qed.
Lemma grow_child f c : child s' f c ↔ child s f c.
Proof. by apply sg_child, grow_same_graph. Qed.
Lemma grow_holds f c : holds s' f c ↔ holds s f c.
Proof. by apply sg_holds, grow_same_graph. Qed.
Lemma grow_edge f c : edge s' f c ↔ edge s f c.
Proof. by apply sg_edge, grow_same_graph. Qed.
Lemma grow_path sfx id p : path s' sfx id p ↔ path s sfx id p.
Proof. by apply sg_path, grow_same_graph. Qed.

Lemma grow_sids p id : sids s p id → sids s' p id.
Proof.
  intros (x & Hx & H). destruct (grow_scope _ _ _ _ G Hx) as (y & Hy & _ & T).
  exists y. split; [done|by eapply tgrow_mono].
Qed.
Lemma grow_iids p id : iids s p id → iids s' p id.
Proof.
  intros (x & Hx & H). destruct (grow_item _ _ _ _ G Hx) as (y & Hy & _ & T).
  exists y. split; [done|by eapply tgrow_mono].
Qed.
Lemma grow_oid p id : oid s p id → oid s' p id.
Proof. intros [?%grow_sids|?%grow_iids]; [by left|by right]. Qed.

End views.

Lemma empty_pair_sel k h : ¬ hs_in h (pair_sel k empty_pair).
Proof. destruct k; apply hs_in_empty. Qed.

(** New identifiers have no publisher and no subscriber. *)
Lemma grow_member s s' k id h : grow s s' → member s' k id h ↔ member s k id h.
Proof.
  intros G. unfold member.
  enough (∀ p, (∃ pr, opair s' k p id = Some pr ∧ hs_in h (pair_sel k pr)) ↔
               (∃ pr, opair s k p id = Some pr ∧ hs_in h (pair_sel k pr))) as H by (by setoid_rewrite H).
  intros p. assert (opair s' k p id = opair s k p id ∨
    (opair s k p id = None ∧ opair s' k p id = Some empty_pair)) as [->|[-> ->]]; [|done|].
  - pose proof (gr_scopes _ _ G p) as HS. pose proof (gr_items _ _ G p) as HI.
    destruct k; unfold opair, spair, ipair; [inversion HS|inversion HS|inversion HI|inversion HI]; cbn;
      try (by left); match goal with H : sc_grow _ _ |- _ => apply H | H : ii_grow _ _ |- _ => apply H end.
  - split; [|naive_solver]. intros (pr & [= <-] & Hh). by apply empty_pair_sel in Hh.
Qed.

Lemma grow_wf_hosts s s' : grow s s' → wf_hosts s → wf_hosts s'.
Proof.
  intros G [H1 H2]. pose proof (gr_rest _ _ G) as [= E1 E2 E3 E4 E5 E6 E7].
  split; intros; unfold host_has; rw ?E1 ?E4.
  - rw grow_member //.
  - apply H2.
Qed.

Lemma grow_wf_struct s s' sfx : grow s s' → wf_struct s sfx → wf_struct s' sfx.
Proof.
  intros G. pose proof (gr_rest _ _ G) as [= E1 E2 E3 E4 E5 E6 E7].
  apply sg_wf_struct; [by apply grow_same_graph|done|by rw E1].
Qed.

(** ** One identifier *)

(** [p] may have got new identifiers, and nothing else has changed. *)
Record step sfx p s s' : Prop := {
  st_grow : grow s s';
  st_sub : wf_sub s' sfx;
  st_scopes : ∀ q, q ≠ p → scopes s' !! q = scopes s !! q;
  st_items : ∀ q, q ≠ p → items s' !! q = items s !! q;
}.

Lemma step_refl sfx p s : wf_sub s sfx → step sfx p s s.
Proof. by split. Qed.
Lemma step_trans sfx p s1 s2 s3 : step sfx p s1 s2 → step sfx p s2 s3 → step sfx p s1 s3.
Proof.
  intros [] []. split; [by etrans|done|..]; intros q Hq.
  - rw st_scopes1 //. by apply st_scopes0.
  - rw st_items1 //. by apply st_items0.
Qed.

Lemma tgrow_set t id : ht_get id t = None → tgrow t (ht_set id empty_pair t).
Proof. intros Hn k. rw ht_get_set. case_decide; [subst; right; by split|by left]. Qed.

Lemma grow_insert_scope s p x t :
  scopes s !! p = Some x → tgrow (sc_ids x) t → grow s (set_scopes (<[p := sc_with_ids t x]> (scopes s)) s).
Proof.
  intros Hx T. split; [| |done]; intros q; cbn [scopes items set_scopes].
  - destruct (decide (q = p)) as [->|]; [rw lookup_insert_eq Hx; by constructor|].
    rw lookup_insert_ne //. apply (gr_scopes s s). reflexivity.
  - apply (gr_items s s). reflexivity.
Qed.
Lemma grow_insert_item s p x t :
  items s !! p = Some x → tgrow (ii_ids x) t → grow s (set_items (<[p := ii_with_ids t x]> (items s)) s).
Proof.
  intros Hx T. split; [| |done]; intros q; cbn [scopes items set_items].
  - apply (gr_scopes s s). reflexivity.
  - destruct (decide (q = p)) as [->|]; [rw lookup_insert_eq Hx; by constructor|].
    rw lookup_insert_ne //. apply (gr_items s s). reflexivity.
Qed.
Lemma grow_set_scopeIndex s t : grow s (set_scopeIndex t s).
Proof. split; [| |done]; intros q; [apply (gr_scopes s s)|apply (gr_items s s)]; reflexivity. Qed.
Lemma grow_set_pubIndex s t : grow s (set_pubIndex t s).
Proof. split; [| |done]; intros q; [apply (gr_scopes s s)|apply (gr_items s s)]; reflexivity. Qed.

Lemma sids_insert s p x t q id : scopes s !! p = Some x →
  sids (set_scopes (<[p := sc_with_ids t x]> (scopes s)) s) q id ↔
  if decide (q = p) then is_Some (ht_get id t) else sids s q id.
Proof.
  intros Hx. unfold sids. cbn [scopes set_scopes]. case_decide as Hq; [subst q|].
  - rw lookup_insert_eq. naive_solver.
  - by rw lookup_insert_ne.
Qed.
Lemma iids_insert s p x t q id : items s !! p = Some x →
  iids (set_items (<[p := ii_with_ids t x]> (items s)) s) q id ↔
  if decide (q = p) then is_Some (ht_get id t) else iids s q id.
Proof.
  intros Hx. unfold iids. cbn [items set_items]. case_decide as Hq; [subst q|].
  - rw lookup_insert_eq. naive_solver.
  - by rw lookup_insert_ne.
Qed.

Lemma scope_add_id_spec s sfx p id :
  wf_struct s sfx → wf_sub s sfx → isS s p → path s sfx id p →
  wp (scope_add_id p id) (λ _ s', step sfx p s s' ∧ sids s' p id) s.
Proof.
  intros W B [x Hx] Hp. unfold scope_add_id. wps. destruct (ht_get id (sc_ids x)) as [pr|] eqn:Hid.
  - apply wp_ret. split; [by apply step_refl|]. by exists x.
  - apply wp_bind, wp_modify. set (s1 := set_scopeIndex _ s).
    apply (wp_upd_scope p x); [done|]. set (s2 := set_scopes _ s1).
    assert (grow s s2) as G.
    { etrans; [apply grow_set_scopeIndex|]. apply grow_insert_scope; [done|by apply tgrow_set]. }
    assert (∀ q k, sids s2 q k ↔ sids s q k ∨ (q = p ∧ k = id)) as Hs.
    { intros q k. unfold s2. rw (sids_insert s1) //. case_decide as Hq; [subst q|naive_solver].
      rw ht_get_set. unfold sids. case_decide; naive_solver. }
    split; [split; [done| |intros q Hq; cbn; by rw lookup_insert_ne|done]|apply Hs; auto].
    split.
    + intros k q. rw Hs. cbn. rw ht_get_set. case_decide as Hk; [subst k|].
      * rw -(wb_sidx _ _ B). split; [intros [= <-]; auto|]. intros [Hq|[-> _]]; [|done].
        apply (wb_sidx _ _ B) in Hq. f_equal.
        eapply (path_fun s sfx W); [done|]. apply (wb_path _ _ B). by left.
      * rw (wb_sidx _ _ B). naive_solver.
    + intros k q. exact (wb_pidx _ _ B k q).
    + intros k q [[Hq|[-> ->]]%Hs|Hq]; apply (grow_path _ _ G); [|done|];
        apply (wb_path _ _ B); [by left|by right].
Qed.

Lemma item_add_id_spec s sfx p id :
  wf_struct s sfx → wf_sub s sfx → isI s p → path s sfx id p →
  wp (item_add_id p id) (λ _ s', step sfx p s s' ∧ iids s' p id) s.
Proof.
  intros W B [x Hx] Hp. unfold item_add_id. wps. destruct (ht_get id (ii_ids x)) as [pr|] eqn:Hid.
  - apply wp_ret. split; [by apply step_refl|]. by exists x.
  - apply wp_bind, wp_modify. set (s1 := set_pubIndex _ s).
    apply (wp_upd_item p x); [done|]. set (s2 := set_items _ s1).
    assert (grow s s2) as G.
    { etrans; [apply grow_set_pubIndex|]. apply grow_insert_item; [done|by apply tgrow_set]. }
    assert (∀ q k, iids s2 q k ↔ iids s q k ∨ (q = p ∧ k = id)) as Hs.
    { intros q k. unfold s2. rw (iids_insert s1) //. case_decide as Hq; [subst q|naive_solver].
      rw ht_get_set. unfold iids. case_decide; naive_solver. }
    split; [split; [done| |done|intros q Hq; cbn; by rw lookup_insert_ne]|apply Hs; auto].
    split.
    + intros k q. exact (wb_sidx _ _ B k q).
    + intros k q. rw Hs. cbn. rw ht_get_set. case_decide as Hk; [subst k|].
      * rw -(wb_pidx _ _ B). split; [intros [= <-]; auto|]. intros [Hq|[-> _]]; [|done].
        apply (wb_pidx _ _ B) in Hq. f_equal.
        eapply (path_fun s sfx W); [done|]. apply (wb_path _ _ B). by right.
      * rw (wb_pidx _ _ B). naive_solver.
    + intros k q [Hq|[Hq|[-> ->]]%Hs]; apply (grow_path _ _ G); [| |done];
        apply (wb_path _ _ B); [by left|by right].
Qed.

(** ** All identifiers of one object *)

Lemma step_struct sfx p s s' : wf_struct s sfx → step sfx p s s' → wf_struct s' sfx.
Proof. intros W S. by eapply grow_wf_struct; [apply S|]. Qed.

Lemma step_oid sfx p q s s' id : step sfx p s s' → q ≠ p → oid s' q id ↔ oid s q id.
Proof. intros S Hq. unfold oid, sids, iids. by rw (st_scopes _ _ _ _ S) // (st_items _ _ _ _ S). Qed.

Lemma closed_grow sfx s s' f c :
  grow s s' → (∀ id, oid s' f id → oid s f id) → closed s sfx f c → closed s' sfx f c.
Proof. intros G Hf H id Hid. apply (grow_oid _ _ G), H, Hf, Hid. Qed.

Lemma sids_keys s p x id : scopes s !! p = Some x → id ∈ ht_keys (sc_ids x) ↔ sids s p id.
Proof. intros Hx. rw elem_of_ht_keys. unfold sids. naive_solver. Qed.
Lemma iids_keys s p x id : items s !! p = Some x → id ∈ ht_keys (ii_ids x) ↔ iids s p id.
Proof. intros Hx. rw elem_of_ht_keys. unfold iids. naive_solver. Qed.

Lemma oid_scope s sfx p id : wf_struct s sfx → isS s p → oid s p id ↔ sids s p id.
Proof.
  intros W HS. unfold oid. split; [|auto]. intros [|H%iids_isI]; [done|].
  by apply (ws_disj _ _ W) in HS.
Qed.

Lemma edge_ne s sfx f c : wf_struct s sfx → edge s f c → f ≠ c.
Proof.
  intros W [H|H] ->.
  - by apply (ws_acyclic _ _ W c), tc_once.
  - apply (ws_disj _ _ W c); [by eapply holds_isS|by eapply holds_isI_r].
Qed.

(** The two nested loops, over the fathers and over their identifiers, for
    any body [add] that adds one identifier to [p]. *)
Section own_ids.
Context (sfx : ptr → bytes) (p : ptr) (add : bytes → R ()) (has : rv → bytes → Prop) (alive : rv → Prop).
Context (Halive : ∀ s s', grow s s' → alive s → alive s').
Context (Hadd : ∀ s id, wf_struct s sfx → wf_sub s sfx → alive s → path s sfx id p →
  wp (add id) (λ _ s', step sfx p s s' ∧ has s' id) s).
Context (Hhas : ∀ s s' id, grow s s' → has s id → has s' id).
Context (Hoid : ∀ s id, has s id → oid s p id).

Lemma own_ids_spec s fathers :
  wf_struct s sfx → wf_sub s sfx → alive s →
  (∀ f, f ∈ fathers → edge s f p) → (∀ f, f ∈ fathers → f ≠ p) →
  wp (mfor fathers (λ father, f ← get_scope father;
        mfor (ht_keys (sc_ids f)) (λ fid, add (fid ++ sfx p))))
     (λ _ s', step sfx p s s' ∧ ∀ f, f ∈ fathers → closed s' sfx f p) s.
Proof.
  intros W B Hp He Hne.
  eapply wp_mono; [apply (wp_mfor (λ d _ s', step sfx p s s' ∧ ∀ f, f ∈ d → closed s' sfx f p))|done].
  { split; [by apply step_refl|set_solver]. }
  intros d f t s1 Hl [S1 Hd]. assert (f ∈ fathers) as Hf by (rw -Hl; set_solver).
  pose proof (grow_edge _ _ (st_grow _ _ _ _ S1) f p) as Hed.
  pose proof (step_struct _ _ _ _ W S1) as W1. pose proof (st_sub _ _ _ _ S1) as B1.
  destruct (edge_isS s1 f p) as [xf Hxf]; [apply Hed, He, Hf|]. wps.
  eapply wp_mono.
  - apply (wp_mfor (λ d _ s', step sfx p s1 s' ∧ ∀ id, id ∈ d → has s' (id ++ sfx p))).
    { split; [by apply step_refl|set_solver]. }
    intros d' id t' s2 Hl' [S2 Hd']. pose proof (st_grow _ _ _ _ S2) as G2.
    pose proof (step_struct _ _ _ _ W1 S2) as W2.
    eapply wp_mono; [apply Hadd; [done|apply S2| |]|].
    + eapply Halive; [apply G2|]. eapply Halive; [apply S1|done].
    + apply (grow_path _ _ G2), (path_edge _ _ _ f); [|apply Hed, He, Hf].
      apply (wb_path _ _ B1). left. apply (sids_keys _ _ _ _ Hxf). rw -Hl'. set_solver.
    + intros [] s3 [S3 Hh]. split; [by eapply step_trans|]. intros k [Hk|Hk]%elem_of_app.
      * eapply Hhas; [apply S3|]. by apply Hd'.
      * apply list_elem_of_singleton in Hk. by subst.
  - intros [] s2 [S2 Hids]. split; [by eapply step_trans|]. intros g [Hg|Hg]%elem_of_app.
    + eapply closed_grow; [apply S2| |by apply Hd]. intros id. apply (step_oid _ _ _ _ _ id S2).
      apply Hne. rw -Hl. set_solver.
    + apply list_elem_of_singleton in Hg as ->. intros id Hid.
      apply (step_oid _ _ _ _ _ id S2) in Hid; [|by apply Hne].
      apply Hoid, Hids, (sids_keys _ _ _ _ Hxf). eapply oid_scope; [done| |done]. by exists xf.
Qed.
End own_ids.

Lemma scope_update_own_ids_spec s sfx p :
  wf_struct s sfx → wf_sub s sfx → isS s p →
  wp (scope_update_own_ids p (sfx p)) (λ _ s', step sfx p s s' ∧ ∀ f, edge s f p → closed s' sfx f p) s.
Proof.
  intros W B [x Hx]. assert (isS s p) as HS by (by exists x). unfold scope_update_own_ids. wps.
  assert (∀ f, f ∈ ht_keys (sc_fatherScopes x) ↔ edge s f p) as Hf.
  { intros f. rw -hs_in_keys. split.
    - intros Hf. left. apply (ws_child _ _ W). by exists x.
    - intros [(y & Hy & H)%(ws_child _ _ W)|H%(holds_isI_r _ _ W)]; [naive_solver|].
      by apply (ws_disj _ _ W) in HS. }
  eapply wp_mono.
  - apply (own_ids_spec sfx p (scope_add_id p) (λ s, sids s p) (λ s, isS s p)); try done.
    + intros s1 s2 G. by rw (grow_isS _ _ G).
    + intros. by apply scope_add_id_spec.
    + intros s1 s2 id G. by apply grow_sids.
    + intros. by left.
    + intros f Hin. by apply Hf.
    + intros f Hin%Hf. by eapply edge_ne.
  - intros [] s' [S' Hc]. split; [done|]. intros f Hfe. by apply Hc, Hf.
Qed.

Lemma InformationItem_updateIDs_spec s sfx p :
  wf_struct s sfx → wf_sub s sfx → isI s p →
  wp (InformationItem_updateIDs p (sfx p))
    (λ _ s', step sfx p s s' ∧ ∀ f, edge s f p → closed s' sfx f p) s.
Proof.
  intros W B [x Hx]. assert (isI s p) as HI by (by exists x). unfold InformationItem_updateIDs. wps.
  assert (∀ f, f ∈ ht_keys (ii_fatherScopes x) ↔ edge s f p) as Hf.
  { intros f. rw -hs_in_keys. split.
    - intros Hf. right. apply (ws_holds _ _ W). by exists x.
    - intros [H%(child_isS_r _ _ W)|(y & Hy & H)%(ws_holds _ _ W)]; [|naive_solver].
      by apply (ws_disj _ _ W) in H. }
  eapply wp_mono.
  - apply (own_ids_spec sfx p (item_add_id p) (λ s, iids s p) (λ s, isI s p)); try done.
    + intros s1 s2 G. by rw (grow_isI _ _ G).
    + intros. by apply item_add_id_spec.
    + intros s1 s2 id G. by apply grow_iids.
    + intros. by right.
    + intros f Hin. by apply Hf.
    + intros f Hin%Hf. by eapply edge_ne.
  - intros [] s' [S' Hc]. split; [done|]. intros f Hfe. by apply Hc, Hf.
Qed.

(** ** The recursion *)

(** The whole update of [p]: it only adds identifiers of the graph, it keeps
    up to date what was, and the edges into [p] are up to date. *)
Record updated sfx p s s' : Prop := {
  up_grow : grow s s';
  up_sub : wf_sub s' sfx;
  up_keep : ∀ f c, edge s f c → closed s sfx f c → closed s' sfx f c;
  up_into : ∀ f, edge s f p → closed s' sfx f p;
}.

Lemma grow_child_subrel s s' : grow s s' → subrelation (child s') (child s).
Proof. intros G f c. apply (grow_child _ _ G). Qed.
Lemma grow_child_subrel' s s' : grow s s' → subrelation (child s) (child s').
Proof. intros G f c. apply (grow_child _ _ G). Qed.
Lemma grow_size s s' : grow s s' → size (scopes s') = size (scopes s).
Proof.
  intros G. rw -!size_dom. f_equal. apply set_eq. intros p. rw !elem_of_dom. apply (grow_isS _ _ G).
Qed.

Lemma distinct_scopes_bound s (vis : list ptr) :
  NoDup vis → (∀ v, v ∈ vis → isS s v) → (length vis ≤ size (scopes s))%nat.
Proof.
  intros Hn Hv. rw -size_dom -(size_list_to_set (C:=gset ptr) vis) //. apply subseteq_size.
  intros v. rw elem_of_list_to_set elem_of_dom. apply Hv.
Qed.

Lemma updated_item sfx p s s' :
  wf_struct s sfx → isI s p → step sfx p s s' → (∀ f, edge s f p → closed s' sfx f p) → updated sfx p s s'.
Proof.
  intros W HI S Hc. split; [apply S|apply S| |done]. intros f c He Hcl.
  eapply closed_grow; [apply S| |done]. intros id. apply (step_oid _ _ _ _ _ id S).
  intros ->. by apply edge_isS, (ws_disj _ _ W) in He.
Qed.

(** The state inside the loops over the children and the items of [p]: the
    edges to [done] are up to date. *)
Record updating sfx p s (done : list ptr) s' : Prop := {
  ug_grow : grow s s';
  ug_sub : wf_sub s' sfx;
  ug_keep : ∀ f c, edge s f c → f ≠ p → closed s sfx f c → closed s' sfx f c;
  ug_into : ∀ f, edge s f p → closed s' sfx f p;
  ug_done : ∀ c, c ∈ done → edge s p c ∧ closed s' sfx p c;
}.

Lemma updating_start sfx p s s' :
  step sfx p s s' → (∀ f, edge s f p → closed s' sfx f p) → updating sfx p s [] s'.
Proof.
  intros S Hc. split; [apply S|apply S| |done|set_solver].
  intros f c He Hne. eapply closed_grow; [apply S|]. intros id. by apply (step_oid _ _ _ _ _ id S).
Qed.

Lemma updating_next sfx p s d c s1 s2 :
  updating sfx p s d s1 → edge s p c → updated sfx c s1 s2 → updating sfx p s (d ++ [c]) s2.
Proof.
  intros U He V. pose proof (λ f c, proj2 (grow_edge _ _ (ug_grow _ _ _ _ _ U) f c)) as Hed.
  split.
  - etrans; [apply U|apply V].
  - apply V.
  - intros f g Hfg Hne Hcl. apply (up_keep _ _ _ _ V); [by apply Hed|by apply (ug_keep _ _ _ _ _ U)].
  - intros f Hf. apply (up_keep _ _ _ _ V); [by apply Hed|by apply (ug_into _ _ _ _ _ U)].
  - intros g [Hg|Hg]%elem_of_app.
    + destruct (ug_done _ _ _ _ _ U g Hg). split; [done|].
      apply (up_keep _ _ _ _ V); [by apply Hed|done].
    + apply list_elem_of_singleton in Hg as ->. split; [done|].
      by apply (up_into _ _ _ _ V), Hed.
Qed.

Lemma updating_end sfx p s d s' :
  updating sfx p s d s' → (∀ c, edge s p c → c ∈ d) → updated sfx p s s'.
Proof.
  intros U Hd. split; [apply U|apply U| |by apply (ug_into _ _ _ _ _ U)]. intros f c He Hcl.
  destruct (decide (f = p)) as [->|]; [by apply (ug_done _ _ _ _ _ U), Hd|].
  by apply (ug_keep _ _ _ _ _ U).
Qed.

(** [vis] are the scopes the recursion is inside of. *)
Lemma recursivelyUpdateIDs_spec fuel s sfx p vis :
  wf_struct s sfx → wf_sub s sfx → isS s p →
  NoDup vis → (∀ v, v ∈ vis → isS s v ∧ tc (child s) v p) →
  (size (scopes s) < fuel + length vis)%nat →
  (∀ f c, rtc (child s) p f → edge s f c → ∃ id, oid s c id) →
  wp (recursivelyUpdateIDs fuel p (sfx p)) (λ _, updated sfx p s) s.
Proof.
  revert s p vis. induction fuel as [|fuel IH]; intros s p vis W B HS Hnd Hvis Hfuel Hne.
  { exfalso. pose proof (distinct_scopes_bound s vis Hnd (λ v Hv, proj1 (Hvis v Hv))). lia. }
  assert (p ∉ vis) as Hp.
  { intros Hin. apply (ws_acyclic _ _ W p). by apply Hvis. }
  cbn [recursivelyUpdateIDs]. apply wp_bind.
  eapply wp_mono; [by apply scope_update_own_ids_spec|]. intros [] s1 [S1 C1]. cbv beta.
  pose proof (updating_start _ _ _ _ S1 C1) as U1.
  destruct (proj2 (grow_isS _ _ (st_grow _ _ _ _ S1) p) HS) as [x Hx]. wps.
  assert (∀ c, c ∈ ht_keys (sc_childrenScopes x) ↔ child s p c) as Hch.
  { intros c. rw -(grow_child _ _ (st_grow _ _ _ _ S1)) -hs_in_keys. unfold child. naive_solver. }
  assert (∀ c, c ∈ ht_keys (sc_informationitems x) ↔ holds s p c) as Hho.
  { intros c. rw -(grow_holds _ _ (st_grow _ _ _ _ S1)) -hs_in_keys. unfold holds. naive_solver. }
  eapply wp_mono; [apply (wp_mfor (λ d _, updating sfx p s d)); [done|]|].
  - intros d c t s2 Hl U2. assert (child s p c) as Hc by (apply Hch; rw -Hl; set_solver).
    pose proof (ug_grow _ _ _ _ _ U2) as G2. pose proof (grow_wf_struct _ _ _ G2 W) as W2.
    pose proof (ug_sub _ _ _ _ _ U2) as B2.
    assert (isS s2 c) as HSc by (by apply (grow_isS _ _ G2), (child_isS_r _ _ W p)).
    destruct (HSc) as [xc Hxc]. wps.
    apply wp_first_id.
    { destruct (Hne p c) as [id Hid]; [done|by left|]. exists id.
      apply (grow_oid _ _ G2), (oid_scope _ _ _ _ W2 HSc) in Hid. by apply elem_of_ht_keys, (sids_keys _ _ _ _ Hxc). }
    intros id0 Hid0. rw (path_last_fragment _ _ W2 id0 c); last first.
    { apply (wb_path _ _ B2). left. by exists xc. }
    eapply wp_mono; [apply (IH s2 c (p :: vis))|]; try done.
    + by constructor.
    + intros v [->|Hv]%elem_of_cons.
      * split; [by apply (grow_isS _ _ G2)|]. by apply tc_once, (grow_child _ _ G2).
      * destruct (Hvis v Hv) as [? Ht]. split; [by apply (grow_isS _ _ G2)|].
        eapply tc_r; [|by apply (grow_child _ _ G2)]. eapply tc_subrel; [|done].
        by apply grow_child_subrel'.
    + rw (grow_size _ _ G2). simpl. lia.
    + intros f g Hf Hg. destruct (Hne f g) as [id Hid].
      * eapply rtc_l; [done|]. eapply rtc_subrel; [|done]. by apply grow_child_subrel.
      * by apply (grow_edge _ _ G2).
      * exists id. by apply (grow_oid _ _ G2).
    + intros [] s3 V. eapply updating_next; [done|by left|done].
  - intros [] s2 U2. cbv beta. eapply wp_mono.
    + apply (wp_mfor (λ d _, updating sfx p s (ht_keys (sc_childrenScopes x) ++ d))); [by rw app_nil_r|].
      intros d c t s3 Hl U3. assert (holds s p c) as Hc by (apply Hho; rw -Hl; set_solver).
      pose proof (ug_grow _ _ _ _ _ U3) as G3. pose proof (grow_wf_struct _ _ _ G3 W) as W3.
      pose proof (ug_sub _ _ _ _ _ U3) as B3.
      assert (isI s3 c) as HIc by (by apply (grow_isI _ _ G3), (holds_isI_r _ _ W p)).
      destruct (HIc) as [xc Hxc]. wps. apply wp_first_id.
      { destruct (Hne p c) as [id Hid]; [done|by right|]. exists id.
        apply (grow_oid _ _ G3) in Hid as [Hid|Hid].
        - apply sids_isS in Hid. by apply (ws_disj _ _ W3) in Hid.
        - by apply elem_of_ht_keys, (iids_keys _ _ _ _ Hxc). }
      intros id0 Hid0. rw (path_last_fragment _ _ W3 id0 c); last first.
      { apply (wb_path _ _ B3). right. by exists xc. }
      eapply wp_mono; [by apply InformationItem_updateIDs_spec|].
      intros [] s4 [S4 C4]. rw app_assoc. eapply updating_next; [done|by right|by apply updated_item].
    + intros [] s3 U3. apply (updating_end _ _ _ _ _ U3). intros c [Hc|Hc].
      * apply elem_of_app. left. by apply Hch.
      * apply elem_of_app. right. by apply Hho.
Qed.
End grow.

(** ** The calls the requests make *)

Section complete.
Context `{CT : ClickTables}.
Implicit Types (s : rv) (p q f c : ptr) (id : bytes) (sfx : ptr → bytes).

Lemma full_of_closed s sfx :
  (∀ p, root s p → oid s p (sfx p)) → (∀ f c, edge s f c → closed s sfx f c) →
  ∀ id p, path s sfx id p → oid s p id.
Proof. intros Hr Hc id p. induction 1 as [p Hp|id f c _ IH He]; [by apply Hr|by apply (Hc f c He)]. Qed.

Lemma closed_of_full s sfx :
  wf_sub s sfx → (∀ id p, path s sfx id p → oid s p id) → ∀ f c, edge s f c → closed s sfx f c.
Proof. intros B Hf f c He id Hid%(wb_path _ _ B). apply Hf. by eapply path_edge. Qed.

Lemma Scope_recursivelyUpdateIDs_spec s sfx p :
  wf_struct s sfx → wf_sub s sfx → isS s p →
  (∀ q, root s q → oid s q (sfx q)) →
  (∀ f c, edge s f c → c ≠ p → closed s sfx f c) →
  (∀ f c, edge s f c → c ≠ p → ∃ id, oid s c id) →
  wp (Scope_recursivelyUpdateIDs p (sfx p))
    (λ _ s', updated sfx p s s' ∧ ∀ id q, path s' sfx id q → oid s' q id) s.
Proof.
  intros W B HS Hr Hc Hne. unfold Scope_recursivelyUpdateIDs. wps.
  eapply wp_mono; [apply (recursivelyUpdateIDs_spec _ s sfx p []); try done|].
  - constructor.
  - set_solver.
  - simpl. lia.
  - intros f c Hf He. destruct (decide (c = p)) as [->|]; [exfalso|by eapply Hne].
    destruct He as [He|He].
    + apply (ws_acyclic _ _ W p). eapply tc_rtc_l; [done|by apply tc_once].
    + apply (ws_disj _ _ W p HS). by eapply holds_isI_r.
  - intros [] s' U. split; [done|]. pose proof (up_grow _ _ _ _ U) as G.
    apply full_of_closed.
    + intros q Hq%(grow_root _ _ G). by apply (grow_oid _ _ G), Hr.
    + intros f c He%(grow_edge _ _ G). destruct (decide (c = p)) as [->|].
      * by apply (up_into _ _ _ _ U).
      * apply (up_keep _ _ _ _ U); [done|by apply Hc].
Qed.

(** ** Cycles *)

(** Without any assumption on the state, a run keeps the shape of the scopes. *)
Definition same_shape s s' : Prop := ∀ p, sc_shape <$> scopes s' !! p = sc_shape <$> scopes s !! p.

#[export] Instance same_shape_preorder : PreOrder same_shape.
Proof. split; [by intros s p|]. intros s1 s2 s3 H1 H2 p. by rw H2 H1. Qed.

Lemma same_shape_child s s' f c : same_shape s s' → child s' f c ↔ child s f c.
Proof.
  intros H. unfold child. specialize (H f).
  destruct (scopes s' !! f) as [x'|], (scopes s !! f) as [x|]; try done.
  injection H as H1 H2 H3 H4 H5. split; intros (y & [= <-] & Hy); eexists; (split; [done|]).
  - by rw -H3.
  - by rw H3.
Qed.

Lemma wlp_same_shape_step {A B} s (m : R A) (k : A → R B) (Q : B → rv → Prop) :
  wlp m (λ _, same_shape s) s → (∀ a s', same_shape s s' → wlp (k a) Q s') → wlp (m ≫= k) Q s.
Proof. intros Hm Hk. apply wlp_bind. eapply wlp_mono; [done|]. auto. Qed.

(** A command after which the shape is that of [s]. *)
Definition shaped s {A} (m : R A) : Prop := ∀ s', same_shape s s' → wlp m (λ _, same_shape s) s'.

Lemma shaped_bind s {A B} (m : R A) (k : A → R B) :
  shaped s m → (∀ a, shaped s (k a)) → shaped s (m ≫= k).
Proof. intros Hm Hk s' H. apply wlp_bind. eapply wlp_mono; [by apply Hm|]. intros a s'' H''. by apply Hk. Qed.
Lemma shaped_ret s {A} (a : A) : shaped s (mret a).
Proof. by intros s' H. Qed.
Lemma shaped_get_scope s p : shaped s (get_scope p).
Proof. intros s' H. unfold wlp, get_scope. by destruct (scopes s' !! p). Qed.
Lemma shaped_get_item s p : shaped s (get_item p).
Proof. intros s' H. unfold wlp, get_item. by destruct (items s' !! p). Qed.
Lemma shaped_lift_res s {A} (r : res A) : shaped s (lift_res r).
Proof. intros s' H. unfold wlp, lift_res. by destruct r. Qed.
Lemma shaped_upd_item s p (g : InformationItem → InformationItem) : shaped s (upd_item p g).
Proof. intros s' H. unfold wlp, upd_item. by destruct (items s' !! p). Qed.
Lemma shaped_modify s (g : rv → rv) : (∀ s', scopes (g s') = scopes s') → shaped s (modify g).
Proof. intros Hg s' H p. by rw Hg H. Qed.
Lemma shaped_upd_ids s p (g : Scope → IdsHashMap) : shaped s (upd_scope p (λ x, sc_with_ids (g x) x)).
Proof.
  intros s' H. unfold wlp, upd_scope. destruct (scopes s' !! p) as [x|] eqn:Hx; [|done].
  intros q. cbn [scopes set_scopes]. destruct (decide (q = p)) as [->|].
  - rw lookup_insert_eq -H Hx. done.
  - by rw lookup_insert_ne.
Qed.
Lemma shaped_mfor s {A} (l : list A) (body : A → R ()) :
  (∀ x, shaped s (body x)) → shaped s (mfor l body).
Proof. intros Hb s' H. apply wlp_mfor; [done|]. intros. by apply Hb. Qed.

Create HintDb shaped.
#[local] Hint Resolve shaped_ret shaped_get_scope shaped_get_item shaped_lift_res shaped_upd_item
  shaped_upd_ids : shaped.
Ltac shaped_tac :=
  repeat first
    [ solve [eauto with shaped] | apply shaped_bind; [|intros ?] | apply shaped_mfor; intros ? | apply shaped_modify; done ].

Lemma shaped_own s p suffixID : shaped s (scope_update_own_ids p suffixID).
Proof.
  unfold scope_update_own_ids, scope_add_id. shaped_tac.
  destruct (ht_get _ _); shaped_tac.
Qed.
Lemma shaped_item s p suffixID : shaped s (InformationItem_updateIDs p suffixID).
Proof.
  unfold InformationItem_updateIDs, item_add_id. shaped_tac.
  destruct (ht_get _ _); shaped_tac.
Qed.
#[local] Hint Resolve shaped_own shaped_item : shaped.

Lemma shaped_recursivelyUpdateIDs fuel s p suffixID : shaped s (recursivelyUpdateIDs fuel p suffixID).
Proof.
  revert p suffixID. induction fuel as [|fuel IH]; intros p suffixID; [by intros s' H|].
  cbn [recursivelyUpdateIDs]. shaped_tac.
Qed.

(** On a cycle of children the recursion never returns, whatever the fuel. *)
Lemma recursivelyUpdateIDs_cycle fuel s p suffixID s' :
  tc (child s) p p → recursivelyUpdateIDs fuel p suffixID s ≠ Ok ((), s').
Proof.
  enough (∀ s, tc (child s) p p → wlp (recursivelyUpdateIDs fuel p suffixID) (λ _ _, False) s) as H.
  { intros Ht E. specialize (H s Ht). unfold wlp in H. by rw E in H. }
  clear s s'. revert p suffixID. induction fuel as [|fuel IH]; intros p suffixID s Ht; [done|].
  cbn [recursivelyUpdateIDs].
  apply (wlp_same_shape_step s); [by apply shaped_own|]. intros [] s1 H1.
  assert (∃ c, child s p c ∧ tc (child s) c c) as (c & Hc & Hcc).
  { inversion Ht as [? ? Hs|? y ? Hs Hr]; subst; [by exists p|].
    exists y. split; [done|]. by eapply tc_r. }
  apply wlp_bind. unfold wlp at 1, get_scope. destruct (scopes s1 !! p) as [x|] eqn:Hx; [|done].
  assert (c ∈ ht_keys (sc_childrenScopes x)) as Hin.
  { apply hs_in_keys. apply (same_shape_child _ _ _ _ H1) in Hc as (y & Hy & ?). naive_solver. }
  apply wlp_bind. eapply wlp_mono.
  - apply (wlp_mfor_run (same_shape s)); [done| |done].
    intros c' s2 _ H2. revert s2 H2. change (shaped s (c0 ← get_scope c'; id0 ← lift_res (first_id (sc_ids c0));
      recursivelyUpdateIDs fuel c' (last_fragment id0))).
    shaped_tac. apply shaped_recursivelyUpdateIDs.
  - cbv beta. intros [] ? (s2 & s3 & H2 & E). exfalso. revert E.
    unfold mbind, M_bind, get_scope, lift_res.
    destruct (scopes s2 !! c) as [xc|]; [|done]. destruct (first_id (sc_ids xc)) as [id0|]; [|done].
    intros E. assert (tc (child s2) c c) as Ht2.
    { eapply tc_subrel; [|done]. intros u v. apply (same_shape_child _ _ _ _ H2). }
    specialize (IH c (last_fragment id0) s2 Ht2). unfold wlp in IH. by rw E in IH.
Qed.
End complete.
