(* ===== verification/RvInvariant.v ===== *)
(** * Changing the information graph

    How the invariant of RvGraph follows the changes the requests make: new
    publishers and subscribers under an identifier, new scopes, items and
    edges, and the removal of a scope, of an item, or of one branch. *)

From S2P Require Import Prelude Enums HashTable RvStore RvGraph RvUpdate.

Section maps.
Context {A : Type}.
Implicit Types (m : gmap ptr A) (P : A → Prop).

Lemma insert_view m a v q P :
  (∃ x, <[a := v]> m !! q = Some x ∧ P x) ↔ (q = a ∧ P v) ∨ (q ≠ a ∧ ∃ x, m !! q = Some x ∧ P x).
Proof.
  destruct (decide (q = a)) as [->|]; [rw lookup_insert_eq|rw lookup_insert_ne //]; naive_solver.
Qed.
Lemma insert_is_Some m a v q : is_Some (<[a := v]> m !! q) ↔ q = a ∨ is_Some (m !! q).
Proof. rw lookup_insert_is_Some. destruct (decide (q = a)); naive_solver. Qed.
Lemma delete_view m a q P :
  (∃ x, delete a m !! q = Some x ∧ P x) ↔ q ≠ a ∧ ∃ x, m !! q = Some x ∧ P x.
Proof.
  destruct (decide (q = a)) as [->|]; [rw lookup_delete_eq|rw lookup_delete_ne //]; naive_solver.
Qed.
Lemma delete_is_Some m a q : is_Some (delete a m !! q) ↔ q ≠ a ∧ is_Some (m !! q).
Proof. rw lookup_delete_is_Some. naive_solver. Qed.
End maps.

Section invariant.
Context `{CT : ClickTables}.
Implicit Types (s : rv) (p q f c : ptr) (id : bytes) (sfx : ptr → bytes).

(** ** The graph gets larger *)

(** [s'] has the new scopes [NS], items [NI], roots [NR] and edges [EC] to
    scopes and [EH] to items. *)
Record extends s s' (NS NI NR : ptr → Prop) (EC EH : ptr → ptr → Prop) : Prop := {
  ex_isS : ∀ p, isS s' p ↔ isS s p ∨ NS p;
  ex_isI : ∀ p, isI s' p ↔ isI s p ∨ NI p;
  ex_root : ∀ p, root s' p ↔ root s p ∨ NR p;
  ex_child : ∀ f c, child s' f c ↔ child s f c ∨ EC f c;
  ex_sfather : ∀ f c, sfather s' f c ↔ sfather s f c ∨ EC f c;
  ex_holds : ∀ f c, holds s' f c ↔ holds s f c ∨ EH f c;
  ex_ifather : ∀ f c, ifather s' f c ↔ ifather s f c ∨ EH f c;
  ex_hosts : ∀ h, is_Some (hosts s' !! h) → is_Some (hosts s !! h);
  ex_next : (next s ≤ next s')%nat;
}.

Lemma wf_struct_extend s s' sfx sfx' NS NI NR EC EH :
  wf_struct s sfx → extends s s' NS NI NR EC EH →
  (∀ p, NS p ∨ NI p → ¬ isS s p ∧ ¬ isI s p ∧ length (sfx' p) = PURSUIT_ID_LEN ∧ (p < next s')%nat) →
  (∀ p, isS s p ∨ isI s p → sfx' p = sfx p) →
  (∀ p, NS p → ¬ NI p) →
  (∀ p, NR p → NS p) →
  (∀ p, NS p → NR p ↔ ∀ f, ¬ EC f p) →
  (∀ f c, EC f c → ¬ root s c) →
  (∀ c, NI c → ∃ f, EH f c) →
  (∀ p q, NR p → root s q ∨ NR q → sfx' p = sfx' q → p = q) →
  (∀ f c d, EC f c ∨ EH f c → edge s f d ∨ EC f d ∨ EH f d → sfx' c = sfx' d → c = d) →
  (∀ p, ¬ tc (child s') p p) →
  wf_struct s' sfx'.
Proof.
  intros W X Hnew Hold Hdisj HNR HNR' HEC HNI Hrinj Hsib Hac. split; intros *.
  - rw (ex_child _ _ _ _ _ _ _ X) (ex_sfather _ _ _ _ _ _ _ X) (ws_child _ _ W). done.
  - rw (ex_holds _ _ _ _ _ _ _ X) (ex_ifather _ _ _ _ _ _ _ X) (ws_holds _ _ W). done.
  - rw (ex_isS _ _ _ _ _ _ _ X) (ex_root _ _ _ _ _ _ _ X). setoid_rewrite (ex_sfather _ _ _ _ _ _ _ X).
    intros [Hp|Hp].
    + rw (ws_root _ _ W) //. split.
      * intros [Hr|Hr%HNR]; [|naive_solver]. intros f [Hf|Hf]; [by apply (Hr f)|].
        apply (HEC _ _ Hf). by apply (ws_root _ _ W).
      * intros Hf. left. intros f ?. apply (Hf f). by left.
    + destruct (Hnew p) as (Hn & _); [by left|]. rw (HNR' p Hp). split.
      * intros [Hr%root_isS|Hr]; [done|]. intros f [Hf%sfather_isS|Hf]; [done|by apply (Hr f)].
      * intros Hf. right. intros f ?. apply (Hf f). by right.
  - rw (ex_isI _ _ _ _ _ _ _ X). setoid_rewrite (ex_ifather _ _ _ _ _ _ _ X). intros [Hp|Hp].
    + destruct (ws_item _ _ W p Hp) as [f Hf]. exists f. by left.
    + destruct (HNI p Hp) as [f Hf]. exists f. by right.
  - rw (ex_isS _ _ _ _ _ _ _ X) (ex_isI _ _ _ _ _ _ _ X). intros Hp.
    assert ((isS s p ∨ isI s p) ∨ (NS p ∨ NI p)) as [Ho|Hn] by tauto.
    + rw Hold //. by apply (ws_len _ _ W).
    + by apply Hnew.
  - rw (ex_isS _ _ _ _ _ _ _ X) (ex_isI _ _ _ _ _ _ _ X). intros [Hp|Hp] [Hq|Hq].
    + by apply (ws_disj _ _ W p).
    + destruct (Hnew p) as (? & ? & _); [by right|done].
    + destruct (Hnew p) as (? & ? & _); [by left|done].
    + by apply (Hdisj p).
  - rw (ex_isS _ _ _ _ _ _ _ X) (ex_isI _ _ _ _ _ _ _ X). intros Hp. pose proof (ex_next _ _ _ _ _ _ _ X).
    assert ((isS s p ∨ isI s p ∨ is_Some (hosts s !! p)) ∨ (NS p ∨ NI p)) as [Ho|Hn].
    { pose proof (ex_hosts _ _ _ _ _ _ _ X p). tauto. }
    + apply (ws_next _ _ W) in Ho. lia.
    + by apply Hnew.
  - rw !(ex_root _ _ _ _ _ _ _ X). intros [Hp|Hp] [Hq|Hq] He.
    + apply (ws_root_inj _ _ W); [done..|]. rw -(Hold p) -1?(Hold q) //; left; by apply root_isS.
    + symmetry. apply Hrinj; [done|by left|done].
    + eapply Hrinj; eauto.
    + eapply Hrinj; eauto.
  - assert (∀ f c, edge s' f c ↔ edge s f c ∨ (EC f c ∨ EH f c)) as He.
    { intros. unfold edge. rw (ex_child _ _ _ _ _ _ _ X) (ex_holds _ _ _ _ _ _ _ X). tauto. }
    rw !He. intros [Hc|Hc] [Hd|Hd] E.
    + pose proof (edge_alive _ _ W _ _ Hc). pose proof (edge_alive _ _ W _ _ Hd).
      apply (ws_sib_inj _ _ W f); [done..|]. by rw -(Hold c) // -(Hold d).
    + symmetry. apply (Hsib f); [done|by left|done].
    + eapply Hsib; eauto.
    + eapply Hsib; eauto.
  - apply Hac.
Qed.

Lemma path_extend s s' sfx sfx' NS NI NR EC EH id p :
  wf_struct s sfx → extends s s' NS NI NR EC EH → (∀ p, isS s p ∨ isI s p → sfx' p = sfx p) →
  path s sfx id p → path s' sfx' id p.
Proof.
  intros W X Hold. induction 1 as [p Hp|id f c Hp IH He].
  - rw -(Hold p); [|left; by apply root_isS]. constructor. apply (ex_root _ _ _ _ _ _ _ X). by left.
  - rw -(Hold c); [|by eapply edge_alive]. apply (path_edge _ _ _ f); [done|].
    destruct He; [left; apply (ex_child _ _ _ _ _ _ _ X)|right; apply (ex_holds _ _ _ _ _ _ _ X)]; by left.
Qed.

(** ** The graph stays, the members change *)

Lemma wf_same_graph s s' sfx :
  wf s sfx → same_graph s s' →
  (∀ p id, sids s' p id ↔ sids s p id) → (∀ p id, iids s' p id ↔ iids s p id) →
  (∀ id, ht_get id (scopeIndex s') = ht_get id (scopeIndex s)) →
  (∀ id, ht_get id (pubIndex s') = ht_get id (pubIndex s)) →
  next s' = next s → (∀ h, is_Some (hosts s' !! h) → is_Some (hosts s !! h)) →
  wf_hosts s' → wf s' sfx.
Proof.
  intros [W B F N H] G Hs Hi Es Ei En Eh H'. split; [by eapply sg_wf_struct| | | |done].
  - split; intros id p.
    + rw Es Hs. apply B.
    + rw Ei Hi. apply B.
    + unfold oid. rw Hs Hi (sg_path _ _ G). apply (wb_path _ _ B).
  - intros id p. rw (sg_path _ _ G). unfold oid. rw Hs Hi. apply F.
  - intros p. rw (sg_isS _ _ G) (sg_isI _ _ G). intros [id Hid]%N. exists id. unfold oid. by rw Hs Hi.
Qed.

(** Messages do not matter to the invariant. *)
Lemma wf_set_out s sfx o : wf s sfx → wf (set_out o s) sfx.
Proof.
  intros W. apply (wf_same_graph s); try done. destruct (wf_h _ _ W) as [H1 H2]. by split.
Qed.

Definition scope_kind (k : kind) : bool := match k with PubScope | SubScope => true | _ => false end.

#[export] Instance kind_eq_dec : EqDecision kind.
Proof. solve_decision. Defined.

Definition pair_with (k : kind) (g : PtrSet → PtrSet) (pr : RemoteHostPair) : RemoteHostPair :=
  match k with PubScope | PubItem => (g pr.1, pr.2) | SubScope | SubItem => (pr.1, g pr.2) end.
Definition host_with (k : kind) (g : StringSet → StringSet) (x : RemoteHost) : RemoteHost :=
  match k with
  | PubScope => mkHost (remoteHostID x) (g (publishedScopes x)) (publishedInformationItems x)
      (subscribedScopes x) (subscribedInformationItems x)
  | PubItem => mkHost (remoteHostID x) (publishedScopes x) (g (publishedInformationItems x))
      (subscribedScopes x) (subscribedInformationItems x)
  | SubScope => mkHost (remoteHostID x) (publishedScopes x) (publishedInformationItems x)
      (g (subscribedScopes x)) (subscribedInformationItems x)
  | SubItem => mkHost (remoteHostID x) (publishedScopes x) (publishedInformationItems x)
      (subscribedScopes x) (g (subscribedInformationItems x))
  end.

Lemma pair_sel_with k g pr : pair_sel k (pair_with k g pr) = g (pair_sel k pr).
Proof. by destruct k. Qed.
Lemma pair_sel_with_ne k k' g pr : k' ≠ k → scope_kind k' = scope_kind k →
  pair_sel k' (pair_with k g pr) = pair_sel k' pr.
Proof. by destruct k, k'. Qed.
Lemma host_sel_with k g x : host_sel k (host_with k g x) = g (host_sel k x).
Proof. by destruct k. Qed.
Lemma host_sel_with_ne k k' g x : k' ≠ k → host_sel k' (host_with k g x) = host_sel k' x.
Proof. by destruct k, k'. Qed.

(** [s'] is [s] with the pair of [p] for [id] replaced by [pr'] and the host
    [h] replaced by [x']. *)
Record changes_pair s s' (k : kind) p id (pr pr' : RemoteHostPair) h (x x' : RemoteHost) : Prop := {
  cp_graph : same_graph s s';
  cp_pair : ∀ k0 p0 id0, opair s' k0 p0 id0 =
    if decide (scope_kind k0 = scope_kind k ∧ p0 = p ∧ id0 = id) then Some pr' else opair s k0 p0 id0;
  cp_old : opair s k p id = Some pr;
  cp_sidx : ∀ k, ht_get k (scopeIndex s') = ht_get k (scopeIndex s);
  cp_pidx : ∀ k, ht_get k (pubIndex s') = ht_get k (pubIndex s);
  cp_host : hosts s !! h = Some x;
  cp_hosts : hosts s' = <[h := x']> (hosts s);
  cp_hidx : pub_sub_Index s' = pub_sub_Index s;
  cp_next : next s' = next s;
}.

Lemma sids_opair s p id : sids s p id ↔ is_Some (opair s PubScope p id).
Proof. unfold sids, opair, spair. destruct (scopes s !! p); naive_solver. Qed.
Lemma iids_opair s p id : iids s p id ↔ is_Some (opair s PubItem p id).
Proof. unfold iids, opair, ipair. destruct (items s !! p); naive_solver. Qed.
Lemma opair_kind s k k' p id : scope_kind k = scope_kind k' → opair s k p id = opair s k' p id.
Proof. by destruct k, k'. Qed.

(** The pair of an identifier is unique. *)
Lemma opair_fun s sfx k p q id pr pr' : wf s sfx →
  opair s k p id = Some pr → opair s k q id = Some pr' → q = p ∧ pr' = pr.
Proof.
  intros W Hp Hq.
  assert (p = q) as <-; [|by rw Hp in Hq; simplify_eq].
  assert (∀ r pr, opair s k r id = Some pr → oid s r id) as Ho.
  { intros r pr0 Hr. destruct k; [left; apply sids_opair|left; apply sids_opair|
      right; apply iids_opair|right; apply iids_opair]; unfold opair in *; eauto. }
  eapply (path_fun s sfx (wf_s _ _ W)); apply (wb_path _ _ (wf_b _ _ W)); eauto.
Qed.

Lemma changes_pair_member s s' sfx k p id pr pr' h x x' k' id' h' :
  wf s sfx → changes_pair s s' k p id pr pr' h x x' →
  member s' k' id' h' ↔
    if decide (scope_kind k' = scope_kind k ∧ id' = id) then hs_in h' (pair_sel k' pr')
    else member s k' id' h'.
Proof.
  intros W C. unfold member. setoid_rewrite (cp_pair _ _ _ _ _ _ _ _ _ _ C). case_decide as Hd.
  - destruct Hd as [Hk ->]. split.
    + intros (q & pr0 & Hq & Hh). case_decide as Hc; [by simplify_eq|]. exfalso. apply Hc.
      split_and!; [done| |done]. rw (opair_kind _ _ k) // in Hq.
      by destruct (opair_fun s sfx k p q id pr pr0 W (cp_old _ _ _ _ _ _ _ _ _ _ C) Hq) as [-> _].
    + intros Hh. exists p, pr'. by rw decide_True.
  - split; intros (q & pr0 & Hq & Hh); exists q, pr0; case_decide; naive_solver.
Qed.

Lemma member_old s sfx k p id pr h k' :
  wf s sfx → opair s k p id = Some pr → scope_kind k' = scope_kind k →
  member s k' id h ↔ hs_in h (pair_sel k' pr).
Proof.
  intros W Hpr Hk. unfold member. split.
  - intros (q & pr0 & Hq & Hh). rw (opair_kind _ _ k) // in Hq.
    by destruct (opair_fun s sfx k p q id pr pr0 W Hpr Hq) as [-> ->].
  - intros Hh. exists p, pr. by rw (opair_kind _ _ k).
Qed.

Lemma changes_pair_wf s s' sfx k p id pr h x g gh (P : Prop) :
  wf s sfx → changes_pair s s' k p id pr (pair_with k g pr) h x (host_with k gh x) →
  (∀ h' t, hs_in h' (g t) ↔ if decide (h' = h) then P else hs_in h' t) →
  (∀ id' t, hs_in id' (gh t) ↔ if decide (id' = id) then P else hs_in id' t) →
  wf s' sfx.
Proof.
  intros W C Hg Hgh. destruct (wf_h _ _ W) as [H1 H2].
  assert (∀ p0 id0, sids s' p0 id0 ↔ sids s p0 id0) as Hs.
  { intros. rw !sids_opair (cp_pair _ _ _ _ _ _ _ _ _ _ C). case_decide as Hd; [|done].
    destruct Hd as (Hk & -> & ->). rw (opair_kind _ _ k) // (cp_old _ _ _ _ _ _ _ _ _ _ C). by split; eauto. }
  assert (∀ p0 id0, iids s' p0 id0 ↔ iids s p0 id0) as Hi.
  { intros. rw !iids_opair (cp_pair _ _ _ _ _ _ _ _ _ _ C). case_decide as Hd; [|done].
    destruct Hd as (Hk & -> & ->). rw (opair_kind _ _ k) // (cp_old _ _ _ _ _ _ _ _ _ _ C). by split; eauto. }
  pose proof (cp_host _ _ _ _ _ _ _ _ _ _ C) as Hx.
  eapply (wf_same_graph s); try done; try apply C.
  { intros h'. rw (cp_hosts _ _ _ _ _ _ _ _ _ _ C) lookup_insert_is_Some.
    intros [<-|[_ ?]]; [by exists x|done]. }
  split.
  - intros k' id' h'. rw (changes_pair_member _ _ _ _ _ _ _ _ _ _ _ _ _ _ W C).
    unfold host_has. rw (cp_hosts _ _ _ _ _ _ _ _ _ _ C) insert_view.
    assert (member s k' id' h' ↔ host_has s k' id' h') as Hm by apply H1. unfold host_has in Hm.
    pose proof (λ k0, member_old s sfx k p id pr h' k0 W (cp_old _ _ _ _ _ _ _ _ _ _ C)) as Hold.
    destruct (decide (k' = k)) as [->|Hk].
    + rw pair_sel_with host_sel_with Hgh.
      pose proof (Hg h' (pair_sel k pr)) as Hg'.
      destruct (decide (scope_kind k = scope_kind k ∧ id' = id)) as [[_ ->]|Hid].
      * pose proof (Hold k eq_refl). destruct (decide (id = id)) as [_|[]]; [|done].
        assert (h = h) by done. destruct (decide (h' = h)) as [->|]; tauto.
      * destruct (decide (id' = id)); [by destruct Hid|]. rw Hm.
        destruct (decide (h' = h)) as [->|]; naive_solver.
    + rw host_sel_with_ne //. case_decide as Hd.
      * destruct Hd as [Hsk ->]. rw pair_sel_with_ne //. pose proof (Hold k' Hsk).
        destruct (decide (h' = h)) as [->|]; naive_solver.
      * rw Hm. destruct (decide (h' = h)) as [->|]; naive_solver.
  - intros n h'. rw (cp_hidx _ _ _ _ _ _ _ _ _ _ C) H2 (cp_hosts _ _ _ _ _ _ _ _ _ _ C) insert_view.
    destruct (decide (h' = h)) as [->|]; [|naive_solver]. destruct k; naive_solver.
Qed.

(** ** One member more, one member less *)

Definition set_pair (k : kind) p id (g : RemoteHostPair → RemoteHostPair) s : rv :=
  if scope_kind k
  then set_scopes (alter (λ x, sc_with_ids (ht_alter g id (sc_ids x)) x) p (scopes s)) s
  else set_items (alter (λ x, ii_with_ids (ht_alter g id (ii_ids x)) x) p (items s)) s.

Definition set_host h (g : RemoteHost → RemoteHost) s : rv := set_hosts (alter g h (hosts s)) s.

Lemma alter_insert {A} (m : gmap ptr A) p x g : m !! p = Some x → alter g p m = <[p := g x]> m.
Proof.
  intros Hx. apply map_eq. intros q. destruct (decide (q = p)) as [->|].
  - by rw lookup_alter_eq lookup_insert_eq Hx.
  - by rw lookup_alter_ne // lookup_insert_ne.
Qed.

Lemma set_pair_same_graph k p id g s : same_graph s (set_pair k p id g s).
Proof.
  unfold set_pair. destruct (scope_kind k); split; intros q; cbn [scopes items set_scopes set_items]; try done;
    (destruct (decide (q = p)) as [->|]; [rw lookup_alter_eq|by rw lookup_alter_ne]).
  - by destruct (scopes s !! p).
  - by destruct (items s !! p).
Qed.

Lemma alter_pair {A} (sel : A → IdsHashMap) (upd : IdsHashMap → A → A) (m : gmap ptr A) p id g p0 id0 :
  (∀ t x, sel (upd t x) = t) →
  (x ← alter (λ x, upd (ht_alter g id (sel x)) x) p m !! p0; ht_get id0 (sel x)) =
  if decide (p0 = p ∧ id0 = id) then g <$> (x ← m !! p0; ht_get id0 (sel x))
  else x ← m !! p0; ht_get id0 (sel x).
Proof.
  intros Hsel. destruct (decide (p0 = p)) as [->|Hp].
  - rw lookup_alter_eq. destruct (m !! p) as [x|]; cbn; [|by case_decide].
    rw Hsel ht_get_alter. case_decide; case_decide; naive_solver.
  - rw lookup_alter_ne //. by destruct (decide (p0 = p ∧ id0 = id)) as [[]|].
Qed.

Lemma set_pair_opair k p id g s k0 p0 id0 :
  opair (set_pair k p id g s) k0 p0 id0 =
  if decide (scope_kind k0 = scope_kind k ∧ p0 = p ∧ id0 = id) then g <$> opair s k0 p0 id0
  else opair s k0 p0 id0.
Proof.
  pose proof (alter_pair sc_ids sc_with_ids (scopes s) p id g p0 id0 (λ t x, eq_refl)) as HS.
  pose proof (alter_pair ii_ids ii_with_ids (items s) p id g p0 id0 (λ t x, eq_refl)) as HI.
  unfold set_pair, opair, spair, ipair.
  destruct k, k0; cbn [scope_kind scopes items set_scopes set_items];
    rw ?HS ?HI; clear HS HI; repeat case_decide; try done; exfalso; naive_solver.
Qed.

Lemma set_pair_changes s k p id g pr h x gh :
  opair s k p id = Some pr → hosts s !! h = Some x →
  changes_pair s (set_host h gh (set_pair k p id g s)) k p id pr (g pr) h x (gh x).
Proof.
  intros Hp Hx. assert (hosts (set_pair k p id g s) = hosts s) as Eh.
  { unfold set_pair. by destruct (scope_kind k). }
  split; try done.
  - etrans; [apply (set_pair_same_graph k p id g)|done].
  - intros k0 p0 id0. rw -[opair (set_host _ _ _) _ _ _]/(opair (set_pair k p id g s) k0 p0 id0).
    rw set_pair_opair. case_decide as Hd; [|done].
    destruct Hd as (Hk & -> & ->). by rw (opair_kind _ _ k) // Hp.
  - unfold set_pair. by destruct (scope_kind k).
  - unfold set_pair. by destruct (scope_kind k).
  - cbn. rw Eh. by apply alter_insert.
  - unfold set_pair. by destruct (scope_kind k).
  - unfold set_pair. by destruct (scope_kind k).
Qed.

(** Host [h] becomes a member of kind [k] under [id], in both places; or it
    stops being one. *)
Definition add_member (k : kind) p id h s : rv :=
  set_host h (host_with k (hs_insert id)) (set_pair k p id (pair_with k (hs_insert h)) s).
Definition del_member (k : kind) p id h s : rv :=
  set_host h (host_with k (ht_erase id)) (set_pair k p id (pair_with k (ht_erase h)) s).

Lemma wf_add_member s sfx k p id h pr :
  wf s sfx → opair s k p id = Some pr → is_Some (hosts s !! h) → wf (add_member k p id h s) sfx.
Proof.
  intros W Hp [x Hx].
  apply (changes_pair_wf s _ sfx k p id pr h x _ _ True W (set_pair_changes _ _ _ _ _ _ _ _ _ Hp Hx)).
  - intros h' t. rw hs_in_insert. case_decide; naive_solver.
  - intros id' t. rw hs_in_insert. case_decide; naive_solver.
Qed.

Lemma wf_del_member s sfx k p id h pr :
  wf s sfx → opair s k p id = Some pr → is_Some (hosts s !! h) → wf (del_member k p id h s) sfx.
Proof.
  intros W Hp [x Hx].
  apply (changes_pair_wf s _ sfx k p id pr h x _ _ False W (set_pair_changes _ _ _ _ _ _ _ _ _ Hp Hx)).
  - intros h' t. rw hs_in_erase. case_decide; naive_solver.
  - intros id' t. rw hs_in_erase. case_decide; naive_solver.
Qed.

Lemma add_member_member s sfx k p id h pr k' id' h' :
  wf s sfx → opair s k p id = Some pr → is_Some (hosts s !! h) →
  member (add_member k p id h s) k' id' h' ↔ member s k' id' h' ∨ (k' = k ∧ id' = id ∧ h' = h).
Proof.
  intros W Hp [x Hx]. pose proof (wf_add_member s sfx k p id h pr W Hp (ex_intro _ x Hx)) as W'.
  rw (wh_mirror _ (wf_h _ _ W')) (wh_mirror _ (wf_h _ _ W)). unfold host_has, add_member, set_host.
  assert (hosts (set_pair k p id (pair_with k (hs_insert h)) s) = hosts s) as Eh.
  { unfold set_pair. by destruct (scope_kind k). }
  cbn [hosts set_hosts]. rw Eh (alter_insert _ _ x) // insert_view.
  destruct (decide (h' = h)) as [->|]; [|naive_solver].
  destruct (decide (k' = k)) as [->|].
  - rw host_sel_with hs_in_insert. naive_solver.
  - rw host_sel_with_ne //. naive_solver.
Qed.

Lemma del_member_member s sfx k p id h pr k' id' h' :
  wf s sfx → opair s k p id = Some pr → is_Some (hosts s !! h) →
  member (del_member k p id h s) k' id' h' ↔ member s k' id' h' ∧ ¬ (k' = k ∧ id' = id ∧ h' = h).
Proof.
  intros W Hp [x Hx]. pose proof (wf_del_member s sfx k p id h pr W Hp (ex_intro _ x Hx)) as W'.
  rw (wh_mirror _ (wf_h _ _ W')) (wh_mirror _ (wf_h _ _ W)). unfold host_has, del_member, set_host.
  assert (hosts (set_pair k p id (pair_with k (ht_erase h)) s) = hosts s) as Eh.
  { unfold set_pair. by destruct (scope_kind k). }
  cbn [hosts set_hosts]. rw Eh (alter_insert _ _ x) // insert_view.
  destruct (decide (h' = h)) as [->|]; [|naive_solver].
  destruct (decide (k' = k)) as [->|].
  - rw host_sel_with hs_in_erase. naive_solver.
  - rw host_sel_with_ne //. naive_solver.
Qed.
End invariant.
