(* ===== verification/RvOps.v ===== *)
(** * Specifications of the building blocks of the rendezvous requests

    One rule per function of LocalRV, Scope and InformationItem that the
    request handlers call: what it needs of a well-formed state, the state it
    leaves and the messages it sends. *)

From S2P Require Import Prelude Enums HashTable BitVector Packet GlobalConf RvStore RvMessages LocalRV.
From S2P Require Import RvGraph RvUpdate RvInvariant.

Section ops.
Context `{CT : ClickTables}.
Implicit Types (s : rv) (p q f c : ptr) (id : bytes) (sfx : ptr → bytes).

(** ** Messages *)

Definition say (o : list rv_msg) s : rv := set_out (out s ++ o) s.

Lemma say_nil s : say [] s = s.
Proof. unfold say, set_out. destruct s; cbn. by rw app_nil_r. Qed.
Lemma say_say o o' s : say o' (say o s) = say (o ++ o') s.
Proof. unfold say, set_out. cbn. by rw app_assoc. Qed.
Lemma wf_say s sfx o : wf s sfx → wf (say o s) sfx.
Proof. apply wf_set_out. Qed.

(** What no request changes: who is there, the known root scopes, the proxy. *)
Record kept s s' : Prop := {
  kp_hosts : ∀ h, is_Some (hosts s' !! h) ↔ is_Some (hosts s !! h);
  kp_known : known_rootscopes s' = known_rootscopes s;
  kp_proxy : localProxy s' = localProxy s;
  kp_hidx : pub_sub_Index s' = pub_sub_Index s;
}.

#[export] Instance kept_preorder : PreOrder kept.
Proof.
  split; [done|]. intros s1 s2 s3 [A1 A2 A3 A4] [B1 B2 B3 B4].
  split; [|congruence..]. intros h. by rw B1 A1.
Qed.

Lemma kept_say s o : kept s (say o s).
Proof. done. Qed.

(** No message sent, and the name spaces as they were. *)
Definition quiet s s' : Prop :=
  out s' = out s ∧ rootScope_namesapce_Index s' = rootScope_namesapce_Index s.

(** The names of a list of hosts. *)
Definition names s (l : list ptr) : list bytes :=
  (λ h, from_option remoteHostID [] (hosts s !! h)) <$> l.
Definition alive_hosts s (t : PtrSet) : Prop := ∀ h, hs_in h t → is_Some (hosts s !! h).

Lemma wp_host_names l s (Q : list bytes → rv → Prop) :
  (∀ h, h ∈ l → is_Some (hosts s !! h)) → Q (names s l) s → wp (host_names l) Q s.
Proof.
  intros Hl HQ. unfold host_names.
  enough (∀ k acc, (∀ h, h ∈ k → is_Some (hosts s !! h)) →
    wp (mfoldl (λ acc h, x ← get_host h; mret (acc ++ [remoteHostID x])) acc k)
       (λ r s', r = acc ++ names s k ∧ s' = s) s) as Hg.
  { eapply wp_mono; [by apply Hg|]. by intros r s' [-> ->]. }
  clear HQ Hl. intros k. induction k as [|h k IH]; intros acc Hk; cbn [mfoldl].
  - apply wp_ret. by rw app_nil_r.
  - destruct (Hk h) as [x Hx]; [set_solver|]. wps. eapply wp_mono; [apply IH; set_solver|].
    intros r s' [-> ->]. split; [|done]. cbn. by rw Hx -app_assoc.
Qed.

(** What notifySubscribers sends. *)
Definition notify_msgs s (type : Z) (IDs : StringSet) (strategy : Z) (subscribers : PtrSet) : list rv_msg :=
  if strategy =? NODE_LOCAL then
    if ht_mem (localProxy s) subscribers then [LocalSubscriber type (ht_keys IDs)] else []
  else if (0 <? ht_size subscribers)%nat then
    [TMNotify type strategy (names s (ht_keys subscribers)) (ht_keys IDs)]
  else [].

Lemma wp_notifySubscribers type IDs strategy subscribers s (Q : () → rv → Prop) :
  alive_hosts s subscribers → Q () (say (notify_msgs s type IDs strategy subscribers) s) →
  wp (notifySubscribers type IDs strategy subscribers) Q s.
Proof.
  intros Ha HQ. unfold notifySubscribers, notify_msgs in *. destruct (strategy =? NODE_LOCAL).
  - wps. destruct (ht_mem _ _); [by apply wp_modify|]. apply wp_ret. by rw say_nil in HQ.
  - destruct (0 <? ht_size subscribers)%nat; [|apply wp_ret; by rw say_nil in HQ].
    unfold requestTMAssistanceForNotifyingSubscribers. apply wp_bind, wp_host_names; [|by apply wp_modify].
    intros h Hh%hs_in_keys. by apply Ha.
Qed.

(** What rendezvous sends for the item [i] at [pub]. *)
Definition rendezvous_msgs s (i : InformationItem) (subscribers : PtrSet) (update_only : bool) : list rv_msg :=
  let publishers := ids_getPublishers (ii_ids i) ht_empty in
  let IDs := ht_keys (ii_ids i) in
  let rt := request_of update_only MATCH_PUB_SUBS in
  if (0 <? ht_size publishers)%nat then
    if ii_strategy i =? NODE_LOCAL then
      [LocalPublisher (if (0 <? ht_size subscribers)%nat then request_of update_only START_PUBLISH
                       else STOP_PUBLISH) IDs (0 <? ht_size subscribers)%nat]
    else if ii_strategy i =? DOMAIN_LOCAL then
      match ht_first (ids_getRootScopes (ii_ids i) ht_empty) with
      | Some r =>
          if ht_mem r (known_rootscopes s) then
            (λ p, TMRendezvousUC rt (ii_strategy i) (from_option remoteHostID [] (hosts s !! p))
                    (names s (ht_keys subscribers)) IDs) <$> ht_keys publishers
          else [TMRendezvous rt (ii_strategy i) (names s (ht_keys publishers))
                  (names s (ht_keys subscribers)) IDs]
      | None => []
      end
    else []
  else [].

Lemma elem_of_getSubscribers (ids : IdsHashMap) acc h :
  hs_in h (ids_getSubscribers ids acc) ↔ hs_in h acc ∨ ∃ id pr, ht_get id ids = Some pr ∧ hs_in h pr.2.
Proof.
  unfold ids_getSubscribers.
  assert (∀ (l : list RemoteHostPair) (acc : PtrSet), hs_in h (foldl (λ acc pr, hs_insert_all (ht_keys pr.2) acc) acc l) ↔
    hs_in h acc ∨ ∃ pr : RemoteHostPair, pr ∈ l ∧ hs_in h pr.2) as Hf.
  { intros l. induction l as [|pr l IH]; intros acc'; cbn [foldl]; [set_solver|].
    rw IH hs_in_insert_all -hs_in_keys. set_solver. }
  rw Hf. setoid_rewrite elem_of_ht_vals. naive_solver.
Qed.
Lemma elem_of_getPublishers (ids : IdsHashMap) acc h :
  hs_in h (ids_getPublishers ids acc) ↔ hs_in h acc ∨ ∃ id pr, ht_get id ids = Some pr ∧ hs_in h pr.1.
Proof.
  unfold ids_getPublishers.
  assert (∀ (l : list RemoteHostPair) (acc : PtrSet), hs_in h (foldl (λ acc pr, hs_insert_all (ht_keys pr.1) acc) acc l) ↔
    hs_in h acc ∨ ∃ pr : RemoteHostPair, pr ∈ l ∧ hs_in h pr.1) as Hf.
  { intros l. induction l as [|pr l IH]; intros acc'; cbn [foldl]; [set_solver|].
    rw IH hs_in_insert_all -hs_in_keys. set_solver. }
  rw Hf. setoid_rewrite elem_of_ht_vals. naive_solver.
Qed.

Lemma pairs_alive s sfx k p id pr h :
  wf s sfx → opair s k p id = Some pr → hs_in h (pair_sel k pr) → is_Some (hosts s !! h).
Proof.
  intros W Hp Hh. assert (member s k id h) as (x & Hx & _)%(wh_mirror _ (wf_h _ _ W)) by (by exists p, pr).
  by exists x.
Qed.

Lemma item_publishers_alive s sfx p i :
  wf s sfx → items s !! p = Some i → alive_hosts s (ids_getPublishers (ii_ids i) ht_empty).
Proof.
  intros W Hi h [H%hs_in_empty|(id & pr & Hid & Hh)]%elem_of_getPublishers; [done|].
  apply (pairs_alive s sfx PubItem p id pr h W); [|done]. unfold opair, ipair. by rw Hi.
Qed.
Lemma item_subscribers_alive s sfx p i acc :
  wf s sfx → items s !! p = Some i → alive_hosts s acc → alive_hosts s (ids_getSubscribers (ii_ids i) acc).
Proof.
  intros W Hi Ha h [H|(id & pr & Hid & Hh)]%elem_of_getSubscribers; [by apply Ha|].
  apply (pairs_alive s sfx SubItem p id pr h W); [|done]. unfold opair, ipair. by rw Hi.
Qed.
Lemma scope_subscribers_alive s sfx p x acc :
  wf s sfx → scopes s !! p = Some x → alive_hosts s acc → alive_hosts s (ids_getSubscribers (sc_ids x) acc).
Proof.
  intros W Hi Ha h [H|(id & pr & Hid & Hh)]%elem_of_getSubscribers; [by apply Ha|].
  apply (pairs_alive s sfx SubScope p id pr h W); [|done]. unfold opair, spair. by rw Hi.
Qed.
Lemma alive_empty s : alive_hosts s ht_empty.
Proof. by intros h H%hs_in_empty. Qed.

(** Every object has an identifier. *)
Lemma scope_has_id s sfx p x : wf s sfx → scopes s !! p = Some x → ∃ id, is_Some (ht_get id (sc_ids x)).
Proof.
  intros W Hx. assert (isS s p) as HS by (by exists x).
  destruct (wf_named _ _ W p) as [id Hid]; [by left|]. exists id.
  apply (oid_scope _ _ _ _ (wf_s _ _ W) HS) in Hid as (y & Hy & H). naive_solver.
Qed.
Lemma item_has_id s sfx p i : wf s sfx → items s !! p = Some i → ∃ id, is_Some (ht_get id (ii_ids i)).
Proof.
  intros W Hx. assert (isI s p) as HI by (by exists i).
  destruct (wf_named _ _ W p) as [id [H%sids_isS|(y & Hy & H)]]; [by right| |].
  - by apply (ws_disj _ _ (wf_s _ _ W)) in H.
  - exists id. naive_solver.
Qed.

Lemma elem_of_getRootScopes (ids : IdsHashMap) r acc :
  hs_in r (ids_getRootScopes ids acc) ↔ hs_in r acc ∨ ∃ id, is_Some (ht_get id ids) ∧ r = first_fragment id.
Proof.
  unfold ids_getRootScopes. rw hs_in_insert_all list_elem_of_fmap. setoid_rewrite elem_of_ht_keys. naive_solver.
Qed.

Lemma roots_first s sfx p i acc : wf s sfx → items s !! p = Some i →
  ∃ r, ht_first (ids_getRootScopes (ii_ids i) acc) = Some r.
Proof.
  intros W Hi. destruct (item_has_id s sfx p i W Hi) as [id Hid].
  apply ht_first_nonempty. exists (first_fragment id). apply elem_of_getRootScopes. eauto.
Qed.

Lemma wp_rendezvous s sfx pub i subscribers update_only (Q : () → rv → Prop) :
  wf s sfx → items s !! pub = Some i → alive_hosts s subscribers →
  Q () (say (rendezvous_msgs s i subscribers update_only) s) →
  wp (rendezvous pub subscribers update_only) Q s.
Proof.
  intros W Hi Ha HQ. unfold rendezvous, InformationItem_getRootScopes, InformationItem_getPublishers. wps.
  unfold rendezvous_msgs in HQ.
  pose proof (item_publishers_alive s sfx pub i W Hi) as Hpub.
  destruct (0 <? ht_size (ids_getPublishers (ii_ids i) ht_empty))%nat; [|apply wp_ret; by rw say_nil in HQ].
  wps. destruct (ii_strategy i =? NODE_LOCAL).
  { unfold notifyLocalPublisher. wps. unfold emit. by apply wp_modify. }
  destruct (ii_strategy i =? DOMAIN_LOCAL); [|apply wp_ret; by rw say_nil in HQ].
  destruct (roots_first s sfx pub i ht_empty W Hi) as [r Hr]. rw Hr in HQ.
  unfold first_root_known. apply wp_bind, wp_bind. eapply wp_lift_opt; [done|]. wps.
  destruct (ht_mem r (known_rootscopes s)).
  - assert (∀ l o, (∀ p, p ∈ l → is_Some (hosts s !! p)) →
      wp (mfor l (λ p, requestTMAssistanceForRendezvous1 pub p subscribers update_only))
        (λ _ s', s' = say (o ++ ((λ p, TMRendezvousUC (request_of update_only MATCH_PUB_SUBS) (ii_strategy i)
          (from_option remoteHostID [] (hosts s !! p)) (names s (ht_keys subscribers)) (ht_keys (ii_ids i))) <$> l)) s)
        (say o s)) as Hloop.
    { intros l. induction l as [|p l IH]; intros o Hl; cbn [mfor].
      - apply wp_ret. by rw app_nil_r.
      - destruct (Hl p) as [x Hx]; [set_solver|]. apply wp_bind.
        unfold requestTMAssistanceForRendezvous1. apply wp_bind, (wp_get_item _ i); [done|].
        apply wp_bind, (wp_get_host _ x); [done|]. apply wp_bind, wp_host_names.
        { intros h Hh%hs_in_keys. by apply Ha. }
        apply wp_modify. change (set_out _ _) with (say [TMRendezvousUC (request_of update_only MATCH_PUB_SUBS) (ii_strategy i)
          (remoteHostID x) (names s (ht_keys subscribers)) (ht_keys (ii_ids i))] (say o s)).
        rw say_say. eapply wp_mono; [apply IH; set_solver|]. intros [] s' ->. f_equal.
        cbn. by rw Hx -app_assoc. }
    rw -{1}(say_nil s). eapply wp_mono; [apply Hloop|].
    { intros p Hp%hs_in_keys. by apply Hpub. }
    intros [] s' ->. exact HQ.
  - unfold requestTMAssistanceForRendezvous. wps. apply wp_host_names.
    { intros h Hh%hs_in_keys. by apply Hpub. }
    apply wp_bind, wp_host_names; [|by apply wp_modify].
    intros h Hh%hs_in_keys. by apply Ha.
Qed.

(** The subscribers [interested] collects, as a set. *)
Definition interested_in s pub h : Prop :=
  ∃ i, items s !! pub = Some i ∧
    ((∃ id pr, ht_get id (ii_ids i) = Some pr ∧ hs_in h pr.2) ∨
     ∃ f x id pr, hs_in f (ii_fatherScopes i) ∧ scopes s !! f = Some x ∧
       ht_get id (sc_ids x) = Some pr ∧ hs_in h pr.2).

Lemma wp_interested s sfx pub (Q : PtrSet → rv → Prop) :
  wf s sfx → isI s pub →
  (∀ subs, alive_hosts s subs → (∀ h, hs_in h subs ↔ interested_in s pub h) → Q subs s) →
  wp (interested pub) Q s.
Proof.
  intros W [i Hi] HQ. unfold interested, InformationItem_getSubscribers. wps.
  enough (∀ l acc, (∀ f, f ∈ l → isS s f) → alive_hosts s acc →
    wp (mfoldl (λ acc father, Scope_getSubscribers father acc) acc l)
      (λ subs s', s' = s ∧ alive_hosts s subs ∧ ∀ h, hs_in h subs ↔ hs_in h acc ∨
        ∃ f x id pr, f ∈ l ∧ scopes s !! f = Some x ∧ ht_get id (sc_ids x) = Some pr ∧ hs_in h pr.2) s) as Hg.
  { eapply wp_mono; [apply Hg|].
    - intros f Hf%hs_in_keys. eapply (edge_isS s f pub). right. apply (ws_holds _ _ (wf_s _ _ W)). by exists i.
    - eapply item_subscribers_alive; [done..|apply alive_empty].
    - intros subs s' (-> & Ha & Hs). apply HQ; [done|]. intros h. rw Hs elem_of_getSubscribers.
      unfold interested_in. setoid_rewrite hs_in_keys. split.
      + intros [[?%hs_in_keys%hs_in_empty|?]|?]; [done|exists i; split; [done|by left]|exists i; split; [done|by right]].
      + intros (i' & Hi' & H'). rw Hi in Hi'. injection Hi' as <-. destruct H'; [left; by right|by right]. }
  clear HQ. intros l. induction l as [|f l IH]; intros acc Hl Ha; cbn [mfoldl].
  - apply wp_ret. split_and!; [done..|]. intros h. split; [by left|].
    intros [?|(f & x & id & pr & Hf & _)]; [done|]. by apply elem_of_nil in Hf.
  - destruct (Hl f) as [x Hx]; [by left|]. apply wp_bind.
    apply wp_bind, (wp_get_scope _ x); [done|]. apply wp_ret.
    eapply wp_mono; [apply IH; [intros; apply Hl; by right|by eapply scope_subscribers_alive]|].
    intros subs s' (-> & Ha' & Hs). split_and!; [done..|]. intros h. rw Hs elem_of_getSubscribers. split.
    + intros [[?|(id & pr & ? & ?)]|(g & y & id & pr & ? & ?)]; [by left|right|right].
      * exists f, x, id, pr. split; [by left|done].
      * exists g, y, id, pr. split; [by right|done].
    + intros [?|(g & y & id & pr & [->|Hg]%elem_of_cons & Hy & ? & ?)]; [by left; left| |].
      * left. right. simplify_eq. eauto.
      * right. exists g, y, id, pr. eauto.
Qed.

(** ** Members *)

(** The updatePublishers / updateSubscribers method of each kind. *)
Definition update_members (k : kind) : ptr → bytes → ptr → R bool :=
  match k with
  | PubScope => Scope_updatePublishers | SubScope => Scope_updateSubscribers
  | PubItem => InformationItem_updatePublishers | SubItem => InformationItem_updateSubscribers
  end.

(** What they return for a host that is already a member: Scope's
    updateSubscribers says [true]. *)
Definition again (k : kind) : bool := match k with SubScope => true | _ => false end.

Lemma set_scopes_id s p x : scopes s !! p = Some x → set_scopes (<[p := sc_with_ids (sc_ids x) x]> (scopes s)) s = s.
Proof. intros Hx. destruct s, x; unfold set_scopes, sc_with_ids; cbn in *. by rw insert_id. Qed.
Lemma set_items_id s p x : items s !! p = Some x → set_items (<[p := ii_with_ids (ii_ids x) x]> (items s)) s = s.
Proof. intros Hx. destruct s, x; unfold set_items, ii_with_ids; cbn in *. by rw insert_id. Qed.

Lemma wp_update_members k s p id h pr (Q : bool → rv → Prop) :
  opair s k p id = Some pr →
  (hs_in h (pair_sel k pr) → Q (again k) s) →
  (¬ hs_in h (pair_sel k pr) → Q true (set_pair k p id (pair_with k (hs_insert h)) s)) →
  wp (update_members k p id h) Q s.
Proof.
  intros Hp Hin Hout. unfold opair, spair, ipair in Hp.
  destruct k; cbn [update_members pair_sel again pair_with set_pair scope_kind] in *;
    unfold Scope_updatePublishers, Scope_updateSubscribers, InformationItem_updatePublishers,
      InformationItem_updateSubscribers, ids_updatePublishers, ids_updateSubscribers.
  1,2: destruct (scopes s !! p) as [x|] eqn:Hx; [|done]; cbn in Hp; wps; rw Hp;
    destruct (ht_mem h _) eqn:Hm; wps;
    [rw set_scopes_id //; by apply Hin, ht_mem_true|unfold set_pair in Hout; cbn [scope_kind] in Hout;
     rw -(alter_insert _ _ _ (λ x, sc_with_ids (ht_alter _ id (sc_ids x)) x) Hx); apply Hout;
     intros ?%ht_mem_true; congruence].
  1,2: destruct (items s !! p) as [x|] eqn:Hx; [|done]; cbn in Hp; wps; rw Hp;
    destruct (ht_mem h _) eqn:Hm; wps;
    [rw set_items_id //; by apply Hin, ht_mem_true|unfold set_pair in Hout; cbn [scope_kind] in Hout;
     rw -(alter_insert _ _ _ (λ x, ii_with_ids (ht_alter _ id (ii_ids x)) x) Hx); apply Hout;
     intros ?%ht_mem_true; congruence].
Qed.

Definition host_add (k : kind) : bytes → RemoteHost → RemoteHost :=
  match k with
  | PubScope => host_add_pubScope | SubScope => host_add_subScope
  | PubItem => host_add_pubInfo | SubItem => host_add_subInfo
  end.
Definition host_del (k : kind) : bytes → RemoteHost → RemoteHost :=
  match k with
  | PubScope => host_del_pubScope | SubScope => host_del_subScope
  | PubItem => host_del_pubInfo | SubItem => host_del_subInfo
  end.

Lemma wp_set_host h g s (Q : () → rv → Prop) :
  is_Some (hosts s !! h) → Q () (set_host h g s) → wp (upd_host h g) Q s.
Proof.
  intros [x Hx] HQ. eapply wp_upd_host; [done|]. unfold set_host in HQ. by rw (alter_insert _ _ x) in HQ.
Qed.

Lemma hs_insert_in (k : bytes) (t : StringSet) : hs_in k t → hs_insert k t = t.
Proof. intros [[] Hk]. unfold hs_insert, ht_find_insert. by rw Hk. Qed.

Lemma add_member_kept k p id h s : kept s (add_member k p id h s).
Proof.
  unfold add_member, set_host, set_pair. split; [|by destruct (scope_kind k)..].
  intros h'. cbn [hosts set_hosts]. rw lookup_alter_is_Some. by destruct (scope_kind k).
Qed.
Lemma grow_kept s s' : grow s s' → kept s s'.
Proof.
  intros G. pose proof (gr_rest _ _ G) as E. unfold rest in E.
  injection E as E1 E2 E3 E4 E5 E6 E7. split; [|done..]. intros h. by rw E1.
Qed.

(** Add a member of kind [k] and record it in the host, as every publish and
    subscribe request does; then go on with [m]. *)
Lemma wp_add_member k s sfx p id h pr (m : R ()) (Q : RvReturnCode → rv → Prop) :
  wf s sfx → opair s k p id = Some pr → is_Some (hosts s !! h) →
  (hs_in h (pair_sel k pr) → again k = false → Q EXISTS s) →
  (∀ s', wf s' sfx → s' = (if decide (hs_in h (pair_sel k pr)) then s else add_member k p id h s) →
    (∀ k' id' h', member s' k' id' h' ↔ member s k' id' h' ∨ (k' = k ∧ id' = id ∧ h' = h)) →
    (hs_in h (pair_sel k pr) → again k = true) →
    kept s s' → quiet s s' → same_graph s s' →
    wp m (λ _, Q SUCCESS) s') →
  wp (added ← update_members k p id h; when_added added (upd_host h (host_add k id);; m)) Q s.
Proof.
  intros W Hp Hh Hex Hok. apply wp_bind. destruct (decide (hs_in h (pair_sel k pr))) as [Hin|Hout].
  - eapply wp_update_members; [done| |done]. intros _. unfold when_added.
    destruct (again k) eqn:Ha; [|by apply wp_ret, Hex].
    apply wp_bind, wp_bind. apply wp_set_host; [done|].
    assert (set_host h (host_add k id) s = s) as ->.
    { assert (member s k id h) as (x & Hx & Hxid)%(wh_mirror _ (wf_h _ _ W)) by (by exists p, pr).
      unfold set_host. rw (alter_insert _ _ x) //. rw insert_id; [by destruct s|]. rw Hx. f_equal.
      destruct k, x; cbn in *; unfold host_add_pubScope, host_add_subScope, host_add_pubInfo, host_add_subInfo;
        cbn; by rw hs_insert_in. }
    cbv beta. eapply wp_mono; [apply (Hok s); try done|].
    + intros k' id' h'. split; [auto|]. intros [?|(-> & -> & ->)]; [done|by exists p, pr].
    + intros [] s' HQ. by apply wp_ret.
  - eapply wp_update_members; [done|done|]. intros _. unfold when_added. apply wp_bind, wp_bind.
    apply wp_set_host.
    { unfold set_pair. by destruct (scope_kind k). }
    cbv beta. change (set_host h (host_add k id) _) with (set_host h (host_add k id) (set_pair k p id (pair_with k (hs_insert h)) s)).
    assert (host_add k id = host_with k (hs_insert id)) as -> by (by destruct k).
    eapply wp_mono; [apply Hok|].
    + by eapply wf_add_member.
    + done.
    + intros. by eapply add_member_member.
    + done.
    + apply add_member_kept.
    + unfold add_member, set_pair. by destruct (scope_kind k).
    + etrans; [apply (set_pair_same_graph k p id (pair_with k (hs_insert h)))|]. by split.
    + intros [] s' HQ. by apply wp_ret.
Qed.

Lemma when_added_ret b (m : R ()) s : when_added b (m;; mret ()) s = when_added b m s.
Proof.
  unfold when_added, mbind, M_bind, mret, M_ret. destruct b; [|done]. by destruct (m s) as [[[] s']|].
Qed.

(** The same with nothing to do afterwards. *)
Lemma wp_add_member0 k s sfx p id h pr (Q : RvReturnCode → rv → Prop) :
  wf s sfx → opair s k p id = Some pr → is_Some (hosts s !! h) →
  (hs_in h (pair_sel k pr) → Q EXISTS s) →
  (∀ s', wf s' sfx → (∀ k' id' h', member s' k' id' h' ↔ member s k' id' h' ∨ (k' = k ∧ id' = id ∧ h' = h)) →
    (hs_in h (pair_sel k pr) → again k = true) →
    kept s s' → quiet s s' → same_graph s s' → Q SUCCESS s') →
  wp (added ← update_members k p id h; when_added added (upd_host h (host_add k id))) Q s.
Proof.
  intros W Hp Hh Hex Hok.
  assert (∀ b s1, wp (when_added b (upd_host h (host_add k id);; mret ())) Q s1 →
    wp (when_added b (upd_host h (host_add k id))) Q s1) as Hr.
  { intros b s1. unfold wp. by rw when_added_ret. }
  apply wp_bind. eapply wp_mono; [|intros b s1; apply Hr]. apply wp_bind_inv.
  eapply wp_add_member; [done..|auto|]. intros. apply wp_ret. by apply Hok.
Qed.
End ops.
