(* ===== verification/RvAdd.v ===== *)
(** * New nodes and new edges

    The parts of the publish and subscribe requests that make the graph
    larger: a new root, a new inner scope or item, a republished scope, a
    readvertised item. *)

From S2P Require Import Prelude Enums HashTable RvStore LocalRV RvGraph RvUpdate RvInvariant RvOps.

Section add.
Context `{CT : ClickTables}.
Implicit Types (s : rv) (p q f c : ptr) (id r : bytes) (sfx : ptr → bytes).

(** ** Extension, then update *)

(** [s1] extends [s] by at most the node [p] and by edges to [p]; the
    identifiers are those of [s]. *)
Record extends_at p s s1 sfx sfx' : Prop := {
  ea_wf : wf s sfx;
  ea_struct : wf_struct s1 sfx';
  ea_old : ∀ q, isS s q ∨ isI s q → sfx' q = sfx q;
  ea_alive : ∀ q, isS s1 q ∨ isI s1 q → q = p ∨ isS s q ∨ isI s q;
  ea_root : ∀ q, root s1 q ↔ root s q;
  ea_edge : ∀ f c, edge s f c → edge s1 f c;
  ea_new : ∀ f c, edge s1 f c → edge s f c ∨ c = p;
  ea_sids : ∀ q id, sids s1 q id ↔ sids s q id;
  ea_iids : ∀ q id, iids s1 q id ↔ iids s q id;
  ea_sidx : ∀ id, ht_get id (scopeIndex s1) = ht_get id (scopeIndex s);
  ea_pidx : ∀ id, ht_get id (pubIndex s1) = ht_get id (pubIndex s);
  ea_hosts : wf_hosts s1;
  ea_father : ∃ f, edge s1 f p ∧ isS s f;
}.

Section extends_at.
Context p s s1 sfx sfx' (X : extends_at p s s1 sfx sfx').

Lemma ea_oid q id : oid s1 q id ↔ oid s q id.
Proof. unfold oid. by rw (ea_sids _ _ _ _ _ X) (ea_iids _ _ _ _ _ X). Qed.

Lemma ea_path id q : path s sfx id q → path s1 sfx' id q.
Proof.
  pose proof (wf_s _ _ (ea_wf _ _ _ _ _ X)) as W.
  induction 1 as [q Hq|id f c Hp IH He].
  - rw -(ea_old _ _ _ _ _ X q); [|left; by apply root_isS]. constructor. by apply (ea_root _ _ _ _ _ X).
  - rw -(ea_old _ _ _ _ _ X c); [|by eapply edge_alive]. apply (path_edge _ _ _ f); [done|].
    by apply (ea_edge _ _ _ _ _ X).
Qed.

Lemma ea_sub : wf_sub s1 sfx'.
Proof.
  pose proof (wf_b _ _ (ea_wf _ _ _ _ _ X)) as B. split; intros id q.
  - rw (ea_sidx _ _ _ _ _ X) (ea_sids _ _ _ _ _ X). apply B.
  - rw (ea_pidx _ _ _ _ _ X) (ea_iids _ _ _ _ _ X). apply B.
  - intros Hid%ea_oid%(wb_path _ _ B). by apply ea_path.
Qed.

Lemma ea_roots q : root s1 q → oid s1 q (sfx' q).
Proof.
  intros Hq%(ea_root _ _ _ _ _ X). apply ea_oid. rw (ea_old _ _ _ _ _ X); [|left; by apply root_isS].
  apply (wf_full _ _ (ea_wf _ _ _ _ _ X)). by constructor.
Qed.

Lemma ea_closed f c : edge s1 f c → c ≠ p → closed s1 sfx' f c.
Proof.
  intros He Hc. destruct (ea_new _ _ _ _ _ X f c He) as [He'|]; [|done]. intros id Hid%ea_oid.
  apply ea_oid. rw (ea_old _ _ _ _ _ X); [|eapply edge_alive; [apply (wf_s _ _ (ea_wf _ _ _ _ _ X))|done]].
  by apply (closed_of_full s sfx (wf_b _ _ (ea_wf _ _ _ _ _ X)) (wf_full _ _ (ea_wf _ _ _ _ _ X)) f c He').
Qed.

Lemma ea_named f c : edge s1 f c → c ≠ p → ∃ id, oid s1 c id.
Proof.
  intros He Hc. destruct (ea_new _ _ _ _ _ X f c He) as [He'|]; [|done].
  destruct (wf_named _ _ (ea_wf _ _ _ _ _ X) c) as [id Hid].
  { eapply edge_alive; [apply (wf_s _ _ (ea_wf _ _ _ _ _ X))|done]. }
  exists id. by apply ea_oid.
Qed.

(** Once every path is an identifier, the state is well-formed. *)
Lemma ea_wf' s' : grow s1 s' → wf_sub s' sfx' → (∀ id q, path s' sfx' id q → oid s' q id) → wf s' sfx'.
Proof.
  intros G B F. pose proof (ea_struct _ _ _ _ _ X) as W1.
  split; [by eapply grow_wf_struct|done|done| |by apply (grow_wf_hosts _ _ G), (ea_hosts _ _ _ _ _ X)].
  intros q. rw (grow_isS _ _ G) (grow_isI _ _ G).
  intros [->|Hq]%(ea_alive _ _ _ _ _ X).
  - destruct (ea_father _ _ _ _ _ X) as (f & He & Hf).
    destruct (wf_named _ _ (ea_wf _ _ _ _ _ X) f) as [id Hid]; [by left|].
    exists (id ++ sfx' p). apply F, (grow_path _ _ G), (path_edge _ _ _ f); [|done].
    by apply ea_path, (wb_path _ _ (wf_b _ _ (ea_wf _ _ _ _ _ X))).
  - destruct (wf_named _ _ (ea_wf _ _ _ _ _ X) q Hq) as [id Hid]. exists id.
    by apply (grow_oid _ _ G), ea_oid.
Qed.

Lemma ea_update_scope : isS s1 p →
  wp (Scope_recursivelyUpdateIDs p (sfx' p)) (λ _ s', wf s' sfx' ∧ grow s1 s') s1.
Proof.
  intros HS. eapply wp_mono.
  - apply (Scope_recursivelyUpdateIDs_spec s1 sfx' p);
      [apply X|apply ea_sub|done|apply ea_roots|apply ea_closed|apply ea_named].
  - intros [] s' [U F]. split; [|apply U]. apply ea_wf'; [apply U|apply U|done].
Qed.

Lemma ea_update_item : isI s1 p →
  wp (InformationItem_updateIDs p (sfx' p)) (λ _ s', wf s' sfx' ∧ grow s1 s') s1.
Proof.
  intros HI. pose proof (ea_struct _ _ _ _ _ X) as W1. eapply wp_mono.
  - apply (InformationItem_updateIDs_spec s1 sfx' p); [done|apply ea_sub|done].
  - intros [] s' [S C]. pose proof (st_grow _ _ _ _ S) as G. split; [|done].
    apply ea_wf'; [done|apply S|]. apply full_of_closed.
    + intros q Hq%(grow_root _ _ G). by apply (grow_oid _ _ G), ea_roots.
    + intros f c He%(grow_edge _ _ G). destruct (decide (c = p)) as [->|Hc]; [by apply C|].
      apply (up_keep _ _ _ _ (updated_item _ _ _ _ W1 HI S C)); [done|by apply ea_closed].
Qed.
End extends_at.

(** The identifiers afterwards: those of before, and for [p] and what is
    below it those of the new paths. *)
Lemma wf_index_path s sfx id p : wf s sfx → isS s p →
  ht_get id (scopeIndex s) = Some p ↔ path s sfx id p.
Proof.
  intros W HS. rw (wb_sidx _ _ (wf_b _ _ W)). rw -(oid_scope s sfx) //; [|apply W].
  split; [apply (wb_path _ _ (wf_b _ _ W))|apply (wf_full _ _ W)].
Qed.
Lemma find_scope_path s sfx id p : wf s sfx → ht_get id (scopeIndex s) = Some p → path s sfx id p ∧ isS s p.
Proof.
  intros W Hp. assert (isS s p) as HS by (by eapply sids_isS, (wb_sidx _ _ (wf_b _ _ W))).
  split; [|done]. by apply wf_index_path.
Qed.
Lemma find_item_path s sfx id p : wf s sfx → ht_get id (pubIndex s) = Some p → path s sfx id p ∧ isI s p.
Proof.
  intros W Hp. apply (wb_pidx _ _ (wf_b _ _ W)) in Hp. split; [|by eapply iids_isI].
  apply (wb_path _ _ (wf_b _ _ W)). by right.
Qed.
(** A path leads to an index. *)
Lemma path_find s sfx id p : wf s sfx → path s sfx id p →
  ht_get id (scopeIndex s) = Some p ∨ ht_get id (pubIndex s) = Some p.
Proof.
  intros W [H|H]%(wf_full _ _ W); [left; by apply (wb_sidx _ _ (wf_b _ _ W))|
    right; by apply (wb_pidx _ _ (wf_b _ _ W))].
Qed.

(** A free full identifier means a free name among the siblings. *)
Lemma free_name s sfx f pre r : wf s sfx → path s sfx pre f →
  ht_get (pre ++ r) (scopeIndex s) = None → ht_get (pre ++ r) (pubIndex s) = None →
  ∀ d, edge s f d → sfx d ≠ r.
Proof.
  intros W Hf Hs Hi d He <-.
  assert (path s sfx (pre ++ sfx d) d) as Hp by (by eapply path_edge).
  destruct (path_find _ _ _ _ W Hp); congruence.
Qed.

(** ** A new inner scope *)

Definition sfx_set p r sfx : ptr → bytes := λ q, if decide (q = p) then r else sfx q.

Definition new_scope f (st : Z) s : rv :=
  set_scopes (alter (λ x, sc_with_children (hs_insert (next s) (sc_childrenScopes x)) x) f
    (<[next s := mkScope ht_empty false (hs_insert f ht_empty) ht_empty ht_empty st]> (scopes s)))
    (set_next (S (next s)) s).

Lemma next_fresh s sfx : wf_struct s sfx → scopes s !! next s = None ∧ items s !! next s = None.
Proof.
  intros W. split; apply eq_None_not_Some; intros H;
    [pose proof (ws_next _ _ W (next s) (or_introl H))|pose proof (ws_next _ _ W (next s) (or_intror (or_introl H)))]; lia.
Qed.

Lemma wp_Scope_new_inner st f s sfx (Q : ptr → rv → Prop) :
  wf_struct s sfx → isS s f → Q (next s) (new_scope f st s) → wp (Scope_new st (Some f)) Q s.
Proof.
  intros W [x Hx] HQ. unfold Scope_new, alloc. apply wp_bind. unfold wp at 1. apply wp_bind, wp_modify.
  apply wp_bind. destruct (next_fresh s sfx W) as [Hn _].
  assert (f ≠ next s) by (intros ->; congruence).
  eapply wp_upd_scope; [cbn; by rw lookup_insert_ne|]. apply wp_ret. cbn [scopes set_scopes].
  unfold new_scope in HQ. by rw (alter_insert _ _ x) in HQ; [|by rw lookup_insert_ne].
Qed.

Section new_scope.
Context s sfx f (st : Z) r (W : wf s sfx) (Hf : isS s f) (Hr : length r = PURSUIT_ID_LEN)
  (Hfree : ∀ d, edge s f d → sfx d ≠ r).
Let p := next s.
Let s1 := new_scope f st s.
Let sfx' := sfx_set p r sfx.

Lemma new_scope_lookup q : scopes s1 !! q =
  if decide (q = p) then Some (mkScope ht_empty false (hs_insert f ht_empty) ht_empty ht_empty st)
  else if decide (q = f) then (λ x, sc_with_children (hs_insert p (sc_childrenScopes x)) x) <$> scopes s !! q
  else scopes s !! q.
Proof.
  unfold s1, new_scope. cbn [scopes set_scopes]. destruct (next_fresh s sfx (wf_s _ _ W)) as [Hn _].
  assert (f ≠ p) by (intros ->; destruct Hf as [x Hx]; unfold p in Hx; congruence).
  destruct (decide (q = f)) as [->|].
  - rw lookup_alter_eq decide_False // lookup_insert_ne //.
  - rw lookup_alter_ne //. case_decide as Hq; [rw Hq; by rw lookup_insert_eq|by rw lookup_insert_ne].
Qed.

Lemma new_scope_view (P : Scope → Prop) q :
  (∃ x, scopes s1 !! q = Some x ∧ P x) ↔
    (q = p ∧ P (mkScope ht_empty false (hs_insert f ht_empty) ht_empty ht_empty st)) ∨
    (∃ x, scopes s !! q = Some x ∧ P (if decide (q = f) then sc_with_children (hs_insert p (sc_childrenScopes x)) x else x)).
Proof.
  rw new_scope_lookup. destruct (next_fresh s sfx (wf_s _ _ W)) as [Hn _]. fold p in Hn.
  destruct (decide (q = p)) as [->|]; [rw Hn; naive_solver|].
  case_decide; destruct (scopes s !! q); naive_solver.
Qed.

Lemma new_scope_extends : extends s s1 (λ q, q = p) (λ _, False) (λ _, False)
  (λ a c, a = f ∧ c = p) (λ _ _, False).
Proof.
  split.
  - intros q. unfold isS at 1. rw new_scope_lookup. destruct (decide (q = p)) as [->|]; [naive_solver|].
    unfold isS. case_decide; rw ?fmap_is_Some; naive_solver.
  - intros q. unfold isI. cbn. tauto.
  - intros q. unfold root. rw new_scope_view. cbn. case_decide; naive_solver.
  - intros a c. unfold child. rw new_scope_view. cbn. split.
    + intros [[_ H%hs_in_empty]|(x & Hx & H)]; [done|]. case_decide as Ha; [|eauto].
      apply hs_in_insert in H as [->|H]; [by right|eauto].
    + intros [(x & Hx & H)|[-> ->]]; right.
      * exists x. split; [done|]. case_decide; [|done]. apply hs_in_insert. by right.
      * destruct Hf as [x Hx]. exists x. split; [done|]. rw decide_True //. apply hs_in_insert. by left.
  - intros a c. unfold sfather. rw new_scope_view. cbn. split.
    + intros [[-> H%hs_in_insert]|(x & Hx & H)].
      * destruct H as [->|H%hs_in_empty]; [by right|done].
      * left. exists x. split; [done|]. by case_decide.
    + intros [(x & Hx & H)|[-> ->]].
      * right. exists x. split; [done|]. by case_decide.
      * left. split; [done|]. apply hs_in_insert. by left.
  - intros a c. unfold holds. rw new_scope_view. cbn. split.
    + intros [[_ H%hs_in_empty]|(x & Hx & H)]; [done|]. left. exists x. split; [done|]. by case_decide.
    + intros [(x & Hx & H)|[]]. right. exists x. split; [done|]. by case_decide.
  - intros a c. unfold ifather. cbn. tauto.
  - done.
  - cbn. lia.
Qed.

Lemma new_scope_sids q id : sids s1 q id ↔ sids s q id.
Proof.
  unfold sids. rw new_scope_view. cbn. rw ht_get_empty. split.
  - intros [[_ []]|(x & Hx & H)]; [done|]. exists x. split; [done|]. by case_decide.
  - intros (x & Hx & H). right. exists x. split; [done|]. by case_decide.
Qed.

Lemma new_scope_member k id h : member s1 k id h ↔ member s k id h.
Proof.
  unfold member. destruct k; try done; unfold opair, spair;
  (enough (∀ q pr, (x ← scopes s1 !! q; ht_get id (sc_ids x)) = Some pr ↔
    (x ← scopes s !! q; ht_get id (sc_ids x)) = Some pr) as H by (by setoid_rewrite H));
  intros q pr; rw new_scope_lookup; (destruct (decide (q = p)) as [->|];
    [destruct (next_fresh s sfx (wf_s _ _ W)) as [Hn _]; fold p in Hn; rw Hn; cbn; by rw ht_get_empty|]);
  case_decide; [|done|  |done]; by destruct (scopes s !! q).
Qed.

Lemma new_scope_acyclic q : ¬ tc (child s1) q q.
Proof.
  pose proof (wf_s _ _ W) as W0. apply (acyclic_add_edge (child s) _ f p).
  - intros u v. rw (ex_child _ _ _ _ _ _ _ new_scope_extends). done.
  - apply W0.
  - destruct (next_fresh s sfx W0) as [Hn _]. fold p in Hn.
    intros Hp. apply rtc_inv in Hp as [E|(y & [x Hx]%child_isS & _)]; [|congruence].
    destruct Hf as [x Hx]. rw -E in Hx. congruence.
Qed.

Lemma sfx_set_old q : isS s q ∨ isI s q → sfx' q = sfx q.
Proof.
  intros Hq. unfold sfx', sfx_set. case_decide as E; [|done]. subst q. exfalso.
  pose proof (ws_next _ _ (wf_s _ _ W) p). unfold p in *. destruct Hq; naive_solver lia.
Qed.
Lemma sfx_set_new : sfx' p = r.
Proof. unfold sfx', sfx_set. by case_decide. Qed.

Lemma new_scope_at : extends_at p s s1 sfx sfx'.
Proof.
  pose proof (wf_s _ _ W) as W0. destruct (next_fresh s sfx W0) as [HnS HnI]. fold p in HnS, HnI.
  pose proof new_scope_extends as X.
  split; try done.
  - eapply (wf_struct_extend s s1 sfx sfx'); [done|exact X|..]; try done.
    + intros q [->|[]]. split_and!; [intros [? ?]; congruence|intros [? ?]; congruence|
        by rw sfx_set_new|cbn; unfold p; lia].
    + apply sfx_set_old.
    + by intros q -> [].
    + intros q ->. split; [done|]. intros H. by destruct (H f).
    + intros a c [-> ->] Hrt%root_isS. destruct Hrt. congruence.
    + intros a c d [[-> ->]|[]]. rw sfx_set_new. intros [Hd|[[_ ->]|[]]]; [|done].
      rw sfx_set_old; [|by eapply edge_alive]. intros E. by destruct (Hfree d Hd).
    + apply new_scope_acyclic.
  - apply sfx_set_old.
  - intros q. rw (ex_isS _ _ _ _ _ _ _ X) (ex_isI _ _ _ _ _ _ _ X). tauto.
  - intros q. rw (ex_root _ _ _ _ _ _ _ X). tauto.
  - intros a c. unfold edge. rw (ex_child _ _ _ _ _ _ _ X) (ex_holds _ _ _ _ _ _ _ X). tauto.
  - intros a c. unfold edge. rw (ex_child _ _ _ _ _ _ _ X) (ex_holds _ _ _ _ _ _ _ X). tauto.
  - apply new_scope_sids.
  - destruct (wf_h _ _ W) as [H1 H2]. split; [|done]. intros. rw new_scope_member. apply H1.
  - exists f. split; [|done]. left. apply (ex_child _ _ _ _ _ _ _ X). by right.
Qed.
End new_scope.

(** ** A new information item *)

Definition new_item f (st : Z) s : rv :=
  set_scopes (alter (λ x, sc_with_items (hs_insert (next s) (sc_informationitems x)) x) f (scopes s))
    (set_items (<[next s := mkItem ht_empty (hs_insert f ht_empty) st]> (items s))
      (set_next (S (next s)) s)).

Lemma wp_InformationItem_new st f s (Q : ptr → rv → Prop) :
  isS s f → Q (next s) (new_item f st s) → wp (InformationItem_new st f) Q s.
Proof.
  intros [x Hx] HQ. unfold InformationItem_new, alloc. apply wp_bind. unfold wp at 1. apply wp_bind, wp_modify.
  apply wp_bind. eapply wp_upd_scope; [done|]. apply wp_ret. cbn [scopes items set_scopes set_items set_next].
  unfold new_item in HQ. by rw (alter_insert _ _ x) in HQ.
Qed.

Section new_item.
Context s sfx f (st : Z) r (W : wf s sfx) (Hf : isS s f) (Hr : length r = PURSUIT_ID_LEN)
  (Hfree : ∀ d, edge s f d → sfx d ≠ r).
Let p := next s.
Let s1 := new_item f st s.
Let sfx' := sfx_set p r sfx.

Lemma new_item_scopes q : scopes s1 !! q =
  if decide (q = f) then (λ x, sc_with_items (hs_insert p (sc_informationitems x)) x) <$> scopes s !! q
  else scopes s !! q.
Proof.
  unfold s1, new_item. cbn [scopes set_scopes].
  case_decide as E; [rw E; by rw lookup_alter_eq|by rw lookup_alter_ne].
Qed.

Lemma new_item_view (P : Scope → Prop) q :
  (∃ x, scopes s1 !! q = Some x ∧ P x) ↔
    ∃ x, scopes s !! q = Some x ∧ P (if decide (q = f) then sc_with_items (hs_insert p (sc_informationitems x)) x else x).
Proof. rw new_item_scopes. case_decide; destruct (scopes s !! q); naive_solver. Qed.

(** What the new entry in the father's item set does not touch. *)
Lemma new_item_view_same (P : Scope → Prop) q :
  (∀ t x, P (sc_with_items t x) ↔ P x) →
  (∃ x, scopes s1 !! q = Some x ∧ P x) ↔ ∃ x, scopes s !! q = Some x ∧ P x.
Proof.
  intros HP. rw new_item_view. split; intros (x & Hx & H); exists x; (split; [done|]); case_decide; try done;
    by apply HP in H || by apply HP.
Qed.

Lemma new_item_extends : extends s s1 (λ _, False) (λ q, q = p) (λ _, False)
  (λ _ _, False) (λ a c, a = f ∧ c = p).
Proof.
  split.
  - intros q. unfold isS. rw new_item_scopes. case_decide; rw ?fmap_is_Some; tauto.
  - intros q. unfold isI, s1. cbn. rw insert_is_Some. tauto.
  - intros q. unfold root. rw new_item_view_same //. tauto.
  - intros a c. unfold child. rw new_item_view_same //. tauto.
  - intros a c. unfold sfather. rw new_item_view_same //. tauto.
  - intros a c. unfold holds. rw new_item_view. split.
    + intros (x & Hx & H). case_decide as Ha; [|eauto].
      apply hs_in_insert in H as [->|H]; [by right|eauto].
    + intros [(x & Hx & H)|[-> ->]].
      * exists x. split; [done|]. case_decide; [|done]. apply hs_in_insert. by right.
      * destruct Hf as [x Hx]. exists x. split; [done|]. rw decide_True //. apply hs_in_insert. by left.
  - intros a c. unfold ifather, s1. cbn. rw insert_view. cbn. fold p.
    destruct (next_fresh s sfx (wf_s _ _ W)) as [_ Hn]. fold p in Hn. split.
    + intros [[-> H%hs_in_insert]|(_ & x & Hx & H)]; [|eauto].
      destruct H as [->|H%hs_in_empty]; [by right|done].
    + intros [(x & Hx & H)|[-> ->]].
      * right. split; [|eauto]. intros ->. congruence.
      * left. split; [done|]. apply hs_in_insert. by left.
  - done.
  - cbn. lia.
Qed.

Lemma new_item_iids q id : iids s1 q id ↔ iids s q id.
Proof.
  unfold iids, s1. cbn. rw insert_view. cbn. rw ht_get_empty. fold p.
  destruct (next_fresh s sfx (wf_s _ _ W)) as [_ Hn]. fold p in Hn. split.
  - intros [[_ []]|(_ & ?)]; done.
  - intros (x & Hx & H). right. split; [|eauto]. intros ->. congruence.
Qed.

Lemma new_item_member k id h : member s1 k id h ↔ member s k id h.
Proof.
  unfold member. enough (∀ q pr, opair s1 k q id = Some pr ↔ opair s k q id = Some pr) as H by (by setoid_rewrite H).
  intros q pr. destruct k; unfold opair, spair, ipair.
  1,2: rw new_item_scopes; case_decide; [|done]; by destruct (scopes s !! q).
  1,2: destruct (next_fresh s sfx (wf_s _ _ W)) as [_ Hn]; fold p in Hn; unfold s1; cbn; fold p;
    destruct (decide (q = p)) as [->|]; [rw lookup_insert_eq Hn; cbn; by rw ht_get_empty|by rw lookup_insert_ne].
Qed.

Lemma new_item_at : extends_at p s s1 sfx sfx'.
Proof.
  pose proof (wf_s _ _ W) as W0. destruct (next_fresh s sfx W0) as [HnS HnI]. fold p in HnS, HnI.
  pose proof new_item_extends as X.
  split; try done.
  - eapply (wf_struct_extend s s1 sfx sfx'); [done|exact X|..]; try done.
    + intros q [[]| ->]. split_and!; [intros [? ?]; congruence|intros [? ?]; congruence|
        by unfold sfx', p; rw sfx_set_new|cbn; unfold p; lia].
    + by apply sfx_set_old.
    + intros c ->. by exists f.
    + intros a c d [[]|[-> ->]]. unfold sfx', p. rw sfx_set_new. intros [Hd|[[]|[_ ->]]]; [|done].
      rw sfx_set_old //; [|by eapply edge_alive]. intros E. by destruct (Hfree d Hd).
    + intros q Ht. apply (ws_acyclic _ _ W0 q). eapply tc_subrel; [|done].
      intros u v. rw (ex_child _ _ _ _ _ _ _ X). tauto.
  - by apply sfx_set_old.
  - intros q. rw (ex_isS _ _ _ _ _ _ _ X) (ex_isI _ _ _ _ _ _ _ X). tauto.
  - intros q. rw (ex_root _ _ _ _ _ _ _ X). tauto.
  - intros a c. unfold edge. rw (ex_child _ _ _ _ _ _ _ X) (ex_holds _ _ _ _ _ _ _ X). tauto.
  - intros a c. unfold edge. rw (ex_child _ _ _ _ _ _ _ X) (ex_holds _ _ _ _ _ _ _ X). tauto.
  - intros q id. unfold sids. by rw new_item_view_same.
  - apply new_item_iids.
  - destruct (wf_h _ _ W) as [H1 H2]. split; [|done]. intros. rw new_item_member. apply H1.
  - exists f. split; [|done]. right. apply (ex_holds _ _ _ _ _ _ _ X). by right.
Qed.
End new_item.

(** ** A new father for a scope *)

Definition scope_edge f e s : rv :=
  set_scopes (alter (λ x, sc_with_children (hs_insert e (sc_childrenScopes x)) x) f
    (alter (λ x, sc_with_fathers (hs_insert f (sc_fatherScopes x)) x) e (scopes s))) s.

Section scope_edge.
Context s sfx f e (W : wf s sfx) (Hf : isS s f) (He : isS s e) (Hroot : ¬ root s e)
  (Hfree : ∀ d, edge s f d → sfx d ≠ sfx e) (Hacyclic : ¬ rtc (child s) e f).
Let s1 := scope_edge f e s.

Lemma scope_edge_view (P : Scope → Prop) q :
  (∃ x, scopes s1 !! q = Some x ∧ P x) ↔
    ∃ x, scopes s !! q = Some x ∧ P (if decide (q = f) then sc_with_children (hs_insert e (sc_childrenScopes x)) x
      else if decide (q = e) then sc_with_fathers (hs_insert f (sc_fatherScopes x)) x else x).
Proof.
  assert (e ≠ f) by (intros ->; by apply Hacyclic). unfold s1, scope_edge. cbn [scopes set_scopes].
  destruct (decide (q = f)) as [->|].
  - rw lookup_alter_eq lookup_alter_ne //. destruct (scopes s !! f); naive_solver.
  - rw lookup_alter_ne //. case_decide as E; [rw E lookup_alter_eq|by rw lookup_alter_ne].
    destruct (scopes s !! e); naive_solver.
Qed.

Lemma scope_edge_view_same (P : Scope → Prop) q :
  (∀ t x, P (sc_with_children t x) ↔ P x) → (∀ t x, P (sc_with_fathers t x) ↔ P x) →
  (∃ x, scopes s1 !! q = Some x ∧ P x) ↔ ∃ x, scopes s !! q = Some x ∧ P x.
Proof.
  intros H1 H2. rw scope_edge_view. split; intros (x & Hx & H); exists x; (split; [done|]);
    repeat case_decide; try done; by [apply H1 in H|apply H2 in H|apply H1|apply H2].
Qed.

Lemma scope_edge_extends : extends s s1 (λ _, False) (λ _, False) (λ _, False)
  (λ a c, a = f ∧ c = e) (λ _ _, False).
Proof.
  assert (e ≠ f) by (intros ->; by apply Hacyclic). split.
  - intros q. unfold isS, s1, scope_edge. cbn [scopes set_scopes]. rw !lookup_alter_is_Some. tauto.
  - intros q. unfold isI. cbn. tauto.
  - intros q. unfold root. rw scope_edge_view_same //. tauto.
  - intros a c. unfold child. rw scope_edge_view. split.
    + intros (x & Hx & H'). case_decide as Ha; [|case_decide; eauto].
      apply hs_in_insert in H' as [->|H']; [by right|eauto].
    + intros [(x & Hx & H')|[-> ->]].
      * exists x. split; [done|]. case_decide; [apply hs_in_insert; by right|by case_decide].
      * destruct Hf as [x Hx]. exists x. split; [done|]. rw decide_True //. apply hs_in_insert. by left.
  - intros a c. unfold sfather. rw scope_edge_view. split.
    + intros (x & Hx & H'). case_decide as Ha; [eauto|]. case_decide as Hc; [|eauto].
      apply hs_in_insert in H' as [->|H']; [by right|eauto].
    + intros [(x & Hx & H')|[-> ->]].
      * exists x. split; [done|]. case_decide; [done|]. case_decide; [apply hs_in_insert; by right|done].
      * destruct He as [x Hx]. exists x. split; [done|]. rw decide_False // decide_True //.
        apply hs_in_insert. by left.
  - intros a c. unfold holds. rw scope_edge_view_same //. tauto.
  - intros a c. unfold ifather. cbn. tauto.
  - done.
  - done.
Qed.

Lemma scope_edge_spair q id : spair s1 q id = spair s q id.
Proof.
  unfold spair, s1, scope_edge. cbn [scopes set_scopes].
  destruct (decide (q = f)) as [->|]; [rw lookup_alter_eq|rw lookup_alter_ne //].
  - destruct (decide (f = e)) as [->|]; [rw lookup_alter_eq|rw lookup_alter_ne //]; by destruct (scopes s !! _).
  - destruct (decide (q = e)) as [->|]; [rw lookup_alter_eq|rw lookup_alter_ne //]; by destruct (scopes s !! _).
Qed.

Lemma scope_edge_member k id h : member s1 k id h ↔ member s k id h.
Proof. unfold member. destruct k; try done; unfold opair; by setoid_rewrite scope_edge_spair. Qed.

Lemma scope_edge_at : extends_at e s s1 sfx sfx.
Proof.
  pose proof (wf_s _ _ W) as W0. pose proof scope_edge_extends as X.
  split; try done.
  - eapply (wf_struct_extend s s1 sfx sfx); [done|exact X|..]; try done.
    + by intros q [[]|[]].
    + by intros a c [-> ->].
    + intros a c d [[-> ->]|[]]. intros [Hd|[[_ ->]|[]]]; [|done].
      intros E. by destruct (Hfree d Hd).
    + apply (acyclic_add_edge (child s) _ f e); [|apply W0|done].
      intros u v. rw (ex_child _ _ _ _ _ _ _ X). done.
  - intros q. rw (ex_isS _ _ _ _ _ _ _ X) (ex_isI _ _ _ _ _ _ _ X). tauto.
  - intros q. rw (ex_root _ _ _ _ _ _ _ X). tauto.
  - intros a c. unfold edge. rw (ex_child _ _ _ _ _ _ _ X) (ex_holds _ _ _ _ _ _ _ X). tauto.
  - intros a c. unfold edge. rw (ex_child _ _ _ _ _ _ _ X) (ex_holds _ _ _ _ _ _ _ X). tauto.
  - intros q id. unfold sids. by rw scope_edge_view_same.
  - destruct (wf_h _ _ W) as [H1 H2]. split; [|done]. intros. rw scope_edge_member. apply H1.
  - exists f. split; [|done]. left. apply (ex_child _ _ _ _ _ _ _ X). by right.
Qed.
End scope_edge.

(** ** A new father for an item *)

Definition item_edge f e s : rv :=
  set_scopes (alter (λ x, sc_with_items (hs_insert e (sc_informationitems x)) x) f (scopes s))
    (set_items (alter (λ i, ii_with_fathers (hs_insert f (ii_fatherScopes i)) i) e (items s)) s).

Section item_edge.
Context s sfx f e (W : wf s sfx) (Hf : isS s f) (He : isI s e)
  (Hfree : ∀ d, edge s f d → sfx d ≠ sfx e).
Let s1 := item_edge f e s.

Lemma item_edge_view (P : Scope → Prop) q :
  (∃ x, scopes s1 !! q = Some x ∧ P x) ↔
    ∃ x, scopes s !! q = Some x ∧ P (if decide (q = f) then sc_with_items (hs_insert e (sc_informationitems x)) x else x).
Proof.
  unfold s1, item_edge. cbn [scopes set_scopes].
  case_decide as E; [rw E lookup_alter_eq|by rw lookup_alter_ne]. destruct (scopes s !! f); naive_solver.
Qed.

Lemma item_edge_view_same (P : Scope → Prop) q :
  (∀ t x, P (sc_with_items t x) ↔ P x) →
  (∃ x, scopes s1 !! q = Some x ∧ P x) ↔ ∃ x, scopes s !! q = Some x ∧ P x.
Proof.
  intros HP. rw item_edge_view. split; intros (x & Hx & H); exists x; (split; [done|]); case_decide; try done;
    by apply HP in H || by apply HP.
Qed.

Lemma item_edge_extends : extends s s1 (λ _, False) (λ _, False) (λ _, False)
  (λ _ _, False) (λ a c, a = f ∧ c = e).
Proof.
  split.
  - intros q. unfold isS, s1, item_edge. cbn [scopes set_scopes]. rw !lookup_alter_is_Some. tauto.
  - intros q. unfold isI, s1, item_edge. cbn [items set_items set_scopes]. rw !lookup_alter_is_Some. tauto.
  - intros q. unfold root. rw item_edge_view_same //. tauto.
  - intros a c. unfold child. rw item_edge_view_same //. tauto.
  - intros a c. unfold sfather. rw item_edge_view_same //. tauto.
  - intros a c. unfold holds. rw item_edge_view. split.
    + intros (x & Hx & H). case_decide as Ha; [|eauto].
      apply hs_in_insert in H as [->|H]; [by right|eauto].
    + intros [(x & Hx & H)|[-> ->]].
      * exists x. split; [done|]. case_decide; [|done]. apply hs_in_insert. by right.
      * destruct Hf as [x Hx]. exists x. split; [done|]. rw decide_True //. apply hs_in_insert. by left.
  - intros a c. unfold ifather, s1, item_edge. cbn [items set_items set_scopes].
    destruct (decide (c = e)) as [->|]; [rw lookup_alter_eq|rw lookup_alter_ne //; naive_solver].
    destruct He as [x Hx]. rw Hx. cbn. split.
    + intros (y & [= <-] & [->|H]%hs_in_insert); [by right|left; eauto].
    + intros [(y & [= <-] & H)|[-> _]]; (eexists; split; [done|]); apply hs_in_insert; [by right|by left].
  - done.
  - done.
Qed.

Lemma item_edge_opair k q id : opair s1 k q id = opair s k q id.
Proof.
  unfold opair, spair, ipair, s1, item_edge. destruct k; cbn [scopes items set_scopes set_items].
  1,2: destruct (decide (q = f)) as [->|]; [rw lookup_alter_eq|by rw lookup_alter_ne]; by destruct (scopes s !! f).
  1,2: destruct (decide (q = e)) as [->|]; [rw lookup_alter_eq|by rw lookup_alter_ne]; by destruct (items s !! e).
Qed.

Lemma item_edge_at : extends_at e s s1 sfx sfx.
Proof.
  pose proof (wf_s _ _ W) as W0. pose proof item_edge_extends as X.
  split; try done.
  - eapply (wf_struct_extend s s1 sfx sfx); [done|exact X|..]; try done.
    + by intros q [[]|[]].
    + intros a c d [[]|[-> ->]]. intros [Hd|[[]|[_ ->]]]; [|done].
      intros E. by destruct (Hfree d Hd).
    + intros q Ht. apply (ws_acyclic _ _ W0 q). eapply tc_subrel; [|done].
      intros u v. rw (ex_child _ _ _ _ _ _ _ X). tauto.
  - intros q. rw (ex_isS _ _ _ _ _ _ _ X) (ex_isI _ _ _ _ _ _ _ X). tauto.
  - intros q. rw (ex_root _ _ _ _ _ _ _ X). tauto.
  - intros a c. unfold edge. rw (ex_child _ _ _ _ _ _ _ X) (ex_holds _ _ _ _ _ _ _ X). tauto.
  - intros a c. unfold edge. rw (ex_child _ _ _ _ _ _ _ X) (ex_holds _ _ _ _ _ _ _ X). tauto.
  - intros q id. unfold sids. by rw item_edge_view_same.
  - intros q id. rw !iids_opair. by rw item_edge_opair.
  - destruct (wf_h _ _ W) as [H1 H2]. split; [|done]. intros. unfold member. setoid_rewrite item_edge_opair. apply H1.
  - exists f. split; [|done]. right. apply (ex_holds _ _ _ _ _ _ _ X). by right.
Qed.
End item_edge.

(** ** A new root scope *)

Definition new_root id (st : Z) s : rv :=
  set_scopes (<[next s := mkScope (ht_set id empty_pair ht_empty) true ht_empty ht_empty ht_empty st]> (scopes s))
    (set_scopeIndex (ht_set id (next s) (scopeIndex s)) (set_next (S (next s)) s)).

Section new_root.
Context s sfx id (st : Z) (W : wf s sfx) (Hlen : length id = PURSUIT_ID_LEN)
  (Hnone : ht_get id (scopeIndex s) = None).
Let p := next s.
Let s1 := new_root id st s.
Let sfx' := sfx_set p id sfx.
Let x1 : Scope := mkScope (ht_set id empty_pair ht_empty) true ht_empty ht_empty ht_empty st.

Lemma new_root_view (P : Scope → Prop) q :
  (∃ x, scopes s1 !! q = Some x ∧ P x) ↔ (q = p ∧ P x1) ∨ ∃ x, scopes s !! q = Some x ∧ P x.
Proof.
  unfold s1, new_root. cbn [scopes set_scopes]. rw insert_view. fold p x1.
  destruct (next_fresh s sfx (wf_s _ _ W)) as [Hn _]. fold p in Hn.
  split; [tauto|]. intros [?|(x & Hx & H)]; [by left|]. right. split; [|eauto]. intros ->. congruence.
Qed.

Lemma new_root_extends : extends s s1 (λ q, q = p) (λ _, False) (λ q, q = p)
  (λ _ _, False) (λ _ _, False).
Proof.
  split.
  - intros q. unfold isS, s1, new_root. cbn [scopes set_scopes]. rw insert_is_Some. fold p. tauto.
  - intros q. unfold isI. cbn. tauto.
  - intros q. unfold root. rw new_root_view. cbn. tauto.
  - intros a c. unfold child. rw new_root_view. cbn. pose proof (hs_in_empty (T:=PH) c). tauto.
  - intros a c. unfold sfather. rw new_root_view. cbn. pose proof (hs_in_empty (T:=PH) a). tauto.
  - intros a c. unfold holds. rw new_root_view. cbn. pose proof (hs_in_empty (T:=PH) c). tauto.
  - intros a c. unfold ifather. cbn. tauto.
  - done.
  - cbn. lia.
Qed.

Lemma new_root_sids q k : sids s1 q k ↔ sids s q k ∨ (q = p ∧ k = id).
Proof.
  unfold sids. rw new_root_view. cbn. rw ht_get_set ht_get_empty. case_decide as E.
  - subst k. split; [|naive_solver]. intros [[-> _]|?]; auto.
  - split; [|naive_solver]. intros [[_ []]|?]; auto. done.
Qed.

Lemma new_root_member k i h : member s1 k i h ↔ member s k i h.
Proof.
  unfold member. destruct k; try done; unfold opair, spair;
  split; intros (q & pr & Hq & Hh);
  unfold s1, new_root in *; cbn [scopes set_scopes] in *; fold p x1 in Hq |- *;
  (destruct (next_fresh s sfx (wf_s _ _ W)) as [Hn _]; fold p in Hn);
  (destruct (decide (q = p)) as [->|]; [|exists q, pr; by rw lookup_insert_ne // in Hq || rw lookup_insert_ne]);
  rw ?lookup_insert_eq ?Hn // in Hq; cbn in Hq; rw ht_get_set ht_get_empty in Hq; case_decide; try done;
  injection Hq as <-; by apply hs_in_empty in Hh.
Qed.

Lemma new_root_struct : wf_struct s1 sfx'.
Proof.
  pose proof (wf_s _ _ W) as W0. destruct (next_fresh s sfx W0) as [HnS HnI]. fold p in HnS, HnI.
  eapply (wf_struct_extend s s1 sfx sfx'); [done|exact new_root_extends|..]; try done.
  - intros q [->|[]]. split_and!; [intros [? ?]; congruence|intros [? ?]; congruence| |cbn; unfold p; lia].
    unfold sfx', p. by rw sfx_set_new.
  - intros q Hq. by eapply sfx_set_old.
  - by intros q -> [].
  - intros q ->. split; [auto|done].
  - intros q q' -> Hq'. unfold sfx' at 1, p at 2. rw sfx_set_new. destruct Hq' as [Hq'|Hq']; [|done].
    unfold sfx'. rw (sfx_set_old s) //; [|left; by apply root_isS]. intros E. exfalso.
    assert (path s sfx id q') as Hp by (rw E; by constructor).
    apply (wf_index_path s sfx id q' W) in Hp; [congruence|by apply root_isS].
  - intros a c d [[]|[]].
  - intros q Ht. apply (ws_acyclic _ _ W0 q). eapply tc_subrel; [|done].
    intros u v. rw (ex_child _ _ _ _ _ _ _ new_root_extends). tauto.
Qed.

Lemma new_root_path k q : path s1 sfx' k q ↔ path s sfx k q ∨ (q = p ∧ k = id).
Proof.
  pose proof (wf_s _ _ W) as W0. destruct (next_fresh s sfx W0) as [HnS HnI]. fold p in HnS, HnI.
  pose proof new_root_extends as X. split.
  - induction 1 as [q Hq|k f c Hp IH He].
    + apply (ex_root _ _ _ _ _ _ _ X) in Hq as [Hq| ->].
      * left. unfold sfx'. rw (sfx_set_old s) //; [by constructor|left; by apply root_isS].
      * right. split; [done|]. unfold sfx', p. by rw sfx_set_new.
    + assert (edge s f c) as He'.
      { unfold edge in *. rw (ex_child _ _ _ _ _ _ _ X) (ex_holds _ _ _ _ _ _ _ X) in He. tauto. }
      destruct IH as [IH|[-> _]]; [|by apply edge_isS in He' as [? ?]; congruence].
      left. unfold sfx'. rw (sfx_set_old s) //; [by apply (path_edge _ _ _ f)|by eapply edge_alive].
  - intros [Hp|[-> ->]].
    + eapply path_extend; [done|exact X| |done]. intros. by eapply sfx_set_old.
    + assert (path s1 sfx' (sfx' p) p) as Hp.
      { constructor. apply (ex_root _ _ _ _ _ _ _ X). by right. }
      unfold sfx', p in Hp |- *. by rw sfx_set_new in Hp.
Qed.

Lemma new_root_wf : wf s1 sfx'.
Proof.
  pose proof (wf_s _ _ W) as W0. destruct (wf_b _ _ W) as [B1 B2 B3].
  destruct (next_fresh s sfx W0) as [HnS HnI]. fold p in HnS, HnI.
  split; [apply new_root_struct|split| | |].
  - intros k q. rw new_root_sids -B1. cbn. rw ht_get_set. case_decide as E.
    + subst k. rw Hnone. fold p. naive_solver.
    + naive_solver.
  - intros k q. apply B2.
  - intros k q. rw new_root_path. unfold oid. rw new_root_sids. intros [[Hk|?]|Hk].
    + left. apply B3. by left.
    + by right.
    + left. apply B3. by right.
  - intros k q. rw new_root_path. unfold oid. rw new_root_sids.
    intros [[Hk|Hk]%(wf_full _ _ W)|?]; [left; by left|by right|left; by right].
  - intros q. rw (ex_isS _ _ _ _ _ _ _ new_root_extends) (ex_isI _ _ _ _ _ _ _ new_root_extends).
    intros Hq. unfold oid. setoid_rewrite new_root_sids.
    assert ((isS s q ∨ isI s q) ∨ q = p) as [Ho| ->] by tauto.
    + destruct (wf_named _ _ W q Ho) as [k [Hk|Hk]]; exists k; [left; by left|by right].
    + exists id. left. by right.
  - destruct (wf_h _ _ W) as [H1 H2]. split; [|done]. intros. rw new_root_member. apply H1.
Qed.

(** The block of publish_root_scope and subscribe_root_scope for an unknown
    root. *)
Lemma wp_new_root (k : kind) h (Q : RvReturnCode → rv → Prop) :
  scope_kind k = true → is_Some (hosts s !! h) →
  (∀ s', wf s' sfx' →
    (∀ k' id' h', member s' k' id' h' ↔ member s k' id' h' ∨ (k' = k ∧ id' = id ∧ h' = h)) →
    scopeIndex s' = ht_set id p (scopeIndex s) → pubIndex s' = pubIndex s → out s' = out s → kept s s' →
    Q SUCCESS s') →
  wp (sc ← Scope_new st None;
      modify (λ s, set_scopeIndex (ht_set id sc (scopeIndex s)) s);;
      added ← update_members k sc id h;
      when_added added (upd_host h (host_add k id))) Q s.
Proof.
  intros Hk [x Hx] HQ. unfold Scope_new, alloc. apply wp_bind, wp_bind. unfold wp at 1.
  apply wp_bind, wp_modify, wp_ret. apply wp_bind, wp_modify, wp_bind. fold p.
  set (s2 := set_scopeIndex _ _).
  set (x0 := mkScope ht_empty true ht_empty ht_empty ht_empty st).
  assert (scopes s2 !! p = Some x0) as Hp by (cbn; by rw lookup_insert_eq).
  set (pr := pair_with k (hs_insert h) empty_pair).
  set (s3 := set_scopes (<[p := sc_with_ids (ht_set id pr ht_empty) x0]> (scopes s2)) s2).
  assert (update_members k p id h s2 = Ok (true, s3)) as Hupd.
  { destruct k; try done; cbn [update_members];
      unfold Scope_updatePublishers, Scope_updateSubscribers, ids_updatePublishers, ids_updateSubscribers;
      unfold mbind, M_bind, get_scope; rw Hp; cbn [sc_ids x0]; rw ht_get_empty; unfold upd_scope; by rw Hp. }
  eapply ok_wp; [exact Hupd|]. unfold when_added. apply wp_bind. apply wp_set_host; [by exists x|].
  apply wp_ret. set (s4 := set_host _ _ _).
  assert (changes_pair s1 s4 k p id empty_pair pr h x (host_add k id x)) as C.
  { unfold s4, s3, s2, s1, new_root. fold p x1. split; try done.
    - split; intros q; [|done]. cbn. destruct (decide (q = p)) as [->|].
      + by rw !lookup_insert_eq.
      + by rw !lookup_insert_ne.
    - intros k0 p0 id0. destruct (scope_kind k0) eqn:Hk0; last first.
      { case_decide as Hd; [by destruct k, k0, Hd|by destruct k0]. }
      assert (∀ s', opair s' k0 p0 id0 = spair s' p0 id0) as Eo by (by destruct k0).
      rw !Eo Hk. unfold spair. cbn [scopes set_scopes set_host set_hosts set_scopeIndex].
      destruct (decide (p0 = p)) as [->|Hp0].
      + rw !lookup_insert_eq. cbn. rw !ht_get_set !ht_get_empty.
        case_decide as E1; case_decide as E2; try done; exfalso; [by apply E2|by destruct E2 as (_ & _ & ->)].
      + rw !lookup_insert_ne //. case_decide as E2; [by destruct E2 as (_ & ? & _)|done].
    - destruct k; try done; unfold opair, spair; cbn [scopes set_scopes]; rw lookup_insert_eq; cbn;
        by rw ht_get_set decide_True.
    - cbn. by apply alter_insert. }
  assert (host_add k id = host_with k (hs_insert id)) as Eh by (by destruct k). rw Eh in C.
  assert (wf s4 sfx') as W4.
  { apply (changes_pair_wf s1 s4 sfx' k p id empty_pair h x _ _ True new_root_wf C).
    - intros h' t. rw hs_in_insert. case_decide; naive_solver.
    - intros id' t. rw hs_in_insert. case_decide; naive_solver. }
  apply HQ; [done| |done..|].
  2: { split; [|done..]. intros h'. cbn. unfold set_host. rw lookup_alter_is_Some. done. }
  intros k' id' h'.
  rw (wh_mirror _ (wf_h _ _ W4)) (wh_mirror _ (wf_h _ _ W)). unfold host_has.
  rw (cp_hosts _ _ _ _ _ _ _ _ _ _ C) insert_view.
  change (hosts s1) with (hosts s).
  destruct (decide (h' = h)) as [->|]; [|naive_solver].
  destruct (decide (k' = k)) as [->|].
  - rw host_sel_with hs_in_insert. naive_solver.
  - rw host_sel_with_ne //. naive_solver.
Qed.
End new_root.
End add.
