(* ===== verification/RvRemove.v ===== *)
(** * Removing nodes and branches

    The parts of the unpublish and unsubscribe requests that make the graph
    smaller: deleting an item or a scope nobody uses, or the branch of one
    under one of its fathers. *)

From S2P Require Import Prelude Enums HashTable RvStore LocalRV RvGraph RvUpdate RvInvariant RvOps RvAdd.

Section remove.
Context `{CT : ClickTables}.
Implicit Types (s : rv) (p q f c : ptr) (id : bytes) (sfx : ptr → bytes).

(** ** The graph gets smaller *)

(** [s'] has lost the scopes [DS], the items [DI], the edges [DC] to scopes
    and [DH] to items, and the identifiers [D]. *)
Record shrinks s s' (DS DI : ptr → Prop) (DC DH : ptr → ptr → Prop) (D : ptr → bytes → Prop) : Prop := {
  sh_isS : ∀ p, isS s' p ↔ isS s p ∧ ¬ DS p;
  sh_isI : ∀ p, isI s' p ↔ isI s p ∧ ¬ DI p;
  sh_root : ∀ p, root s' p ↔ root s p ∧ ¬ DS p;
  sh_child : ∀ f c, child s' f c ↔ child s f c ∧ ¬ DC f c;
  sh_sfather : ∀ f c, sfather s' f c ↔ sfather s f c ∧ ¬ DC f c;
  sh_holds : ∀ f c, holds s' f c ↔ holds s f c ∧ ¬ DH f c;
  sh_ifather : ∀ f c, ifather s' f c ↔ ifather s f c ∧ ¬ DH f c;
  sh_opair : ∀ k p id pr, opair s' k p id = Some pr ↔ opair s k p id = Some pr ∧ ¬ D p id;
  sh_sidx : ∀ id p, ht_get id (scopeIndex s') = Some p ↔ ht_get id (scopeIndex s) = Some p ∧ ¬ D p id;
  sh_pidx : ∀ id p, ht_get id (pubIndex s') = Some p ↔ ht_get id (pubIndex s) = Some p ∧ ¬ D p id;
  sh_hosts : hosts s' = hosts s;
  sh_hidx : pub_sub_Index s' = pub_sub_Index s;
  sh_next : next s' = next s;
}.

Section shrink.
Context s s' sfx DS DI DC DH D (W : wf s sfx) (X : shrinks s s' DS DI DC DH D).
(** every scope that stays and is not a root keeps a father; so does every
    item that stays *)
Context (Hsf : ∀ p, isS s' p → ¬ root s p → ∃ f, sfather s' f p).
Context (Hif : ∀ p, isI s' p → ∃ f, ifather s' f p).
(** nothing is below what loses identifiers *)
Context (Hleaf : ∀ f c id, edge s f c → ¬ D f id).
(** exactly the paths through what is removed are lost *)
Context (Hlost_edge : ∀ f c id, edge s f c → ¬ D c (id ++ sfx c) → path s sfx id f → edge s' f c).
Context (Hlost_root : ∀ p, root s p → ¬ D p (sfx p) → root s' p).
Context (Hkept : ∀ id p, path s' sfx id p → ¬ D p id).
(** what stays has an identifier *)
Context (Hnamed : ∀ p, isS s' p ∨ isI s' p → ∃ id, oid s p id ∧ ¬ D p id).
(** nobody publishes or subscribes under what is removed *)
Context (Hunused : ∀ k p id pr h, opair s k p id = Some pr → D p id → ¬ hs_in h (pair_sel k pr)).

Lemma shrink_edge f c : edge s' f c → edge s f c.
Proof.
  unfold edge. rw (sh_child _ _ _ _ _ _ _ X) (sh_holds _ _ _ _ _ _ _ X). tauto.
Qed.

Lemma shrink_struct : wf_struct s' sfx.
Proof.
  pose proof (wf_s _ _ W) as W0. split; intros *.
  - rw (sh_child _ _ _ _ _ _ _ X) (sh_sfather _ _ _ _ _ _ _ X) (ws_child _ _ W0). done.
  - rw (sh_holds _ _ _ _ _ _ _ X) (sh_ifather _ _ _ _ _ _ _ X) (ws_holds _ _ W0). done.
  - intros HS. pose proof HS as [HS0 HD]%(sh_isS _ _ _ _ _ _ _ X). rw (sh_root _ _ _ _ _ _ _ X). split.
    + intros [Hr _] f [Hf _]%(sh_sfather _ _ _ _ _ _ _ X).
      exact (proj1 (ws_root _ _ W0 p HS0) Hr f Hf).
    + intros Hf. split; [|done]. destruct HS0 as [x Hx]. destruct (sc_isRoot x) eqn:Er; [by exists x|].
      destruct (Hsf p HS) as [f Hf']; [|by apply Hf in Hf'].
      intros (y & Hy & Ey). congruence.
  - apply Hif.
  - rw (sh_isS _ _ _ _ _ _ _ X) (sh_isI _ _ _ _ _ _ _ X). intros Hp. apply (ws_len _ _ W0). tauto.
  - rw (sh_isS _ _ _ _ _ _ _ X) (sh_isI _ _ _ _ _ _ _ X). pose proof (ws_disj _ _ W0 p). tauto.
  - rw (sh_isS _ _ _ _ _ _ _ X) (sh_isI _ _ _ _ _ _ _ X) (sh_hosts _ _ _ _ _ _ _ X) (sh_next _ _ _ _ _ _ _ X).
    intros Hp. apply (ws_next _ _ W0). tauto.
  - rw !(sh_root _ _ _ _ _ _ _ X). intros [Hp _] [Hq _]. by apply W0.
  - intros Hc%shrink_edge Hd%shrink_edge. by apply (ws_sib_inj _ _ W0 f).
  - intros Ht. apply (ws_acyclic _ _ W0 p). eapply tc_subrel; [|done].
    intros u v. rw (sh_child _ _ _ _ _ _ _ X). tauto.
Qed.

Lemma shrink_path id p : path s' sfx id p ↔ path s sfx id p ∧ ¬ D p id.
Proof.
  split.
  - intros Hp. split; [|by apply Hkept]. induction Hp as [q [Hq _]%(sh_root _ _ _ _ _ _ _ X)|id f c _ IH He].
    + by constructor.
    + apply (path_edge _ _ _ f); [done|by apply shrink_edge].
  - intros [Hp HD]. induction Hp as [q Hq|id f c Hp IH He].
    + constructor. by apply Hlost_root.
    + apply (path_edge _ _ _ f); [apply IH; by eapply Hleaf|by eapply Hlost_edge].
Qed.

Lemma shrink_oid p id : oid s' p id ↔ oid s p id ∧ ¬ D p id.
Proof.
  unfold oid. rw !sids_opair !iids_opair. unfold is_Some.
  setoid_rewrite (sh_opair _ _ _ _ _ _ _ X). naive_solver.
Qed.

Lemma shrink_member k id h : member s' k id h ↔ member s k id h.
Proof.
  unfold member. setoid_rewrite (sh_opair _ _ _ _ _ _ _ X). split.
  - intros (p & pr & [Hp _] & Hh). eauto.
  - intros (p & pr & Hp & Hh). exists p, pr. split; [split; [done|]|done].
    intros HD. by apply (Hunused k p id pr h Hp HD).
Qed.

Lemma shrink_wf : wf s' sfx.
Proof.
  split; [apply shrink_struct|split| | |].
  - intros id p. rw (sh_sidx _ _ _ _ _ _ _ X) (wb_sidx _ _ (wf_b _ _ W)) !sids_opair.
    unfold is_Some. setoid_rewrite (sh_opair _ _ _ _ _ _ _ X). naive_solver.
  - intros id p. rw (sh_pidx _ _ _ _ _ _ _ X) (wb_pidx _ _ (wf_b _ _ W)) !iids_opair.
    unfold is_Some. setoid_rewrite (sh_opair _ _ _ _ _ _ _ X). naive_solver.
  - intros id p. rw shrink_oid shrink_path. intros [H ?]. split; [by apply (wb_path _ _ (wf_b _ _ W))|done].
  - intros id p. rw shrink_oid shrink_path. intros [H ?]. split; [by apply (wf_full _ _ W)|done].
  - intros p Hp. setoid_rewrite shrink_oid. by apply Hnamed.
  - destruct (wf_h _ _ W) as [H1 H2]. split; unfold host_has.
    + intros k id h. rw shrink_member (sh_hosts _ _ _ _ _ _ _ X). apply H1.
    + intros n h. rw (sh_hidx _ _ _ _ _ _ _ X) (sh_hosts _ _ _ _ _ _ _ X). apply H2.
Qed.
End shrink.

(** ** Erasing a list of identifiers *)

Definition erase_all {V} (l : list bytes) (t : SH V) : SH V := foldl (λ t id, ht_erase id t) t l.

Lemma get_erase_all {V} l (t : SH V) id :
  ht_get id (erase_all l t) = if decide (id ∈ l) then None else ht_get id t.
Proof.
  unfold erase_all. revert t. induction l as [|k l IH]; intros t; cbn [foldl].
  - case_decide as H; [by apply elem_of_nil in H|done].
  - rw IH ht_get_erase. repeat case_decide; set_solver.
Qed.

Lemma wp_erase_pubIndex l s (Q : () → rv → Prop) :
  Q () (set_pubIndex (erase_all l (pubIndex s)) s) →
  wp (mfor l (λ id, modify (λ s, set_pubIndex (ht_erase id (pubIndex s)) s))) Q s.
Proof.
  revert s. induction l as [|k l IH]; intros s HQ; cbn [mfor].
  - apply wp_ret. by destruct s.
  - apply wp_bind, wp_modify. by apply IH.
Qed.
Lemma wp_erase_scopeIndex l s (Q : () → rv → Prop) :
  Q () (set_scopeIndex (erase_all l (scopeIndex s)) s) →
  wp (mfor l (λ id, modify (λ s, set_scopeIndex (ht_erase id (scopeIndex s)) s))) Q s.
Proof.
  revert s. induction l as [|k l IH]; intros s HQ; cbn [mfor].
  - apply wp_ret. by destruct s.
  - apply wp_bind, wp_modify. by apply IH.
Qed.

(** The loops that delete a branch. *)
Lemma wp_erase_item_ids pub suf l s i (Q : () → rv → Prop) :
  items s !! pub = Some i →
  Q () (set_pubIndex (erase_all ((λ fid, fid ++ suf) <$> l) (pubIndex s))
    (set_items (<[pub := ii_with_ids (erase_all ((λ fid, fid ++ suf) <$> l) (ii_ids i)) i]> (items s)) s)) →
  wp (mfor l (λ fid,
    upd_item pub (λ i, ii_with_ids (ht_erase (fid ++ suf) (ii_ids i)) i);;
    modify (λ s, set_pubIndex (ht_erase (fid ++ suf) (pubIndex s)) s))) Q s.
Proof.
  revert s i. induction l as [|k l IH]; intros s i Hi HQ; cbn [mfor].
  - apply wp_ret. cbn in HQ. assert (ii_with_ids (ii_ids i) i = i) as E by (by destruct i).
    rw E insert_id // in HQ. by destruct s.
  - apply wp_bind, wp_bind. eapply wp_upd_item; [done|]. apply wp_modify.
    eapply IH; [cbn; by rw lookup_insert_eq|]. cbn. rw insert_insert_eq. exact HQ.
Qed.
Lemma wp_erase_scope_ids sc suf l s x (Q : () → rv → Prop) :
  scopes s !! sc = Some x →
  Q () (set_scopeIndex (erase_all ((λ fid, fid ++ suf) <$> l) (scopeIndex s))
    (set_scopes (<[sc := sc_with_ids (erase_all ((λ fid, fid ++ suf) <$> l) (sc_ids x)) x]> (scopes s)) s)) →
  wp (mfor l (λ fid,
    upd_scope sc (λ x, sc_with_ids (ht_erase (fid ++ suf) (sc_ids x)) x);;
    modify (λ s, set_scopeIndex (ht_erase (fid ++ suf) (scopeIndex s)) s))) Q s.
Proof.
  revert s x. induction l as [|k l IH]; intros s x Hx HQ; cbn [mfor].
  - apply wp_ret. cbn in HQ. assert (sc_with_ids (sc_ids x) x = x) as E by (by destruct x).
    rw E insert_id // in HQ. by destruct s.
  - apply wp_bind, wp_bind. eapply wp_upd_scope; [done|]. apply wp_modify.
    eapply IH; [cbn; by rw lookup_insert_eq|]. cbn. rw insert_insert_eq. exact HQ.
Qed.

(** ** Views after erasing from one set of one scope *)

Lemma alter_scope_view (g : Scope → Scope) f s s' (P : Scope → Prop) q :
  scopes s' = alter g f (scopes s) →
  (∃ x, scopes s' !! q = Some x ∧ P x) ↔ ∃ x, scopes s !! q = Some x ∧ P (if decide (q = f) then g x else x).
Proof.
  intros ->. case_decide as E; [rw E lookup_alter_eq|by rw lookup_alter_ne].
  destruct (scopes s !! f); naive_solver.
Qed.

Lemma alter_scope_spair (g : Scope → Scope) f s s' q id :
  scopes s' = alter g f (scopes s) → (∀ x, sc_ids (g x) = sc_ids x) → spair s' q id = spair s q id.
Proof.
  intros E Hg. unfold spair. rw E. destruct (decide (q = f)) as [->|]; [rw lookup_alter_eq|by rw lookup_alter_ne].
  destruct (scopes s !! f) as [x|]; [|done]. cbn. by rw Hg.
Qed.

Lemma nonroot_father s sfx q : wf s sfx → isS s q → ¬ root s q → ∃ a, sfather s a q.
Proof.
  intros W HS Hr. pose proof (wf_s _ _ W) as W0. destruct (wf_named _ _ W q) as [id Hid]; [by left|].
  apply (wb_path _ _ (wf_b _ _ W)), (path_edge_inv _ _) in Hid as (pre & a & _ & _ & [Hc|Hc]); [| |done].
  - exists a. by apply (ws_child _ _ W0).
  - apply (holds_isI_r _ _ W0) in Hc. by apply (ws_disj _ _ W0) in HS.
Qed.

Lemma no_path s sfx p id : ¬ root s p → (∀ a, ¬ edge s a p) → ¬ path s sfx id p.
Proof. intros Hr He Hp. destruct Hp as [q Hq|id f c _ Hfc]; [done|by apply (He f)]. Qed.

(** No identifier of the item has a publisher or a subscriber. *)
Definition item_unused (i : InformationItem) : Prop :=
  ∀ id pr h, ht_get id (ii_ids i) = Some pr → ¬ hs_in h pr.1 ∧ ¬ hs_in h pr.2.

(** What is lost when the item [pub] goes. *)
Definition item_gone s s' pub f : Prop :=
  shrinks s s' (λ _, False) (λ q, q = pub) (λ _ _, False) (λ a c, a = f ∧ c = pub) (λ q _, q = pub).

Lemma wp_item_delete_all s sfx pub f i (Q : () → rv → Prop) :
  wf s sfx → items s !! pub = Some i → (∀ g, hs_in g (ii_fatherScopes i) ↔ g = f) → item_unused i →
  (∀ s', wf s' sfx → item_gone s s' pub f → out s' = out s → localProxy s' = localProxy s →
    known_rootscopes s' = known_rootscopes s → scopeIndex s' = scopeIndex s → Q () s') →
  wp (item_delete_all pub f) Q s.
Proof.
  intros W Hi Hfa Hun HQ. pose proof (wf_s _ _ W) as W0.
  assert (isI s pub) as HI by (by exists i).
  assert (holds s f pub) as Hh by (apply (ws_holds _ _ W0); exists i; split; [done|by apply Hfa]).
  assert (∀ g, holds s g pub → g = f) as Honly.
  { intros g (i' & Hi' & Hg)%(ws_holds _ _ W0). apply Hfa. congruence. }
  destruct (holds_isS _ _ _ Hh) as [xf Hxf].
  unfold item_delete_all. apply wp_bind. eapply wp_upd_scope; [done|].
  apply wp_bind. eapply wp_get_item; [done|]. apply wp_bind, wp_erase_pubIndex.
  eapply wp_delete_item; [done|].
  set (g := λ x, sc_with_items (ht_erase pub (sc_informationitems x)) x).
  set (s' := set_items _ _).
  assert (scopes s' = alter g f (scopes s)) as Es by exact (eq_sym (alter_insert (scopes s) f xf g Hxf)).
  assert (items s' = delete pub (items s)) as Ei by done.
  assert (item_gone s s' pub f) as X.
  { split; try done.
    - intros q. unfold isS. rw Es lookup_alter_is_Some. tauto.
    - intros q. unfold isI. rw Ei delete_is_Some. tauto.
    - intros q. unfold root. rw (alter_scope_view g f s) //. split.
      + intros (x & Hx & H). split; [|by intros []]. exists x. split; [done|]. by case_decide.
      + intros [(x & Hx & H) _]. exists x. split; [done|]. by case_decide.
    - intros a c. unfold child. rw (alter_scope_view g f s) //. split.
      + intros (x & Hx & H). split; [|by intros []]. exists x. split; [done|]. by case_decide.
      + intros [(x & Hx & H) _]. exists x. split; [done|]. by case_decide.
    - intros a c. unfold sfather. rw (alter_scope_view g f s) //. split.
      + intros (x & Hx & H). split; [|by intros []]. exists x. split; [done|]. by case_decide.
      + intros [(x & Hx & H) _]. exists x. split; [done|]. by case_decide.
    - intros a c. unfold holds. rw (alter_scope_view g f s) //. split.
      + intros (x & Hx & H). case_decide as Ha.
        * apply hs_in_erase in H as [Hne H]. split; [eauto|]. naive_solver.
        * split; [eauto|]. naive_solver.
      + intros [(x & Hx & H) Hn]. exists x. split; [done|]. case_decide; [|done].
        apply hs_in_erase. split; [|done]. naive_solver.
    - intros a c. unfold ifather. rw Ei delete_view. split.
      + intros [Hne H]. split; [done|]. naive_solver.
      + intros [H Hn]. split; [|done]. intros ->. apply Hn. split; [|done].
        apply Honly, (ws_holds _ _ W0), H.
    - intros k q id pr. destruct k.
      + cbn [opair]. rw (alter_scope_spair g f s s') //. split; [|tauto]. intros H. split; [done|]. intros ->.
        unfold spair in H. destruct (scopes s !! pub) as [x|] eqn:Hx; [|done].
        by apply (ws_disj _ _ W0 pub); [exists x|].
      + cbn [opair]. rw (alter_scope_spair g f s s') //. split; [|tauto]. intros H. split; [done|]. intros ->.
        unfold spair in H. destruct (scopes s !! pub) as [x|] eqn:Hx; [|done].
        by apply (ws_disj _ _ W0 pub); [exists x|].
      + cbn [opair]. unfold ipair. rw Ei. destruct (decide (q = pub)) as [->|]; [rw lookup_delete_eq|rw lookup_delete_ne //];
          naive_solver.
      + cbn [opair]. unfold ipair. rw Ei. destruct (decide (q = pub)) as [->|]; [rw lookup_delete_eq|rw lookup_delete_ne //];
          naive_solver.
    - intros id q. cbn. split; [|tauto]. intros H. split; [done|]. intros ->.
      apply (wb_sidx _ _ (wf_b _ _ W)), sids_isS in H. by apply (ws_disj _ _ W0 pub).
    - intros id q. change (pubIndex s') with (erase_all (ht_keys (ii_ids i)) (pubIndex s)).
      rw get_erase_all. case_decide as Hk.
      + split; [done|]. intros [H Hne]. exfalso. apply Hne.
        apply (iids_keys s pub i id Hi), (wb_pidx _ _ (wf_b _ _ W)) in Hk. congruence.
      + split; [|tauto]. intros H. split; [done|]. intros ->. apply Hk.
        by apply (iids_keys s pub i id Hi), (wb_pidx _ _ (wf_b _ _ W)). }
  apply HQ; try done. eapply (shrink_wf s s' sfx); [done|exact X|..].
  - intros q [HS _]%(sh_isS _ _ _ _ _ _ _ X) Hr. destruct (nonroot_father s sfx q W HS Hr) as [a Ha].
    exists a. apply (sh_sfather _ _ _ _ _ _ _ X). split; [done|by intros []].
  - intros q [HIq Hne]%(sh_isI _ _ _ _ _ _ _ X). destruct (ws_item _ _ W0 q HIq) as [a Ha].
    exists a. apply (sh_ifather _ _ _ _ _ _ _ X). split; [done|]. naive_solver.
  - intros a c id He ->. by apply edge_isS, (ws_disj _ _ W0) in He.
  - intros a c id He Hne _. destruct He as [He|He].
    + left. apply (sh_child _ _ _ _ _ _ _ X). split; [done|by intros []].
    + right. apply (sh_holds _ _ _ _ _ _ _ X). split; [done|]. naive_solver.
  - intros q Hq _. apply (sh_root _ _ _ _ _ _ _ X). split; [done|by intros []].
  - intros id q Hp ->. revert Hp. apply no_path.
    + intros [Hr%root_isS _]%(sh_root _ _ _ _ _ _ _ X). by apply (ws_disj _ _ W0) in Hr.
    + intros a [[H%(child_isS_r _ _ W0) _]%(sh_child _ _ _ _ _ _ _ X)|[H Hn]%(sh_holds _ _ _ _ _ _ _ X)].
      * by apply (ws_disj _ _ W0) in H.
      * apply Hn. split; [by apply Honly|done].
  - intros q Hq. destruct (wf_named _ _ W q) as [id Hid].
    { rw (sh_isS _ _ _ _ _ _ _ X) (sh_isI _ _ _ _ _ _ _ X) in Hq. tauto. }
    exists id. split; [done|]. intros ->.
    rw (sh_isS _ _ _ _ _ _ _ X) (sh_isI _ _ _ _ _ _ _ X) in Hq. destruct Hq as [[Hq _]|[_ []]]; [|done].
    by apply (ws_disj _ _ W0) in Hq.
  - intros k q id pr h Hp ->. unfold item_unused in Hun.
    destruct k; cbn [opair pair_sel] in *; unfold spair, ipair in Hp.
    1,2: destruct (scopes s !! pub) as [x|] eqn:Hx; [|done]; exfalso; apply (ws_disj _ _ W0 pub); [by exists x|done].
    all: rw Hi in Hp; cbn in Hp; by destruct (Hun id pr h Hp).
Qed.

(** ** One branch of an item *)

(** The identifiers of [p] under the father [f]. *)
Definition under s sfx f p : ptr → bytes → Prop := λ q id, q = p ∧ ∃ pre, path s sfx pre f ∧ id = pre ++ sfx p.

Definition item_unused_under s sfx (i : InformationItem) f pub : Prop :=
  ∀ pre pr h, path s sfx pre f → ht_get (pre ++ sfx pub) (ii_ids i) = Some pr → ¬ hs_in h pr.1 ∧ ¬ hs_in h pr.2.

Definition item_branch_gone s s' sfx pub f : Prop :=
  shrinks s s' (λ _, False) (λ _, False) (λ _ _, False) (λ a c, a = f ∧ c = pub) (under s sfx f pub).

Lemma scope_paths s sfx f xf pre : wf s sfx → scopes s !! f = Some xf →
  pre ∈ ht_keys (sc_ids xf) ↔ path s sfx pre f.
Proof.
  intros W Hx. rw (sids_keys s f xf) //. assert (isS s f) as HS by (by exists xf).
  rw -(oid_scope s sfx) //; [|apply W]. split; [apply (wb_path _ _ (wf_b _ _ W))|apply (wf_full _ _ W)].
Qed.

Lemma elem_of_under s sfx f xf p id : wf s sfx → scopes s !! f = Some xf →
  id ∈ (λ fid, fid ++ sfx p) <$> ht_keys (sc_ids xf) ↔ under s sfx f p p id.
Proof.
  intros W Hx. rw list_elem_of_fmap. unfold under. setoid_rewrite (scope_paths s sfx f xf _ W Hx). naive_solver.
Qed.

(** Two fathers give different identifiers. *)
Lemma under_father s sfx f g p pre : wf s sfx → path s sfx pre g →
  under s sfx f p p (pre ++ sfx p) → f = g.
Proof.
  intros W Hg (_ & pre' & Hf & E). apply app_inv_tail in E as <-. by eapply (path_fun s sfx (wf_s _ _ W)).
Qed.

Lemma wp_item_delete_branch s sfx pub f i (Q : () → rv → Prop) :
  wf s sfx → items s !! pub = Some i → hs_in f (ii_fatherScopes i) →
  (∃ g, g ≠ f ∧ hs_in g (ii_fatherScopes i)) → item_unused_under s sfx i f pub →
  (∀ s', wf s' sfx → item_branch_gone s s' sfx pub f → out s' = out s → localProxy s' = localProxy s →
    known_rootscopes s' = known_rootscopes s → scopeIndex s' = scopeIndex s → Q () s') →
  wp (item_delete_branch pub f) Q s.
Proof.
  intros W Hi Hf (g' & Hg' & Hg'f) Hun HQ. pose proof (wf_s _ _ W) as W0.
  assert (isI s pub) as HI by (by exists i).
  assert (holds s f pub) as Hh by (apply (ws_holds _ _ W0); by exists i).
  destruct (holds_isS _ _ _ Hh) as [xf Hxf].
  unfold item_delete_branch. apply wp_bind. eapply wp_upd_scope; [done|].
  apply wp_bind. eapply wp_upd_item; [done|]. apply wp_bind.
  eapply wp_get_item; [cbn; by rw lookup_insert_eq|]. apply wp_bind, wp_first_id.
  { destruct (item_has_id s sfx pub i W Hi) as [id Hid]. by exists id. }
  intros id0 Hid0. cbn [ii_ids ii_with_fathers] in Hid0.
  assert (last_fragment id0 = sfx pub) as ->.
  { apply (path_last_fragment _ _ W0 id0). apply (wb_path _ _ (wf_b _ _ W)). right. by exists i. }
  apply wp_bind. eapply wp_get_scope; [cbn; by rw lookup_insert_eq|].
  eapply wp_erase_item_ids; [cbn; by rw lookup_insert_eq|]. cbn [sc_ids sc_with_items ii_ids ii_with_fathers].
  set (L := (λ fid, fid ++ sfx pub) <$> ht_keys (sc_ids xf)).
  set (g := λ x, sc_with_items (ht_erase pub (sc_informationitems x)) x).
  set (i' := mkItem (erase_all L (ii_ids i)) (ht_erase f (ii_fatherScopes i)) (ii_strategy i)).
  set (s' := set_pubIndex _ _).
  assert (scopes s' = alter g f (scopes s)) as Es by exact (eq_sym (alter_insert (scopes s) f xf g Hxf)).
  assert (items s' = <[pub := i']> (items s)) as Ei.
  { unfold s'. cbn. by rw insert_insert_eq. }
  assert (∀ id, id ∈ L ↔ under s sfx f pub pub id) as HL by (intros id; by apply elem_of_under).
  assert (item_branch_gone s s' sfx pub f) as X.
  { split; try done.
    - intros q. unfold isS. rw Es lookup_alter_is_Some. tauto.
    - intros q. unfold isI. rw Ei insert_is_Some. split; [|tauto]. intros [->|Hq]; (split; [assumption|by intros []]).
    - intros q. unfold root. rw (alter_scope_view g f s) //. split.
      + intros (x & Hx & H). split; [|by intros []]. exists x. split; [done|]. by case_decide.
      + intros [(x & Hx & H) _]. exists x. split; [done|]. by case_decide.
    - intros a c. unfold child. rw (alter_scope_view g f s) //. split.
      + intros (x & Hx & H). split; [|by intros []]. exists x. split; [done|]. by case_decide.
      + intros [(x & Hx & H) _]. exists x. split; [done|]. by case_decide.
    - intros a c. unfold sfather. rw (alter_scope_view g f s) //. split.
      + intros (x & Hx & H). split; [|by intros []]. exists x. split; [done|]. by case_decide.
      + intros [(x & Hx & H) _]. exists x. split; [done|]. by case_decide.
    - intros a c. unfold holds. rw (alter_scope_view g f s) //. split.
      + intros (x & Hx & H). case_decide as Ha.
        * apply hs_in_erase in H as [Hne H]. split; [eauto|]. naive_solver.
        * split; [eauto|]. naive_solver.
      + intros [(x & Hx & H) Hn]. exists x. split; [done|]. case_decide; [|done].
        apply hs_in_erase. split; [|done]. naive_solver.
    - intros a c. unfold ifather. rw Ei insert_view. cbn. rw hs_in_erase. split.
      + intros [(-> & Hne & H)|(Hne & H)]; split; eauto; naive_solver.
      + intros [(j & Hj & H) Hn]. destruct (decide (c = pub)) as [->|]; [left|right; eauto].
        split; [done|]. split; [naive_solver|]. congruence.
    - intros k q id pr. destruct k; cbn [opair].
      1,2: rw (alter_scope_spair g f s s') //; split; [|tauto]; intros H; split; [done|]; intros [-> _];
        unfold spair in H; destruct (scopes s !! pub) as [x|] eqn:Hx; [|done];
        apply (ws_disj _ _ W0 pub); [by exists x|done].
      1,2: unfold ipair; rw Ei; destruct (decide (q = pub)) as [->|];
        [rw lookup_insert_eq Hi; cbn; rw get_erase_all; pose proof (HL id); case_decide; naive_solver
        |rw lookup_insert_ne //; unfold under; naive_solver].
    - intros id q. cbn. split; [|tauto]. intros H. split; [done|]. intros [-> _].
      apply (wb_sidx _ _ (wf_b _ _ W)), sids_isS in H. by apply (ws_disj _ _ W0 pub).
    - intros id q. change (pubIndex s') with (erase_all L (pubIndex s)).
      rw get_erase_all. case_decide as Hk.
      + split; [done|]. intros [H Hne]. exfalso. apply Hne.
        apply HL in Hk as Hu. destruct Hu as (_ & pre & Hp & ->).
        split; [|eauto]. apply (wb_pidx _ _ (wf_b _ _ W)) in H.
        eapply (path_fun s sfx W0); [apply (wb_path _ _ (wf_b _ _ W)); by right|].
        apply (path_edge _ _ _ f); [done|by right].
      + split; [|tauto]. intros H. split; [done|]. intros Hu. apply Hk, HL. destruct Hu as [-> Hu]. by split. }
  apply HQ; try done. eapply (shrink_wf s s' sfx); [done|exact X|..].
  - intros q [HS _]%(sh_isS _ _ _ _ _ _ _ X) Hr. destruct (nonroot_father s sfx q W HS Hr) as [a Ha].
    exists a. apply (sh_sfather _ _ _ _ _ _ _ X). split; [done|by intros []].
  - intros q [HIq _]%(sh_isI _ _ _ _ _ _ _ X). destruct (decide (q = pub)) as [->|].
    + exists g'. apply (sh_ifather _ _ _ _ _ _ _ X). split; [by exists i|]. naive_solver.
    + destruct (ws_item _ _ W0 q HIq) as [a Ha].
      exists a. apply (sh_ifather _ _ _ _ _ _ _ X). split; [done|]. naive_solver.
  - intros a c id He [-> _]. by apply edge_isS, (ws_disj _ _ W0) in He.
  - intros a c id He Hne Hp. destruct He as [He|He].
    + left. apply (sh_child _ _ _ _ _ _ _ X). split; [done|by intros []].
    + right. apply (sh_holds _ _ _ _ _ _ _ X). split; [done|]. intros [-> ->]. apply Hne. split; eauto.
  - intros q Hq _. apply (sh_root _ _ _ _ _ _ _ X). split; [done|by intros []].
  - intros id q Hp [-> (pre & Hpre & ->)]. inversion Hp as [q Hq E|pre' a c Hp' He E]; subst.
    + apply (sh_root _ _ _ _ _ _ _ X) in Hq as [Hq%root_isS _]. by apply (ws_disj _ _ W0) in Hq.
    + assert (path s sfx pre' a) as Hp0.
      { clear -Hp' X. induction Hp' as [q Hq|id f' c _ IH He].
        - constructor. by apply (sh_root _ _ _ _ _ _ _ X) in Hq as [? _].
        - apply (path_edge _ _ _ f'); [done|]. by eapply shrink_edge. }
      assert (f = a) as <-.
      { eapply (under_father s sfx f a pub pre'); [done|done|]. split; eauto. }
      destruct He as [[H%(child_isS_r _ _ W0) _]%(sh_child _ _ _ _ _ _ _ X)|[_ Hn]%(sh_holds _ _ _ _ _ _ _ X)].
      * by apply (ws_disj _ _ W0) in H.
      * by apply Hn.
  - intros q Hq. destruct (decide (q = pub)) as [->|].
    + assert (holds s g' pub) as Hg by (apply (ws_holds _ _ W0); by exists i).
      destruct (wf_named _ _ W g') as [id Hid]; [left; by eapply holds_isS|].
      apply (wb_path _ _ (wf_b _ _ W)) in Hid. exists (id ++ sfx pub). split.
      * apply (wf_full _ _ W), (path_edge _ _ _ g'); [done|by right].
      * intros Hu. by apply (under_father _ _ _ _ _ _ W Hid) in Hu.
    + destruct (wf_named _ _ W q) as [id Hid].
      { rw (sh_isS _ _ _ _ _ _ _ X) (sh_isI _ _ _ _ _ _ _ X) in Hq. tauto. }
      exists id. split; [done|]. by intros [-> _].
  - intros k q id pr h Hp (-> & pre & Hpre & ->). unfold item_unused_under in Hun.
    destruct k; cbn [opair pair_sel] in *; unfold spair, ipair in Hp.
    1,2: destruct (scopes s !! pub) as [x|] eqn:Hx; [|done]; exfalso; apply (ws_disj _ _ W0 pub); [by exists x|done].
    all: rw Hi in Hp; cbn in Hp; by destruct (Hun pre pr h Hpre Hp).
Qed.

(** ** A whole scope *)

Definition scope_unused (x : Scope) : Prop :=
  ∀ id pr h, ht_get id (sc_ids x) = Some pr → ¬ hs_in h pr.1 ∧ ¬ hs_in h pr.2.

(** [fo] is the only father of the scope, or [None] for a root. *)
Definition scope_gone s s' sc (fo : option ptr) : Prop :=
  shrinks s s' (λ q, q = sc) (λ _, False) (λ a c, fo = Some a ∧ c = sc) (λ _ _, False) (λ q _, q = sc).

Definition drop_child (fo : option ptr) sc q (x : Scope) : Scope :=
  if decide (fo = Some q) then sc_with_children (ht_erase sc (sc_childrenScopes x)) x else x.

Section scope_gone.
Context s sfx sc fo (x : Scope) (W : wf s sfx) (Hx : scopes s !! sc = Some x)
  (Hfo : ∀ a, sfather s a sc ↔ fo = Some a) (Hleaf : ∀ c, ¬ edge s sc c) (Hun : scope_unused x).
Context s' (Hscopes : ∀ q, scopes s' !! q = if decide (q = sc) then None else drop_child fo sc q <$> scopes s !! q)
  (Hitems : items s' = items s)
  (Hsidx : ∀ id, ht_get id (scopeIndex s') =
    if decide (id ∈ ht_keys (sc_ids x)) then None else ht_get id (scopeIndex s))
  (Hpidx : pubIndex s' = pubIndex s) (Hhosts : hosts s' = hosts s)
  (Hhidx : pub_sub_Index s' = pub_sub_Index s) (Hnext : next s' = next s).

Lemma scope_gone_view (P : Scope → Prop) q :
  (∃ y, scopes s' !! q = Some y ∧ P y) ↔ q ≠ sc ∧ ∃ y, scopes s !! q = Some y ∧ P (drop_child fo sc q y).
Proof. rw Hscopes. case_decide; [naive_solver|]. destruct (scopes s !! q); naive_solver. Qed.

Lemma scope_gone_shrinks : scope_gone s s' sc fo.
Proof.
  pose proof (wf_s _ _ W) as W0. assert (isS s sc) as HS by (by exists x).
  split; try done.
  - intros q. unfold isS. rw Hscopes. case_decide; rw ?fmap_is_Some; [|tauto]. split; [by intros []|tauto].
  - intros q. unfold isI. rw Hitems. tauto.
  - intros q. unfold root. rw scope_gone_view. unfold drop_child. split.
    + intros (Hq & y & Hy & H). split; [|done]. exists y. split; [done|]. by case_decide.
    + intros [(y & Hy & H) Hq]. split; [done|]. exists y. split; [done|]. by case_decide.
  - intros a c. unfold child. rw scope_gone_view. unfold drop_child. split.
    + intros (Ha & y & Hy & H). case_decide as Hf.
      * apply hs_in_erase in H as [Hne H]. split; [eauto|]. naive_solver.
      * split; [eauto|]. naive_solver.
    + intros [(y & Hy & H) Hn]. split.
      { intros ->. apply (Hleaf c). left. by exists y. }
      exists y. split; [done|]. case_decide; [|done]. apply hs_in_erase. split; [|done]. naive_solver.
  - intros a c. unfold sfather. rw scope_gone_view. unfold drop_child. split.
    + intros (Hc & y & Hy & H). split; [exists y; split; [done|]; by case_decide|]. naive_solver.
    + intros [(y & Hy & H) Hn]. split.
      { intros ->. apply Hn. split; [|done]. apply Hfo. by exists y. }
      exists y. split; [done|]. by case_decide.
  - intros a c. unfold holds. rw scope_gone_view. unfold drop_child. split.
    + intros (Ha & y & Hy & H). split; [|by intros []]. exists y. split; [done|]. by case_decide.
    + intros [(y & Hy & H) _]. split.
      { intros ->. apply (Hleaf c). right. by exists y. }
      exists y. split; [done|]. by case_decide.
  - intros a c. unfold ifather. rw Hitems. tauto.
  - intros k q id pr. destruct k; cbn [opair].
    1,2: unfold spair; rw Hscopes; destruct (decide (q = sc)) as [->|];
      [naive_solver|destruct (scopes s !! q) as [y|]; [|naive_solver]; cbn; unfold drop_child; case_decide; naive_solver].
    1,2: unfold ipair; rw Hitems; split; [|tauto]; intros H; split; [done|]; intros ->;
      destruct (items s !! sc) as [i|] eqn:Hi; [|done]; apply (ws_disj _ _ W0 sc); [done|by exists i].
  - intros id q. rw Hsidx. case_decide as Hk.
    + split; [done|]. intros [H Hne]. exfalso. apply Hne.
      apply (sids_keys s sc x id Hx), (wb_sidx _ _ (wf_b _ _ W)) in Hk. congruence.
    + split; [|tauto]. intros H. split; [done|]. intros ->. apply Hk.
      by apply (sids_keys s sc x id Hx), (wb_sidx _ _ (wf_b _ _ W)).
  - intros id q. rw Hpidx. split; [|tauto]. intros H. split; [done|]. intros ->.
    apply (wb_pidx _ _ (wf_b _ _ W)), iids_isI in H. by apply (ws_disj _ _ W0 sc).
Qed.

Lemma scope_gone_wf : wf s' sfx.
Proof.
  pose proof (wf_s _ _ W) as W0. assert (isS s sc) as HS by (by exists x).
  pose proof scope_gone_shrinks as X. eapply (shrink_wf s s' sfx); [done|exact X|..].
  - intros q [Hq Hne]%(sh_isS _ _ _ _ _ _ _ X) Hr. destruct (nonroot_father s sfx q W Hq Hr) as [a Ha].
    exists a. apply (sh_sfather _ _ _ _ _ _ _ X). split; [done|]. naive_solver.
  - intros q [Hq _]%(sh_isI _ _ _ _ _ _ _ X). destruct (ws_item _ _ W0 q Hq) as [a Ha].
    exists a. apply (sh_ifather _ _ _ _ _ _ _ X). split; [done|by intros []].
  - intros a c id He ->. by apply (Hleaf c).
  - intros a c id He Hne _. destruct He as [He|He].
    + left. apply (sh_child _ _ _ _ _ _ _ X). split; [done|]. naive_solver.
    + right. apply (sh_holds _ _ _ _ _ _ _ X). split; [done|by intros []].
  - intros q Hq Hne. apply (sh_root _ _ _ _ _ _ _ X). by split.
  - intros id q Hp ->. revert Hp. apply no_path.
    + by intros [_ []]%(sh_root _ _ _ _ _ _ _ X).
    + intros a [[H Hn]%(sh_child _ _ _ _ _ _ _ X)|[H _]%(sh_holds _ _ _ _ _ _ _ X)].
      * apply Hn. split; [|done]. by apply Hfo, (ws_child _ _ W0).
      * apply (holds_isI_r _ _ W0) in H. by apply (ws_disj _ _ W0 sc).
  - intros q Hq. rw (sh_isS _ _ _ _ _ _ _ X) (sh_isI _ _ _ _ _ _ _ X) in Hq.
    destruct (wf_named _ _ W q) as [id Hid]; [tauto|].
    exists id. split; [done|]. intros ->. destruct Hq as [[_ []]|[Hq _]]; [done|].
    by apply (ws_disj _ _ W0 sc).
  - intros k q id pr h Hp ->. unfold scope_unused in Hun.
    destruct k; cbn [opair pair_sel] in *; unfold spair, ipair in Hp.
    1,2: rw Hx in Hp; cbn in Hp; by destruct (Hun id pr h Hp).
    all: destruct (items s !! sc) as [i|] eqn:Hi; [|done]; exfalso; apply (ws_disj _ _ W0 sc); [done|by exists i].
Qed.
End scope_gone.

Definition others_same s s' : Prop :=
  out s' = out s ∧ localProxy s' = localProxy s ∧ known_rootscopes s' = known_rootscopes s.

(** The end of scope_release, for the last father of the scope. *)
Lemma wp_scope_delete s sfx sc f x (Q : () → rv → Prop) :
  wf s sfx → scopes s !! sc = Some x → (∀ a, hs_in a (sc_fatherScopes x) ↔ a = f) →
  (∀ c, ¬ edge s sc c) → scope_unused x →
  (∀ s', wf s' sfx → scope_gone s s' sc (Some f) → others_same s s' → pubIndex s' = pubIndex s → Q () s') →
  wp (upd_scope f (λ y, sc_with_children (ht_erase sc (sc_childrenScopes y)) y);;
      scope_erase_index sc;; delete_scope sc) Q s.
Proof.
  intros W Hx Hfa Hleaf Hun HQ. pose proof (wf_s _ _ W) as W0.
  assert (∀ a, sfather s a sc ↔ Some f = Some a) as Hfo.
  { intros a. unfold sfather. rw Hx. split.
    - intros (y & [= <-] & H). f_equal. symmetry. by apply Hfa.
    - intros [= <-]. exists x. split; [done|]. by apply Hfa. }
  assert (child s f sc) as Hc by (by apply (ws_child _ _ W0), Hfo).
  destruct (child_isS _ _ _ Hc) as [xf Hxf].
  assert (sc ≠ f) as Hne by (intros ->; apply (Hleaf f); by left).
  apply wp_bind. eapply wp_upd_scope; [done|]. unfold scope_erase_index. apply wp_bind, wp_bind.
  eapply wp_get_scope; [cbn; by rw lookup_insert_ne|]. apply wp_erase_scopeIndex.
  eapply wp_delete_scope; [cbn; by rw lookup_insert_ne|]. set (s' := set_scopes _ _).
  assert (∀ q, scopes s' !! q = if decide (q = sc) then None else drop_child (Some f) sc q <$> scopes s !! q) as Hsc.
  { intros q. unfold s'. cbn [scopes set_scopes set_scopeIndex]. unfold drop_child.
    case_decide as E; [rw E; by rw lookup_delete_eq|rw lookup_delete_ne //].
    destruct (decide (q = f)) as [->|Hq]; [rw lookup_insert_eq Hxf; cbn; by case_decide|].
    rw lookup_insert_ne //. case_decide; [naive_solver|]. by destruct (scopes s !! q). }
  assert (∀ id, ht_get id (scopeIndex s') =
    if decide (id ∈ ht_keys (sc_ids x)) then None else ht_get id (scopeIndex s)) as Hidx.
  { intros id. unfold s'. cbn [scopeIndex set_scopes set_scopeIndex]. apply get_erase_all. }
  apply HQ; [|by apply (scope_gone_shrinks s sfx sc (Some f) x)|done|done].
  by apply (scope_gone_wf s sfx sc (Some f) x W Hx Hfo Hleaf Hun s').
Qed.

(** The same for a root scope. *)
Lemma wp_root_delete s sfx sc x (Q : () → rv → Prop) :
  wf s sfx → scopes s !! sc = Some x → root s sc →
  (∀ c, ¬ edge s sc c) → scope_unused x →
  (∀ s', wf s' sfx → scope_gone s s' sc None → others_same s s' → pubIndex s' = pubIndex s → Q () s') →
  wp (scope_erase_index sc;; delete_scope sc) Q s.
Proof.
  intros W Hx Hr Hleaf Hun HQ. pose proof (wf_s _ _ W) as W0.
  assert (∀ a, sfather s a sc ↔ (None : option ptr) = Some a) as Hfo.
  { intros a. split; [|done]. intros Ha.
    exfalso. refine (proj1 (ws_root _ _ W0 sc _) Hr a Ha). by exists x. }
  unfold scope_erase_index. apply wp_bind, wp_bind.
  eapply wp_get_scope; [done|]. apply wp_erase_scopeIndex.
  eapply wp_delete_scope; [done|]. set (s' := set_scopes _ _).
  assert (∀ q, scopes s' !! q = if decide (q = sc) then None else drop_child None sc q <$> scopes s !! q) as Hsc.
  { intros q. unfold s'. cbn [scopes set_scopes set_scopeIndex]. unfold drop_child.
    case_decide as E; [rw E; by rw lookup_delete_eq|rw lookup_delete_ne //].
    destruct (scopes s !! q); [cbn|done]. by case_decide. }
  assert (∀ id, ht_get id (scopeIndex s') =
    if decide (id ∈ ht_keys (sc_ids x)) then None else ht_get id (scopeIndex s)) as Hidx.
  { intros id. unfold s'. cbn [scopeIndex set_scopes set_scopeIndex]. apply get_erase_all. }
  apply HQ; [|by apply (scope_gone_shrinks s sfx sc None x)|done|done].
  by apply (scope_gone_wf s sfx sc None x W Hx Hfo Hleaf Hun s').
Qed.

(** ** One branch of a scope *)

Definition scope_unused_under s sfx (x : Scope) f sc : Prop :=
  ∀ pre pr h, path s sfx pre f → ht_get (pre ++ sfx sc) (sc_ids x) = Some pr → ¬ hs_in h pr.1 ∧ ¬ hs_in h pr.2.

Definition scope_branch_gone s s' sfx sc f : Prop :=
  shrinks s s' (λ _, False) (λ _, False) (λ a c, a = f ∧ c = sc) (λ _ _, False) (under s sfx f sc).

(** The end of scope_release when the scope has other fathers. *)
Lemma wp_scope_delete_branch s sfx sc f x (Q : () → rv → Prop) :
  wf s sfx → scopes s !! sc = Some x → hs_in f (sc_fatherScopes x) →
  (∃ g, g ≠ f ∧ hs_in g (sc_fatherScopes x)) →
  (∀ c, ¬ edge s sc c) → scope_unused_under s sfx x f sc →
  (∀ s', wf s' sfx → scope_branch_gone s s' sfx sc f → others_same s s' → pubIndex s' = pubIndex s → Q () s') →
  wp (upd_scope f (λ y, sc_with_children (ht_erase sc (sc_childrenScopes y)) y);;
      upd_scope sc (λ x, sc_with_fathers (ht_erase f (sc_fatherScopes x)) x);;
      x ← get_scope sc;
      id0 ← lift_res (first_id (sc_ids x));
      let suffixID := last_fragment id0 in
      f ← get_scope f;
      mfor (ht_keys (sc_ids f)) (λ fid,
        upd_scope sc (λ x, sc_with_ids (ht_erase (fid ++ suffixID) (sc_ids x)) x);;
        modify (λ s, set_scopeIndex (ht_erase (fid ++ suffixID) (scopeIndex s)) s))) Q s.
Proof.
  intros W Hx Hf (g' & Hg' & Hg'f) Hleaf Hun HQ. pose proof (wf_s _ _ W) as W0.
  assert (isS s sc) as HS by (by exists x).
  assert (child s f sc) as Hc by (apply (ws_child _ _ W0); by exists x).
  destruct (child_isS _ _ _ Hc) as [xf Hxf].
  assert (sc ≠ f) as Hne by (intros ->; apply (Hleaf f); by left).
  apply wp_bind. eapply wp_upd_scope; [done|].
  apply wp_bind. eapply wp_upd_scope; [cbn; by rw lookup_insert_ne|]. apply wp_bind.
  eapply wp_get_scope; [cbn; by rw lookup_insert_eq|]. apply wp_bind, wp_first_id.
  { destruct (scope_has_id s sfx sc x W Hx) as [id Hid]. by exists id. }
  intros id0 Hid0. cbn [sc_ids sc_with_fathers] in Hid0.
  assert (last_fragment id0 = sfx sc) as ->.
  { apply (path_last_fragment _ _ W0 id0). apply (wb_path _ _ (wf_b _ _ W)). left. by exists x. }
  apply wp_bind. eapply wp_get_scope; [cbn; rw lookup_insert_ne // lookup_insert_eq //|].
  eapply wp_erase_scope_ids; [cbn; by rw lookup_insert_eq|]. cbn [sc_ids sc_with_children sc_with_fathers].
  set (L := (λ fid, fid ++ sfx sc) <$> ht_keys (sc_ids xf)).
  set (x' := mkScope (erase_all L (sc_ids x)) (sc_isRoot x) (ht_erase f (sc_fatherScopes x))
    (sc_childrenScopes x) (sc_informationitems x) (sc_strategy x)).
  set (xf' := sc_with_children (ht_erase sc (sc_childrenScopes xf)) xf).
  set (s' := set_scopeIndex _ _).
  assert (scopes s' = <[sc := x']> (<[f := xf']> (scopes s))) as Es.
  { unfold s'. cbn. by rw insert_insert_eq. }
  assert (∀ id, id ∈ L ↔ under s sfx f sc sc id) as HL by (intros id; by apply elem_of_under).
  assert (∀ (P : Scope → Prop) q, (∃ y, scopes s' !! q = Some y ∧ P y) ↔
    (q = sc ∧ P x') ∨ (q = f ∧ P xf') ∨ (q ≠ sc ∧ q ≠ f ∧ ∃ y, scopes s !! q = Some y ∧ P y)) as Hview.
  { intros P q. rw Es insert_view insert_view. split; [|naive_solver].
    intros [?|(? & [?|(? & ?)])]; [tauto|tauto|]. right. right. by split_and!. }
  assert (∀ (P : Scope → Prop) q, (P x' ↔ P x) → (P xf' ↔ P xf) →
    (∃ y, scopes s' !! q = Some y ∧ P y) ↔ ∃ y, scopes s !! q = Some y ∧ P y) as Hsame.
  { intros P q H1 H2. rw Hview H1 H2. destruct (decide (q = sc)) as [->|]; [naive_solver|].
    destruct (decide (q = f)) as [->|]; naive_solver. }
  assert (scope_branch_gone s s' sfx sc f) as X.
  { split; try done.
    - intros q. unfold isS. rw Es !insert_is_Some. split; [|tauto].
      intros Hq. split; [|by intros []]. destruct Hq as [->|[->|?]]; [done|by exists xf|done].
    - intros q. unfold isI. cbn. tauto.
    - intros q. unfold root. rw Hsame //. tauto.
    - intros a c. unfold child. rw Hview. cbn. rw hs_in_erase. split.
      + intros [[-> H]|[(-> & Hn & H)|(Hn1 & Hn2 & y & Hy & H)]].
        * exfalso. apply (Hleaf c). left. by exists x.
        * split; [by exists xf|]. naive_solver.
        * split; [by exists y|]. naive_solver.
      + intros [(y & Hy & H) Hn]. destruct (decide (a = sc)) as [->|].
        { exfalso. apply (Hleaf c). left. by exists y. }
        right. destruct (decide (a = f)) as [->|]; [left|right; eauto].
        split_and!; [done|naive_solver|congruence].
    - intros a c. unfold sfather. rw Hview. cbn. rw hs_in_erase. split.
      + intros [(-> & Hn & H)|[(-> & H)|(Hn1 & Hn2 & y & Hy & H)]].
        * split; [by exists x|]. naive_solver.
        * split; [by exists xf|]. naive_solver.
        * split; [by exists y|]. naive_solver.
      + intros [(y & Hy & H) Hn]. destruct (decide (c = sc)) as [->|].
        { left. split_and!; [done|naive_solver|congruence]. }
        right. destruct (decide (c = f)) as [->|]; [left|right; eauto].
        split; [done|congruence].
    - intros a c. unfold holds. rw Hsame //. tauto.
    - intros a c. unfold ifather. cbn. tauto.
    - intros k q id pr. destruct k; cbn [opair].
      1,2: unfold spair; rw Es; destruct (decide (q = sc)) as [->|];
        [rw lookup_insert_eq Hx; cbn; rw get_erase_all; pose proof (HL id); case_decide; naive_solver|];
        rw lookup_insert_ne //; destruct (decide (q = f)) as [->|];
        [rw lookup_insert_eq Hxf; cbn; unfold under; naive_solver|rw lookup_insert_ne //; unfold under; naive_solver].
      1,2: unfold ipair; cbn [items s' set_scopeIndex set_scopes]; split; [|tauto]; intros H; split; [done|];
        intros [-> _]; destruct (items s !! sc) as [i|] eqn:Hi; [|done]; apply (ws_disj _ _ W0 sc); [done|by exists i].
    - intros id q. change (scopeIndex s') with (erase_all L (scopeIndex s)).
      rw get_erase_all. case_decide as Hk.
      + split; [done|]. intros [H Hn]. exfalso. apply Hn.
        apply HL in Hk as Hu. destruct Hu as (_ & pre & Hp & ->).
        split; [|eauto]. apply (wb_sidx _ _ (wf_b _ _ W)) in H.
        eapply (path_fun s sfx W0); [apply (wb_path _ _ (wf_b _ _ W)); by left|].
        apply (path_edge _ _ _ f); [done|by left].
      + split; [|tauto]. intros H. split; [done|]. intros Hu. apply Hk, HL. destruct Hu as [-> Hu]. by split.
    - intros id q. cbn. split; [|tauto]. intros H. split; [done|]. intros [-> _].
      apply (wb_pidx _ _ (wf_b _ _ W)), iids_isI in H. by apply (ws_disj _ _ W0 sc). }
  apply HQ; try done. eapply (shrink_wf s s' sfx); [done|exact X|..].
  - intros q [Hq _]%(sh_isS _ _ _ _ _ _ _ X) Hr. destruct (decide (q = sc)) as [->|].
    + exists g'. apply (sh_sfather _ _ _ _ _ _ _ X). split; [by exists x|]. naive_solver.
    + destruct (nonroot_father s sfx q W Hq Hr) as [a Ha].
      exists a. apply (sh_sfather _ _ _ _ _ _ _ X). split; [done|]. naive_solver.
  - intros q [Hq _]%(sh_isI _ _ _ _ _ _ _ X). destruct (ws_item _ _ W0 q Hq) as [a Ha].
    exists a. apply (sh_ifather _ _ _ _ _ _ _ X). split; [done|by intros []].
  - intros a c id He [-> _]. by apply (Hleaf c).
  - intros a c id He Hn Hp. destruct He as [He|He].
    + left. apply (sh_child _ _ _ _ _ _ _ X). split; [done|]. intros [-> ->]. apply Hn. split; eauto.
    + right. apply (sh_holds _ _ _ _ _ _ _ X). split; [done|by intros []].
  - intros q Hq _. apply (sh_root _ _ _ _ _ _ _ X). split; [done|by intros []].
  - intros id q Hp [-> (pre & Hpre & ->)]. inversion Hp as [q Hq E|pre' a c Hp' He E]; subst.
    + apply (sh_root _ _ _ _ _ _ _ X) in Hq as [Hq _]. refine (proj1 (ws_root _ _ W0 sc HS) Hq f _). by exists x.
    + assert (path s sfx pre' a) as Hp0.
      { clear -Hp' X. induction Hp' as [q Hq|id f' c _ IH He].
        - constructor. by apply (sh_root _ _ _ _ _ _ _ X) in Hq as [? _].
        - apply (path_edge _ _ _ f'); [done|]. by eapply shrink_edge. }
      assert (f = a) as <-.
      { eapply (under_father s sfx f a sc pre'); [done|done|]. split; eauto. }
      destruct He as [[_ Hn]%(sh_child _ _ _ _ _ _ _ X)|[H _]%(sh_holds _ _ _ _ _ _ _ X)].
      * by apply Hn.
      * apply (holds_isI_r _ _ W0) in H. by apply (ws_disj _ _ W0 sc).
  - intros q Hq. destruct (decide (q = sc)) as [->|].
    + assert (child s g' sc) as Hg by (apply (ws_child _ _ W0); by exists x).
      destruct (wf_named _ _ W g') as [id Hid]; [left; by eapply child_isS|].
      apply (wb_path _ _ (wf_b _ _ W)) in Hid. exists (id ++ sfx sc). split.
      * apply (wf_full _ _ W), (path_edge _ _ _ g'); [done|by left].
      * intros Hu. by apply (under_father _ _ _ _ _ _ W Hid) in Hu.
    + destruct (wf_named _ _ W q) as [id Hid].
      { rw (sh_isS _ _ _ _ _ _ _ X) (sh_isI _ _ _ _ _ _ _ X) in Hq. tauto. }
      exists id. split; [done|]. by intros [-> _].
  - intros k q id pr h Hp (-> & pre & Hpre & ->). unfold scope_unused_under in Hun.
    destruct k; cbn [opair pair_sel] in *; unfold spair, ipair in Hp.
    1,2: rw Hx in Hp; cbn in Hp; by destruct (Hun pre pr h Hpre Hp).
    all: destruct (items s !! sc) as [i|] eqn:Hi; [|done]; exfalso; apply (ws_disj _ _ W0 sc); [done|by exists i].
Qed.
End remove.
