(* ===== verification/RvUnpublish.v ===== *)
(** * Requests that remove: unpublish and unsubscribe

    Rules for the tests and releases the removing requests share, for
    [unpublish_info], which the matching of one-shot items also calls, and for
    the loops over publishers and items. *)

From S2P Require Import Prelude Enums HashTable RvStore LocalRV RvGraph RvUpdate RvInvariant RvOps RvAdd RvRemove.

Section unpublish.
Context `{CT : ClickTables}.
Implicit Types (s : rv) (p q f c : ptr) (id : bytes) (sfx : ptr → bytes).

(** ** Tests for other publishers and subscribers *)

Lemma pair_used_false (pr : RemoteHostPair) h : pair_used pr = false → ¬ hs_in h pr.1 ∧ ¬ hs_in h pr.2.
Proof.
  unfold pair_used. intros [H1%negb_false_iff H2%negb_false_iff]%orb_false_iff.
  split; intros [u Hu]; [rw (proj1 (ht_is_empty_true _) H1) in Hu|rw (proj1 (ht_is_empty_true _) H2) in Hu]; done.
Qed.

Lemma pair_used_true (pr : RemoteHostPair) : pair_used pr = true ↔ ∃ h, hs_in h pr.1 ∨ hs_in h pr.2.
Proof.
  unfold pair_used. rw orb_true_iff !negb_true_iff !ht_is_empty_false. unfold hs_in. naive_solver.
Qed.

(** The test dereferences a pair for every identifier of the father: it is
    safe when the table has them all. *)
Lemma other_pubsub_under_ok (ids : IdsHashMap) suf l :
  (∀ fid, fid ∈ l → is_Some (ht_get (fid ++ suf) ids)) →
  ∃ b, other_pubsub_under ids suf l = Ok b ∧
    (b = true ↔ ∃ fid pr, fid ∈ l ∧ ht_get (fid ++ suf) ids = Some pr ∧ pair_used pr = true).
Proof.
  induction l as [|fid l IH]; intros Hl; cbn [other_pubsub_under].
  - exists false. split; [done|]. split; [done|]. by intros (? & ? & ?%elem_of_nil & _).
  - destruct (Hl fid) as [pr Hpr]; [by left|]. rw Hpr. cbn.
    destruct (pair_used pr) eqn:Hu.
    + exists true. split; [done|]. split; [|done]. intros _. exists fid, pr. split_and!; [by left|done..].
    + destruct IH as (b & Hb & Hiff); [intros; apply Hl; by right|]. exists b. split; [done|].
      rw Hiff. split; intros (fid' & pr' & Hin & H & Hu'); exists fid', pr'.
      * split; [by right|done].
      * apply elem_of_cons in Hin as [->|Hin]; [congruence|done].
Qed.

Lemma wp_item_check s sfx pub f i (Q : bool → rv → Prop) :
  wf s sfx → items s !! pub = Some i → hs_in f (ii_fatherScopes i) →
  (∀ b, (b = false → item_unused_under s sfx i f pub) →
        (b = true → ∃ pre pr, path s sfx pre f ∧ ht_get (pre ++ sfx pub) (ii_ids i) = Some pr ∧ pair_used pr = true) →
        Q b s) →
  wp (InformationItem_checkForOtherPubSub pub f) Q s.
Proof.
  intros W Hi Hf HQ. pose proof (wf_s _ _ W) as W0.
  assert (holds s f pub) as Hh by (apply (ws_holds _ _ W0); by exists i).
  destruct (holds_isS _ _ _ Hh) as [xf Hxf].
  unfold InformationItem_checkForOtherPubSub. apply wp_bind. eapply wp_get_item; [done|].
  apply wp_bind, wp_first_id; [by eapply item_has_id|].
  intros id0 Hid0. apply wp_bind. eapply wp_get_scope; [done|].
  assert (last_fragment id0 = sfx pub) as ->.
  { apply (path_last_fragment s sfx W0 id0 pub). apply (wb_path _ _ (wf_b _ _ W)). right. by exists i. }
  destruct (other_pubsub_under_ok (ii_ids i) (sfx pub) (ht_keys (sc_ids xf))) as (b & Hb & Hiff).
  { intros fid Hfid. apply (scope_paths s sfx f xf fid W Hxf) in Hfid.
    assert (path s sfx (fid ++ sfx pub) pub) as Hp by (apply (path_edge _ _ _ f); [done|by right]).
    apply (wf_full _ _ W) in Hp as [Hp%sids_isS|(i' & Hi' & H)].
    - exfalso. apply (ws_disj _ _ W0 pub Hp). by exists i.
    - rw Hi in Hi'. by injection Hi' as <-. }
  eapply wp_lift_res; [exact Hb|]. apply HQ.
  - intros ->. intros pre pr h Hpre Hpr. apply pair_used_false. destruct (pair_used pr) eqn:Hu; [|done].
    enough (false = true) by done. apply Hiff. exists pre, pr. split_and!; [|done..].
    by apply (scope_paths s sfx f xf).
  - intros Ht. apply Hiff in Ht as (pre & pr & Hin & H & Hu). exists pre, pr. split_and!; [|done..].
    by apply (scope_paths s sfx f xf).
Qed.

(** With one father, what is unused under it is unused. *)
Lemma item_unused_one_father s sfx pub f i : wf s sfx → items s !! pub = Some i →
  (∀ g, hs_in g (ii_fatherScopes i) → g = f) → item_unused_under s sfx i f pub → item_unused i.
Proof.
  intros W Hi Hone Hun id pr h Hid. pose proof (wf_s _ _ W) as W0.
  assert (path s sfx id pub) as Hp.
  { apply (wb_path _ _ (wf_b _ _ W)). right. exists i. split; [done|by exists pr]. }
  assert (¬ root s pub) as Hr.
  { intros Hr%root_isS. apply (ws_disj _ _ W0 pub Hr). by exists i. }
  apply (path_edge_inv s sfx id pub Hr) in Hp as (pre & g & -> & Hpre & [He|He]).
  - exfalso. apply (ws_disj _ _ W0 pub); [by apply (child_isS_r _ _ W0) in He|by exists i].
  - assert (g = f) as ->.
    { apply Hone. apply (ws_holds _ _ W0) in He as (i' & Hi' & H). congruence. }
    by apply (Hun pre pr h Hpre).
Qed.

(** ** The rendezvous after a removal *)

Lemma wp_rendezvous_unless_known s sfx pub i roots update_only (Q : () → rv → Prop) :
  wf s sfx → items s !! pub = Some i → (∃ r, ht_first roots = Some r) → Q () s →
  (∀ subs, alive_hosts s subs → (∀ h, hs_in h subs ↔ interested_in s pub h) →
    Q () (say (rendezvous_msgs s i subs update_only) s)) →
  wp (rendezvous_unless_known pub roots update_only) Q s.
Proof.
  intros W Hi [r Hr] HQ1 HQ2. unfold rendezvous_unless_known, first_root_known.
  apply wp_bind, wp_bind. eapply wp_lift_opt; [done|]. wps.
  destruct (ht_mem r (known_rootscopes s)); [by apply wp_ret|].
  apply wp_bind. eapply wp_interested; [done|by exists i|]. intros subs Ha Hs.
  eapply wp_rendezvous; eauto.
Qed.

(** ** What unpublishing leaves alone *)

(** Publications of items may go, with items nobody uses; scopes, hosts and
    everything else stays. *)
Record unpub sfx s s' : Prop := {
  un_wf : wf s' sfx;
  un_path : ∀ id p, path s' sfx id p → path s sfx id p;
  un_isS : ∀ p, isS s' p ↔ isS s p;
  un_root : ∀ p, root s' p ↔ root s p;
  un_sidx : ∀ id, ht_get id (scopeIndex s') = ht_get id (scopeIndex s);
  un_hosts : ∀ h, is_Some (hosts s' !! h) ↔ is_Some (hosts s !! h);
  un_known : known_rootscopes s' = known_rootscopes s;
  un_proxy : localProxy s' = localProxy s;
  un_hidx : pub_sub_Index s' = pub_sub_Index s;
  un_in : ∀ k id h, member s' k id h → member s k id h;
  un_keep : ∀ k id h, k ≠ PubItem → member s k id h → member s' k id h;
}.

Lemma unpub_refl sfx s : wf s sfx → unpub sfx s s.
Proof. by split. Qed.

Lemma unpub_trans sfx s1 s2 s3 : unpub sfx s1 s2 → unpub sfx s2 s3 → unpub sfx s1 s3.
Proof.
  intros A B. split.
  - apply B.
  - intros id p Hp. by apply (un_path _ _ _ A), (un_path _ _ _ B).
  - intros p. etrans; [apply (un_isS _ _ _ B)|apply (un_isS _ _ _ A)].
  - intros p. etrans; [apply (un_root _ _ _ B)|apply (un_root _ _ _ A)].
  - intros id. etrans; [apply (un_sidx _ _ _ B)|apply (un_sidx _ _ _ A)].
  - intros h. etrans; [apply (un_hosts _ _ _ B)|apply (un_hosts _ _ _ A)].
  - etrans; [apply (un_known _ _ _ B)|apply (un_known _ _ _ A)].
  - etrans; [apply (un_proxy _ _ _ B)|apply (un_proxy _ _ _ A)].
  - etrans; [apply (un_hidx _ _ _ B)|apply (un_hidx _ _ _ A)].
  - intros k id h H. by apply (un_in _ _ _ A), (un_in _ _ _ B).
  - intros k id h Hk H. by apply (un_keep _ _ _ B), (un_keep _ _ _ A).
Qed.

Lemma say_path s sfx o id p : path (say o s) sfx id p ↔ path s sfx id p.
Proof. split; (induction 1 as [q Hq|id f c _ IH He]; [by constructor|by apply (path_edge _ _ _ f)]). Qed.

Lemma unpub_say sfx s s' o : unpub sfx s s' → unpub sfx s (say o s').
Proof.
  intros []. split; try done.
  - by apply wf_say.
  - intros id p Hp%say_path. auto.
Qed.

Lemma shrinks_member s s' sfx DS DI DC DH D k id h :
  wf s sfx → wf s' sfx → shrinks s s' DS DI DC DH D → member s' k id h ↔ member s k id h.
Proof.
  intros W W' X. rw (wh_mirror _ (wf_h _ _ W)) (wh_mirror _ (wf_h _ _ W')). unfold host_has.
  by rw (sh_hosts _ _ _ _ _ _ _ X).
Qed.

Lemma shrinks_path s s' sfx DS DI DC DH D id p :
  wf s sfx → wf s' sfx → shrinks s s' DS DI DC DH D → path s' sfx id p → path s sfx id p.
Proof.
  intros W W' X [Hp|Hp]%(wf_full _ _ W'); apply (wb_path _ _ (wf_b _ _ W)).
  - left. apply sids_opair in Hp as [pr Hp]. apply sids_opair. exists pr.
    by apply (sh_opair _ _ _ _ _ _ _ X) in Hp as [? _].
  - right. apply iids_opair in Hp as [pr Hp]. apply iids_opair. exists pr.
    by apply (sh_opair _ _ _ _ _ _ _ X) in Hp as [? _].
Qed.

(** A state that lost items or branches of items. *)
Lemma shrinks_unpub s s' sfx DI DH D :
  wf s sfx → wf s' sfx → shrinks s s' (λ _, False) DI (λ _ _, False) DH D →
  localProxy s' = localProxy s → known_rootscopes s' = known_rootscopes s →
  (∀ id, ht_get id (scopeIndex s') = ht_get id (scopeIndex s)) → unpub sfx s s'.
Proof.
  intros W W' X E1 E2 E3. split; try done.
  - intros. by eapply shrinks_path.
  - intros p. rw (sh_isS _ _ _ _ _ _ _ X). tauto.
  - intros p. rw (sh_root _ _ _ _ _ _ _ X). tauto.
  - intros h. by rw (sh_hosts _ _ _ _ _ _ _ X).
  - by rw (sh_hidx _ _ _ _ _ _ _ X).
  - intros k id h. by rw (shrinks_member _ _ _ _ _ _ _ _ _ _ _ W W' X).
  - intros k id h _. by rw (shrinks_member _ _ _ _ _ _ _ _ _ _ _ W W' X).
Qed.

(** Fewer members of one kind. *)
Lemma del_member_index k p id h s :
  scopeIndex (del_member k p id h s) = scopeIndex s ∧ pubIndex (del_member k p id h s) = pubIndex s ∧
  known_rootscopes (del_member k p id h s) = known_rootscopes s ∧
  localProxy (del_member k p id h s) = localProxy s ∧ pub_sub_Index (del_member k p id h s) = pub_sub_Index s ∧
  out (del_member k p id h s) = out s.
Proof. unfold del_member, set_pair. by destruct (scope_kind k). Qed.

Lemma del_member_graph k p id h s : same_graph s (del_member k p id h s).
Proof.
  unfold del_member. etrans; [apply (set_pair_same_graph k p id (pair_with k (ht_erase h)))|]. by split.
Qed.

Lemma del_member_hosts k p id h s h' :
  is_Some (hosts (del_member k p id h s) !! h') ↔ is_Some (hosts s !! h').
Proof.
  unfold del_member, set_host. cbn [hosts set_hosts]. rw lookup_alter_is_Some.
  unfold set_pair. by destruct (scope_kind k).
Qed.

Lemma del_publisher_unpub s sfx p id h pr :
  wf s sfx → opair s PubItem p id = Some pr → is_Some (hosts s !! h) →
  unpub sfx s (del_member PubItem p id h s).
Proof.
  intros W Hp Hh. pose proof (del_member_graph PubItem p id h s) as G.
  destruct (del_member_index PubItem p id h s) as (? & ? & ? & ? & ? & ?).
  split; try done.
  - by eapply wf_del_member.
  - intros id' p'. by rw (sg_path _ _ G).
  - intros. by rw del_member_hosts.
  - intros k id' h'. rw (del_member_member s sfx PubItem p id h pr k id' h' W Hp Hh). tauto.
  - intros k id' h' Hk Hm. apply (del_member_member s sfx PubItem p id h pr k id' h' W Hp Hh). split; [done|].
    by intros (-> & _).
Qed.

(** ** unpublish_info *)

Lemma fathers_one (t : PtrSet) f : (ht_size t =? 1)%nat = true → hs_in f t → ∀ g, hs_in g t ↔ g = f.
Proof.
  intros E%Nat.eqb_eq Hf g. split; [|by intros ->]. intros Hg. by apply (ht_size_1 t f E Hf g Hg).
Qed.
Lemma fathers_more (t : PtrSet) f : (ht_size t =? 1)%nat = false → hs_in f t → ∃ g, g ≠ f ∧ hs_in g t.
Proof. intros E%Nat.eqb_neq Hf. by apply (ht_size_ne_1 t f E). Qed.

(** The item found under [prefix ++ ID] is an item of the scope [prefix]. *)
Lemma item_father s sfx prefix ID pub : wf s sfx → length ID = PURSUIT_ID_LEN →
  ht_get (prefix ++ ID) (pubIndex s) = Some pub →
  ∃ f, ht_get prefix (scopeIndex s) = Some f ∧ holds s f pub ∧ path s sfx prefix f ∧ ID = sfx pub.
Proof.
  intros W Hl Hpub. pose proof (wf_s _ _ W) as W0.
  destruct (find_item_path s sfx _ pub W Hpub) as [Hp HI].
  assert (¬ root s pub) as Hr by (intros Hr%root_isS; by apply (ws_disj _ _ W0 pub Hr)).
  apply (path_edge_inv s sfx _ pub Hr) in Hp as (pre & f & E & Hpre & He).
  apply app_inj_suffix in E as [<- ->]; [|rw Hl; symmetry; apply (ws_len _ _ W0); auto].
  destruct He as [He|He].
  - exfalso. by apply (ws_disj _ _ W0 pub); [apply (child_isS_r _ _ W0) in He|].
  - exists f. split_and!; try done. apply (wf_index_path s sfx); [done|by eapply holds_isS|done].
Qed.

(** The pair that goes with an identifier in the item index. *)
Lemma item_index_pair s sfx id pub : wf s sfx → ht_get id (pubIndex s) = Some pub →
  ∃ i pr, items s !! pub = Some i ∧ ht_get id (ii_ids i) = Some pr ∧ ipair s pub id = Some pr.
Proof.
  intros W (i & Hi & [pr Hpr])%(wb_pidx _ _ (wf_b _ _ W)). exists i, pr. split_and!; [done..|].
  unfold ipair. by rw Hi.
Qed.
Lemma scope_index_pair s sfx id p : wf s sfx → ht_get id (scopeIndex s) = Some p →
  ∃ x pr, scopes s !! p = Some x ∧ ht_get id (sc_ids x) = Some pr ∧ spair s p id = Some pr.
Proof.
  intros W (x & Hx & [pr Hpr])%(wb_sidx _ _ (wf_b _ _ W)). exists x, pr. split_and!; [done..|].
  unfold spair. by rw Hx.
Qed.

(** A handler that takes a publication or subscription away: on success
    exactly that member is gone; otherwise nothing has changed. *)
Definition removed (k : kind) id h s (r : RvReturnCode) s' : Prop :=
  match r with
  | SUCCESS => member s k id h ∧
      ∀ k' id' h', member s' k' id' h' ↔ member s k' id' h' ∧ ¬ (k' = k ∧ id' = id ∧ h' = h)
  | _ => s' = s
  end.

(** Both ways an item can go: with its last father, or one branch of it. *)
Lemma wp_item_release s sfx pub f i (Q : () → rv → Prop) :
  wf s sfx → items s !! pub = Some i → hs_in f (ii_fatherScopes i) → item_unused_under s sfx i f pub →
  (∀ s', unpub sfx s s' → (∀ k id h, member s' k id h ↔ member s k id h) → out s' = out s →
    (∀ q, isI s q → isI s' q ∨ q = pub) →
    ((ht_size (ii_fatherScopes i) =? 1)%nat = false → isI s' pub) → Q () s') →
  wp (if (ht_size (ii_fatherScopes i) =? 1)%nat then item_delete_all pub f else item_delete_branch pub f) Q s.
Proof.
  intros W Hi Hf Hun HQ. assert (isI s pub) as HI by (by exists i).
  destruct (ht_size (ii_fatherScopes i) =? 1)%nat eqn:E.
  - pose proof (fathers_one _ f E Hf) as Hone.
    eapply wp_item_delete_all; [done..| |].
    + apply (item_unused_one_father s sfx pub f i W Hi); [|done]. intros g. by rw Hone.
    + intros s' W' X Eo El Ek Es. apply HQ; [|intros; by eapply shrinks_member|done| |done].
      * eapply (shrinks_unpub s s' sfx); try done. intros id. by rw Es.
      * intros q Hq. destruct (decide (q = pub)); [by right|left]. by apply (sh_isI _ _ _ _ _ _ _ X).
  - eapply wp_item_delete_branch; [done..|by apply fathers_more|done|].
    intros s' W' X Eo El Ek Es. apply HQ; [|intros; by eapply shrinks_member|done| |].
    + eapply (shrinks_unpub s s' sfx); try done. intros id. by rw Es.
    + intros q Hq. left. apply (sh_isI _ _ _ _ _ _ _ X). tauto.
    + intros _. apply (sh_isI _ _ _ _ _ _ _ X). tauto.
Qed.

(** [del_member] of an item keeps its fathers. *)
Lemma del_member_item s k p id h i : items s !! p = Some i →
  ∃ i', items (del_member k p id h s) !! p = Some i' ∧ ii_fatherScopes i' = ii_fatherScopes i ∧
    ii_strategy i' = ii_strategy i.
Proof.
  intros Hi. pose proof (sg_items _ _ (del_member_graph k p id h s) p) as E. rw Hi in E.
  destruct (items (del_member k p id h s) !! p) as [i'|]; [|done]. injection E as E1 E2. by exists i'.
Qed.

(** What the run of unpublish_info leaves, for the code [r] it returns. *)
Definition unpublish_info_post sfx h id s (r : RvReturnCode) s' : Prop :=
  unpub sfx s s' ∧ removed PubItem id h s r s' ∧
  ∀ q, isI s q → isI s' q ∨ ht_get id (pubIndex s) = Some q.

Lemma wp_unpublish_info s sfx h ID prefix st uo :
  wf s sfx → length ID = PURSUIT_ID_LEN →
  wp (unpublish_info h ID prefix st uo) (unpublish_info_post sfx h (prefix ++ ID) s) s.
Proof.
  intros W Hl. pose proof (wf_s _ _ W) as W0.
  assert (∀ r, r ≠ SUCCESS → unpublish_info_post sfx h (prefix ++ ID) s r s) as Hno.
  { intros r Hr. split; [by apply unpub_refl|]. split; [by destruct r|auto]. }
  unfold unpublish_info, find_item, find_scope. wps.
  destruct (ht_get (prefix ++ ID) (pubIndex s)) as [pub|] eqn:Hpub; [|by apply wp_ret, Hno].
  destruct (item_father s sfx prefix ID pub W Hl Hpub) as (f & Hf & Hh & Hpre & EID). rw Hf.
  destruct (holds_isS _ _ _ Hh) as [xf Hxf].
  destruct (item_index_pair s sfx _ pub W Hpub) as (i & pr & Hi & Hpr & Hop).
  assert (hs_in f (ii_fatherScopes i)) as Hfi.
  { apply (ws_holds _ _ W0) in Hh as (i' & Hi' & ?). congruence. }
  cbn [not_null lift_opt]. wps.
  destruct (negb (sc_strategy xf =? st)); [by apply wp_ret, Hno|].
  unfold InformationItem_getRootScopes. wps. destruct (roots_first s sfx pub i ht_empty W Hi) as [r0 Hr0].
  eapply wp_lift_opt; [exact Hpr|]. cbv beta. destruct (ht_mem h _) eqn:Hm; [|by apply wp_ret, Hno].
  apply ht_mem_true in Hm. assert (member s PubItem (prefix ++ ID) h) as Hmem by (by exists pub, pr).
  assert (is_Some (hosts s !! h)) as Hhost.
  { apply (wh_mirror _ (wf_h _ _ W)) in Hmem as (xh & Hxh & _). by exists xh. }
  destruct Hhost as [xh Hxh]. apply wp_bind. eapply wp_upd_item; [done|].
  apply wp_bind. eapply wp_upd_host; [done|]. cbv beta.
  set (s1 := set_hosts _ _).
  assert (s1 = del_member PubItem pub (prefix ++ ID) h s) as E1.
  { unfold s1, del_member, set_pair, set_host. cbn [scope_kind hosts set_items items].
    rw (alter_insert _ pub i) // (alter_insert _ h xh) //. }
  clearbody s1. subst s1.
  set (s1 := del_member PubItem pub (prefix ++ ID) h s).
  assert (is_Some (hosts s !! h)) as Hhost by (by exists xh).
  pose proof (del_publisher_unpub s sfx pub (prefix ++ ID) h pr W Hop Hhost) as U1. fold s1 in U1.
  assert (∀ k' id' h', member s1 k' id' h' ↔ member s k' id' h' ∧ ¬ (k' = PubItem ∧ id' = prefix ++ ID ∧ h' = h)) as M1.
  { intros. by eapply del_member_member. }
  pose proof (un_wf _ _ _ U1) as W1.
  assert (∀ q, isI s q → isI s1 q) as I1.
  { intros q. by rw (sg_isI _ _ (del_member_graph PubItem pub (prefix ++ ID) h s)). }
  destruct (del_member_item s PubItem pub (prefix ++ ID) h i Hi) as (i1 & Hi1 & Ef1 & _). fold s1 in Hi1.
  rw -Ef1. rw -Ef1 in Hfi. clearbody s1.
  assert (∀ s', unpub sfx s1 s' → (∀ k id h, member s' k id h ↔ member s1 k id h) →
    (∀ q, isI s1 q → isI s' q ∨ q = pub) → unpublish_info_post sfx h (prefix ++ ID) s SUCCESS s') as Hyes.
  { intros s' U' M' I'. split; [by eapply unpub_trans|]. split.
    - split; [done|]. intros. by rw M' M1.
    - intros q Hq. destruct (I' q (I1 q Hq)) as [?|E]; [by left|subst q; by right]. }
  assert (∀ s' o, unpub sfx s1 s' → (∀ k id h, member s' k id h ↔ member s1 k id h) →
    (∀ q, isI s1 q → isI s' q ∨ q = pub) → unpublish_info_post sfx h (prefix ++ ID) s SUCCESS (say o s')) as Hyes'.
  { intros s' o U' M' I'. apply Hyes; [by apply unpub_say|done|done]. }
  apply wp_bind. eapply (wp_item_check s1 sfx); [done..|]. intros used Hused _.
  apply wp_bind. pose proof (wp_item_release s1 sfx pub f i1) as Hrel.
  destruct (ht_size (ii_fatherScopes i1) =? 1)%nat.
  - destruct used; cbn [negb].
    + eapply wp_rendezvous_unless_known; [done..|eauto| |].
      * apply wp_ret, Hyes; [by apply unpub_refl|done|auto].
      * intros subs _ _. apply wp_ret, Hyes'; [by apply unpub_refl|done|auto].
    + apply Hrel; [done..|by apply Hused|]. intros s' U' M' _ I' _. by apply wp_ret, Hyes.
  - apply wp_bind. destruct used; cbn [negb].
    + apply wp_ret. eapply wp_rendezvous_unless_known; [done..|eauto| |].
      * apply wp_ret, Hyes; [by apply unpub_refl|done|auto].
      * intros subs _ _. apply wp_ret, Hyes'; [by apply unpub_refl|done|auto].
    + apply Hrel; [done..|by apply Hused|]. intros s' U' M' _ I' [i' Hi']; [done|].
      eapply wp_rendezvous_unless_known; [apply U'|done|eauto|by apply wp_ret, Hyes|].
      intros subs _ _. by apply wp_ret, Hyes'.
Qed.

(** ** The loops over publishers and items *)

Lemma unpublish_info_step s sfx h ID prefix st uo (I : rv → Prop) :
  wf s sfx → length ID = PURSUIT_ID_LEN →
  (∀ r s', unpublish_info_post sfx h (prefix ++ ID) s r s' → I s') →
  wp (_ ← unpublish_info h ID prefix st uo; mret ()) (λ _, I) s.
Proof.
  intros W Hl HI. apply wp_bind. eapply wp_mono; [by apply wp_unpublish_info|].
  intros r s' H. apply wp_ret. by eapply HI.
Qed.

Lemma wp_unpublish_all s sfx publishers ID prefix st uo :
  wf s sfx → length ID = PURSUIT_ID_LEN →
  wp (unpublish_all publishers ID prefix st uo) (λ _, unpub sfx s) s.
Proof.
  intros W Hl. apply wp_mfor_inv; [by apply unpub_refl|]. intros h s1 _ U1.
  eapply unpublish_info_step; [apply U1|done|]. intros r s' [U' _]. by eapply unpub_trans.
Qed.

(** After the rendezvous of one item, the publishers found are unpublished
    under one scope.  The item may go with its last publisher, and is there
    as long as one is left. *)
Lemma wp_unpublish_matched s sfx pub prefix st uo :
  wf s sfx → isI s pub → (∀ q, path s sfx (prefix ++ sfx pub) q → q = pub) →
  wp (unpublish_matched pub prefix st uo)
    (λ _ s', unpub sfx s s' ∧ ∀ q, isI s q → isI s' q ∨ q = pub) s.
Proof.
  intros W [i Hi] Hpath. unfold unpublish_matched, InformationItem_getPublishers. wps.
  set (l := ht_keys (ids_getPublishers (ii_ids i) ht_empty)).
  assert (NoDup l) as Hnd by apply ht_keys_nodup.
  eapply wp_mono; [apply (wp_mfor (λ _ rest s', unpub sfx s s' ∧
    (∀ q, isI s q → isI s' q ∨ q = pub) ∧
    ∀ p, p ∈ rest → ∃ id, path s' sfx id pub ∧ member s' PubItem id p))|].
  - split; [by apply unpub_refl|]. split; [auto|]. intros p Hp.
    apply hs_in_keys, elem_of_getPublishers in Hp as [?%hs_in_empty|(id & pr & Hid & Hp)]; [done|].
    exists id. split.
    + apply (wb_path _ _ (wf_b _ _ W)). right. exists i. split; [done|by exists pr].
    + exists pub, pr. split; [|done]. cbn. unfold ipair. by rw Hi.
  - intros d p t s1 El (U1 & I1 & P1). pose proof (un_wf _ _ _ U1) as W1. pose proof (wf_s _ _ W1) as W10.
    destruct (P1 p) as (idp & Hidp & _); [by left|].
    assert (isI s1 pub) as HI1.
    { destruct (path_alive _ _ W10 _ _ Hidp) as [HS|]; [|done]. apply (un_isS _ _ _ U1) in HS.
      exfalso. apply (ws_disj _ _ (wf_s _ _ W) pub HS). by exists i. }
    destruct HI1 as [i1 Hi1]. apply wp_bind. eapply wp_get_item; [done|].
    apply wp_bind, wp_first_id; [by eapply item_has_id|]. intros id0 Hid0.
    assert (path s1 sfx id0 pub) as Hp0.
    { apply (wb_path _ _ (wf_b _ _ W1)). right. by exists i1. }
    assert (length (last_fragment id0) = PURSUIT_ID_LEN) as Hlen.
    { rw (path_last_fragment s1 sfx W10 id0 pub Hp0). apply (ws_len _ _ W10). right. by exists i1. }
    eapply unpublish_info_step; [done|done|]. intros r s' (U' & R' & I').
    assert (∀ q, isI s1 q → isI s' q ∨ q = pub) as I''.
    { intros q Hq. destruct (I' q Hq) as [?|Hx]; [by left|]. right.
      apply (find_item_path s1 sfx _ q W1) in Hx as [Hx%(un_path _ _ _ U1) _].
      rw (path_last_fragment s1 sfx W10 id0 pub Hp0) in Hx. by apply Hpath. }
    split; [by eapply unpub_trans|]. split.
    + intros q Hq. destruct (I1 q Hq) as [H|?]; [by apply I''|by right].
    + intros p' Hp'. destruct (P1 p') as (id & Hid & Hm); [by right|].
      assert (p' ≠ p) as Hne.
      { intros ->. rw -El in Hnd. apply NoDup_app in Hnd as (_ & _ & Hnd). by apply NoDup_cons in Hnd as [? _]. }
      assert (member s' PubItem id p') as Hm'.
      { destruct r; cbn in R'; try by subst s'. apply R'. split; [done|]. by intros (_ & _ & ->). }
      exists id. split; [|done]. destruct Hm' as (q & pr & Hq & _).
      assert (path s' sfx id q) as Hpq.
      { apply (wb_path _ _ (wf_b _ _ (un_wf _ _ _ U'))). right. apply iids_opair. by exists pr. }
      by rw -(path_fun s1 sfx W10 id q pub (un_path _ _ _ U' _ _ Hpq) Hid).
  - intros [] s' (U & I & _). by split.
Qed.

(** ** Releasing a scope *)

Lemma wp_scope_check s sfx sc f x (Q : bool → rv → Prop) :
  wf s sfx → scopes s !! sc = Some x → hs_in f (sc_fatherScopes x) →
  (∀ b, (b = false → scope_unused_under s sfx x f sc) → Q b s) →
  wp (Scope_checkForOtherPubSub sc (Some f)) Q s.
Proof.
  intros W Hx Hf HQ. pose proof (wf_s _ _ W) as W0. assert (isS s sc) as HS by (by exists x).
  assert (child s f sc) as Hc by (apply (ws_child _ _ W0); by exists x).
  destruct (child_isS _ _ _ Hc) as [xf Hxf].
  unfold Scope_checkForOtherPubSub. apply wp_bind. eapply wp_get_scope; [done|]. cbv beta iota.
  apply wp_bind, wp_first_id; [by eapply scope_has_id|].
  intros id0 Hid0. apply wp_bind. eapply wp_get_scope; [done|].
  assert (last_fragment id0 = sfx sc) as ->.
  { apply (path_last_fragment s sfx W0 id0 sc). apply (wb_path _ _ (wf_b _ _ W)). left. by exists x. }
  destruct (other_pubsub_under_ok (sc_ids x) (sfx sc) (ht_keys (sc_ids xf))) as (b & Hb & Hiff).
  { intros fid Hfid. apply (scope_paths s sfx f xf fid W Hxf) in Hfid.
    assert (path s sfx (fid ++ sfx sc) sc) as Hp by (apply (path_edge _ _ _ f); [done|by left]).
    apply (wf_full _ _ W), (oid_scope s sfx _ _ W0 HS) in Hp as (x' & Hx' & H).
    rw Hx in Hx'. by injection Hx' as <-. }
  eapply wp_lift_res; [exact Hb|]. apply HQ.
  intros ->. intros pre pr h Hpre Hpr. apply pair_used_false. destruct (pair_used pr) eqn:Hu; [|done].
  enough (false = true) by done. apply Hiff. exists pre, pr. split_and!; [|done..].
  by apply (scope_paths s sfx f xf).
Qed.

Lemma scope_unused_one_father s sfx sc f x : wf s sfx → scopes s !! sc = Some x →
  (∀ g, hs_in g (sc_fatherScopes x) ↔ g = f) → scope_unused_under s sfx x f sc → scope_unused x.
Proof.
  intros W Hx Hone Hun id pr h Hid. pose proof (wf_s _ _ W) as W0.
  assert (isS s sc) as HS by (by exists x).
  assert (path s sfx id sc) as Hp.
  { apply (wb_path _ _ (wf_b _ _ W)). left. exists x. split; [done|by exists pr]. }
  assert (¬ root s sc) as Hr.
  { intros Hr. apply (proj1 (ws_root _ _ W0 sc HS) Hr f). exists x. split; [done|by apply Hone]. }
  apply (path_edge_inv s sfx id sc Hr) in Hp as (pre & g & -> & Hpre & [He|He]).
  - assert (g = f) as ->.
    { apply Hone. apply (ws_child _ _ W0) in He as (x' & Hx' & H). congruence. }
    by apply (Hun pre pr h Hpre).
  - exfalso. apply (ws_disj _ _ W0 sc HS). by apply (holds_isI_r _ _ W0) in He.
Qed.

(** The scope at [sc] or one branch of it may go; members stay as they are. *)
Record released sfx sc s s' : Prop := {
  rl_wf : wf s' sfx;
  rl_path : ∀ id p, path s' sfx id p → path s sfx id p;
  rl_isS : ∀ q, isS s q → isS s' q ∨ q = sc;
  rl_hosts : hosts s' = hosts s;
  rl_known : known_rootscopes s' = known_rootscopes s;
  rl_proxy : localProxy s' = localProxy s;
  rl_hidx : pub_sub_Index s' = pub_sub_Index s;
  rl_member : ∀ k id h, member s' k id h ↔ member s k id h;
}.

Lemma released_say sfx sc s o : wf s sfx → released sfx sc s (say o s).
Proof.
  intros W. split; try done.
  - by apply wf_say.
  - by intros id p Hp%say_path.
  - auto.
Qed.

Lemma shrinks_released s s' sfx sc o DS DI DC DH D :
  wf s sfx → wf s' sfx → shrinks (say o s) s' DS DI DC DH D → (∀ q, DS q → q = sc) →
  others_same (say o s) s' → released sfx sc s s'.
Proof.
  intros W W' X Hsc (_ & El & Ek). pose proof (wf_say s sfx o W) as Wo. split; try done.
  - intros id p Hp. apply (say_path s sfx o). by eapply (shrinks_path (say o s) s').
  - intros q Hq. destruct (decide (q = sc)); [by right|left]. apply (sh_isS _ _ _ _ _ _ _ X).
    split; [done|]. by intros ?%Hsc.
  - by rw (sh_hosts _ _ _ _ _ _ _ X).
  - by rw (sh_hidx _ _ _ _ _ _ _ X).
  - intros. by rw (shrinks_member (say o s) s' sfx _ _ _ _ _ _ _ _ Wo W' X).
Qed.

Lemma leaf_scope s sfx sc x : wf_struct s sfx → scopes s !! sc = Some x →
  (ht_size (sc_childrenScopes x) =? 0)%nat && (ht_size (sc_informationitems x) =? 0)%nat = true →
  ∀ c, ¬ edge s sc c.
Proof.
  intros W Hx [H1%Nat.eqb_eq H2%Nat.eqb_eq]%andb_prop c [(y & Hy & [u Hu])|(y & Hy & [u Hu])];
    rw Hx in Hy; injection Hy as <-;
    [rw (proj1 (ht_size_empty_iff _) H1) in Hu|rw (proj1 (ht_size_empty_iff _) H2) in Hu]; done.
Qed.

Lemma wp_scope_release s sfx sc f fullID (Q : () → rv → Prop) :
  wf s sfx → sfather s f sc → (∀ s', released sfx sc s s' → Q () s') →
  wp (scope_release sc f fullID) Q s.
Proof.
  intros W (x & Hx & Hf) HQ. pose proof (wf_s _ _ W) as W0.
  assert (child s f sc) as Hc by (apply (ws_child _ _ W0); by exists x).
  destruct (child_isS _ _ _ Hc) as [xf Hxf].
  assert (released sfx sc s s) as Hsame by (rw -{2}(say_nil s); by apply released_say).
  unfold scope_release. apply wp_bind. eapply wp_get_scope; [done|]. cbv beta.
  destruct ((_ =? 0)%nat && _) eqn:Eleaf; [|by apply wp_ret, HQ].
  pose proof (leaf_scope s sfx sc x W0 Hx Eleaf) as Hleaf.
  apply wp_bind. eapply (wp_scope_check s sfx); [done..|]. intros used Hused.
  destruct used; [by apply wp_ret, HQ|]. specialize (Hused eq_refl).
  unfold Scope_getSubscribers, Scope_getIDs. wps. cbv beta iota.
  assert (alive_hosts s (ids_getSubscribers (sc_ids xf) ht_empty)) as Ha.
  { eapply scope_subscribers_alive; [done..|apply alive_empty]. }
  destruct (ht_size (sc_fatherScopes x) =? 1)%nat eqn:E.
  - pose proof (fathers_one _ f E Hf) as Hone. apply wp_bind. apply wp_notifySubscribers; [done|].
    match goal with |- wp _ _ (say ?o s) => set (so := say o s); pose proof (wf_say s sfx o W) as Wo end.
    eapply (wp_scope_delete so sfx sc f x); [done..| |].
    + exact (scope_unused_one_father s sfx sc f x W Hx Hone Hused).
    + intros s' W' X Hs _. apply HQ. eapply shrinks_released; [done|done|exact X| |done]. done.
  - apply wp_bind. apply wp_notifySubscribers; [done|].
    match goal with |- wp _ _ (say ?o s) => set (so := say o s); pose proof (wf_say s sfx o W) as Wo end.
    eapply (wp_scope_delete_branch so sfx sc f x); [done..|by apply fathers_more|done| |].
    + intros pre pr h Hp%say_path. by apply Hused.
    + intros s' W' X Hs _. apply HQ. eapply shrinks_released; [done|done|exact X| |done]. done.
Qed.

Lemma wp_root_scope_release s sfx sc (Q : () → rv → Prop) :
  wf s sfx → root s sc → (∀ s', released sfx sc s s' → Q () s') → wp (root_scope_release sc) Q s.
Proof.
  intros W Hr HQ. pose proof (wf_s _ _ W) as W0. destruct (root_isS _ _ Hr) as [x Hx].
  assert (released sfx sc s s) as Hsame by (rw -{2}(say_nil s); by apply released_say).
  unfold root_scope_release. apply wp_bind. eapply wp_get_scope; [done|]. cbv beta.
  destruct ((_ =? 0)%nat && _) eqn:Eleaf; [|by apply wp_ret, HQ].
  pose proof (leaf_scope s sfx sc x W0 Hx Eleaf) as Hleaf.
  unfold Scope_checkForOtherPubSub. wps. destruct (existsb pair_used _) eqn:Hu; [by apply wp_ret, HQ|].
  eapply (wp_root_delete s sfx); [done..| |].
  - intros id pr h Hid. apply pair_used_false. destruct (pair_used pr) eqn:E; [|done].
    enough (existsb pair_used (ht_vals (sc_ids x)) = true) by congruence.
    apply existsb_exists. exists pr. split; [|done]. apply list_elem_of_In, elem_of_ht_vals. eauto.
  - intros s' W' X Hs _. apply HQ.
    eapply (shrinks_released s s' sfx sc []); rw ?say_nil; [done|done|exact X|done|done].
Qed.

(** ** The requests *)

Lemma unpub_kept sfx s s' : unpub sfx s s' → kept s s'.
Proof. by intros []. Qed.
Lemma released_kept sfx sc s s' : released sfx sc s s' → kept s s'.
Proof. intros [_ _ _ E ? ? ? _]. split; [|done..]. intros h. by rw E. Qed.
Lemma del_member_kept k p id h s : kept s (del_member k p id h s).
Proof.
  destruct (del_member_index k p id h s) as (? & ? & ? & ? & ? & ?). split; [|done..].
  intros. by rw del_member_hosts.
Qed.

(** The scope found under [prefix ++ ID]: a root, or a child of [prefix]. *)
Lemma scope_father s sfx prefix ID sc : wf s sfx → length ID = PURSUIT_ID_LEN →
  ht_get (prefix ++ ID) (scopeIndex s) = Some sc →
  (ht_get prefix (scopeIndex s) = None ∧ root s sc) ∨
  (∃ f, ht_get prefix (scopeIndex s) = Some f ∧ sfather s f sc).
Proof.
  intros W Hl Hsc. pose proof (wf_s _ _ W) as W0.
  destruct (find_scope_path s sfx _ sc W Hsc) as [Hp HS].
  assert (root s sc ∨ ¬ root s sc) as [Hr|Hr].
  { destruct HS as [x Hx]. destruct (sc_isRoot x) eqn:E; [left; by exists x|right].
    intros (y & Hy & Ey). congruence. }
  - left. split; [|done]. pose proof (path_root_inv s sfx W0 _ _ Hr Hp) as E.
    assert (prefix = []) as ->.
    { apply (f_equal length) in E. rw length_app (ws_len _ _ W0) in E; [|by left].
      apply length_zero_iff_nil. lia. }
    destruct (ht_get [] (scopeIndex s)) as [q|] eqn:Hq; [|done].
    apply (find_scope_path s sfx _ q W) in Hq as [Hq%(path_length _ _ W0) _].
    cbn in Hq. unfold PURSUIT_ID_LEN in Hq. lia.
  - right. apply (path_edge_inv s sfx _ sc Hr) in Hp as (pre & f & E & Hpre & He).
    apply app_inj_suffix in E as [<- ->]; [|rw Hl; symmetry; apply (ws_len _ _ W0); auto].
    destruct He as [He|He].
    + exists f. split; [|by apply (ws_child _ _ W0)].
      apply (wf_index_path s sfx); [done|by eapply child_isS|done].
    + exfalso. apply (ws_disj _ _ W0 sc HS). by apply (holds_isI_r _ _ W0) in He.
Qed.

(** The items of a scope lose the publisher [h]. *)
Lemma wp_unpublish_items s sfx sc h st uo :
  wf s sfx → isS s sc →
  wp (unpublish_items sc h st uo) (λ _ s', unpub sfx s s' ∧
    ∀ id h', h' ≠ h → member s PubItem id h' → member s' PubItem id h') s.
Proof.
  intros W [x Hx]. pose proof (wf_s _ _ W) as W0. unfold unpublish_items. wps.
  set (l := ht_keys (sc_informationitems x)). assert (NoDup l) as Hnd by apply ht_keys_nodup.
  set (I s' := unpub sfx s s' ∧ ∀ id h', h' ≠ h → member s PubItem id h' → member s' PubItem id h').
  eapply wp_mono; [apply (wp_mfor (λ _ rest s', I s' ∧ ∀ p, p ∈ rest → isI s' p))|by intros [] s' []].
  { split; [split; [by apply unpub_refl|done]|]. intros p Hp%hs_in_keys.
    apply (holds_isI_r _ _ W0 sc). by exists x. }
  intros d p t s1 El [I1 A1]. pose proof (un_wf _ _ _ (proj1 I1)) as W1. pose proof (wf_s _ _ W1) as W10.
  destruct (A1 p) as [i1 Hi1]; [by left|]. apply wp_bind. eapply wp_get_item; [done|].
  apply wp_bind, wp_first_id; [by eapply item_has_id|]. intros id0 Hid0. cbv zeta.
  assert (path s1 sfx id0 p) as Hp0.
  { apply (wb_path _ _ (wf_b _ _ W1)). right. by exists i1. }
  rw (path_last_fragment s1 sfx W10 id0 p Hp0).
  assert (isI s p) as HIp.
  { apply (holds_isI_r _ _ W0 sc). exists x. split; [done|]. apply hs_in_keys. fold l. rw -El. set_solver. }
  assert (length (sfx p) = PURSUIT_ID_LEN) as Hlen by (apply (ws_len _ _ W0); by right).
  assert (isS s1 sc) as [x1 Hx1] by (apply (un_isS _ _ _ (proj1 I1)); by exists x).
  apply wp_bind. eapply wp_get_scope; [done|]. cbv beta.
  apply (wp_mfor_inv (λ s', I s' ∧ ∀ q, q ∈ t → isI s' q)).
  { split; [done|]. intros q Hq. apply A1. by right. }
  intros pre s2 Hpre [I2 A2]. pose proof (un_wf _ _ _ (proj1 I2)) as W2.
  eapply unpublish_info_step; [done|done|]. intros r s' (U' & R' & D'). split.
  - split; [eapply unpub_trans; [apply I2|done]|]. intros id h' Hne Hm.
    pose proof (proj2 I2 id h' Hne Hm) as Hm2.
    destruct r; cbn in R'; try by subst s'. apply R'. split; [done|]. by intros (_ & _ & ->).
  - intros q Hq. destruct (D' q (A2 q Hq)) as [?|Hx']; [done|exfalso].
    apply (find_item_path s2 sfx _ q W2) in Hx' as [Hx' _].
    apply (un_path _ _ _ (proj1 I2)) in Hx'.
    assert (path s sfx (pre ++ sfx p) p) as Hp.
    { apply (path_edge _ _ _ sc); [|right; exists x; split; [done|]; apply hs_in_keys; fold l; rw -El; set_solver].
      apply (un_path _ _ _ (proj1 I1)). by apply (scope_paths s1 sfx sc x1 pre W1). }
    assert (q = p) as -> by (by eapply (path_fun s sfx W0)).
    rw -El in Hnd. apply NoDup_app in Hnd as (_ & _ & Hnd). by apply NoDup_cons in Hnd as [? _].
Qed.

Lemma member_scope_pair s sfx k id h p pr : wf s sfx → opair s k p id = Some pr →
  member s k id h ↔ hs_in h (pair_sel k pr).
Proof.
  intros W Hp. split; [|by exists p, pr]. intros (q & pr' & Hq & Hh).
  by destruct (opair_fun s sfx k p q id pr pr' W Hp Hq) as [_ ->].
Qed.

Record unpublish_scope_post sfx h id s (r : RvReturnCode) s' : Prop := {
  us_wf : wf s' sfx;
  us_kept : kept s s';
  us_removed : ∀ k' id' h', k' ≠ PubItem →
    member s' k' id' h' ↔ member s k' id' h' ∧ ¬ (r = SUCCESS ∧ k' = PubScope ∧ id' = id ∧ h' = h);
  us_items : ∀ id' h', member s' PubItem id' h' → member s PubItem id' h';
  us_items_other : ∀ id' h', h' ≠ h → member s PubItem id' h' → member s' PubItem id' h';
  us_success : r = SUCCESS → member s PubScope id h;
  us_code : r ∈ [SUCCESS; SCOPE_DOES_NOT_EXIST; STRATEGY_MISMATCH; DOES_NOT_EXIST];
  us_none : r = DOES_NOT_EXIST → ¬ member s PubScope id h;
}.

Lemma wp_unpublish_scope s sfx h ID prefix st uo :
  wf s sfx → length ID = PURSUIT_ID_LEN →
  wp (unpublish_scope h ID prefix st uo) (unpublish_scope_post sfx h (prefix ++ ID) s) s.
Proof.
  intros W Hl. assert (∀ r, r ∈ [SCOPE_DOES_NOT_EXIST; STRATEGY_MISMATCH] →
    unpublish_scope_post sfx h (prefix ++ ID) s r s) as Hno.
  { intros r Hr. split; try done; [|set_solver..]. intros. assert (r ≠ SUCCESS) by set_solver. naive_solver. }
  unfold unpublish_scope, find_scope. wps.
  destruct (ht_get (prefix ++ ID) (scopeIndex s)) as [sc|] eqn:Hsc; [|apply wp_ret, Hno; set_solver].
  destruct (find_scope_path s sfx _ sc W Hsc) as [Hp HS]. destruct HS as [x Hx].
  wps. destruct (negb _); [apply wp_ret, Hno; set_solver|]. wps.
  eapply wp_mono; [apply wp_unpublish_items; [done|by exists x]|]. intros [] s1 [U1 O1]. cbv beta.
  pose proof (un_wf _ _ _ U1) as W1. rw -(un_sidx _ _ _ U1) in Hsc.
  destruct (scope_index_pair s1 sfx _ sc W1 Hsc) as (x1 & pr & Hx1 & Hpr & Hop). wps.
  eapply wp_lift_opt; [exact Hpr|]. cbv beta.
  pose proof (member_scope_pair s1 sfx PubScope (prefix ++ ID) h sc pr W1 Hop) as Hmem. cbn in Hmem.
  assert (∀ k id h, k ≠ PubItem → member s1 k id h ↔ member s k id h) as M1.
  { intros k id h' Hk. split; [apply (un_in _ _ _ U1)|by apply (un_keep _ _ _ U1)]. }
  destruct (ht_mem h _) eqn:Hm; last first.
  { assert (¬ member s PubScope (prefix ++ ID) h) as Hnm.
    { rw -M1 // Hmem. intros Hin%ht_mem_true. exact (eq_true_false_abs _ Hin Hm). }
    apply wp_ret. split; try done; [by eapply unpub_kept|..|apply (un_in _ _ _ U1)|set_solver].
    intros. rw M1 //. naive_solver. }
  apply ht_mem_true, Hmem in Hm.
  assert (is_Some (hosts s1 !! h)) as Hhost.
  { apply (wh_mirror _ (wf_h _ _ W1)) in Hm as (xh & Hxh & _). by exists xh. }
  destruct Hhost as [xh Hxh]. apply wp_bind. eapply wp_upd_scope; [done|].
  apply wp_bind. eapply wp_upd_host; [done|]. cbv beta.
  set (s2 := set_hosts _ _).
  assert (s2 = del_member PubScope sc (prefix ++ ID) h s1) as E2.
  { unfold s2, del_member, set_pair, set_host. cbn [scope_kind hosts set_scopes scopes].
    rw (alter_insert _ sc x1) // (alter_insert _ h xh) //. }
  clearbody s2. subst s2. set (s2 := del_member PubScope sc (prefix ++ ID) h s1).
  assert (is_Some (hosts s1 !! h)) as Hhost by (by exists xh).
  pose proof (wf_del_member s1 sfx PubScope sc (prefix ++ ID) h pr W1 Hop Hhost) as W2. fold s2 in W2.
  assert (∀ s3, released sfx sc s2 s3 → unpublish_scope_post sfx h (prefix ++ ID) s SUCCESS s3) as Hyes.
  { intros s3 R3.
    assert (∀ k' id' h', member s3 k' id' h' ↔ member s1 k' id' h' ∧ ¬ (k' = PubScope ∧ id' = prefix ++ ID ∧ h' = h)) as M3.
    { intros. rw (rl_member _ _ _ _ R3). by eapply del_member_member. }
    split; try done; [apply R3| | | | |intros _; by apply M1|set_solver].
    - etrans; [by eapply unpub_kept|]. etrans; [apply (del_member_kept PubScope sc (prefix ++ ID) h)|].
      by eapply released_kept.
    - intros. rw M3 M1 //. naive_solver.
    - intros id' h' [H _]%M3. by apply (un_in _ _ _ U1).
    - intros id' h' Hne H. apply M3. split; [by apply O1|]. by intros (? & _). }
  pose proof (del_member_graph PubScope sc (prefix ++ ID) h s1) as G. fold s2 in G.
  rw -(un_sidx _ _ _ U1).
  destruct (scope_father s1 sfx prefix ID sc W1 Hl Hsc) as [[-> Hr]|(f & -> & Hf)]; apply wp_bind.
  - eapply wp_root_scope_release; [done|by apply (sg_root _ _ G)|]. intros s3 R3. by apply wp_ret, Hyes.
  - eapply wp_scope_release; [done|by apply (sg_sfather _ _ G)|]. intros s3 R3. by apply wp_ret, Hyes.
Qed.

(** Taking a subscription away. *)
Definition unsubscribe_post sfx k h id s (r : RvReturnCode) s' : Prop :=
  wf s' sfx ∧ kept s s' ∧ removed k id h s r s'.

(** The first half of both requests: the member leaves the pair and the host. *)
Lemma wp_del_member {A} k s sfx p id h pr (m : R A) (Q : A → rv → Prop) :
  (match k with SubScope | SubItem => True | _ => False end) →
  wf s sfx → opair s k p id = Some pr → hs_in h (pair_sel k pr) →
  (wf (del_member k p id h s) sfx →
   (∀ k' id' h', member (del_member k p id h s) k' id' h' ↔ member s k' id' h' ∧ ¬ (k' = k ∧ id' = id ∧ h' = h)) →
   wp m Q (del_member k p id h s)) →
  wp ((if scope_kind k
       then upd_scope p (λ x, sc_with_ids (ht_alter (λ pr, (pr.1, ht_erase h pr.2)) id (sc_ids x)) x)
       else upd_item p (λ i, ii_with_ids (ht_alter (λ pr, (pr.1, ht_erase h pr.2)) id (ii_ids i)) i));;
      upd_host h (host_del k id);; m) Q s.
Proof.
  intros Hk W Hop Hin HQ.
  assert (is_Some (hosts s !! h)) as Hhost by (by eapply pairs_alive).
  specialize (HQ (wf_del_member s sfx k p id h pr W Hop Hhost)
    (λ k' id' h', del_member_member s sfx k p id h pr k' id' h' W Hop Hhost)).
  destruct Hhost as [xh Hxh]. unfold opair, spair, ipair in Hop.
  destruct k; try done; cbn [scope_kind] in *.
  - destruct (scopes s !! p) as [x|] eqn:Hx; [|done]. apply wp_bind. eapply wp_upd_scope; [done|].
    apply wp_bind. eapply wp_upd_host; [done|]. cbv beta.
    unfold del_member, set_pair, set_host in HQ. cbn [scope_kind hosts set_scopes scopes] in HQ.
    rw (alter_insert _ p x) // (alter_insert _ h xh) // in HQ.
  - destruct (items s !! p) as [x|] eqn:Hx; [|done]. apply wp_bind. eapply wp_upd_item; [done|].
    apply wp_bind. eapply wp_upd_host; [done|]. cbv beta.
    unfold del_member, set_pair, set_host in HQ. cbn [scope_kind hosts set_items items] in HQ.
    rw (alter_insert _ p x) // (alter_insert _ h xh) // in HQ.
Qed.

Lemma wp_rematch_items s sfx sc root uo (Q : () → rv → Prop) :
  wf s sfx → isS s sc → (∀ o, Q () (say o s)) → wp (rematch_items sc root uo) Q s.
Proof.
  intros W [x Hx] HQ. unfold rematch_items, getInformationItems. wps.
  destruct (ht_mem root _); [apply wp_ret; by rw -(say_nil s)|].
  eapply wp_mono; [apply (wp_mfor_inv (λ s', ∃ o, s' = say o s))|by intros [] s' [o ->]].
  - exists []. by rw say_nil.
  - intros pub s1 Hpub [o ->]. apply hs_in_keys, hs_in_insert_all in Hpub as [Hpub|?%hs_in_empty]; [|done].
    assert (isI s pub) as [i Hi].
    { apply (holds_isI_r _ _ (wf_s _ _ W) sc). exists x. split; [done|by apply hs_in_keys]. }
    apply wp_bind. eapply (wp_interested (say o s) sfx); [by apply wf_say|by exists i|]. intros subs Ha _.
    eapply (wp_rendezvous (say o s) sfx); [by apply wf_say|done|done|].
    rw say_say. by eexists.
Qed.

Lemma wp_unsubscribe_scope s sfx h ID prefix st uo :
  wf s sfx → length ID = PURSUIT_ID_LEN →
  wp (unsubscribe_scope h ID prefix st uo) (unsubscribe_post sfx SubScope h (prefix ++ ID) s) s.
Proof.
  intros W Hl. assert (∀ r, r ≠ SUCCESS → unsubscribe_post sfx SubScope h (prefix ++ ID) s r s) as Hno.
  { intros r Hr. split; [done|]. split; [done|]. by destruct r. }
  unfold unsubscribe_scope, find_scope. wps.
  destruct (ht_get (prefix ++ ID) (scopeIndex s)) as [sc|] eqn:Hsc; [|by apply wp_ret, Hno].
  destruct (scope_index_pair s sfx _ sc W Hsc) as (x & pr & Hx & Hpr & Hop). wps.
  destruct (negb _); [by apply wp_ret, Hno|]. wps.
  eapply wp_lift_opt; [exact Hpr|]. cbv beta.
  destruct (ht_mem h _) eqn:Hm; [|by apply wp_ret, Hno]. apply ht_mem_true in Hm.
  apply (wp_del_member SubScope s sfx sc (prefix ++ ID) h pr); [done..|].
  set (s1 := del_member _ _ _ _ _). intros W1 M1.
  pose proof (del_member_graph SubScope sc (prefix ++ ID) h s) as G. fold s1 in G.
  assert (∀ o s3, released sfx sc (say o s1) s3 → unsubscribe_post sfx SubScope h (prefix ++ ID) s SUCCESS s3) as Hyes.
  { intros o s3 R3. split; [apply R3|]. split.
    - etrans; [apply (del_member_kept SubScope sc (prefix ++ ID) h)|].
      etrans; [apply (kept_say _ o)|]. by eapply released_kept.
    - split; [by exists sc, pr|]. intros. rw (rl_member _ _ _ _ R3). apply M1. }
  destruct (scope_father s sfx prefix ID sc W Hl Hsc) as [[-> Hr]|(f & -> & Hf)]; apply wp_bind, wp_bind.
  - eapply wp_rematch_items; [done|apply (sg_isS _ _ G); by exists x|]. intros o.
    eapply (wp_root_scope_release _ sfx); [by apply wf_say|by apply (sg_root _ _ G)|].
    intros s3 R3. apply wp_ret. by eapply Hyes.
  - eapply wp_rematch_items; [done|apply (sg_isS _ _ G); by exists x|]. intros o.
    eapply (wp_scope_release _ sfx); [by apply wf_say|by apply (sg_sfather _ _ G)|].
    intros s3 R3. apply wp_ret. by eapply Hyes.
Qed.

Lemma wp_unsubscribe_info s sfx h ID prefix st uo :
  wf s sfx → length ID = PURSUIT_ID_LEN →
  wp (unsubscribe_info h ID prefix st uo) (unsubscribe_post sfx SubItem h (prefix ++ ID) s) s.
Proof.
  intros W Hl. pose proof (wf_s _ _ W) as W0.
  assert (∀ r, r ≠ SUCCESS → unsubscribe_post sfx SubItem h (prefix ++ ID) s r s) as Hno.
  { intros r Hr. split; [done|]. split; [done|]. by destruct r. }
  unfold unsubscribe_info, find_item, find_scope. wps.
  destruct (ht_get (prefix ++ ID) (pubIndex s)) as [pub|] eqn:Hpub; [|by apply wp_ret, Hno].
  destruct (item_father s sfx prefix ID pub W Hl Hpub) as (f & Hf & Hh & Hpre & EID). rw Hf.
  destruct (holds_isS _ _ _ Hh) as [xf Hxf].
  destruct (item_index_pair s sfx _ pub W Hpub) as (i & pr & Hi & Hpr & Hop).
  assert (hs_in f (ii_fatherScopes i)) as Hfi.
  { apply (ws_holds _ _ W0) in Hh as (i' & Hi' & ?). congruence. }
  cbn [not_null lift_opt]. wps.
  destruct (negb (sc_strategy xf =? st)); [by apply wp_ret, Hno|]. wps.
  eapply wp_lift_opt; [exact Hpr|]. cbv beta.
  destruct (ht_mem h _) eqn:Hm; [|by apply wp_ret, Hno]. apply ht_mem_true in Hm.
  apply (wp_del_member SubItem s sfx pub (prefix ++ ID) h pr); [done..|].
  set (s1 := del_member _ _ _ _ _). intros W1 M1.
  destruct (del_member_item s SubItem pub (prefix ++ ID) h i Hi) as (i1 & Hi1 & Ef1 & _). fold s1 in Hi1.
  rw -Ef1. rw -Ef1 in Hfi.
  assert (∀ s', kept s1 s' → wf s' sfx → (∀ k id h, member s' k id h ↔ member s1 k id h) →
    unsubscribe_post sfx SubItem h (prefix ++ ID) s SUCCESS s') as Hyes.
  { intros s' K W' M'. split; [done|]. split.
    - etrans; [apply (del_member_kept SubItem pub (prefix ++ ID) h)|done].
    - split; [by exists pub, pr|]. intros. rw M'. apply M1. }
  assert (∀ o, wp (used ← InformationItem_checkForOtherPubSub pub f;
    (if negb used then if (ht_size (ii_fatherScopes i1) =? 1)%nat then item_delete_all pub f
       else item_delete_branch pub f else mret ());; mret SUCCESS)
    (unsubscribe_post sfx SubItem h (prefix ++ ID) s) (say o s1)) as Htail.
  { intros o. pose proof (wf_say s1 sfx o W1) as Wo. apply wp_bind.
    eapply (wp_item_check (say o s1) sfx); [done..|]. intros used Hused _. apply wp_bind.
    destruct used; cbn [negb]; [by apply wp_ret, wp_ret, Hyes|].
    eapply (wp_item_release (say o s1) sfx); [done..|by apply Hused|]. intros s' U' M' _ _ _.
    apply wp_ret, Hyes; [|apply U'|done]. etrans; [apply (kept_say _ o)|by eapply unpub_kept]. }
  apply wp_bind. unfold InformationItem_getRootScopes. wps.
  eapply (wp_rendezvous_unless_known s1 sfx); [done..|by eapply roots_first| |].
  - rw -(say_nil s1). apply Htail.
  - intros subs _ _. apply Htail.
Qed.
End unpublish.
