(* ===== verification/RvPublish.v ===== *)
(** * Requests that add: publish, advertise and subscribe

    Rules for the blocks that create or link a node and add the first member,
    for the rendezvous that follows, and for the publish and subscribe
    requests. *)

From S2P Require Import Prelude Enums HashTable GlobalConf RvStore LocalRV RvGraph RvUpdate RvInvariant RvOps.
From S2P Require Import RvAdd RvRemove RvUnpublish.

Section publish.
Context `{CT : ClickTables}.
Implicit Types (s : rv) (p q f c : ptr) (id r : bytes) (sfx : ptr → bytes).

Lemma last_fragment_app prefix r : length r = PURSUIT_ID_LEN → last_fragment (prefix ++ r) = r.
Proof.
  intros Hr. unfold last_fragment. rw length_app Hr drop_app_length' //. lia.
Qed.

(** No identifier, no members. *)
Lemma free_no_member s sfx k id h : wf s sfx →
  ht_get id (scopeIndex s) = None → ht_get id (pubIndex s) = None → ¬ member s k id h.
Proof.
  intros W Hs Hi (p & pr & Hp & _).
  destruct (scope_kind k) eqn:Hk.
  - assert (sids s p id) as Hid by (apply sids_opair; exists pr; by rw (opair_kind _ _ k)).
    apply (wb_sidx _ _ (wf_b _ _ W)) in Hid. congruence.
  - assert (iids s p id) as Hid by (apply iids_opair; exists pr; by rw (opair_kind _ _ k)).
    apply (wb_pidx _ _ (wf_b _ _ W)) in Hid. congruence.
Qed.

Lemma free_root_member s sfx k id h : wf s sfx → scope_kind k = true →
  ht_get id (scopeIndex s) = None → ¬ member s k id h.
Proof.
  intros W Hk Hs (p & pr & Hp & _).
  assert (sids s p id) as Hid by (apply sids_opair; exists pr; by rw (opair_kind _ _ k)).
  apply (wb_sidx _ _ (wf_b _ _ W)) in Hid. congruence.
Qed.

(** A node that is there: a member is only added when it is new. *)
Lemma known_new s sfx k p id h pr : wf s sfx → opair s k p id = Some pr →
  (hs_in h (pair_sel k pr) → again k = true) → again k = false → ¬ member s k id h.
Proof. intros W Hp Hin Ha Hm%(member_scope_pair _ _ _ _ _ _ _ W Hp). by rw Hin in Ha. Qed.

(** The scope ([b = true]) or item [p] is linked under the father [f]. *)
Record linked (b : bool) f p s s' sfx sfx' : Prop := {
  lk_wf : wf s' sfx';
  lk_old : ∀ q, isS s q ∨ isI s q → sfx' q = sfx q;
  lk_isS : ∀ q, isS s' q ↔ isS s q ∨ (b = true ∧ q = p);
  lk_isI : ∀ q, isI s' q ↔ isI s q ∨ (b = false ∧ q = p);
  lk_root : ∀ q, root s' q ↔ root s q;
  lk_edge : ∀ a c, edge s' a c ↔ edge s a c ∨ (a = f ∧ c = p);
  lk_path : ∀ id q, path s sfx id q → path s' sfx' id q;
  lk_kept : kept s s';
  lk_quiet : quiet s s';
}.

(** The step before the identifiers are computed. *)
Record linking (b : bool) f p s s1 sfx sfx' : Prop := {
  lg_at : extends_at p s s1 sfx sfx';
  lg_isS : ∀ q, isS s1 q ↔ isS s q ∨ (b = true ∧ q = p);
  lg_isI : ∀ q, isI s1 q ↔ isI s q ∨ (b = false ∧ q = p);
  lg_edge : ∀ a c, edge s1 a c ↔ edge s a c ∨ (a = f ∧ c = p);
  lg_member : ∀ k id h, member s1 k id h ↔ member s k id h;
  lg_kept : kept s s1;
  lg_quiet : quiet s s1;
}.

(** The first member of a node that has just been linked: [s1] has the new
    edge, [s2] the identifiers. *)
Lemma wp_link_member k s s1 s2 sfx sfx' f p prefix h (m : R ()) (Q : RvReturnCode → rv → Prop) :
  let id := prefix ++ sfx' p in
  linking (scope_kind k) f p s s1 sfx sfx' → grow s1 s2 → wf s2 sfx' →
  path s sfx prefix f → is_Some (hosts s !! h) →
  ht_get id (scopeIndex s) = None → ht_get id (pubIndex s) = None →
  (∀ s', linked (scope_kind k) f p s s' sfx sfx' →
    (∀ k' id' h', member s' k' id' h' ↔ member s k' id' h' ∨ (k' = k ∧ id' = id ∧ h' = h)) →
    wp m (λ _, Q SUCCESS) s') →
  wp (added ← update_members k p id h; when_added added (upd_host h (host_add k id);; m)) Q s2.
Proof.
  intros id [X HS HI HE HM K Eo] G W2 Hpre Hh Hns Hni HQ. pose proof (ea_wf _ _ _ _ _ X) as W.
  assert (path s2 sfx' id p) as Hp.
  { apply (grow_path _ _ G), (path_edge _ _ _ f); [by apply (ea_path _ _ _ _ _ X)|]. apply HE. by right. }
  assert (∃ pr, opair s2 k p id = Some pr) as [pr Hop].
  { apply (wf_full _ _ W2) in Hp. destruct (scope_kind k) eqn:Hk.
    - assert (isS s2 p) as HSp by (apply (grow_isS _ _ G), HS; by right).
      apply (oid_scope _ _ _ _ (wf_s _ _ W2) HSp), sids_opair in Hp as [pr Hop].
      exists pr. by rw (opair_kind _ _ PubScope).
    - assert (isI s2 p) as HIp by (apply (grow_isI _ _ G), HI; by right).
      destruct Hp as [Hp%sids_isS|Hp].
      + exfalso. by apply (ws_disj _ _ (wf_s _ _ W2) p).
      + apply iids_opair in Hp as [pr Hop]. exists pr. by rw (opair_kind _ _ PubItem). }
  assert (∀ k id h, member s2 k id h ↔ member s k id h) as M2.
  { intros. rw (grow_member s1 s2) //. }
  assert (¬ hs_in h (pair_sel k pr)) as Hnew.
  { intros Hin. apply (free_no_member s sfx k id h W Hns Hni), M2. by exists p, pr. }
  assert (kept s s2) as K2 by (etrans; [done|by apply grow_kept]).
  eapply wp_add_member; [done|done|by apply (kp_hosts _ _ K2)|by intros|].
  intros s' W' _ M' _ K' Eo' G'. apply HQ.
  - split; [done|apply (ea_old _ _ _ _ _ X)| | | | | |by etrans|].
    + intros q. by rw (sg_isS _ _ G') (grow_isS _ _ G) HS.
    + intros q. by rw (sg_isI _ _ G') (grow_isI _ _ G) HI.
    + intros q. rw (sg_root _ _ G') (grow_root _ _ G). apply (ea_root _ _ _ _ _ X).
    + intros a c. by rw (sg_edge _ _ G') (grow_edge _ _ G) HE.
    + intros id' q Hq. apply (sg_path _ _ G'), (grow_path _ _ G). by apply (ea_path _ _ _ _ _ X).
    + pose proof (gr_rest _ _ G) as E. unfold rest in E. injection E as _ _ _ _ _ En Eo2.
      destruct Eo, Eo'. split; congruence.
  - intros. by rw M' M2.
Qed.

(** ** A new scope or item under a father *)

Lemma new_scope_linking s sfx f st r : wf s sfx → isS s f → length r = PURSUIT_ID_LEN →
  (∀ d, edge s f d → sfx d ≠ r) →
  linking true f (next s) s (new_scope f st s) sfx (sfx_set (next s) r sfx).
Proof.
  intros W HS Hl Hfree. pose proof (new_scope_extends s sfx f st r W HS Hl Hfree) as Xe.
  split; [by apply new_scope_at|..|done|done].
  - intros q. rw (ex_isS _ _ _ _ _ _ _ Xe). naive_solver.
  - intros q. rw (ex_isI _ _ _ _ _ _ _ Xe). naive_solver.
  - intros a c. unfold edge. rw (ex_child _ _ _ _ _ _ _ Xe) (ex_holds _ _ _ _ _ _ _ Xe). tauto.
  - intros. by eapply new_scope_member.
Qed.

Lemma new_item_linking s sfx f st r : wf s sfx → isS s f → length r = PURSUIT_ID_LEN →
  (∀ d, edge s f d → sfx d ≠ r) →
  linking false f (next s) s (new_item f st s) sfx (sfx_set (next s) r sfx).
Proof.
  intros W HS Hl Hfree. pose proof (new_item_extends s sfx f st r W HS Hl) as Xe.
  split; [by apply new_item_at|..|done|done].
  - intros q. rw (ex_isS _ _ _ _ _ _ _ Xe). naive_solver.
  - intros q. rw (ex_isI _ _ _ _ _ _ _ Xe). naive_solver.
  - intros a c. unfold edge. rw (ex_child _ _ _ _ _ _ _ Xe) (ex_holds _ _ _ _ _ _ _ Xe). tauto.
  - intros. by eapply new_item_member.
Qed.

Lemma scope_edge_linking s sfx f e : wf s sfx → isS s f → isS s e → ¬ root s e →
  (∀ d, edge s f d → sfx d ≠ sfx e) → ¬ rtc (child s) e f →
  linking true f e s (scope_edge f e s) sfx sfx.
Proof.
  intros W HS He Hr Hfree Hac. pose proof (scope_edge_extends s sfx f e HS He Hr Hfree Hac) as Xe.
  split; [by apply scope_edge_at|..|done|done].
  - intros q. rw (ex_isS _ _ _ _ _ _ _ Xe). naive_solver.
  - intros q. rw (ex_isI _ _ _ _ _ _ _ Xe). naive_solver.
  - intros a c. unfold edge. rw (ex_child _ _ _ _ _ _ _ Xe) (ex_holds _ _ _ _ _ _ _ Xe). tauto.
  - intros. by eapply scope_edge_member.
Qed.

Lemma item_edge_linking s sfx f e : wf s sfx → isS s f → isI s e →
  (∀ d, edge s f d → sfx d ≠ sfx e) →
  linking false f e s (item_edge f e s) sfx sfx.
Proof.
  intros W HS He Hfree. pose proof (item_edge_extends s f e HS He) as Xe.
  split; [by apply item_edge_at|..|done|done].
  - intros q. rw (ex_isS _ _ _ _ _ _ _ Xe). naive_solver.
  - intros q. rw (ex_isI _ _ _ _ _ _ _ Xe). naive_solver.
  - intros a c. unfold edge. rw (ex_child _ _ _ _ _ _ _ Xe) (ex_holds _ _ _ _ _ _ _ Xe). tauto.
  - intros k id h. unfold member. by setoid_rewrite item_edge_opair.
Qed.

(** The identifiers of the new node are computed and it gets its first
    member: for a scope, and for an item. *)
Lemma wp_link_scope k s s1 sfx sfx' f p prefix r h (m : R ()) (Q : RvReturnCode → rv → Prop) :
  let id := prefix ++ r in
  sfx' p = r → scope_kind k = true → linking true f p s s1 sfx sfx' →
  path s sfx prefix f → is_Some (hosts s !! h) →
  ht_get id (scopeIndex s) = None → ht_get id (pubIndex s) = None →
  (∀ s', linked true f p s s' sfx sfx' →
    (∀ k' id' h', member s' k' id' h' ↔ member s k' id' h' ∨ (k' = k ∧ id' = id ∧ h' = h)) →
    wp m (λ _, Q SUCCESS) s') →
  wp (Scope_recursivelyUpdateIDs p r;;
      added ← update_members k p id h; when_added added (upd_host h (host_add k id);; m)) Q s1.
Proof.
  intros id <- Hk L Hpre Hh Hns Hni HQ. apply wp_bind.
  eapply wp_mono; [apply (ea_update_scope p s s1 sfx sfx' (lg_at _ _ _ _ _ _ _ L))|].
  { apply (lg_isS _ _ _ _ _ _ _ L). by right. }
  intros [] s2 [W2 G]. rw -Hk in L HQ. by apply (wp_link_member k s s1 s2 sfx sfx' f p prefix h).
Qed.

Lemma wp_link_item k s s1 sfx sfx' f p prefix r h (m : R ()) (Q : RvReturnCode → rv → Prop) :
  let id := prefix ++ r in
  sfx' p = r → scope_kind k = false → linking false f p s s1 sfx sfx' →
  path s sfx prefix f → is_Some (hosts s !! h) →
  ht_get id (scopeIndex s) = None → ht_get id (pubIndex s) = None →
  (∀ s', linked false f p s s' sfx sfx' →
    (∀ k' id' h', member s' k' id' h' ↔ member s k' id' h' ∨ (k' = k ∧ id' = id ∧ h' = h)) →
    wp m (λ _, Q SUCCESS) s') →
  wp (InformationItem_updateIDs p r;;
      added ← update_members k p id h; when_added added (upd_host h (host_add k id);; m)) Q s1.
Proof.
  intros id <- Hk L Hpre Hh Hns Hni HQ. apply wp_bind.
  eapply wp_mono; [apply (ea_update_item p s s1 sfx sfx' (lg_at _ _ _ _ _ _ _ L))|].
  { apply (lg_isI _ _ _ _ _ _ _ L). by right. }
  intros [] s2 [W2 G]. rw -Hk in L HQ. by apply (wp_link_member k s s1 s2 sfx sfx' f p prefix h).
Qed.

(** ** Rendezvous after an addition *)

(** The root scope of an identifier. *)
Lemma path_first_fragment s sfx id p : wf_struct s sfx → path s sfx id p →
  ∃ q, root s q ∧ first_fragment id = sfx q.
Proof.
  intros W. induction 1 as [q Hq|id f c Hp IH He].
  - exists q. split; [done|]. unfold first_fragment. apply take_ge.
    rw (ws_len _ _ W); [|left; by apply root_isS]. lia.
  - destruct IH as (q & Hq & E). exists q. split; [done|]. rw -E. unfold first_fragment.
    apply take_app_le. by apply (path_length s sfx W id f).
Qed.

(** No root scope is a known one, nor has a name space: nothing is matched
    only once. *)
Definition ordinary s sfx : Prop := ∀ p, root s p →
  ht_get (sfx p) (known_rootscopes s) = None ∧ default 0 (ht_get (sfx p) (rootScope_namesapce_Index s)) = 0.

(** Only root scopes of the graph. *)
Definition roots_of s sfx (t : StringSet) : Prop := ∀ r, hs_in r t → ∃ q, root s q ∧ r = sfx q.

Lemma roots_of_item s sfx p i acc : wf s sfx → items s !! p = Some i → roots_of s sfx acc →
  roots_of s sfx (ids_getRootScopes (ii_ids i) acc).
Proof.
  intros W Hi Ha r [Hr|(id & Hid & ->)]%elem_of_getRootScopes; [by apply Ha|].
  assert (path s sfx id p) as Hp by (apply (wb_path _ _ (wf_b _ _ W)); right; by exists i).
  by apply path_first_fragment in Hp; [|apply W].
Qed.

Lemma roots_of_empty s sfx : roots_of s sfx ht_empty.
Proof. by intros r ?%hs_in_empty. Qed.

Lemma ordinary_first s sfx t r : ordinary s sfx → roots_of s sfx t → ht_first t = Some r →
  ht_mem r (known_rootscopes s) = false.
Proof.
  intros O Ht Hr. apply ht_first_Some, Ht in Hr as (q & Hq & ->). apply ht_mem_false. by apply O.
Qed.

Lemma ordinary_say s sfx o : ordinary s sfx → ordinary (say o s) sfx.
Proof. done. Qed.

(** Messages are sent, and under known root scopes publications may go. *)
Definition matched sfx s s' : Prop := unpub sfx s s' ∧ (ordinary s sfx → ∃ o, s' = say o s).

Lemma matched_refl sfx s : wf s sfx → matched sfx s s.
Proof. intros W. split; [by apply unpub_refl|]. exists []. by rw say_nil. Qed.
Lemma matched_trans sfx s1 s2 s3 : matched sfx s1 s2 → matched sfx s2 s3 → matched sfx s1 s3.
Proof.
  intros [U1 O1] [U2 O2]. split; [by eapply unpub_trans|]. intros O.
  destruct (O1 O) as [o1 ->]. destruct (O2 O) as [o2 ->]. rw say_say. by eexists.
Qed.
Lemma matched_say sfx s o : wf s sfx → matched sfx s (say o s).
Proof. intros W. split; [by apply unpub_say, unpub_refl|eauto]. Qed.
Lemma matched_unpub sfx s s' : unpub sfx s s' → ¬ ordinary s sfx → matched sfx s s'.
Proof. by split. Qed.

Lemma wp_one_shot s sfx pub subscribers ID prefix st uo :
  wf s sfx → isI s pub → alive_hosts s subscribers → length ID = PURSUIT_ID_LEN →
  wp (rendezvous pub subscribers uo;;
      if (0 <? ht_size subscribers)%nat then
        publishers ← InformationItem_getPublishers pub ht_empty;
        unpublish_all publishers ID prefix st uo
      else mret ()) (λ _, unpub sfx s) s.
Proof.
  intros W [i Hi] Ha Hl. apply wp_bind. eapply wp_rendezvous; [done..|].
  match goal with |- wp _ _ (say ?o s) => set (so := say o s); pose proof (wf_say s sfx o W) as Wo end.
  assert (unpub sfx s so) as U by (by apply unpub_say, unpub_refl).
  destruct (0 <? ht_size subscribers)%nat; [|by apply wp_ret].
  unfold InformationItem_getPublishers. wps. eapply wp_mono; [by apply (wp_unpublish_all so sfx)|].
  intros [] s'. by apply unpub_trans.
Qed.

Lemma wp_getHTTPgw s sfx subscribers (Q : PtrSet → rv → Prop) :
  wf s sfx → alive_hosts s subscribers → (∀ t, alive_hosts s t → Q t s) → wp (getHTTPgw subscribers) Q s.
Proof.
  intros W Ha HQ. unfold getHTTPgw, find_item. wps.
  destruct (ht_get _ _) as [pub|] eqn:Hp; [|by apply wp_ret, HQ].
  destruct (item_index_pair s sfx _ pub W Hp) as (i & _ & Hi & _).
  unfold InformationItem_getSubscribers. wps. apply HQ. by eapply item_subscribers_alive.
Qed.

Lemma wp_rendezvous_by_namespace s sfx pub i subscribers ID prefix st uo :
  wf s sfx → items s !! pub = Some i → alive_hosts s subscribers → length ID = PURSUIT_ID_LEN →
  wp (rendezvous_by_namespace pub subscribers ID prefix st uo)
    (λ _ s', unpub sfx s s' ∧ (ordinary s sfx → s' = say (rendezvous_msgs s i subscribers uo) s)) s.
Proof.
  intros W Hi Ha Hl. assert (isI s pub) as HI by (by exists i).
  unfold rendezvous_by_namespace. wps. unfold ids_getRootScopes_known.
  destruct (ht_first_nonempty (ii_ids i) (item_has_id s sfx pub i W Hi)) as [id0 Hid0].
  set (ns := default 0 (ht_get (first_fragment id0) (rootScope_namesapce_Index s))).
  eapply (wp_lift_res _ (if ns =? 0 then NAMESPACE_UNKNOWN else ns)); [unfold first_id; by rw Hid0|].
  assert (ordinary s sfx → ns = 0) as Hns.
  { intros O. assert (path s sfx id0 pub) as Hp.
    { apply (wb_path _ _ (wf_b _ _ W)). right. exists i. split; [done|by apply ht_first_Some]. }
    apply (path_first_fragment s sfx) in Hp as (q & Hq & E); [|apply W].
    unfold ns. rw E. by apply O. }
  destruct (Z.eqb_spec ns 0) as [E|E].
  - change (NAMESPACE_UNKNOWN =? NAMESPACE_HTTP) with false.
    change (NAMESPACE_UNKNOWN =? NAMESPACE_IP) with false.
    change (NAMESPACE_UNKNOWN =? NAMESPACE_UNKNOWN) with true. cbv iota.
    eapply wp_rendezvous; [done..|]. split; [|done]. by apply unpub_say, unpub_refl.
  - assert (¬ ordinary s sfx) as HnO by (by intros ?%Hns).
    destruct (ns =? NAMESPACE_HTTP); [|destruct (ns =? NAMESPACE_IP); [|destruct (ns =? NAMESPACE_UNKNOWN)]].
    + apply wp_bind. destruct (ht_size subscribers <=? 0)%nat.
      * eapply wp_getHTTPgw; [done..|]. intros t Ht.
        eapply wp_mono; [by apply (wp_one_shot s sfx)|]. by intros [] s' U.
      * apply wp_ret. eapply wp_mono; [by apply (wp_one_shot s sfx)|]. by intros [] s' U.
    + eapply wp_mono; [by apply (wp_one_shot s sfx)|]. by intros [] s' U.
    + eapply wp_rendezvous; [done..|]. split; [|done]. by apply unpub_say, unpub_refl.
    + apply wp_ret. split; [by apply unpub_refl|done].
Qed.

(** ** What a new subscriber of a scope learns *)

Lemma wp_announce_subscopes s sfx sc h (Q : () → rv → Prop) :
  wf s sfx → isS s sc → is_Some (hosts s !! h) → (∀ o, Q () (say o s)) →
  wp (announce_subscopes sc h) Q s.
Proof.
  intros W [x Hx] Hh HQ. unfold announce_subscopes. wps.
  eapply wp_mono; [apply (wp_mfor_inv (λ s', ∃ o, s' = say o s))|by intros [] s' [o ->]].
  - exists []. by rw say_nil.
  - intros c s1 Hc [o ->]. apply hs_in_keys, hs_in_insert_all in Hc as [Hc|?%hs_in_empty]; [|done].
    assert (isS s c) as [y Hy].
    { apply (child_isS_r _ _ (wf_s _ _ W) sc). exists x. split; [done|by apply hs_in_keys]. }
    unfold Scope_getIDs. apply wp_bind, wp_bind. eapply wp_get_scope; [exact Hy|]. apply wp_ret, wp_bind.
    eapply wp_get_scope; [exact Hy|]. apply wp_notifySubscribers.
    + intros h' [->|?%hs_in_empty]%hs_in_insert; done.
    + rw say_say. by eexists.
Qed.

(** An item of the scope [sc] is matched; under a known root scope its
    publishers go. *)
Lemma wp_match_tail s sfx pub subscribers prefix (known : bool) st uo :
  wf s sfx → isI s pub → alive_hosts s subscribers → (∀ q, path s sfx (prefix ++ sfx pub) q → q = pub) →
  wp (rendezvous pub subscribers uo;;
      if known : bool then unpublish_matched pub prefix st uo else mret ())
    (λ _ s', unpub sfx s s' ∧ (∀ q, isI s q → isI s' q ∨ q = pub) ∧ (known = false → ∃ o, s' = say o s)) s.
Proof.
  intros W [i Hi] Ha Hp. apply wp_bind. eapply wp_rendezvous; [done..|].
  match goal with |- wp _ _ (say ?o s) => set (so := say o s); pose proof (wf_say s sfx o W) as Wo end.
  assert (unpub sfx s so) as U by (by apply unpub_say, unpub_refl).
  destruct known.
  - eapply wp_mono; [apply (wp_unpublish_matched so sfx); [done|by exists i|]|].
    { intros q Hq%say_path. by apply Hp. }
    intros [] s' [U' I']. split_and!; [by eapply unpub_trans|done|done].
  - apply wp_ret. split_and!; [done|auto|]. intros _. by eexists.
Qed.

(** The loop invariant of the subscribe requests, over the items [rest] left. *)
Definition matching sfx s (rest : list ptr) s' : Prop :=
  matched sfx s s' ∧ ∀ p, p ∈ rest → isI s' p.

Lemma matching_next sfx s p rest s1 s2 :
  NoDup (p :: rest) → matching sfx s (p :: rest) s1 → matched sfx s1 s2 →
  (∀ q, isI s1 q → isI s2 q ∨ q = p) → matching sfx s rest s2.
Proof.
  intros [Hp _]%NoDup_cons [M I] M' I'. split; [by eapply matched_trans|].
  intros q Hq. destruct (I' q) as [?| ->]; [apply I; by right|done|done].
Qed.

(** In the loop, what is found under [prefix] with the suffix of an item of
    the scope is that item. *)
Lemma matching_path sfx s rest s1 sc prefix p q : wf s sfx → path s sfx prefix sc → holds s sc p →
  matching sfx s rest s1 → path s1 sfx (prefix ++ sfx p) q → q = p.
Proof.
  intros W Hsc Hp [[U _] _] Hq%(un_path _ _ _ U). eapply (path_fun s sfx); [apply W|done|].
  apply (path_edge _ _ _ sc); [done|by right].
Qed.

Lemma unpub_scope_path s s1 sfx id sc : wf s sfx → isS s sc → unpub sfx s s1 →
  path s sfx id sc → path s1 sfx id sc.
Proof.
  intros W HS U Hp. apply (wf_index_path s1 sfx); [apply (un_wf _ _ _ U)|by apply (un_isS _ _ _ U)|].
  rw (un_sidx _ _ _ U). by apply (wf_index_path s sfx).
Qed.

Lemma scope_items_start s sfx sc x : wf s sfx → scopes s !! sc = Some x →
  let l := ht_keys (hs_insert_all (ht_keys (sc_informationitems x)) (ht_empty : PtrSet)) in
  NoDup l ∧ (∀ p, p ∈ l ↔ holds s sc p) ∧ ∀ o, matching sfx s l (say o s).
Proof.
  intros W Hx l. assert (∀ p, p ∈ l ↔ holds s sc p) as Hl.
  { intros p. unfold l. rw -hs_in_keys hs_in_insert_all -hs_in_keys. unfold holds. split.
    - intros [H|?%hs_in_empty]; [by exists x|done].
    - intros (y & Hy & H). left. congruence. }
  split_and!; [apply ht_keys_nodup|done|]. intros o. split; [by apply matched_say|].
  intros p Hp%Hl. by apply (holds_isI_r _ _ (wf_s _ _ W)) in Hp.
Qed.

(** ** The requests *)

(** What a request that adds leaves: on success the host has become a member
    of kind [k] under [id]; publications of items can have been withdrawn by
    one-shot matching, never under ordinary root scopes; an error changes
    nothing. *)
Record added_post sfx (k : kind) id h s (r : RvReturnCode) s' : Prop := {
  ad_wf : ∃ sfx', wf s' sfx';
  ad_kept : kept s s';
  ad_fail : r ≠ SUCCESS → s' = s;
  ad_exists : r = EXISTS → member s k id h;
  ad_new : r = SUCCESS → again k = false → ¬ member s k id h;
  ad_members : r = SUCCESS → ∀ k' id' h', k' ≠ PubItem →
    member s' k' id' h' ↔ member s k' id' h' ∨ (k' = k ∧ id' = id ∧ h' = h);
  ad_pubs : r = SUCCESS → ∀ id' h', member s' PubItem id' h' →
    member s PubItem id' h' ∨ (PubItem = k ∧ id' = id ∧ h' = h);
  ad_exact : r = SUCCESS → ordinary s sfx → ∀ id' h',
    member s PubItem id' h' ∨ (PubItem = k ∧ id' = id ∧ h' = h) → member s' PubItem id' h';
}.

Lemma added_fail sfx k id h s (r : RvReturnCode) : wf s sfx → r ≠ SUCCESS → r ≠ EXISTS → added_post sfx k id h s r s.
Proof. intros W Hr He. split; try done. eauto. Qed.
Lemma added_exists sfx k id h s : wf s sfx → member s k id h → added_post sfx k id h s EXISTS s.
Proof. intros W Hm. split; try done. eauto. Qed.

(** An exact addition, then a matching. *)
Lemma added_success sfx sfx' k id h s s1 s' : wf s1 sfx' → kept s s1 →
  (∀ k' id' h', member s1 k' id' h' ↔ member s k' id' h' ∨ (k' = k ∧ id' = id ∧ h' = h)) →
  (again k = false → ¬ member s k id h) →
  unpub sfx' s1 s' → (ordinary s sfx → ∃ o, s' = say o s1) → added_post sfx k id h s SUCCESS s'.
Proof.
  intros W1 K M N U O. split.
  - eexists. apply (un_wf _ _ _ U).
  - etrans; [done|by eapply unpub_kept].
  - done.
  - done.
  - done.
  - intros _ k' id' h' Hk. rw -M. split; [apply (un_in _ _ _ U)|by apply (un_keep _ _ _ U)].
  - intros _ id' h' Hm%(un_in _ _ _ U). by apply M.
  - intros _ [o ->]%O id' h' Hm. by apply M in Hm.
Qed.

Lemma added_exact sfx sfx' k id h s s1 o : wf s1 sfx' → kept s s1 →
  (∀ k' id' h', member s1 k' id' h' ↔ member s k' id' h' ∨ (k' = k ∧ id' = id ∧ h' = h)) →
  (again k = false → ¬ member s k id h) →
  added_post sfx k id h s SUCCESS (say o s1).
Proof. intros. eapply added_success; [done..| |eauto]. by apply unpub_say, unpub_refl. Qed.

(** Root scopes as before: ordinary as before. *)
Lemma ordinary_linked b f p s s' sfx sfx' : linked b f p s s' sfx sfx' → ordinary s sfx → ordinary s' sfx'.
Proof.
  intros L O q Hq%(lk_root _ _ _ _ _ _ _ L). destruct (lk_quiet _ _ _ _ _ _ _ L) as [_ En].
  rw (kp_known _ _ (lk_kept _ _ _ _ _ _ _ L)) En (lk_old _ _ _ _ _ _ _ L); [|left; by apply root_isS]. by apply O.
Qed.
Lemma ordinary_added s s' sfx : same_graph s s' → kept s s' → quiet s s' → ordinary s sfx → ordinary s' sfx.
Proof.
  intros G K [_ En] O q Hq%(sg_root _ _ G). rw (kp_known _ _ K) En. by apply O.
Qed.

(** The pair of a scope or item found in its index, for each kind. *)
Lemma scope_opair s sfx k id p : wf s sfx → scope_kind k = true → ht_get id (scopeIndex s) = Some p →
  ∃ pr, opair s k p id = Some pr.
Proof.
  intros W Hk (x & pr & _ & _ & Hop)%(scope_index_pair s sfx id p W). exists pr.
  by rw (opair_kind _ _ PubScope).
Qed.
Lemma item_opair s sfx k id p : wf s sfx → scope_kind k = false → ht_get id (pubIndex s) = Some p →
  ∃ pr, opair s k p id = Some pr.
Proof.
  intros W Hk (x & pr & _ & _ & Hop)%(item_index_pair s sfx id p W). exists pr.
  by rw (opair_kind _ _ PubItem).
Qed.

(** One more publisher of a scope that is there. *)
Lemma wp_publish_known s sfx sc id h :
  wf s sfx → ht_get id (scopeIndex s) = Some sc → is_Some (hosts s !! h) →
  wp (added ← Scope_updatePublishers sc id h; when_added added (upd_host h (host_add_pubScope id)))
    (added_post sfx PubScope id h s) s.
Proof.
  intros W Hsc Hh. destruct (scope_opair s sfx PubScope id sc W eq_refl Hsc) as [pr Hop].
  apply (wp_add_member0 PubScope s sfx sc id h pr); [done..| |].
  { intros Hin. apply added_exists; [done|by exists sc, pr]. }
  intros s' W' M Hin K _ _. rw -(say_nil s'). eapply added_exact; [done..|by eapply known_new].
Qed.

Lemma wp_publish_root_scope s sfx h ID st :
  wf s sfx → is_Some (hosts s !! h) → length ID = PURSUIT_ID_LEN →
  wp (publish_root_scope h ID st) (added_post sfx PubScope ID h s) s.
Proof.
  intros W Hh Hl. unfold publish_root_scope, find_scope. wps.
  destruct (ht_get ID (scopeIndex s)) as [sc|] eqn:Hsc.
  - destruct (find_scope_path s sfx _ sc W Hsc) as [_ [x Hx]]. wps.
    destruct (sc_strategy x =? st); [by apply wp_publish_known|by apply wp_ret, added_fail].
  - apply (wp_new_root s sfx ID st W Hl Hsc PubScope h); [done..|].
    intros s' W' M _ _ _ K. rw -(say_nil s'). eapply added_exact; [done..|intros _].
    by apply (free_root_member s sfx).
Qed.

(** What the subscribers of the father [f] are told about the scope [p]. *)
Definition told s f p (g : StringSet → StringSet) (type : Z) : list rv_msg :=
  match scopes s !! f, scopes s !! p with
  | Some xf, Some x => notify_msgs s type (g (ids_getIDs (sc_ids x) ht_empty)) (sc_strategy x)
      (ids_getSubscribers (sc_ids xf) ht_empty)
  | _, _ => []
  end.

Lemma wp_tell_subscribers s sfx f p (g : StringSet → StringSet) type (Q : () → rv → Prop) :
  wf s sfx → isS s f → isS s p → Q () (say (told s f p g type) s) →
  wp (subscribers ← Scope_getSubscribers f ht_empty;
      _ids ← Scope_getIDs p;
      x ← get_scope p;
      notifySubscribers type (g _ids) (sc_strategy x) subscribers) Q s.
Proof.
  intros W [xf Hf] [x Hx] HQ. unfold Scope_getSubscribers, Scope_getIDs. wps.
  unfold told in HQ. rw Hf Hx in HQ.
  apply wp_notifySubscribers; [|apply HQ]. eapply scope_subscribers_alive; [done..|apply alive_empty].
Qed.

(** The scope [p] has been linked under [f], [h] is a member under [id], and
    the subscribers of [f] have been told. *)
Definition scope_linked f p s sfx sfx' k id h g (r : RvReturnCode) s' : Prop :=
  ∃ s1, linked true f p s s1 sfx sfx' ∧ r = SUCCESS ∧
    (∀ k' id' h', member s1 k' id' h' ↔ member s k' id' h' ∨ (k' = k ∧ id' = id ∧ h' = h)) ∧
    s' = say (told s1 f p g SCOPE_PUBLISHED) s1.

Lemma scope_linked_added f p s sfx sfx' k id h g (r : RvReturnCode) s' : wf s sfx →
  ht_get id (scopeIndex s) = None → ht_get id (pubIndex s) = None →
  scope_linked f p s sfx sfx' k id h g r s' → added_post sfx k id h s r s'.
Proof.
  intros W Hns Hni (s1 & L & -> & M & ->).
  eapply added_exact; [apply L|apply (lk_kept _ _ _ _ _ _ _ L)|done|].
  intros _. by apply (free_no_member s sfx).
Qed.

(** The identifiers after a new node has been linked: it has one for every
    identifier of its father. *)
Lemma linked_new_path b f p s s' sfx sfx' id q : wf s sfx → ¬ isS s p → ¬ isI s p →
  linked b f p s s' sfx sfx' →
  path s' sfx' id q ↔ path s sfx id q ∨ (q = p ∧ ∃ pre, path s sfx pre f ∧ id = pre ++ sfx' p).
Proof.
  intros W HnS HnI L. pose proof (wf_s _ _ W) as W0. split.
  - induction 1 as [q Hq%(lk_root _ _ _ _ _ _ _ L)|id a c Hp IH He%(lk_edge _ _ _ _ _ _ _ L)].
    + left. rw (lk_old _ _ _ _ _ _ _ L); [by constructor|left; by apply root_isS].
    + destruct IH as [IH|[-> _]]; last first.
      { exfalso. destruct He as [He%edge_isS|[Ea ->]]; [done|].
        assert (edge s' p p) as Hloop by (apply (lk_edge _ _ _ _ _ _ _ L); by right).
        by apply (edge_ne _ _ _ _ (wf_s _ _ (lk_wf _ _ _ _ _ _ _ L)) Hloop). }
      destruct He as [He|[-> ->]]; [left|right; split; [done|eauto]].
      rw (lk_old _ _ _ _ _ _ _ L); [by apply (path_edge _ _ _ a)|by eapply edge_alive].
  - intros [Hp|(-> & pre & Hp & ->)]; [by apply (lk_path _ _ _ _ _ _ _ L)|].
    apply (path_edge _ _ _ f); [by apply (lk_path _ _ _ _ _ _ _ L)|]. apply (lk_edge _ _ _ _ _ _ _ L). by right.
Qed.

(** The block of publish_inner_scope and subscribe_inner_scope for a name
    nobody uses. *)
Lemma wp_new_inner_scope k s sfx h ID prefix f st :
  wf s sfx → is_Some (hosts s !! h) → length ID = PURSUIT_ID_LEN → scope_kind k = true →
  ht_get prefix (scopeIndex s) = Some f →
  ht_get (prefix ++ ID) (scopeIndex s) = None → ht_get (prefix ++ ID) (pubIndex s) = None →
  wp (sc ← Scope_new st (Some f);
      Scope_recursivelyUpdateIDs sc (last_fragment (prefix ++ ID));;
      added ← update_members k sc (prefix ++ ID) h;
      when_added added (
        upd_host h (host_add k (prefix ++ ID));;
        subscribers ← Scope_getSubscribers f ht_empty;
        _ids ← Scope_getIDs sc;
        x ← get_scope sc;
        notifySubscribers SCOPE_PUBLISHED _ids (sc_strategy x) subscribers))
    (scope_linked f (next s) s sfx (sfx_set (next s) ID sfx) k (prefix ++ ID) h (λ t, t)) s.
Proof.
  intros W Hh Hl Hk Hf Hns Hni. destruct (find_scope_path s sfx _ f W Hf) as [Hp HS].
  apply wp_bind. eapply wp_Scope_new_inner; [apply W|done|].
  pose proof (new_scope_linking s sfx f st ID W HS Hl (free_name s sfx f prefix ID W Hp Hns Hni)) as L.
  rw last_fragment_app //.
  apply (wp_link_scope k s _ sfx (sfx_set (next s) ID sfx) f (next s) prefix ID h);
    [apply sfx_set_new|done..|].
  intros s' L' M. eapply (wp_tell_subscribers s' _ f (next s) (λ t, t)); [apply L'|..].
  - apply (lk_isS _ _ _ _ _ _ _ L'). by left.
  - apply (lk_isS _ _ _ _ _ _ _ L'). by right.
  - by exists s'.
Qed.

Lemma wp_publish_inner_new s sfx h ID prefix f xf :
  wf s sfx → is_Some (hosts s !! h) → length ID = PURSUIT_ID_LEN →
  ht_get prefix (scopeIndex s) = Some f → scopes s !! f = Some xf →
  ht_get (prefix ++ ID) (scopeIndex s) = None → ht_get (prefix ++ ID) (pubIndex s) = None →
  wp (publish_inner_scope h ID prefix (sc_strategy xf))
    (scope_linked f (next s) s sfx (sfx_set (next s) ID sfx) PubScope (prefix ++ ID) h (λ t, t)) s.
Proof.
  intros W Hh Hl Hf Hxf Hns Hni. unfold publish_inner_scope, item_exists, find_scope. wps.
  unfold ht_mem. rw Hni. wps. rw Hf. wps. rw Hns. wps. rw Z.eqb_refl.
  by apply (wp_new_inner_scope PubScope).
Qed.

Lemma wp_publish_inner_scope s sfx h ID prefix st :
  wf s sfx → is_Some (hosts s !! h) → length ID = PURSUIT_ID_LEN →
  wp (publish_inner_scope h ID prefix st) (added_post sfx PubScope (prefix ++ ID) h s) s.
Proof.
  intros W Hh Hl. unfold publish_inner_scope, item_exists, find_scope. wps.
  destruct (ht_mem _ (pubIndex s)) eqn:Hni; [by apply wp_ret, added_fail|]. apply ht_mem_false in Hni.
  wps. destruct (ht_get prefix (scopeIndex s)) as [f|] eqn:Hf; [|by apply wp_ret, added_fail].
  destruct (find_scope_path s sfx _ f W Hf) as [Hp HS]. wps.
  destruct (ht_get (prefix ++ ID) (scopeIndex s)) as [sc|] eqn:Hns.
  - destruct (find_scope_path s sfx _ sc W Hns) as [_ [x Hx]]. wps.
    destruct (sc_strategy x =? st); [by apply wp_publish_known|by apply wp_ret, added_fail].
  - destruct HS as [xf Hxf]. wps. destruct (sc_strategy xf =? st); [|by apply wp_ret, added_fail].
    eapply wp_mono; [by apply (wp_new_inner_scope PubScope)|]. intros r s'. by apply scope_linked_added.
Qed.

(** The request would make a scope an ancestor of itself. *)
Definition closes_cycle s (ID prefix : bytes) : Prop :=
  ∃ e f, ht_get ID (scopeIndex s) = Some e ∧ ht_get prefix (scopeIndex s) = Some f ∧ rtc (child s) e f.

Lemma wp_scope_edge f e s (Q : () → rv → Prop) :
  isS s f → isS s e → e ≠ f → Q () (scope_edge f e s) →
  wp (upd_scope e (λ x, sc_with_fathers (hs_insert f (sc_fatherScopes x)) x);;
      upd_scope f (λ x, sc_with_children (hs_insert e (sc_childrenScopes x)) x)) Q s.
Proof.
  intros [xf Hf] [xe He] Hne HQ. apply wp_bind. eapply wp_upd_scope; [done|].
  eapply wp_upd_scope; [cbn; by rw lookup_insert_ne|]. cbn.
  unfold scope_edge in HQ. rw (alter_insert (scopes s) e xe) // in HQ.
  rw (alter_insert _ f xf) in HQ; [done|by rw lookup_insert_ne].
Qed.

(** The block of republish_inner_scope for a name nobody uses. *)
Lemma wp_republish_link s sfx h ID prefix f e :
  wf s sfx → is_Some (hosts s !! h) → (PURSUIT_ID_LEN < length ID)%nat → ¬ rtc (child s) e f →
  ht_get ID (scopeIndex s) = Some e → ht_get prefix (scopeIndex s) = Some f →
  ht_get (prefix ++ last_fragment ID) (scopeIndex s) = None →
  ht_get (prefix ++ last_fragment ID) (pubIndex s) = None →
  wp (upd_scope e (λ x, sc_with_fathers (hs_insert f (sc_fatherScopes x)) x);;
      upd_scope f (λ x, sc_with_children (hs_insert e (sc_childrenScopes x)) x);;
      Scope_recursivelyUpdateIDs e (last_fragment ID);;
      added ← Scope_updatePublishers e (prefix ++ last_fragment ID) h;
      when_added added (
        upd_host h (host_add_pubScope (prefix ++ last_fragment ID));;
        subscribers ← Scope_getSubscribers f ht_empty;
        _ids ← Scope_getIDs e;
        x ← get_scope e;
        notifySubscribers SCOPE_PUBLISHED
          (ht_erase (take (length ID - PURSUIT_ID_LEN) ID ++ last_fragment ID) _ids) (sc_strategy x) subscribers))
    (scope_linked f e s sfx sfx PubScope (prefix ++ last_fragment ID) h
      (ht_erase (take (length ID - PURSUIT_ID_LEN) ID ++ last_fragment ID))) s.
Proof.
  intros W Hh Hl Hac He Hf Hns Hni.
  destruct (find_scope_path s sfx _ f W Hf) as [Hp HS].
  destruct (find_scope_path s sfx _ e W He) as [Hpe HSe].
  assert (last_fragment ID = sfx e) as El by (by apply (path_last_fragment s sfx (wf_s _ _ W))).
  assert (e ≠ f) as Hne by (intros ->; by apply Hac).
  assert (¬ root s e) as Hr.
  { intros Hr. pose proof (path_root_inv s sfx (wf_s _ _ W) ID e Hr Hpe) as E.
    rw E (ws_len _ _ (wf_s _ _ W)) in Hl; [lia|by left]. }
  pose proof (free_name s sfx f prefix _ W Hp Hns Hni) as Hfree. rw El in Hfree.
  pose proof (scope_edge_linking s sfx f e W HS HSe Hr Hfree Hac) as L.
  apply (wp_assoc2 (upd_scope e _) (upd_scope f _)), wp_bind, wp_scope_edge; [done..|].
  apply (wp_link_scope PubScope s _ sfx sfx f e prefix (last_fragment ID) h); [done..|].
  intros s' L' M. eapply (wp_tell_subscribers s' _ f e (ht_erase _)); [apply L'|..].
  - apply (lk_isS _ _ _ _ _ _ _ L'). by left.
  - apply (lk_isS _ _ _ _ _ _ _ L'). by left.
  - by exists s'.
Qed.

Lemma wp_republish_new s sfx h ID prefix f xf e :
  wf s sfx → is_Some (hosts s !! h) → (PURSUIT_ID_LEN < length ID)%nat → ¬ rtc (child s) e f →
  ht_get ID (scopeIndex s) = Some e → ht_get prefix (scopeIndex s) = Some f → scopes s !! f = Some xf →
  ht_get (prefix ++ last_fragment ID) (scopeIndex s) = None →
  ht_get (prefix ++ last_fragment ID) (pubIndex s) = None →
  wp (republish_inner_scope h ID prefix (sc_strategy xf))
    (scope_linked f e s sfx sfx PubScope (prefix ++ last_fragment ID) h
      (ht_erase (take (length ID - PURSUIT_ID_LEN) ID ++ last_fragment ID))) s.
Proof.
  intros W Hh Hl Hac He Hf Hxf Hns Hni. unfold republish_inner_scope, item_exists, find_scope. wps.
  unfold ht_mem. rw Hni. wps. rw Hf. wps. rw He. wps. rw Hns. wps. rw Z.eqb_refl.
  by apply wp_republish_link.
Qed.

Lemma wp_republish_inner_scope s sfx h ID prefix st :
  wf s sfx → is_Some (hosts s !! h) → (PURSUIT_ID_LEN < length ID)%nat → ¬ closes_cycle s ID prefix →
  wp (republish_inner_scope h ID prefix st) (added_post sfx PubScope (prefix ++ last_fragment ID) h s) s.
Proof.
  intros W Hh Hl Hcyc. unfold republish_inner_scope, item_exists, find_scope. wps.
  destruct (ht_mem _ (pubIndex s)) eqn:Hni; [by apply wp_ret, added_fail|]. apply ht_mem_false in Hni.
  wps. destruct (ht_get prefix (scopeIndex s)) as [f|] eqn:Hf; [|by apply wp_ret, added_fail].
  destruct (find_scope_path s sfx _ f W Hf) as [Hp HS]. wps.
  destruct (ht_get ID (scopeIndex s)) as [e|] eqn:He; [|by apply wp_ret, added_fail]. wps.
  destruct (ht_get (prefix ++ last_fragment ID) (scopeIndex s)) as [sc|] eqn:Hns.
  - destruct (find_scope_path s sfx _ sc W Hns) as [_ [x Hx]]. wps.
    destruct (sc_strategy x =? st); [by apply wp_publish_known|by apply wp_ret, added_fail].
  - destruct HS as [xf Hxf]. wps. destruct (sc_strategy xf =? st); [|by apply wp_ret, added_fail].
    eapply wp_mono; [apply (wp_republish_link s sfx h ID prefix f e); try done|].
    + intros H. apply Hcyc. by exists e, f.
    + intros r s'. by apply scope_linked_added.
Qed.

(** The identifier a publish or subscribe request of a scope is about. *)
Definition target (ID prefix : bytes) : bytes :=
  if (PURSUIT_ID_LEN <? length ID)%nat then prefix ++ last_fragment ID else prefix ++ ID.

Lemma target_short ID prefix : length ID = PURSUIT_ID_LEN → target ID prefix = prefix ++ ID.
Proof. intros E. unfold target. rw E. by rw Nat.ltb_irrefl. Qed.
Lemma target_long ID prefix : (PURSUIT_ID_LEN <? length ID)%nat = true → target ID prefix = prefix ++ last_fragment ID.
Proof. intros E. unfold target. by rw E. Qed.

Lemma wp_publish_scope s sfx h ID prefix st :
  wf s sfx → is_Some (hosts s !! h) → ((PURSUIT_ID_LEN < length ID)%nat → ¬ closes_cycle s ID prefix) →
  wp (publish_scope h ID prefix st) (added_post sfx PubScope (target ID prefix) h s) s.
Proof.
  intros W Hh Hcyc. unfold publish_scope.
  destruct ((length prefix =? 0)%nat && (length ID =? PURSUIT_ID_LEN)%nat) eqn:E1.
  { apply andb_prop in E1 as [E1%Nat.eqb_eq%length_zero_iff_nil E2%Nat.eqb_eq]. subst prefix.
    rw target_short //. by apply wp_publish_root_scope. }
  destruct ((0 <? length prefix)%nat && (length ID =? PURSUIT_ID_LEN)%nat) eqn:E2.
  { apply andb_prop in E2 as [_ E2%Nat.eqb_eq]. rw target_short //. by apply wp_publish_inner_scope. }
  destruct ((0 <? length prefix)%nat && (PURSUIT_ID_LEN <? length ID)%nat) eqn:E3; [|by apply wp_ret, added_fail].
  apply andb_prop in E3 as [_ E3]. rw target_long //. apply Nat.ltb_lt in E3. apply wp_republish_inner_scope; auto.
Qed.

(** ** Subscribing to scopes *)

(** One more subscriber of a scope that is there; [m] is what follows. *)
Lemma wp_subscribe_known s sfx sc id h (m : R ()) :
  wf s sfx → ht_get id (scopeIndex s) = Some sc → is_Some (hosts s !! h) →
  (∀ s', wf s' sfx → isS s' sc → is_Some (hosts s' !! h) → path s' sfx id sc → wp m (λ _, matched sfx s') s') →
  wp (added ← Scope_updateSubscribers sc id h; when_added added (upd_host h (host_add_subScope id);; m))
    (added_post sfx SubScope id h s) s.
Proof.
  intros W Hsc Hh Hm. destruct (scope_opair s sfx SubScope id sc W eq_refl Hsc) as [pr Hop].
  destruct (find_scope_path s sfx _ sc W Hsc) as [Hp HS].
  apply (wp_add_member SubScope s sfx sc id h pr); [done..|].
  intros s' W' _ M Hin K Qt G. eapply wp_mono.
  - apply Hm; [done|by apply (sg_isS _ _ G)|by apply (kp_hosts _ _ K)|by apply (sg_path _ _ G)].
  - intros [] s'' [U O]. eapply added_success; [done..|by eapply known_new|done|]. intros Ho. apply O. by eapply ordinary_added.
Qed.

Lemma wp_subscribe_root_scope s sfx h ID st uo :
  wf s sfx → is_Some (hosts s !! h) → length ID = PURSUIT_ID_LEN →
  wp (subscribe_root_scope h ID st uo) (added_post sfx SubScope ID h s) s.
Proof.
  intros W Hh Hl. unfold subscribe_root_scope, find_scope. wps.
  destruct (ht_get ID (scopeIndex s)) as [sc|] eqn:Hsc.
  - destruct (find_scope_path s sfx _ sc W Hsc) as [_ [x Hx]]. wps.
    destruct (sc_strategy x =? st); [|by apply wp_ret, added_fail].
    apply wp_subscribe_known; [done..|]. clear dependent s. intros s W HS Hh Hp. clear dependent x.
    apply wp_bind. eapply wp_announce_subscopes; [done..|]. intros o. destruct (HS) as [x Hx].
    unfold getInformationItems. apply wp_bind, wp_bind. eapply wp_get_scope; [exact Hx|]. apply wp_ret.
    destruct (scope_items_start s sfx sc x W Hx) as (Hnd & Hin & Hst).
    set (l := ht_keys _) in *. eapply wp_mono; [apply (wp_mfor (λ _, matching sfx s)); [apply Hst|]|by intros [] s' []].
    intros d p t s1 El I1. pose proof (un_wf _ _ _ (proj1 (proj1 I1))) as W1.
    apply wp_bind. eapply wp_interested; [done|apply I1; by left|]. intros subs Ha _. apply wp_bind, wp_gets. cbv beta.
    assert (holds s sc p) as Hhold by (apply Hin; rw -El; set_solver).
    eapply wp_mono; [eapply (wp_match_tail s1 sfx p subs ID _ st uo W1); [apply I1; by left|done|]|].
    { intros q. by apply (matching_path sfx s (p :: t) s1 sc). }
    intros [] s2 (U2 & I2 & O2). eapply matching_next; [|exact I1|split; [done|]|done].
    + rw -El in Hnd. by apply NoDup_app in Hnd as (_ & _ & Hnd).
    + intros O. apply O2, ht_mem_false.
      pose proof (unpub_scope_path s s1 sfx ID sc W HS (proj1 (proj1 I1)) Hp) as Hp1.
      destruct (path_first_fragment s1 sfx ID sc (wf_s _ _ W1) Hp1) as (q & Hq & E).
      assert (first_fragment ID = ID) as EI by (unfold first_fragment; apply take_ge; lia).
      rw -EI E. by apply O.
  - apply (wp_new_root s sfx ID st W Hl Hsc SubScope h); [done..|].
    intros s' W' M _ _ _ K. rw -(say_nil s'). eapply added_exact; [done..|intros _].
    by apply (free_root_member s sfx).
Qed.

Lemma roots_of_unpub s s' sfx t : unpub sfx s s' → roots_of s sfx t → roots_of s' sfx t.
Proof. intros U H r Hr. destruct (H r Hr) as (q & Hq & ->). exists q. split; [by apply (un_root _ _ _ U)|done]. Qed.

(** The loop of subscribe_inner_scope over the items of the scope. *)
Lemma wp_match_items s s0 sfx sc x prefix st uo :
  wf s sfx → scopes s !! sc = Some x → path s sfx prefix sc → (∃ o, s0 = say o s) →
  wp (_ ← mfoldl (λ (_RootScopeids : StringSet) pub,
        subscribers ← interested pub;
        _RootScopeids ← InformationItem_getRootScopes pub _RootScopeids;
        known_scope ← first_root_known _RootScopeids;
        rendezvous pub subscribers uo;;
        (if known_scope : bool then unpublish_matched pub prefix st uo else mret ());;
        mret _RootScopeids) ht_empty
        (ht_keys (hs_insert_all (ht_keys (sc_informationitems x)) (ht_empty : PtrSet)));
      mret ()) (λ _, matched sfx s) s0.
Proof.
  intros W Hx Hp [o ->]. destruct (scope_items_start s sfx sc x W Hx) as (Hnd & Hin & Hst).
  set (l := ht_keys _) in *. apply wp_bind.
  eapply wp_mono; [apply (wp_mfoldl (λ rest acc s', matching sfx s rest s' ∧ roots_of s' sfx acc))|].
  { split; [apply Hst|apply roots_of_empty]. }
  2: { intros acc s' [[] _]. by apply wp_ret. }
  intros p t acc s1 [d El] [I1 R1]. pose proof (un_wf _ _ _ (proj1 (proj1 I1))) as W1.
  assert (isI s1 p) as HI1 by (apply I1; by left). destruct (HI1) as [i1 Hi1].
  apply wp_bind. eapply wp_interested; [done|done|]. intros subs Ha _.
  unfold InformationItem_getRootScopes. apply wp_bind, wp_bind. eapply wp_get_item; [done|]. apply wp_ret.
  set (acc' := ids_getRootScopes _ acc).
  assert (roots_of s1 sfx acc') as R1' by (by eapply roots_of_item).
  destruct (roots_first s1 sfx p i1 acc W1 Hi1) as [r Hr]. fold acc' in Hr.
  unfold first_root_known. apply wp_bind, wp_bind. eapply wp_lift_opt; [done|]. apply wp_gets. cbv beta.
  assert (holds s sc p) as Hhold by (apply Hin; rw -El; set_solver).
  apply (wp_assoc2 (rendezvous p subs uo)), wp_bind.
  eapply wp_mono; [eapply (wp_match_tail s1 sfx p subs prefix _ st uo W1); [done|done|]|].
  { intros q. by apply (matching_path sfx s (p :: t) s1 sc). }
  intros [] s2 (U2 & I2 & O2). apply wp_ret. split; [|by eapply roots_of_unpub].
  eapply matching_next; [|exact I1|split; [done|]|done].
  - rw -El in Hnd. by apply NoDup_app in Hnd as (_ & _ & Hnd).
  - intros O. apply O2. by eapply ordinary_first.
Qed.

Lemma wp_subscribe_inner_scope s sfx h ID prefix st uo :
  wf s sfx → is_Some (hosts s !! h) → length ID = PURSUIT_ID_LEN →
  wp (subscribe_inner_scope h ID prefix st uo) (added_post sfx SubScope (prefix ++ ID) h s) s.
Proof.
  intros W Hh Hl. unfold subscribe_inner_scope, item_exists, find_scope. wps.
  destruct (ht_mem _ (pubIndex s)) eqn:Hni; [by apply wp_ret, added_fail|]. apply ht_mem_false in Hni.
  wps. destruct (ht_get prefix (scopeIndex s)) as [f|] eqn:Hf; [|by apply wp_ret, added_fail].
  destruct (find_scope_path s sfx _ f W Hf) as [Hp HS]. wps.
  destruct (ht_get (prefix ++ ID) (scopeIndex s)) as [sc|] eqn:Hns.
  - destruct (find_scope_path s sfx _ sc W Hns) as [_ [x Hx]]. wps.
    destruct (sc_strategy x =? st); [|by apply wp_ret, added_fail].
    apply wp_subscribe_known; [done..|]. clear dependent s x. intros s W HS Hh Hp.
    apply wp_bind. eapply wp_announce_subscopes; [done..|]. intros o. destruct HS as [x Hx].
    unfold getInformationItems. apply wp_bind, wp_bind. eapply wp_get_scope; [exact Hx|]. apply wp_ret.
    apply (wp_match_items s _ sfx sc x); [done..|by eexists].
  - destruct HS as [xf Hxf]. assert (isS s f) as HS by (by exists xf). wps.
    destruct (sc_strategy xf =? st); [|by apply wp_ret, added_fail].
    eapply wp_mono; [by apply (wp_new_inner_scope SubScope)|]. intros r s'. by apply scope_linked_added.
Qed.

Lemma wp_subscribe_scope s sfx h ID prefix st uo :
  wf s sfx → is_Some (hosts s !! h) →
  wp (subscribe_scope h ID prefix st uo) (added_post sfx SubScope (prefix ++ ID) h s) s.
Proof.
  intros W Hh. unfold subscribe_scope.
  destruct ((length prefix =? 0)%nat && (length ID =? PURSUIT_ID_LEN)%nat) eqn:E1.
  { apply andb_prop in E1 as [E1%Nat.eqb_eq%length_zero_iff_nil E2%Nat.eqb_eq]. subst prefix.
    by apply wp_subscribe_root_scope. }
  destruct ((0 <? length prefix)%nat && (length ID =? PURSUIT_ID_LEN)%nat) eqn:E2; [|by apply wp_ret, added_fail].
  apply andb_prop in E2 as [_ E2%Nat.eqb_eq]. by apply wp_subscribe_inner_scope.
Qed.

(** ** Advertising items *)

(** The request has ended with the rendezvous of the item [id]: for all its
    publishers and all that are interested in it. *)
Definition rendezvous_sent s id uo s' : Prop :=
  ∃ pub i subs, ht_get id (pubIndex s') = Some pub ∧ items s' !! pub = Some i ∧
    (∀ h, hs_in h subs ↔ interested_in s' pub h) ∧ out s' = out s ++ rendezvous_msgs s' i subs uo.

Definition publish_post sfx id h uo s (r : RvReturnCode) s' : Prop :=
  added_post sfx PubItem id h s r s' ∧ (r = SUCCESS → ordinary s sfx → rendezvous_sent s id uo s').

Lemma publish_fail sfx id h uo s (r : RvReturnCode) :
  wf s sfx → r ≠ SUCCESS → r ≠ EXISTS → publish_post sfx id h uo s r s.
Proof. intros W Hr He. split; [by apply added_fail|by intros ->]. Qed.

Lemma item_index s sfx id pub : wf s sfx → path s sfx id pub → isI s pub → ht_get id (pubIndex s) = Some pub.
Proof.
  intros W Hp HI. apply (wb_pidx _ _ (wf_b _ _ W)). apply (wf_full _ _ W) in Hp as [Hp%sids_isS|Hp]; [|done].
  exfalso. by apply (ws_disj _ _ (wf_s _ _ W) pub).
Qed.

(** The end of every successful advertisement: [s1] has the new publisher. *)
Lemma wp_publish_tail s s1 sfx sfx1 id h pub subs ID prefix st uo :
  wf s1 sfx1 → isI s1 pub → path s1 sfx1 id pub → kept s s1 → quiet s s1 →
  (∀ k' id' h', member s1 k' id' h' ↔ member s k' id' h' ∨ (k' = PubItem ∧ id' = id ∧ h' = h)) →
  (again PubItem = false → ¬ member s PubItem id h) →
  (ordinary s sfx → ordinary s1 sfx1) → length ID = PURSUIT_ID_LEN →
  alive_hosts s1 subs → (∀ h, hs_in h subs ↔ interested_in s1 pub h) →
  wp (rendezvous_by_namespace pub subs ID prefix st uo) (λ _, publish_post sfx id h uo s SUCCESS) s1.
Proof.
  intros W1 HI Hp K [Eo En] M N O Hl Ha Hs. destruct (HI) as [i Hi].
  eapply wp_mono; [by apply (wp_rendezvous_by_namespace s1 sfx1 pub i)|].
  intros [] s' [U E]. split.
  - eapply added_success; [done..|]. intros Ho. rw (E (O Ho)). by eexists.
  - intros _ Ho. rw (E (O Ho)). exists pub, i, subs. split_and!; [exact (item_index s1 sfx1 id pub W1 Hp HI)|done|done|]. cbn. by rw Eo.
Qed.

(** Another publisher of an item that is there. *)
Lemma wp_publish_known_item s sfx pub id h ID prefix st uo :
  wf s sfx → ht_get id (pubIndex s) = Some pub → is_Some (hosts s !! h) → length ID = PURSUIT_ID_LEN →
  wp (added ← InformationItem_updatePublishers pub id h;
      when_added added (
        upd_host h (host_add_pubInfo id);;
        subscribers ← interested pub;
        rendezvous_by_namespace pub subscribers ID prefix st uo))
    (publish_post sfx id h uo s) s.
Proof.
  intros W Hpub Hh Hl. destruct (item_opair s sfx PubItem id pub W eq_refl Hpub) as [pr Hop].
  destruct (find_item_path s sfx _ pub W Hpub) as [Hp HI].
  apply (wp_add_member PubItem s sfx pub id h pr); [done..| |].
  { intros Hin _. split; [|done]. apply added_exists; [done|by exists pub, pr]. }
  intros s' W' _ M Hin K Qt G. assert (isI s' pub) as HI' by (by apply (sg_isI _ _ G)).
  apply wp_bind. eapply wp_interested; [done..|]. intros subs Ha Hs.
  apply (wp_publish_tail s s' sfx sfx id h); try done.
  - by apply (sg_path _ _ G).
  - by eapply known_new.
  - by apply ordinary_added.
Qed.

(** The subscribers of an item with one father. *)
Lemma interested_one_father s sfx f p i xf h : wf s sfx → items s !! p = Some i → scopes s !! f = Some xf →
  (∀ a, holds s a p ↔ a = f) →
  interested_in s p h ↔ (∃ id pr, ht_get id (ii_ids i) = Some pr ∧ hs_in h pr.2) ∨
    (∃ id pr, ht_get id (sc_ids xf) = Some pr ∧ hs_in h pr.2).
Proof.
  intros W Hi Hf Ho. assert (∀ a, hs_in a (ii_fatherScopes i) ↔ a = f) as Ho'.
  { intros a. rw -Ho (ws_holds _ _ (wf_s _ _ W)). unfold ifather. naive_solver. }
  unfold interested_in. split.
  - intros (i' & Hi' & H). rw Hi in Hi'. injection Hi' as <-.
    destruct H as [H|(a & x & id & pr & ->%Ho' & Hx & H)]; [by left|right].
    rw Hf in Hx. injection Hx as <-. eauto.
  - intros [H|(id & pr & H)]; exists i; (split; [done|]); [by left|right].
    exists f, xf, id, pr. split; [by apply Ho'|done].
Qed.

Lemma wp_advertise_info s sfx h ID prefix st uo :
  wf s sfx → is_Some (hosts s !! h) → length ID = PURSUIT_ID_LEN →
  wp (advertise_info h ID prefix st uo) (publish_post sfx (prefix ++ ID) h uo s) s.
Proof.
  intros W Hh Hl. unfold advertise_info, find_scope, find_item, scope_exists. wps.
  destruct (ht_get prefix (scopeIndex s)) as [f|] eqn:Hf; [|by apply wp_ret, publish_fail].
  destruct (find_scope_path s sfx _ f W Hf) as [Hp HS]. destruct (HS) as [xf Hxf]. wps.
  destruct (ht_get (prefix ++ ID) (pubIndex s)) as [pub|] eqn:Hni; wps.
  { destruct (sc_strategy xf =? st); [by apply wp_publish_known_item|by apply wp_ret, publish_fail]. }
  destruct (ht_mem _ (scopeIndex s)) eqn:Hns; [by apply wp_ret, publish_fail|]. apply ht_mem_false in Hns.
  wps. destruct (sc_strategy xf =? st); [|by apply wp_ret, publish_fail].
  apply wp_bind, wp_InformationItem_new; [done|]. rw last_fragment_app //.
  pose proof (new_item_linking s sfx f (sc_strategy xf) ID W HS Hl (free_name s sfx f prefix ID W Hp Hns Hni)) as L.
  apply (wp_link_item PubItem s _ sfx (sfx_set (next s) ID sfx) f (next s) prefix ID h);
    [apply sfx_set_new|done..|].
  intros s' L' M. pose proof (lk_wf _ _ _ _ _ _ _ L') as W'.
  assert (isI s' (next s)) as HI' by (apply (lk_isI _ _ _ _ _ _ _ L'); by right).
  assert (isS s' f) as HS' by (apply (lk_isS _ _ _ _ _ _ _ L'); by left).
  destruct (HI') as [i' Hi']. destruct HS' as [xf' Hxf'].
  unfold InformationItem_getSubscribers, Scope_getSubscribers. wps.
  apply (wp_publish_tail s s' sfx (sfx_set (next s) ID sfx) (prefix ++ ID) h); try done.
  - rw -{2}(sfx_set_new s sfx ID). apply (path_edge _ _ _ f); [by apply (lk_path _ _ _ _ _ _ _ L')|].
    apply (lk_edge _ _ _ _ _ _ _ L'). by right.
  - apply (lk_kept _ _ _ _ _ _ _ L').
  - apply (lk_quiet _ _ _ _ _ _ _ L').
  - intros _. by apply (free_no_member s sfx).
  - by apply (ordinary_linked _ _ _ _ _ _ _ L').
  - eapply scope_subscribers_alive; [done..|]. eapply item_subscribers_alive; [done..|apply alive_empty].
  - intros h'. rw !elem_of_getSubscribers.
    rw (interested_one_father s' _ f (next s) i' xf') //; [pose proof (hs_in_empty (T:=PH) h'); tauto|].
    intros a. split.
    + intros [He|[-> _]]%(or_intror (A:=child s' a (next s)))%(lk_edge _ _ _ _ _ _ _ L'); [|done]. exfalso.
      destruct (next_fresh s sfx (wf_s _ _ W)) as [H1 H2].
      apply (edge_alive _ _ (wf_s _ _ W)) in He as [[y Hy]|[y Hy]]; congruence.
    + intros ->. destruct (proj2 (lk_edge _ _ _ _ _ _ _ L' f (next s))) as [He|He]; [by right| |done].
      apply (child_isS_r _ _ (wf_s _ _ W')) in He. by apply (ws_disj _ _ (wf_s _ _ W')) in He.
Qed.

Lemma wp_item_edge f e s (Q : () → rv → Prop) :
  isS s f → isI s e → Q () (item_edge f e s) →
  wp (upd_item e (λ i, ii_with_fathers (hs_insert f (ii_fatherScopes i)) i);;
      upd_scope f (λ x, sc_with_items (hs_insert e (sc_informationitems x)) x)) Q s.
Proof.
  intros [xf Hf] [xe He] HQ. apply wp_bind. eapply wp_upd_item; [done|].
  eapply wp_upd_scope; [done|]. cbn.
  unfold item_edge in HQ. rw (alter_insert (items s) e xe) // (alter_insert (scopes s) f xf) // in HQ.
Qed.

Lemma wp_readvertise_info s sfx h ID prefix st uo :
  wf s sfx → is_Some (hosts s !! h) → (PURSUIT_ID_LEN < length ID)%nat →
  wp (readvertise_info h ID prefix st uo) (publish_post sfx (prefix ++ last_fragment ID) h uo s) s.
Proof.
  intros W Hh Hl. unfold readvertise_info, scope_exists, find_scope, find_item. wps.
  destruct (ht_mem _ (scopeIndex s)) eqn:Hns; [by apply wp_ret, publish_fail|]. apply ht_mem_false in Hns.
  wps. destruct (ht_get prefix (scopeIndex s)) as [f|] eqn:Hf; [|by apply wp_ret, publish_fail].
  destruct (find_scope_path s sfx _ f W Hf) as [Hp HS]. destruct (HS) as [xf Hxf]. wps.
  destruct (ht_get ID (pubIndex s)) as [e|] eqn:He; [|by apply wp_ret, publish_fail].
  destruct (find_item_path s sfx _ e W He) as [Hpe HIe]. wps.
  assert (last_fragment ID = sfx e) as El by (by apply (path_last_fragment s sfx (wf_s _ _ W))).
  assert (length (last_fragment ID) = PURSUIT_ID_LEN) as Hll.
  { rw El. apply (ws_len _ _ (wf_s _ _ W)). by right. }
  destruct (ht_get (prefix ++ last_fragment ID) (pubIndex s)) as [pub|] eqn:Hni.
  { destruct (sc_strategy xf =? st); [by apply wp_publish_known_item|by apply wp_ret, publish_fail]. }
  destruct (sc_strategy xf =? st); [|by apply wp_ret, publish_fail].
  pose proof (free_name s sfx f prefix _ W Hp Hns Hni) as Hfree. rw El in Hfree.
  pose proof (item_edge_linking s sfx f e W HS HIe Hfree) as L.
  apply (wp_assoc2 (upd_item e _) (upd_scope f _)), wp_bind, wp_item_edge; [done..|].
  apply (wp_link_item PubItem s _ sfx sfx f e prefix (last_fragment ID) h); [done..|].
  intros s' L' M. pose proof (lk_wf _ _ _ _ _ _ _ L') as W'.
  assert (isI s' e) as HI' by (apply (lk_isI _ _ _ _ _ _ _ L'); by left).
  apply wp_bind. eapply wp_interested; [done..|]. intros subs Ha Hs.
  apply (wp_publish_tail s s' sfx sfx (prefix ++ last_fragment ID) h); try done.
  - rw El. apply (path_edge _ _ _ f); [by apply (lk_path _ _ _ _ _ _ _ L')|].
    apply (lk_edge _ _ _ _ _ _ _ L'). by right.
  - apply (lk_kept _ _ _ _ _ _ _ L').
  - apply (lk_quiet _ _ _ _ _ _ _ L').
  - intros _. by apply (free_no_member s sfx).
  - by apply (ordinary_linked _ _ _ _ _ _ _ L').
Qed.

Lemma wp_publish_info s sfx h ID prefix st uo :
  wf s sfx → is_Some (hosts s !! h) →
  wp (publish_info h ID prefix st uo) (publish_post sfx (target ID prefix) h uo s) s.
Proof.
  intros W Hh. unfold publish_info.
  destruct ((0 <? length prefix)%nat && (length ID =? PURSUIT_ID_LEN)%nat) eqn:E2.
  { apply andb_prop in E2 as [_ E2%Nat.eqb_eq]. rw target_short //. by apply wp_advertise_info. }
  destruct ((0 <? length prefix)%nat && (PURSUIT_ID_LEN <? length ID)%nat) eqn:E3; [|by apply wp_ret, publish_fail].
  apply andb_prop in E3 as [_ E3]. rw target_long //. apply wp_readvertise_info; try done. by apply Nat.ltb_lt.
Qed.

(** ** Subscribing to items *)

Lemma wp_when_added_ret (a : R ()) (u : R bool) (m : R ()) (Q : RvReturnCode → rv → Prop) s :
  wp (a;; b ← u; when_added b (m;; mret ())) Q s → wp (a;; b ← u; when_added b m) Q s.
Proof.
  intros H%wp_bind_inv. apply wp_bind. eapply wp_mono; [exact H|]. intros [] s1 H1%wp_bind_inv.
  apply wp_bind. eapply wp_mono; [exact H1|]. intros b s2. unfold wp. by rw when_added_ret.
Qed.

Lemma wp_subscribe_info s sfx h ID prefix st uo :
  wf s sfx → is_Some (hosts s !! h) →
  wp (subscribe_info h ID prefix st uo) (λ (r : RvReturnCode) s', added_post sfx SubItem (prefix ++ ID) h s r s' ∧
    (r = SUCCESS → ordinary s sfx → is_Some (ht_get (prefix ++ ID) (pubIndex s)) →
     rendezvous_sent s (prefix ++ ID) uo s')) s.
Proof.
  intros W Hh.
  assert (∀ r : RvReturnCode, r ≠ SUCCESS → r ≠ EXISTS → added_post sfx SubItem (prefix ++ ID) h s r s ∧
    (r = SUCCESS → ordinary s sfx → is_Some (ht_get (prefix ++ ID) (pubIndex s)) →
     rendezvous_sent s (prefix ++ ID) uo s)) as Hno.
  { intros r Hr He. split; [by apply added_fail|done]. }
  unfold subscribe_info.
  destruct ((0 <? length prefix)%nat && (length ID =? PURSUIT_ID_LEN)%nat) eqn:E2; [|by apply wp_ret, Hno].
  apply andb_prop in E2 as [_ Hl%Nat.eqb_eq]. unfold find_scope, find_item, scope_exists. wps.
  destruct (ht_get prefix (scopeIndex s)) as [f|] eqn:Hf; [|by apply wp_ret, Hno].
  destruct (find_scope_path s sfx _ f W Hf) as [Hp HS]. destruct (HS) as [xf Hxf]. wps.
  destruct (ht_get (prefix ++ ID) (pubIndex s)) as [pub|] eqn:Hni; wps.
  - destruct (sc_strategy xf =? st); [|by apply wp_ret, Hno].
    destruct (item_opair s sfx SubItem _ pub W eq_refl Hni) as [pr Hop].
    destruct (find_item_path s sfx _ pub W Hni) as [Hpp HI].
    apply (wp_add_member SubItem s sfx pub (prefix ++ ID) h pr); [done..| |].
    { intros Hin _. split; [|done]. apply added_exists; [done|by exists pub, pr]. }
    intros s' W' _ M Hin K Qt G.
    pose proof (known_new s sfx SubItem pub _ h pr W Hop Hin) as Hnew. assert (isI s' pub) as [i Hi] by (by apply (sg_isI _ _ G)).
    apply wp_bind. eapply wp_interested; [done|by exists i|]. intros subs Ha Hs.
    unfold InformationItem_getRootScopes. wps.
    destruct (roots_first s' sfx pub i ht_empty W' Hi) as [r Hr].
    unfold first_root_known. apply wp_bind. eapply wp_lift_opt; [done|]. apply wp_gets, wp_bind.
    eapply wp_rendezvous; [done..|].
    match goal with |- wp _ _ (say ?o s') => set (so := say o s'); pose proof (wf_say s' sfx o W') as Wo end.
    assert (unpub sfx s' so) as U by (by apply unpub_say, unpub_refl).
    destruct (ht_mem r (known_rootscopes s')) eqn:Hm.
    + unfold InformationItem_getPublishers. wps.
      assert (¬ ordinary s sfx) as HnO.
      { intros O%(ordinary_added s s'); [|done..]. pose proof (ordinary_first s' sfx _ r O
          (roots_of_item s' sfx pub i ht_empty W' Hi (roots_of_empty s' sfx)) Hr) as E. congruence. }
      eapply wp_mono; [by apply (wp_unpublish_all so sfx)|]. intros [] s'' U'. split; [|by intros].
      apply (added_success sfx sfx SubItem _ h s s'); [done..|by eapply unpub_trans|by intros O%HnO].
    + apply wp_ret. split; [apply (added_success sfx sfx SubItem _ h s s'); [done..|eauto]|].
      intros _ _ _. exists pub, i, subs. split_and!; [|done|done|].
      * apply (item_index s' sfx); [done|by apply (sg_path _ _ G)|by exists i].
      * destruct Qt as [Eo _]. cbn. by rw Eo.
  - destruct (ht_mem _ (scopeIndex s)) eqn:Hns; [by apply wp_ret, Hno|]. apply ht_mem_false in Hns.
    wps. destruct (sc_strategy xf =? st); [|by apply wp_ret, Hno].
    apply wp_bind, wp_InformationItem_new; [done|]. rw last_fragment_app //.
    pose proof (new_item_linking s sfx f (sc_strategy xf) ID W HS Hl (free_name s sfx f prefix ID W Hp Hns Hni)) as L.
    apply wp_when_added_ret.
    apply (wp_link_item SubItem s _ sfx (sfx_set (next s) ID sfx) f (next s) prefix ID h (mret ()));
      [apply sfx_set_new|done..|].
    intros s' L' M. apply wp_ret. split; [|by intros _ _ []]. rw -(say_nil s').
    eapply added_exact; [apply L'|apply (lk_kept _ _ _ _ _ _ _ L')|done|].
    intros _. by apply (free_no_member s sfx).
Qed.
End publish.
