(* ===== verification/RvSafety.v ===== *)
(** * Every request, and the life of a rendezvous node

    The dispatcher of [push], the table of hosts, [initialize] and [cleanup];
    the states a node can reach are well-formed. *)

From S2P Require Import Prelude Enums HashTable BitVector Packet GlobalConf RvStore RvMessages LocalRV RvGraph RvUpdate.
From S2P Require Import RvInvariant RvOps RvAdd RvRemove RvUnpublish RvPublish.

Section safety.
Context `{CT : ClickTables}.
Implicit Types (s : rv) (p q f c : ptr) (id : bytes) (sfx : ptr → bytes).

(** ** Requests *)

(** What the node relies on: a removing request names one fragment under its
    prefix (the handlers do not test it), and a scope is not republished
    below itself. *)
Definition valid_request s (type : Z) (ID prefix : bytes) : Prop :=
  (type ∈ [UNPUBLISH_SCOPE; UNPUBLISH_INFO; UNSUBSCRIBE_SCOPE; UNSUBSCRIBE_INFO] → length ID = PURSUIT_ID_LEN) ∧
  (type = PUBLISH_SCOPE → (PURSUIT_ID_LEN < length ID)%nat → ¬ closes_cycle s ID prefix).

Lemma wp_run {A} (m : R A) s (P : rv → Prop) (Q : A → rv → Prop) :
  wp m Q s → (∀ a s', Q a s' → P s') → wp (_ ← m; mret ()) (λ _, P) s.
Proof. intros H HP. apply wp_bind. eapply wp_mono; [exact H|]. intros a s' Ha. by eapply wp_ret, HP. Qed.

Lemma wp_dispatch s sfx type h ID prefix st :
  wf s sfx → is_Some (hosts s !! h) → valid_request s type ID prefix →
  wp (dispatch type h ID prefix st) (λ _ s', (∃ sfx', wf s' sfx') ∧ kept s s') s.
Proof.
  intros W Hh [V1 V2]. unfold dispatch.
  destruct (Z.eqb_spec type PUBLISH_SCOPE) as [E|_].
  { eapply wp_run; [by apply (wp_publish_scope s sfx), V2|]. intros r s' A. split; apply A. }
  destruct (Z.eqb_spec type PUBLISH_INFO) as [E|_].
  { eapply wp_run; [by apply (wp_publish_info s sfx)|]. intros r s' [A _]. split; apply A. }
  destruct (Z.eqb_spec type UNPUBLISH_SCOPE) as [E|_].
  { eapply wp_run; [apply (wp_unpublish_scope s sfx); [done|apply V1; set_solver]|].
    intros r s' A. split; [eexists; apply A|apply A]. }
  destruct (Z.eqb_spec type UNPUBLISH_INFO) as [E|_].
  { eapply wp_run; [apply (wp_unpublish_info s sfx); [done|apply V1; set_solver]|].
    intros r s' [U _]. split; [eexists; apply U|by eapply unpub_kept]. }
  destruct (Z.eqb_spec type SUBSCRIBE_SCOPE) as [E|_].
  { eapply wp_run; [by apply (wp_subscribe_scope s sfx)|]. intros r s' A. split; apply A. }
  destruct (Z.eqb_spec type SUBSCRIBE_INFO) as [E|_].
  { eapply wp_run; [by apply (wp_subscribe_info s sfx)|]. intros r s' [A _]. split; apply A. }
  destruct (Z.eqb_spec type UNSUBSCRIBE_SCOPE) as [E|_].
  { eapply wp_run; [apply (wp_unsubscribe_scope s sfx); [done|apply V1; set_solver]|].
    intros r s' (W' & K & _). split; [by eexists|done]. }
  destruct (Z.eqb_spec type UNSUBSCRIBE_INFO) as [E|_].
  { eapply wp_run; [apply (wp_unsubscribe_info s sfx); [done|apply V1; set_solver]|].
    intros r s' (W' & K & _). split; [by eexists|done]. }
  apply wp_ret. split; [by eexists|done].
Qed.

(** ** Hosts *)

Definition new_host (n : bytes) s : rv :=
  set_pub_sub_Index (ht_set n (next s) (pub_sub_Index s))
    (set_hosts (<[next s := mkHost n ht_empty ht_empty ht_empty ht_empty]> (hosts s)) (set_next (S (next s)) s)).

Lemma new_host_wf n s sfx : wf s sfx → ht_get n (pub_sub_Index s) = None → wf (new_host n s) sfx.
Proof.
  intros W Hn. set (s' := new_host n s). pose proof (wf_s _ _ W) as W0.
  assert (hosts s !! next s = None) as Hfresh.
  { apply eq_None_not_Some. intros H.
    pose proof (ws_next _ _ W0 (next s) (or_intror (or_intror H))). lia. }
  assert (∀ id p, path s' sfx id p ↔ path s sfx id p) as Hpath.
  { intros id p. split; (induction 1 as [q Hq|id f c _ IH He]; [by constructor|by apply (path_edge _ _ _ f)]). }
  split.
  - destruct W0 as [A1 A2 A3 A4 A5 A6 A7 A8 A9 A10]. split; [exact A1|exact A2|exact A3|exact A4|exact A5|exact A6| |exact A8|exact A9|exact A10].
    intros p. unfold s', new_host. cbn [hosts next set_pub_sub_Index set_hosts set_next].
    rw insert_is_Some. specialize (A7 p). change (isS s p ∨ isI s p ∨ (p = next s ∨ is_Some (hosts s !! p)) → (p < S (next s))%nat).
    intros [H|[H|[->|H]]]; [|  |lia|]; assert (p < next s)%nat by (apply A7; auto); lia.
  - destruct (wf_b _ _ W) as [B1 B2 B3]. split; [exact B1|exact B2|]. intros id p. rw Hpath. apply B3.
  - intros id p. rw Hpath. apply (wf_full _ _ W).
  - apply (wf_named _ _ W).
  - destruct (wf_h _ _ W) as [H1 H2]. split.
    + intros k id h. change (member s' k id h) with (member s k id h). rw H1.
      unfold host_has, s', new_host. cbn [hosts set_pub_sub_Index set_hosts].
      rw insert_view. split.
      * intros (x & Hx & H). right. split; [|eauto]. intros ->. congruence.
      * intros [[-> H]|[_ H]]; [|done]. exfalso. destruct k; by apply hs_in_empty in H.
    + intros m h. unfold s', new_host. cbn [hosts pub_sub_Index set_pub_sub_Index set_hosts].
      rw insert_view ht_get_set. cbn. case_decide as E.
      * subst m. split; [intros [= <-]; by left|]. intros [[-> _]|(_ & x & Hx & Ex)]; [done|].
        assert (ht_get n (pub_sub_Index s) = Some h) by (apply H2; eauto). congruence.
      * rw H2. split.
        -- intros (x & Hx & Ex). right. split; [|eauto]. intros ->. congruence.
        -- intros [[_ ?]|[_ H]]; [done|done].
Qed.

Lemma wp_getRemoteHost s sfx n (Q : ptr → rv → Prop) :
  wf s sfx →
  (∀ h s', wf s' sfx → (∃ x, hosts s' !! h = Some x ∧ remoteHostID x = n) →
    s' = (if decide (is_Some (ht_get n (pub_sub_Index s))) then s else new_host n s) → Q h s') →
  wp (getRemoteHost n) Q s.
Proof.
  intros W HQ. unfold getRemoteHost. wps. destruct (ht_get n (pub_sub_Index s)) as [h|] eqn:Hn.
  - apply wp_ret. apply HQ; [done|by apply (wh_idx _ (wf_h _ _ W))|].
    destruct (decide (is_Some (Some h))) as [_|Hno]; [done|]. exfalso. by apply Hno.
  - unfold RemoteHost_new, alloc. apply wp_bind, wp_bind. unfold wp at 1. wps.
    change (Q (next s) (new_host n s)). apply HQ; [by apply new_host_wf| |].
    + exists (mkHost n ht_empty ht_empty ht_empty ht_empty). split; [|done]. cbn. by rw lookup_insert_eq.
    + destruct (decide (is_Some None)) as [[? ?]|]; done.
Qed.

Lemma new_host_kept n s : known_rootscopes (new_host n s) = known_rootscopes s ∧
  scopes (new_host n s) = scopes s ∧ items (new_host n s) = items s ∧ out (new_host n s) = out s.
Proof. done. Qed.

(** ** Start *)

(** The members of LocalRV when the element is created. *)
Definition rv0 : rv := mkRv ∅ ∅ ∅ 0%nat 0%nat ht_empty ht_empty ht_empty ht_empty ht_empty [].

Lemma rv0_wf : wf rv0 (λ _, []).
Proof.
  assert (∀ A (P : A → Prop) p, (∃ x, (∅ : gmap ptr A) !! p = Some x ∧ P x) ↔ False) as E.
  { intros A P p. rw lookup_empty. naive_solver. }
  assert (∀ p, ¬ isS rv0 p) as HS by (intros p [x Hx]; cbn in Hx; by rw lookup_empty in Hx).
  assert (∀ p, ¬ isI rv0 p) as HI by (intros p [x Hx]; cbn in Hx; by rw lookup_empty in Hx).
  assert (∀ p, ¬ root rv0 p) as HR by (intros p H; by apply (HS p), root_isS).
  assert (∀ id p, ¬ sids rv0 p id) as Hs by (intros id p H; by apply (HS p), (sids_isS _ _ id)).
  assert (∀ id p, ¬ iids rv0 p id) as Hi by (intros id p H; by apply (HI p), (iids_isI _ _ id)).
  assert (∀ id p, ¬ path rv0 (λ _, []) id p) as Hp.
  { intros id p. induction 1 as [q Hq|]; [by apply (HR q)|done]. }
  split.
  - split.
    + intros f c. unfold child, sfather. cbn. by rw !E.
    + intros f c. unfold holds, ifather. cbn. by rw !E.
    + intros p H. by apply HS in H.
    + intros p H. by apply HI in H.
    + intros p [H|H]; [by apply HS in H|by apply HI in H].
    + intros p H. by apply HS in H.
    + intros p [H|[H|[x H]]]; [by apply HS in H|by apply HI in H|]. cbn in H. by rw lookup_empty in H.
    + intros p q H. by apply HR in H.
    + intros f c d [H|H]; [by apply child_isS, HS in H|by apply holds_isS, HS in H].
    + intros p H. inversion H as [? ? Hc|? ? ? Hc]; by apply child_isS, HS in Hc.
  - split; intros id p; cbn.
    + rw ht_get_empty. split; [done|]. by intros ?%Hs.
    + rw ht_get_empty. split; [done|]. by intros ?%Hi.
    + by intros [?%Hs|?%Hi].
  - intros id p H. by apply Hp in H.
  - intros p [H|H]; [by apply HS in H|by apply HI in H].
  - split.
    + intros k id h. unfold host_has. cbn. rw E. split; [|done]. intros (p & pr & Hpr & _).
      destruct k; cbn in Hpr; unfold spair, ipair in Hpr; cbn in Hpr; by rw lookup_empty in Hpr.
    + intros n h. cbn. rw ht_get_empty E. done.
Qed.

(** The known root scopes and the proxy do not matter to the invariant. *)
Lemma wf_set_roots s sfx k r : wf s sfx → wf (set_roots k r s) sfx.
Proof. intros W. apply (wf_same_graph s); try done. destruct (wf_h _ _ W) as [H1 H2]. by split. Qed.
Lemma wf_set_localProxy s sfx p : wf s sfx → wf (set_localProxy p s) sfx.
Proof. intros W. apply (wf_same_graph s); try done. destruct (wf_h _ _ W) as [H1 H2]. by split. Qed.

(** ** End *)

Section deletion.
Context {A : Type} (sel : rv → gmap ptr A) (upd : gmap ptr A → rv → rv) (del : ptr → R ()).
Context (sel_upd : ∀ m s, sel (upd m s) = m) (upd_upd : ∀ m m' s, upd m (upd m' s) = upd m s)
  (upd_sel : ∀ s, upd (sel s) s = s).
Context (del_spec : ∀ p s, del p s =
  match sel s !! p with Some _ => Ok ((), upd (delete p (sel s)) s) | None => Fault UseAfterFree end).

(** The objects of [l] are gone. *)
Definition cleared (l : list ptr) s s' : Prop :=
  ∃ m, s' = upd m s ∧ ∀ p, m !! p = if decide (p ∈ l) then None else sel s !! p.

Lemma cleared_cons p l s s' : cleared l (upd (delete p (sel s)) s) s' → cleared (p :: l) s s'.
Proof.
  intros (m & -> & Hm). exists m. split; [by rw upd_upd|]. intros q. rw Hm sel_upd.
  destruct (decide (q = p)) as [->|Hne].
  - rw lookup_delete_eq. case_decide; case_decide as Hin; try done; destruct Hin; by left.
  - rw lookup_delete_ne //. case_decide as H1; case_decide as H2; try done.
    + destruct H2. by right.
    + apply elem_of_cons in H2. naive_solver.
Qed.

Lemma wp_delete_all l s : NoDup l → (∀ p, p ∈ l → is_Some (sel s !! p)) →
  wp (mfor l del) (λ _, cleared l s) s.
Proof.
  revert s. induction l as [|p l IH]; intros s Hnd Hl; cbn [mfor].
  - apply wp_ret. exists (sel s). split; [by rw upd_sel|]. intros p. case_decide as H; [|done].
    by apply elem_of_nil in H.
  - apply NoDup_cons in Hnd as [Hp Hnd]. destruct (Hl p) as [x Hx]; [by left|].
    apply wp_bind. eapply (ok_wp _ _ _ ()); [by rw del_spec Hx|].
    eapply wp_mono; [apply IH; [done|]|].
    + intros q Hq. rw sel_upd lookup_delete_ne; [apply Hl; by right|]. by intros ->.
    + intros [] s'. apply cleared_cons.
Qed.

Lemma wp_delete_indexed l deleted s :
  (∀ p, p ∈ l → ¬ hs_in p deleted → is_Some (sel s !! p)) → (∀ p, hs_in p deleted → sel s !! p = None) →
  wp (delete_indexed del l deleted) (λ _, cleared l s) s.
Proof.
  revert deleted s. induction l as [|p l IH]; intros deleted s Hl Hd; cbn [delete_indexed].
  - apply wp_ret. exists (sel s). split; [by rw upd_sel|]. intros p. case_decide as H; [|done].
    by apply elem_of_nil in H.
  - destruct (ht_mem p deleted) eqn:Hm.
    + apply ht_mem_true in Hm. eapply wp_mono; [apply IH; [intros; apply Hl; [by right|done]|done]|].
      intros [] s' (m & -> & E). exists m. split; [done|]. intros q. rw E.
      case_decide as H1; case_decide as H2; try done; [by destruct H2; right|].
      apply elem_of_cons in H2 as [->|H2]; [|done]. by apply Hd.
    + assert (¬ hs_in p deleted) as Hnp.
      { intros H%ht_mem_true. exact (eq_true_false_abs _ H Hm). }
      destruct (Hl p) as [x Hx]; [by left|done|].
      apply wp_bind. eapply (ok_wp _ _ _ ()); [by rw del_spec Hx|].
      eapply wp_mono; [apply IH|].
      * intros q Hq Hnq. rw hs_in_insert in Hnq. rw sel_upd lookup_delete_ne; [|naive_solver].
        apply Hl; [by right|naive_solver].
      * intros q [->|Hq]%hs_in_insert; rw sel_upd; [by rw lookup_delete_eq|].
        rw lookup_delete_ne; [by apply Hd|]. by intros ->.
      * intros [] s'. apply cleared_cons.
Qed.
End deletion.

Lemma cleared_empty {A} (sel : rv → gmap ptr A) upd l s s' (Hl : ∀ p, is_Some (sel s !! p) → p ∈ l) :
  cleared sel upd l s s' → s' = upd ∅ s.
Proof.
  intros (m & -> & Hm). f_equal. apply map_eq. intros p. rw Hm lookup_empty.
  case_decide as H; [done|]. apply eq_None_not_Some. intros Hp. by apply H, Hl.
Qed.

Lemma wp_cleanup s sfx : wf s sfx →
  wp LocalRV_cleanup (λ _ s', hosts s' = ∅ ∧ scopes s' = ∅ ∧ items s' = ∅ ∧
    pub_sub_Index s' = ht_empty ∧ scopeIndex s' = ht_empty ∧ pubIndex s' = ht_empty) s.
Proof.
  intros W. unfold LocalRV_cleanup. wps.
  eapply wp_mono; [apply (wp_delete_all hosts set_hosts delete_host); try done|].
  - by intros [].
  - unfold ht_vals. pose proof (ht_elems_nodup (pub_sub_Index s)) as Hnd.
    apply NoDup_fmap_2_strong; [|by eapply NoDup_fmap_1].
    intros [n h] [n' h'] H%ht_elem_get H'%ht_elem_get E. cbn in E. subst h'. f_equal.
    apply (wh_idx _ (wf_h _ _ W)) in H as (x & Hx & <-).
    apply (wh_idx _ (wf_h _ _ W)) in H' as (y & Hy & <-). congruence.
  - intros h [n (x & Hx & _)%(wh_idx _ (wf_h _ _ W))]%elem_of_ht_vals. by exists x.
  - intros [] s1 E1%cleared_empty; last first.
    { intros h [x Hx]. apply elem_of_ht_vals. exists (remoteHostID x). apply (wh_idx _ (wf_h _ _ W)). eauto. }
    subst s1. wps. cbn [scopeIndex set_hosts set_pub_sub_Index].
    eapply wp_mono; [apply (wp_delete_indexed scopes set_scopes delete_scope); try done|].
    + by intros [].
    + intros p [id H]%elem_of_ht_vals _. by apply (wb_sidx _ _ (wf_b _ _ W)), sids_isS in H.
    + by intros p H%hs_in_empty.
    + intros [] s2 E2%cleared_empty; last first.
      { intros p [x Hx]. apply elem_of_ht_vals. destruct (scope_has_id s sfx p x W Hx) as [id Hid].
        exists id. apply (wb_sidx _ _ (wf_b _ _ W)). by exists x. }
      subst s2. wps. cbn [pubIndex set_scopes set_scopeIndex set_hosts set_pub_sub_Index].
      eapply wp_mono; [apply (wp_delete_indexed items set_items delete_item); try done|].
      * by intros [].
      * intros p [id H]%elem_of_ht_vals _. by apply (wb_pidx _ _ (wf_b _ _ W)), iids_isI in H.
      * by intros p H%hs_in_empty.
      * intros [] s3 E3%cleared_empty; [by subst s3; apply wp_modify|].
        intros p [x Hx]. apply elem_of_ht_vals. destruct (item_has_id s sfx p x W Hx) as [id Hid].
        exists id. apply (wb_pidx _ _ (wf_b _ _ W)). by exists x.
Qed.

(** ** The life of the element *)

(** A request from a node: what [push] does with it. *)
Definition serve (rq : request) : R () :=
  _remotehost ← getRemoteHost (rq_nodeID rq);
  dispatch (rq_type rq) _remotehost (rq_ID rq) (rq_prefixID rq) (rq_strategy rq).

Definition valid s (rq : request) : Prop := valid_request s (rq_type rq) (rq_ID rq) (rq_prefixID rq).

Lemma wp_serve s sfx rq : wf s sfx → valid s rq → wp (serve rq) (λ _ s', ∃ sfx', wf s' sfx') s.
Proof.
  intros W V. unfold serve. apply wp_bind. eapply wp_getRemoteHost; [done|].
  intros h s1 W1 (x & Hx & _) E. assert (is_Some (hosts s1 !! h)) as Hh by (by exists x).
  assert (valid s1 rq) as V1 by (by destruct (decide _); subst s1).
  eapply wp_mono; [by eapply wp_dispatch|]. by intros [] s' [W' _].
Qed.

(** The states the element reaches: from its initialization, by requests of
    any nodes and by implicit subscriptions. *)
Inductive reachable (gc : gconf) : rv → Prop :=
  | reach_initialize ps s : LocalRV_initialize gc rv0 = Ok (ps, s) → reachable gc s
  | reach_request rq s s' : reachable gc s → valid s rq → serve rq s = Ok ((), s') → reachable gc s'
  | reach_isub t s s' : reachable gc s → requestTMAssistanceForiSubscription t false s = Ok ((), s') →
      reachable gc s'.

Lemma wp_initialize gc s sfx : wf s sfx →
  wp (LocalRV_initialize gc) (λ ps s', wf s' sfx ∧ (∃ x, hosts s' !! localProxy s' = Some x ∧ remoteHostID x = nodeID gc) ∧
    (∀ r, hs_in r (known_rootscopes s') ↔ r = IP_ROOTSCOPE ∨ r = HTTP_ROOTSCOPE ∨ hs_in r (known_rootscopes s)) ∧
    ∃ k k_uc, ps = [k; k_uc] ∧ initialize_packet = Ok k ∧ initialize_packet_uc = Ok k_uc) s.
Proof.
  intros W. unfold LocalRV_initialize. apply wp_bind. eapply wp_getRemoteHost; [done|].
  intros h s1 W1 Hx E. wps.
  destruct initialize_packet as [k|] eqn:E1; [|by vm_compute in E1].
  destruct initialize_packet_uc as [k_uc|] eqn:E2; [|by vm_compute in E2].
  eapply wp_lift_res; [done|]. wps. eapply wp_lift_res; [done|]. wps.
  split; [by apply wf_set_roots, wf_set_localProxy|]. split; [done|]. split; [|by exists k, k_uc].
  intros r. cbn. rw !hs_in_insert. destruct (decide _); subst s1; tauto.
Qed.

Lemma reachable_wf gc s : reachable gc s → ∃ sfx, wf s sfx.
Proof.
  induction 1 as [ps s E|rq s s' _ [sfx W] V E|t s s' _ [sfx W] E].
  - destruct (wp_ok _ _ _ (wp_initialize gc rv0 _ rv0_wf)) as (ps' & s' & E' & W & _).
    rw E in E'. injection E' as _ <-. eauto.
  - destruct (wp_ok _ _ _ (wp_serve s sfx rq W V)) as ([] & s'' & E' & W'). rw E in E'. by injection E' as <-.
  - unfold requestTMAssistanceForiSubscription, emit, modify in E. injection E as <-.
    exists sfx. by apply wf_set_out.
Qed.
End safety.
