(* ===== verification/Rendezvous.v ===== *)
(** * What the rendezvous element guarantees

    The properties of LocalRV, over any Click tables, each with an instance
    on the association lists of HashTable.v; and runs that show what happens
    outside their hypotheses. *)

From S2P Require Import Prelude Enums HashTable BitVector Packet GlobalConf RvStore RvMessages LocalRV RvGraph RvUpdate.
From S2P Require Import RvInvariant RvOps RvAdd RvRemove RvUnpublish RvPublish RvSafety.

(** ** A small network, for the instances *)

Module Demo.
#[export] Instance tables : ClickTables := alist_tables.

Definition frag (b : Z) : bytes := replicate PURSUIT_ID_LEN b.
(** node labels *)
Definition n1 : bytes := frag 101.
Definition n2 : bytes := frag 102.
(** fragments *)
Definition A : bytes := frag 1.
Definition B : bytes := frag 2.
Definition I : bytes := frag 3.
Definition D : bytes := frag 4.

Fixpoint serve_all (l : list request) : R () :=
  match l with [] => mret () | rq :: l => serve rq;; serve_all l end.

Definition run (l : list request) : rv :=
  match serve_all l rv0 with Ok (_, s) => s | Fault _ => rv0 end.

(** One fragment each, so the requests are valid in every state. *)
Definition single (rq : request) : Prop := length (rq_ID rq) = PURSUIT_ID_LEN.

Lemma single_valid s rq : single rq → valid s rq.
Proof. intros H. split; [done|]. rw H. lia. Qed.

Lemma run_wf l : Forall single l → ∃ sfx, wf (run l) sfx.
Proof.
  intros Hl. assert (∀ s, (∃ sfx, wf s sfx) → wp (serve_all l) (λ _ s', ∃ sfx, wf s' sfx) s) as H.
  { induction Hl as [|rq l Hrq _ IH]; intros s [sfx W]; [apply wp_ret; eauto|].
    apply wp_bind. eapply wp_mono; [by apply (wp_serve s sfx rq W), single_valid|].
    intros [] s' W'. by apply IH. }
  unfold run. destruct (wp_ok _ _ _ (H rv0 (ex_intro _ _ rv0_wf))) as ([] & s & E & W). by rw E.
Qed.

(** n1 publishes the scopes A and A/B and the item A/B/I, for which n2 has
    subscribed to A/B. *)
Definition requests : list request := [
  mkRequest n1 PUBLISH_SCOPE A [] DOMAIN_LOCAL;
  mkRequest n1 PUBLISH_SCOPE B A DOMAIN_LOCAL;
  mkRequest n2 SUBSCRIBE_SCOPE B A DOMAIN_LOCAL;
  mkRequest n1 PUBLISH_INFO I (A ++ B) DOMAIN_LOCAL].
Definition state : rv := run requests.

Lemma state_wf : ∃ sfx, wf state sfx.
Proof. apply run_wf. repeat constructor. Qed.

Lemma state_ordinary sfx : ordinary state sfx.
Proof. intros p _. split; by vm_compute. Qed.

(** the element of the sample node after its initialization, and after the
    first request *)
Definition start : rv := match LocalRV_initialize sample_gc rv0 with Ok (_, s) => s | Fault _ => rv0 end.
Definition start_reachable : reachable sample_gc start.
Proof.
  destruct (wp_ok _ _ _ (wp_initialize sample_gc rv0 _ rv0_wf)) as (ps & s & E & _).
  apply (reach_initialize _ ps). unfold start. by rw E.
Qed.

(** the hosts n1 and n2 *)
Definition h1 : ptr := 0%nat.
Definition h2 : ptr := 3%nat.
Lemma h1_alive : is_Some (hosts state !! h1).
Proof. by vm_compute; eexists. Qed.
Lemma h2_alive : is_Some (hosts state !! h2).
Proof. by vm_compute; eexists. Qed.

(** Evaluation of a run, and of the edges of a state. *)
Definition code {X} (m : R X) (s : rv) : option X := match m s with Ok (a, _) => Some a | Fault _ => None end.
Definition after {X} (m : R X) (s : rv) : rv := match m s with Ok (_, s') => s' | Fault _ => s end.
Lemma run_after {X} (m : R X) s a : code m s = Some a → m s = Ok (a, after m s).
Proof. unfold code, after. destruct (m s) as [[a' s']|]; [by intros [= ->]|done]. Qed.

Definition childb (s : rv) (f c : ptr) : bool :=
  match scopes s !! f with Some x => ht_mem c (sc_childrenScopes x) | None => false end.
Lemma childb_child s f c : childb s f c = true → child s f c.
Proof.
  unfold childb, child. destruct (scopes s !! f) as [x|]; [|done]. intros H%ht_mem_true. by exists x.
Qed.
Definition publishes (s : rv) (p : ptr) (id : bytes) (h : ptr) : bool :=
  match ipair s p id with Some pr => ht_mem h pr.1 | None => false end.
Lemma publishes_member s p id h : publishes s p id h = true → member s PubItem id h.
Proof.
  unfold publishes. destruct (ipair s p id) as [pr|] eqn:E; [|done]. intros H%ht_mem_true. by exists p, pr.
Qed.
End Demo.

(** ** The properties *)

Section rendezvous.
Context `{CT : ClickTables}.
Implicit Types (s : rv) (p q f c h : ptr) (id : bytes) (sfx : ptr → bytes).

(** [C10] From a well-formed state, any request of a live host that is valid (a
    removing request names one fragment; a scope is not republished below
    itself) runs to its end: no null pointer, no use of a deleted object, no
    endless recursion; and the state it leaves is well-formed, with the same
    hosts. *)
Theorem every_request_ok s sfx type h ID prefix st
    (W : wf s sfx) (Hh : is_Some (hosts s !! h)) (V : valid_request s type ID prefix) :
  ∃ s', dispatch type h ID prefix st s = Ok ((), s') ∧ (∃ sfx', wf s' sfx') ∧ kept s s'.
Proof. destruct (wp_ok _ _ _ (wp_dispatch s sfx type h ID prefix st W Hh V)) as ([] & s' & H). eauto. Qed.

(** [C1] Whatever the nodes of the network ask for, in whatever order, the element
    is in a well-formed state, and it serves the next valid request without a
    fault. *)
Theorem reachable_serves gc s rq (Hs : reachable gc s) (V : valid s rq) :
  (∃ sfx, wf s sfx) ∧ ∃ s', serve rq s = Ok ((), s') ∧ reachable gc s'.
Proof.
  destruct (reachable_wf gc s Hs) as [sfx W]. split; [eauto|].
  destruct (wp_ok _ _ _ (wp_serve s sfx rq W V)) as ([] & s' & E & _). exists s'.
  split; [done|by eapply reach_request].
Qed.

(** [C2] In a reachable state the two indexes together hold exactly the paths of the
    information graph, no identifier is both a scope and an item, no
    identifier has two meanings, and every host keeps exactly the identifiers
    under which it is in a set of publishers or subscribers. *)
Theorem identifiers_are_paths gc s (Hs : reachable gc s) :
  ∃ sfx, (∀ id p, path s sfx id p ↔ ht_get id (scopeIndex s) = Some p ∨ ht_get id (pubIndex s) = Some p) ∧
    (∀ id, ht_get id (scopeIndex s) = None ∨ ht_get id (pubIndex s) = None) ∧
    (∀ id p q, path s sfx id p → path s sfx id q → p = q) ∧
    (∀ k id h, member s k id h ↔ host_has s k id h).
Proof.
  destruct (reachable_wf gc s Hs) as [sfx W]. pose proof (wf_s _ _ W) as W0. exists sfx. split_and!.
  - intros id p. split; [by apply path_find|].
    intros [H|H]; [by destruct (find_scope_path s sfx id p W H)|by destruct (find_item_path s sfx id p W H)].
  - intros id. destruct (ht_get id (scopeIndex s)) as [p|] eqn:H1; [right|by left].
    destruct (ht_get id (pubIndex s)) as [q|] eqn:H2; [exfalso|done].
    apply (find_scope_path s sfx id p W) in H1 as [H1 HS]. apply (find_item_path s sfx id q W) in H2 as [H2 HI].
    rw (path_fun s sfx W0 id p q H1 H2) in HS. by apply (ws_disj _ _ W0 q).
  - apply (path_fun s sfx W0).
  - apply (wh_mirror _ (wf_h _ _ W)).
Qed.

(** [C13] publish_scope returns a code; on success exactly the publisher has been
    added, on an error nothing has changed, EXISTS means that the host was a
    publisher of the scope already. *)
Theorem publish_scope_correct s sfx h ID prefix st (W : wf s sfx) (Hh : is_Some (hosts s !! h))
    (Hc : (PURSUIT_ID_LEN < length ID)%nat → ¬ closes_cycle s ID prefix) :
  ∃ r s', publish_scope h ID prefix st s = Ok (r, s') ∧ added_post sfx PubScope (target ID prefix) h s r s'.
Proof. by apply wp_ok, wp_publish_scope. Qed.

(** [C14] publish_info likewise for items; outside the known root scopes a
    successful request ends with the rendezvous of the item: all its
    publishers, all that subscribe to it or to one of its father scopes. *)
Theorem publish_info_correct s sfx h ID prefix st uo (W : wf s sfx) (Hh : is_Some (hosts s !! h)) :
  ∃ r s', publish_info h ID prefix st uo s = Ok (r, s') ∧
    added_post sfx PubItem (target ID prefix) h s r s' ∧
    (r = SUCCESS → ordinary s sfx → rendezvous_sent s (target ID prefix) uo s').
Proof.
  destruct (wp_ok _ _ _ (wp_publish_info s sfx h ID prefix st uo W Hh)) as (r & s' & E & H). eauto.
Qed.

(** [C15] subscribe_scope adds exactly the subscriber; matching the items of a known
    root scope can withdraw publications of items, and nothing else changes. *)
Theorem subscribe_scope_correct s sfx h ID prefix st uo (W : wf s sfx) (Hh : is_Some (hosts s !! h)) :
  ∃ r s', subscribe_scope h ID prefix st uo s = Ok (r, s') ∧ added_post sfx SubScope (prefix ++ ID) h s r s'.
Proof. by apply wp_ok, wp_subscribe_scope. Qed.

(** [C16] subscribe_info adds exactly the subscriber, and outside the known root
    scopes repeats the rendezvous of an item that was there. *)
Theorem subscribe_info_correct s sfx h ID prefix st uo (W : wf s sfx) (Hh : is_Some (hosts s !! h)) :
  ∃ r s', subscribe_info h ID prefix st uo s = Ok (r, s') ∧ added_post sfx SubItem (prefix ++ ID) h s r s' ∧
    (r = SUCCESS → ordinary s sfx → is_Some (ht_get (prefix ++ ID) (pubIndex s)) →
     rendezvous_sent s (prefix ++ ID) uo s').
Proof.
  destruct (wp_ok _ _ _ (wp_subscribe_info s sfx h ID prefix st uo W Hh)) as (r & s' & E & H). eauto.
Qed.

(** [C17] unpublish_scope takes the publication of the scope away and no other
    membership of scopes or subscription; of the publications of items only
    those of the same host can go; the subscribers see a well-formed graph. *)
Theorem unpublish_scope_correct s sfx h ID prefix st uo (W : wf s sfx) (Hl : length ID = PURSUIT_ID_LEN) :
  ∃ r s', unpublish_scope h ID prefix st uo s = Ok (r, s') ∧ unpublish_scope_post sfx h (prefix ++ ID) s r s'.
Proof. by apply wp_ok, wp_unpublish_scope. Qed.

(** [C18] unpublish_info takes exactly one publication away, keeps every scope, and
    removes at most the item named. *)
Theorem unpublish_info_correct s sfx h ID prefix st uo (W : wf s sfx) (Hl : length ID = PURSUIT_ID_LEN) :
  ∃ r s', unpublish_info h ID prefix st uo s = Ok (r, s') ∧ unpublish_info_post sfx h (prefix ++ ID) s r s'.
Proof. by apply wp_ok, wp_unpublish_info. Qed.

(** [C19] unsubscribe_scope takes exactly one subscription away. *)
Theorem unsubscribe_scope_correct s sfx h ID prefix st uo (W : wf s sfx) (Hl : length ID = PURSUIT_ID_LEN) :
  ∃ r s', unsubscribe_scope h ID prefix st uo s = Ok (r, s') ∧
    unsubscribe_post sfx SubScope h (prefix ++ ID) s r s'.
Proof. by apply wp_ok, wp_unsubscribe_scope. Qed.

(** [C20] unsubscribe_info takes exactly one subscription away. *)
Theorem unsubscribe_info_correct s sfx h ID prefix st uo (W : wf s sfx) (Hl : length ID = PURSUIT_ID_LEN) :
  ∃ r s', unsubscribe_info h ID prefix st uo s = Ok (r, s') ∧
    unsubscribe_post sfx SubItem h (prefix ++ ID) s r s'.
Proof. by apply wp_ok, wp_unsubscribe_info. Qed.

(** A new inner scope gets one identifier for every identifier of its father,
    no other identifier changes, and the subscribers of the father are told. *)
Theorem new_scope_identifiers s sfx h ID prefix f xf
    (W : wf s sfx) (Hh : is_Some (hosts s !! h)) (Hl : length ID = PURSUIT_ID_LEN)
    (Hf : ht_get prefix (scopeIndex s) = Some f) (Hxf : scopes s !! f = Some xf)
    (Hns : ht_get (prefix ++ ID) (scopeIndex s) = None) (Hni : ht_get (prefix ++ ID) (pubIndex s) = None) :
  ∃ s', publish_inner_scope h ID prefix (sc_strategy xf) s = Ok (SUCCESS, s') ∧
    (∀ id p, ht_get id (scopeIndex s') = Some p ↔ ht_get id (scopeIndex s) = Some p ∨
      (p = next s ∧ ∃ pre, ht_get pre (scopeIndex s) = Some f ∧ id = pre ++ ID)) ∧
    (∀ id p, ht_get id (pubIndex s') = Some p ↔ ht_get id (pubIndex s) = Some p) ∧
    out s' = out s ++ told s' f (next s) (λ t, t) SCOPE_PUBLISHED.
Proof.
  destruct (wp_ok _ _ _ (wp_publish_inner_new s sfx h ID prefix f xf W Hh Hl Hf Hxf Hns Hni))
    as (r & s' & E & s1 & L & -> & _ & ->).
  exists (say (told s1 f (next s) (λ t, t) SCOPE_PUBLISHED) s1). split; [done|].
  pose proof (lk_wf _ _ _ _ _ _ _ L) as W1. destruct (next_fresh s sfx (wf_s _ _ W)) as [H1 H2].
  assert (¬ isS s (next s)) as HnS by (intros [x Hx]; congruence).
  assert (¬ isI s (next s)) as HnI by (intros [x Hx]; congruence).
  assert (∀ id p, path s1 (sfx_set (next s) ID sfx) id p ↔ path s sfx id p ∨
    (p = next s ∧ ∃ pre, ht_get pre (scopeIndex s) = Some f ∧ id = pre ++ ID)) as Hp.
  { intros id p. rw (linked_new_path true f (next s) s s1 sfx _ id p W HnS HnI L) sfx_set_new.
    destruct (find_scope_path s sfx _ f W Hf) as [_ HS]. by setoid_rewrite (wf_index_path s sfx _ f W HS). }
  split_and!.
  - intros id p. change (scopeIndex (say _ s1)) with (scopeIndex s1). split.
    + intros (Hid & HS)%(find_scope_path s1 _ id p W1). apply Hp in Hid as [Hid|?]; [left|by right].
      apply (lk_isS _ _ _ _ _ _ _ L) in HS as [HS|[_ ->]]; [by apply (wf_index_path s sfx)|].
      by apply (path_alive s sfx (wf_s _ _ W)) in Hid as [?|?].
    + intros Hid. assert (path s1 (sfx_set (next s) ID sfx) id p ∧ isS s1 p) as [Hid' HS].
      { destruct Hid as [[Hid HS]%(find_scope_path s sfx id p W)|Hid].
        - split; [apply Hp; by left|]. apply (lk_isS _ _ _ _ _ _ _ L). by left.
        - split; [apply Hp; by right|]. apply (lk_isS _ _ _ _ _ _ _ L). right. by destruct Hid. }
      by apply (wf_index_path s1 _ id p W1 HS).
  - intros id p. change (pubIndex (say _ s1)) with (pubIndex s1). split.
    + intros (Hid & HI)%(find_item_path s1 _ id p W1).
      apply (lk_isI _ _ _ _ _ _ _ L) in HI as [HI|[? _]]; [|done].
      apply Hp in Hid as [Hid|[-> _]]; [by apply (item_index s sfx)|done].
    + intros (Hid & HI)%(find_item_path s sfx id p W). apply (item_index s1 (sfx_set (next s) ID sfx)); [done| |].
      * apply Hp. by left.
      * apply (lk_isI _ _ _ _ _ _ _ L). by left.
  - cbn. destruct (lk_quiet _ _ _ _ _ _ _ L) as [-> _]. done.
Qed.

(** Publishing an existing scope under another father adds that one edge to the
    graph, and afterwards the indexes hold the paths of the larger graph: all
    nodes below the scope have got their new identifiers. *)
Theorem republish_adds_edge s sfx h ID prefix f xf e
    (W : wf s sfx) (Hh : is_Some (hosts s !! h)) (Hl : (PURSUIT_ID_LEN < length ID)%nat)
    (Hac : ¬ rtc (child s) e f) (He : ht_get ID (scopeIndex s) = Some e)
    (Hf : ht_get prefix (scopeIndex s) = Some f) (Hxf : scopes s !! f = Some xf)
    (Hns : ht_get (prefix ++ last_fragment ID) (scopeIndex s) = None)
    (Hni : ht_get (prefix ++ last_fragment ID) (pubIndex s) = None) :
  ∃ s', republish_inner_scope h ID prefix (sc_strategy xf) s = Ok (SUCCESS, s') ∧
    (∀ a c, edge s' a c ↔ edge s a c ∨ (a = f ∧ c = e)) ∧
    (∀ id p, path s' sfx id p ↔ ht_get id (scopeIndex s') = Some p ∨ ht_get id (pubIndex s') = Some p) ∧
    (∀ id, path s sfx id f → ht_get (id ++ last_fragment ID) (scopeIndex s') = Some e).
Proof.
  destruct (wp_ok _ _ _ (wp_republish_new s sfx h ID prefix f xf e W Hh Hl Hac He Hf Hxf Hns Hni))
    as (r & s' & E & s1 & L & -> & _ & ->).
  pose proof (lk_wf _ _ _ _ _ _ _ L) as W1.
  destruct (find_scope_path s sfx _ e W He) as [Hpe HSe].
  match type of E with _ = Ok (_, ?s') => exists s'; set (s2 := s') in * end.
  pose proof (wf_say s1 sfx _ W1 : wf s2 sfx) as W2.
  split; [done|]. split_and!.
  - apply (lk_edge _ _ _ _ _ _ _ L).
  - intros id p. split; [by apply path_find|].
    intros [H|H]; [by destruct (find_scope_path s2 sfx id p W2 H)|by destruct (find_item_path s2 sfx id p W2 H)].
  - intros id Hid. apply (wf_index_path s2 sfx); [done|apply (lk_isS _ _ _ _ _ _ _ L); by left|].
    rw (path_last_fragment s sfx (wf_s _ _ W) ID e Hpe). apply (path_edge _ _ _ f).
    + apply say_path. by apply (lk_path _ _ _ _ _ _ _ L).
    + apply (lk_edge _ _ _ _ _ _ _ L). by right.
Qed.

(** [C39] recursivelyUpdateIDs brings a whole subgraph up to date: where only the edges
    into the scope are behind, afterwards every path of the graph is an
    identifier of the object it leads to.  It ends: the recursion is no
    deeper than there are scopes. *)
Theorem updateIDs_complete s sfx p (W : wf_struct s sfx) (B : wf_sub s sfx) (Hp : isS s p)
    (Hroots : ∀ q, root s q → oid s q (sfx q))
    (Hup : ∀ f c, edge s f c → c ≠ p → closed s sfx f c)
    (Hnamed : ∀ f c, edge s f c → c ≠ p → ∃ id, oid s c id) :
  ∃ s', Scope_recursivelyUpdateIDs p (sfx p) s = Ok ((), s') ∧ grow s s' ∧
    ∀ id q, path s' sfx id q ↔ oid s' q id.
Proof.
  destruct (wp_ok _ _ _ (Scope_recursivelyUpdateIDs_spec s sfx p W B Hp Hroots Hup Hnamed)) as ([] & s' & E & U & F).
  exists s'. split; [done|]. split; [apply (up_grow _ _ _ _ U)|]. intros id q. split; [apply F|].
  apply (wb_path _ _ (up_sub _ _ _ _ U)).
Qed.

(** On a cycle of children the recursion does not end, however deep it may go. *)
Theorem updateIDs_cycle s p suffixID (Hcycle : tc (child s) p p) :
  ∀ fuel s', recursivelyUpdateIDs fuel p suffixID s ≠ Ok ((), s').
Proof. intros. by apply recursivelyUpdateIDs_cycle. Qed.

(** cleanup deletes every object once, and nothing is left. *)
Theorem cleanup_frees_all s sfx (W : wf s sfx) :
  ∃ s', LocalRV_cleanup s = Ok ((), s') ∧ hosts s' = ∅ ∧ scopes s' = ∅ ∧ items s' = ∅ ∧
    pub_sub_Index s' = ht_empty ∧ scopeIndex s' = ht_empty ∧ pubIndex s' = ht_empty.
Proof. destruct (wp_ok _ _ _ (wp_cleanup s sfx W)) as ([] & s' & E & H). eauto. Qed.

(** The rendezvous of a domain-local item outside the known root scopes is one
    request to the topology manager: the publishers of the item, the
    subscribers, and all identifiers of the item. *)
Theorem domain_rendezvous s sfx pub i subs uo (W : wf s sfx) (Hi : items s !! pub = Some i)
    (Ha : alive_hosts s subs) (Hst : ii_strategy i = DOMAIN_LOCAL) (Hord : ordinary s sfx)
    (Hpub : ∃ id h, path s sfx id pub ∧ member s PubItem id h) :
  ∃ ps, rendezvous pub subs uo s = Ok ((), say [TMRendezvous (request_of uo MATCH_PUB_SUBS) DOMAIN_LOCAL
      (names s ps) (names s (ht_keys subs)) (ht_keys (ii_ids i))] s) ∧
    NoDup ps ∧ (∀ h, h ∈ ps ↔ ∃ id, path s sfx id pub ∧ member s PubItem id h) ∧
    (∀ id, id ∈ ht_keys (ii_ids i) ↔ path s sfx id pub).
Proof.
  set (t := ids_getPublishers (ii_ids i) ht_empty). exists (ht_keys t).
  assert (isI s pub) as HI by (by exists i).
  assert (∀ id, id ∈ ht_keys (ii_ids i) ↔ path s sfx id pub) as Hids.
  { intros id. rw (iids_keys s pub) //. rw -(wb_pidx _ _ (wf_b _ _ W)). split.
    - intros H. by apply (find_item_path s sfx id pub W) in H as [? _].
    - intros H. by apply (item_index s sfx). }
  assert (∀ h, h ∈ ht_keys t ↔ ∃ id, path s sfx id pub ∧ member s PubItem id h) as Hps.
  { intros h. rw -hs_in_keys elem_of_getPublishers. split.
    - intros [H%hs_in_empty|(id & pr & Hid & Hh)]; [done|]. exists id. split.
      + apply Hids, elem_of_ht_keys. by exists pr.
      + exists pub, pr. split; [|done]. cbn. unfold ipair. by rw Hi.
    - intros (id & Hid & Hm). right. apply Hids, elem_of_ht_keys in Hid as [pr Hpr].
      exists id, pr. split; [done|]. apply (member_scope_pair s sfx PubItem id h pub pr); [done| |done].
      cbn. unfold ipair. by rw Hi. }
  split_and!; [|apply ht_keys_nodup|done|done].
  assert (wp (rendezvous pub subs uo) (λ _ s', s' = say (rendezvous_msgs s i subs uo) s) s) as H
    by (by eapply wp_rendezvous).
  destruct (wp_ok _ _ _ H) as ([] & s' & -> & ->). do 3 f_equal. unfold rendezvous_msgs. fold t.
  destruct Hpub as (id & h & Hid & Hm). assert (h ∈ ht_keys t) as Hh by (apply Hps; eauto).
  assert (0 <? ht_size t = true)%nat as -> by (unfold ht_size; unfold ht_keys in Hh; destruct (ht_elems t); [set_solver|done]).
  rw Hst. change (DOMAIN_LOCAL =? NODE_LOCAL) with false. change (DOMAIN_LOCAL =? DOMAIN_LOCAL) with true. cbv iota.
  destruct (roots_first s sfx pub i ht_empty W Hi) as [r Hr]. rw Hr.
  by rw (ordinary_first s sfx _ r Hord (roots_of_item s sfx pub i ht_empty W Hi (roots_of_empty s sfx)) Hr).
Qed.

(** initialize leaves a well-formed state with the node itself as the only host
    and the two known root scopes, and sends the subscriptions to RVScope and
    to RVScope/RVScopeUC, padded to 100 bytes that are not written. *)
Theorem initialize_ok gc :
  ∃ s, LocalRV_initialize gc rv0 = Ok ([
      (Some <$> [SUBSCRIBE_SCOPE; 1] ++ RVScope ++ [0; IMPLICIT_RENDEZVOUS]) ++ replicate 88 None;
      (Some <$> [SUBSCRIBE_SCOPE; 1] ++ RVScopeUC ++ [1] ++ RVScope ++ [IMPLICIT_RENDEZVOUS]) ++ replicate 80 None], s) ∧
    wf s (λ _, []) ∧ (∃ x, hosts s !! localProxy s = Some x ∧ remoteHostID x = nodeID gc) ∧
    ∀ r, hs_in r (known_rootscopes s) ↔ r = IP_ROOTSCOPE ∨ r = HTTP_ROOTSCOPE.
Proof.
  destruct (wp_ok _ _ _ (wp_initialize gc rv0 _ rv0_wf)) as (ps & s & E & W & Hh & Hk & k & k_uc & -> & E1 & E2).
  exists s. split_and!; [|done|done|].
  - rw E. vm_compute in E1, E2. injection E1 as <-. injection E2 as <-. done.
  - intros r. rw Hk. pose proof (hs_in_empty (T:=SH) r) as Hn. cbn [known_rootscopes rv0]. tauto.
Qed.

(** Subscribing to an item and unsubscribing again leaves who publishes and
    who subscribes as it was. *)
Theorem subscribe_unsubscribe s sfx h ID prefix st uo uo' s1 s2 (W : wf s sfx) (Hh : is_Some (hosts s !! h))
    (Hl : length ID = PURSUIT_ID_LEN) (Hord : ordinary s sfx)
    (E1 : subscribe_info h ID prefix st uo s = Ok (SUCCESS, s1))
    (E2 : unsubscribe_info h ID prefix st uo' s1 = Ok (SUCCESS, s2)) :
  ∀ k id h', member s2 k id h' ↔ member s k id h'.
Proof.
  destruct (wp_ok _ _ _ (wp_subscribe_info s sfx h ID prefix st uo W Hh)) as (r & s1' & E & A & _).
  rw E1 in E. injection E as <- <-. destruct (ad_wf _ _ _ _ _ _ _ A) as [sfx1 W1].
  destruct (wp_ok _ _ _ (wp_unsubscribe_info s1 sfx1 h ID prefix st uo' W1 Hl)) as (r & s2' & E & _ & _ & R).
  rw E2 in E. injection E as <- <-. destruct R as [_ R].
  pose proof (ad_new _ _ _ _ _ _ _ A eq_refl eq_refl) as Hnew.
  intros k id h'. rw R. destruct (decide (k = PubItem)) as [->|Hk].
  - split; [|intros H; split; [apply (ad_exact _ _ _ _ _ _ _ A); auto|by intros (? & _)]].
    intros [H _]. destruct (ad_pubs _ _ _ _ _ _ _ A eq_refl id h' H) as [?|(? & _)]; done.
  - rw (ad_members _ _ _ _ _ _ _ A eq_refl k id h' Hk). split; [tauto|]. intros H. split; [by left|].
    by intros (-> & -> & ->).
Qed.

(** ** Where the guarantees end *)

(** The name space NAMESPACE_IP is 0, the value the lookup also gives for an
    unknown root scope: getRootScopes never answers NAMESPACE_IP, and items
    under IP_ROOTSCOPE are treated as items of an unknown one. *)
Theorem ip_roots_unknown (ids : IdsHashMap) (known : SH Z) :
  ids_getRootScopes_known ids known ≠ Ok NAMESPACE_IP ∧
  ∀ id0, first_id ids = Ok id0 → ht_get (first_fragment id0) known = Some NAMESPACE_IP →
    ids_getRootScopes_known ids known = Ok NAMESPACE_UNKNOWN.
Proof.
  unfold ids_getRootScopes_known, mbind, res_mbind, res_bind. split.
  - destruct (first_id ids) as [id0|]; [|done]. cbv zeta.
    destruct (Z.eqb_spec (default 0 (ht_get (first_fragment id0) known)) 0) as [E|E];
      intros H; injection H as H; [discriminate H|exact (E H)].
  - intros id0 -> Hk. cbv zeta. by rw Hk.
Qed.
End rendezvous.

(** ** Instances of the properties, and runs *)

Section runs.
Import Demo.

Lemma every_request_ok_witness : ∃ sfx, wf state sfx ∧ ∃ s', dispatch UNPUBLISH_INFO h1 I (A ++ B) DOMAIN_LOCAL state = Ok ((), s') ∧
  (∃ sfx', wf s' sfx') ∧ kept state s'.
Proof.
  destruct state_wf as [sfx W]. exists sfx. split; [done|].
  apply (every_request_ok state sfx); [done|apply h1_alive|]. by split.
Defined.

Lemma reachable_serves_witness : (∃ sfx, wf start sfx) ∧
  ∃ s', serve (mkRequest n1 PUBLISH_SCOPE A [] DOMAIN_LOCAL) start = Ok ((), s') ∧ reachable sample_gc s'.
Proof. apply reachable_serves; [apply start_reachable|by apply single_valid]. Defined.

Lemma identifiers_are_paths_witness : ∃ sfx, (∀ id p, path start sfx id p ↔
    ht_get id (scopeIndex start) = Some p ∨ ht_get id (pubIndex start) = Some p) ∧
    (∀ id, ht_get id (scopeIndex start) = None ∨ ht_get id (pubIndex start) = None) ∧
    (∀ id p q, path start sfx id p → path start sfx id q → p = q) ∧
    (∀ k id h, member start k id h ↔ host_has start k id h).
Proof. apply (identifiers_are_paths sample_gc), start_reachable. Defined.

Lemma publish_scope_correct_witness : ∃ sfx r s', publish_scope h2 D (A ++ B) DOMAIN_LOCAL state = Ok (r, s') ∧
  added_post sfx PubScope (target D (A ++ B)) h2 state r s'.
Proof.
  destruct state_wf as [sfx W]. exists sfx.
  apply publish_scope_correct; [done|apply h2_alive|]. intros H. exfalso. revert H. vm_compute. lia.
Defined.

Lemma publish_info_correct_witness : ∃ sfx r s', publish_info h2 I (A ++ B) DOMAIN_LOCAL false state = Ok (r, s') ∧
  added_post sfx PubItem (target I (A ++ B)) h2 state r s' ∧
  (r = SUCCESS → ordinary state sfx → rendezvous_sent state (target I (A ++ B)) false s').
Proof. destruct state_wf as [sfx W]. exists sfx. apply publish_info_correct; [done|apply h2_alive]. Defined.

Lemma subscribe_scope_correct_witness : ∃ sfx r s', subscribe_scope h1 A [] DOMAIN_LOCAL false state = Ok (r, s') ∧
  added_post sfx SubScope ([] ++ A) h1 state r s'.
Proof. destruct state_wf as [sfx W]. exists sfx. apply subscribe_scope_correct; [done|apply h1_alive]. Defined.

Lemma subscribe_info_correct_witness : ∃ sfx r s', subscribe_info h2 I (A ++ B) DOMAIN_LOCAL false state = Ok (r, s') ∧
  added_post sfx SubItem ((A ++ B) ++ I) h2 state r s' ∧
  (r = SUCCESS → ordinary state sfx → is_Some (ht_get ((A ++ B) ++ I) (pubIndex state)) →
    rendezvous_sent state ((A ++ B) ++ I) false s').
Proof. destruct state_wf as [sfx W]. exists sfx. apply subscribe_info_correct; [done|apply h2_alive]. Defined.

Lemma unpublish_scope_correct_witness : ∃ sfx r s', unpublish_scope h1 B A DOMAIN_LOCAL false state = Ok (r, s') ∧
  unpublish_scope_post sfx h1 (A ++ B) state r s'.
Proof. destruct state_wf as [sfx W]. exists sfx. by apply unpublish_scope_correct. Defined.

Lemma unpublish_info_correct_witness : ∃ sfx r s', unpublish_info h1 I (A ++ B) DOMAIN_LOCAL false state = Ok (r, s') ∧
  unpublish_info_post sfx h1 ((A ++ B) ++ I) state r s'.
Proof. destruct state_wf as [sfx W]. exists sfx. by apply unpublish_info_correct. Defined.

Lemma unsubscribe_scope_correct_witness : ∃ sfx r s', unsubscribe_scope h2 B A DOMAIN_LOCAL true state = Ok (r, s') ∧
  unsubscribe_post sfx SubScope h2 (A ++ B) state r s'.
Proof. destruct state_wf as [sfx W]. exists sfx. by apply unsubscribe_scope_correct. Defined.

Lemma unsubscribe_info_correct_witness : ∃ sfx r s', unsubscribe_info h2 I (A ++ B) DOMAIN_LOCAL true state = Ok (r, s') ∧
  unsubscribe_post sfx SubItem h2 ((A ++ B) ++ I) state r s'.
Proof. destruct state_wf as [sfx W]. exists sfx. by apply unsubscribe_info_correct. Defined.

(** the scope A/B, a scope with two identifiers in reach *)
Lemma new_scope_identifiers_witness : ∃ f xf s', scopes state !! f = Some xf ∧
  publish_inner_scope h2 D (A ++ B) (sc_strategy xf) state = Ok (SUCCESS, s') ∧
  (∀ id p, ht_get id (scopeIndex s') = Some p ↔ ht_get id (scopeIndex state) = Some p ∨
    (p = next state ∧ ∃ pre, ht_get pre (scopeIndex state) = Some f ∧ id = pre ++ D)) ∧
  (∀ id p, ht_get id (pubIndex s') = Some p ↔ ht_get id (pubIndex state) = Some p) ∧
  out s' = out state ++ told s' f (next state) (λ t, t) SCOPE_PUBLISHED.
Proof.
  destruct state_wf as [sfx W]. destruct (scopes state !! 2%nat) as [xf|] eqn:Hx; [|by vm_compute in Hx].
  exists 2%nat, xf. destruct (new_scope_identifiers state sfx h2 D (A ++ B) 2%nat xf) as (s' & H);
    [exact W|apply h2_alive|done|by vm_compute|exact Hx|by vm_compute|by vm_compute|].
  exists s'. split; [exact Hx|exact H].
Defined.

(** A/B under a second root D *)
Definition two_roots : list request := requests ++ [mkRequest n1 PUBLISH_SCOPE D [] DOMAIN_LOCAL].

Lemma republish_adds_edge_witness : ∃ sfx s' xf, 
    republish_inner_scope h1 (A ++ B) D (sc_strategy xf) (run two_roots) = Ok (SUCCESS, s') ∧
    (∀ a c, edge s' a c ↔ edge (run two_roots) a c ∨ (a = 5%nat ∧ c = 2%nat)) ∧
    (∀ id p, path s' sfx id p ↔ ht_get id (scopeIndex s') = Some p ∨ ht_get id (pubIndex s') = Some p) ∧
    (∀ id, path (run two_roots) sfx id 5%nat → ht_get (id ++ last_fragment (A ++ B)) (scopeIndex s') = Some 2%nat).
Proof.
  destruct (run_wf two_roots) as [sfx W]; [repeat constructor|]. exists sfx.
  destruct (scopes (run two_roots) !! 5%nat) as [xf|] eqn:Hx; [|by vm_compute in Hx].
  destruct (republish_adds_edge (run two_roots) sfx h1 (A ++ B) D 5%nat xf 2%nat) as (s' & H);
    [exact W|by vm_compute; eexists|vm_compute; lia| |by vm_compute|by vm_compute|exact Hx|by vm_compute|by vm_compute|].
  - assert (ht_keys (sc_childrenScopes (default (mkScope ht_empty false ht_empty ht_empty ht_empty 0)
      (scopes (run two_roots) !! 2%nat))) = []) as Hno by by vm_compute.
    intros H. inversion H as [|? y ? (x & Hx2 & Hc) _]; subst; [].
    apply hs_in_keys in Hc. rw Hx2 in Hno. change (ht_keys (sc_childrenScopes x) = []) in Hno.
    rw Hno in Hc. by apply elem_of_nil in Hc.
  - exists s', xf. exact H.
Defined.

Lemma cleanup_frees_all_witness : ∃ s', LocalRV_cleanup state = Ok ((), s') ∧ hosts s' = ∅ ∧ scopes s' = ∅ ∧ items s' = ∅ ∧
    pub_sub_Index s' = ht_empty ∧ scopeIndex s' = ht_empty ∧ pubIndex s' = ht_empty.
Proof. destruct state_wf as [sfx W]. by apply (cleanup_frees_all state sfx). Defined.

Lemma domain_rendezvous_witness : ∃ ps i, items state !! 4%nat = Some i ∧
  rendezvous 4%nat ht_empty false state = Ok ((), say [TMRendezvous (request_of false MATCH_PUB_SUBS) DOMAIN_LOCAL
    (names state ps) (names state (ht_keys (ht_empty : PtrSet))) (ht_keys (ii_ids i))] state) ∧ NoDup ps.
Proof.
  destruct state_wf as [sfx W].
  assert (ii_strategy <$> items state !! 4%nat = Some DOMAIN_LOCAL) as Hst by (vm_compute; reflexivity).
  destruct (items state !! 4%nat) as [i|] eqn:Hi; [|discriminate Hst]. cbn in Hst.
  destruct (domain_rendezvous state sfx 4%nat i ht_empty false W Hi) as (ps & H & Hnd & _).
  - intros h H. destruct (hs_in_empty h H).
  - exact (inj Some _ _ Hst).
  - apply state_ordinary.
  - exists (A ++ B ++ I), h1. split.
    + apply (find_item_path state sfx); [exact W|vm_compute; reflexivity].
    + apply (publishes_member _ 4%nat). vm_compute. reflexivity.
  - exists ps, i. split; [reflexivity|]. split; [exact H|exact Hnd].
Defined.

Lemma updateIDs_complete_witness : ∃ sfx s', Scope_recursivelyUpdateIDs 2%nat (sfx 2%nat) state = Ok ((), s') ∧
  grow state s' ∧ ∀ id q, path s' sfx id q ↔ oid s' q id.
Proof.
  destruct state_wf as [sfx W]. exists sfx. pose proof (closed_of_full state sfx (wf_b _ _ W) (wf_full _ _ W)) as Hcl.
  apply updateIDs_complete; [apply W|apply W|by vm_compute; eexists| | |].
  - intros q Hq. apply (wf_full _ _ W). by constructor.
  - intros f c He _. by apply Hcl.
  - intros f c He _. apply (wf_named _ _ W). eapply edge_alive; [apply W|done].
Defined.

(** The scope A/B becomes its own child. *)
Definition looped : rv := scope_edge 2%nat 2%nat state.
Lemma updateIDs_cycle_witness : tc (child looped) 2%nat 2%nat ∧ recursivelyUpdateIDs 100 2%nat B looped ≠ Ok ((), looped).
Proof.
  assert (tc (child looped) 2%nat 2%nat) as H by (apply tc_once, childb_child; vm_compute; reflexivity).
  split; [exact H|]. exact (updateIDs_cycle looped 2%nat B H 100 looped).
Defined.

Lemma subscribe_unsubscribe_witness : ∃ s1 s2,
  subscribe_info h1 I (A ++ B) DOMAIN_LOCAL false state = Ok (SUCCESS, s1) ∧
  unsubscribe_info h1 I (A ++ B) DOMAIN_LOCAL true s1 = Ok (SUCCESS, s2) ∧
  ∀ k id h', member s2 k id h' ↔ member state k id h'.
Proof.
  destruct state_wf as [sfx W].
  set (m1 := subscribe_info h1 I (A ++ B) DOMAIN_LOCAL false).
  set (m2 := unsubscribe_info h1 I (A ++ B) DOMAIN_LOCAL true).
  assert (m1 state = Ok (SUCCESS, after m1 state)) as E1 by (apply run_after; vm_compute; reflexivity).
  assert (m2 (after m1 state) = Ok (SUCCESS, after m2 (after m1 state))) as E2
    by (apply run_after; vm_compute; reflexivity).
  exists (after m1 state), (after m2 (after m1 state)). split; [exact E1|]. split; [exact E2|].
  apply (subscribe_unsubscribe state sfx h1 I (A ++ B) DOMAIN_LOCAL false true (after m1 state) (after m2 (after m1 state)) W);
    [apply h1_alive|reflexivity|apply state_ordinary|exact E1|exact E2].
Defined.

(** The removing requests do not test the length of the identifier.  With an
    empty prefix and two fragments, unpublish_scope takes the inner scope A/B
    for a root and deletes it without telling its father A; the next
    subscription to A follows the dangling pointer. *)
Theorem removal_needs_one_fragment :
  let s0 := run [mkRequest n1 PUBLISH_SCOPE A [] DOMAIN_LOCAL; mkRequest n1 PUBLISH_SCOPE B A DOMAIN_LOCAL] in
  ∃ s1, serve (mkRequest n1 UNPUBLISH_SCOPE (A ++ B) [] DOMAIN_LOCAL) s0 = Ok ((), s1) ∧
    serve (mkRequest n2 SUBSCRIBE_SCOPE A [] DOMAIN_LOCAL) s1 = Fault UseAfterFree.
Proof.
  intros s0. exists (after (serve (mkRequest n1 UNPUBLISH_SCOPE (A ++ B) [] DOMAIN_LOCAL)) s0).
  split; [apply run_after|]; vm_compute; reflexivity.
Qed.

(** With the whole identifier and an empty prefix, unpublish_info and
    unsubscribe_info find the item but no father scope, and read its strategy
    through the null pointer: one packet stops the node. *)
Theorem removal_needs_father :
  serve (mkRequest n1 UNPUBLISH_INFO (A ++ B ++ I) [] DOMAIN_LOCAL) state = Fault NullDeref ∧
  serve (mkRequest n1 UNSUBSCRIBE_INFO (A ++ B ++ I) [] DOMAIN_LOCAL) state = Fault NullDeref.
Proof. split; vm_compute; reflexivity. Qed.

(** Nothing stops a node from publishing a scope below itself: after the two
    links of republish_inner_scope the scope A/B is an ancestor of itself, and
    the update of its identifiers never returns. *)
Theorem republish_below_itself :
  let s0 := run (requests ++ [mkRequest n1 PUBLISH_SCOPE D (A ++ B) DOMAIN_LOCAL]) in
  closes_cycle s0 (A ++ B) (A ++ B ++ D) ∧
  serve (mkRequest n1 PUBLISH_SCOPE (A ++ B) (A ++ B ++ D) DOMAIN_LOCAL) s0 = Fault OutOfFuel ∧
  ∀ fuel s', recursivelyUpdateIDs fuel 2%nat B (scope_edge 5%nat 2%nat s0) ≠ Ok ((), s').
Proof.
  intros s0. split; [|split].
  - exists 2%nat, 5%nat. split; [vm_compute; reflexivity|]. split; [vm_compute; reflexivity|].
    apply rtc_once, childb_child. vm_compute. reflexivity.
  - vm_compute. reflexivity.
  - intros fuel s'. apply recursivelyUpdateIDs_cycle. apply (tc_l _ _ 5%nat); [|apply tc_once];
      apply childb_child; vm_compute; reflexivity.
Qed.
End runs.
