(* ===== verification/Forwarder.v ===== *)
(** * The forwarder: LIPSIN forwarding of packets

    Model of src/src/forwarder.{hh,cc}.  An entry of the table matches a
    packet when its link identifier is included in the forwarding identifier
    of the packet.  A packet is sent once per matching entry, the last time as
    the packet itself and before that as copies; what [push] does with the
    packet and with each copy is an event.

    Click's checksums and the printed form of an Ethernet address are
    parameters.  Numbers the source copies from memory are stored
    little-endian.  Log messages are not modelled. *)

From S2P Require Import Prelude Enums BitVector Packet GlobalConf.

(** ** Numbers in memory *)

(** [htons] and [ntohs] on a little-endian host *)
Definition htons (x : Z) : Z := (x mod 256) * 256 + (x / 256) mod 256.
(** [memcpy(dst, &x, 2)] *)
Definition mem2 (x : Z) : bytes := [x mod 256; (x / 256) mod 256].

Definition MAC_LEN : nat := 6.
Definition MAC_HEADER : nat := 14.
Definition IP_HEADER : nat := 20.
Definition UDP_HEADER : nat := 8.
(** 0x080a and 0x86dd *)
Definition PROTO_BA : Z := 2058.
Definition PROTO_SDN : Z := 34525.

(** ** The table *)

Record ForwardingEntry := mkFE {
  fe_src : option bytes;
  fe_dst : option bytes;
  fe_src_ip : option bytes;
  fe_dst_ip : option bytes;
  fe_port : Z;
  fe_LID : BABitvector;
  fe_proto_type : Z;
}.

Record forwarder := mkFw {
  fw_id : Z;
  number_of_links : Z;
  fwTable : list ForwardingEntry;
}.

(** The arguments of one link, as Click's parsers give them. *)
Record link_args := mkLink {
  la_port : Z;
  la_src : bytes;
  la_dst : bytes;
  la_proto : Z;
  la_LID : bytes;
}.

(** [new BABitvector(FID_LEN * 8)] and the loop over the characters *)
Definition read_LID (s : bytes) : res BABitvector := parse_bits (BABitvector_make (Z.of_nat FID_LEN * 8)) s.

Definition configure_link (use_mac : bool) (a : link_args) : res ForwardingEntry :=
  LID ← read_LID (la_LID a);
  Ok (if use_mac
      then mkFE (Some (la_src a)) (Some (la_dst a)) None None (la_port a) LID (htons (la_proto a))
      else mkFE None None (Some (la_src a)) (Some (la_dst a)) (la_port a) LID 0).

Fixpoint configure_links (use_mac : bool) (l : list link_args) : res (list ForwardingEntry) :=
  match l with
  | [] => Ok []
  | a :: l => fe ← configure_link use_mac a; fes ← configure_links use_mac l; Ok (fe :: fes)
  end.

(** [configure]: the number of links is the number of arguments read. *)
Definition Forwarder_configure (use_mac : bool) (l : list link_args) : res forwarder :=
  fes ← configure_links use_mac l; Ok (mkFw 0 (Z.of_nat (length l)) fes).

(** [cleanup]: the entries that are deleted, [configured] being
    [stage >= CLEANUP_CONFIGURED]; [at(i)] is checked. *)
Definition Forwarder_cleanup (configured : bool) (s : forwarder) : res (list ForwardingEntry) :=
  if configured then
    if number_of_links s <=? zlen (fwTable s) then Ok (take (Z.to_nat (number_of_links s)) (fwTable s))
    else Fault OutOfBounds
  else Ok [].

(** ** What happens to a packet *)

(** the packet handed to [push], or a clone of it *)
Inductive copy := Orig | Clone.

Inductive event :=
  | Out (port : Z) (c : copy) (d : bytes)
  (** [kill()] *)
  | Killed (c : copy)
  (** neither pushed nor killed *)
  | Lost (c : copy).

Definition event_copy (e : event) : copy :=
  match e with Out _ c _ => c | Killed c => c | Lost c => c end.

(** [andVector = FID & LID; andVector == LID] *)
Definition matches (FID LID : BABitvector) : res bool :=
  andVector ← BABitvector_and_assign FID LID; Ok (BABitvector_eqb andVector LID).

(** The loop that fills [out_links]. *)
Fixpoint select (test : ForwardingEntry → res bool) (l : list ForwardingEntry) : res (list ForwardingEntry) :=
  match l with
  | [] => Ok []
  | fe :: l => b ← test fe; out ← select test l; Ok (if b : bool then fe :: out else out)
  end.

Definition deref (p : option bytes) : res bytes := or_fault NullDeref p.

(** Destination, source and protocol type of an Ethernet header. *)
Definition mac_header (fe : ForwardingEntry) : res bytes :=
  dst ← deref (fe_dst fe); src ← deref (fe_src fe);
  Ok (take MAC_LEN dst ++ take MAC_LEN src ++ mem2 (fe_proto_type fe)).

(** The 8 bytes that complete an IPv6 header. *)
Definition sdn_fill (payload_len : Z) : bytes := [0x60; 0; 0; 0] ++ mem2 payload_len ++ [59; 0xff].

(** [unsigned short payload_len = p->length() - 14 - 32] *)
Definition payload_len (d : bytes) : Z := u16 (zlen d - 14 - 32).

Section forwarder.
(** Click: [EtherAddress::unparse], [click_in_cksum],
    [click_in_cksum_pseudohdr] *)
Context (unparse : bytes → bytes) (in_cksum : bytes → Z) (in_cksum_pseudohdr : Z → bytes → Z → Z).

(** The UDP checksum, written at its place; [len] as the source computes it. *)
Definition udp_sum (len : Z) (d : bytes) : res bytes :=
  d ← write (IP_HEADER + 6) [0; 0] d;
  let csum := in_cksum (take (Z.to_nat len) (drop IP_HEADER d)) in
  write (IP_HEADER + 6) (mem2 (in_cksum_pseudohdr csum (take IP_HEADER d) len)) d.

(** A packet of the LocalProxy leaves through the entry [fe]; the result
    carries the counter [_id]. *)
Definition send_new (use_mac : bool) (d : bytes) (fe : ForwardingEntry) (c : copy) (id : Z)
    : res (list event * Z) :=
  if use_mac then
    let reverse_proto := htons (fe_proto_type fe) in
    if reverse_proto =? PROTO_BA then
      h ← mac_header fe; Ok ([Out (fe_port fe) c (h ++ d)], id)
    else if reverse_proto =? PROTO_SDN then
      h ← mac_header fe; Ok ([Out (fe_port fe) c (h ++ sdn_fill (payload_len d) ++ d)], id)
    else Ok ([Lost c], id)
  else
    src ← deref (fe_src_ip fe); dst ← deref (fe_dst_ip fe);
    let len := zlen d + 28 in
    let ip := [0x45; 0] ++ mem2 (htons len) ++ mem2 (htons id) ++ [0; 0; 250; 17; 0; 0] ++ src ++ dst in
    ip ← write 10 (mem2 (in_cksum ip)) ip;
    let ulen := u16 (len - 20) in
    let udp := mem2 (htons 55555) ++ mem2 (htons 55555) ++ mem2 (htons ulen) ++ [0; 0] in
    q ← udp_sum ulen (ip ++ udp ++ d);
    Ok ([Out (fe_port fe) c q], u32 (id + 1)).

(** A packet of the network leaves through [fe]: the addresses are
    replaced, and the header is changed between the two kinds of frames. *)
Definition send_on (use_mac : bool) (p_proto_type : Z) (d : bytes) (fe : ForwardingEntry) (c : copy)
    (id : Z) : res (list event * Z) :=
  if use_mac then
    dst ← deref (fe_dst fe); src ← deref (fe_src fe);
    let same : res (list event * Z) :=
      q ← write 0 (take MAC_LEN dst) d; q ← write MAC_LEN (take MAC_LEN src) q;
      Ok ([Out (fe_port fe) c q], id) in
    let proto := htons (fe_proto_type fe) in
    if p_proto_type =? proto then same
    else if (p_proto_type =? PROTO_BA) && (proto =? PROTO_SDN) then
      h ← mac_header fe;
      Ok ([Out (fe_port fe) c (h ++ sdn_fill (payload_len d) ++ drop MAC_HEADER d)], id)
    else if (p_proto_type =? PROTO_SDN) && (proto =? PROTO_BA) then
      h ← mac_header fe;
      Ok ([Out (fe_port fe) c (h ++ drop (MAC_HEADER + 8) d)], id)
    else same
  else
    src ← deref (fe_src_ip fe); dst ← deref (fe_dst_ip fe);
    q ← write 12 src d; q ← write 16 dst q;
    q ← write 1 [0] q; q ← write 6 [0; 0] q; q ← write 8 [250] q;
    q ← write 10 [0; 0] q;
    q ← write 10 (mem2 (in_cksum (take IP_HEADER q))) q;
    q ← udp_sum (u16 (zlen d - 20)) q;
    Ok ([Out (fe_port fe) c q], id).

(** The loop over [out_links]: the last entry takes the packet itself, unless
    it is also needed for the LocalProxy. *)
Fixpoint send_links (send : ForwardingEntry → copy → Z → res (list event * Z)) (size : nat)
    (pushLocally : bool) (counter : nat) (l : list ForwardingEntry) (id : Z) : res (list event * Z) :=
  match l with
  | [] => Ok ([], id)
  | fe :: l =>
      let c := if (counter =? size)%nat && negb pushLocally then Orig else Clone in
      '(e, id) ← send fe c id;
      '(es, id) ← send_links send size pushLocally (S counter) l id;
      Ok (e ++ es, id)
  end.

(** The packet did not come from this link. *)
Definition not_looped (use_mac : bool) (d : bytes) (fe : ForwardingEntry) : res bool :=
  if use_mac then
    src ← data_read d MAC_LEN MAC_LEN; dst ← data_read d 0 MAC_LEN;
    fsrc ← deref (fe_src fe); fdst ← deref (fe_dst fe);
    let eq (a b : bytes) := bool_decide (unparse a = unparse b) in
    Ok (negb (eq src fdst && eq dst fsrc) && negb (eq src fsrc || eq dst fdst))
  else
    src ← data_read d 12 4; dst ← data_read d 16 4;
    fsrc ← deref (fe_src_ip fe); fdst ← deref (fe_dst_ip fe);
    Ok (negb (bool_decide (src = fdst) && bool_decide (dst = fsrc))).

Definition link_test (use_mac : bool) (d : bytes) (FID : BABitvector) (fe : ForwardingEntry) : res bool :=
  m ← matches FID (fe_LID fe);
  if m : bool then not_looped use_mac d fe else Ok false.

(** [push] from the LocalProxy, on port 0. *)
Definition push_proxy (gc : gconf) (d : bytes) (s : forwarder) : res (list event * Z) :=
  b ← data_read d 0 FID_LEN;
  let FID := FID_of_bytes b in
  out_links ← select (λ fe, matches FID (fe_LID fe)) (fwTable s);
  '(es, id) ← send_links (send_new (use_mac gc) d) (length out_links) false 1 out_links (fw_id s);
  Ok ((if (length out_links =? 0)%nat then [Killed Orig] else []) ++ es, id).

(** [push] from the network.  [None] stands for the protocol type that is
    not read in IP mode. *)
Definition push_network (gc : gconf) (d : bytes) (s : forwarder) : res (list event * Z) :=
  p_proto_type ← (if use_mac gc then
    b ← data_read d 12 2; Ok (nth 0 b 0 * 256 + nth 1 b 0) else Ok 0);
  let off := if use_mac gc then if p_proto_type =? PROTO_SDN then (MAC_HEADER + 8)%nat else MAC_HEADER
             else (IP_HEADER + UDP_HEADER)%nat in
  b ← data_read d off FID_LEN;
  let FID := FID_of_bytes b in
  testFID ← BABitvector_negate FID;
  let all_ones := BABitvector_zero testFID in
  out_links ← (if negb all_ones then select (link_test (use_mac gc) d FID) (fwTable s) else Ok []);
  pushLocally ← matches FID (iLID gc);
  '(es, id) ← (if negb all_ones
    then send_links (send_on (use_mac gc) p_proto_type d) (length out_links) pushLocally 1 out_links (fw_id s)
    else Ok ([], fw_id s));
  Ok (es ++ (if pushLocally : bool then [Out 0 Orig (drop off d)] else []) ++
    (if (length out_links =? 0)%nat && negb pushLocally then [Killed Orig] else []), id).

Definition Forwarder_push (gc : gconf) (in_port : Z) (d : bytes) (s : forwarder) : res (list event * forwarder) :=
  '(es, id) ← (if in_port =? 0 then push_proxy gc d s
    else if in_port >=? 1 then push_network gc d s else Ok ([], fw_id s));
  Ok (es, mkFw id (number_of_links s) (fwTable s)).
End forwarder.
