(* ===== verification/ForwarderProofs.v ===== *)
(** * What the forwarder guarantees

    The links a packet leaves through, the bytes on them, and that the packet
    handed to [push] is used exactly once. *)

From S2P Require Import Prelude Enums BitVector Packet GlobalConf RvMessages Forwarder.

(** ** Matching *)

(** The link identifier is included in the forwarding identifier. *)
Definition includes (FID LID : BABitvector) : bool :=
  forallb (λ i, negb (bv_bit LID i) || bv_bit FID i) (seq 0 256).

Definition FID_ok (v : BABitvector) : Prop := bv_wf v ∧ bv_max v = 255.

Lemma includes_iff FID LID : includes FID LID = true ↔
  ∀ i, (i < 256)%nat → bv_bit LID i = true → bv_bit FID i = true.
Proof.
  unfold includes. rw forallb_forall. split.
  - intros H i Hi Hl. specialize (H i). rw Hl in H. apply H. apply in_seq. lia.
  - intros H i Hi%in_seq. destruct (bv_bit LID i) eqn:E; [|done]. simpl. apply H; [lia|done].
Qed.

Lemma FID_ok_len v : FID_ok v → bv_len v = 256%nat.
Proof. intros [_ E]. unfold bv_len, BABitvector_size. by rw E. Qed.

Lemma matches_includes FID LID : FID_ok FID → FID_ok LID → matches FID LID = Ok (includes FID LID).
Proof.
  intros [W1 E1] [W2 E2]. unfold matches.
  destruct (and_eq_subset FID LID W1 W2) as (c & Hc & Hiff); [congruence|].
  rw Hc. cbn. f_equal. apply eq_bool_prop_intro. rw !Is_true_true Hiff includes_iff.
  by rw (FID_ok_len LID).
Qed.

Lemma FID_of_bytes_ok b : length b = FID_LEN → Forall is_byte b → FID_ok (FID_of_bytes b).
Proof. intros Hl Hb. split; [by apply FID_of_bytes_wf; [lia|]|done]. Qed.

(** ** The loops *)

Lemma select_filter (f : ForwardingEntry → bool) test l :
  (∀ fe, fe ∈ l → test fe = Ok (f fe)) → select test l = Ok (List.filter f l).
Proof.
  induction l as [|fe l IH]; intros H; [done|]. cbn [select List.filter].
  rw H; [|by left]. cbn [mbind res_mbind res_bind]. rw IH; [|intros; apply H; by right]. cbn.
  by destruct (f fe).
Qed.

(** Who gets the packet itself. *)
Fixpoint tags (pushLocally : bool) (l : list ForwardingEntry) : list (ForwardingEntry * copy) :=
  match l with
  | [] => []
  | fe :: l => (fe, if match l with [] => true | _ => false end && negb pushLocally then Orig else Clone)
               :: tags pushLocally l
  end.

Lemma send_links_tags (R : relation Z) `{!PreOrder R} send (P : ForwardingEntry → copy → event → Prop)
    pushLocally l size counter id :
  (∀ fe c id, fe ∈ l → ∃ e id', send fe c id = Ok ([e], id') ∧ P fe c e ∧ R id id') →
  (counter + length l = S size)%nat →
  ∃ es id', send_links send size pushLocally counter l id = Ok (es, id') ∧
    Forall2 (λ fc e, P fc.1 fc.2 e) (tags pushLocally l) es ∧ R id id'.
Proof.
  revert counter id. induction l as [|fe l IH]; intros counter id Hs Hc; cbn [send_links tags].
  - exists [], id. by split_and!.
  - assert ((counter =? size)%nat = match l with [] => true | _ => false end) as Ec.
    { destruct l; cbn in Hc; [apply Nat.eqb_eq; lia|apply Nat.eqb_neq; lia]. }
    rw Ec. destruct (Hs fe (if match l with [] => true | _ => false end && negb pushLocally then Orig else Clone) id)
      as (e & id1 & He & HP & HR); [by left|].
    rw He. cbn [mbind res_mbind res_bind].
    destruct (IH (S counter) id1) as (es & id2 & Hes & HF & HR2); [intros; apply Hs; by right|cbn in Hc; lia|].
    rw Hes. cbn. exists (e :: es), id2. split_and!; [done|by constructor|by trans id1].
Qed.

Lemma Forall2_map {A B} (f : A → B) l k : Forall2 (λ x y, y = f x) l k → k = f <$> l.
Proof. induction 1; [done|]. subst. done. Qed.

(** How often the packet itself is used. *)
Definition uses (es : list event) : nat :=
  length (List.filter (λ e, match event_copy e with Orig => true | Clone => false end) es).

Lemma uses_app l k : uses (l ++ k) = (uses l + uses k)%nat.
Proof. unfold uses. by rw List.filter_app length_app. Qed.

Lemma uses_tags pushLocally l es :
  Forall2 (λ (fc : ForwardingEntry * copy) e, event_copy e = fc.2) (tags pushLocally l) es →
  uses es = match l with [] => 0%nat | _ => if pushLocally then 0%nat else 1%nat end.
Proof.
  revert es. induction l as [|fe l IH]; intros es H; cbn [tags] in H; inversion H as [|? e ? es' He Hes]; subst; [done|].
  specialize (IH es' Hes). cbn in He. change (e :: es') with ([e] ++ es'). rw uses_app IH. unfold uses. cbn. rw He.
  destruct l, pushLocally; done.
Qed.

(** ** Bytes *)

Lemma htons_htons x : 0 <= x < 65536 → htons (htons x) = x.
Proof.
  intros Hx. unfold htons.
  pose proof (Z.mod_pos_bound x 256). pose proof (Z.div_mod x 256).
  assert (0 <= x / 256 < 256) by (split; [apply Z.div_pos|apply Z.div_lt_upper_bound]; lia).
  rw (Z.mod_small (x / 256)); [|lia].
  rw (Z.add_comm (x mod 256 * 256)) Z.mod_add // Z.div_add //. rw (Z.mod_small (x / 256)); [|lia].
  rw (Z.div_small (x / 256)); [|lia]. rw Z.add_0_l (Z.mod_small (x mod 256)); lia.
Qed.

(** ** Well-formed tables *)

(** An entry of the table, as [configure] makes it. *)
Record entry_ok (use_mac : bool) (fe : ForwardingEntry) : Prop := {
  eo_LID : FID_ok (fe_LID fe);
  eo_addr : if use_mac then ∃ src dst, fe_src fe = Some src ∧ fe_dst fe = Some dst ∧ length src = MAC_LEN ∧ length dst = MAC_LEN
            else ∃ src dst, fe_src_ip fe = Some src ∧ fe_dst_ip fe = Some dst ∧ length src = 4%nat ∧ length dst = 4%nat;
}.

Lemma parse_LID s : (length s ≤ 256)%nat →
  ∃ c, read_LID s = Ok c ∧ FID_ok c ∧
    ∀ i, bv_bit c i = (i <? length s)%nat && (nth (length s - 1 - i) s 0 =? 49).
Proof.
  intros Hl. destruct (BABitvector_make_zeros (Z.of_nat FID_LEN * 8)) as (Hwf & Hm & Hz); [lia|].
  destruct (parse_bits_spec _ s Hwf) as (c & Hc & Hcwf & Hcm & Hbit).
  { unfold bv_len, BABitvector_size. rw Hm. unfold FID_LEN. lia. }
  exists c. split_and!; [done|split; [done|by rw Hcm Hm]|].
  intros i. rw Hbit Hz. case_decide; [by replace (i <? length s)%nat with true by (symmetry; apply Nat.ltb_lt; lia)|].
  by replace (i <? length s)%nat with false by (symmetry; apply Nat.ltb_ge; lia).
Qed.

(** An entry is what its arguments say. *)
Record entry_of (use_mac : bool) (a : link_args) (fe : ForwardingEntry) : Prop := {
  ef_port : fe_port fe = la_port a;
  ef_LID : ∀ i, bv_bit (fe_LID fe) i =
    (i <? length (la_LID a))%nat && (nth (length (la_LID a) - 1 - i) (la_LID a) 0 =? 49);
  ef_addr : if use_mac then fe_src fe = Some (la_src a) ∧ fe_dst fe = Some (la_dst a) ∧
              htons (fe_proto_type fe) = la_proto a
            else fe_src_ip fe = Some (la_src a) ∧ fe_dst_ip fe = Some (la_dst a);
}.

(** Arguments that configure a link. *)
Definition args_ok (use_mac : bool) (a : link_args) : Prop :=
  (length (la_LID a) ≤ 256)%nat ∧ 0 <= la_proto a < 65536 ∧
  length (la_src a) = (if use_mac then MAC_LEN else 4%nat) ∧
  length (la_dst a) = (if use_mac then MAC_LEN else 4%nat).

Lemma configure_link_ok use_mac a : args_ok use_mac a →
  ∃ fe, configure_link use_mac a = Ok fe ∧ entry_of use_mac a fe ∧ entry_ok use_mac fe.
Proof.
  intros (Hl & Hp & Hs & Hd). unfold configure_link.
  destruct (parse_LID _ Hl) as (c & -> & Hok & Hbit). cbn [mbind res_mbind res_bind].
  eexists. split; [done|]. destruct use_mac.
  - split; split; cbn; [done|done|by rw htons_htons|done|by eauto 10].
  - split; split; cbn; [done|done|done|done|by eauto 10].
Qed.

Lemma configure_links_ok use_mac l : Forall (args_ok use_mac) l →
  ∃ fes, configure_links use_mac l = Ok fes ∧ Forall2 (entry_of use_mac) l fes ∧ Forall (entry_ok use_mac) fes.
Proof.
  induction 1 as [|a l Ha Hl IH]; cbn [configure_links]; [by exists []|].
  destruct (configure_link_ok _ _ Ha) as (fe & -> & He & Ho). destruct IH as (fes & -> & HF & HO).
  cbn. exists (fe :: fes). split_and!; [done|by constructor|by constructor].
Qed.

(** ** Frames *)

(** The links a forwarding identifier selects. *)
Definition links_of (FID : BABitvector) (l : list ForwardingEntry) : list ForwardingEntry :=
  List.filter (λ fe, includes FID (fe_LID fe)) l.

Definition addr (o : option bytes) : bytes := default [] o.
Definition header (fe : ForwardingEntry) : bytes := addr (fe_dst fe) ++ addr (fe_src fe) ++ mem2 (fe_proto_type fe).

(** The frame a packet of the LocalProxy becomes. *)
Definition frame_new (fe : ForwardingEntry) (d : bytes) : bytes :=
  header fe ++ (if htons (fe_proto_type fe) =? PROTO_SDN then sdn_fill (payload_len d) else []) ++ d.

(** The frame a frame of the network becomes. *)
Definition frame_on (proto : Z) (fe : ForwardingEntry) (d : bytes) : bytes :=
  let fe_proto := htons (fe_proto_type fe) in
  if (proto =? PROTO_BA) && (fe_proto =? PROTO_SDN) then header fe ++ sdn_fill (payload_len d) ++ drop MAC_HEADER d
  else if (proto =? PROTO_SDN) && (fe_proto =? PROTO_BA) then header fe ++ drop (MAC_HEADER + 8) d
  else addr (fe_dst fe) ++ addr (fe_src fe) ++ drop 12 d.

Lemma mac_header_ok fe : entry_ok true fe → mac_header fe = Ok (header fe).
Proof.
  intros [_ (src & dst & Es & Ed & Hs & Hd)]. unfold mac_header, header, addr. rw Es Ed. cbn [deref or_fault mbind res_mbind res_bind default from_option id].
  rw (take_ge dst); [|lia]. by rw (take_ge src); [|lia].
Qed.

Lemma header_length fe : entry_ok true fe → length (header fe) = MAC_HEADER.
Proof.
  intros [_ (src & dst & Es & Ed & Hs & Hd)]. unfold header. rw Es Ed !length_app. cbn.
  by rw Hs Hd.
Qed.

Section frames.
Context (in_cksum : bytes → Z) (in_cksum_pseudohdr : Z → bytes → Z → Z).

Abbreviation send_new := (send_new in_cksum in_cksum_pseudohdr).
Abbreviation send_on := (send_on in_cksum in_cksum_pseudohdr).

Lemma send_new_mac d fe c id :
  entry_ok true fe → htons (fe_proto_type fe) = PROTO_BA ∨ htons (fe_proto_type fe) = PROTO_SDN →
  send_new true d fe c id = Ok ([Out (fe_port fe) c (frame_new fe d)], id).
Proof.
  intros Hok Hp. unfold Forwarder.send_new, frame_new. rw mac_header_ok //.
  by destruct Hp as [-> | ->].
Qed.

Lemma send_on_mac proto d fe c id :
  entry_ok true fe → (MAC_HEADER ≤ length d)%nat →
  send_on true proto d fe c id = Ok ([Out (fe_port fe) c (frame_on proto fe d)], id).
Proof.
  intros Hok Hl. unfold Forwarder.send_on, frame_on. rw mac_header_ok //.
  destruct Hok as [_ (src & dst & Es & Ed & Hs & Hd)]. rw Es Ed. cbn [deref or_fault mbind res_mbind res_bind].
  unfold MAC_LEN in *. rw (take_ge dst); [|lia]. rw (take_ge src); [|lia]. unfold MAC_HEADER in Hl.
  rw write_ok; [|lia]. cbn [mbind res_mbind res_bind]. rw take_0 app_nil_l.
  rw write_ok; [|rw length_app length_drop; lia]. cbn [mbind res_mbind res_bind].
  rw take_app_length'; [|lia]. rw (drop_app_ge dst); [|lia]. rw drop_drop. rw Hs Hd.
  replace (0 + 6 + (6 + 6 - 6))%nat with 12%nat by lia. cbn [addr default from_option Datatypes.id].
  destruct (proto =? PROTO_BA) eqn:E1, (htons (fe_proto_type fe) =? PROTO_SDN) eqn:E2,
    (proto =? PROTO_SDN) eqn:E3, (htons (fe_proto_type fe) =? PROTO_BA) eqn:E4,
    (proto =? htons (fe_proto_type fe)) eqn:E5; cbn [andb mbind res_mbind res_bind]; try done;
    unfold PROTO_BA, PROTO_SDN in *; lia.
Qed.

(** An IP packet keeps its payload and its length. *)
Definition ip_frame (fe : ForwardingEntry) (payload q : bytes) : Prop :=
  length q = (28 + length payload)%nat ∧ drop 28 q = payload ∧
  take 8 (drop 12 q) = addr (fe_src_ip fe) ++ addr (fe_dst_ip fe).

Definition ip_out (payload : bytes) (fe : ForwardingEntry) (c : copy) (e : event) : Prop :=
  ∃ q, e = Out (fe_port fe) c q ∧ ip_frame fe payload q.

(** A write outside [12, 20) leaves the addresses. *)
Lemma write_addr off src d q :
  write off src d = Ok q → (off + length src ≤ 12)%nat ∨ (20 ≤ off)%nat → take 8 (drop 12 q) = take 8 (drop 12 d).
Proof.
  intros Hw [H|H].
  - by rw (write_drop _ _ _ _ _ Hw H).
  - revert Hw. unfold write. destruct (Nat.leb_spec (off + length src) (length d)); [|done]. intros [= <-].
    rw drop_app_le; [|rw length_take; lia]. rw take_app_le; [|rw length_drop length_take; lia].
    rw skipn_firstn_comm take_take. f_equal. lia.
Qed.

Lemma mem2_length x : length (mem2 x) = 2%nat.
Proof. done. Qed.

Lemma udp_sum_ok len d : (28 ≤ length d)%nat →
  ∃ q, udp_sum in_cksum in_cksum_pseudohdr len d = Ok q ∧ length q = length d ∧ drop 28 q = drop 28 d ∧
    take 8 (drop 12 q) = take 8 (drop 12 d).
Proof.
  intros Hl. unfold udp_sum, IP_HEADER.
  destruct (write (20 + 6) [0; 0] d) as [d1|] eqn:H1; [|unfold write in H1; cbn [length] in H1; case_match; [done|lia]].
  cbn [mbind res_mbind res_bind]. pose proof (write_length _ _ _ _ H1) as L1.
  match goal with |- context [write _ (mem2 ?x) d1] => destruct (write (20 + 6) (mem2 x) d1) as [q|] eqn:H2;
    [|unfold write in H2; rw mem2_length in H2; case_match; [done|lia]] end.
  exists q. pose proof (write_length _ _ _ _ H2) as L2. split_and!; [done|congruence| |].
  - rw (write_drop _ _ _ _ _ H2) ?mem2_length; [|lia]. apply (write_drop _ _ _ _ _ H1). cbn. lia.
  - rw (write_addr _ _ _ _ H2); [|right; lia]. apply (write_addr _ _ _ _ H1). right. lia.
Qed.

Lemma send_new_ip d fe c id : entry_ok false fe →
  ∃ e id', send_new false d fe c id = Ok ([e], id') ∧ ip_out d fe c e ∧ True.
Proof.
  intros [_ (src & dst & Es & Ed & Hs & Hd)]. unfold Forwarder.send_new. rw Es Ed.
  cbn [deref or_fault mbind res_mbind res_bind].
  match goal with |- context [write 10 (mem2 ?k) ?i] => set (x := k); set (ip := i) end.
  assert (length ip = 20%nat) as Lip by (subst ip; rw !length_app Hs Hd; done).
  assert (take 8 (drop 12 ip) = src ++ dst) as Aip.
  { subst ip. rw !app_assoc. rw -(app_assoc _ src dst). rw drop_app_length'; [|done].
    rw take_ge; [done|rw length_app; lia]. }
  clearbody ip x. rw write_ok; [|rw mem2_length; lia]. cbn [mbind res_mbind res_bind].
  set (ip' := take 10 ip ++ mem2 x ++ drop (10 + length (mem2 x)) ip).
  assert (write 10 (mem2 x) ip = Ok ip') as Hw by (apply write_ok; rw mem2_length; lia).
  pose proof (write_length _ _ _ _ Hw) as Lw. assert (take 8 (drop 12 ip') = src ++ dst) as Aw.
  { rw (write_addr _ _ _ _ Hw) //. left. by rw mem2_length. }
  clearbody ip'. match goal with |- context [udp_sum _ _ ?l _] => set (len := l) end.
  match goal with |- context [udp_sum _ _ len (ip' ++ ?u ++ d)] => set (udp := u) end.
  assert (length udp = 8%nat) as Lu by done. clearbody udp len.
  destruct (udp_sum_ok len (ip' ++ udp ++ d)) as (q & -> & Lq & Dq & Aq); [rw !length_app; lia|].
  cbn. eexists _, _. split; [done|]. split; [|done]. eexists. split; [done|]. split_and!.
  - rw Lq !length_app. lia.
  - rw Dq app_assoc. by rw drop_app_length'; [|rw length_app; lia].
  - rw Aq drop_app_le; [|lia]. rw take_app_le; [|rw length_drop; lia]. by rw Aw Es Ed.
Qed.

Lemma write_some off src d : (off + length src ≤ length d)%nat →
  ∃ q, write off src d = Ok q ∧ length q = length d ∧ (∀ n, (off + length src ≤ n)%nat → drop n q = drop n d) ∧
    ((off + length src ≤ 12)%nat ∨ (20 ≤ off)%nat → take 8 (drop 12 q) = take 8 (drop 12 d)).
Proof.
  intros H. eexists. pose proof (write_ok _ _ _ H) as W. split_and!; [done|by apply (write_length _ _ _ _ W)| |].
  - intros n. apply (write_drop _ _ _ _ _ W).
  - apply (write_addr _ _ _ _ W).
Qed.

(** Peel one write. *)
Ltac peel_write :=
  lazymatch goal with |- context [write ?off ?src ?d] =>
    let q := fresh "q" in let W := fresh "W" in let L := fresh "L" in let D := fresh "D" in let A := fresh "A" in
    destruct (write_some off src d) as (q & W & L & D & A); [rw ?mem2_length; cbn; lia|];
    rw W; cbn [mbind res_mbind res_bind]
  end.

Lemma send_on_ip proto d fe c id : entry_ok false fe → (28 ≤ length d)%nat →
  ∃ e id', send_on false proto d fe c id = Ok ([e], id') ∧ ip_out (drop 28 d) fe c e ∧ True.
Proof.
  intros [_ (src & dst & Es & Ed & Hs & Hd)] Hl. unfold Forwarder.send_on. rw Es Ed.
  cbn [deref or_fault mbind res_mbind res_bind].
  destruct (write_some 12 src d) as (q & W & L & D & _); [lia|]. rw W. cbn [mbind res_mbind res_bind].
  destruct (write_some 16 dst q) as (q0 & W0 & L0 & D0 & _); [lia|]. rw W0. cbn [mbind res_mbind res_bind].
  assert (take 8 (drop 12 q0) = src ++ dst) as A0.
  { rw write_ok in W0; [|lia].
    assert (take 4 (drop 12 q) = src) as As.
    { rw write_ok in W; [|lia]. revert W. intros [= <-]. rw drop_app_length'; [|rw length_take; lia].
      by rw take_app_length'; [|lia]. }
    revert W0. intros [= <-]. assert (take 16 q = take 12 q ++ src) as ->.
    { rw -As. rw -{1}(take_drop 12 q). rw take_app_ge; [|rw length_take; lia]. do 2 f_equal. rw length_take. lia. }
    rw -app_assoc. rw drop_app_length'; [|rw length_take; lia]. rw app_assoc.
    rw take_app_length'; [done|rw length_app; lia]. }
  do 5 peel_write.
  match goal with |- context [udp_sum _ _ ?l q5] =>
    destruct (udp_sum_ok l q5) as (q6 & -> & Lq & Dq & Aq); [lia|] end.
  cbn. eexists _, _. split; [done|]. split; [|done]. eexists. split; [done|]. split_and!.
  - rw Lq length_drop. lia.
  - rw Dq D5 ?D4 ?D3 ?D2 ?D1 ?D0 ?D //; rw ?mem2_length; cbn; lia.
  - rw Aq A4 ?A3 ?A2 ?A1 ?A ?A0 ?Es ?Ed //; rw ?mem2_length; cbn; lia.
Qed.
End frames.

(** ** The two halves of [push] *)

(** What a table must satisfy for the node's mode. *)
Record forwarder_ok (gc : gconf) (s : forwarder) : Prop := {
  fo_table : Forall (entry_ok (use_mac gc)) (fwTable s);
  fo_iLID : FID_ok (iLID gc);
}.

Definition proto_of (d : bytes) : Z := nth 12 d 0 * 256 + nth 13 d 0.

(** Where the forwarding identifier of a frame starts. *)
Definition FID_off (use_mac : bool) (d : bytes) : nat :=
  if use_mac then if proto_of d =? PROTO_SDN then (MAC_HEADER + 8)%nat else MAC_HEADER
  else (IP_HEADER + UDP_HEADER)%nat.

Definition FID_at (off : nat) (d : bytes) : BABitvector := FID_of_bytes (take FID_LEN (drop off d)).

Definition all_ones (v : BABitvector) : bool := forallb (bv_bit v) (seq 0 256).

(** The frame came over this link: its addresses are those of the link in the
    other direction, or it was sent by this node or to the same destination. *)
Definition came_from (use_mac : bool) (d : bytes) (fe : ForwardingEntry) : bool :=
  if use_mac then
    let dst := take MAC_LEN d in let src := take MAC_LEN (drop MAC_LEN d) in
    bool_decide (src = addr (fe_dst fe) ∧ dst = addr (fe_src fe) ∨ src = addr (fe_src fe) ∨ dst = addr (fe_dst fe))
  else
    bool_decide (take 4 (drop 12 d) = addr (fe_dst_ip fe) ∧ take 4 (drop 16 d) = addr (fe_src_ip fe)).

(** The links a frame of the network is sent to. *)
Definition network_links (use_mac : bool) (d : bytes) (l : list ForwardingEntry) : list ForwardingEntry :=
  let FID := FID_at (FID_off use_mac d) d in
  if all_ones FID then [] else List.filter (λ fe, includes FID (fe_LID fe) && negb (came_from use_mac d fe)) l.

Definition local_events (gc : gconf) (d : bytes) : list event :=
  let off := FID_off (use_mac gc) d in
  if includes (FID_at off d) (iLID gc) then [Out 0 Orig (drop off d)] else [].

Lemma FID_at_ok off d : (off + FID_LEN ≤ length d)%nat → Forall is_byte d → FID_ok (FID_at off d).
Proof.
  intros Hl Hb. apply FID_of_bytes_ok; [rw length_take length_drop; lia|]. by apply Forall_take, Forall_drop.
Qed.

Lemma all_ones_iff v : all_ones v = true ↔ ∀ i, (i < 256)%nat → bv_bit v i = true.
Proof.
  unfold all_ones. rw forallb_forall. split; intros H i Hi.
  - apply H, in_seq. lia.
  - apply H. apply in_seq in Hi. lia.
Qed.

Lemma negate_all_ones v : FID_ok v →
  ∃ t, BABitvector_negate v = Ok t ∧ BABitvector_zero t = all_ones v.
Proof.
  intros H. destruct (negate_spec v) as (t & Ht & Hw & Hm & Hbit); [apply H|].
  exists t. split; [done|]. apply eq_bool_prop_intro. rw !Is_true_true BABitvector_zero_bits // all_ones_iff.
  assert (bv_len t = 256%nat) as Lt by (apply FID_ok_len; split; [done|rw Hm; apply H]).
  rw Lt. rw (FID_ok_len _ H) in Hbit. split; intros E i Hi; specialize (E i Hi).
  - rw Hbit // in E. by destruct (bv_bit v i).
  - rw Hbit // E //.
Qed.

Section proxy.
Context (in_cksum : bytes → Z) (in_cksum_pseudohdr : Z → bytes → Z → Z).

Lemma push_proxy_shape (R : relation Z) `{!PreOrder R} gc d s (P : ForwardingEntry → copy → event → Prop) :
  forwarder_ok gc s → (FID_LEN ≤ length d)%nat → Forall is_byte d →
  let out := links_of (FID_at 0 d) (fwTable s) in
  (∀ fe c id, fe ∈ out →
     ∃ e id', send_new in_cksum in_cksum_pseudohdr (use_mac gc) d fe c id = Ok ([e], id') ∧ P fe c e ∧ R id id') →
  ∃ es id', push_proxy in_cksum in_cksum_pseudohdr gc d s =
      Ok ((if (length out =? 0)%nat then [Killed Orig] else []) ++ es, id') ∧
    Forall2 (λ fc e, P fc.1 fc.2 e) (tags false out) es ∧ R (fw_id s) id'.
Proof.
  intros [Ht Hi] Hl Hb out Hsend. unfold push_proxy. rw data_read_ok; [|lia]. cbn [mbind res_mbind res_bind].
  change (FID_of_bytes (take FID_LEN (drop 0 d))) with (FID_at 0 d).
  rw (select_filter (λ fe, includes (FID_at 0 d) (fe_LID fe))); last first.
  { intros fe Hfe. apply matches_includes; [by apply FID_at_ok|].
    by apply (eo_LID (use_mac gc)), (proj1 (Forall_forall _ _) Ht). }
  change (List.filter _ (fwTable s)) with out. cbn [mbind res_mbind res_bind].
  destruct (send_links_tags R (send_new in_cksum in_cksum_pseudohdr (use_mac gc) d) P false out (length out) 1 (fw_id s))
    as (es & id' & -> & HF & HR); [done|lia|].
  cbn. by exists es, id'.
Qed.

End proxy.

Section push.
Context (unparse : bytes → bytes) (in_cksum : bytes → Z) (in_cksum_pseudohdr : Z → bytes → Z → Z).

(** [unparse] prints the six bytes, so it tells addresses apart. *)
Definition prints_addresses : Prop :=
  ∀ a b, length a = MAC_LEN → length b = MAC_LEN → unparse a = unparse b → a = b.

Lemma unparse_eq (Hu : prints_addresses) a b : length a = MAC_LEN → length b = MAC_LEN →
  bool_decide (unparse a = unparse b) = bool_decide (a = b).
Proof. intros Ha Hb. apply bool_decide_ext. split; [auto|by intros ->]. Qed.

Lemma not_looped_ok use_mac d fe : prints_addresses → entry_ok use_mac fe → (20 ≤ length d)%nat →
  not_looped unparse use_mac d fe = Ok (negb (came_from use_mac d fe)).
Proof.
  intros Hu [_ Ha] Hl. unfold not_looped, came_from. destruct use_mac.
  - destruct Ha as (src & dst & Es & Ed & Hs & Hd). unfold MAC_LEN in *.
    rw data_read_ok; [|lia]. rw data_read_ok; [|lia]. rw drop_0 Es Ed.
    cbn [mbind res_mbind res_bind deref or_fault addr default from_option Datatypes.id].
    assert (length (take 6 d) = 6%nat) by (rw length_take; lia).
    assert (length (take 6 (drop 6 d)) = 6%nat) by (rw length_take length_drop; lia).
    rw !unparse_eq //. f_equal. repeat case_bool_decide; cbn; naive_solver.
  - destruct Ha as (src & dst & Es & Ed & Hs & Hd).
    rw data_read_ok; [|lia]. rw data_read_ok; [|lia]. rw Es Ed.
    cbn [mbind res_mbind res_bind deref or_fault addr default from_option Datatypes.id].
    f_equal. repeat case_bool_decide; cbn; naive_solver.
Qed.

Lemma push_network_shape (R : relation Z) `{!PreOrder R} gc d s (P : ForwardingEntry → copy → event → Prop) :
  prints_addresses → forwarder_ok gc s → (FID_off (use_mac gc) d + FID_LEN ≤ length d)%nat → Forall is_byte d →
  let out := network_links (use_mac gc) d (fwTable s) in
  let loc := local_events gc d in
  (∀ fe c id, fe ∈ fwTable s → ∃ e id',
     send_on in_cksum in_cksum_pseudohdr (use_mac gc) (if use_mac gc then proto_of d else 0) d fe c id = Ok ([e], id')
     ∧ P fe c e ∧ R id id') →
  ∃ es id', push_network unparse in_cksum in_cksum_pseudohdr gc d s =
      Ok (es ++ loc ++ (if (length out =? 0)%nat && (length loc =? 0)%nat then [Killed Orig] else []), id') ∧
    Forall2 (λ fc e, P fc.1 fc.2 e) (tags (negb (length loc =? 0)%nat) out) es ∧ R (fw_id s) id'.
Proof.
  intros Hu [Ht Hi] Hl Hb out loc Hsend.
  assert (20 ≤ length d)%nat as Hl20.
  { revert Hl. unfold FID_off, MAC_HEADER, FID_LEN, IP_HEADER. destruct (use_mac gc); [case_match|]; lia. }
  unfold push_network.
  assert ((if use_mac gc then b ← data_read d 12 2; Ok (nth 0 b 0 * 256 + nth 1 b 0) else Ok 0)
    = Ok (if use_mac gc then proto_of d else 0)) as ->.
  { destruct (use_mac gc); [|done]. rw data_read_ok; [|lia]. cbn [mbind res_mbind res_bind]. f_equal. unfold proto_of.
    do 14 (destruct d as [|? d]; [cbn in Hl20; lia|]). done. }
  cbn [mbind res_mbind res_bind].
  assert ((if use_mac gc then if (if use_mac gc then proto_of d else 0) =? PROTO_SDN then (MAC_HEADER + 8)%nat else MAC_HEADER
           else (IP_HEADER + UDP_HEADER)%nat) = FID_off (use_mac gc) d) as ->.
  { unfold FID_off. by destruct (use_mac gc). }
  rw data_read_ok //. cbn [mbind res_mbind res_bind].
  subst out loc. unfold network_links, local_events.
  change (FID_of_bytes (take FID_LEN (drop (FID_off (use_mac gc) d) d))) with (FID_at (FID_off (use_mac gc) d) d).
  pose proof (FID_at_ok _ _ Hl Hb) as HF. set (FID := FID_at (FID_off (use_mac gc) d) d) in *.
  destruct (negate_all_ones FID HF) as (t & -> & Hz). cbn [mbind res_mbind res_bind]. rw Hz.
  rw (matches_includes FID (iLID gc)) //. destruct (all_ones FID) eqn:Eo; cbn [negb mbind res_mbind res_bind].
  - exists [], (fw_id s). destruct (includes FID (iLID gc)); by split_and!.
  - rw (select_filter (λ fe, includes FID (fe_LID fe) && negb (came_from (use_mac gc) d fe))); last first.
    { intros fe Hfe. pose proof (proj1 (Forall_forall _ _) Ht _ Hfe) as Hok. unfold link_test.
      rw matches_includes //; [|by apply (eo_LID (use_mac gc))]. cbn [mbind res_mbind res_bind].
      destruct (includes FID (fe_LID fe)); [|done]. by apply not_looped_ok. }
    cbn [mbind res_mbind res_bind]. set (out := List.filter _ (fwTable s)).
    destruct (send_links_tags R (send_on in_cksum in_cksum_pseudohdr (use_mac gc) (if use_mac gc then proto_of d else 0) d)
      P (includes FID (iLID gc)) out (length out) 1 (fw_id s)) as (es & id' & -> & HFo & HR); [|lia|].
    { intros fe c id Hfe%list_elem_of_In. apply filter_In in Hfe as [Hfe _]. apply Hsend. by apply list_elem_of_In. }
    cbn [mbind res_mbind res_bind]. exists es, id'. by destruct (includes FID (iLID gc)).
Qed.
End push.

(** ** Paths *)

(** The identifier of a path or a tree: its link identifiers, or-ed together. *)
Definition path_FID (lids : list BABitvector) : res BABitvector :=
  foldl (λ r LID, FID ← r; BABitvector_or_assign FID LID) (Ok (BABitvector_make (Z.of_nat FID_LEN * 8))) lids.

Lemma path_FID_spec_aux lids FID0 : FID_ok FID0 → Forall FID_ok lids →
  ∃ FID, foldl (λ r LID, FID ← r; BABitvector_or_assign FID LID) (Ok FID0) lids = Ok FID ∧ FID_ok FID ∧
    ∀ i, (i < 256)%nat → bv_bit FID i = true ↔ bv_bit FID0 i = true ∨ ∃ LID, LID ∈ lids ∧ bv_bit LID i = true.
Proof.
  revert FID0. induction lids as [|L lids IH]; intros F0 H0 HL; cbn [foldl].
  - exists F0. split_and!; [done|done|]. intros i Hi. split; [auto|]. intros [?|(L & HL' & _)]; [done|]. by apply elem_of_nil in HL'.
  - apply Forall_cons in HL as [[W2 E2] HL]. destruct H0 as [W1 E1].
    destruct (or_implements F0 L W1 W2) as (c & Hc & Wc & Mc & Bc); [congruence|]. cbn [mbind res_mbind res_bind]. rw Hc.
    destruct (IH c) as (F & HF & OF & BF); [split; [done|congruence]|done|].
    exists F. split_and!; [done|done|]. intros i Hi. rw BF //. rw Bc; [|rw (FID_ok_len F0); [done|by split]].
    rw orb_true_iff. split.
    + intros [[?|?]|(K & HK & HB)]; [by left|right; exists L; split; [by left|done]|right; exists K; split; [by right|done]].
    + intros [?|(K & HK & HB)]; [by left; left|]. apply elem_of_cons in HK as [->|HK]; [by left; right|].
      right. by exists K.
Qed.

Lemma path_FID_spec lids : Forall FID_ok lids →
  ∃ FID, path_FID lids = Ok FID ∧ FID_ok FID ∧
    ∀ i, (i < 256)%nat → bv_bit FID i = true ↔ ∃ LID, LID ∈ lids ∧ bv_bit LID i = true.
Proof.
  intros HL. destruct (BABitvector_make_zeros (Z.of_nat FID_LEN * 8)) as (Hwf & Hm & Hz); [lia|].
  destruct (path_FID_spec_aux lids (BABitvector_make (Z.of_nat FID_LEN * 8))) as (F & HF & OF & BF); [by split|done|].
  exists F. split_and!; [done|done|]. intros i Hi. rw BF // Hz. naive_solver.
Qed.

Lemma matches_iff FID LID : FID_ok FID → FID_ok LID →
  matches FID LID = Ok true ↔ ∀ i, (i < 256)%nat → bv_bit LID i = true → bv_bit FID i = true.
Proof. intros HF HL. rw matches_includes // -includes_iff. split; [by intros [= ->]|by intros ->]. Qed.
