(* ===== verification/Forwarding.v ===== *)
(** * Properties of the forwarder

    The theorems about src/src/forwarder.cc, each with the input on which it
    is tried: a node with one link of each kind. *)

From S2P Require Import Prelude Enums BitVector Packet GlobalConf Forwarder ForwarderProofs.

(** ** A node *)

Module Node.
Definition LID (n : nat) : bytes := replicate (255 - n) 48 ++ [49] ++ replicate n 48.
Definition link (port : Z) (src dst : Z) (proto : Z) (n : nat) : link_args :=
  mkLink port (replicate 6 src) (replicate 6 dst) proto (LID n).
(** A link to a forwarder and a link to a switch *)
Definition mac_links : list link_args := [link 1 10 11 PROTO_BA 0; link 2 10 12 PROTO_SDN 1].
Definition ip_links : list link_args :=
  [mkLink 1 [10; 0; 0; 1] [10; 0; 0; 2] 0 (LID 0); mkLink 2 [10; 0; 0; 1] [10; 0; 0; 3] 0 (LID 1)].
Definition ok {A} (d : A) (r : res A) : A := match r with Ok x => x | Fault _ => d end.
Definition fw (use_mac : bool) (l : list link_args) : forwarder := ok (mkFw 0 0 []) (Forwarder_configure use_mac l).
Definition bv (s : bytes) : BABitvector := ok BABitvector_empty (read_LID s).
Definition gc (use_mac : bool) : gconf :=
  mkConf [] true false false use_mac (bv []) (bv []) (bv (LID 2)) BABitvector_empty.
(** The identifiers of both links, and of this node *)
Definition fid : bytes := [7] ++ replicate 31 0.
Definition packet : bytes := fid ++ [104; 105].
Definition frame : bytes := replicate 6 1 ++ replicate 6 2 ++ [8; 10] ++ packet.
Definition datagram : bytes := replicate 28 1 ++ packet.
Definition unparse (b : bytes) : bytes := b.
Definition cksum (b : bytes) : Z := 0.
Definition pseudo (c : Z) (ip : bytes) (len : Z) : Z := c.

Lemma links_ok (use_mac : bool) : Forall (args_ok use_mac) (if use_mac then mac_links else ip_links).
Proof.
  destruct use_mac; (apply Forall_cons; split; [|apply Forall_cons; split; [|done]]);
    (split; [cbn; lia|split; [cbn; unfold PROTO_BA, PROTO_SDN; lia|done]]).
Qed.

Lemma LID_ok s : (length s ≤ 256)%nat → FID_ok (bv s).
Proof. intros H. unfold bv. destruct (parse_LID s H) as (c & -> & Hc & _). exact Hc. Qed.

Lemma fw_ok (use_mac : bool) : forwarder_ok (gc use_mac) (fw use_mac (if use_mac then mac_links else ip_links)).
Proof.
  unfold fw, Forwarder_configure. destruct (configure_links_ok _ _ (links_ok use_mac)) as (fes & E & _ & H).
  rw E. split; [exact H|]. apply LID_ok. cbn. lia.
Qed.

Lemma bytes_ok (d : bytes) : forallb (λ b, (0 <=? b) && (b <? 256)) d = true → Forall is_byte d.
Proof. intros H. apply Forall_forall. intros b Hb. rw forallb_forall in H. specialize (H b).
  rw -list_elem_of_In in H. specialize (H Hb). unfold is_byte. lia. Qed.

Lemma unparse_ok : prints_addresses unparse.
Proof. by intros a b _ _ H. Qed.

Lemma protos_ok (s : forwarder) :
  forallb (λ fe, (htons (fe_proto_type fe) =? PROTO_BA) || (htons (fe_proto_type fe) =? PROTO_SDN)) (fwTable s) = true →
  Forall (λ fe, htons (fe_proto_type fe) = PROTO_BA ∨ htons (fe_proto_type fe) = PROTO_SDN) (fwTable s).
Proof.
  rw forallb_forall Forall_forall. intros H fe Hfe%list_elem_of_In. specialize (H fe Hfe). lia.
Qed.

Definition push (use_mac : bool) (port : Z) (d : bytes) : res (list event * forwarder) :=
  Forwarder_push unparse cksum pseudo (gc use_mac) port d (fw use_mac (if use_mac then mac_links else ip_links)).
Definition entry (use_mac : bool) (i : nat) : ForwardingEntry :=
  nth i (fwTable (fw use_mac (if use_mac then mac_links else ip_links))) (mkFE None None None None 0 BABitvector_empty 0).
(** The entry of the neighbour for the other direction *)
Definition back (fe : ForwardingEntry) : ForwardingEntry :=
  mkFE (fe_dst fe) (fe_src fe) (fe_dst_ip fe) (fe_src_ip fe) 7 (fe_LID fe) (fe_proto_type fe).
End Node.

(** ** The table *)

(** [configure] builds one entry per link, in the order of the
    arguments: the port, the two addresses, the protocol type (which [ntohs]
    gives back) and the bits of the link identifier, whose last character is
    bit 0.  [cleanup] deletes each entry once. *)
Theorem forwarder_configured use_mac l (Hl : Forall (args_ok use_mac) l) :
  ∃ s, Forwarder_configure use_mac l = Ok s ∧ fw_id s = 0 ∧
    Forall2 (entry_of use_mac) l (fwTable s) ∧ Forall (entry_ok use_mac) (fwTable s) ∧
    Forwarder_cleanup true s = Ok (fwTable s) ∧ Forwarder_cleanup false s = Ok [].
Proof.
  destruct (configure_links_ok _ _ Hl) as (fes & E & HF & HO). unfold Forwarder_configure. rw E. cbn.
  eexists. split_and!; [done|done|done|done| |done]. cbn. pose proof (Forall2_length _ _ _ HF) as HL.
  unfold zlen. rw HL Z.leb_refl Nat2Z.id. by rw firstn_all.
Qed.

Lemma forwarder_configured_witness :
  ∃ s, Forwarder_configure true Node.mac_links = Ok s ∧ length (fwTable s) = 2%nat.
Proof.
  destruct (forwarder_configured true Node.mac_links (Node.links_ok true)) as (s & E & _ & HF & _).
  exists s. split; [exact E|]. symmetry. exact (Forall2_length _ _ _ HF).
Defined.

(** LIPSIN: or-ing the link identifiers of a path
    (or tree) gives a forwarding identifier that every link of it matches, so
    no branch is missed; and another link matches it exactly when each of its
    bits is a bit of some link of the path (a false positive). *)
Theorem path_identifier_matches (lids : list BABitvector) (Hl : Forall FID_ok lids) :
  ∃ FID, path_FID lids = Ok FID ∧ FID_ok FID ∧ Forall (λ LID, matches FID LID = Ok true) lids ∧
    ∀ LID, FID_ok LID →
      matches FID LID = Ok true ↔
      ∀ i, (i < 256)%nat → bv_bit LID i = true → ∃ L, L ∈ lids ∧ bv_bit L i = true.
Proof.
  destruct (path_FID_spec lids Hl) as (F & HF & OF & BF). exists F. split_and!; [done|done| |].
  - apply Forall_forall. intros L HL. apply matches_iff; [done|by apply (proj1 (Forall_forall _ _) Hl)|].
    intros i Hi HB. apply BF; [done|]. by exists L.
  - intros L OL. rw matches_iff //. split; intros H i Hi HB; apply BF, H; done.
Qed.

Lemma path_identifier_matches_witness :
  ∃ FID, path_FID [Node.bv (Node.LID 0); Node.bv (Node.LID 1)] = Ok FID ∧
    matches FID (Node.bv (Node.LID 0)) = Ok true ∧ matches FID (Node.bv (Node.LID 1)) = Ok true ∧
    matches FID (Node.bv (Node.LID 2)) = Ok false.
Proof.
  destruct (path_identifier_matches [Node.bv (Node.LID 0); Node.bv (Node.LID 1)]) as (F & HF & _ & HM & _).
  { repeat (apply Forall_cons; split); [apply Node.LID_ok; cbn; lia..|exact (Forall_nil_2 _)]. }
  exists F. split; [exact HF|]. apply Forall_cons in HM as [H1 HM]. apply Forall_cons in HM as [H2 _].
  split; [exact H1|]. split; [exact H2|].
  assert (Ok F = path_FID [Node.bv (Node.LID 0); Node.bv (Node.LID 1)]) as E by (symmetry; exact HF).
  transitivity (FID ← path_FID [Node.bv (Node.LID 0); Node.bv (Node.LID 1)]; matches FID (Node.bv (Node.LID 2))).
  - rewrite <- E. reflexivity.
  - vm_compute. reflexivity.
Defined.

(** ** Pushing a packet *)

Section push.
Context (unparse : bytes → bytes) (in_cksum : bytes → Z) (in_cksum_pseudohdr : Z → bytes → Z → Z).

Abbreviation Forwarder_push := (Forwarder_push unparse in_cksum in_cksum_pseudohdr).

Lemma push_0 gc d s es id :
  push_proxy in_cksum in_cksum_pseudohdr gc d s = Ok (es, id) →
  Forwarder_push gc 0 d s = Ok (es, mkFw id (number_of_links s) (fwTable s)).
Proof. intros E. unfold Forwarder.Forwarder_push. rw E. done. Qed.

Lemma push_1 gc port d s es id : 1 <= port →
  push_network unparse in_cksum in_cksum_pseudohdr gc d s = Ok (es, id) →
  Forwarder_push gc port d s = Ok (es, mkFw id (number_of_links s) (fwTable s)).
Proof.
  intros Hp E. unfold Forwarder.Forwarder_push. replace (port =? 0) with false by lia.
  replace (port >=? 1) with true by lia. rw E. done.
Qed.

(** The counter of IP identifiers is not tracked in IP mode. *)
Definition any : relation Z := λ _ _, True.

#[local] Instance any_preorder : PreOrder any.
Proof. by split. Qed.

Lemma mkFw_id s : mkFw (fw_id s) (number_of_links s) (fwTable s) = s.
Proof. by destruct s. Qed.

(** [C35] A packet of the LocalProxy, in MAC mode: one frame per
    link whose identifier is included in the first 32 bytes, in table order,
    on that link's port, with that link's header (and the 8 bytes that
    complete an IPv6 header on a link to a switch) before the unchanged
    packet; the last frame is the packet itself, the others are copies; with
    no link the packet is killed. *)
Theorem proxy_push_mac gc d s
    (Hs : forwarder_ok gc s) (Hm : use_mac gc = true) (Hl : (FID_LEN ≤ length d)%nat) (Hb : Forall is_byte d)
    (Hp : Forall (λ fe, htons (fe_proto_type fe) = PROTO_BA ∨ htons (fe_proto_type fe) = PROTO_SDN) (fwTable s)) :
  let out := links_of (FID_at 0 d) (fwTable s) in
  Forwarder_push gc 0 d s =
    Ok ((if (length out =? 0)%nat then [Killed Orig] else []) ++
        ((λ fc : ForwardingEntry * copy, Out (fe_port fc.1) fc.2 (frame_new fc.1 d)) <$> tags false out), s).
Proof.
  intros out. rw -{2}(mkFw_id s). apply push_0.
  destruct (push_proxy_shape in_cksum in_cksum_pseudohdr (=) gc d s
    (λ fe c e, e = Out (fe_port fe) c (frame_new fe d)) Hs Hl Hb) as (es & id' & E & HF & <-).
  { intros fe c id Hfe%list_elem_of_In. apply filter_In in Hfe as [Hfe%list_elem_of_In _].
    destruct Hs as [Ht _]. rw Hm. rw Hm in Ht. rw send_new_mac; [by eauto|..].
    - by apply (proj1 (Forall_forall _ _) Ht).
    - by apply (proj1 (Forall_forall _ _) Hp). }
  rw E. do 3 f_equal. by apply (Forall2_map (λ fc : ForwardingEntry * copy, Out (fe_port fc.1) fc.2 (frame_new fc.1 d))).
Qed.

(** [C4] A frame of the network, in MAC mode.  Its identifier
    is found after the Ethernet header, or 8 bytes later in a switch's frame.
    It is sent on every link whose identifier is included and that it did not
    come from, with the new addresses, converted between the two kinds of
    frames where they differ, and not at all when the identifier is all ones;
    it is handed to the LocalProxy without its header when the node's own
    identifier is included, and killed when neither happens. *)
Theorem network_push_mac gc port d s
    (Hu : prints_addresses unparse) (Hs : forwarder_ok gc s) (Hm : use_mac gc = true) (Hport : 1 <= port)
    (Hl : (FID_off true d + FID_LEN ≤ length d)%nat) (Hb : Forall is_byte d) :
  let out := network_links true d (fwTable s) in
  let loc := local_events gc d in
  Forwarder_push gc port d s =
    Ok (((λ fc : ForwardingEntry * copy, Out (fe_port fc.1) fc.2 (frame_on (proto_of d) fc.1 d)) <$>
           tags (negb (length loc =? 0)%nat) out) ++ loc ++
        (if (length out =? 0)%nat && (length loc =? 0)%nat then [Killed Orig] else []), s).
Proof.
  intros out loc. rw -{2}(mkFw_id s). apply push_1; [done|].
  destruct (push_network_shape unparse in_cksum in_cksum_pseudohdr (=) gc d s
    (λ fe c e, e = Out (fe_port fe) c (frame_on (proto_of d) fe d)) Hu Hs) as (es & id' & E & HF & <-).
  { by rw Hm. } { done. }
  { intros fe c id Hfe. destruct Hs as [Ht _]. rw Hm. rw Hm in Ht. rw send_on_mac; [by eauto|..].
    - by apply (proj1 (Forall_forall _ _) Ht).
    - revert Hl. unfold FID_off, MAC_HEADER, FID_LEN. case_match; lia. }
  rw E. rw Hm in HF. rw Hm. do 3 f_equal.
  by apply (Forall2_map (λ fc : ForwardingEntry * copy, Out (fe_port fc.1) fc.2 (frame_on (proto_of d) fc.1 d))).
Qed.

(** In IP mode: every packet that leaves has the 28 bytes of an IP
    and a UDP header with the addresses of its link, and then, unchanged, the
    packet of the LocalProxy or what followed the headers of the received
    packet, so the forwarding identifier is at the same place at every hop. *)
Theorem push_ip gc d s
    (Hu : prints_addresses unparse) (Hs : forwarder_ok gc s) (Hm : use_mac gc = false) (Hb : Forall is_byte d) :
  ((FID_LEN ≤ length d)%nat →
     let out := links_of (FID_at 0 d) (fwTable s) in
     ∃ es s', Forwarder_push gc 0 d s = Ok ((if (length out =? 0)%nat then [Killed Orig] else []) ++ es, s') ∧
       fwTable s' = fwTable s ∧ Forall2 (λ fc e, ip_out d fc.1 fc.2 e) (tags false out) es) ∧
  (∀ port, 1 <= port → (28 + FID_LEN ≤ length d)%nat →
     let out := network_links false d (fwTable s) in
     let loc := local_events gc d in
     ∃ es s', Forwarder_push gc port d s = Ok (es ++ loc ++
         (if (length out =? 0)%nat && (length loc =? 0)%nat then [Killed Orig] else []), s') ∧
       fwTable s' = fwTable s ∧
       Forall2 (λ fc e, ip_out (drop 28 d) fc.1 fc.2 e) (tags (negb (length loc =? 0)%nat) out) es).
Proof.
  pose proof (fo_table _ _ Hs) as Ht. rw Hm in Ht. rw Forall_forall in Ht. split.
  - intros Hl out.
    destruct (push_proxy_shape in_cksum in_cksum_pseudohdr any gc d s
      (λ fe c e, ip_out d fe c e) Hs Hl Hb) as (es & id' & E & HF & _).
    { intros fe c id Hfe%list_elem_of_In. apply filter_In in Hfe as [Hfe%list_elem_of_In _]. rw Hm.
      apply send_new_ip; auto. }
    eexists es, _. split; [by apply push_0|done].
  - intros port Hport Hl out loc.
    destruct (push_network_shape unparse in_cksum in_cksum_pseudohdr any gc d s
      (λ fe c e, ip_out (drop 28 d) fe c e) Hu Hs) as (es & id' & E & HF & _).
    { rw Hm. exact Hl. } { done. }
    { intros fe c id Hfe. rw Hm. apply send_on_ip; [auto|lia]. }
    rw Hm in HF. rw Hm in E. eexists es, _. split; [by apply push_1|done].
Qed.

Lemma send_new_any use_mac d fe c id : entry_ok use_mac fe →
  ∃ e id', send_new in_cksum in_cksum_pseudohdr use_mac d fe c id = Ok ([e], id') ∧ event_copy e = c ∧ True.
Proof.
  intros H. destruct use_mac.
  - unfold send_new. rw mac_header_ok //. cbn. repeat case_match; eexists _, _; done.
  - destruct (send_new_ip in_cksum in_cksum_pseudohdr d fe c id H) as (e & id' & E & (q & -> & _) & _).
    eexists _, _. split; [exact E|done].
Qed.

Lemma send_on_any use_mac proto d fe c id : entry_ok use_mac fe → (28 ≤ length d)%nat →
  ∃ e id', send_on in_cksum in_cksum_pseudohdr use_mac proto d fe c id = Ok ([e], id') ∧ event_copy e = c ∧ True.
Proof.
  intros H Hl. destruct use_mac.
  - rw send_on_mac //; [|unfold MAC_HEADER; lia]. by eexists _, _.
  - destruct (send_on_ip in_cksum in_cksum_pseudohdr proto d fe c id H Hl) as (e & id' & E & (q & -> & _) & _).
    eexists _, _. split; [exact E|done].
Qed.

(** [C36] Click's ownership rule: in both modes, from any port,
    the packet handed to [push] is used exactly once -- pushed to a device, or
    to the LocalProxy, or killed (or dropped without either on a link with an
    unknown protocol type); everything else that is pushed is a copy. *)
Theorem packet_used_once gc port d s
    (Hu : prints_addresses unparse) (Hs : forwarder_ok gc s) (Hport : 0 <= port) (Hb : Forall is_byte d)
    (Hl : ((if (port =? 0)%Z then 0 else FID_off (use_mac gc) d) + FID_LEN ≤ length d)%nat) :
  ∃ es s', Forwarder_push gc port d s = Ok (es, s') ∧ fwTable s' = fwTable s ∧ uses es = 1%nat.
Proof.
  pose proof (fo_table _ _ Hs) as Ht. rw Forall_forall in Ht. destruct (port =? 0) eqn:Ep.
  - assert (port = 0) as -> by lia.
    destruct (push_proxy_shape in_cksum in_cksum_pseudohdr any gc d s
      (λ fe c e, event_copy e = c) Hs Hl Hb) as (es & id' & E & HF & _).
    { intros fe c id Hfe%list_elem_of_In. apply filter_In in Hfe as [Hfe%list_elem_of_In _].
      apply send_new_any; auto. }
    eexists _, _. split; [by apply push_0|]. split; [done|]. rw uses_app (uses_tags _ _ _ HF).
    by destruct (links_of (FID_at 0 d) (fwTable s)).
  - destruct (push_network_shape unparse in_cksum in_cksum_pseudohdr any gc d s
      (λ fe c e, event_copy e = c) Hu Hs Hl Hb) as (es & id' & E & HF & _).
    { intros fe c id Hfe. apply send_on_any; [auto|]. revert Hl.
      unfold FID_off, MAC_HEADER, IP_HEADER, UDP_HEADER, FID_LEN. destruct (use_mac gc); [case_match|]; lia. }
    eexists _, _. split; [apply push_1; [lia|done]|]. split; [done|]. rw !uses_app (uses_tags _ _ _ HF).
    unfold local_events. destruct (includes _ _), (network_links _ _ _); done.
Qed.

(** Two forwarders on a link: the frame or datagram that
    one sends over its entry [fe] is never sent back by the other over the
    entry [fe'] for the opposite direction, whatever the identifiers are. *)
Theorem no_packet_returns use_mac d fe fe' c c' id id' proto port q FID (new : bool)
    (Hfe : entry_ok use_mac fe) (Hfe' : entry_ok use_mac fe') (Hl : (28 ≤ length d)%nat)
    (Hback : fe_src fe' = fe_dst fe ∧ fe_dst fe' = fe_src fe ∧
             fe_src_ip fe' = fe_dst_ip fe ∧ fe_dst_ip fe' = fe_src_ip fe)
    (Hproto : new = true → use_mac = true →
              htons (fe_proto_type fe) = PROTO_BA ∨ htons (fe_proto_type fe) = PROTO_SDN)
    (Hu : prints_addresses unparse) (HF : FID_ok FID)
    (Hsend : (if new then send_new in_cksum in_cksum_pseudohdr use_mac d fe c id
              else send_on in_cksum in_cksum_pseudohdr use_mac proto d fe c id) = Ok ([Out port c' q], id')) :
  link_test unparse use_mac q FID fe' = Ok false.
Proof.
  destruct Hback as (B1 & B2 & B3 & B4).
  enough ((20 ≤ length q)%nat ∧ came_from use_mac q fe' = true) as [Hq Hc].
  { unfold link_test. rw matches_includes //; [|by apply (eo_LID use_mac)]. cbn [mbind res_mbind res_bind].
    destruct (includes _ _); [|done]. by rw not_looped_ok // Hc. }
  destruct use_mac.
  - assert (∃ tl, q = (addr (fe_dst fe) ++ addr (fe_src fe)) ++ tl ∧ (8 ≤ length tl)%nat) as (tl & -> & Htl).
    { destruct new.
      - rw send_new_mac // in Hsend; [|auto]. revert Hsend. intros [= _ _ <- _]. unfold frame_new, header.
        eexists. rw -!app_assoc. split; [done|]. rw !length_app. lia.
      - rw send_on_mac // in Hsend; [|unfold MAC_HEADER; lia]. revert Hsend. intros [= _ _ <- _].
        unfold frame_on, header. repeat case_match; eexists; rw -!app_assoc;
          (split; [done|rw ?length_app ?length_drop; cbn; lia]). }
    destruct Hfe as [_ (src & dst & Es & Ed & Hs & Hd)]. rw Es Ed. cbn [addr default from_option Datatypes.id].
    split; [rw !length_app Hs Hd; unfold MAC_LEN; lia|]. apply bool_decide_eq_true. left. rw B1 B2 Es Ed -app_assoc.
    cbn [addr default from_option Datatypes.id]. rw drop_app_length' // take_app_length' // take_app_length' //.
  - assert (∃ payload, ip_out payload fe c (Out port c' q)) as (payload & (q' & [= _ _ <-] & Lq & _ & Aq)).
    { destruct new.
      - destruct (send_new_ip in_cksum in_cksum_pseudohdr d fe c id Hfe) as (e & id1 & E & H & _).
        rw E in Hsend. revert Hsend. intros [= -> _]. by eexists.
      - destruct (send_on_ip in_cksum in_cksum_pseudohdr proto d fe c id Hfe Hl) as (e & id1 & E & H & _).
        rw E in Hsend. revert Hsend. intros [= -> _]. by eexists. }
    split; [lia|]. apply bool_decide_eq_true. rw B3 B4.
    destruct Hfe as [_ (src & dst & Es & Ed & Hs & Hd)]. rw Es Ed. rw Es Ed in Aq.
    cbn [addr default from_option Datatypes.id] in *. split.
    + transitivity (take 4 (take 8 (drop 12 q))); [by rw take_take|]. rw Aq. by rw take_app_length'.
    + transitivity (drop 4 (take 8 (drop 12 q))).
      { change 8%nat with (4 + 4)%nat. rw -firstn_skipn_comm drop_drop. done. }
      rw Aq. by rw drop_app_length'.
Qed.

End push.

Section sdn.
Context (in_cksum : bytes → Z) (in_cksum_pseudohdr : Z → bytes → Z → Z).

(** Two hops through a switch: the frame made for the switch carries
    the switch's protocol type, has the forwarding identifier where [push]
    looks for it in such a frame, and the next forwarder that sends it to a
    Blackadder node restores every byte after the Ethernet header. *)
Theorem sdn_roundtrip d fe1 fe2 c id
    (H1 : entry_ok true fe1) (H2 : entry_ok true fe2)
    (P1 : fe_proto_type fe1 = htons PROTO_SDN) (P2 : fe_proto_type fe2 = htons PROTO_BA)
    (Hl : (MAC_HEADER + FID_LEN ≤ length d)%nat) :
  ∃ q, send_on in_cksum in_cksum_pseudohdr true PROTO_BA d fe1 c id = Ok ([Out (fe_port fe1) c q], id) ∧
    proto_of q = PROTO_SDN ∧ FID_at (FID_off true q) q = FID_at MAC_HEADER d ∧
    send_on in_cksum in_cksum_pseudohdr true (proto_of q) q fe2 c id =
      Ok ([Out (fe_port fe2) c (header fe2 ++ drop MAC_HEADER d)], id).
Proof.
  exists (frame_on PROTO_BA fe1 d). rw send_on_mac //; [|unfold MAC_HEADER in *; lia]. split; [done|].
  assert (htons (fe_proto_type fe1) = PROTO_SDN) as E1 by (rw P1; apply htons_htons; unfold PROTO_SDN; lia).
  assert (htons (fe_proto_type fe2) = PROTO_BA) as E2 by (rw P2; apply htons_htons; unfold PROTO_BA; lia).
  assert (frame_on PROTO_BA fe1 d = header fe1 ++ sdn_fill (payload_len d) ++ drop MAC_HEADER d) as ->.
  { unfold frame_on. by rw E1. }
  set (q := header fe1 ++ sdn_fill (payload_len d) ++ drop MAC_HEADER d).
  assert (length (header fe1) = MAC_HEADER) as Lh by by apply header_length.
  assert (proto_of q = PROTO_SDN) as Pq.
  { unfold q, header. destruct H1 as [_ (src & dst & Es & Ed & Hs & Hd)]. rw Es Ed.
    cbn [addr default from_option Datatypes.id]. rw -!app_assoc. unfold proto_of.
    rw !(app_nth2 dst); [|rw Hd; unfold MAC_LEN; lia..]. rw Hd.
    rw !(app_nth2 src); [|rw Hs; unfold MAC_LEN; lia..]. rw Hs P1. done. }
  rw Pq. split; [done|]. assert (drop (MAC_HEADER + 8) q = drop MAC_HEADER d) as Dq.
  { unfold q. rw app_assoc. apply drop_app_length'. by rw length_app Lh. }
  split.
  - unfold FID_at, FID_off. rw Pq Z.eqb_refl. by rw Dq.
  - rw send_on_mac //; [|unfold q; rw length_app Lh; lia]. do 4 f_equal. unfold frame_on. rw E2. by rw -Dq.
Qed.
End sdn.

(** ** The theorems on the node *)

Lemma proxy_push_mac_witness :
  ∃ q r, Node.push true 0 Node.packet = Ok ([Out 1 Clone q; Out 2 Orig r], Node.fw true Node.mac_links) ∧
    (length q, length r) = (48, 56)%nat.
Proof.
  pose proof (proxy_push_mac Node.unparse Node.cksum Node.pseudo (Node.gc true) Node.packet (Node.fw true Node.mac_links)
    (Node.fw_ok true) eq_refl ltac:(vm_compute; lia) (Node.bytes_ok Node.packet eq_refl) (Node.protos_ok (Node.fw true Node.mac_links) ltac:(vm_compute; reflexivity))) as H.
  eexists _, _. split; [etransitivity; [exact H|]; vm_compute; reflexivity|]. vm_compute. reflexivity.
Defined.

Lemma network_push_mac_witness :
  ∃ q r, Node.push true 1 Node.frame = Ok ([Out 1 Clone q; Out 2 Clone r; Out 0 Orig Node.packet], Node.fw true Node.mac_links).
Proof.
  pose proof (network_push_mac Node.unparse Node.cksum Node.pseudo (Node.gc true) 1 Node.frame (Node.fw true Node.mac_links)
    Node.unparse_ok (Node.fw_ok true) eq_refl ltac:(lia) ltac:(vm_compute; lia) (Node.bytes_ok Node.frame eq_refl)) as H.
  eexists _, _. etransitivity; [exact H|]. vm_compute. reflexivity.
Defined.

Lemma push_ip_witness : ∃ es s', Node.push false 0 Node.packet = Ok (es, s') ∧ length es = 2%nat.
Proof.
  destruct (push_ip Node.unparse Node.cksum Node.pseudo (Node.gc false) Node.packet (Node.fw false Node.ip_links)
    Node.unparse_ok (Node.fw_ok false) eq_refl (Node.bytes_ok Node.packet eq_refl)) as [H _].
  destruct H as (es & s' & E & _ & HF); [vm_compute; lia|]. exists es, s'.
  split; [etransitivity; [exact E|]; vm_compute; reflexivity|].
  symmetry. etransitivity; [|exact (Forall2_length _ _ _ HF)]. vm_compute. reflexivity.
Defined.

Lemma packet_used_once_witness :
  ∃ es s', Node.push false 2 Node.datagram = Ok (es, s') ∧ uses es = 1%nat.
Proof.
  destruct (packet_used_once Node.unparse Node.cksum Node.pseudo (Node.gc false) 2 Node.datagram (Node.fw false Node.ip_links)
    Node.unparse_ok (Node.fw_ok false) ltac:(lia) (Node.bytes_ok Node.datagram eq_refl) ltac:(vm_compute; lia)) as (es & s' & E & _ & H).
  exists es, s'. split; [exact E|exact H].
Defined.

Lemma entry_ok_0 : entry_ok true (Node.entry true 0).
Proof.
  pose proof (fo_table _ _ (Node.fw_ok true)) as H. rw Forall_forall in H. apply H.
  apply list_elem_of_In, nth_In. vm_compute. lia.
Qed.

Lemma entry_ok_1 : entry_ok true (Node.entry true 1).
Proof.
  pose proof (fo_table _ _ (Node.fw_ok true)) as H. rw Forall_forall in H. apply H.
  apply list_elem_of_In, nth_In. vm_compute. lia.
Qed.

Lemma no_packet_returns_witness :
  ∃ q, send_on Node.cksum Node.pseudo true PROTO_BA Node.frame (Node.entry true 0) Orig 0 = Ok ([Out 1 Orig q], 0) ∧
    link_test Node.unparse true q (FID_at 14 q) (Node.back (Node.entry true 0)) = Ok false.
Proof.
  eexists. split; [vm_compute; reflexivity|].
  apply (no_packet_returns Node.unparse Node.cksum Node.pseudo true Node.frame (Node.entry true 0) (Node.back (Node.entry true 0))
    Orig Orig 0 0 PROTO_BA 1 _ _ false).
  - exact entry_ok_0.
  - split; [exact (eo_LID _ _ entry_ok_0)|].
    destruct (eo_addr _ _ entry_ok_0) as (src & dst & Es & Ed & Hs & Hd). exists dst, src. cbn. split_and!; assumption.
  - vm_compute. lia.
  - repeat split.
  - discriminate.
  - exact Node.unparse_ok.
  - apply FID_at_ok; [vm_compute; lia|apply Node.bytes_ok; reflexivity].
  - vm_compute. reflexivity.
Defined.

Lemma sdn_roundtrip_witness :
  ∃ q, send_on Node.cksum Node.pseudo true PROTO_BA Node.frame (Node.entry true 1) Orig 0 = Ok ([Out 2 Orig q], 0) ∧
    proto_of q = PROTO_SDN.
Proof.
  destruct (sdn_roundtrip Node.cksum Node.pseudo Node.frame (Node.entry true 1) (Node.entry true 0) Orig 0
    entry_ok_1 entry_ok_0 ltac:(vm_compute; reflexivity) ltac:(vm_compute; reflexivity) ltac:(vm_compute; lia)) as (q & E & Hq & _).
  exists q. split; [exact E|exact Hq].
Defined.
