(* ===== verification/PendingLRU.v ===== *)
(** * The list of pending control messages

    Model of Pending_LRU and Pending_LRU_Object
    (src/src/controlreliability.{hh,cc}): a doubly linked list through the
    objects, from [tail] (the oldest) to [head] (the newest), a table from
    acknowledgement identifiers to objects and a table of sending times.
    Objects live in a heap; [prev] and [next] are addresses or NULL.  The
    clock is an argument.  The specification is a plain list of entries,
    oldest first, and every operation refines its function on that list. *)

From Stdlib Require Import Sorted.
From S2P Require Import Prelude.

(** [#define]s of controlreliability.hh *)
Definition CPR_LRU_SIZE : nat := 100.
Definition CPR_STATE_SIZE : nat := 100.
Definition CPR_MAX_RETRANSMISSIONS : Z := 3.
Definition CPR_TIMER_EXPIRATION : Z := 1000.

(** ** The concrete list *)

Record Pending_LRU_Object := mkObj {
  o_prev : option ptr;
  o_next : option ptr;
  ackID : Z;
  o_data : bytes;
  retransmissions : Z;
}.

Record Pending_LRU := mkLRU {
  heap : gmap ptr Pending_LRU_Object;
  fresh : ptr;
  objects : gmap Z ptr;
  sent_times : gmap Z Z;
  lru_head : option ptr;
  lru_tail : option ptr;
}.

Definition lru0 : Pending_LRU := mkLRU ∅ 0%nat ∅ ∅ None None.

Definition set_heap m s := mkLRU m (fresh s) (objects s) (sent_times s) (lru_head s) (lru_tail s).
Definition set_objects o s := mkLRU (heap s) (fresh s) o (sent_times s) (lru_head s) (lru_tail s).
Definition set_times t s := mkLRU (heap s) (fresh s) (objects s) t (lru_head s) (lru_tail s).
Definition set_head p s := mkLRU (heap s) (fresh s) (objects s) (sent_times s) p (lru_tail s).
Definition set_tail p s := mkLRU (heap s) (fresh s) (objects s) (sent_times s) (lru_head s) p.

Definition with_prev p o := mkObj p (o_next o) (ackID o) (o_data o) (retransmissions o).
Definition with_next p o := mkObj (o_prev o) p (ackID o) (o_data o) (retransmissions o).
Definition with_retrans n o := mkObj (o_prev o) (o_next o) (ackID o) (o_data o) n.

Definition L (A : Type) : Type := M Pending_LRU A.

Definition get_obj (p : ptr) : L Pending_LRU_Object := λ s,
  match heap s !! p with Some o => Ok (o, s) | None => Fault UseAfterFree end.
Definition upd_obj (p : ptr) (f : Pending_LRU_Object → Pending_LRU_Object) : L () := λ s,
  match heap s !! p with
  | Some o => Ok ((), set_heap (<[p := f o]> (heap s)) s) | None => Fault UseAfterFree end.
Definition delete_obj (p : ptr) : L () := λ s,
  match heap s !! p with
  | Some _ => Ok ((), set_heap (delete p (heap s)) s) | None => Fault UseAfterFree end.
Definition deref (p : option ptr) : L ptr := lift_opt NullDeref p.

Definition Pending_LRU_Object_new (_ackID : Z) (_data : bytes) : L ptr := λ s,
  Ok (fresh s, mkLRU (<[fresh s := mkObj None None _ackID _data 0]> (heap s)) (S (fresh s))
                 (objects s) (sent_times s) (lru_head s) (lru_tail s)).

(** [tail = obj->next; tail->prev = NULL;] *)
Definition unlink_tail (obj : ptr) : L () :=
  o ← get_obj obj;
  modify (set_tail (o_next o));;
  t ← deref (o_next o); upd_obj t (with_prev None).

(** [obj->next->prev = obj->prev; obj->prev->next = obj->next;] *)
Definition unlink_middle (obj : ptr) : L () :=
  o ← get_obj obj; n ← deref (o_next o); upd_obj n (with_prev (o_prev o));;
  o ← get_obj obj; p ← deref (o_prev o); upd_obj p (with_next (o_next o)).

Definition head_ackID : L Z := h ← gets lru_head; h ← deref h; o ← get_obj h; mret (ackID o).
Definition tail_ackID : L Z := t ← gets lru_tail; t ← deref t; o ← get_obj t; mret (ackID o).

Definition Pending_LRU_update (_ackID now : Z) : L bool :=
  obj ← gets (λ s, objects s !! _ackID); obj ← deref obj;
  modify (λ s, set_times (<[_ackID := now]> (sent_times s)) s);;
  o ← get_obj obj;
  hid ← head_ackID;
  if ackID o =? hid then mret true else
  tid ← tail_ackID;
  n ← gets (λ s, size (objects s));
  (if (ackID o =? tid) && negb (n =? 1)%nat then unlink_tail obj else unlink_middle obj);;
  h ← gets lru_head; h ← deref h;
  upd_obj h (with_next (Some obj));;
  upd_obj obj (with_prev (Some h));;
  modify (set_head (Some obj));;
  mret false.

Definition Pending_LRU_remove (_ackID : Z) : L bool :=
  obj ← gets (λ s, objects s !! _ackID);
  match obj with
  | None => mret true
  | Some obj =>
      n ← gets (λ s, size (objects s));
      (if negb (n =? 1)%nat then
         o ← get_obj obj;
         hid ← head_ackID;
         if ackID o =? hid then
           p ← deref (o_prev o); upd_obj p (with_next None);;
           modify (set_head (o_prev o))
         else
           tid ← tail_ackID;
           if ackID o =? tid then unlink_tail obj else unlink_middle obj
       else modify (set_head None);; modify (set_tail None));;
      modify (λ s, set_times (delete _ackID (sent_times s)) s);;
      modify (λ s, set_objects (delete _ackID (objects s)) s);;
      delete_obj obj;;
      mret false
  end.

(** [while (objects.size() > max_num_of_pending_requests) remove(tail->ackID)] *)
Fixpoint evict (fuel : nat) : L () :=
  match fuel with
  | O => throw OutOfFuel
  | S fuel =>
      n ← gets (λ s, size (objects s));
      if (n <=? CPR_LRU_SIZE)%nat then mret () else
      tid ← tail_ackID; _ ← Pending_LRU_remove tid; evict fuel
  end.

Definition Pending_LRU_insert (_obj : ptr) (_ackID now : Z) : L bool :=
  old ← gets (λ s, objects s !! _ackID);
  match old with
  | Some _ => _ ← Pending_LRU_update _ackID now; mret true
  | None =>
      n ← gets (λ s, size (objects s)); evict (S n);;
      modify (λ s, set_objects (<[_ackID := _obj]> (objects s)) s);;
      modify (λ s, set_times (<[_ackID := now]> (sent_times s)) s);;
      h ← gets lru_head;
      match h with
      | None => modify (set_head (Some _obj));; modify (set_tail (Some _obj))
      | Some h =>
          upd_obj h (with_next (Some _obj));;
          upd_obj _obj (with_prev (Some h));;
          modify (set_head (Some _obj))
      end;;
      mret false
  end.

(** ** The specification *)

Record entry := mkEntry { e_id : Z; e_data : bytes; e_retrans : Z; e_time : Z }.

Definition at_time (now : Z) (e : entry) : entry := mkEntry (e_id e) (e_data e) (e_retrans e) now.

(** Entries are listed from the oldest to the newest. *)
Definition spec_remove (k : Z) (l : list entry) : list entry := filter (λ e, e_id e ≠ k) l.
Definition spec_update (k now : Z) (l : list entry) : list entry :=
  spec_remove k l ++ (at_time now <$> filter (λ e, e_id e = k) l).
Definition spec_evict (l : list entry) : list entry := drop (length l - CPR_LRU_SIZE) l.
Definition spec_insert (k : Z) (data : bytes) (now : Z) (l : list entry) : list entry :=
  if decide (k ∈ e_id <$> l) then spec_update k now l
  else spec_evict l ++ [mkEntry k data 0 now].

(** ** Representation *)

Definition obj_of (pv nx : option ptr) (e : entry) : Pending_LRU_Object :=
  mkObj pv nx (e_id e) (e_data e) (e_retrans e).

(** The objects of [l], linked from the left to the right, the first one
    having [pv] before it.  The [next] of the last one is not constrained:
    [update] leaves an old address there. *)
Fixpoint seg (m : gmap ptr Pending_LRU_Object) (pv : option ptr) (l : list (ptr * entry)) : Prop :=
  match l with
  | [] => True
  | (p, e) :: l =>
      (∃ nx, m !! p = Some (obj_of pv nx e) ∧ (l ≠ [] → nx = fst <$> head l)) ∧ seg m (Some p) l
  end.

Record repr (s : Pending_LRU) (l : list (ptr * entry)) : Prop := {
  rp_seg : seg (heap s) None l;
  rp_ptrs : NoDup l.*1;
  rp_ids : NoDup (e_id <$> l.*2);
  rp_head : lru_head s = fst <$> last l;
  rp_tail : lru_tail s = fst <$> head l;
  rp_objects : ∀ k p, objects s !! k = Some p ↔ ∃ e, (p, e) ∈ l ∧ e_id e = k;
  rp_times : ∀ k t, sent_times s !! k = Some t ↔ ∃ p e, (p, e) ∈ l ∧ e_id e = k ∧ e_time e = t;
  rp_size : size (objects s) = length l;
  rp_fresh : ∀ p, is_Some (heap s !! p) → (p < fresh s)%nat;
}.

(** ** Segments *)

Definition last_ptr (pv : option ptr) (l : list (ptr * entry)) : option ptr :=
  match last l with Some q => Some q.1 | None => pv end.

Lemma last_ptr_cons pv p e l : last_ptr pv ((p, e) :: l) = last_ptr (Some p) l.
Proof. unfold last_ptr. rw last_cons. by destruct (last l). Qed.

Lemma seg_frame m m' pv l : (∀ p, p ∈ l.*1 → m' !! p = m !! p) → seg m pv l → seg m' pv l.
Proof.
  revert pv. induction l as [|[p e] l IH]; intros pv Hf; [done|]. intros [(nx & Hp & Hn) Hs]. split.
  - exists nx. split; [|done]. rw Hf; [done|by left].
  - apply IH; [|done]. intros q Hq. apply Hf. by right.
Qed.

Lemma seg_app m pv a b : seg m pv (a ++ b) → seg m pv a ∧ seg m (last_ptr pv a) b.
Proof.
  revert pv. induction a as [|[p e] a IH]; intros pv; [done|]. cbn [app seg]. rw last_ptr_cons.
  intros [(nx & Hp & Hn) [Ha Hb]%IH]. split; [|done]. split; [|done]. exists nx. split; [done|].
  intros Hne. rw Hn; [|by destruct a]. by destruct a.
Qed.

Lemma seg_at m pv a p e b : seg m pv (a ++ (p, e) :: b) →
  ∃ nx, m !! p = Some (obj_of (last_ptr pv a) nx e) ∧ (b ≠ [] → nx = fst <$> head b).
Proof. intros [_ H]%seg_app. destruct H as [H _]. exact H. Qed.

(** The objects of the list exist. *)
Lemma seg_in m pv l p e : seg m pv l → (p, e) ∈ l →
  ∃ pv' nx, m !! p = Some (obj_of pv' nx e).
Proof. intros Hs (a & b & ->)%list_elem_of_split. destruct (seg_at _ _ _ _ _ _ Hs) as (nx & H & _). eauto. Qed.

(** [next] of the last object is free. *)
Lemma seg_set_next m pv a q e nx o : seg m pv (a ++ [(q, e)]) → q ∉ a.*1 → m !! q = Some o →
  seg (<[q := with_next nx o]> m) pv (a ++ [(q, e)]).
Proof.
  revert pv. induction a as [|[p ep] a IH]; intros pv Hs Hq Ho.
  - destruct Hs as [(nx' & Hp & _) _]. rw Hp in Ho. injection Ho as <-. split; [|done].
    exists nx. rw lookup_insert_eq. by split.
  - cbn [app seg] in *. destruct Hs as [(nx' & Hp & Hn) Hs]. apply not_elem_of_cons in Hq as [Hne Hq]. cbn in Hne. split.
    + exists nx'. rw lookup_insert_ne //.
    + by apply IH.
Qed.

(** A new predecessor for the first object. *)
Lemma seg_set_prev m pv pv' q e b o : seg m pv ((q, e) :: b) → q ∉ b.*1 → m !! q = Some o →
  seg (<[q := with_prev pv' o]> m) pv' ((q, e) :: b).
Proof.
  intros [(nx & Hq & Hn) Hs] Hb Ho. rw Hq in Ho. injection Ho as <-. split.
  - exists nx. rw lookup_insert_eq. by split.
  - apply (seg_frame m); [|done]. intros p Hp. rw lookup_insert_ne //. set_solver.
Qed.

(** Two segments linked at their ends. *)
Lemma seg_join m pv a q e b o : seg m pv (a ++ [(q, e)]) → m !! q = Some o → o_next o = fst <$> head b →
  seg m (Some q) b → seg m pv (a ++ (q, e) :: b).
Proof.
  revert pv. induction a as [|[p ep] a IH]; intros pv Hs Ho Hn Hb; cbn [app seg] in *.
  - destruct Hs as [(nx & Hp & _) _]. rw Hp in Ho. injection Ho as <-. cbn in Hn. split; [|done]. by exists nx.
  - destruct Hs as [(nx & Hp & Hn') Hs]. split; [|by apply IH]. exists nx. split; [done|].
    intros _. rw Hn'; [|by destruct a]. by destruct a as [|[]].
Qed.

Lemma last_ptr_snoc pv a q e : last_ptr pv (a ++ [(q, e)]) = Some q.
Proof. unfold last_ptr. by rw last_snoc. Qed.

(** ** Steps *)

Lemma wp_get_obj p o Q s : heap s !! p = Some o → Q o s → wp (get_obj p) Q s.
Proof. intros E H. unfold wp, get_obj. by rw E. Qed.

Lemma wp_upd_obj p f o (Q : () → Pending_LRU → Prop) s :
  heap s !! p = Some o → Q () (set_heap (<[p := f o]> (heap s)) s) → wp (upd_obj p f) Q s.
Proof. intros E H. unfold wp, upd_obj. by rw E. Qed.

Lemma wp_delete_obj p o (Q : () → Pending_LRU → Prop) s :
  heap s !! p = Some o → Q () (set_heap (delete p (heap s)) s) → wp (delete_obj p) Q s.
Proof. intros E H. unfold wp, delete_obj. by rw E. Qed.

Lemma wp_deref p a (Q : ptr → Pending_LRU → Prop) s : p = Some a → Q a s → wp (deref p) Q s.
Proof. intros -> H. exact H. Qed.

(** Removing the tail from the list of objects. *)
Lemma wp_unlink_tail p e q eq b s (Q : () → Pending_LRU → Prop) :
  seg (heap s) None ((p, e) :: (q, eq) :: b) → NoDup (p :: q :: b.*1) →
  (∀ m, seg m None ((q, eq) :: b) → (∀ r, r ≠ q → m !! r = heap s !! r) →
     Q () (set_tail (Some q) (set_heap m s))) →
  wp (unlink_tail p) Q s.
Proof.
  intros Hs Hnd HQ. destruct Hs as [(nx & Hp & Hn) Hs]. rw Hn // in Hp.
  apply NoDup_cons in Hnd as [Hpq Hnd]. apply NoDup_cons in Hnd as [Hq Hnd].
  unfold unlink_tail. apply wp_bind. eapply wp_get_obj; [done|]. cbv beta. wp_steps.
  eapply wp_deref; [done|]. pose proof Hs as [(nx' & Hq' & _) _]. eapply wp_upd_obj; [exact Hq'|].
  cbn [set_tail set_heap heap o_next obj_of].
  refine (HQ _ (seg_set_prev _ _ _ _ _ _ _ Hs Hq Hq') _). intros r Hr. by rw lookup_insert_ne.
Qed.

(** Removing an object between two others. *)
Lemma wp_unlink_middle a q eq p e r er b s (Q : () → Pending_LRU → Prop) :
  seg (heap s) None ((a ++ [(q, eq)]) ++ (p, e) :: (r, er) :: b) →
  NoDup (((a ++ [(q, eq)]) ++ (p, e) :: (r, er) :: b).*1) →
  (∀ m, seg m None (a ++ (q, eq) :: (r, er) :: b) → (∀ x, x ≠ q → x ≠ r → m !! x = heap s !! x) →
     Q () (set_heap m s)) →
  wp (unlink_middle p) Q s.
Proof.
  intros Hs Hnd HQ. destruct (seg_app _ _ _ _ Hs) as [Ha Hb]. rw last_ptr_snoc in Hb.
  destruct Hb as [(nx & Hp & Hn) Hb]. rw Hn // in Hp.
  rw !fmap_app NoDup_app /= in Hnd. destruct Hnd as (Hna & Hdis & Hnb).
  apply NoDup_app in Hna as (Hna & Hqa & _). apply NoDup_cons in Hnb as [Hpr Hnb]. apply NoDup_cons in Hnb as [Hr _].
  assert (q ≠ p ∧ q ≠ r ∧ q ∉ b.*1) as (Hqp & Hqr & Hqb) by (specialize (Hdis q); set_solver).
  assert (r ≠ p) as Hrp by set_solver.
  unfold unlink_middle. apply wp_bind. eapply wp_get_obj; [done|]. cbv beta. apply wp_bind.
  eapply wp_deref; [done|]. apply wp_bind. pose proof Hb as [(nx' & Hr' & _) _]. eapply wp_upd_obj; [exact Hr'|].
  apply wp_bind. eapply wp_get_obj; [cbn; rw lookup_insert_ne //|]. cbv beta. apply wp_bind. eapply wp_deref; [done|].
  destruct (seg_at _ _ _ _ _ _ Ha) as (nq & Hq & _).
  eapply wp_upd_obj; [cbn; rw lookup_insert_ne //|]. cbn [set_heap heap o_next o_prev obj_of fmap option_fmap option_map head fst].
  set (m := <[q := _]> _). refine (HQ m _ _).
  - apply (seg_join _ _ _ _ _ _ (with_next (Some r) (obj_of (last_ptr None a) nq eq))); [|by rw lookup_insert_eq|done|].
    + apply seg_set_next; [|set_solver|by rw lookup_insert_ne].
      apply (seg_frame (heap s)); [|done]. intros x Hx. rw lookup_insert_ne //.
      intros ->. specialize (Hdis x). rw fmap_app in Hx. set_solver.
    + eapply seg_frame; [|exact (seg_set_prev _ _ (Some q) _ _ _ _ Hb Hr Hr')].
      intros x Hx. unfold m. rw (lookup_insert_ne _ q x); [done|]. cbn in Hx. set_solver.
  - intros x Hxq Hxr. subst m. by rw !lookup_insert_ne.
Qed.

(** ** Representation of changed states *)

Lemma filter_keep {A} (P : A → Prop) `{!∀ x, Decision (P x)} (l : list A) : (∀ x, x ∈ l → P x) → filter P l = l.
Proof.
  induction l as [|x l IH]; intros HP; [done|]. rw filter_cons decide_True; [|apply HP; by left].
  f_equal. apply IH. intros y Hy. apply HP. by right.
Qed.

Lemma filter_drop {A} (P : A → Prop) `{!∀ x, Decision (P x)} (l : list A) : (∀ x, x ∈ l → ¬ P x) → filter P l = [].
Proof.
  induction l as [|x l IH]; intros HP; [done|]. rw filter_cons decide_False; [|apply HP; by left].
  apply IH. intros y Hy. apply HP. by right.
Qed.

Lemma spec_split l a e b : NoDup (e_id <$> l) → l = a ++ e :: b →
  spec_remove (e_id e) l = a ++ b ∧ filter (λ x, e_id x = e_id e) l = [e].
Proof.
  intros Hnd ->. rw fmap_app fmap_cons NoDup_app in Hnd. destruct Hnd as (_ & Hdis & Hb).
  apply NoDup_cons in Hb as [Hb _].
  assert (∀ x, x ∈ a → e_id x ≠ e_id e) as Ha.
  { intros x Hx E. eapply (Hdis (e_id x)); [by apply list_elem_of_fmap_2|]. rw E. by left. }
  assert (∀ x, x ∈ b → e_id x ≠ e_id e) as Hb'.
  { intros x Hx E. apply Hb. rw -E. by apply list_elem_of_fmap_2. }
  unfold spec_remove. rw !filter_app !filter_cons. rw decide_False; [|by intros []]. rw decide_True //.
  rw (filter_keep _ a) // (filter_keep _ b) //. split; [done|].
  rw (filter_drop _ a); [|done]. by rw (filter_drop _ b).
Qed.

Lemma repr_perm s l l' m : repr s l → l ≡ₚ l' → seg m None l' →
  (∀ x, is_Some (m !! x) → is_Some (heap s !! x)) →
  repr (mkLRU m (fresh s) (objects s) (sent_times s) (fst <$> last l') (fst <$> head l')) l'.
Proof.
  intros [] Hp Hs Hd. split; cbn; auto.
  - by rw -Hp.
  - by rw -Hp.
  - intros k p. rw rp_objects0. by setoid_rewrite Hp.
  - intros k t. rw rp_times0. by setoid_rewrite Hp.
  - by rw rp_size0 Hp.
Qed.

Lemma id_in q x (l : list (ptr * entry)) : (q, x) ∈ l → e_id x ∈ e_id <$> l.*2.
Proof. intros H. apply list_elem_of_fmap_2. by apply (list_elem_of_fmap_2 snd _ (q, x)). Qed.

(** An object that leaves the list and the tables. *)
Lemma repr_remove s a p e b m : repr s (a ++ (p, e) :: b) → seg m None (a ++ b) →
  (∀ x, is_Some (m !! x) → is_Some (heap s !! x)) →
  repr (mkLRU m (fresh s) (delete (e_id e) (objects s)) (delete (e_id e) (sent_times s))
          (fst <$> last (a ++ b)) (fst <$> head (a ++ b))) (a ++ b).
Proof.
  intros [] Hs Hd. rw !fmap_app /= NoDup_app in rp_ptrs0. destruct rp_ptrs0 as (N1 & N2 & [N3 N4]%NoDup_cons).
  rw !fmap_app /= NoDup_app in rp_ids0. destruct rp_ids0 as (I1 & I2 & [I3 I4]%NoDup_cons).
  assert (∀ q x, (q, x) ∈ a ++ b ↔ (q, x) ∈ a ++ (p, e) :: b ∧ e_id x ≠ e_id e) as Hin.
  { intros q x. rw !elem_of_app elem_of_cons. split.
    - intros [H|H]; (split; [auto|]); intros E.
      + apply (I2 (e_id x)); [|rw E; by left]. by apply (id_in q).
      + apply I3. rw -E. by apply (id_in q).
    - intros [[H|[[= -> ->]|H]] E]; [by left|done|by right]. }
  split; cbn; auto.
  - rw fmap_app NoDup_app. split_and!; [done| |done]. intros x Hx Hx'. apply (N2 x Hx). by right.
  - rw !fmap_app NoDup_app. split_and!; [done| |done]. intros x Hx Hx'. apply (I2 x Hx). by right.
  - intros k q. rw lookup_delete_Some rp_objects0. split.
    + intros [Hk (x & Hx & <-)]. exists x. split; [|done]. apply Hin. auto.
    + intros (x & [Hx Hne]%Hin & <-). split; [auto|]. by exists x.
  - intros k t. rw lookup_delete_Some rp_times0. split.
    + intros [Hk (q & x & Hx & <- & Ht)]. exists q, x. split; [|done]. apply Hin. auto.
    + intros (q & x & [Hx Hne]%Hin & <- & Ht). split; [auto|]. by exists q, x.
  - assert (objects s !! e_id e = Some p) as Hp.
    { apply rp_objects0. exists e. split; [|done]. apply elem_of_app. right. by left. }
    rw map_size_delete Hp rp_size0 !length_app. cbn. lia.
Qed.

(** A new sending time. *)
Lemma repr_time s a p e b now : repr s (a ++ (p, e) :: b) →
  repr (set_times (<[e_id e := now]> (sent_times s)) s) (a ++ (p, at_time now e) :: b).
Proof.
  intros R. pose proof (repr_remove s a p e b) as Hrem. destruct R.
  assert (∀ A (f : ptr * entry → A), f (p, at_time now e) = f (p, e) →
    f <$> (a ++ (p, at_time now e) :: b) = f <$> (a ++ (p, e) :: b)) as Hf.
  { intros A f E. rw !fmap_app !fmap_cons. by rw E. }
  assert (NoDup (e_id <$> (a ++ (p, e) :: b).*2)) as Hids by done.
  rw !fmap_app /= NoDup_app in Hids. destruct Hids as (I1 & I2 & [I3 I4]%NoDup_cons).
  split; cbn; auto.
  - clear -rp_seg0. revert rp_seg0. generalize (@None ptr). induction a as [|[q x] a IH]; intros pv.
    + intros [H Hs]. by split.
    + cbn [app seg]. intros [(nx & Hq & Hn) Hs]. split; [|by apply IH]. exists nx. split; [done|].
      intros _. rw Hn; [|by destruct a]. by destruct a.
  - by rw Hf.
  - rw -list_fmap_compose Hf // list_fmap_compose //.
  - rw rp_head0 !last_app !last_cons. by destruct (last b).
  - rw rp_tail0. by destruct a.
  - intros k q. rw rp_objects0. split; intros (x & Hx & <-).
    + apply elem_of_app in Hx as [Hx|Hx%elem_of_cons]; [exists x; split; [apply elem_of_app; by left|done]|].
      destruct Hx as [[= -> ->]|Hx]; [exists (at_time now e)|exists x]; (split; [|done]); apply elem_of_app; right; set_solver.
    + apply elem_of_app in Hx as [Hx|Hx%elem_of_cons]; [exists x; split; [apply elem_of_app; by left|done]|].
      destruct Hx as [[= -> ->]|Hx]; [exists e|exists x]; (split; [|done]); apply elem_of_app; right; set_solver.
  - intros k t. destruct (decide (k = e_id e)) as [->|Hk].
    + rw lookup_insert_eq. split.
      * intros [= <-]. exists p, (at_time now e). split_and!; [|done|done]. apply elem_of_app. right. by left.
      * intros (q & x & Hx & E & <-). apply elem_of_app in Hx as [Hx|Hx%elem_of_cons].
        { exfalso. apply (I2 (e_id x)); [|rw E; by left]. by apply (id_in q). }
        destruct Hx as [[= -> ->]|Hx]; [done|]. exfalso. apply I3. rw -E. by apply (id_in q).
    + rw lookup_insert_ne // rp_times0. split; intros (q & x & Hx & <- & Ht); exists q, x; (split; [|done]);
        apply elem_of_app; (apply elem_of_app in Hx as [Hx|Hx%elem_of_cons]; [by left|right; right]);
        destruct Hx as [[= -> ->]|Hx]; done.
  - by rw rp_size0 !length_app.
Qed.

(** ** The operations refine the specification *)

Lemma wp_head_ackID s l h eh (Q : Z → Pending_LRU → Prop) :
  repr s l → last l = Some (h, eh) → Q (e_id eh) s → wp head_ackID Q s.
Proof.
  intros R Hl HQ. unfold head_ackID. wp_steps. eapply wp_deref; [by rw (rp_head _ _ R) Hl|]. apply wp_bind.
  destruct (seg_in (heap s) None l h eh) as (pv & nx & Hh); [apply R|by apply last_Some_elem_of|].
  eapply wp_get_obj; [done|]. by wp_steps.
Qed.

Lemma wp_tail_ackID s l t et (Q : Z → Pending_LRU → Prop) :
  repr s l → head l = Some (t, et) → Q (e_id et) s → wp tail_ackID Q s.
Proof.
  intros R Hl HQ. unfold tail_ackID. wp_steps. eapply wp_deref; [by rw (rp_tail _ _ R) Hl|]. apply wp_bind.
  destruct (seg_in (heap s) None l t et) as (pv & nx & Hh); [apply R|destruct l; [done|]; injection Hl as ->; by left|].
  eapply wp_get_obj; [done|]. by wp_steps.
Qed.

(** Identifiers tell the objects of the list apart. *)
Lemma ids_ne s a p e b q x : repr s (a ++ (p, e) :: b) → (q, x) ∈ a ++ b → e_id x ≠ e_id e.
Proof.
  intros R Hq E. pose proof (rp_ids _ _ R) as H. rw !fmap_app /= NoDup_app in H.
  destruct H as (_ & I2 & [I3 _]%NoDup_cons). apply elem_of_app in Hq as [Hq|Hq].
  - apply (I2 (e_id x)); [by apply (id_in q)|]. rw E. by left.
  - apply I3. rw -E. by apply (id_in q).
Qed.

Lemma repr_lookup s a p e b : repr s (a ++ (p, e) :: b) → objects s !! e_id e = Some p.
Proof. intros R. apply (rp_objects _ _ R). exists e. split; [|done]. apply elem_of_app. right. by left. Qed.

Lemma ptr_notin (a : list (ptr * entry)) p e b : NoDup (a ++ (p, e) :: b).*1 → p ∉ (a ++ b).*1.
Proof.
  rw !fmap_app /= NoDup_app. intros (_ & H2 & [H3 _]%NoDup_cons). rw elem_of_app. intros [H|H]; [|done].
  apply (H2 p H). by left.
Qed.

Definition unchanged (s s' : Pending_LRU) (l : list (ptr * entry)) : Prop :=
  fresh s' = fresh s ∧ ∀ x, x ∉ l.*1 → heap s' !! x = heap s !! x.

(** The last steps of [remove]. *)
Lemma remove_done s a p e b m : repr s (a ++ (p, e) :: b) → seg m None (a ++ b) →
  (∀ x, x ∉ (a ++ b).*1 → m !! x = heap s !! x) →
  (∀ x, is_Some (m !! x) → is_Some (heap s !! x)) →
  repr (mkLRU (delete p m) (fresh s) (delete (e_id e) (objects s)) (delete (e_id e) (sent_times s))
          (fst <$> last (a ++ b)) (fst <$> head (a ++ b))) (a ++ b).
Proof.
  intros R Hs Hf Hd. apply (repr_remove s a p e b); [done| |].
  - apply (seg_frame m); [|done]. intros x Hx. rw lookup_delete_ne //. intros ->.
    by apply (ptr_notin a x e b (rp_ptrs _ _ R)).
  - intros x [o Hx]. apply lookup_delete_Some in Hx as [_ Hx]. apply Hd. by exists o.
Qed.

(** Objects outside a segment with the same objects elsewhere. *)
Lemma dom_of_seg (m : gmap ptr Pending_LRU_Object) s l (dif : list ptr) : seg (heap s) None l → (∀ x, x ∈ dif → x ∈ l.*1) →
  (∀ x, x ∉ dif → m !! x = heap s !! x) → ∀ x, is_Some (m !! x) → is_Some (heap s !! x).
Proof.
  intros Hs Hdif Hm x Hx. destruct (decide (x ∈ dif)) as [Hin|Hin]; [|by rw -Hm].
  apply Hdif in Hin. apply list_elem_of_fmap in Hin as ([q e] & -> & Hin).
  destruct (seg_in _ _ _ _ _ Hs Hin) as (? & ? & E). cbn. rw E. by eexists.
Qed.

(** The steps that follow the unlinking in [remove]; [m] differs from the
    heap at [dif] only. *)
Lemma wp_remove_end s a p e b m hd tl (dif : list ptr) : repr s (a ++ (p, e) :: b) →
  seg m None (a ++ b) → (∀ x, x ∉ dif → m !! x = heap s !! x) → (∀ x, x ∈ dif → x ∈ (a ++ b).*1) →
  hd = fst <$> last (a ++ b) → tl = fst <$> head (a ++ b) →
  wp (modify (λ s, set_times (delete (e_id e) (sent_times s)) s);;
      modify (λ s, set_objects (delete (e_id e) (objects s)) s);;
      delete_obj p;; mret false) (λ r s', r = false ∧ repr s' (a ++ b) ∧ unchanged s s' (a ++ (p, e) :: b))
    (mkLRU m (fresh s) (objects s) (sent_times s) hd tl).
Proof.
  intros R Hm Hf Hd -> ->. pose proof (rp_seg _ _ R) as Hs. pose proof (ptr_notin _ _ _ _ (rp_ptrs _ _ R)) as Hpn.
  destruct (seg_at _ _ _ _ _ _ Hs) as (nx & Hp & Hn).
  assert (m !! p = heap s !! p) as Hmp by (apply Hf; intros ?%Hd; done). wp_steps.
  eapply wp_delete_obj; [cbn; by rw Hmp|]. wp_steps. split; [done|]. split.
  - refine (remove_done s a p e b m R Hm _ _).
    + intros x Hx. apply Hf. intros ?%Hd. done.
    + apply (dom_of_seg m s (a ++ (p, e) :: b) dif Hs); [|done]. intros x Hx%Hd. rw !fmap_app in Hx |- *. cbn.
      rw !elem_of_app elem_of_cons in Hx |- *. tauto.
  - split; [done|]. intros x Hx. cbn.
    assert (x ≠ p ∧ x ∉ (a ++ b).*1) as [Hxp Hxab].
    { rw !fmap_app !elem_of_app /= in Hx |- *. rw elem_of_cons in Hx. tauto. }
    rw lookup_delete_ne // Hf //. by intros ?%Hd.
Qed.

(** An object with both neighbours: neither its own identifier ends the list. *)
Lemma mid_head s a p e b h eh : repr s (a ++ (p, e) :: b) → b ≠ [] → last b = Some (h, eh) →
  last (a ++ (p, e) :: b) = Some (h, eh) ∧ (e_id e =? e_id eh) = false.
Proof.
  intros R Hb Hh. split.
  - by rw last_app last_cons Hh.
  - apply Z.eqb_neq. intros E. apply (ids_ne s a p e b h eh R); [|done]. apply elem_of_app. right. by apply last_Some_elem_of.
Qed.

Lemma mid_tail s a p e b : repr s (a ++ (p, e) :: b) → a ≠ [] → ∃ t et,
  head (a ++ (p, e) :: b) = Some (t, et) ∧ (e_id e =? e_id et) = false.
Proof.
  intros R Ha. destruct a as [|[t et] a]; [done|]. exists t, et. split; [done|]. apply Z.eqb_neq. intros E.
  apply (ids_ne s ((t, et) :: a) p e b t et R); [by left|done].
Qed.

Lemma wp_remove s a p e b : repr s (a ++ (p, e) :: b) →
  wp (Pending_LRU_remove (e_id e)) (λ r s', r = false ∧ repr s' (a ++ b) ∧ unchanged s s' (a ++ (p, e) :: b)) s.
Proof.
  intros R. unfold Pending_LRU_remove. wp_steps. rw (repr_lookup _ _ _ _ _ R). wp_steps. rw (rp_size _ _ R).
  pose proof (rp_seg _ _ R) as Hs. pose proof (rp_ptrs _ _ R) as Hnd. pose proof (ptr_notin _ _ _ _ Hnd) as Hpn.
  destruct (seg_at _ _ _ _ _ _ Hs) as (nx & Hp & Hn).
  pose proof (λ m hd tl dif, wp_remove_end s a p e b m hd tl dif R) as Hend.
  destruct ((length (a ++ (p, e) :: b) =? 1)%nat) eqn:Hlen; cbn [negb].
  { assert (a = [] ∧ b = []) as [-> ->].
    { rw length_app /= in Hlen. destruct a, b; cbn in Hlen; (try done); try lia. }
    apply wp_bind, wp_modify, wp_modify. by apply (Hend (heap s) None None []). }
  wp_steps. eapply wp_get_obj; [done|]. cbv beta. wp_steps.
  destruct (last b) as [[h eh]|] eqn:Hh.
  - assert (b ≠ []) as Hb by (by intros ->). destruct b as [|[r er] b]; [done|].
    destruct (mid_head _ _ _ _ _ _ _ R Hb Hh) as [Hl Hne]. eapply wp_head_ackID; [done|done|]. cbn [obj_of ackID]. rw Hne.
    wp_steps. destruct a as [|[q eq] a _] using rev_ind.
    + (* the tail *)
      eapply wp_tail_ackID; [done|done|]. rw Z.eqb_refl. eapply wp_unlink_tail; [exact Hs|exact Hnd|].
      intros m Hm Hf. cbn. apply (Hend _ _ _ [r]); [done| | | |done].
      { intros x Hx. apply Hf. set_solver. }
      { intros x ->%list_elem_of_singleton. by left. }
      { rw (rp_head _ _ R). by rw Hl Hh. }
    + destruct (mid_tail _ _ _ _ _ R) as (t & et & Ht & Hnt); [by destruct a|].
      eapply wp_tail_ackID; [done|done|]. cbn [obj_of ackID]. rw Hnt.
      eapply wp_unlink_middle; [exact Hs|exact Hnd|]. intros m Hm Hf. cbn. rw -(app_assoc a) in Hend |- *.
      apply (Hend _ _ _ [q; r]); [done| | | |].
      { intros x Hx. apply Hf; set_solver. }
      { intros x Hx. rw fmap_app elem_of_app. right. cbn. set_solver. }
      { rw (rp_head _ _ R). rw Hl. cbn [app]. by rw last_app last_cons Hh. }
      { rw (rp_tail _ _ R). by destruct a. }
  - (* the head *)
    assert (b = []) as -> by (by apply last_None in Hh).
    eapply wp_head_ackID; [done|by rw last_snoc|]. cbn [obj_of ackID]. rw Z.eqb_refl.
    destruct a as [|[q eq] a _] using rev_ind; [done|]. rw last_ptr_snoc in Hp |- *.
    wp_steps. eapply wp_deref; [done|]. cbn [o_prev obj_of].
    destruct (seg_app _ _ _ _ Hs) as [Ha _]. destruct (seg_at _ _ _ _ _ _ Ha) as (nq & Hq & _).
    apply wp_bind. eapply wp_upd_obj; [done|]. apply wp_modify. cbn [set_heap set_head].
    rw app_nil_r in Hpn. rw fmap_app NoDup_app in Hnd. destruct Hnd as (Hna & _). rw fmap_app NoDup_app in Hna.
    destruct Hna as (_ & Hqa & _).
    apply (Hend _ _ _ [q]).
    + rw app_nil_r. apply seg_set_next; [done| |done]. intros Hin. apply (Hqa q Hin). by left.
    + intros x Hx. rw lookup_insert_ne //. set_solver.
    + intros x ->%list_elem_of_singleton. rw app_nil_r fmap_app elem_of_app. right. by left.
    + by rw app_nil_r last_snoc.
    + rw (rp_tail _ _ R) app_nil_r. by destruct a.
Qed.

(** Linking an object after the head. *)
Lemma seg_append m pv c h eh p e oh op : seg m pv (c ++ [(h, eh)]) → h ∉ c.*1 → p ∉ (c ++ [(h, eh)]).*1 →
  m !! h = Some oh → (∃ pv' nx, op = obj_of pv' nx e) →
  seg (<[p := with_prev (Some h) op]> (<[h := with_next (Some p) oh]> m)) pv (c ++ [(h, eh); (p, e)]).
Proof.
  intros Hs Hh Hp Hoh (pv' & nx & ->). rw fmap_app in Hp. apply not_elem_of_app in Hp as [Hpc Hph].
  assert (p ≠ h) as Hne by set_solver.
  apply (seg_join _ _ _ _ _ _ (with_next (Some p) oh)).
  - apply (seg_frame (<[h := with_next (Some p) oh]> m)); [|by apply seg_set_next].
    intros x Hx. rw lookup_insert_ne //. intros ->. rw fmap_app in Hx. apply elem_of_app in Hx as [?|?]; done.
  - rw lookup_insert_ne // lookup_insert_eq //.
  - done.
  - split; [|done]. exists nx. rw lookup_insert_eq. by split.
Qed.

(** The last steps of [update]. *)
Lemma wp_update_end s a p e b m c h eh (dif : list ptr) : repr s (a ++ (p, e) :: b) →
  seg m None (a ++ b) → (∀ x, x ∉ dif → m !! x = heap s !! x) → (∀ x, x ∈ dif → x ∈ (a ++ b).*1) →
  a ++ b = c ++ [(h, eh)] →
  wp (h ← gets lru_head; h ← deref h; upd_obj h (with_next (Some p));; upd_obj p (with_prev (Some h));;
      modify (set_head (Some p));; mret false)
    (λ r s', r = false ∧ repr s' (a ++ b ++ [(p, e)]) ∧ unchanged s s' (a ++ (p, e) :: b))
    (mkLRU m (fresh s) (objects s) (sent_times s) (Some h) (fst <$> head (a ++ b))).
Proof.
  intros R Hm Hf Hd Hab. pose proof (rp_seg _ _ R) as Hs. pose proof (ptr_notin _ _ _ _ (rp_ptrs _ _ R)) as Hpn.
  destruct (seg_at _ _ _ _ _ _ Hs) as (nx & Hp & Hn).
  assert (m !! p = heap s !! p) as Hmp by (apply Hf; intros ?%Hd; done).
  assert (NoDup (a ++ b).*1) as Hnd.
  { pose proof (rp_ptrs _ _ R) as Hnd. rw -(Permutation_middle a b (p, e)) in Hnd. by apply NoDup_cons in Hnd as [_ Hnd]. }
  rw Hab in Hm Hpn Hnd. pose proof (seg_at _ _ _ _ _ [] Hm) as (nh & Hh & _).
  assert (h ≠ p) as Hhp by (intros ->; apply Hpn; rw fmap_app elem_of_app; right; by left).
  rw fmap_app NoDup_app in Hnd. destruct Hnd as (_ & Hhc & _).
  wp_steps. eapply wp_deref; [done|]. apply wp_bind. eapply wp_upd_obj; [done|]. apply wp_bind.
  eapply wp_upd_obj; [cbn; rw lookup_insert_ne // Hmp //|]. wp_steps. split; [done|].
  cbn [set_heap set_head heap fresh objects sent_times lru_tail].
  set (m' := <[p := _]> _).
  assert (repr (mkLRU m' (fresh s) (objects s) (sent_times s) (fst <$> last (c ++ [(h, eh); (p, e)]))
                  (fst <$> head (c ++ [(h, eh); (p, e)]))) (c ++ [(h, eh); (p, e)])) as R'.
  { apply (repr_perm s (a ++ (p, e) :: b)); [done| | |].
    - rw -Permutation_middle Hab (app_assoc c [_] [_]). by rw (comm (++) _ [(p, e)]).
    - apply seg_append; [done| |done|done|by do 2 eexists]. intros Hin. apply (Hhc h Hin). by left.
    - apply (dom_of_seg m' s (a ++ (p, e) :: b) (p :: h :: dif) Hs).
      + intros x Hx. assert (x = p ∨ x ∈ (a ++ b).*1) as [->|Hx'].
        { apply elem_of_cons in Hx as [->|[->|Hx]%elem_of_cons]; [by left| |right; by apply Hd].
          right. rw Hab fmap_app elem_of_app. right. by left. }
        * rw fmap_app elem_of_app. right. by left.
        * rw !fmap_app !elem_of_app in Hx' |- *. cbn. rw elem_of_cons. tauto.
      + intros x Hx. subst m'. rw !not_elem_of_cons in Hx. destruct Hx as (? & ? & ?). rw !lookup_insert_ne //. by apply Hf. }
  rw last_app in R'. cbn in R'. replace (a ++ b ++ [(p, e)]) with (c ++ [(h, eh); (p, e)]).
  2:{ by rw app_assoc Hab -(app_assoc c). }
  replace (fst <$> head (c ++ [(h, eh); (p, e)])) with (fst <$> head (a ++ b)) in R'.
  2:{ rw Hab. by destruct c. }
  split; [exact R'|]. split; [done|]. intros x Hx. cbn. subst m'.
  assert (x ≠ p ∧ x ≠ h ∧ x ∉ dif) as (? & ? & ?).
  { assert (x ∉ (a ++ b).*1 ∧ x ≠ p) as [Hx' ?].
    { rw !fmap_app !elem_of_app /= in Hx |- *. rw elem_of_cons in Hx. tauto. }
    split_and!; [done| |by intros ?%Hd]. intros ->. apply Hx'. rw Hab fmap_app elem_of_app. right. by left. }
  rw !lookup_insert_ne //. by apply Hf.
Qed.

Lemma wp_update s a p e b now : repr s (a ++ (p, e) :: b) →
  wp (Pending_LRU_update (e_id e) now)
    (λ r s', r = bool_decide (b = []) ∧ repr s' (a ++ b ++ [(p, at_time now e)]) ∧ unchanged s s' (a ++ (p, e) :: b)) s.
Proof.
  intros R0. unfold Pending_LRU_update. wp_steps. eapply wp_deref; [by apply (repr_lookup _ _ _ _ _ R0)|]. wp_steps.
  pose proof (repr_time _ _ _ _ _ now R0) as R. set (s1 := set_times _ s) in *.
  pose proof (rp_seg _ _ R) as Hs. pose proof (rp_ptrs _ _ R) as Hnd.
  destruct (seg_at _ _ _ _ _ _ Hs) as (nx & Hp & Hn).
  eapply wp_get_obj; [done|]. cbv beta. wp_steps.
  assert ((a ++ (p, at_time now e) :: b).*1 = (a ++ (p, e) :: b).*1) as Hfst by (by rw !fmap_app).
  destruct (last b) as [[h eh]|] eqn:Hh.
  2:{ assert (b = []) as -> by (by apply last_None in Hh).
      eapply wp_head_ackID; [done|by rw last_snoc|]. cbn [obj_of ackID at_time e_id]. rw Z.eqb_refl. apply wp_ret.
      split; [done|]. by split. }
  assert (b ≠ []) as Hb by (by intros ->). rw bool_decide_eq_false_2 //.
  destruct (mid_head _ _ _ _ _ _ _ R Hb Hh) as [Hl Hne]. eapply wp_head_ackID; [done|done|]. cbn [obj_of ackID]. rw Hne.
  assert (∃ c, a ++ b = c ++ [(h, eh)]) as [c Hab].
  { apply last_Some in Hh as [b' ->]. exists (a ++ b'). by rw app_assoc. }
  assert (∀ m (dif : list ptr), seg m None (a ++ b) → (∀ x, x ∉ dif → m !! x = heap s1 !! x) →
    (∀ x, x ∈ dif → x ∈ (a ++ b).*1) → wp (h ← gets lru_head; h ← deref h; upd_obj h (with_next (Some p));;
      upd_obj p (with_prev (Some h));; modify (set_head (Some p));; mret false)
      (λ r s', r = false ∧ repr s' (a ++ b ++ [(p, at_time now e)]) ∧ unchanged s s' (a ++ (p, e) :: b))
      (mkLRU m (fresh s1) (objects s1) (sent_times s1) (Some h) (fst <$> head (a ++ b)))) as Hend.
  { intros m dif Hm Hf Hd. eapply wp_mono; [exact (wp_update_end s1 a p _ b m c h eh dif R Hm Hf Hd Hab)|].
    intros r s' (-> & R' & Hu1 & Hu2). split; [done|]. split; [done|]. split; [done|]. rw -Hfst. exact Hu2. }
  destruct b as [|[r er] b]; [done|]. wp_steps.
  destruct a as [|[q eq] a _] using rev_ind.
  - eapply wp_tail_ackID; [done|done|]. cbn [at_time e_id]. rw Z.eqb_refl. wp_steps.
    assert ((size (objects s1) =? 1)%nat = false) as -> by (rw (rp_size _ _ R); by destruct b).
    cbn [andb negb]. eapply wp_unlink_tail; [exact Hs|exact Hnd|]. intros m Hm Hf.
    pose proof (Hend m [r] Hm) as Hend'. cbn in Hend'.
    replace (Some h) with (lru_head s1) in Hend'; [|by rw (rp_head _ _ R) Hl].
    apply Hend'; [intros x Hx; apply Hf; set_solver|intros x ->%list_elem_of_singleton; by left].
  - destruct (mid_tail _ _ _ _ _ R) as (t & et & Ht & Hnt); [by destruct a|].
    eapply wp_tail_ackID; [done|done|]. cbn [at_time e_id obj_of ackID] in *. rw Hnt. wp_steps. cbn [andb].
    eapply wp_unlink_middle; [exact Hs|exact Hnd|]. intros m Hm Hf.
    assert (seg m None ((a ++ [(q, eq)]) ++ (r, er) :: b)) as Hm' by (by rw -app_assoc).
    pose proof (Hend m [q; r] Hm') as Hend'.
    replace (Some h) with (lru_head s1) in Hend'; [|by rw (rp_head _ _ R) Hl].
    replace (fst <$> head ((a ++ [(q, eq)]) ++ (r, er) :: b)) with (lru_tail s1) in Hend'; [|rw (rp_tail _ _ R); by destruct a].
    apply Hend'; [intros x Hx; apply Hf; set_solver|]. intros x Hx. rw !fmap_app !elem_of_app. cbn. set_solver.
Qed.

(** [while (objects.size() > max_num_of_pending_requests) remove(tail->ackID)] *)
Lemma wp_evict fuel s l : repr s l → (length l < fuel)%nat →
  wp (evict fuel) (λ _ s', repr s' (drop (length l - CPR_LRU_SIZE) l) ∧ unchanged s s' l) s.
Proof.
  revert s l. induction fuel as [|fuel IH]; intros s l R Hl; [lia|]. cbn [evict]. wp_steps. rw (rp_size _ _ R).
  destruct (length l <=? CPR_LRU_SIZE)%nat eqn:E.
  - apply Nat.leb_le in E. apply wp_ret. replace (length l - CPR_LRU_SIZE)%nat with 0%nat by lia. by split_and!.
  - apply Nat.leb_gt in E. destruct l as [|[t et] l]; [cbn in E; lia|]. cbn [length] in *.
    wp_steps. eapply wp_tail_ackID; [done|done|]. apply wp_bind.
    eapply wp_mono; [apply (wp_remove s [] t et l R)|]. intros r s' (_ & R' & Hf & Hu). cbn [app] in *.
    eapply wp_mono; [apply (IH s' l R'); lia|]. intros [] s'' (R'' & Hf' & Hu').
    replace (S (length l) - CPR_LRU_SIZE)%nat with (S (length l - CPR_LRU_SIZE)) by lia. split; [done|].
    split; [by rw Hf'|]. intros x Hx. cbn in Hx. rw Hu'; [|set_solver]. by apply Hu.
Qed.

(** Nothing that is stored is lost but the oldest entries. *)
Lemma drop_sub {A} n (l : list A) x : x ∈ drop n l → x ∈ l.
Proof. intros H. rw -(take_drop n l) elem_of_app. by right. Qed.

(** A new object at the head. *)
Lemma repr_snoc s l p k data now : repr s l → k ∉ e_id <$> l.*2 → p ∉ l.*1 → heap s !! p = Some (mkObj None None k data 0) →
  wp (modify (λ s, set_objects (<[k := p]> (objects s)) s);;
      modify (λ s, set_times (<[k := now]> (sent_times s)) s);;
      h ← gets lru_head;
      match h with
      | None => modify (set_head (Some p));; modify (set_tail (Some p))
      | Some h => upd_obj h (with_next (Some p));; upd_obj p (with_prev (Some h));; modify (set_head (Some p))
      end;; mret false)
    (λ r s', r = false ∧ repr s' (l ++ [(p, mkEntry k data 0 now)])) s.
Proof.
  intros R Hk Hp Hop. set (e := mkEntry k data 0 now).
  assert (∀ m hd tl, seg m None (l ++ [(p, e)]) → (∀ x, is_Some (m !! x) → is_Some (heap s !! x)) →
    hd = Some p → tl = fst <$> head (l ++ [(p, e)]) →
    repr (mkLRU m (fresh s) (<[k := p]> (objects s)) (<[k := now]> (sent_times s)) hd tl) (l ++ [(p, e)])) as Hrep.
  { intros m hd tl Hm Hd -> ->. destruct R. split; cbn; auto.
    - rw fmap_app NoDup_app. split_and!; [done| |by apply NoDup_singleton]. intros x Hx Hx'. cbn in Hx'. set_solver.
    - rw !fmap_app NoDup_app. split_and!; [done| |by apply NoDup_singleton]. intros x Hx Hx'. cbn in Hx'. set_solver.
    - by rw last_snoc.
    - intros k' q. setoid_rewrite elem_of_app. setoid_rewrite list_elem_of_singleton. destruct (decide (k' = k)) as [->|Hne].
      + rw lookup_insert_eq. split; [intros [= <-]; exists e; split; [by right|done]|]. intros (x & [Hx|[= -> ->]] & E); [|done].
        exfalso. apply Hk. rw -E. by apply (id_in q).
      + rw lookup_insert_ne // rp_objects0. split; intros (x & Hx & <-); exists x; (split; [|done]); [by left|].
        destruct Hx as [Hx|[= -> ->]]; [done|]. by destruct Hne.
    - intros k' t. setoid_rewrite elem_of_app. setoid_rewrite list_elem_of_singleton. destruct (decide (k' = k)) as [->|Hne].
      + rw lookup_insert_eq. split; [intros [= <-]; exists p, e; split; [by right|done]|].
        intros (q & x & [Hx|[= -> ->]] & E & <-); [|done]. exfalso. apply Hk. rw -E. by apply (id_in q).
      + rw lookup_insert_ne // rp_times0. split; intros (q & x & Hx & <- & Ht); exists q, x; (split; [|done]); [by left|].
        destruct Hx as [Hx|[= -> ->]]; [done|]. by destruct Hne.
    - assert (objects s !! k = None) as Hnone.
      { destruct (objects s !! k) as [q|] eqn:E; [|done]. apply rp_objects0 in E as (x & Hx & <-).
        exfalso. apply Hk. by apply (id_in q). }
      rw map_size_insert_None // rp_size0 length_app. cbn. lia. }
  wp_steps. cbn [set_objects set_times lru_head]. rw (rp_head _ _ R). destruct (last l) as [[h eh]|] eqn:Hh; cbn [fmap option_fmap option_map fst].
  - apply last_Some in Hh as [c ->]. pose proof (rp_seg _ _ R) as Hs. pose proof (rp_ptrs _ _ R) as Hnd.
    destruct (seg_at _ _ _ _ _ [] Hs) as (nh & Hh & _). rw fmap_app NoDup_app in Hnd. destruct Hnd as (_ & Hhc & _).
    assert (h ≠ p) as Hhp by (intros ->; apply Hp; rw fmap_app elem_of_app; right; by left).
    wp_steps. eapply wp_upd_obj; [done|]. apply wp_bind. eapply wp_upd_obj; [cbn; rw lookup_insert_ne //|]. wp_steps. split; [done|].
    apply Hrep; [| |done|].
    + rw -(app_assoc c). apply seg_append; [done| |done|done|by do 2 eexists]. intros Hin. apply (Hhc h Hin). by left.
    + intros x. cbn. rw !lookup_insert_is_Some. intros [<-|[_ [<-|[_ ?]]]]; [by rw Hop|by rw Hh|done].
    + cbn. rw (rp_tail _ _ R). by destruct c.
  - apply last_None in Hh as ->. wp_steps. split; [done|]. apply Hrep; [|done|done|done]. split; [|done]. by exists None.
Qed.

(** ** Results on the abstract list *)

(** [s] holds the entries [es], oldest first. *)
Definition lru_is (s : Pending_LRU) (es : list entry) : Prop := ∃ l, repr s l ∧ l.*2 = es.

Lemma lru_is_0 : lru_is lru0 [].
Proof.
  exists []. split; [|done]. split; cbn; try done; try apply NoDup_nil_2.
  - intros k p. rw lookup_empty. split; [done|]. by intros (e & He%elem_of_nil & _).
  - intros k t. rw lookup_empty. split; [done|]. by intros (p & e & He%elem_of_nil & _).
  - intros p [o Ho]. by rw lookup_empty in Ho.
Qed.

Lemma lru_is_nodup s es : lru_is s es → NoDup (e_id <$> es).
Proof. intros (l & R & <-). apply R. Qed.

(** The place of an entry. *)
Lemma lru_is_at s es k : lru_is s es → k ∈ e_id <$> es →
  ∃ a p e b, repr s (a ++ (p, e) :: b) ∧ es = a.*2 ++ e :: b.*2 ∧ e_id e = k.
Proof.
  intros (l & R & <-) Hk. apply list_elem_of_fmap in Hk as (e & -> & Hin).
  apply list_elem_of_fmap in Hin as ([q x] & -> & Hin). apply list_elem_of_split in Hin as (a & b & ->).
  exists a, q, x, b. by rw fmap_app.
Qed.

Lemma lru_is_split s a e b : lru_is s (a ++ e :: b) → spec_remove (e_id e) (a ++ e :: b) = a ++ b ∧
  filter (λ x, e_id x = e_id e) (a ++ e :: b) = [e].
Proof. intros H. by apply spec_split; [apply (lru_is_nodup s)|]. Qed.

Lemma wp_spec_remove s es k : lru_is s es →
  wp (Pending_LRU_remove k)
    (λ r s', r = negb (bool_decide (k ∈ e_id <$> es)) ∧ lru_is s' (spec_remove k es) ∧ fresh s' = fresh s) s.
Proof.
  intros H. case_bool_decide as Hk.
  - destruct (lru_is_at s es k H Hk) as (a & p & e & b & R & -> & <-).
    destruct (lru_is_split s _ _ _ H) as [-> _]. eapply wp_mono; [by apply (wp_remove s a p e b)|].
    intros r s' (-> & R' & Hu & _). split; [done|]. split; [|done]. exists (a ++ b). by rw fmap_app.
  - destruct H as (l & R & <-). unfold Pending_LRU_remove. wp_steps.
    destruct (objects s !! k) as [p|] eqn:E.
    { apply (rp_objects _ _ R) in E as (e & He & <-). destruct Hk. by apply (id_in p). }
    wp_steps. split; [done|]. split; [|done]. exists l. split; [done|]. symmetry. apply filter_keep.
    intros x Hx E'. apply Hk. rw -E'. by apply list_elem_of_fmap_2.
Qed.

Lemma wp_spec_update s es k now : lru_is s es → k ∈ e_id <$> es →
  wp (Pending_LRU_update k now)
    (λ r s', r = bool_decide (e_id <$> last es = Some k) ∧ lru_is s' (spec_update k now es) ∧
      objects s' !! k = objects s !! k) s.
Proof.
  intros H Hk. destruct (lru_is_at s es k H Hk) as (a & p & e & b & R & -> & <-).
  unfold spec_update. destruct (lru_is_split s _ _ _ H) as [-> ->]. eapply wp_mono; [by apply (wp_update s a p e b now)|].
  intros r s' (-> & R' & Hu & _). split_and!.
  - apply bool_decide_ext. rw last_app last_cons. split; [by intros ->|].
    destruct (last b.*2) as [x|] eqn:E; cbn; [|by apply last_None, fmap_nil_inv in E].
    intros [= E']. apply last_Some_elem_of in E. apply list_elem_of_fmap in E as ([q y] & -> & Hy).
    exfalso. apply (ids_ne s a p e b q y R); [|done]. apply elem_of_app. by right.
  - exists (a ++ b ++ [(p, at_time now e)]). split; [done|]. by rw !fmap_app app_assoc.
  - rw (repr_lookup _ _ _ _ _ R). rw (app_assoc a) in R'. apply (repr_lookup _ _ _ _ _ R').
Qed.

(** The object is made before it is inserted. *)
Definition insert_new (k : Z) (data : bytes) (now : Z) : L bool :=
  o ← Pending_LRU_Object_new k data; Pending_LRU_insert o k now.

Lemma repr_heap s l p o : repr s l → p = fresh s →
  repr (mkLRU (<[p := o]> (heap s)) (S p) (objects s) (sent_times s) (lru_head s) (lru_tail s)) l.
Proof.
  intros R ->. destruct R. split; cbn; auto.
  - apply (seg_frame (heap s)); [|done]. intros x Hx. rw lookup_insert_ne //. intros <-.
    apply list_elem_of_fmap in Hx as ([q e] & E & Hx). destruct (seg_in _ _ _ _ _ rp_seg0 Hx) as (? & ? & Hq).
    cbn in E. subst q. specialize (rp_fresh0 (fresh s)). rw Hq in rp_fresh0.
    enough (fresh s < fresh s)%nat by lia. by apply rp_fresh0; eexists.
  - intros q [<-|[_ Hq]]%lookup_insert_is_Some; [lia|]. apply rp_fresh0 in Hq. lia.
Qed.

Lemma wp_spec_insert s es k data now : lru_is s es →
  wp (insert_new k data now)
    (λ r s', r = bool_decide (k ∈ e_id <$> es) ∧ lru_is s' (spec_insert k data now es)) s.
Proof.
  intros (l & R & <-). unfold insert_new, Pending_LRU_insert. apply wp_bind. unfold wp at 1, Pending_LRU_Object_new.
  pose proof (repr_heap s l (fresh s) (mkObj None None k data 0) R eq_refl) as R1. set (s1 := mkLRU _ _ _ _ _ _) in *.
  assert (fresh s ∉ l.*1) as Hfr.
  { intros Hx. apply list_elem_of_fmap in Hx as ([q e] & E & Hx). cbn in E.
    destruct (seg_in _ _ _ _ _ (rp_seg _ _ R) Hx) as (? & ? & Hq). assert (q < fresh s)%nat by (apply R; by eexists). lia. }
  unfold spec_insert. wp_steps. destruct (objects s1 !! k) as [q|] eqn:E.
  - assert (k ∈ e_id <$> l.*2) as Hk by (apply (rp_objects _ _ R1) in E as (e & He & <-); by apply (id_in q)).
    rw decide_True // bool_decide_eq_true_2 //. wp_steps.
    eapply wp_mono; [apply (wp_spec_update s1 l.*2 k now); [by exists l|done]|].
    intros r s' (_ & Hs' & _). by apply wp_ret.
  - assert (k ∉ e_id <$> l.*2) as Hk.
    { intros Hk. apply list_elem_of_fmap in Hk as (e & -> & Hin). apply list_elem_of_fmap in Hin as ([q x] & -> & Hin).
      assert (objects s1 !! e_id x = Some q) as E' by (apply (rp_objects _ _ R1); by exists x).
      cbn [snd] in E. by rw E' in E. }
    rw decide_False // bool_decide_eq_false_2 //. wp_steps.
    eapply wp_mono; [apply (wp_evict _ s1 l R1); rw (rp_size _ _ R1); lia|]. intros [] s2 (R2 & Hf2 & Hu2).
    eapply wp_mono; [apply (repr_snoc s2 _ (fresh s) k data now R2)|].
    + intros (e & -> & Hin)%list_elem_of_fmap. apply list_elem_of_fmap in Hin as ([q x] & -> & Hin%drop_sub).
      apply Hk. by apply (id_in q).
    + intros (y & E' & Hin%drop_sub)%list_elem_of_fmap. apply Hfr. rw E'. by apply list_elem_of_fmap_2.
    + rw Hu2 //. subst s1. cbn. by rw lookup_insert_eq.
    + intros r s' (-> & R'). split; [done|]. exists (drop (length l - CPR_LRU_SIZE) l ++ [(fresh s, mkEntry k data 0 now)]).
      split; [done|]. unfold spec_evict. by rw fmap_app fmap_drop length_fmap.
Qed.

(** ** Retransmissions *)

Definition retried (e : entry) : entry := mkEntry (e_id e) (e_data e) ((e_retrans e + 1) mod 256) (e_time e).
Definition spec_retry (k : Z) (es : list entry) : list entry :=
  (λ e, if decide (e_id e = k) then retried e else e) <$> es.

(** [obj->retransmissions++], an unsigned char *)
Definition retry_obj (p : ptr) : L () := upd_obj p (λ o, with_retrans ((retransmissions o + 1) mod 256) o).

Lemma seg_retry m a p e b : seg m None (a ++ (p, e) :: b) → p ∉ (a ++ b).*1 →
  ∃ o, m !! p = Some o ∧ ackID o = e_id e ∧ o_data o = e_data e ∧ retransmissions o = e_retrans e ∧
    seg (<[p := with_retrans ((retransmissions o + 1) mod 256) o]> m) None (a ++ (p, retried e) :: b).
Proof.
  intros Hs Hp. destruct (seg_at _ _ _ _ _ _ Hs) as (nx & Ho & Hn). eexists. split; [exact Ho|]. split_and!; [done..|].
  revert Hs Ho Hp. cbn. generalize (@None ptr). induction a as [|[q x] a IH]; intros pv.
  - intros [_ Hs] Ho Hp. split; [exists nx; by rw lookup_insert_eq|]. apply (seg_frame m); [|done].
    intros y Hy. rw lookup_insert_ne //. intros <-. by apply Hp.
  - cbn [app seg]. rw last_ptr_cons. intros [(nx' & Hq & Hn') Hs] Ho [Hpq Hp]%not_elem_of_cons. split; [|by apply IH].
    exists nx'. rw lookup_insert_ne //. split; [done|]. intros _. rw Hn'; [|by destruct a]. by destruct a.
Qed.

Lemma spec_retry_split es a e b : NoDup (e_id <$> es) → es = a ++ e :: b →
  spec_retry (e_id e) es = a ++ retried e :: b.
Proof.
  intros Hnd ->. rw fmap_app fmap_cons NoDup_app in Hnd. destruct Hnd as (_ & Hdis & [Hb _]%NoDup_cons).
  unfold spec_retry. rw fmap_app fmap_cons decide_True //. f_equal; [|f_equal].
  - rw -{2}(list_fmap_id a). apply list_fmap_ext. intros i x Hx%list_elem_of_lookup_2. rw decide_False //.
    intros E. apply (Hdis (e_id x)); [by apply list_elem_of_fmap_2|]. rw E. by left.
  - rw -{2}(list_fmap_id b). apply list_fmap_ext. intros i x Hx%list_elem_of_lookup_2. rw decide_False //.
    intros E. apply Hb. rw -E. by apply list_elem_of_fmap_2.
Qed.

Lemma wp_spec_retry s es e p : lru_is s es → e ∈ es → objects s !! e_id e = Some p →
  wp (retry_obj p) (λ _ s', lru_is s' (spec_retry (e_id e) es) ∧ objects s' = objects s ∧
    sent_times s' = sent_times s ∧ lru_tail s' = lru_tail s) s.
Proof.
  intros (l & R & <-) He Hp. apply list_elem_of_fmap in He as ([q x] & -> & Hin). cbn [snd] in *.
  apply list_elem_of_split in Hin as (a & b & ->). rw (repr_lookup _ _ _ _ _ R) in Hp. injection Hp as ->.
  destruct (seg_retry _ _ _ _ _ (rp_seg _ _ R) (ptr_notin _ _ _ _ (rp_ptrs _ _ R))) as (o & Ho & _ & _ & _ & Hseg).
  eapply wp_upd_obj; [done|]. split; [|done]. exists (a ++ (p, retried x) :: b). split.
  2:{ rw !fmap_app. cbn. symmetry. apply (spec_retry_split _ a.*2 x b.*2); [|done].
      pose proof (rp_ids _ _ R) as H. by rw fmap_app in H. }
  assert (∀ A (f : ptr * entry → A), f (p, retried x) = f (p, x) →
    f <$> (a ++ (p, retried x) :: b) = f <$> (a ++ (p, x) :: b)) as Hf.
  { intros A f E. rw !fmap_app !fmap_cons. by rw E. }
  assert (∀ (P : entry → Prop) q, (P (retried x) ↔ P x) →
    (∃ y, (q, y) ∈ a ++ (p, x) :: b ∧ P y) ↔ (∃ y, (q, y) ∈ a ++ (p, retried x) :: b ∧ P y)) as Hex.
  { intros P q HP. setoid_rewrite elem_of_app. setoid_rewrite elem_of_cons. split; intros (y & [Hy|[[= -> ->]|Hy]] & HPy).
    - exists y. auto.
    - exists (retried x). rw HP. auto.
    - exists y. auto.
    - exists y. auto.
    - exists x. rw -HP. auto.
    - exists y. auto. }
  destruct R. split; cbn; auto.
  - by rw Hf.
  - rw -list_fmap_compose Hf // list_fmap_compose //.
  - rw rp_head0 !last_app !last_cons. by destruct (last b).
  - rw rp_tail0. by destruct a.
  - intros k q. rw rp_objects0. by apply (Hex (λ y, e_id y = k)).
  - intros k t. rw rp_times0. f_equiv. intros q. apply (Hex (λ y, e_id y = k ∧ e_time y = t)). done.
  - by rw rp_size0 !length_app.
  - intros q [<-|[_ Hq]]%lookup_insert_is_Some; [apply rp_fresh0; by rw Ho|by apply rp_fresh0].
Qed.

(** What the tables say about the oldest entry. *)
Lemma lru_is_tail s e es : lru_is s (e :: es) →
  (∀ Q : Z → Pending_LRU → Prop, Q (e_id e) s → wp tail_ackID Q s) ∧
  sent_times s !! e_id e = Some (e_time e) ∧
  ∃ p o, objects s !! e_id e = Some p ∧ heap s !! p = Some o ∧ ackID o = e_id e ∧
    o_data o = e_data e ∧ retransmissions o = e_retrans e.
Proof.
  intros (l & R & E). destruct l as [|[p x] l]; [done|]. injection E as -> <-. split_and!.
  - intros Q HQ. by eapply wp_tail_ackID.
  - apply (rp_times _ _ R). exists p, e. split; [by left|done].
  - pose proof (rp_seg _ _ R) as [(nx & Hp & _) _]. exists p. eexists. split; [|done].
    apply (rp_objects _ _ R). exists e. split; [by left|done].
Qed.

Lemma lru_is_size s es : lru_is s es → size (objects s) = length es.
Proof. intros (l & R & <-). by rw (rp_size _ _ R) length_fmap. Qed.

(** ** The pending list over time *)

Lemma Forall_filter_sub {A} (Q P : A → Prop) `{!∀ x, Decision (P x)} l : Forall Q l → Forall Q (filter P l).
Proof. rw !Forall_forall. intros HQ x Hx. apply list_elem_of_filter in Hx as [_ Hx]. by apply HQ. Qed.

(** Oldest first, and nothing later than [now]. *)
Definition ordered (now : Z) (es : list entry) : Prop :=
  StronglySorted (λ a b, e_time a <= e_time b) es ∧ Forall (λ e, e_time e <= now) es.

Lemma sorted_filter {A} (R : relation A) (P : A → Prop) `{!∀ x, Decision (P x)} l :
  StronglySorted R l → StronglySorted R (filter P l).
Proof.
  induction 1 as [|x l Hs IH Hx]; [constructor|]. rw filter_cons. case_decide; [|done].
  constructor; [done|]. by apply Forall_filter_sub.
Qed.

Lemma sorted_drop {A} (R : relation A) n l : StronglySorted R l → StronglySorted R (drop n l).
Proof.
  intros H. revert n. induction H as [|x l Hs IH Hx]; intros [|n]; cbn; [constructor..| |apply IH].
  by constructor.
Qed.

Lemma sorted_snoc {A} (R : relation A) l x : StronglySorted R l → Forall (λ y, R y x) l → StronglySorted R (l ++ [x]).
Proof.
  induction 1 as [|y l Hs IH Hy]; intros Hx; cbn; [constructor; constructor|]. apply Forall_cons in Hx as [? ?].
  constructor; [by apply IH|]. apply Forall_app. split; [done|]. by apply Forall_singleton.
Qed.

Lemma ordered_later now now' es : ordered now es → now <= now' → ordered now' es.
Proof. intros [? ?] ?. split; [done|]. eapply Forall_impl; [done|]. cbn. lia. Qed.

Lemma ordered_snoc now es e : ordered now es → e_time e = now → ordered now (es ++ [e]).
Proof.
  intros [Hs Hf] E. split.
  - apply sorted_snoc; [done|]. by rw E.
  - apply Forall_app. split; [done|]. apply Forall_singleton. lia.
Qed.

Lemma ordered_remove now k es : ordered now es → ordered now (spec_remove k es).
Proof. intros [Hs Hf]. split; [by apply sorted_filter|by apply Forall_filter_sub]. Qed.

Lemma ordered_update now k es : NoDup (e_id <$> es) → ordered now es → ordered now (spec_update k now es).
Proof.
  intros Hnd Ho. unfold spec_update. pose proof (ordered_remove now k es Ho) as Hr.
  destruct (decide (k ∈ e_id <$> es)) as [Hk|Hk].
  - apply list_elem_of_fmap in Hk as (e & -> & (a & b & ->)%list_elem_of_split).
    destruct (spec_split _ a e b Hnd eq_refl) as [_ ->]. by apply ordered_snoc.
  - rw (filter_drop (λ e, e_id e = k)); [by rw app_nil_r|]. intros x Hx E. apply Hk. rw -E. by apply list_elem_of_fmap_2.
Qed.

Lemma ordered_insert now k data es : NoDup (e_id <$> es) → ordered now es → ordered now (spec_insert k data now es).
Proof.
  intros Hnd Ho. unfold spec_insert. case_decide; [by apply ordered_update|]. apply ordered_snoc; [|done].
  destruct Ho as [Hs Hf]. split; [by apply sorted_drop|by apply Forall_drop].
Qed.

Lemma ordered_retry now k es : ordered now es → ordered now (spec_retry k es).
Proof.
  assert (∀ e, e_time (if decide (e_id e = k) then retried e else e) = e_time e) as Ht by (intros e; by case_decide).
  intros [Hs Hf]. unfold spec_retry. split.
  - clear Hf. induction Hs as [|x l Hs IH Hx]; [constructor|]. cbn [fmap list_fmap]. constructor; [done|].
    apply Forall_fmap. eapply Forall_impl; [done|]. intros y. cbn. rw !Ht. done.
  - apply Forall_fmap. eapply Forall_impl; [done|]. intros y. cbn. by rw Ht.
Qed.

(** [C12] What the operations of the pending list promise: each runs without a fault on a list of
    pending requests and does to it what its specification says. *)
Lemma lru_refines s es : lru_is s es →
  (∀ k data now, wp (insert_new k data now)
     (λ r s', r = bool_decide (k ∈ e_id <$> es) ∧ lru_is s' (spec_insert k data now es)) s) ∧
  (∀ k now, k ∈ e_id <$> es → wp (Pending_LRU_update k now)
     (λ r s', r = bool_decide (e_id <$> last es = Some k) ∧ lru_is s' (spec_update k now es)) s) ∧
  (∀ k, wp (Pending_LRU_remove k)
     (λ r s', r = bool_decide (k ∉ e_id <$> es) ∧ lru_is s' (spec_remove k es)) s).
Proof.
  intros H. split_and!.
  - intros k data now. by apply wp_spec_insert.
  - intros k now Hk. eapply wp_mono; [by apply wp_spec_update|]. intros r s' (? & ? & ?); done.
  - intros k. eapply wp_mono; [by apply wp_spec_remove|]. intros r s' (-> & ? & _). split; [|done].
    by rw bool_decide_not.
Qed.

(** The list never holds more than one request above its limit. *)
Lemma spec_insert_length k data now es : NoDup (e_id <$> es) → (length es ≤ S CPR_LRU_SIZE)%nat →
  (length (spec_insert k data now es) ≤ S CPR_LRU_SIZE)%nat.
Proof.
  intros Hnd Hl. unfold spec_insert. case_decide as Hk.
  - unfold spec_update. apply list_elem_of_fmap in Hk as (e & -> & (a & b & ->)%list_elem_of_split).
    destruct (spec_split _ a e b Hnd eq_refl) as [-> ->]. rw !length_app /= in Hl |- *. lia.
  - unfold spec_evict. rw length_app length_drop. cbn. lia.
Qed.

(** A list with one request. *)
Definition one_entry (k : Z) : entry := mkEntry k [1; 2; 3] 0 10.

Lemma lru_one k : ∃ s, lru_is s [one_entry k].
Proof.
  destruct (wp_ok _ _ _ (wp_spec_insert lru0 [] k [1; 2; 3] 10 lru_is_0)) as (r & s & _ & _ & Hs). exists s.
  revert Hs. unfold spec_insert. case_decide as H; [by apply elem_of_nil in H|done].
Qed.

Lemma lru_refines_witness : ∃ s, lru_is s [one_entry 7] ∧
  wp (insert_new 8 [4] 20) (λ r s', r = false ∧ lru_is s' [one_entry 7; mkEntry 8 [4] 0 20]) s ∧
  wp (Pending_LRU_update 7 20) (λ r s', r = true ∧ lru_is s' [at_time 20 (one_entry 7)]) s ∧
  wp (Pending_LRU_remove 7) (λ r s', r = false ∧ lru_is s' []) s.
Proof.
  destruct (lru_one 7) as (s & Hs). exists s. split; [exact Hs|].
  destruct (lru_refines s [one_entry 7] Hs) as (Hi & Hu & Hr). split_and!.
  - exact (Hi 8 [4] 20).
  - apply (Hu 7 20). by left.
  - exact (Hr 7).
Defined.
