(* ===== verification/ControlReliability.v ===== *)
(** * Reliable control messages

    Model of the element ControlReliability
    (src/src/controlreliability.{hh,cc}), which stands between the LocalProxy
    and the Forwarder: a pub/sub request that leaves the node gets a header
    with an acknowledgement identifier and is sent again until the peer
    acknowledges it; a request that arrives is acknowledged and handed to the
    LocalProxy once.

    The clock, the numbers of [rand()] and the bytes of uninitialised or
    foreign memory that the source copies are arguments.  A timer is the time
    it fires at.  What a step does with packets is a list of events. *)

From S2P Require Import Prelude Enums BitVector Packet GlobalConf PendingLRU.

(** ** State *)

(** the packet handed to [push], or one that [push] makes *)
Inductive pkt := Given | Made.

Inductive cr_event :=
  | Push (port : Z) (p : pkt) (d : bytes)
  (** [p->kill()] *)
  | Kill (p : pkt).

Record control := mkCR {
  byPassMode : bool;
  LRU : Pending_LRU;
  lastReceivedAckIDs : option (list Z);
  receivedAckCnt : nat;
  timer : option Z;
  events : list cr_event;
}.

Definition set_LRU l s := mkCR (byPassMode s) l (lastReceivedAckIDs s) (receivedAckCnt s) (timer s) (events s).
Definition set_acks r n s := mkCR (byPassMode s) (LRU s) r n (timer s) (events s).
Definition set_timer t s := mkCR (byPassMode s) (LRU s) (lastReceivedAckIDs s) (receivedAckCnt s) t (events s).
Definition set_events e s := mkCR (byPassMode s) (LRU s) (lastReceivedAckIDs s) (receivedAckCnt s) (timer s) e.

Definition C (A : Type) : Type := M control A.

Definition emit (e : cr_event) : C () := modify (λ s, set_events (events s ++ [e]) s).

(** An operation of the member [LRU]. *)
Definition on_lru {A} (m : L A) : C A := λ s,
  match m (LRU s) with Ok (a, l) => Ok (a, set_LRU l s) | Fault f => Fault f end.

Definition check {A} (r : res A) : C A := λ s,
  match r with Ok a => Ok (a, s) | Fault f => Fault f end.

Definition schedule_after_msec (now n : Z) : C () := modify (set_timer (Some (now + n))).

(** Click's [int] from [double] *)
Definition to_int (z : Z) : res Z :=
  if (-2147483648 <=? z) && (z <=? 2147483647) then Ok z else Fault OutOfRange.

(** ** Configuration *)

(** [strcmp(s.c_str(), t) == 0] *)
Fixpoint c_string (s : bytes) : bytes :=
  match s with [] => [] | x :: s => if x =? 0 then [] else x :: c_string s end.
Definition str_true : bytes := [116; 114; 117; 101].

(** [configure]: [conf] has the node's GlobalConf first. *)
Definition ControlReliability_configure (conf : list bytes) : control :=
  let on := (1 <? zlen conf) && bool_decide (c_string (nth 1 conf []) = str_true) in
  mkCR (negb on) lru0 None 0 None [].

(** [initialize]; [mem] is what [malloc] returns. *)
Definition ControlReliability_initialize (mem : list Z) (s : control) : control :=
  set_acks (Some (take CPR_STATE_SIZE mem)) 0 s.

(** [cleanup]: the identifiers are freed. *)
Definition ControlReliability_cleanup (configured : bool) : C () :=
  if configured then
    r ← gets lastReceivedAckIDs; _ ← lift_opt UseAfterFree r;
    n ← gets receivedAckCnt; modify (set_acks None n)
  else mret ().

(** ** Requests of the LocalProxy *)

(** What [push] finds out about a packet of the LocalProxy: it is sent
    reliably. *)
Definition is_reliable (gc : gconf) (d : bytes) : res bool :=
  fid ← data_read d 0 FID_LEN;
  numOfIDs ← data_byte d FID_LEN;
  if negb (numOfIDs =? 1) then Ok false else
  IDLen ← data_byte d (FID_LEN + 1);
  let n := (Z.to_nat IDLen * PURSUIT_ID_LEN)%nat in
  rID ← data_read d (FID_LEN + 2) n;
  packet_type ← data_byte d (FID_LEN + 2 + n);
  fid ← BABitvector_to_string (FID_of_bytes fid);
  rv ← BABitvector_to_string (defaultRV_dl gc);
  let from_TM := type_TM gc && bool_decide (take PURSUIT_ID_LEN rID = take PURSUIT_ID_LEN (notificationIID gc)) in
  Ok (from_TM || (negb (packet_type =? PUBLISH_DATA) && bool_decide (fid = rv))).

(** The four bytes of an identifier, the first one the highest. *)
Definition ack_bytes (ackID : Z) : bytes :=
  [Z.land (Z.shiftr ackID 24) 255; Z.land (Z.shiftr ackID 16) 255; Z.land (Z.shiftr ackID 8) 255; Z.land ackID 255].
Definition ack_of (b : bytes) : Z :=
  u32 (Z.lor (Z.lor (Z.lor (Z.shiftl (nth 0 b 0) 24) (Z.shiftl (nth 1 b 0) 16)) (Z.shiftl (nth 2 b 0) 8)) (nth 3 b 0)).

(** Bytes of the header with the identifier of the peer's way back. *)
Definition CPR_HEADER : nat := 1 + 1 + PURSUIT_ID_LEN + 1 + FID_LEN + 4.

(** The chunks copied into [tmp_buff]; [rev] is in the buffer where a topology
    manager writes nothing. *)
Definition request_chunks (gc : gconf) (ackID : Z) (rev d : bytes) : res (list bytes) :=
  fid ← data_read d 0 FID_LEN;
  rev ← (if type_TM gc then Ok rev else FID_read (defaultFromRV_dl gc));
  Ok [fid; [1]; [u8 (zlen controlReliabilityScope / Z.of_nat PURSUIT_ID_LEN)];
      controlReliabilityScope; [CONTROL_REC]; rev; ack_bytes ackID; drop FID_LEN d].

(** What a request needs from its surroundings: the number of [rand()], the
    uninitialised bytes of the buffer, and the bytes after the buffer when the
    packet is filled and when the pending request is stored. *)
Record surroundings := mkSur { rand : Z; unset : bytes; beyond : bytes; beyond' : bytes }.

(** [tmp_buff], which is [payload->length() + 47] bytes long and is filled to
    its end *)
Definition tmp_buff (gc : gconf) (w : surroundings) (d : bytes) : res bytes :=
  chunks ← request_chunks gc (rand w) (unset w) d;
  if zlen (mjoin chunks) <=? zlen d + Z.of_nat CPR_HEADER then Ok (mjoin chunks) else Fault OutOfBounds.

(** [push] on port 0.  [payload->put(offset)] makes the packet
    [FID_LEN] bytes longer than [tmp_buff]; both copies of the buffer go on
    reading after its end. *)
Definition push_from_proxy (gc : gconf) (w : surroundings) (now : Z) (d : bytes) : C () :=
  bypass ← gets byPassMode;
  if bypass : bool then emit (Push 0 Given d) else
  reliable ← check (is_reliable gc d);
  if negb reliable then emit (Push 0 Given d) else
  tmp ← check (tmp_buff gc w d);
  _ ← on_lru (insert_new (u32 (rand w)) (tmp ++ beyond' w) now);
  emit (Push 0 Given (tmp ++ beyond w));;
  emit (Kill Given);;
  t ← gets timer;
  match t with None => schedule_after_msec now CPR_TIMER_EXPIRATION | Some _ => mret () end.

(** ** Packets of the network *)

Definition isAckIDStored (_ack : Z) : C bool :=
  r ← gets lastReceivedAckIDs; r ← lift_opt UseAfterFree r;
  mret (bool_decide (_ack ∈ take CPR_STATE_SIZE r)).

(** [lastReceivedAckIDs[receivedAckCnt++] = ackID] and the wrap-around *)
Definition store_ack (ackID : Z) : C () :=
  r ← gets lastReceivedAckIDs; r ← lift_opt UseAfterFree r;
  n ← gets receivedAckCnt;
  if (n <? length r)%nat then
    modify (set_acks (Some (<[n := ackID]> r)) (if (S n =? CPR_STATE_SIZE)%nat then 0%nat else S n))
  else throw OutOfBounds.

(** The scope of a packet with one identifier. *)
Definition packet_scope (d : bytes) : res (option (bytes * nat)) :=
  _ ← data_read d 0 FID_LEN;
  numberOfIDs ← data_byte d FID_LEN;
  if negb (numberOfIDs =? 1) then Ok None else
  IDLength ← data_byte d (FID_LEN + 1);
  let n := (Z.to_nat IDLength * PURSUIT_ID_LEN)%nat in
  ID ← data_read d (FID_LEN + 2) n;
  Ok (Some (ID, (FID_LEN + 2 + n)%nat)).

(** The acknowledgement of a request whose header ends at [offset]. *)
Definition make_ack (gc : gconf) (d : bytes) (type_pos offset : nat) : res bytes :=
  _ ← data_byte d offset;
  tm_IDLength ← data_byte d (offset + 1);
  tm_ID ← data_read d (offset + 2) (Z.to_nat tm_IDLength * PURSUIT_ID_LEN);
  pp ← data_read d 0 offset;
  fid ← (if bool_decide (tm_ID = notificationIID gc) then FID_read (TMFID gc)
         else data_read d (type_pos + 1) FID_LEN);
  pp ← write 0 fid pp;
  write type_pos [CONTROL_ACK] pp.

(** [push] on port 1 *)
Definition push_from_network (gc : gconf) (d : bytes) : C () :=
  sc ← check (packet_scope d);
  match sc with
  | None => emit (Push 1 Given (drop FID_LEN d))
  | Some (ID, type_pos) =>
      if negb (bool_decide (ID = controlReliabilityScope)) then emit (Push 1 Given (drop FID_LEN d)) else
      type ← check (data_byte d type_pos);
      let offset := (type_pos + 1 + FID_LEN)%nat in
      ack ← check (data_read d offset 4);
      let ackID := ack_of ack in
      let offset := (offset + 4)%nat in
      (if type =? CONTROL_REC then
         pp ← check (make_ack gc d type_pos offset);
         emit (Push 0 Made pp);;
         stored ← isAckIDStored ackID;
         if stored : bool then mret () else
         emit (Push 1 Given (drop offset d));; store_ack ackID
       else if type =? CONTROL_ACK then _ ← on_lru (Pending_LRU_remove ackID); mret ()
       else mret ());;
      emit (Kill Given)
  end.

Definition ControlReliability_push (gc : gconf) (w : surroundings) (now in_port : Z) (d : bytes) : C () :=
  if in_port =? 0 then push_from_proxy gc w now d
  else if in_port =? 1 then push_from_network gc d
  else emit (Kill Given).

(** ** The timer *)

(** [LRU.sent_times[k]] and [LRU.objects[k]]: a missing key is added. *)
Definition sent_time (k : Z) : L Z :=
  t ← gets (λ s, sent_times s !! k);
  match t with
  | Some t => mret t
  | None => modify (λ s, set_times (<[k := 0]> (sent_times s)) s);; mret 0
  end.
Definition object_of (k : Z) : L ptr := p ← gets (λ s, objects s !! k); deref p.

(** The report of a request that was given up. *)
Definition failure_report (data : bytes) : res bytes :=
  let offset := (1 + 1 + PURSUIT_ID_LEN + 1)%nat in
  hd ← data_read data FID_LEN offset;
  rest ← data_read data (2 * FID_LEN + offset + 4) (length data - (2 * FID_LEN + offset + 4));
  let q := hd ++ [CONTROL_REQ_FAILURE] ++ rest in
  if zlen q <=? zlen data - 2 * Z.of_nat FID_LEN - 4 + 1 then Ok q else Fault OutOfBounds.

(** [run_timer]: [now] is read at the beginning, [now'] by [update]. *)
Definition run_timer (now now' : Z) : C () :=
  modify (set_timer None);;
  n ← gets (λ s, size (objects (LRU s)));
  if (n =? 0)%nat then mret () else
  k ← on_lru tail_ackID;
  t ← on_lru (sent_time k);
  diff ← check (to_int (now - t - CPR_TIMER_EXPIRATION));
  if diff <? 0 then schedule_after_msec now (- diff) else
  k ← on_lru tail_ackID;
  p ← on_lru (object_of k);
  obj ← on_lru (get_obj p);
  (if retransmissions obj >=? CPR_MAX_RETRANSMISSIONS then
     q ← check (failure_report (o_data obj));
     emit (Push 1 Made q);;
     _ ← on_lru (Pending_LRU_remove (ackID obj)); mret ()
   else
     emit (Push 0 Made (o_data obj));;
     _ ← on_lru (Pending_LRU_update (ackID obj) now');
     on_lru (retry_obj p));;
  n ← gets (λ s, size (objects (LRU s)));
  if (0 <? n)%nat then
    k ← on_lru tail_ackID;
    t ← on_lru (sent_time k);
    schedule_after_msec now (Z.max 1 (now - t - CPR_TIMER_EXPIRATION))
  else mret ().
