(* ===== verification/Reliability.v ===== *)
(** * The properties of ControlReliability

    An abstract state is the list of pending requests, oldest first, and the
    list of the identifiers received, the latest first; [cr_ok] relates a
    state of the element to it.  Every input is given its effect on the
    abstract state and the packets it sends; then follow the invariant of all
    reachable states, the exchange between two nodes, and what happens to a
    request that nobody acknowledges. *)

From Stdlib Require Import Sorted.
From S2P Require Import Prelude Enums BitVector Packet GlobalConf PendingLRU ControlReliability.

(** ** The ring of identifiers *)

(** The ring holds the last [CPR_STATE_SIZE] identifiers of [h]. *)
Definition ring_ok (r : list Z) (cnt : nat) (h : list Z) : Prop :=
  length r = CPR_STATE_SIZE ∧ (cnt < CPR_STATE_SIZE)%nat ∧
  ∀ i, (i < CPR_STATE_SIZE)%nat → h !! i = r !! ((cnt + 99 - i) mod 100)%nat.

Lemma ring_initial mem : length mem = CPR_STATE_SIZE → ring_ok mem 0 (reverse mem).
Proof.
  intros Hl. unfold ring_ok, CPR_STATE_SIZE in *. split_and!; [done|lia|]. intros i Hi.
  rw reverse_lookup; [|lia]. rw Hl Nat.mod_small; [|lia]. f_equal; lia.
Qed.

Lemma ring_next r cnt h a : ring_ok r cnt h →
  ring_ok (<[cnt := a]> r) (if (S cnt =? CPR_STATE_SIZE)%nat then 0%nat else S cnt) (a :: h).
Proof.
  unfold ring_ok, CPR_STATE_SIZE. intros (Hl & Hc & Hi). rw length_insert.
  set (cnt' := if (S cnt =? 100)%nat then 0%nat else S cnt). assert (cnt' = (S cnt) mod 100)%nat as Hc'.
  { subst cnt'. destruct (Nat.eqb_spec (S cnt) 100) as [->|]; [done|]. rw Nat.mod_small; lia. }
  split_and!; [done|rw Hc'; by apply Nat.mod_upper_bound|]. intros [|i] Hlt; cbn [lookup list_lookup].
  - replace ((cnt' + 99 - 0) mod 100)%nat with cnt.
    { by rw list_lookup_insert_eq; [|lia]. }
    subst cnt'. destruct (Nat.eqb_spec (S cnt) 100); [lia|]. replace (S cnt + 99 - 0)%nat with (cnt + 1 * 100)%nat by lia.
    rw Nat.Div0.mod_add Nat.mod_small; lia.
  - change (list_lookup i h) with (h !! i). rw Hi; [|lia].
    replace ((cnt' + 99 - S i) mod 100)%nat with ((cnt + 99 - i) mod 100)%nat.
    + rw list_lookup_insert_ne //. intros E. destruct (Nat.le_gt_cases 100 (cnt + 99 - i)).
      * replace (cnt + 99 - i)%nat with ((cnt - 1 - i) + 1 * 100)%nat in E by lia. rw Nat.Div0.mod_add Nat.mod_small in E; lia.
      * rw Nat.mod_small in E; lia.
    + subst cnt'. destruct (Nat.eqb_spec (S cnt) 100); [|f_equal; lia].
      replace (cnt + 99 - i)%nat with ((0 + 99 - S i) + 1 * 100)%nat by lia. by rw Nat.Div0.mod_add.
Qed.

Lemma ring_in r cnt h a : ring_ok r cnt h → a ∈ take CPR_STATE_SIZE r ↔ a ∈ take CPR_STATE_SIZE h.
Proof.
  unfold ring_ok, CPR_STATE_SIZE. intros (Hl & Hc & Hi). rw (take_ge r); [|lia]. rw !list_elem_of_lookup. split.
  - intros (j & Hj). assert (j < 100)%nat by (apply lookup_lt_Some in Hj; lia).
    exists ((cnt + 99 - j) mod 100)%nat. assert ((cnt + 99 - j) mod 100 < 100)%nat by by apply Nat.mod_upper_bound.
    rw lookup_take_lt // Hi //. rw -Hj. f_equal.
    destruct (Nat.le_gt_cases 100 (cnt + 99 - j)).
    + replace (cnt + 99 - j)%nat with ((cnt - 1 - j) + 1 * 100)%nat by lia. rw Nat.Div0.mod_add (Nat.mod_small (cnt - 1 - j)); [|lia].
      replace (cnt + 99 - (cnt - 1 - j))%nat with (j + 1 * 100)%nat by lia. rw Nat.Div0.mod_add Nat.mod_small; lia.
    + rw (Nat.mod_small (cnt + 99 - j)); [|lia]. replace (cnt + 99 - (cnt + 99 - j))%nat with j by lia. rw Nat.mod_small; lia.
  - intros (i & Hx). assert (i < 100)%nat by (apply lookup_lt_Some in Hx; rw length_take in Hx; lia).
    rw lookup_take_lt // Hi // in Hx. by eexists.
Qed.

(** ** The invariant *)

(** A pending request is a packet with its header, sent at most four times. *)
Definition entry_ok (e : entry) : Prop :=
  (FID_LEN + CPR_HEADER ≤ length (e_data e))%nat ∧ 0 <= e_retrans e <= CPR_MAX_RETRANSMISSIONS.

Record cr_ok (now : Z) (s : control) (es : list entry) (h : list Z) : Prop := {
  ok_lru : lru_is (LRU s) es;
  ok_size : (length es ≤ S CPR_LRU_SIZE)%nat;
  ok_entries : Forall entry_ok es;
  ok_ordered : ordered now es;
  ok_timer : es ≠ [] → is_Some (timer s);
  ok_ring : ∃ r, lastReceivedAckIDs s = Some r ∧ ring_ok r (receivedAckCnt s) h;
}.

Lemma cr_ok_later now now' s es h : cr_ok now s es h → now <= now' → cr_ok now' s es h.
Proof. intros [] ?. split; try done. by eapply ordered_later. Qed.

(** Sending a packet changes nothing else. *)
Lemma cr_ok_events now s es h ev : cr_ok now s es h → cr_ok now (set_events ev s) es h.
Proof. intros []. by split. Qed.

Lemma cr_ok_timer now s es h t : cr_ok now s es h → cr_ok now (set_timer (Some t) s) es h.
Proof. intros []. split; try done. Qed.

Lemma cr_ok_lru now s l es es' h : cr_ok now s es h → lru_is l es' → (length es' ≤ S CPR_LRU_SIZE)%nat →
  Forall entry_ok es' → ordered now es' → (es' ≠ [] → is_Some (timer s)) → cr_ok now (set_LRU l s) es' h.
Proof. intros []. by split. Qed.

(** ** Steps *)

Lemma wp_on_lru {A} (m : L A) (Q : A → control → Prop) s :
  wp m (λ a l, Q a (set_LRU l s)) (LRU s) → wp (on_lru m) Q s.
Proof. unfold wp, on_lru. by destruct (m (LRU s)) as [[a l]|]. Qed.

Lemma wp_checked {A} (r : res A) a (Q : A → control → Prop) s : r = Ok a → Q a s → wp (check r) Q s.
Proof. intros -> H. exact H. Qed.

Lemma wp_emitted e (Q : () → control → Prop) s : Q () (set_events (events s ++ [e]) s) → wp (emit e) Q s.
Proof. done. Qed.

Lemma wp_schedule now n (Q : () → control → Prop) s : Q () (set_timer (Some (now + n)) s) → wp (schedule_after_msec now n) Q s.
Proof. done. Qed.

Ltac cr_step := first [wp_step | apply wp_emitted; cbv beta | apply wp_schedule; cbv beta].
Ltac cr_steps := repeat cr_step.

Lemma spec_insert_ok k data now es : NoDup (e_id <$> es) → Forall entry_ok es →
  (FID_LEN + CPR_HEADER ≤ length data)%nat → Forall entry_ok (spec_insert k data now es).
Proof.
  intros Hnd Hes Hd. unfold spec_insert. case_decide.
  - unfold spec_update. apply Forall_app. split; [by apply Forall_filter_sub|]. apply Forall_fmap.
    eapply Forall_filter_sub, Forall_impl; [exact Hes|]. done.
  - apply Forall_app. split; [by apply Forall_drop|]. apply Forall_singleton. split; [done|]. cbn. unfold CPR_MAX_RETRANSMISSIONS. lia.
Qed.

(** What a request of the LocalProxy that is not sent reliably leads to. *)
Lemma wp_request_plain gc w now d s es h : cr_ok now s es h →
  byPassMode s = true ∨ is_reliable gc d = Ok false →
  wp (push_from_proxy gc w now d) (λ _ s', s' = set_events (events s ++ [Push 0 Given d]) s) s.
Proof.
  intros Hok Hp. unfold push_from_proxy. wp_steps. destruct (byPassMode s) eqn:Hb.
  - by apply wp_modify.
  - destruct Hp as [?|Hr]; [done|]. wp_steps. eapply wp_checked; [done|]. by apply wp_modify.
Qed.

Lemma wp_request_reliable gc w now d tmp s es h : cr_ok now s es h →
  byPassMode s = false → is_reliable gc d = Ok true → tmp_buff gc w d = Ok tmp → (FID_LEN + CPR_HEADER ≤ length tmp)%nat →
  wp (push_from_proxy gc w now d)
    (λ _ s', cr_ok now s' (spec_insert (u32 (rand w)) (tmp ++ beyond' w) now es) h ∧
       events s' = events s ++ [Push 0 Given (tmp ++ beyond w); Kill Given] ∧
       byPassMode s' = byPassMode s ∧
       timer s' = Some (default (now + CPR_TIMER_EXPIRATION) (timer s))) s.
Proof.
  intros Hok Hb Hr Ht Hl. unfold push_from_proxy. wp_steps. rw Hb. wp_steps. eapply wp_checked; [done|]. cbn [negb]. wp_steps.
  eapply wp_checked; [done|]. wp_steps. apply wp_on_lru. eapply wp_mono; [apply wp_spec_insert, Hok|].
  intros r l (_ & Hlru). wp_steps.
  assert (NoDup (e_id <$> es)) as Hnd by (eapply lru_is_nodup, Hok).
  assert (Forall entry_ok (spec_insert (u32 (rand w)) (tmp ++ beyond' w) now es)) as Hes.
  { apply spec_insert_ok; [done|apply Hok|rw length_app; lia]. }
  assert (length (spec_insert (u32 (rand w)) (tmp ++ beyond' w) now es) ≤ S CPR_LRU_SIZE)%nat as Hsz.
  { apply spec_insert_length; [done|apply Hok]. }
  assert (ordered now (spec_insert (u32 (rand w)) (tmp ++ beyond' w) now es)) as Hord.
  { apply ordered_insert; [done|apply Hok]. }
  cr_steps. cbn [timer set_events set_LRU events]. destruct Hok. destruct (timer s) as [t|] eqn:Et; cr_steps.
  - split_and!; cbn; [split; cbn; auto|by rw -app_assoc|done|done].
  - split_and!; cbn; [split; cbn; auto|by rw -app_assoc|done|done].
Qed.

(** ** Frames with the header *)

(** A packet with the header; [rest] is what the header was put before. *)
Definition frame (fid : bytes) (type : Z) (rev ack rest : bytes) : bytes :=
  fid ++ [1; 1] ++ controlReliabilityScope ++ [type] ++ rev ++ ack ++ rest.

Section frame.
Context (gc : gconf) (fid rev ack rest : bytes) (type : Z).
Context (Hfid : length fid = FID_LEN) (Hrev : length rev = FID_LEN) (Hack : length ack = 4%nat).

Lemma frame_scope : packet_scope (frame fid type rev ack rest) = Ok (Some (controlReliabilityScope, 42%nat)).
Proof using Hfid.
  unfold packet_scope, frame. rw (data_read_at _ [] fid _ _ _ eq_refl) //. cbn [mbind res_mbind res_bind].
  rw (data_byte_at _ fid 1 _ _ eq_refl Hfid). cbn [mbind res_mbind res_bind Z.eqb Pos.eqb negb].
  set (tail := [type] ++ rev ++ ack ++ rest).
  rw (data_byte_at _ (fid ++ [1]) 1 (controlReliabilityScope ++ tail) (FID_LEN + 1)%nat); [|by rw -app_assoc|by rw length_app Hfid]. cbn [mbind res_mbind res_bind].
  rw (data_read_at _ (fid ++ [1; 1]) controlReliabilityScope tail (FID_LEN + 2)%nat); [done|by rw -app_assoc|by rw length_app Hfid|done].
Qed.

Lemma frame_type : data_byte (frame fid type rev ack rest) 42 = Ok type.
Proof using Hfid.
  apply (data_byte_at _ (fid ++ [1; 1] ++ controlReliabilityScope) type (rev ++ ack ++ rest)); [by unfold frame; rw -!app_assoc|].
  by rw length_app Hfid.
Qed.

Lemma frame_ack : data_read (frame fid type rev ack rest) 75 4 = Ok ack.
Proof using Hfid Hrev Hack.
  apply (data_read_at _ (fid ++ [1; 1] ++ controlReliabilityScope ++ [type] ++ rev) ack rest); [by unfold frame; rw -!app_assoc| |done].
  by rw !length_app Hfid Hrev.
Qed.

Lemma frame_rest : drop 79 (frame fid type rev ack rest) = rest.
Proof using Hfid Hrev Hack.
  apply (drop_at _ (fid ++ [1; 1] ++ controlReliabilityScope ++ [type] ++ rev ++ ack)); [by unfold frame; rw -!app_assoc|].
  by rw !length_app Hfid Hrev Hack.
Qed.

(** The identifiers at the beginning of the payload. *)
Lemma frame_make_ack n l id tail fid' : rest = [n; l] ++ id ++ tail → length id = (Z.to_nat l * PURSUIT_ID_LEN)%nat →
  (if bool_decide (id = notificationIID gc) then FID_read (TMFID gc) else Ok rev) = Ok fid' →
  make_ack gc (frame fid type rev ack rest) 42 79 = Ok (frame fid' CONTROL_ACK rev ack []).
Proof using Hfid Hrev Hack.
  intros -> Hid Hf. unfold make_ack.
  set (hd := fid ++ [1; 1] ++ controlReliabilityScope ++ [type] ++ rev ++ ack).
  assert (length hd = 79%nat) as Hhd by (subst hd; rw !length_app Hfid Hrev Hack; done).
  assert (frame fid type rev ack ([n; l] ++ id ++ tail) = hd ++ [n; l] ++ id ++ tail) as Hfr by (unfold frame, hd; by rw -!app_assoc).
  assert (length fid' = FID_LEN) as Hfid'.
  { case_bool_decide; [by eapply FID_read_length|by injection Hf as <-]. }
  rw (data_byte_at _ hd n (l :: id ++ tail) 79%nat) //. cbn [mbind res_mbind res_bind].
  rw (data_byte_at _ (hd ++ [n]) l (id ++ tail) (79 + 1)%nat); [|by rw Hfr -app_assoc|by rw length_app Hhd]. cbn [mbind res_mbind res_bind].
  rw (data_read_at _ (hd ++ [n; l]) id tail (79 + 2)%nat); [|by rw Hfr -app_assoc|by rw length_app Hhd|done]. cbn [mbind res_mbind res_bind].
  rw (data_read_at _ [] hd ([n; l] ++ id ++ tail) 0%nat 79%nat); [|done|done|done]. cbn [mbind res_mbind res_bind].
  assert (data_read (frame fid type rev ack ([n; l] ++ id ++ tail)) (42 + 1) FID_LEN = Ok rev) as ->.
  { apply (data_read_at _ (fid ++ [1; 1] ++ controlReliabilityScope ++ [type]) rev (ack ++ [n; l] ++ id ++ tail));
      [unfold frame; by rw -!app_assoc|by rw !length_app Hfid|done]. }
  rw Hf. cbn [mbind res_mbind res_bind].
  rw (write_at _ [] fid ([1; 1] ++ controlReliabilityScope ++ [type] ++ rev ++ ack)); [|done|done|by rw Hfid'].
  cbn [mbind res_mbind res_bind].
  rw (write_at _ (fid' ++ [1; 1] ++ controlReliabilityScope) [type] (rev ++ ack)); [|by rw -!app_assoc|by rw length_app Hfid'|done].
  unfold frame. rw -!app_assoc app_nil_r. done.
Qed.
End frame.

Lemma ack_bytes_length k : length (ack_bytes k) = 4%nat.
Proof. done. Qed.

(** A byte of a number, moved to a place. *)
Lemma byte_bit k a n : 0 <= a → 0 <= n →
  Z.testbit (Z.shiftl (Z.land (Z.shiftr k a) 255) a) n = (a <=? n) && (n <? a + 8) && Z.testbit k n.
Proof.
  intros Ha Hn. rw Z.shiftl_spec //. destruct (Z.leb_spec a n); cbn [andb].
  - change 255 with (Z.ones 8). rw Z.land_spec Z.shiftr_spec; [|lia]. rw Z.testbit_ones_nonneg; [|lia..].
    rw andb_comm Z.sub_add. f_equal. apply eq_true_iff_eq. rw !Z.ltb_lt. lia.
  - apply Z.testbit_neg_r. lia.
Qed.

(** The identifier survives its four bytes. *)
Lemma ack_of_bytes k : 0 <= k < 2 ^ 32 → ack_of (ack_bytes k) = k.
Proof.
  intros Hk. unfold ack_of, ack_bytes, u32. cbn [nth]. change 4294967296 with (2 ^ 32). apply Z.bits_inj'. intros n Hn.
  rw -(Z.mod_small k (2 ^ 32)) //. destruct (Z.ltb_spec n 32) as [Hlt|Hge]; [|by rw !Z.mod_pow2_bits_high].
  rw !Z.mod_pow2_bits_low // !Z.lor_spec (Z.mod_small k) //.
  rw -(Z.shiftl_0_r (Z.land k 255)) -{4}(Z.shiftr_0_r k). rw !byte_bit; [|lia..].
  destruct (Z.testbit k n); lia.
Qed.

(** ** The packets of the network *)

Definition rev_FID (gc : gconf) (w : surroundings) : res bytes :=
  if type_TM gc then Ok (unset w) else FID_read (defaultFromRV_dl gc).

(** [tmp_buff] is the request with its header. *)
Lemma tmp_buff_frame gc w fid rest rev : length fid = FID_LEN → rev_FID gc w = Ok rev → length rev = FID_LEN →
  tmp_buff gc w (fid ++ rest) = Ok (frame fid CONTROL_REC rev (ack_bytes (rand w)) rest).
Proof.
  unfold rev_FID. intros Hfid Hrev Hl. unfold tmp_buff, request_chunks.
  rw (data_read_at _ [] fid rest) //. cbn [mbind res_mbind res_bind]. rw Hrev. cbn [mbind res_mbind res_bind].
  rw (drop_at _ fid rest) //.
  change (u8 (zlen controlReliabilityScope / Z.of_nat PURSUIT_ID_LEN)) with 1.
  assert (mjoin [fid; [1]; [1]; controlReliabilityScope; [CONTROL_REC]; rev; ack_bytes (rand w); rest] =
    frame fid CONTROL_REC rev (ack_bytes (rand w)) rest) as ->.
  { transitivity (fid ++ [1] ++ [1] ++ controlReliabilityScope ++ [CONTROL_REC] ++ rev ++ ack_bytes (rand w) ++ rest ++ []); [done|].
    by rw app_nil_r. }
  destruct (Z.leb_spec (zlen (frame fid CONTROL_REC rev (ack_bytes (rand w)) rest)) (zlen (fid ++ rest) + Z.of_nat CPR_HEADER)) as [|Hx]; [done|].
  exfalso. revert Hx. unfold frame, zlen. rw !length_app Hfid Hl. change CPR_HEADER with 47%nat. cbn. lia.
Qed.

Lemma frame_length fid type rev ack rest : length (frame fid type rev ack rest) =
  (length fid + 11 + length rev + length ack + length rest)%nat.
Proof. unfold frame. rw !length_app. change (length controlReliabilityScope) with 8%nat. cbn. lia. Qed.

(** A packet of another scope goes up, without its forwarding identifier. *)
Lemma wp_network_other gc d s : packet_scope d = Ok None ∨
    (∃ ID n, packet_scope d = Ok (Some (ID, n)) ∧ ID ≠ controlReliabilityScope) →
  wp (push_from_network gc d) (λ _ s', s' = set_events (events s ++ [Push 1 Given (drop FID_LEN d)]) s) s.
Proof.
  intros [E|(ID & n & E & Hne)]; unfold push_from_network; apply wp_bind; (eapply wp_checked; [exact E|]); cbv beta iota.
  - by apply wp_modify.
  - by rw bool_decide_eq_false_2.
Qed.

(** The acknowledgement of a request that starts with the identifier [id]. *)
Definition ack_fid (gc : gconf) (rev id : bytes) : res bytes :=
  if bool_decide (id = notificationIID gc) then FID_read (TMFID gc) else Ok rev.

Section network.
Context (gc : gconf) (fid rev ack rest : bytes) (type : Z) (now : Z) (s : control) (es : list entry) (h : list Z).
Context (Hfid : length fid = FID_LEN) (Hrev : length rev = FID_LEN) (Hack : length ack = 4%nat).
Context (Hok : cr_ok now s es h).

Lemma network_header (Q : () → control → Prop) :
  wp ((if type =? CONTROL_REC then
         pp ← check (make_ack gc (frame fid type rev ack rest) 42 79);
         emit (Push 0 Made pp);;
         stored ← isAckIDStored (ack_of ack);
         if stored : bool then mret () else
         emit (Push 1 Given rest);; store_ack (ack_of ack)
       else if type =? CONTROL_ACK then _ ← on_lru (Pending_LRU_remove (ack_of ack)); mret ()
       else mret ());; emit (Kill Given)) Q s →
  wp (push_from_network gc (frame fid type rev ack rest)) Q s.
Proof using Hfid Hrev Hack.
  intros HQ. unfold push_from_network. apply wp_bind. eapply wp_checked; [by apply frame_scope|]. cbv beta iota.
  cbn [negb bool_decide]. rw bool_decide_eq_true_2 //. cbn [negb]. apply wp_bind. eapply wp_checked; [by apply frame_type|].
  apply wp_bind. eapply wp_checked; [by apply frame_ack|]. by rw frame_rest.
Qed.

(** A request: it is acknowledged, and delivered unless it is one of the last
    [CPR_STATE_SIZE]. *)
Lemma wp_network_request n l id tail fid' : type = CONTROL_REC →
  rest = [n; l] ++ id ++ tail → length id = (Z.to_nat l * PURSUIT_ID_LEN)%nat → ack_fid gc rev id = Ok fid' →
  let k := ack_of ack in let dup := bool_decide (k ∈ take CPR_STATE_SIZE h) in
  wp (push_from_network gc (frame fid type rev ack rest)) (λ _ s',
    events s' = events s ++ [Push 0 Made (frame fid' CONTROL_ACK rev ack [])] ++
      (if dup then [] else [Push 1 Given rest]) ++ [Kill Given] ∧
    cr_ok now s' es (if dup then h else k :: h) ∧ timer s' = timer s ∧ byPassMode s' = byPassMode s) s.
Proof using Hfid Hrev Hack Hok.
  intros Ht Hr Hid Hf k dup. apply network_header. rw Ht Z.eqb_refl. apply wp_bind, wp_bind.
  eapply wp_checked; [by eapply frame_make_ack|]. cr_steps. unfold isAckIDStored.
  destruct (ok_ring _ _ _ _ Hok) as (r & Er & Hring). cr_steps. eapply wp_lift_opt; [done|]. cr_steps.
  fold k. rw (bool_decide_ext _ (k ∈ take CPR_STATE_SIZE h)); [|by eapply ring_in]. fold dup. destruct dup; cr_steps.
  - split_and!; [by rw -app_assoc|by do 2 apply cr_ok_events|done|done].
  - unfold store_ack. cr_steps. eapply wp_lift_opt; [done|]. cr_steps. destruct Hring as (Hl & Hc & _).
    cbn [receivedAckCnt set_events]. destruct (Nat.ltb_spec (receivedAckCnt s) (length r)); [|lia]. cr_steps.
    split_and!; [cbn; by rw -!app_assoc| |done|done]. destruct Hok. split; try done. cbn. eexists. split; [done|].
    apply ring_next. destruct ok_ring0 as (r' & Er' & Hr'). by simplify_eq.
Qed.

(** An acknowledgement ends a pending request. *)
Lemma wp_network_ack : type = CONTROL_ACK →
  wp (push_from_network gc (frame fid type rev ack rest)) (λ _ s',
    events s' = events s ++ [Kill Given] ∧ cr_ok now s' (spec_remove (ack_of ack) es) h ∧
    timer s' = timer s ∧ byPassMode s' = byPassMode s) s.
Proof using Hfid Hrev Hack Hok.
  intros Ht. apply network_header. rw Ht. cbn [Z.eqb Pos.eqb CONTROL_REC CONTROL_ACK]. apply wp_bind, wp_bind, wp_on_lru.
  eapply wp_mono; [apply wp_spec_remove, Hok|]. intros r l (_ & Hl & _). cr_steps. split_and!; [done| |done|done].
  apply cr_ok_events. apply (cr_ok_lru _ _ _ es); try done.
  - pose proof (ok_size _ _ _ _ Hok). unfold spec_remove. etrans; [apply length_filter|done].
  - apply Forall_filter_sub, Hok.
  - apply ordered_remove, Hok.
  - intros Hne. apply (ok_timer _ _ _ _ Hok). by intros ->.
Qed.

Lemma wp_network_unknown : type ≠ CONTROL_REC → type ≠ CONTROL_ACK →
  wp (push_from_network gc (frame fid type rev ack rest)) (λ _ s', s' = set_events (events s ++ [Kill Given]) s) s.
Proof using Hfid Hrev Hack.
  intros H1 H2. apply network_header. destruct (Z.eqb_spec type CONTROL_REC); [done|]. destruct (Z.eqb_spec type CONTROL_ACK); [done|].
  by cr_steps.
Qed.
End network.

(** ** The timer *)

(** When the timer fires next, [es] being what is left. *)
Definition next_due (now : Z) (es : list entry) : option Z :=
  match es with [] => None | e :: _ => Some (now + Z.max 1 (now - e_time e - CPR_TIMER_EXPIRATION)) end.

Lemma wp_tail s e es (Q : Z → control → Prop) : lru_is (LRU s) (e :: es) → Q (e_id e) s → wp (on_lru tail_ackID) Q s.
Proof.
  intros Hl HQ. apply wp_on_lru. destruct (lru_is_tail _ _ _ Hl) as (Ht & _). apply Ht.
  assert (set_LRU (LRU s) s = s) as -> by by destruct s. done.
Qed.

Lemma wp_sent_time s e es (Q : Z → control → Prop) : lru_is (LRU s) (e :: es) → Q (e_time e) s →
  wp (on_lru (sent_time (e_id e))) Q s.
Proof.
  intros Hl HQ. apply wp_on_lru. destruct (lru_is_tail _ _ _ Hl) as (_ & Ht & _). unfold sent_time. wp_steps. rw Ht. wp_steps.
  assert (set_LRU (LRU s) s = s) as -> by by destruct s. done.
Qed.

Lemma wp_reschedule now s es : lru_is (LRU s) es → (es = [] → timer s = None) →
  wp (n ← gets (λ s, size (objects (LRU s)));
      if (0 <? n)%nat then
        k ← on_lru tail_ackID;
        t ← on_lru (sent_time k);
        schedule_after_msec now (Z.max 1 (now - t - CPR_TIMER_EXPIRATION))
      else mret ()) (λ _ s', s' = set_timer (next_due now es) s) s.
Proof.
  intros Hl Ht. wp_steps. rw (lru_is_size _ _ Hl). destruct es as [|e es]; cbn [length Nat.ltb Nat.leb].
  - apply wp_ret. unfold set_timer. cbn. rw -Ht //. by destruct s.
  - apply wp_bind. eapply wp_tail; [done|]. apply wp_bind. by eapply wp_sent_time.
Qed.

Lemma failure_report_ok data : (79 ≤ length data)%nat →
  failure_report data = Ok (take 11 (drop FID_LEN data) ++ [CONTROL_REQ_FAILURE] ++ drop 79 data).
Proof.
  intros Hl. unfold failure_report. rw data_read_ok; [|cbn; lia]. cbn [mbind res_mbind res_bind].
  rw data_read_ok; [|cbn; lia]. cbn [mbind res_mbind res_bind]. change (2 * FID_LEN + (1 + 1 + PURSUIT_ID_LEN + 1) + 4)%nat with 79%nat.
  change (1 + 1 + PURSUIT_ID_LEN + 1)%nat with 11%nat. rw (take_ge (drop 79 data)); [|rw length_drop; lia].
  destruct (Z.leb_spec (zlen (take 11 (drop FID_LEN data) ++ [CONTROL_REQ_FAILURE] ++ drop 79 data))
    (zlen data - 2 * Z.of_nat FID_LEN - 4 + 1)) as [|Hx]; [done|].
  exfalso. revert Hx. unfold zlen. rw !length_app length_take !length_drop. change FID_LEN with 32%nat. cbn [length]. lia.
Qed.

(** The effect of the timer on the pending requests, and what it sends. *)
Definition timer_spec (now now' : Z) (es : list entry) : list entry * list cr_event * option Z :=
  match es with
  | [] => ([], [], None)
  | e :: es =>
      if now - e_time e <? CPR_TIMER_EXPIRATION then (e :: es, [], Some (e_time e + CPR_TIMER_EXPIRATION))
      else if e_retrans e >=? CPR_MAX_RETRANSMISSIONS then
        (es, [Push 1 Made (take 11 (drop FID_LEN (e_data e)) ++ [CONTROL_REQ_FAILURE] ++ drop 79 (e_data e))], next_due now es)
      else
        let es := es ++ [retried (at_time now' e)] in (es, [Push 0 Made (e_data e)], next_due now es)
  end.

Lemma wp_timer now now' s es h : cr_ok now s es h → now <= now' →
  Forall (λ e, now - e_time e <= 2 ^ 31) es →
  wp (run_timer now now') (λ _ s', let '(es', ev, due) := timer_spec now now' es in
    cr_ok now' s' es' h ∧ events s' = events s ++ ev ∧ timer s' = due ∧ byPassMode s' = byPassMode s) s.
Proof.
  intros Hok Hle Hint. unfold run_timer. cr_steps. cbn [LRU set_timer]. rw (lru_is_size _ _ (ok_lru _ _ _ _ Hok)).
  destruct es as [|e es]; cbn [length Nat.eqb timer_spec].
  { apply wp_ret. split_and!; [|by rw app_nil_r|done|done]. apply (cr_ok_later now); [|done]. destruct Hok. by split. }
  pose proof (ok_lru _ _ _ _ Hok) as Hl. pose proof (ok_ordered _ _ _ _ Hok) as [Hsort [Het Hes]%Forall_cons].
  apply Forall_cons in Hint as [Hi _]. pose proof (ok_entries _ _ _ _ Hok) as [[Hlen Hret] Hents]%Forall_cons.
  apply wp_bind. eapply wp_tail; [done|]. apply wp_bind. eapply wp_sent_time; [done|]. apply wp_bind.
  apply (wp_checked _ (now - e_time e - CPR_TIMER_EXPIRATION)).
  { unfold to_int. change (2 ^ 31) with 2147483648 in Hi. unfold CPR_TIMER_EXPIRATION.
    destruct (Z.leb_spec (-2147483648) (now - e_time e - 1000)), (Z.leb_spec (now - e_time e - 1000) 2147483647); try lia.
    reflexivity. }
  replace (now - e_time e - CPR_TIMER_EXPIRATION <? 0) with (now - e_time e <? CPR_TIMER_EXPIRATION) by (unfold CPR_TIMER_EXPIRATION; lia).
  destruct (Z.ltb_spec (now - e_time e) CPR_TIMER_EXPIRATION) as [Hd|Hd].
  { cr_steps. split_and!; [|by rw app_nil_r| |done].
    - apply (cr_ok_later now); [|done]. destruct Hok. by split.
    - cbn [timer set_timer]. f_equal. lia. }
  apply wp_bind. eapply wp_tail; [done|]. destruct (lru_is_tail _ _ _ Hl) as (_ & _ & p & o & Hp & Ho & Hid & Hdata & Hr).
  apply wp_bind, wp_on_lru. unfold object_of. wp_steps. eapply wp_lift_opt; [exact Hp|].
  apply wp_bind, wp_on_lru. eapply wp_get_obj; [exact Ho|]. rw Hr Hdata Hid.
  set (s1 := set_LRU _ _). assert (s1 = set_timer None s) as -> by (by destruct s).
  apply wp_bind. destruct (Z.geb_spec (e_retrans e) CPR_MAX_RETRANSMISSIONS) as [Hgive|Hagain].
  - apply wp_bind. eapply wp_checked; [by apply failure_report_ok|]. cr_steps. apply wp_on_lru.
    eapply wp_mono; [by apply wp_spec_remove|]. intros r l (_ & Hl' & _).
    destruct (lru_is_split (LRU s) [] e es Hl) as [E _]. cbn [app] in E. rw E in Hl'.
    apply wp_ret. eapply wp_mono; [by apply (wp_reschedule _ _ es)|]. intros [] s' ->. split_and!; try done.
    apply (cr_ok_later now); [|done].
    destruct Hok. split; cbn; auto; [cbn in ok_size0; lia| |by destruct es].
    inversion Hsort. by split.
  - cr_steps. apply wp_on_lru. eapply wp_mono; [apply wp_spec_update; [done|by left]|]. intros r l (_ & Hl' & Hobj).
    unfold spec_update in Hl'. destruct (lru_is_split (LRU s) [] e es Hl) as [E1 E2]. cbn [app] in E1, E2. rw E1 E2 in Hl'.
    apply wp_ret, wp_on_lru. eapply wp_mono.
    { apply (wp_spec_retry _ (es ++ [at_time now' e]) (at_time now' e) p); [done| |].
      - apply elem_of_app. right. by left.
      - by rw Hobj. }
    intros [] l' (Hl'' & _). rw (spec_retry_split _ es (at_time now' e) []) in Hl''; [|by eapply lru_is_nodup|done].
    eapply wp_mono; [apply (wp_reschedule _ _ (es ++ [retried (at_time now' e)])); [done|by destruct es]|].
    intros [] s' ->. split_and!; try done. destruct Hok. split; cbn; auto.
    + rw length_app. cbn in ok_size0 |- *. lia.
    + apply Forall_app. split; [done|]. apply Forall_singleton. split; [done|]. cbn. rw Z.mod_small; unfold CPR_MAX_RETRANSMISSIONS in *; lia.
    + apply ordered_snoc; [|done]. inversion Hsort. apply (ordered_later now); [by split|done].
    + intros _. destruct es; cbn; by eexists.
Qed.

(** ** Reachable states *)

(** What can happen to the element: a packet of the LocalProxy, a packet of
    the network, a packet on another port, the timer (which [update] may read
    the clock after). *)
Inductive input :=
  | FromProxy (w : surroundings) (d : bytes)
  | FromNetwork (d : bytes)
  | FromElsewhere (port : Z) (d : bytes)
  | Fire (delay : Z).

Definition cr_step (gc : gconf) (now : Z) (i : input) : C () :=
  match i with
  | FromProxy w d => ControlReliability_push gc w now 0 d
  | FromNetwork d => ControlReliability_push gc (mkSur 0 [] [] []) now 1 d
  | FromElsewhere port d => ControlReliability_push gc (mkSur 0 [] [] []) now port d
  | Fire delay => run_timer now (now + delay)
  end.

(** Time after the input. *)
Definition after (now : Z) (i : input) : Z := match i with Fire delay => now + delay | _ => now end.

(** A packet of the network: of another scope, or with the whole header and
    the identifiers of its payload. *)
Inductive network_ok (gc : gconf) : bytes → Prop :=
  | network_none d : packet_scope d = Ok None → network_ok gc d
  | network_other d ID n : packet_scope d = Ok (Some (ID, n)) → ID ≠ controlReliabilityScope → network_ok gc d
  | network_frame fid type rev ack rest :
      length fid = FID_LEN → length rev = FID_LEN → length ack = 4%nat →
      (type = CONTROL_REC → ∃ n l id tail fid', rest = [n; l] ++ id ++ tail ∧
         length id = (Z.to_nat l * PURSUIT_ID_LEN)%nat ∧ ack_fid gc rev id = Ok fid') →
      network_ok gc (frame fid type rev ack rest).

(** Packets are long enough for what is read of them. *)
Definition input_ok (gc : gconf) (i : input) : Prop :=
  match i with
  | FromProxy w d => is_Some (match is_reliable gc d with Ok b => Some b | Fault _ => None end) ∧ length (unset w) = FID_LEN
  | FromNetwork d => network_ok gc d
  | FromElsewhere port d => port ≠ 0 ∧ port ≠ 1
  | Fire delay => 0 <= delay
  end.

(** Inputs at times from [t0] on that do not go back, all before [t1]. *)
Fixpoint inputs_ok (gc : gconf) (t0 t1 : Z) (l : list (Z * input)) : Prop :=
  match l with
  | [] => t0 <= t1
  | (now, i) :: l => t0 <= now ∧ input_ok gc i ∧ inputs_ok gc (after now i) t1 l
  end.

Definition cr_run (gc : gconf) (l : list (Z * input)) : C () := mfor l (λ '(now, i), cr_step gc now i).

Lemma is_reliable_split gc d b : is_reliable gc d = Ok b → ∃ fid rest, d = fid ++ rest ∧ length fid = FID_LEN.
Proof.
  unfold is_reliable, data_read. destruct (Nat.leb_spec (0 + FID_LEN) (length d)) as [Hl|]; [|done]. intros _.
  exists (take FID_LEN d), (drop FID_LEN d). rw take_drop length_take. split; [done|]. lia.
Qed.

(** Every entry was sent since [t]. *)
Definition since (t : Z) (es : list entry) : Prop := Forall (λ e, t <= e_time e) es.

Lemma since_insert t k data now es : since t es → t <= now → since t (spec_insert k data now es).
Proof.
  unfold since, spec_insert, spec_update. intros Hs Hn. case_decide; apply Forall_app; (split; [|]).
  - by apply Forall_filter_sub.
  - apply Forall_fmap. eapply Forall_filter_sub, Forall_impl; [exact Hs|]. done.
  - by apply Forall_drop.
  - by apply Forall_singleton.
Qed.

Lemma since_timer t now now' es : since t es → t <= now' → since t (timer_spec now now' es).1.1.
Proof.
  unfold since. destruct es as [|e es]; [done|]. intros [He Hs]%Forall_cons Hn. cbn [timer_spec].
  destruct (_ <? _); [by apply Forall_cons|]. destruct (_ >=? _); [done|]. apply Forall_app. split; [done|]. by apply Forall_singleton.
Qed.

Lemma wp_cr_step gc now i s es h t : gconf_wf gc → cr_ok now s es h → input_ok gc i → since t es → t <= now →
  now <= t + 2 ^ 31 →
  wp (cr_step gc now i) (λ _ s', ∃ es' h', cr_ok (after now i) s' es' h' ∧ since t es') s.
Proof.
  intros Hgc Hok Hi Hs Htn Hlim. destruct i as [w d|d|port d|delay]; cbn [cr_step after].
  - destruct Hi as [Hr Hun]. destruct (is_reliable gc d) as [b|] eqn:E; [|by destruct Hr].
    cbn. destruct (byPassMode s) eqn:Hb.
    { eapply wp_mono; [eapply wp_request_plain; [done|by left]|]. intros _ s' ->. exists es, h. split; [|done]. by apply cr_ok_events. }
    destruct b.
    2:{ eapply wp_mono; [eapply wp_request_plain; [done|by right]|]. intros _ s' ->. exists es, h. split; [|done]. by apply cr_ok_events. }
    destruct (is_reliable_split _ _ _ E) as (fid & rest & -> & Hfid).
    destruct (gc_from gc Hgc) as [Hwf Hmax]. 
    assert (∃ rev, rev_FID gc w = Ok rev ∧ length rev = FID_LEN) as (rev & Hrev & Hrl).
    { unfold rev_FID. destruct (type_TM gc); [by exists (unset w)|]. rw FID_read_ok //. eexists. split; [done|].
      eapply FID_read_length. by apply FID_read_ok. }
    eapply wp_mono; [eapply (wp_request_reliable gc w now); [done|done|done|by apply tmp_buff_frame|]|].
    { rw frame_length Hfid Hrl ack_bytes_length. cbn. lia. }
    intros _ s' (Hok' & _). eexists _, h. split; [exact Hok'|]. by apply since_insert.
  - change (ControlReliability_push gc _ now 1 d) with (push_from_network gc d). destruct Hi as [d Hd|d ID n Hd Hne|fid type rev ack rest Hf Hr Ha Hreq].
    + eapply wp_mono; [apply wp_network_other; by left|]. intros _ s' ->. exists es, h. split; [|done]. by apply cr_ok_events.
    + eapply wp_mono; [apply wp_network_other; right; by eauto|]. intros _ s' ->. exists es, h. split; [|done]. by apply cr_ok_events.
    + destruct (decide (type = CONTROL_REC)) as [Ht|Hn1]; [|destruct (decide (type = CONTROL_ACK)) as [Ht|Hn2]].
      * destruct (Hreq Ht) as (n & l & id & tail & fid' & E & Hl & Hack).
        eapply wp_mono; [by eapply wp_network_request|]. intros _ s' (_ & Hok' & _). by do 2 eexists.
      * eapply wp_mono; [by eapply wp_network_ack|]. intros _ s' (_ & Hok' & _). do 2 eexists. split; [exact Hok'|].
        by apply Forall_filter_sub.
      * eapply wp_mono; [by apply wp_network_unknown|]. intros _ s' ->. exists es, h. split; [|done]. by apply cr_ok_events.
  - unfold ControlReliability_push. destruct Hi as [H0 H1]. destruct (Z.eqb_spec port 0); [done|]. destruct (Z.eqb_spec port 1); [done|].
    apply wp_emitted. exists es, h. split; [|done]. by apply cr_ok_events.
  - cbn in Hi. eapply wp_mono; [eapply wp_timer; [done|lia|]|].
    + eapply Forall_impl; [exact Hs|]. cbn. lia.
    + intros [] s'. pose proof (since_timer t now (now + delay) es Hs ltac:(lia)) as Hs'.
      destruct (timer_spec now (now + delay) es) as [[es' ev] due]. intros (Hok' & _). by exists es', h.
Qed.

Lemma wp_cr_run gc l s es h t now t1 : gconf_wf gc → cr_ok now s es h → since t es → t <= now →
  inputs_ok gc now t1 l → t1 <= t + 2 ^ 31 → wp (cr_run gc l) (λ _ s', ∃ es h, cr_ok t1 s' es h ∧ since t es) s.
Proof.
  intros Hgc. revert s es h now. induction l as [|[now' i] l IH]; intros s es h now Hok Hs Ht Hl Hlim; cbn in Hl.
  - apply wp_ret. exists es, h. split; [|done]. by eapply cr_ok_later.
  - destruct Hl as (Hn & Hi & Hl). cbn [cr_run mfor]. apply wp_bind.
    assert (after now' i <= t1 ∧ now' <= after now' i) as [Ha Ha'].
    { split; [|destruct i; cbn in *; lia]. clear -Hl. revert Hl. generalize (after now' i). induction l as [|[n j] l IH]; intros z; cbn; [done|].
      intros (? & Hj & Hl). pose proof (IH _ Hl). destruct j; cbn in *; lia. }
    eapply wp_mono; [apply (wp_cr_step gc now' i s es h t); try done; [by eapply cr_ok_later|lia|lia]|].
    intros [] s' (es' & h' & Hok' & Hs'). apply (IH s' es' h' (after now' i)); [done|done|lia|done|done].
Qed.

Lemma cr_ok_initial conf mem now : length mem = CPR_STATE_SIZE →
  cr_ok now (ControlReliability_initialize mem (ControlReliability_configure conf)) [] (reverse mem).
Proof.
  intros Hm. split; cbn.
  - apply lru_is_0.
  - lia.
  - done.
  - split; [constructor|done].
  - done.
  - eexists. split; [done|]. rw take_ge; [by apply ring_initial|by rw Hm].
Qed.

(** ** Properties *)

(** From the initial state on, whatever packets arrive on the two ports
    and whenever the timer fires, no step of the element uses a null or deleted
    object or reads outside a packet; the hash tables and the doubly linked
    list hold the same pending requests, at most 101, ordered by the time they
    were last sent, none sent more than four times, and while one is pending
    the timer is set. *)
Theorem control_reachable gc conf mem t0 t1 l :
  gconf_wf gc → length mem = CPR_STATE_SIZE → inputs_ok gc t0 t1 l → t1 <= t0 + 2 ^ 31 →
  wp (cr_run gc l) (λ _ s', ∃ es h, cr_ok t1 s' es h)
    (ControlReliability_initialize mem (ControlReliability_configure conf)).
Proof.
  intros Hgc Hm Hl Hlim. eapply wp_mono; [apply (wp_cr_run gc l _ [] (reverse mem) t0 t0); try done; [by apply cr_ok_initial|by apply Forall_nil]|].
  intros [] s' (es & h & Hok & _). by exists es, h.
Qed.

(** A reliable request of the network is acknowledged on port 0 with the
    identifier of the way back it carries (the configured one when it
    notifies this node), and its payload goes up, without the header, exactly
    when its acknowledgement identifier is not one of the last 100; an
    acknowledgement ends the pending request with its identifier and nothing
    else. *)
Theorem network_reliable gc now s es h fid rev ack rest :
  cr_ok now s es h → length fid = FID_LEN → length rev = FID_LEN → length ack = 4%nat →
  (∀ n l id tail fid', rest = [n; l] ++ id ++ tail → length id = (Z.to_nat l * PURSUIT_ID_LEN)%nat →
     ack_fid gc rev id = Ok fid' →
     wp (push_from_network gc (frame fid CONTROL_REC rev ack rest)) (λ _ s',
       let dup := bool_decide (ack_of ack ∈ take CPR_STATE_SIZE h) in
       events s' = events s ++ [Push 0 Made (frame fid' CONTROL_ACK rev ack [])] ++
         (if dup then [] else [Push 1 Given rest]) ++ [Kill Given] ∧
       cr_ok now s' es (if dup then h else ack_of ack :: h)) s) ∧
  wp (push_from_network gc (frame fid CONTROL_ACK rev ack rest)) (λ _ s',
    events s' = events s ++ [Kill Given] ∧ cr_ok now s' (spec_remove (ack_of ack) es) h) s.
Proof.
  intros Hok Hf Hr Ha. split.
  - intros n l id tail fid' E Hl Hack. eapply wp_mono; [by eapply wp_network_request|]. cbv zeta. intros [] s' (? & ? & _). done.
  - eapply wp_mono; [by eapply wp_network_ack|]. intros [] s' (? & ? & _). done.
Qed.

(** A request of the LocalProxy of this node, as [push] sends it. *)
Lemma request_sent gc w now s es h fid rest rev : cr_ok now s es h → byPassMode s = false →
  is_reliable gc (fid ++ rest) = Ok true → length fid = FID_LEN → rev_FID gc w = Ok rev → length rev = FID_LEN →
  ∃ s', push_from_proxy gc w now (fid ++ rest) s = Ok ((), s') ∧
    cr_ok now s' (spec_insert (u32 (rand w)) (frame fid CONTROL_REC rev (ack_bytes (rand w)) (rest ++ beyond' w)) now es) h ∧
    events s' = events s ++ [Push 0 Given (frame fid CONTROL_REC rev (ack_bytes (rand w)) (rest ++ beyond w)); Kill Given] ∧
    byPassMode s' = false ∧ timer s' = Some (default (now + CPR_TIMER_EXPIRATION) (timer s)).
Proof.
  intros Hok Hb Hr Hf Hrev Hl.
  assert (∀ x, frame fid CONTROL_REC rev (ack_bytes (rand w)) (rest ++ x) = frame fid CONTROL_REC rev (ack_bytes (rand w)) rest ++ x) as Hx.
  { intros x. unfold frame. by rw -!app_assoc. }
  rw !Hx. pose proof (wp_request_reliable gc w now (fid ++ rest) (frame fid CONTROL_REC rev (ack_bytes (rand w)) rest) s es h) as Hwp.
  destruct (wp_ok _ _ _ (Hwp Hok Hb Hr (tmp_buff_frame gc w fid rest rev Hf Hrev Hl) ltac:(rw frame_length Hf Hl ack_bytes_length; cbn; lia)))
    as ([] & s' & E & Hok' & He & Hby & Ht).
  exists s'. rw Hby. by split_and!.
Qed.

(** [C33] A request exchanged by two nodes: the sender puts the header before
    it, the receiver hands it to its LocalProxy with the bytes of its payload
    and answers, and the answer brings the sender's list back to what it was.
    The payload arrives with 32 foreign bytes after it. *)
Theorem request_exchange gcA gcB w now sA sB esA hA esB hB fid n l id tail rev fid' :
  cr_ok now sA esA hA → cr_ok now sB esB hB → byPassMode sA = false →
  is_reliable gcA (fid ++ [n; l] ++ id ++ tail) = Ok true →
  length fid = FID_LEN → rev_FID gcA w = Ok rev → length rev = FID_LEN →
  length id = (Z.to_nat l * PURSUIT_ID_LEN)%nat → ack_fid gcB rev id = Ok fid' →
  0 <= rand w < 2 ^ 31 → rand w ∉ e_id <$> esA → (length esA ≤ CPR_LRU_SIZE)%nat → rand w ∉ take CPR_STATE_SIZE hB →
  ∃ sA1 sB1 sA2 request answer,
    push_from_proxy gcA w now (fid ++ [n; l] ++ id ++ tail) sA = Ok ((), sA1) ∧
    events sA1 = events sA ++ [Push 0 Given request; Kill Given] ∧
    push_from_network gcB request sB = Ok ((), sB1) ∧
    events sB1 = events sB ++ [Push 0 Made answer; Push 1 Given ([n; l] ++ id ++ tail ++ beyond w); Kill Given] ∧
    push_from_network gcA answer sA1 = Ok ((), sA2) ∧
    events sA2 = events sA1 ++ [Kill Given] ∧ cr_ok now sA2 esA hA.
Proof.
  intros HA HB Hby Hrel Hf Hrev Hl Hid Hack Hk Hnew Hsize Hseen.
  destruct (request_sent gcA w now sA esA hA fid _ rev HA Hby Hrel Hf Hrev Hl) as (sA1 & E1 & HA1 & Ev1 & _ & _).
  assert (ack_of (ack_bytes (rand w)) = rand w) as Hrand by (apply ack_of_bytes; lia).
  assert (u32 (rand w) = rand w) as Hu by (apply Z.mod_small; lia).
  assert (([n; l] ++ id ++ tail) ++ beyond w = [n; l] ++ id ++ tail ++ beyond w) as Happ by (cbn [app]; by rw -app_assoc).
  rw Happ in Ev1.
  pose proof (wp_network_request gcB fid rev (ack_bytes (rand w)) _ CONTROL_REC now sB esB hB Hf Hl (ack_bytes_length _) HB
    n l id (tail ++ beyond w) fid' eq_refl eq_refl Hid Hack) as HwpB. cbv zeta in HwpB. rw Hrand bool_decide_eq_false_2 // in HwpB.
  destruct (wp_ok _ _ _ HwpB) as ([] & sB1 & E2 & Ev2 & _).
  assert (length fid' = FID_LEN) as Hf'.
  { unfold ack_fid in Hack. case_bool_decide; [by eapply FID_read_length|by injection Hack as <-]. }
  destruct (wp_ok _ _ _ (wp_network_ack gcA fid' rev (ack_bytes (rand w)) [] CONTROL_ACK now sA1 _ hA Hf' Hl (ack_bytes_length _) HA1 eq_refl))
    as ([] & sA2 & E3 & Ev3 & HA2 & _).
  do 5 eexists. split_and!; [exact E1|exact Ev1|exact E2|exact Ev2|exact E3|exact Ev3|].
  rw Hrand Hu in HA2. replace esA with (spec_remove (rand w) (spec_insert (rand w)
    (frame fid CONTROL_REC rev (ack_bytes (rand w)) (([n; l] ++ id ++ tail) ++ beyond' w)) now esA)) at 1; [done|].
  unfold spec_insert, spec_remove, spec_evict. rw decide_False //.
  replace (length esA - CPR_LRU_SIZE)%nat with 0%nat by lia. rw drop_0 filter_app filter_cons decide_False; [|by intros []].
  rw filter_nil app_nil_r. apply filter_keep. intros e He E. apply Hnew. rw -E. by apply list_elem_of_fmap_2.
Qed.

(** ** A peer that does not answer *)

(** The timer fires when it is due. *)
Definition fire : C () :=
  t ← gets timer; match t with Some t => run_timer t t | None => mret () end.
Fixpoint fires (n : nat) : C () := match n with O => mret () | S n => fire;; fires n end.

Lemma wp_fire now s es h t : cr_ok now s es h → timer s = Some t → now <= t → Forall (λ e, t - e_time e <= 2 ^ 31) es →
  wp fire (λ _ s', let '(es', ev, due) := timer_spec t t es in
    cr_ok t s' es' h ∧ events s' = events s ++ ev ∧ timer s' = due) s.
Proof.
  intros Hok Ht Hle Hint. unfold fire. wp_steps. rw Ht. eapply wp_mono; [eapply wp_timer; [by eapply cr_ok_later|lia|done]|].
  intros [] s'. destruct (timer_spec t t es) as [[es' ev] due]. intros (? & ? & ? & _). done.
Qed.

Lemma wp_fires_add n m (Q : () → control → Prop) s : wp (fires n) (λ _ s', wp (fires m) Q s') s → wp (fires (n + m)) Q s.
Proof.
  revert s. induction n as [|n IH]; intros s H; [exact H|]. cbn [Nat.add fires] in *. apply wp_bind. apply wp_bind_inv in H.
  eapply wp_mono; [exact H|]. intros [] s' Hs. by apply IH.
Qed.

(** What a firing sends, with its time. *)
Definition fire_log : C (list (Z * cr_event)) :=
  t ← gets timer; n ← gets (λ s, length (events s)); fire;; new ← gets (λ s, drop n (events s)); mret ((λ e, (default 0 t, e)) <$> new).
Fixpoint fires_log (n : nat) : C (list (Z * cr_event)) :=
  match n with O => mret [] | S n => l ← fire_log; l' ← fires_log n; mret (l ++ l') end.

Lemma wp_fire_log t s (ev : list cr_event) (Q : list (Z * cr_event) → control → Prop) : timer s = Some t →
  wp fire (λ _ s', events s' = events s ++ ev ∧ Q ((t,.) <$> ev) s') s → wp fire_log Q s.
Proof.
  intros Ht H. unfold fire_log. wp_steps. eapply wp_mono; [exact H|]. intros [] s' [E HQ]. wp_steps. rw E drop_app_length Ht. exact HQ.
Qed.

Lemma wp_log_add n m (Q : list (Z * cr_event) → control → Prop) s :
  wp (fires_log n) (λ l s', wp (fires_log m) (λ l', Q (l ++ l')) s') s → wp (fires_log (n + m)) Q s.
Proof.
  revert s Q. induction n as [|n IH]; intros s Q H; [exact H|]. cbn [Nat.add fires_log] in *. apply wp_bind. apply wp_bind_inv in H.
  eapply wp_mono; [exact H|]. intros l s' H'. apply wp_bind. apply wp_bind_inv in H'. apply IH. eapply wp_mono; [exact H'|].
  intros l1 s1 H1. eapply wp_mono; [exact H1|]. intros l2 s2 HQ. apply wp_ret. by rw app_assoc.
Qed.

Lemma wp_log_1 (Q : list (Z * cr_event) → control → Prop) s : wp fire_log Q s → wp (fires_log 1) Q s.
Proof. intros H. cbn [fires_log]. apply wp_bind. eapply wp_mono; [exact H|]. intros l s' HQ. wp_steps. by rw app_nil_r. Qed.

Lemma wp_fires_1 (Q : () → control → Prop) s : wp fire Q s → wp (fires 1) Q s.
Proof. intros H. cbn [fires]. apply wp_bind. eapply wp_mono; [exact H|]. by intros [] s'. Qed.

(** Two firings send a single request once more. *)
Lemma wp_resend now s h k data r t : cr_ok now s [mkEntry k data r t] h → timer s = Some (t + CPR_TIMER_EXPIRATION) →
  now <= t + CPR_TIMER_EXPIRATION → r < CPR_MAX_RETRANSMISSIONS →
  wp (fires_log 2) (λ l s', cr_ok (t + CPR_TIMER_EXPIRATION + 1) s' [mkEntry k data (r + 1) (t + CPR_TIMER_EXPIRATION)] h ∧
    l = [(t + CPR_TIMER_EXPIRATION, Push 0 Made data)] ∧ events s' = events s ++ [Push 0 Made data] ∧
    timer s' = Some (t + CPR_TIMER_EXPIRATION + CPR_TIMER_EXPIRATION)) s.
Proof.
  unfold CPR_TIMER_EXPIRATION, CPR_MAX_RETRANSMISSIONS. intros Hok Ht Hle Hr. pose proof (ok_entries _ _ _ _ Hok) as [[_ Hret] _]%Forall_cons.
  cbn [e_retrans] in Hret. apply (wp_log_add 1 1), wp_log_1. apply (wp_fire_log (t + 1000) _ [Push 0 Made data]); [exact Ht|].
  eapply wp_mono; [apply (wp_fire now _ _ _ _ Hok Ht Hle); apply Forall_singleton; cbn; lia|].
  intros [] s1. cbn [timer_spec e_time e_retrans at_time retried e_id e_data app next_due]. unfold CPR_TIMER_EXPIRATION, CPR_MAX_RETRANSMISSIONS.
  destruct (Z.ltb_spec (t + 1000 - t) 1000); [lia|]. destruct (Z.geb_spec r 3); [lia|]. intros (Hok1 & Ev1 & Ht1). split; [exact Ev1|].
  unfold retried, at_time in Hok1, Ht1. cbn [e_time e_retrans e_id e_data] in Hok1, Ht1. replace (Z.max 1 (t + 1000 - (t + 1000) - 1000)) with 1 in Ht1 by lia.
  rw (Z.mod_small (r + 1)) in Hok1; [|unfold CPR_MAX_RETRANSMISSIONS in Hret; lia].
  apply wp_log_1, (wp_fire_log (t + 1000 + 1) _ []); [exact Ht1|]. eapply wp_mono; [apply (wp_fire _ _ _ _ _ Hok1 Ht1); [lia|apply Forall_singleton; cbn; lia]|].
  intros [] s2. cbn [timer_spec e_time]. unfold CPR_TIMER_EXPIRATION. destruct (Z.ltb_spec (t + 1000 + 1 - (t + 1000)) 1000); [|lia].
  intros (Hok2 & Ev2 & Ht2). split_and!; [exact Ev2|done|done| |done]. by rw Ev2 Ev1 app_nil_r.
Qed.

Lemma spec_insert_nil k data now : spec_insert k data now [] = [mkEntry k data 0 now].
Proof. unfold spec_insert. case_decide as H; [by apply elem_of_nil in H|done]. Qed.

(** The report for a request. *)
Lemma report_frame fid rev ack rest type : length fid = FID_LEN → length rev = FID_LEN → length ack = 4%nat →
  take 11 (drop FID_LEN (frame fid type rev ack rest)) ++ [CONTROL_REQ_FAILURE] ++ drop 79 (frame fid type rev ack rest) =
  [1; 1] ++ controlReliabilityScope ++ [type; CONTROL_REQ_FAILURE] ++ rest.
Proof. intros Hf Hr Ha. rw frame_rest //. unfold frame. rw (drop_at _ fid _ FID_LEN eq_refl Hf). done. Qed.

(** [C34] A request that nobody acknowledges, of a kind that is sent reliably,
    without the bypass, when nothing else is pending and the timer is off.  It is sent at once, and again one, two and
    three seconds later, by the firings of the timer; four seconds later it is
    reported to the LocalProxy as failed, with its payload; after that nothing
    is pending and the timer is off. *)
Theorem unacknowledged_request gc w now s h fid rest rev
  (Hok : cr_ok now s [] h) (Ht : timer s = None) (Hby : byPassMode s = false)
  (Hrel : is_reliable gc (fid ++ rest) = Ok true) (Hf : length fid = FID_LEN) (Hrev : rev_FID gc w = Ok rev) (Hl : length rev = FID_LEN) :
  let request x := frame fid CONTROL_REC rev (ack_bytes (rand w)) (rest ++ x) in
  ∃ s1, push_from_proxy gc w now (fid ++ rest) s = Ok ((), s1) ∧ events s1 = events s ++ [Push 0 Given (request (beyond w)); Kill Given] ∧
    wp (fires_log 7) (λ sent s',
      sent = [(now + 1000, Push 0 Made (request (beyond' w))); (now + 2000, Push 0 Made (request (beyond' w)));
        (now + 3000, Push 0 Made (request (beyond' w)));
        (now + 4000, Push 1 Made ([1; 1] ++ controlReliabilityScope ++ [CONTROL_REC; CONTROL_REQ_FAILURE] ++ rest ++ beyond' w))] ∧
      events s' = events s1 ++ sent.*2 ∧ cr_ok (now + 4000) s' [] h ∧ timer s' = None) s1.
Proof.
  intros request.
  destruct (request_sent gc w now s [] h fid rest rev Hok Hby Hrel Hf Hrev Hl) as (s1 & E1 & Hok1 & Ev1 & _ & Ht1).
  exists s1. split; [exact E1|]. split; [exact Ev1|]. rw Ht in Ht1. cbn [default] in Ht1.
  rw spec_insert_nil in Hok1. set (data := frame _ _ _ _ (rest ++ beyond' w)) in Hok1.
  apply (wp_log_add 2 5). eapply wp_mono; [apply (wp_resend _ _ _ _ _ _ _ Hok1 Ht1); unfold CPR_TIMER_EXPIRATION, CPR_MAX_RETRANSMISSIONS; lia|].
  intros l2 s2 (Hok2 & -> & Ev2 & Ht2). apply (wp_log_add 2 3).
  eapply wp_mono; [apply (wp_resend _ _ _ _ _ _ _ Hok2 Ht2); unfold CPR_TIMER_EXPIRATION, CPR_MAX_RETRANSMISSIONS; lia|].
  intros l3 s3 (Hok3 & -> & Ev3 & Ht3). apply (wp_log_add 2 1).
  eapply wp_mono; [apply (wp_resend _ _ _ _ _ _ _ Hok3 Ht3); unfold CPR_TIMER_EXPIRATION, CPR_MAX_RETRANSMISSIONS; lia|].
  intros l4 s4 (Hok4 & -> & Ev4 & Ht4). apply wp_log_1.
  eapply wp_fire_log; [exact Ht4|].
  eapply wp_mono; [apply (wp_fire _ _ _ _ _ Hok4 Ht4); [unfold CPR_TIMER_EXPIRATION; lia|apply Forall_singleton; cbn; unfold CPR_TIMER_EXPIRATION; lia]|].
  intros [] s5. cbn [timer_spec e_time e_retrans e_data]. unfold CPR_TIMER_EXPIRATION, CPR_MAX_RETRANSMISSIONS.
  destruct (Z.ltb_spec (now + 1000 + 1000 + 1000 + 1000 - (now + 1000 + 1000 + 1000)) 1000); [lia|]. cbn [Z.geb Z.add Pos.add Pos.compare Z.compare].
  intros (Hok5 & Ev5 & Ht5). subst data. rw report_frame // in Ev5. split; [exact Ev5|].
  replace (now + 2000) with (now + 1000 + 1000) by lia. replace (now + 3000) with (now + 1000 + 1000 + 1000) by lia.
  replace (now + 4000) with (now + 1000 + 1000 + 1000 + 1000) by lia. split_and!; [done| |exact Hok5|exact Ht5].
  rw Ev5 Ev4 Ev3 Ev2 -!app_assoc. done.
Qed.

(** How much later than due the [k]-th request of a backlog is sent. *)
Definition backlog (k : nat) : Z := match k with O => 0 | S k => 2 ^ Z.of_nat k end.

Lemma backlog_step k : backlog k + Z.max 1 (backlog k) = backlog (S k).
Proof.
  destruct k as [|k]; [done|]. cbn [backlog]. replace (Z.of_nat (S k)) with (Z.of_nat k + 1) by lia.
  rw Z.pow_add_r; [|lia..]. assert (0 < 2 ^ Z.of_nat k) by (apply Z.pow_pos_nonneg; lia). lia.
Qed.

Lemma backlog_mono k : 0 <= backlog k <= backlog (S k).
Proof.
  pose proof (backlog_step k). enough (0 <= backlog k) by lia. destruct k; cbn; [done|]. apply Z.pow_nonneg. lia.
Qed.

Lemma backlog_limit k : (k ≤ 30)%nat → 0 <= backlog k <= 2 ^ 29.
Proof.
  intros Hk. destruct k as [|k]; cbn [backlog]; [done|]. split; [apply Z.pow_nonneg; lia|apply Z.pow_le_mono_r; lia].
Qed.

Lemma wp_backlog t s es h k : cr_ok t s es h → Forall (λ e, e_time e = t ∧ e_retrans e < CPR_MAX_RETRANSMISSIONS) es →
  timer s = Some (t + CPR_TIMER_EXPIRATION) → (k < length es)%nat → (k ≤ 30)%nat →
  wp (fires k) (λ _ s', ∃ X, cr_ok (t + CPR_TIMER_EXPIRATION + backlog k) s' (drop k es ++ X) h ∧ since t X ∧
    events s' = events s ++ ((λ e, Push 0 Made (e_data e)) <$> take k es) ∧
    timer s' = Some (t + CPR_TIMER_EXPIRATION + backlog k)) s.
Proof.
  intros Hok Hes Ht. induction k as [|k IH]; intros Hk Hk30.
  - apply wp_ret. exists []. cbn [drop take fmap list_fmap]. rw !app_nil_r.
    cbn [backlog]. rw Z.add_0_r. split_and!; [|by apply Forall_nil|done|done]. apply (cr_ok_later t); [done|]. unfold CPR_TIMER_EXPIRATION. lia.
  - replace (S k) with (k + 1)%nat at 1 by lia. apply wp_fires_add. eapply wp_mono; [apply IH; lia|].
    intros [] s1 (X & Hok1 & HX & Ev1 & Ht1). apply wp_fires_1.
    destruct (lookup_lt_is_Some_2 es k) as [e He]; [lia|]. rw (drop_S es e k) // in Hok1.
    destruct (lookup_lt_is_Some_2 es (S k)) as [e' He']; [lia|]. rw (drop_S es e' (S k)) // in Hok1.
    assert (e_time e = t ∧ e_retrans e < CPR_MAX_RETRANSMISSIONS) as [Hte Hre] by exact (Forall_lookup_1 _ _ _ _ Hes He).
    assert (e_time e' = t ∧ e_retrans e' < CPR_MAX_RETRANSMISSIONS) as [Hte' _] by exact (Forall_lookup_1 _ _ _ _ Hes He').
    pose proof (backlog_limit k ltac:(lia)) as Hlim.
    assert (since t ((e :: e' :: drop (S (S k)) es) ++ X)) as Hsince.
    { apply Forall_app. split; [|done]. rw -(drop_S es e' (S k)) // -(drop_S es e k) //. apply Forall_drop.
      eapply Forall_impl; [exact Hes|]. cbn. lia. }
    eapply wp_mono; [apply (wp_fire _ _ _ _ _ Hok1 Ht1); [lia|]|].
    { eapply Forall_impl; [exact Hsince|]. cbn. unfold CPR_TIMER_EXPIRATION. lia. }
    intros [] s2. cbn [timer_spec app]. rw Hte. destruct (Z.ltb_spec (t + CPR_TIMER_EXPIRATION + backlog k - t) CPR_TIMER_EXPIRATION); [lia|].
    destruct (Z.geb_spec (e_retrans e) CPR_MAX_RETRANSMISSIONS); [lia|]. cbn [next_due]. intros (Hok2 & Ev2 & Ht2).
    eexists. split_and!.
    + rw (drop_S es e' (S k)) //. cbn [app]. rw -app_assoc in Hok2. apply (cr_ok_later _ _ _ _ _ Hok2). pose proof (backlog_mono k). lia.
    + apply Forall_app. split; [done|]. apply Forall_singleton. cbn. unfold CPR_TIMER_EXPIRATION. lia.
    + rw Ev2 Ev1 (take_S_r es k e) // fmap_app -app_assoc. done.
    + rw Ht2 Hte' -(backlog_step k). f_equal. lia.
Qed.

(** Requests that were sent in the same millisecond and are not
    acknowledged in time: one firing of the timer sends one of them again, and
    the next firing is as far ahead as the next one is late.  So the requests
    are sent again in their order, but the wait doubles each time: the one
    after [k] others is sent [2^(k-1)] ms after it is due. *)
Theorem backlog_doubles t s es h k : cr_ok t s es h →
  Forall (λ e, e_time e = t ∧ e_retrans e < CPR_MAX_RETRANSMISSIONS) es →
  timer s = Some (t + CPR_TIMER_EXPIRATION) → (0 < k < length es)%nat → (k ≤ 30)%nat →
  wp (fires k) (λ _ s', events s' = events s ++ ((λ e, Push 0 Made (e_data e)) <$> take k es) ∧
    timer s' = Some (t + CPR_TIMER_EXPIRATION + 2 ^ (Z.of_nat k - 1))) s.
Proof.
  intros Hok Hes Ht Hk H30. eapply wp_mono; [apply (wp_backlog t s es h k Hok Hes Ht); lia|].
  intros [] s' (X & _ & _ & Ev & Ht'). split; [done|]. rw Ht'. destruct k as [|k]; [lia|]. cbn [backlog].
  do 2 f_equal. f_equal. lia.
Qed.

(** ** A concrete node *)

Module Peer.
Definition zeros : BABitvector := BABitvector_make (Z.of_nat FID_LEN * 8).
Definition gc : gconf := mkConf (replicate NODEID_LEN 65) true false false true zeros zeros zeros BABitvector_empty.
Definition mem : list Z := replicate CPR_STATE_SIZE 0.
Definition start : control := ControlReliability_initialize mem (ControlReliability_configure [[]; str_true]).
Definition w : surroundings := mkSur 77 (replicate FID_LEN 1) (replicate FID_LEN 2) (replicate FID_LEN 3).
Definition fid : bytes := replicate FID_LEN 0.
(** a subscription to a scope *)
Definition id : bytes := [1; 2; 3; 4; 5; 6; 7; 8].
Definition rest : bytes := [1; 1] ++ id ++ [SUBSCRIBE_SCOPE; 0].
Definition rev : bytes := replicate FID_LEN 0.

Lemma zeros_wf : bv_wf zeros ∧ bv_max zeros = 255.
Proof. destruct (BABitvector_make_zeros (Z.of_nat FID_LEN * 8)) as (H1 & H2 & _); [cbn; lia|]. split; [exact H1|]. by rw H2. Qed.

Lemma gc_wf : gconf_wf gc.
Proof. split; cbn; [done|exact zeros_wf|exact zeros_wf|exact zeros_wf|]. split; [apply BABitvector_empty_wf|by right]. Qed.

Lemma start_ok now : cr_ok now start [] (reverse mem).
Proof. by apply cr_ok_initial. Qed.

Lemma reliable : is_reliable gc (fid ++ rest) = Ok true.
Proof. by vm_compute. Qed.

Lemma rev_ok : rev_FID gc w = Ok rev.
Proof. by vm_compute. Qed.

Definition w' (k : Z) : surroundings := mkSur k (unset w) (beyond w) (beyond' w).

(** Three requests of the same millisecond. *)
Definition data (k : Z) : bytes := frame fid CONTROL_REC rev (ack_bytes k) (rest ++ beyond' w).
Definition three : list entry := [mkEntry 5 (data 5) 0 0; mkEntry 6 (data 6) 0 0; mkEntry 7 (data 7) 0 0].

Lemma three_ok : ∃ s, cr_ok 0 s three (reverse mem) ∧ timer s = Some 1000.
Proof.
  destruct (request_sent gc (w' 5) 0 start [] _ fid rest rev (start_ok 0) eq_refl reliable eq_refl rev_ok eq_refl)
    as (s1 & _ & H1 & _ & B1 & T1).
  destruct (request_sent gc (w' 6) 0 s1 _ _ fid rest rev H1 B1 reliable eq_refl rev_ok eq_refl) as (s2 & _ & H2 & _ & B2 & T2).
  destruct (request_sent gc (w' 7) 0 s2 _ _ fid rest rev H2 B2 reliable eq_refl rev_ok eq_refl) as (s3 & _ & H3 & _ & _ & T3).
  exists s3. split; [exact H3|]. by rw T3 T2 T1.
Qed.

Lemma requests_ok : inputs_ok gc 0 5000 [(0, FromProxy w (fid ++ rest)); (1000, Fire 0); (1001, Fire 0);
  (2000, FromNetwork (frame rev CONTROL_ACK rev (ack_bytes 77) [])); (2001, Fire 1)].
Proof.
  cbn [inputs_ok after]. split_and!; try lia.
  - cbn [input_ok]. rw reliable. split; [by eexists|done].
  - cbn. lia.
  - cbn. lia.
  - by apply network_frame.
  - cbn. lia.
Qed.
End Peer.

Lemma control_reachable_witness : ∃ l s', cr_run Peer.gc l Peer.start = Ok ((), s') ∧
  length (events s') = 4%nat ∧ timer s' = None ∧ ∃ es h, cr_ok 5000 s' es h.
Proof.
  exists [(0, FromProxy Peer.w (Peer.fid ++ Peer.rest)); (1000, Fire 0); (1001, Fire 0);
    (2000, FromNetwork (frame Peer.rev CONTROL_ACK Peer.rev (ack_bytes 77) [])); (2001, Fire 1)].
  pose proof (control_reachable Peer.gc [[]; str_true] Peer.mem 0 5000 _ Peer.gc_wf eq_refl Peer.requests_ok ltac:(lia)) as H.
  eexists. split; [vm_compute; reflexivity|]. split; [vm_compute; reflexivity|]. split; [vm_compute; reflexivity|].
  exact H.
Defined.

Lemma network_reliable_witness : ∃ s s', cr_ok 0 s [] (77 :: reverse Peer.mem) ∧
  push_from_network Peer.gc (frame Peer.fid CONTROL_REC Peer.rev (ack_bytes 77) Peer.rest) Peer.start = Ok ((), s) ∧
  events s = [Push 0 Made (frame Peer.rev CONTROL_ACK Peer.rev (ack_bytes 77) []); Push 1 Given Peer.rest; Kill Given] ∧
  push_from_network Peer.gc (frame Peer.fid CONTROL_REC Peer.rev (ack_bytes 77) Peer.rest) s = Ok ((), s') ∧
  events s' = events s ++ [Push 0 Made (frame Peer.rev CONTROL_ACK Peer.rev (ack_bytes 77) []); Kill Given].
Proof.
  pose proof (network_reliable Peer.gc 0 Peer.start [] _ Peer.fid Peer.rev (ack_bytes 77) Peer.rest (Peer.start_ok 0)
    eq_refl eq_refl eq_refl) as [H _].
  specialize (H 1 1 Peer.id [SUBSCRIBE_SCOPE; 0] Peer.rev eq_refl eq_refl ltac:(by vm_compute)).
  destruct (wp_ok _ _ _ H) as ([] & s & E & Ev & Hok).
  assert (bool_decide (ack_of (ack_bytes 77) ∈ take CPR_STATE_SIZE (reverse Peer.mem)) = false) as Hd by (vm_compute; reflexivity).
  rw Hd in Ev. rw Hd in Hok. assert (ack_of (ack_bytes 77) = 77) as H77 by reflexivity. rw H77 in Hok.
  pose proof (network_reliable Peer.gc 0 s [] _ Peer.fid Peer.rev (ack_bytes 77) Peer.rest Hok eq_refl eq_refl eq_refl) as [H' _].
  specialize (H' 1 1 Peer.id [SUBSCRIBE_SCOPE; 0] Peer.rev eq_refl eq_refl ltac:(by vm_compute)).
  destruct (wp_ok _ _ _ H') as ([] & s' & E' & Ev' & _).
  assert (bool_decide (ack_of (ack_bytes 77) ∈ take CPR_STATE_SIZE (77 :: reverse Peer.mem)) = true) as Hd' by (vm_compute; reflexivity).
  rw Hd' in Ev'. exists s, s'. split_and!; [exact Hok|exact E|exact Ev|exact E'|exact Ev'].
Defined.

Lemma request_exchange_witness : ∃ sA1 sB1 sA2 request answer,
  push_from_proxy Peer.gc Peer.w 0 (Peer.fid ++ Peer.rest) Peer.start = Ok ((), sA1) ∧
  events sA1 = [Push 0 Given request; Kill Given] ∧
  push_from_network Peer.gc request Peer.start = Ok ((), sB1) ∧
  events sB1 = [Push 0 Made answer; Push 1 Given (Peer.rest ++ replicate FID_LEN 2); Kill Given] ∧
  push_from_network Peer.gc answer sA1 = Ok ((), sA2) ∧
  events sA2 = events sA1 ++ [Kill Given] ∧ cr_ok 0 sA2 [] (reverse Peer.mem).
Proof.
  apply (request_exchange Peer.gc Peer.gc Peer.w 0 Peer.start Peer.start [] _ [] _ Peer.fid 1 1 Peer.id [SUBSCRIBE_SCOPE; 0]
    Peer.rev Peer.rev (Peer.start_ok 0) (Peer.start_ok 0) eq_refl Peer.reliable eq_refl Peer.rev_ok eq_refl eq_refl).
  - by vm_compute.
  - cbn. lia.
  - by apply not_elem_of_nil.
  - cbn. lia.
  - apply (bool_decide_eq_false_1 (_ ∈ _)). vm_compute. reflexivity.
Defined.

Lemma unacknowledged_request_witness :
  ∃ s1, push_from_proxy Peer.gc Peer.w 0 (Peer.fid ++ Peer.rest) Peer.start = Ok ((), s1) ∧
    wp (fires_log 7) (λ sent s', sent.*1 = [1000; 2000; 3000; 4000] ∧ timer s' = None ∧ cr_ok 4000 s' [] (reverse Peer.mem)) s1.
Proof.
  destruct (unacknowledged_request Peer.gc Peer.w 0 Peer.start (reverse Peer.mem) Peer.fid Peer.rest Peer.rev (Peer.start_ok 0)
    eq_refl eq_refl Peer.reliable eq_refl Peer.rev_ok eq_refl) as (s1 & E & _ & H).
  exists s1. split; [exact E|]. eapply wp_mono; [exact H|]. intros l s' (-> & _ & Hok & Ht). by split.
Defined.

Lemma backlog_doubles_witness : ∃ s, cr_ok 0 s Peer.three (reverse Peer.mem) ∧
  wp (fires 2) (λ _ s', timer s' = Some 1002) s.
Proof.
  destruct Peer.three_ok as (s & Hok & Ht). exists s. split; [exact Hok|].
  eapply wp_mono; [apply (backlog_doubles 0 s Peer.three _ 2 Hok)|].
  - repeat (apply Forall_cons; split; [split; reflexivity|]). by apply Forall_nil.
  - exact Ht.
  - cbn. lia.
  - lia.
  - by intros [] s' [_ H].
Defined.
