(* ===== verification/ProxyStore.v ===== *)
(** * The state and the messages of the LocalProxy

    Model of localhost.{hh,cc}, activepub.{hh,cc}, activenode.{hh,cc}, the
    members of LocalProxy (src/src/localproxy.hh) and the functions of
    localproxy.cc that build packets.

    Applications and Click elements (LocalHost) are objects in a heap, since
    the tables of publications, subscriptions and nodes point to them.  An
    ActivePublication, ActiveSubscription or ActiveNode is only reached
    through its table and stands in it.  The model is of the build without
    CLICK_NS. *)

From S2P Require Import Prelude Enums HashTable BitVector Packet GlobalConf RvMessages.

Section store.
Context `{CT : ClickTables}.

(** ** Data *)

(** [localHostID] is printed only. *)
Record LocalHost := mkLH {
  lh_type : ELEMENTtype;
  lh_id : Z;
  activePublications : SH ();
  activeSubscriptions : SH ();
}.

Record ActivePublication := mkAP {
  ap_fullID : bytes;
  ap_strategy : Z;
  ap_publishers : PH Z;
  ap_allKnownIDs : list bytes;
  ap_FID_to_subscribers : BABitvector;
  ap_RVFID : BABitvector;
  ap_isScope : bool;
}.

(** [allKnownIDs] of a subscription is never used. *)
Record ActiveSubscription := mkAS {
  as_fullID : bytes;
  as_strategy : Z;
  as_subscribers : PH ();
  as_RVFID : BABitvector;
  as_isScope : bool;
}.

Record ActiveNode := mkAN {
  an_nodeID : bytes;
  an_publishers : PH Z;
  an_FID_to_node : BABitvector;
}.

(** What is pushed: the packet the element was given, a clone of it, or one
    it made. *)
Inductive pkt := Given | Clone | Made.

Inductive event :=
  (** [output(port).push], with the annotation that is set before it *)
  | Push (port : Z) (anno : option Z) (p : pkt) (d : list (option Z))
  | Kill (p : pkt).

(** [status] of GlobalConf is a member of its own; GlobalConf is shared, and
    this element changes its [defaultRV_dl] and [TMFID]. *)
Record proxy := mkPx {
  hosts : gmap ptr LocalHost;
  next : ptr;
  local_pub_sub_Index : IH ptr;
  activePublicationIndex : SH ActivePublication;
  activeSubscriptionIndex : SH ActiveSubscription;
  activeNodeIndex : SH ActiveNode;
  gc : gconf;
  status : Z;
  out : list event;
}.

Definition proxy0 (gc : gconf) : proxy :=
  mkPx ∅ 0%nat ht_empty ht_empty ht_empty ht_empty gc 0 [].

(** ** Access *)

Definition set_hosts m s := mkPx m (next s) (local_pub_sub_Index s) (activePublicationIndex s)
  (activeSubscriptionIndex s) (activeNodeIndex s) (gc s) (status s) (out s).
Definition set_next n s := mkPx (hosts s) n (local_pub_sub_Index s) (activePublicationIndex s)
  (activeSubscriptionIndex s) (activeNodeIndex s) (gc s) (status s) (out s).
Definition set_index t s := mkPx (hosts s) (next s) t (activePublicationIndex s)
  (activeSubscriptionIndex s) (activeNodeIndex s) (gc s) (status s) (out s).
Definition set_pubs t s := mkPx (hosts s) (next s) (local_pub_sub_Index s) t
  (activeSubscriptionIndex s) (activeNodeIndex s) (gc s) (status s) (out s).
Definition set_subs t s := mkPx (hosts s) (next s) (local_pub_sub_Index s) (activePublicationIndex s)
  t (activeNodeIndex s) (gc s) (status s) (out s).
Definition set_nodes t s := mkPx (hosts s) (next s) (local_pub_sub_Index s) (activePublicationIndex s)
  (activeSubscriptionIndex s) t (gc s) (status s) (out s).
Definition set_gc g s := mkPx (hosts s) (next s) (local_pub_sub_Index s) (activePublicationIndex s)
  (activeSubscriptionIndex s) (activeNodeIndex s) g (status s) (out s).
Definition set_status n s := mkPx (hosts s) (next s) (local_pub_sub_Index s) (activePublicationIndex s)
  (activeSubscriptionIndex s) (activeNodeIndex s) (gc s) n (out s).
Definition set_out o s := mkPx (hosts s) (next s) (local_pub_sub_Index s) (activePublicationIndex s)
  (activeSubscriptionIndex s) (activeNodeIndex s) (gc s) (status s) o.

Definition lh_with_pubs t h := mkLH (lh_type h) (lh_id h) t (activeSubscriptions h).
Definition lh_with_subs t h := mkLH (lh_type h) (lh_id h) (activePublications h) t.
Definition ap_with_publishers t a := mkAP (ap_fullID a) (ap_strategy a) t (ap_allKnownIDs a)
  (ap_FID_to_subscribers a) (ap_RVFID a) (ap_isScope a).
Definition ap_with_known l a := mkAP (ap_fullID a) (ap_strategy a) (ap_publishers a) l
  (ap_FID_to_subscribers a) (ap_RVFID a) (ap_isScope a).
Definition ap_with_FID f a := mkAP (ap_fullID a) (ap_strategy a) (ap_publishers a) (ap_allKnownIDs a)
  f (ap_RVFID a) (ap_isScope a).
Definition as_with_subscribers t a := mkAS (as_fullID a) (as_strategy a) t (as_RVFID a) (as_isScope a).
Definition an_with_publishers t a := mkAN (an_nodeID a) t (an_FID_to_node a).
Definition an_with_FID f a := mkAN (an_nodeID a) (an_publishers a) f.
Definition gc_with_RV f g := mkConf (nodeID g) (type_FW g) (type_RV g) (type_TM g) (use_mac g) f
  (defaultFromRV_dl g) (iLID g) (TMFID g).
Definition gc_with_TM f g := mkConf (nodeID g) (type_FW g) (type_RV g) (type_TM g) (use_mac g) (defaultRV_dl g)
  (defaultFromRV_dl g) (iLID g) f.

Definition X (A : Type) : Type := M proxy A.

Definition get_host (p : ptr) : X LocalHost := λ s,
  match hosts s !! p with Some h => Ok (h, s) | None => Fault UseAfterFree end.
Definition upd_host (p : ptr) (f : LocalHost → LocalHost) : X () := λ s,
  match hosts s !! p with
  | Some h => Ok ((), set_hosts (<[p := f h]> (hosts s)) s) | None => Fault UseAfterFree end.
Definition delete_host (p : ptr) : X () := λ s,
  match hosts s !! p with
  | Some _ => Ok ((), set_hosts (delete p (hosts s)) s) | None => Fault UseAfterFree end.

Definition find_pub (id : bytes) : X (option ActivePublication) := gets (λ s, ht_get id (activePublicationIndex s)).
Definition find_sub (id : bytes) : X (option ActiveSubscription) := gets (λ s, ht_get id (activeSubscriptionIndex s)).
Definition find_node (id : bytes) : X (option ActiveNode) := gets (λ s, ht_get id (activeNodeIndex s)).
Definition upd_pub (id : bytes) (f : ActivePublication → ActivePublication) : X () :=
  modify (λ s, set_pubs (ht_alter f id (activePublicationIndex s)) s).
Definition upd_sub (id : bytes) (f : ActiveSubscription → ActiveSubscription) : X () :=
  modify (λ s, set_subs (ht_alter f id (activeSubscriptionIndex s)) s).
Definition upd_node (id : bytes) (f : ActiveNode → ActiveNode) : X () :=
  modify (λ s, set_nodes (ht_alter f id (activeNodeIndex s)) s).

Definition emit (e : event) : X () := modify (λ s, set_out (out s ++ [e]) s).
Definition check {A} (r : res A) : X A := λ s,
  match r with Ok a => Ok (a, s) | Fault f => Fault f end.

(** [publishers.get(h)]: 0 for an absent key *)
Definition publisher_state (h : ptr) (t : PH Z) : Z := default 0 (ht_get h t).

(** [s.substring(0, s.length() - PURSUIT_ID_LEN)] and
    [s.substring(s.length() - PURSUIT_ID_LEN, PURSUIT_ID_LEN)] *)
Definition prefix_of (id : bytes) : bytes := take (length id - PURSUIT_ID_LEN) id.
Definition last_of (id : bytes) : bytes := drop (length id - PURSUIT_ID_LEN) id.

(** [fid != NULL]: the conversion to a member pointer, null for a vector of
    zeros *)
Definition not_null (fid : BABitvector) : bool := negb (BABitvector_zero fid).

(** ** Packets for applications and elements *)

(** [output(id)] for an element, and [output(0)] with the id as annotation
    for an application *)
Definition push_to_host (h : ptr) (p : pkt) (d : list (option Z)) : X () :=
  x ← get_host h;
  match lh_type x with
  | CLICK_ELEMENT => emit (Push (lh_id x) None p d)
  | LOCAL_PROCESS => emit (Push 0 (Some (lh_id x)) p d)
  end.

Definition sendNotificationLocally (type : Z) (_localhost : ptr) (ID : bytes) : X () :=
  let IDLen := u8 (zlen ID / Z.of_nat PURSUIT_ID_LEN) in
  q ← check (build (2 + zlen ID) [[type]; [IDLen]; take (Z.to_nat IDLen * PURSUIT_ID_LEN) ID]);
  push_to_host _localhost Made q.

(** The packet is extended to the front. *)
Definition pushDataToLocalSubscriber (_localhost : ptr) (ID : bytes) (p : pkt) (d : bytes) (APItype : Z) : X () :=
  let IDLen := u8 (zlen ID / Z.of_nat PURSUIT_ID_LEN) in
  push_to_host _localhost p (Some <$> ([APItype; IDLen] ++ ID ++ d)).

(** ** Packets for the network *)

(** The number of identifiers and each of them with its length. *)
Definition ids_header (IDs : list bytes) : list bytes :=
  let n := u8 (zlen IDs) in [n] :: put_ids (take (Z.to_nat n) IDs).

(** pushDataToRemoteSubscribers; [None] is the method without a type.  With
    another type the source pushes an uninitialised pointer. *)
Definition pushDataToRemoteSubscribers (IDs : list bytes) (type : option Z) (FID : BABitvector)
    (p : pkt) (d : bytes) : X () :=
  let total := zlen (mjoin IDs) in
  let hd := Z.of_nat FID_LEN + 1 + u8 (zlen IDs) * 1 + total in
  g ← gets gc;
  match type with
  | None =>
      fid ← check (FID_read FID);
      q ← check (build hd (fid :: ids_header IDs));
      emit (Push 2 None p (q ++ (Some <$> d)))
  | Some type =>
      if type =? PUBLISH_DATA then
        fid ← check (FID_read FID);
        q ← check (build (hd + 1 + zlen d) (fid :: ids_header IDs ++ [[type]; d]));
        emit (Kill p);; emit (Push 2 None Made q)
      else if type =? PUBLISH_DATA_iSUB then
        fid ← check (FID_read FID);
        node ← check (c_str_read (nodeID g) NODEID_LEN);
        q ← check (build (hd + 1 + Z.of_nat NODEID_LEN + zlen d) (fid :: ids_header IDs ++ [[type]; node; d]));
        emit (Push 2 None Made q)
      else throw UseAfterFree
  end.

(** ** Packets for the rendezvous element *)

(** The request goes to the LocalRV of this node. *)
Definition to_local_RV (RVFID : BABitvector) (g : gconf) : bool := BABitvector_zero RVFID || type_RV g.

(** The header of a message of the API that was published under the scope of
    this node. *)
Definition RV_api (type : Z) (g : gconf) : list bytes :=
  [[type]; [u8 (zlen (nodeRVScope g) / Z.of_nat PURSUIT_ID_LEN)]; nodeRVScope g].

Definition publishReqToRV (p : pkt) (d : bytes) (RVFID : BABitvector) : X () :=
  g ← gets gc;
  if to_local_RV RVFID g then
    q ← check (build (1 + 1 + zlen (nodeRVScope g)) (RV_api PUBLISHED_DATA g));
    emit (Push 1 None p (q ++ (Some <$> d)))
  else
    q ← check (build (1 + 1 + 2 * Z.of_nat PURSUIT_ID_LEN) [[1]; [2]; nodeRVScope g]);
    fid ← check (FID_read RVFID);
    emit (Push 2 None p ((Some <$> fid) ++ q ++ (Some <$> d))).

(** [memcpy] of [NODEID_LEN] bytes for each node *)
Fixpoint node_chunks (l : list bytes) : res (list bytes) :=
  match l with
  | [] => Ok []
  | x :: l => y ← c_str_read x NODEID_LEN; r ← node_chunks l; Ok (y :: r)
  end.

Definition publishiReqToRV (nodeIDs : SH ()) : X () :=
  g ← gets gc;
  let n := u8 (Z.of_nat (ht_size nodeIDs)) in
  nodes ← check (node_chunks (ht_keys nodeIDs));
  q ← check (build (1 + 1 + zlen (nodeRVScope g) + 1 + n * Z.of_nat NODEID_LEN)
    (RV_api PUBLISHED_DATA_iSUB g ++ [n] :: nodes));
  emit (Push 1 None Made q).

(** The fields of a request. *)
Definition request_chunks (type IDLen : Z) (ID : bytes) (prefixIDLen : Z) (prefixID : bytes) (strategy : Z)
    : list bytes := [[type]; [IDLen]; ID; [prefixIDLen]; prefixID; [strategy]].

Definition createAndSendPacketToRV (type IDLen : Z) (ID : bytes) (prefixIDLen : Z) (prefixID : bytes)
    (RVFID : BABitvector) (strategy : Z) : X () :=
  g ← gets gc;
  let len := 1 + 1 + 2 * Z.of_nat PURSUIT_ID_LEN + 1 + 1 + IDLen * Z.of_nat PURSUIT_ID_LEN
    + 1 + prefixIDLen * Z.of_nat PURSUIT_ID_LEN + 1 in
  let rq := request_chunks type IDLen ID prefixIDLen prefixID strategy in
  if to_local_RV RVFID g then
    q ← check (build len (RV_api PUBLISHED_DATA g ++ rq));
    emit (Push 1 None Made q)
  else
    fid ← check (FID_read RVFID);
    sc ← check (c_str_read (nodeRVScope g) (2 * PURSUIT_ID_LEN));
    q ← check (build (Z.of_nat FID_LEN + len) ([fid; [1]; [2]; sc] ++ rq));
    emit (Push 2 None Made q).
End store.
