(* ===== verification/LocalProxy.v ===== *)
(** * The LocalProxy element

    Model of src/src/localproxy.cc: the requests of applications and
    elements, what a disconnection removes, the delivery of data to local and
    remote subscribers, the notifications of the rendezvous element, of the
    topology manager and of ControlReliability, the management messages and
    [push].

    A loop whose body erases from the table it runs over goes through the keys
    the table had when the loop began, since Click's iterator keeps the link
    of an erased cell.  Log messages are not modelled. *)

From S2P Require Import Prelude Enums HashTable BitVector Packet GlobalConf RvMessages ProxyStore.

Section proxy.
Context `{CT : ClickTables}.

(** ** Local hosts *)

(** [output]'s numbers are [int]s. *)
Definition getLocalHost (type : ELEMENTtype) (id : Z) : X ptr :=
  h ← gets (λ s, ht_get id (local_pub_sub_Index s));
  match h with
  | Some h => mret h
  | None =>
      h ← gets next;
      modify (λ s, set_next (S h) (set_hosts (<[h := mkLH type id ht_empty ht_empty]> (hosts s)) s));;
      modify (λ s, set_index (ht_set id h (local_pub_sub_Index s)) s);;
      mret h
  end.

(** ** Publications and subscriptions *)

Definition proxy_strategy (strategy : Z) : bool := (strategy =? NODE_LOCAL) || (strategy =? DOMAIN_LOCAL).
(** Subscriptions with the other strategies are announced to the rendezvous
    element. *)
Definition local_strategy (strategy : Z) : bool :=
  (strategy =? IMPLICIT_RENDEZVOUS) || (strategy =? LINK_LOCAL) || (strategy =? BROADCAST_IF).

Definition storeActivePublication (_publisher : ptr) (fullID : bytes) (strategy : Z) (RVFID : BABitvector)
    (isScope : bool) : X bool :=
  if negb (proxy_strategy strategy) then mret false else
  ap ← find_pub fullID;
  match ap with
  | None =>
      let ap := mkAP fullID strategy (ht_find_insert _publisher STOP_PUBLISH ht_empty) [] BABitvector_empty RVFID isScope in
      modify (λ s, set_pubs (ht_set fullID ap (activePublicationIndex s)) s);;
      upd_host _publisher (λ h, lh_with_pubs (hs_insert fullID (activePublications h)) h);;
      mret true
  | Some ap =>
      let st := publisher_state _publisher (ap_publishers ap) in
      if (st =? RE_PUBLISH) || (st =? RESUME_PUBLISH) then mret true
      else if ap_strategy ap =? strategy then
        upd_pub fullID (λ ap, ap_with_publishers (ht_find_insert _publisher STOP_PUBLISH (ap_publishers ap)) ap);;
        upd_host _publisher (λ h, lh_with_pubs (hs_insert fullID (activePublications h)) h);;
        mret false
      else mret false
  end.

Definition removeActivePublication (_publisher : ptr) (fullID : bytes) (strategy : Z) : X bool :=
  if negb (proxy_strategy strategy) then mret false else
  ap ← find_pub fullID;
  match ap with
  | None => mret false
  | Some ap =>
      if ap_strategy ap =? strategy then
        upd_host _publisher (λ h, lh_with_pubs (ht_erase fullID (activePublications h)) h);;
        let t := ht_erase _publisher (ap_publishers ap) in
        upd_pub fullID (ap_with_publishers t);;
        if (ht_size t =? 0)%nat then
          modify (λ s, set_pubs (ht_erase fullID (activePublicationIndex s)) s);; mret true
        else mret false
      else mret false
  end.

(** [new ActiveSubscription], with its first subscriber *)
Definition new_subscription (_subscriber : ptr) (id : bytes) (strategy : Z) (RVFID : BABitvector) (isScope : bool) : X () :=
  modify (λ s, set_subs (ht_set id (mkAS id strategy (hs_insert _subscriber ht_empty) RVFID isScope) (activeSubscriptionIndex s)) s);;
  upd_host _subscriber (λ h, lh_with_subs (hs_insert id (activeSubscriptions h)) h).

Definition storeActiveSubscription (_subscriber : ptr) (fullID : bytes) (strategy : Z) (RVFID : BABitvector)
    (isScope : bool) : X bool :=
  as' ← find_sub fullID;
  match as' with
  | None =>
      new_subscription _subscriber fullID strategy RVFID isScope;;
      (if bool_decide (fullID = HTTP_DEFAULT_IID)
       then new_subscription _subscriber (prefix_of fullID) strategy RVFID true else mret ());;
      mret (negb (local_strategy strategy))
  | Some as' =>
      if as_strategy as' =? strategy then
        upd_sub fullID (λ a, as_with_subscribers (hs_insert _subscriber (as_subscribers a)) a);;
        upd_host _subscriber (λ h, lh_with_subs (hs_insert fullID (activeSubscriptions h)) h);;
        (if bool_decide (fullID = HTTP_DEFAULT_IID) then
           pas ← find_sub (prefix_of fullID); _ ← lift_opt NullDeref pas;
           upd_sub (prefix_of fullID) (λ a, as_with_subscribers (hs_insert _subscriber (as_subscribers a)) a)
         else mret ());;
        mret true
      else mret false
  end.

Definition removeActiveSubscription (_subscriber : ptr) (fullID : bytes) (strategy : Z) : X bool :=
  as' ← find_sub fullID;
  match as' with
  | None => mret false
  | Some as' =>
      if as_strategy as' =? strategy then
        upd_host _subscriber (λ h, lh_with_subs (ht_erase fullID (activeSubscriptions h)) h);;
        let t := ht_erase _subscriber (as_subscribers as') in
        upd_sub fullID (as_with_subscribers t);;
        if (ht_size t =? 0)%nat then
          modify (λ s, set_subs (ht_erase fullID (activeSubscriptionIndex s)) s);; mret (negb (local_strategy strategy))
        else mret false
      else mret false
  end.

(** The identifier a request is about. *)
Definition full_ID (ID prefixID : bytes) : bytes :=
  if (length ID =? PURSUIT_ID_LEN)%nat then prefixID ++ ID else prefixID ++ last_of ID.

Definition handleLocalRequest (type : Z) (_localhost : ptr) (ID prefixID : bytes) (strategy : Z)
    (RVFID : BABitvector) : X bool :=
  let fullID := full_ID ID prefixID in
  if type =? PUBLISH_SCOPE then storeActivePublication _localhost fullID strategy RVFID true
  else if type =? PUBLISH_INFO then storeActivePublication _localhost fullID strategy RVFID false
  else if (type =? UNPUBLISH_SCOPE) || (type =? UNPUBLISH_INFO) then removeActivePublication _localhost fullID strategy
  else if type =? SUBSCRIBE_SCOPE then storeActiveSubscription _localhost fullID strategy RVFID true
  else if type =? SUBSCRIBE_INFO then storeActiveSubscription _localhost fullID strategy RVFID false
  else if (type =? UNSUBSCRIBE_SCOPE) || (type =? UNSUBSCRIBE_INFO) then removeActiveSubscription _localhost fullID strategy
  else if type =? PUBLISH_DATA_iSUB then storeActiveSubscription _localhost fullID strategy RVFID false
  else mret false.

(** ** Subscribers of identifiers *)

(** [for (h : subscribers) _localSubscribers.set(h, knownID)] *)
Definition add_subscribers (as' : option ActiveSubscription) (knownID : bytes) (t : PH bytes) : PH bytes :=
  match as' with
  | Some a => foldl (λ t h, ht_set h knownID t) t (ht_keys (as_subscribers a))
  | None => t
  end.

(** The result of the source is whether anything was added. *)
Fixpoint findLocalSubscribers (IDs : list bytes) (_localSubscribers : PH bytes) : X (PH bytes) :=
  match IDs with
  | [] => mret _localSubscribers
  | knownID :: IDs =>
      a ← find_sub knownID;
      b ← find_sub (prefix_of knownID);
      findLocalSubscribers IDs (add_subscribers b knownID (add_subscribers a knownID _localSubscribers))
  end.

(** The subscribers of the father scope. *)
Definition findActiveSubscriptions (ID : bytes) : X (PH ()) :=
  a ← find_sub (prefix_of ID);
  mret (match a with
        | Some a => if as_isScope a then hs_insert_all (ht_keys (as_subscribers a)) ht_empty else ht_empty
        | None => ht_empty end).

(** ** Delivery *)

(** The loop over the local subscribers: the last one gets the packet itself. *)
Fixpoint push_locally (l : list (ptr * bytes)) (d : bytes) (APItype : Z) : X () :=
  match l with
  | [] => mret ()
  | (h, ID) :: l =>
      pushDataToLocalSubscriber h ID (match l with [] => Given | _ => Clone end) d APItype;;
      push_locally l d APItype
  end.

(** A packet of the network.  The source tests the flag that
    [findLocalSubscribers] returns: whether it set a subscriber. *)
Definition handleNetworkPublication (IDs : list bytes) (d : bytes) (APItype : Z) : X () :=
  t ← findLocalSubscribers IDs ht_empty;
  if ht_is_empty t then emit (Kill Given) else push_locally (ht_elems t) d APItype.

(** A publication of a local host.  [None] is the method without a type: it
    also takes the identifier of this node for an empty path, and has no case
    for STOP_PUBLISH. *)
Definition handleUserPublication (ID : bytes) (type : option Z) (d : bytes) (__localhost : ptr) (APItype : Z) : X () :=
  own ← find_pub ID;
  ap ← (match own with Some ap => mret (Some ap) | None => find_pub (prefix_of ID) end);
  let useFatherFID := match own with Some _ => false | None => true end in
  match ap with
  | None => emit (Kill Given)
  | Some ap =>
      if not_null (ap_FID_to_subscribers ap) then
        g ← gets gc;
        let fid := ap_FID_to_subscribers ap in
        let remote := negb (BABitvector_zero fid ||
          match type with None => BABitvector_eqb fid (iLID g) | Some _ => false end) in
        let IDs := if useFatherFID then [ID] else ap_allKnownIDs ap in
        t ← findLocalSubscribers IDs ht_empty;
        let l := ht_keys (ht_erase __localhost t) in
        let loop := push_locally ((λ h, (h, ID)) <$> l) d APItype in
        match l, remote with
        | [], false => emit (Kill Given)
        | [], true => pushDataToRemoteSubscribers IDs type fid Given d
        | _, false => loop
        | _, true => pushDataToRemoteSubscribers IDs type fid Clone d;; loop
        end
      else
        let notification := publisher_state __localhost (ap_publishers ap) in
        if notification =? RE_PUBLISH then sendNotificationLocally RE_PUBLISH __localhost ID
        else if notification =? PAUSE_PUBLISH then sendNotificationLocally PAUSE_PUBLISH __localhost ID
        else if (notification =? STOP_PUBLISH) && (match type with Some _ => true | None => false end) then mret ()
        else emit (Kill Given)
  end.

(** The identifiers of a publication that the ones of its father give. *)
Definition known_IDs (ID : bytes) : X (list bytes) :=
  ap ← find_pub (prefix_of ID);
  mret (match ap with
        | Some ap => filter (λ k, k ≠ ID) ((λ k, k ++ last_of ID) <$> ap_allKnownIDs ap)
        | None => [] end ++ [ID]).

(** Data for the network when there are local subscribers: nothing is sent to
    the topology manager then. *)
Definition push_beside (IDs : list bytes) (type : option Z) (FID : BABitvector) (d : bytes) : X () :=
  g ← gets gc;
  if not_null (TMFID g) && BABitvector_eqb FID (TMFID g) then mret ()
  else pushDataToRemoteSubscribers IDs type FID Clone d.

(** A publication with a forwarding identifier. *)
Definition handleUserPublicationFID (ID : bytes) (type : option Z) (FID : BABitvector) (d : bytes)
    (__localhost : ptr) (APItype : Z) : X () :=
  IDs ← known_IDs ID;
  t ← findLocalSubscribers IDs ht_empty;
  let l := ht_keys (ht_erase __localhost t) in
  match l with
  | [] => pushDataToRemoteSubscribers IDs type FID Given d
  | _ => push_beside IDs type FID d;; push_locally ((λ h, (h, ID)) <$> l) d APItype
  end.

(** ** Notifications of the topology manager *)

(** [affected & fid == affected] *)
Definition affects (affected fid : BABitvector) : res bool :=
  a ← BABitvector_and_assign affected fid; Ok (BABitvector_eqb a affected).

(** The table with the states of some publishers changed, in place. *)
Definition change_publishers (f : Z → Z) (t : PH Z) : PH Z := foldl (λ t h, ht_alter f h t) t (ht_keys t).

Definition republish_state (st : Z) : Z := if st =? START_PUBLISH then RE_PUBLISH else st.

(** A publication of an item loses a path over the affected link. *)
Definition invalidate (affected : BABitvector) (ap : ActivePublication) : res (option ActivePublication) :=
  if negb (ap_isScope ap) && not_null (ap_FID_to_subscribers ap) then
    m ← affects affected (ap_FID_to_subscribers ap);
    Ok (if m : bool then
          Some (ap_with_publishers (change_publishers republish_state (ap_publishers ap)) (ap_with_FID BABitvector_empty ap))
        else None)
  else Ok None.

(** [m], which is given the packet, and then code that uses the packet again:
    a packet that was pushed or killed is gone. *)
Definition uses_given (e : event) : bool :=
  match e with Push _ _ Given _ => true | Kill Given => true | _ => false end.
Definition and_again {A} (m : X ()) (k : X A) : X A :=
  before ← gets (λ s, length (out s));
  m;;
  events ← gets (λ s, drop before (out s));
  if existsb uses_given events then throw UseAfterFree else k.

(** The packet is killed once it has been read. *)
Definition processTMNotification (d : bytes) : X () :=
  b ← check (data_read d 0 FID_LEN);
  let affected_LID := FID_of_bytes b in
  emit (Kill Given);;
  pubs ← gets (λ s, ht_elems (activePublicationIndex s));
  mfor pubs (λ '(id, ap),
    r ← check (invalidate affected_LID ap);
    match r with Some ap => upd_pub id (λ _, ap) | None => mret () end);;
  nodes ← gets (λ s, ht_vals (activeNodeIndex s));
  affectedNodeIDs ← mfoldl (λ acc an,
    m ← check (affects affected_LID (an_FID_to_node an));
    mret (if m : bool then hs_insert (an_nodeID an) acc else acc)) ht_empty nodes;
  if (ht_size affectedNodeIDs =? 0)%nat then mret () else publishiReqToRV affectedNodeIDs.

(** A publication of the topology manager.  The packet is read after
    pushDataToRemoteSubscribers. *)
Definition handleUserTMPublication (ID : bytes) (type : Z) (FID : BABitvector) (d : bytes) (__localhost : ptr) : X () :=
  IDs ← known_IDs ID;
  t ← findLocalSubscribers IDs ht_empty;
  and_again
    (match ht_keys (ht_erase __localhost t) with
     | [] => pushDataToRemoteSubscribers IDs (Some type) FID Given d
     | _ => push_beside IDs (Some type) FID d
     end)
    (processTMNotification d).

(** ** Notifications of the rendezvous element *)

(** [n] identifiers, each after its length in fragments, and where they end. *)
Fixpoint read_ids (d : bytes) (off n : nat) : res (list bytes * nat) :=
  match n with
  | O => Ok ([], off)
  | S n =>
      IDLen ← data_byte d off;
      let len := (Z.to_nat IDLen * PURSUIT_ID_LEN)%nat in
      ID ← data_read d (off + 1) len;
      '(IDs, e) ← read_ids d (off + 1 + len) n;
      Ok (ID :: IDs, e)
  end.

(** SCOPE_PUBLISHED and SCOPE_UNPUBLISHED *)
Definition notify_scopes (type : Z) (IDs : list bytes) : X () :=
  mfor IDs (λ ID, t ← findActiveSubscriptions ID; mfor (ht_keys t) (λ h, sendNotificationLocally type h ID)).

(** The publications that are known keep the identifiers and the path. *)
Definition learn (IDs : list bytes) (FID : BABitvector) (ID : bytes) : X () :=
  ap ← find_pub ID;
  match ap with Some _ => upd_pub ID (λ ap, ap_with_FID FID (ap_with_known IDs ap)) | None => mret () end.

(** START_PUBLISH: the first publisher of each publication *)
Definition start_first (ID : bytes) : X () :=
  ap ← find_pub ID;
  match ap with
  | Some ap =>
      match ht_first (ap_publishers ap) with
      | Some h =>
          upd_pub ID (λ ap, ap_with_publishers (ht_alter (λ _, START_PUBLISH) h (ap_publishers ap)) ap);;
          sendNotificationLocally START_PUBLISH h ID
      | None => mret ()
      end
  | None => mret ()
  end.

(** UPDATE_FID: the first publisher, when it publishes *)
Definition update_first (ID : bytes) : X () :=
  ap ← find_pub ID;
  match ap with
  | Some ap =>
      match ht_first (ap_publishers ap) with
      | Some h => if publisher_state h (ap_publishers ap) =? START_PUBLISH
                  then sendNotificationLocally UPDATE_PUBLISH h ID else mret ()
      | None => mret ()
      end
  | None => mret ()
  end.

(** STOP_PUBLISH: all publishers that publish *)
Definition stop_all (IDs : list bytes) (ID : bytes) : X () :=
  ap ← find_pub ID;
  match ap with
  | Some ap =>
      upd_pub ID (λ ap, ap_with_FID (BABitvector_make (Z.of_nat FID_LEN * 8)) (ap_with_known IDs ap));;
      mfor (ht_elems (ap_publishers ap)) (λ '(h, st),
        if st =? START_PUBLISH then
          upd_pub ID (λ ap, ap_with_publishers (ht_alter (λ _, STOP_PUBLISH) h (ap_publishers ap)) ap);;
          sendNotificationLocally STOP_PUBLISH h ID
        else mret ())
  | None => mret ()
  end.

(** UPDATE_FID_iSUB: the nodes and their paths, from [off] on; the first
    publisher of each known node is told whether there is a path. *)
Fixpoint update_nodes (d : bytes) (off n : nat) : X () :=
  match n with
  | O => mret ()
  | S n =>
      isubscriber ← check (data_read d off NODEID_LEN);
      b ← check (data_read d (off + NODEID_LEN) FID_LEN);
      let FID := FID_of_bytes b in
      an ← find_node isubscriber;
      match an with
      | Some an =>
          upd_node isubscriber (an_with_FID FID);;
          let type := if BABitvector_zero FID then STOP_PUBLISH_iSUB else START_PUBLISH_iSUB in
          match ht_first (an_publishers an) with
          | Some h =>
              upd_node isubscriber (λ an, an_with_publishers (ht_alter (λ _, type) h (an_publishers an)) an);;
              sendNotificationLocally type h isubscriber
          | None => mret ()
          end
      | None => mret ()
      end;;
      update_nodes d (off + NODEID_LEN + FID_LEN) n
  end.

Definition handleRVNotification (d : bytes) : X () :=
  type ← check (data_byte d 0);
  '(IDs, off) ← (if type =? UPDATE_FID_iSUB then mret ([], 2%nat) else
    numberOfIDs ← check (data_byte d 1); check (read_ids d 2 (Z.to_nat numberOfIDs)));
  if (type =? SCOPE_PUBLISHED) || (type =? SCOPE_UNPUBLISHED) then notify_scopes type IDs
  else if (type =? START_PUBLISH) || (type =? UPDATE_FID) then
    b ← check (data_read d off FID_LEN);
    mfor IDs (learn IDs (FID_of_bytes b));;
    mfor IDs (if type =? START_PUBLISH then start_first else update_first)
  else if type =? UPDATE_RVFID then
    b ← check (data_read d 1 FID_LEN); modify (λ s, set_gc (gc_with_RV (FID_of_bytes b) (gc s)) s)
  else if type =? UPDATE_TMFID then
    b ← check (data_read d 1 FID_LEN); modify (λ s, set_gc (gc_with_TM (FID_of_bytes b) (gc s)) s)
  else if type =? STOP_PUBLISH then mfor IDs (stop_all IDs)
  else if type =? UPDATE_FID_iSUB then
    n ← check (data_byte d 1); update_nodes d 2 (Z.to_nat n)
  else mret ().

(** ** Implicit subscribers *)

(** [find_insert] of each local subscriber *)
Definition storeActiveNode (_isubscriberID : bytes) (IDs : list bytes) : X bool :=
  t ← findLocalSubscribers IDs ht_empty;
  an ← find_node _isubscriberID;
  match an with
  | None =>
      let publishers := foldl (λ t h, ht_find_insert h STOP_PUBLISH_iSUB t) ht_empty (ht_keys t) in
      let an := mkAN _isubscriberID publishers (BABitvector_make (Z.of_nat FID_LEN * 8)) in
      modify (λ s, set_nodes (ht_set _isubscriberID an (activeNodeIndex s)) s);;
      mret true
  | Some an => mret (BABitvector_zero (an_FID_to_node an))
  end.

(** The paths of the known nodes, joined. *)
Fixpoint join_FIDs (l : list (option ActiveNode)) (FID : BABitvector) : res BABitvector :=
  match l with
  | [] => Ok FID
  | Some an :: l => FID ← BABitvector_or_assign FID (an_FID_to_node an); join_FIDs l FID
  | None :: l => join_FIDs l FID
  end.

(** Without a publication the packet is killed twice. *)
Definition handleUserMulticastRequest (ID : bytes) (type : Z) (d : bytes) (isubscriberIDs : SH ()) : X () :=
  own ← find_pub ID;
  let id := match own with Some _ => ID | None => prefix_of ID end in
  ap ← find_pub id;
  match ap with
  | None => emit (Kill Given);; emit (Kill Given)
  | Some _ =>
      upd_pub id (ap_with_known [ID]);;
      nodes ← gets activeNodeIndex;
      FID ← check (join_FIDs ((λ k, ht_get k nodes) <$> ht_keys isubscriberIDs) (BABitvector_make (Z.of_nat FID_LEN * 8)));
      pushDataToRemoteSubscribers [ID] (Some type) FID Given d
  end.

(** ** Management *)

Definition pause_state (st : Z) : Z := if st =? STOP_PUBLISH then st else PAUSE_PUBLISH.

Definition disconnect_pub (ap : ActivePublication) : ActivePublication :=
  if ap_isScope ap then ap
  else ap_with_publishers (change_publishers pause_state (ap_publishers ap)) (ap_with_FID BABitvector_empty ap).

(** The publishers that were paused resume; they are told the first known
    identifier. *)
Definition resume_pub (id : bytes) (ap : ActivePublication) : X () :=
  if ap_isScope ap then mret () else
  mfor (ht_elems (ap_publishers ap)) (λ '(h, st),
    if st =? PAUSE_PUBLISH then
      upd_pub id (λ ap, ap_with_publishers (ht_alter (λ _, RESUME_PUBLISH) h (ap_publishers ap)) ap);;
      ap_ID ← lift_opt OutOfBounds (ap_allKnownIDs ap !! 0%nat);
      sendNotificationLocally RESUME_PUBLISH h ap_ID
    else mret ()).

Definition updateStates (state : Z) : X () :=
  if state =? DISCONNECTED then
    modify (λ s, set_gc (gc_with_RV BABitvector_empty (gc s)) s);;
    pubs ← gets (λ s, ht_keys (activePublicationIndex s));
    mfor pubs (λ id, upd_pub id disconnect_pub);;
    nodes ← gets (λ s, ht_keys (activeNodeIndex s));
    mfor nodes (λ id, upd_node id (an_with_FID BABitvector_empty))
  else if state =? RECONNECTED then
    pubs ← gets (λ s, ht_elems (activePublicationIndex s));
    mfor pubs (λ '(id, ap), resume_pub id ap);;
    nodes ← gets (λ s, ht_vals (activeNodeIndex s));
    if (length nodes =? 0)%nat then mret ()
    else publishiReqToRV (hs_insert_all (an_nodeID <$> nodes) ht_empty)
  else mret ().

(** An [uint32_t] in memory *)
Definition mem4 (x : Z) : bytes := [x mod 256; (x / 256) mod 256; (x / 65536) mod 256; (x / 16777216) mod 256].

(** ** Disconnection *)

(** The request that takes an identifier back; [IDLength] is 1. *)
Definition send_removal (type : Z) (fullID : bytes) (RVFID : BABitvector) (strategy : Z) : X () :=
  createAndSendPacketToRV type 1 (last_of fullID) (u8 ((zlen fullID - Z.of_nat PURSUIT_ID_LEN) / Z.of_nat PURSUIT_ID_LEN))
    (prefix_of fullID) RVFID strategy.

(** One publisher less; the publication and its table of publishers
    afterwards. *)
Definition drop_publisher (_publisher : ptr) (id : bytes) (ap : ActivePublication) : X (PH Z) :=
  upd_host _publisher (λ h, lh_with_pubs (ht_erase id (activePublications h)) h);;
  let t := ht_erase _publisher (ap_publishers ap) in
  upd_pub id (ap_with_publishers t);; mret t.

Definition drop_subscriber (_subscriber : ptr) (id : bytes) (a : ActiveSubscription) : X (PH ()) :=
  upd_host _subscriber (λ h, lh_with_subs (ht_erase id (activeSubscriptions h)) h);;
  let t := ht_erase _subscriber (as_subscribers a) in
  upd_sub id (as_with_subscribers t);; mret t.

Definition delete_item_publication (_publisher : ptr) (id : bytes) : X () :=
  ap ← find_pub id; ap ← lift_opt NullDeref ap;
  if ap_isScope ap then mret () else
  let shouldNotify := negb (publisher_state _publisher (ap_publishers ap) =? STOP_PUBLISH) in
  t ← drop_publisher _publisher id ap;
  if (ht_size t =? 0)%nat then
    modify (λ s, set_pubs (ht_erase (ap_fullID ap) (activePublicationIndex s)) s);;
    send_removal UNPUBLISH_INFO (ap_fullID ap) (ap_RVFID ap) (ap_strategy ap)
  else if shouldNotify then
    h ← lift_opt NullDeref (ht_first t);
    upd_pub id (λ ap, ap_with_publishers (ht_alter (λ _, START_PUBLISH) h (ap_publishers ap)) ap);;
    q ← check (build (2 + zlen (ap_fullID ap)) [[START_PUBLISH]; [u8 (zlen (ap_fullID ap) / Z.of_nat PURSUIT_ID_LEN)]; ap_fullID ap]);
    push_to_host h Made q
  else mret ().

Definition delete_subscription (type : Z) (_subscriber : ptr) (id : bytes) (a : ActiveSubscription) : X () :=
  t ← drop_subscriber _subscriber id a;
  if (ht_size t =? 0)%nat then
    modify (λ s, set_subs (ht_erase (as_fullID a) (activeSubscriptionIndex s)) s);;
    if local_strategy (as_strategy a) then mret ()
    else send_removal type (as_fullID a) (as_RVFID a) (as_strategy a)
  else mret ().

Definition delete_item_subscription (_subscriber : ptr) (id : bytes) : X () :=
  a ← find_sub id; a ← lift_opt NullDeref a;
  if as_isScope a then mret () else delete_subscription UNSUBSCRIBE_INFO _subscriber id a.

Definition delete_scope_publication (_publisher : ptr) (id : bytes) : X () :=
  ap ← find_pub id; ap ← lift_opt NullDeref ap;
  if negb (ap_isScope ap) then mret () else
  t ← drop_publisher _publisher id ap;
  if (ht_size t =? 0)%nat then
    modify (λ s, set_pubs (ht_erase (ap_fullID ap) (activePublicationIndex s)) s);;
    send_removal UNPUBLISH_SCOPE (ap_fullID ap) (ap_RVFID ap) (ap_strategy ap)
  else mret ().

Definition delete_scope_subscription (_subscriber : ptr) (id : bytes) : X () :=
  a ← find_sub id; a ← lift_opt NullDeref a;
  if negb (as_isScope a) then mret () else delete_subscription UNSUBSCRIBE_SCOPE _subscriber id a.

Definition deleteAllActiveInformationItemPublications (_publisher : ptr) : X () :=
  h ← get_host _publisher; mfor (ht_keys (activePublications h)) (delete_item_publication _publisher).
Definition deleteAllActiveInformationItemSubscriptions (_subscriber : ptr) : X () :=
  h ← get_host _subscriber; mfor (ht_keys (activeSubscriptions h)) (delete_item_subscription _subscriber).

Definition level (id : bytes) : nat := (length id / PURSUIT_ID_LEN)%nat.

(** The scopes go from the deepest level to the first. *)
Fixpoint by_level (i : nat) (ids : X (list bytes)) (del : bytes → X ()) : X () :=
  match i with
  | O => mret ()
  | S j =>
      l ← ids;
      mfor l (λ id, if (level id =? i)%nat then del id else mret ());;
      by_level j ids del
  end.

Definition deleteAllActiveScopePublications (_publisher : ptr) : X () :=
  h ← get_host _publisher;
  max_level ← mfoldl (λ m id, ap ← find_pub id; ap ← lift_opt NullDeref ap;
    mret (if ap_isScope ap then Nat.max m (level id) else m)) 0%nat (ht_keys (activePublications h));
  by_level max_level (h ← get_host _publisher; mret (ht_keys (activePublications h))) (delete_scope_publication _publisher).

Definition deleteAllActiveScopeSubscriptions (_subscriber : ptr) : X () :=
  h ← get_host _subscriber;
  max_level ← mfoldl (λ m id, a ← find_sub id; a ← lift_opt NullDeref a;
    mret (if as_isScope a then Nat.max m (level id) else m)) 0%nat (ht_keys (activeSubscriptions h));
  by_level max_level (h ← get_host _subscriber; mret (ht_keys (activeSubscriptions h))) (delete_scope_subscription _subscriber).

Definition disconnect (_localhost : ptr) : X () :=
  deleteAllActiveInformationItemPublications _localhost;;
  deleteAllActiveInformationItemSubscriptions _localhost;;
  deleteAllActiveScopePublications _localhost;;
  deleteAllActiveScopeSubscriptions _localhost;;
  h ← get_host _localhost;
  modify (λ s, set_index (ht_erase (lh_id h) (local_pub_sub_Index s)) s);;
  delete_host _localhost.

(** ** Failed requests *)

(** The request a failure is about: full identifier and strategy, which are
    read when it was sent to the rendezvous element.  The length of the prefix
    is a signed [char]; [String] takes a negative length for a string that
    ends with a null byte, which is not modelled. *)
Definition failed_request (g : gconf) (d : bytes) (IDs : list bytes) (off : nat) : res (bytes * Z) :=
  if bool_decide (IDs = [nodeRVScope g]) then
    IDLen ← data_byte d off;
    let n := (Z.to_nat IDLen * PURSUIT_ID_LEN)%nat in
    ID ← data_read d (off + 1) n;
    prefixIDLen ← data_byte d (off + 1 + n);
    if 128 <=? prefixIDLen then Fault OutOfRange else
    let m := (Z.to_nat prefixIDLen * PURSUIT_ID_LEN)%nat in
    prefixID ← data_read d (off + 2 + n) m;
    strategy ← data_byte d (off + 2 + n + m);
    Ok (prefixID ++ ID, strategy)
  else Ok ([], 0).

(** [ap->strategy != strategy]: [strategy] is a signed [char] there, so that a
    strategy of 128 or more is never found. *)
Definition same_strategy (st strategy : Z) : bool := st =? (if strategy <? 128 then strategy else strategy - 256).

(** One packet is pushed for all hosts; the packet given is left alone. *)
Definition push_report (q : list (option Z)) (l : list ptr) : X () :=
  mfor l (λ h, x ← get_host h; emit (Push 0 (Some (lh_id x)) Made q)).

Definition handleControlReliabilityNotification (d : bytes) : X () :=
  _ ← check (data_byte d 0);
  numberOfIDs ← check (data_byte d 2);
  '(IDs, off) ← check (read_ids d 3 (Z.to_nat numberOfIDs));
  type2 ← check (data_byte d off);
  g ← gets gc;
  '(fullID, strategy) ← check (failed_request g d IDs (off + 1));
  let fullIDLen := u8 (zlen fullID / Z.of_nat PURSUIT_ID_LEN) in
  if type2 =? MATCH_PUB_SUBS then emit (Kill Given) else
  ap ← find_pub fullID;
  a ← find_sub fullID;
  q ← check (build (1 + 1 + zlen fullID + 1 + 1)
    [[CONTROL_REQ_FAILURE]; [fullIDLen]; take (Z.to_nat fullIDLen * PURSUIT_ID_LEN) fullID; [type2]; [strategy]]);
  if (type2 =? PUBLISH_SCOPE) || (type2 =? UNPUBLISH_SCOPE) || (type2 =? PUBLISH_INFO) || (type2 =? UNPUBLISH_INFO) then
    match ap with
    | Some ap => if same_strategy (ap_strategy ap) strategy then push_report q (ht_keys (ap_publishers ap)) else mret ()
    | None => mret ()
    end
  else if (type2 =? SUBSCRIBE_SCOPE) || (type2 =? UNSUBSCRIBE_SCOPE) || (type2 =? SUBSCRIBE_INFO) || (type2 =? UNSUBSCRIBE_INFO) then
    match a with
    | Some a => if same_strategy (as_strategy a) strategy then push_report q (ht_keys (as_subscribers a)) else mret ()
    | None => mret ()
    end
  else mret ().

(** ** Management applications *)

Definition answer (_localhost : ptr) (type length : Z) (data : bytes) : X () :=
  q ← check (build (1 + 4 + length) [[type]; mem4 length; data]);
  x ← get_host _localhost;
  emit (Push 3 (Some (lh_id x)) Made q).

Definition handleMappRequest (d : bytes) (_localhost : ptr) : X () :=
  type ← check (data_byte d 0);
  g ← gets gc;
  (if type =? GET_NODEID then
     id ← check (c_str_read (nodeID g) NODEID_LEN); answer _localhost NODEID_IS (Z.of_nat NODEID_LEN) id
   else if type =? GET_RVTMFID then
     fid ← check (FID_read (defaultRV_dl g)); answer _localhost RVTMFID_IS (Z.of_nat FID_LEN) fid
   else if type =? SET_CONNECTION_STATUS then
     st ← check (data_byte d 1); modify (set_status st);; updateStates st
   else if type =? DISCONNECT then disconnect _localhost
   else mret ());;
  emit (Kill Given).

(** ** push *)

(** Port 2: a publication of the network. *)
Definition push_from_network (d : bytes) : X () :=
  g ← gets gc;
  numberOfIDs ← check (data_byte d 0);
  '(IDs, off) ← check (read_ids d 1 (Z.to_nat numberOfIDs));
  let d := drop off d in
  if bool_decide (IDs = [controlReliabilityScope]) then handleControlReliabilityNotification d else
  type ← check (data_byte d 0);
  if type =? PUBLISH_DATA then
    let d := drop 1 d in
    if bool_decide (IDs = [notificationIID g]) then handleRVNotification d;; emit (Kill Given)
    else if bool_decide (IDs = [pathMgmtIID]) then processTMNotification d
    else handleNetworkPublication IDs d PUBLISHED_DATA
  else if type =? PUBLISH_DATA_iSUB then
    let d := drop 1 d in
    nodeID ← check (data_read d 0 NODEID_LEN);
    forward ← storeActiveNode nodeID IDs;
    (if forward : bool then publishiReqToRV (hs_insert nodeID ht_empty) else mret ());;
    handleNetworkPublication IDs d PUBLISHED_DATA_iSUB
  else handleNetworkPublication IDs d PUBLISHED_DATA.

(** An identifier after its length in fragments. *)
Definition read_ID (d : bytes) (off : nat) : res bytes :=
  IDLen ← data_byte d off; data_read d (off + 1) (Z.to_nat IDLen * PURSUIT_ID_LEN).

Definition push_data (d : bytes) (_localhost : ptr) : X () :=
  g ← gets gc;
  ID ← check (read_ID d 1);
  let off := (2 + length ID)%nat in
  strategy ← check (data_byte d off);
  if (strategy =? IMPLICIT_RENDEZVOUS) || (strategy =? LINK_LOCAL) then
    b ← check (data_read d (off + 1) FID_LEN);
    let FID := FID_of_bytes b in
    let d := drop (off + 1 + FID_LEN) d in
    if strategy =? LINK_LOCAL then handleUserPublicationFID ID (Some PUBLISH_DATA) FID d _localhost PUBLISHED_DATA
    else if bool_decide (ID = notificationIID g) then handleRVNotification d;; emit (Kill Given)
    else if bool_decide (ID = nodeTMScope g) || bool_decide (ID = nodeTMScopeUC g)
    then handleUserPublicationFID ID None FID d _localhost PUBLISHED_DATA
    else if bool_decide (ID = pathMgmtIID) then handleUserTMPublication ID PUBLISH_DATA FID d _localhost
    else handleUserPublicationFID ID (Some PUBLISH_DATA) FID d _localhost PUBLISHED_DATA
  else if strategy =? BROADCAST_IF then
    FID ← check (BABitvector_negate (BABitvector_make (Z.of_nat FID_LEN * 8)));
    handleUserPublicationFID ID (Some PUBLISH_DATA) FID (drop (off + 1) d) _localhost PUBLISHED_DATA
  else handleUserPublication ID (Some PUBLISH_DATA) (drop (off + 1) d) _localhost PUBLISHED_DATA.

(** Only DOMAIN_LOCAL does anything.  The identifier that is subscribed is in
    the payload, which is read after the publication. *)
Definition push_iSUB (d : bytes) (_localhost : ptr) : X () :=
  ID ← check (read_ID d 1);
  let off := (2 + length ID)%nat in
  strategy ← check (data_byte d off);
  if strategy =? DOMAIN_LOCAL then
    let d := drop (off + 1) d in
    and_again (handleUserPublication ID (Some PUBLISH_DATA_iSUB) d _localhost PUBLISHED_DATA_iSUB)
      (g ← gets gc;
       ID ← check (read_ID d 0);
       _ ← handleLocalRequest PUBLISH_DATA_iSUB _localhost ID (prefix_of ID) strategy (defaultRV_dl g);
       emit (Kill Given))
  else mret ().

(** The node identifiers of a multicast request. *)
Fixpoint read_nodes (d : bytes) (off n : nat) (acc : SH ()) : res (SH ()) :=
  match n with
  | O => Ok acc
  | S n => x ← data_read d off NODEID_LEN; read_nodes d (off + NODEID_LEN) n (hs_insert x acc)
  end.

Definition push_iMULTICAST (d : bytes) : X () :=
  ID ← check (read_ID d 1);
  let off := (2 + length ID)%nat in
  _ ← check (data_byte d off);
  numberofNodeIDs ← check (data_byte d (off + 1));
  let n := Z.to_nat numberofNodeIDs in
  nodeIDs ← check (read_nodes d (off + 2) n ht_empty);
  handleUserMulticastRequest ID PUBLISH_DATA (drop (off + 2 + n * NODEID_LEN) d) nodeIDs.

(** The identifier of the rendezvous point for a strategy. *)
Definition RVFID_of (strategy : Z) (g : gconf) : BABitvector :=
  if strategy =? DOMAIN_LOCAL then defaultRV_dl g else BABitvector_make (Z.of_nat FID_LEN * 8).

(** A pub/sub request. *)
Definition push_request (type : Z) (d : bytes) (_localhost : ptr) : X () :=
  ID ← check (read_ID d 1);
  let off := (2 + length ID)%nat in
  prefixID ← check (read_ID d off);
  strategy ← check (data_byte d (off + 1 + length prefixID));
  g ← gets gc;
  let RVFID := RVFID_of strategy g in
  forward ← handleLocalRequest type _localhost ID prefixID strategy RVFID;
  if forward : bool then publishReqToRV Given d RVFID else emit (Kill Given).

(** [anno] is the annotation of the packet: the netlink port of the
    application. *)
Definition LocalProxy_push (in_port anno : Z) (d : bytes) : X () :=
  if in_port =? 2 then push_from_network d
  else if in_port =? 3 then h ← getLocalHost LOCAL_PROCESS anno; handleMappRequest d h
  else
    h ← (if in_port =? 0 then getLocalHost LOCAL_PROCESS anno else getLocalHost CLICK_ELEMENT in_port);
    type ← check (data_byte d 0);
    if type =? DISCONNECT then disconnect h;; emit (Kill Given)
    else if type =? PUBLISH_DATA then push_data d h
    else if type =? PUBLISH_DATA_iSUB then push_iSUB d h
    else if type =? PUBLISH_DATA_iMULTICAST then push_iMULTICAST d
    else push_request type d h.

(** [cleanup]: hosts, publications and subscriptions are deleted; the nodes
    are not.  [initialized] is [stage >= CLEANUP_ROUTER_INITIALIZED]. *)
Definition LocalProxy_cleanup (initialized : bool) : X () :=
  if initialized then
    l ← gets (λ s, ht_vals (local_pub_sub_Index s));
    mfor l delete_host;;
    modify (set_index ht_empty);; modify (set_pubs ht_empty);; modify (set_subs ht_empty)
  else mret ().
End proxy.
