(* ===== verification/ProxyInvariant.v ===== *)
(** * The invariant of the LocalProxy

    The abstract view of a state: which host publishes and subscribes to
    which identifiers.  [wf] says that the tables of publications and
    subscriptions and the sets of the hosts hold the same view, that the index
    of hosts and the heap agree, and that nothing refers to a deleted host.
    The lemmas follow the view and the invariant through the requests. *)

From S2P Require Import Prelude Enums HashTable BitVector Packet GlobalConf RvMessages ProxyStore LocalProxy.

Section invariant.
Context `{CT : ClickTables}.
Implicit Types (s : proxy) (h : ptr) (k : bytes).

(** ** The view *)

Definition live s h : Prop := is_Some (hosts s !! h).
(** [h] is in the table of publishers of [k], in the state [st] *)
Definition publishes s h k : Prop :=
  ∃ ap, ht_get k (activePublicationIndex s) = Some ap ∧ is_Some (ht_get h (ap_publishers ap)).
Definition subscribes s h k : Prop :=
  ∃ a, ht_get k (activeSubscriptionIndex s) = Some a ∧ hs_in h (as_subscribers a).
(** the sets of the host itself *)
Definition host_pub s h k : Prop := ∃ x, hosts s !! h = Some x ∧ hs_in k (activePublications x).
Definition host_sub s h k : Prop := ∃ x, hosts s !! h = Some x ∧ hs_in k (activeSubscriptions x).
Definition node_publisher s h k : Prop :=
  ∃ an, ht_get k (activeNodeIndex s) = Some an ∧ is_Some (ht_get h (an_publishers an)).

(** ** The invariant *)

(** An empty vector, or a forwarding identifier *)
Definition fid_ok (f : BABitvector) : Prop := f = BABitvector_empty ∨ (bv_wf f ∧ bv_max f = 255).

(** At least one fragment, and as many as their number fits a byte. *)
Definition id_ok k : Prop := ∃ n, (1 ≤ n ≤ 255)%nat ∧ length k = (n * PURSUIT_ID_LEN)%nat.

Record pub_ok k (ap : ActivePublication) : Prop := {
  po_id : ap_fullID ap = k;
  po_some : ∃ h, is_Some (ht_get h (ap_publishers ap));
  po_fid : fid_ok (ap_FID_to_subscribers ap);
  po_rv : fid_ok (ap_RVFID ap);
  po_known : ∀ h st, ht_get h (ap_publishers ap) = Some st → st ≠ STOP_PUBLISH → ap_allKnownIDs ap ≠ [];
  po_len : id_ok k;
}.

Record sub_ok k (a : ActiveSubscription) : Prop := {
  so_id : as_fullID a = k;
  so_some : ∃ h, hs_in h (as_subscribers a);
  so_rv : fid_ok (as_RVFID a);
  so_len : id_ok k;
}.

Record node_ok k (an : ActiveNode) : Prop := {
  no_id : an_nodeID an = k;
  no_len : length k = NODEID_LEN;
  no_fid : fid_ok (an_FID_to_node an);
}.

Record gc_ok (g : gconf) : Prop := {
  go_id : length (nodeID g) = NODEID_LEN;
  go_rv : fid_ok (defaultRV_dl g);
  go_tm : fid_ok (TMFID g);
}.

Record wf s : Prop := {
  wf_index : ∀ id h, ht_get id (local_pub_sub_Index s) = Some h ↔ ∃ x, hosts s !! h = Some x ∧ lh_id x = id;
  wf_next : ∀ h, live s h → (h < next s)%nat;
  wf_pubs : ∀ k ap, ht_get k (activePublicationIndex s) = Some ap → pub_ok k ap;
  wf_pub : ∀ h k, publishes s h k ↔ host_pub s h k;
  wf_subs : ∀ k a, ht_get k (activeSubscriptionIndex s) = Some a → sub_ok k a;
  wf_sub : ∀ h k, subscribes s h k ↔ host_sub s h k;
  wf_nodes : ∀ k an, ht_get k (activeNodeIndex s) = Some an → node_ok k an;
  wf_node : ∀ h k, node_publisher s h k → live s h;
  wf_gc : gc_ok (gc s);
}.

Lemma wf_initial g : gc_ok g → wf (proxy0 g).
Proof.
  intros Hg. unfold proxy0. split; cbn.
  - intros id h. rw ht_get_empty lookup_empty. split; [done|]. by intros (x & ? & _).
  - intros h [x Hx]. cbn in Hx. by rw lookup_empty in Hx.
  - intros k ap. by rw ht_get_empty.
  - intros h k. split; intros (x & Hx & _); cbn in Hx; [by rw ht_get_empty in Hx|by rw lookup_empty in Hx].
  - intros k a. by rw ht_get_empty.
  - intros h k. split; intros (x & Hx & _); cbn in Hx; [by rw ht_get_empty in Hx|by rw lookup_empty in Hx].
  - intros k an. by rw ht_get_empty.
  - intros h k (an & Hx & _). cbn in Hx. by rw ht_get_empty in Hx.
  - done.
Qed.

Lemma publishes_live s h k : wf s → publishes s h k → live s h.
Proof. intros W H. apply (wf_pub s W) in H as (x & Hx & _). by eexists. Qed.
Lemma subscribes_live s h k : wf s → subscribes s h k → live s h.
Proof. intros W H. apply (wf_sub s W) in H as (x & Hx & _). by eexists. Qed.

Lemma publishes_at s q k ap : ht_get k (activePublicationIndex s) = Some ap →
  publishes s q k ↔ is_Some (ht_get q (ap_publishers ap)).
Proof. intros E. unfold publishes. rw E. split; [by intros (? & [= <-] & ?)|intros; by eexists]. Qed.
Lemma subscribes_at s q k a : ht_get k (activeSubscriptionIndex s) = Some a → subscribes s q k ↔ hs_in q (as_subscribers a).
Proof. intros E. unfold subscribes. rw E. split; [by intros (? & [= <-] & ?)|intros; by eexists]. Qed.

Lemma publishes_alter s s' k f ap q j : activePublicationIndex s' = ht_alter f k (activePublicationIndex s) →
  ht_get k (activePublicationIndex s) = Some ap →
  publishes s' q j ↔ (j = k ∧ is_Some (ht_get q (ap_publishers (f ap)))) ∨ (j ≠ k ∧ publishes s q j).
Proof.
  intros E Hk. unfold publishes. rw E. setoid_rewrite ht_get_alter. destruct (decide (j = k)) as [->|Hne].
  - rw decide_True // Hk. split; [intros (a & [= <-] & H); by left|]. intros [[_ H]|[? _]]; [by eexists|done].
  - rw decide_False //. split; [intros H; by right|]. by intros [[? _]|[_ H]].
Qed.

(** ** Steps *)

Lemma wp_read_host h x Q s : hosts s !! h = Some x → Q x s → wp (get_host h) Q s.
Proof. intros E H. unfold wp, get_host. by rw E. Qed.
Lemma wp_live_host h f x (Q : () → proxy → Prop) s :
  hosts s !! h = Some x → Q () (set_hosts (<[h := f x]> (hosts s)) s) → wp (upd_host h f) Q s.
Proof. intros E H. unfold wp, upd_host. by rw E. Qed.
Lemma wp_emit e (Q : () → proxy → Prop) s : Q () (set_out (out s ++ [e]) s) → wp (emit e) Q s.
Proof. done. Qed.
Lemma wp_check {A} (r : res A) a (Q : A → proxy → Prop) s : r = Ok a → Q a s → wp (check r) Q s.
Proof. intros -> H. exact H. Qed.
Lemma wp_find_pub k (Q : option ActivePublication → proxy → Prop) s :
  Q (ht_get k (activePublicationIndex s)) s → wp (find_pub k) Q s.
Proof. done. Qed.
Lemma wp_find_sub k (Q : option ActiveSubscription → proxy → Prop) s :
  Q (ht_get k (activeSubscriptionIndex s)) s → wp (find_sub k) Q s.
Proof. done. Qed.
Lemma wp_find_node k (Q : option ActiveNode → proxy → Prop) s :
  Q (ht_get k (activeNodeIndex s)) s → wp (find_node k) Q s.
Proof. done. Qed.
Lemma wp_upd_pub k f (Q : () → proxy → Prop) s :
  Q () (set_pubs (ht_alter f k (activePublicationIndex s)) s) → wp (upd_pub k f) Q s.
Proof. done. Qed.
Lemma wp_upd_sub k f (Q : () → proxy → Prop) s :
  Q () (set_subs (ht_alter f k (activeSubscriptionIndex s)) s) → wp (upd_sub k f) Q s.
Proof. done. Qed.
Lemma wp_upd_node k f (Q : () → proxy → Prop) s :
  Q () (set_nodes (ht_alter f k (activeNodeIndex s)) s) → wp (upd_node k f) Q s.
Proof. done. Qed.

(** ** Changes of the state *)

(** All but the hosts, the publications and the subscriptions. *)
Record near s s' : Prop := {
  nr_index : local_pub_sub_Index s' = local_pub_sub_Index s;
  nr_next : next s' = next s;
  nr_nodes : activeNodeIndex s' = activeNodeIndex s;
  nr_gc : gc s' = gc s;
  nr_status : status s' = status s;
}.

Lemma near_refl s : near s s.
Proof. done. Qed.
Lemma near_trans s1 s2 s3 : near s1 s2 → near s2 s3 → near s1 s3.
Proof. intros [] []. split; congruence. Qed.

(** Sending changes nothing but the output. *)
Lemma wf_out s o : wf s → wf (set_out o s).
Proof. intros []. by split. Qed.

(** A host whose sets change. *)
Lemma hosts_set_pubs s h x t q k : hosts s !! h = Some x →
  host_pub (set_hosts (<[h := lh_with_pubs t x]> (hosts s)) s) q k ↔ (q = h ∧ hs_in k t) ∨ (q ≠ h ∧ host_pub s q k).
Proof.
  intros Hx. unfold host_pub. cbn. destruct (decide (q = h)) as [->|Hne].
  - rw lookup_insert_eq. split; [intros (y & [= <-] & H); by left|]. intros [[_ H]|[? _]]; [by eexists|done].
  - rw lookup_insert_ne //. naive_solver.
Qed.

Lemma hosts_set_subs s h x t q k : hosts s !! h = Some x →
  host_sub (set_hosts (<[h := lh_with_subs t x]> (hosts s)) s) q k ↔ (q = h ∧ hs_in k t) ∨ (q ≠ h ∧ host_sub s q k).
Proof.
  intros Hx. unfold host_sub. cbn. destruct (decide (q = h)) as [->|Hne].
  - rw lookup_insert_eq. split; [intros (y & [= <-] & H); by left|]. intros [[_ H]|[? _]]; [by eexists|done].
  - rw lookup_insert_ne //. naive_solver.
Qed.

(** What the invariant says of the hosts alone, with the other side of the
    relation given. *)
Lemma wf_change s s' h x y :
  wf s → hosts s !! h = Some x → hosts s' = <[h := y]> (hosts s) → lh_id y = lh_id x → near s s' →
  (∀ k ap, ht_get k (activePublicationIndex s') = Some ap → pub_ok k ap) →
  (∀ q k, publishes s' q k ↔ host_pub s' q k) →
  (∀ k a, ht_get k (activeSubscriptionIndex s') = Some a → sub_ok k a) →
  (∀ q k, subscribes s' q k ↔ host_sub s' q k) → wf s'.
Proof.
  intros W Hx Eh Eid [Ei En Ea Eg _] Hp Hpp Hs Hss.
  assert (∀ q, live s' q ↔ live s q) as Hlive.
  { intros q. unfold live. rw Eh lookup_insert_is_Some. destruct (decide (h = q)) as [<-|]; [|naive_solver].
    split; [by rw Hx|by left]. }
  split; try done.
  - intros id q. rw Ei (wf_index s W) Eh. destruct (decide (q = h)) as [->|Hne].
    + rw Hx lookup_insert_eq. split; intros (z & [= <-] & <-); eexists; (split; [done|]); congruence.
    + by rw lookup_insert_ne.
  - intros q Hq%Hlive. rw En. by apply (wf_next s W).
  - rw Ea. apply W.
  - intros q k. unfold node_publisher. rw Ea Hlive. apply (wf_node s W).
  - rw Eg. apply W.
Qed.

(** The publications of one host change, on both sides. *)
Lemma wf_change_pubs s s' h x t :
  wf s → hosts s !! h = Some x → hosts s' = <[h := lh_with_pubs t x]> (hosts s) →
  near s s' → activeSubscriptionIndex s' = activeSubscriptionIndex s →
  (∀ k ap, ht_get k (activePublicationIndex s') = Some ap → pub_ok k ap) →
  (∀ q k, publishes s' q k ↔ (q = h ∧ hs_in k t) ∨ (q ≠ h ∧ publishes s q k)) → wf s'.
Proof.
  intros W Hx Eh Hn Es Hok Hp. eapply (wf_change s s' h x); try done.
  - intros q k. rw Hp (wf_pub s W) -(hosts_set_pubs s h x t q k Hx). unfold host_pub. by rw Eh.
  - rw Es. apply W.
  - intros q k. unfold subscribes. rw Es. rw -/(subscribes s q k) (wf_sub s W). unfold host_sub. rw Eh.
    destruct (decide (q = h)) as [->|]; [rw lookup_insert_eq Hx|by rw lookup_insert_ne].
    split; intros (y & [= <-] & ?); by eexists.
Qed.

Lemma wf_change_subs s s' h x t :
  wf s → hosts s !! h = Some x → hosts s' = <[h := lh_with_subs t x]> (hosts s) →
  near s s' → activePublicationIndex s' = activePublicationIndex s →
  (∀ k a, ht_get k (activeSubscriptionIndex s') = Some a → sub_ok k a) →
  (∀ q k, subscribes s' q k ↔ (q = h ∧ hs_in k t) ∨ (q ≠ h ∧ subscribes s q k)) → wf s'.
Proof.
  intros W Hx Eh Hn Es Hok Hp. eapply (wf_change s s' h x); try done.
  - rw Es. apply W.
  - intros q k. unfold publishes. rw Es. rw -/(publishes s q k) (wf_pub s W). unfold host_pub. rw Eh.
    destruct (decide (q = h)) as [->|]; [rw lookup_insert_eq Hx|by rw lookup_insert_ne].
    split; intros (y & [= <-] & ?); by eexists.
  - intros q k. rw Hp (wf_sub s W) -(hosts_set_subs s h x t q k Hx). unfold host_sub. by rw Eh.
Qed.

(** ** The requests *)

(** The hosts are the same, up to what they publish and subscribe to. *)
Definition host_attrs s h : option (ELEMENTtype * Z) := (λ x, (lh_type x, lh_id x)) <$> hosts s !! h.

Lemma host_attrs_insert s s' h x y q : hosts s !! h = Some x → hosts s' = <[h := y]> (hosts s) →
  lh_type y = lh_type x → lh_id y = lh_id x → host_attrs s' q = host_attrs s q.
Proof.
  intros Hx E Et Ei. unfold host_attrs. rw E. destruct (decide (q = h)) as [->|]; [|by rw lookup_insert_ne].
  rw lookup_insert_eq Hx. cbn. by rw Et Ei.
Qed.

(** Nothing changes but the publications and subscriptions. *)
Record same_rest s s' : Prop := {
  sr_near : near s s';
  sr_hosts : ∀ h, host_attrs s' h = host_attrs s h;
}.

Lemma same_rest_refl s : same_rest s s.
Proof. done. Qed.
Lemma same_rest_trans s1 s2 s3 : same_rest s1 s2 → same_rest s2 s3 → same_rest s1 s3.
Proof. intros [] []. split; [by eapply near_trans|]. congruence. Qed.
Lemma same_rest_out s s' o : same_rest s s' → same_rest s (set_out o s').
Proof. intros [[] H]. by split. Qed.
Lemma same_rest_live s s' h : same_rest s s' → live s' h ↔ live s h.
Proof. intros [_ H]. specialize (H h). unfold live. rw -!(fmap_is_Some (λ x, (lh_type x, lh_id x))). by rw -/(host_attrs s' h) H. Qed.

Lemma host_pub_at s h x k : hosts s !! h = Some x → host_pub s h k ↔ hs_in k (activePublications x).
Proof. intros E. unfold host_pub. rw E. split; [by intros (y & [= <-] & ?)|intros; by eexists]. Qed.
Lemma host_sub_at s h x k : hosts s !! h = Some x → host_sub s h k ↔ hs_in k (activeSubscriptions x).
Proof. intros E. unfold host_sub. rw E. split; [by intros (y & [= <-] & ?)|intros; by eexists]. Qed.

(** [h] starts ([b]) or stops to publish [k], in the table and in its set. *)
Lemma moved_pub s s' h x t k (b : bool) :
  wf s → hosts s !! h = Some x → hosts s' = <[h := lh_with_pubs t x]> (hosts s) → near s s' →
  activeSubscriptionIndex s' = activeSubscriptionIndex s →
  (∀ j, hs_in j t ↔ (j = k ∧ b) ∨ (j ≠ k ∧ hs_in j (activePublications x))) →
  (∀ j, j ≠ k → ht_get j (activePublicationIndex s') = ht_get j (activePublicationIndex s)) →
  (∀ ap, ht_get k (activePublicationIndex s') = Some ap → pub_ok k ap) →
  (∀ q, publishes s' q k ↔ (q = h ∧ b) ∨ (q ≠ h ∧ publishes s q k)) →
  wf s' ∧ same_rest s s' ∧
  ∀ q j, publishes s' q j ↔ (q = h ∧ j = k ∧ b) ∨ (¬ (q = h ∧ j = k) ∧ publishes s q j).
Proof.
  intros W Hx Eh Hn Es Ht Hj Hk Hp.
  assert (∀ q j, j ≠ k → publishes s' q j ↔ publishes s q j) as Hpj.
  { intros q j Hne. unfold publishes. by rw Hj. }
  split_and!.
  - eapply wf_change_pubs; try done.
    + intros j ap. destruct (decide (j = k)) as [->|]; [apply Hk|]. rw Hj //. apply (wf_pubs s W).
    + intros q j. rw Ht. destruct (decide (j = k)) as [->|]; [rw Hp; tauto|]. rw Hpj //.
      destruct (decide (q = h)) as [->|]; [|tauto]. rw (wf_pub s W) (host_pub_at _ _ _ _ Hx). tauto.
  - split; [done|]. intros q. by eapply host_attrs_insert.
  - intros q j. destruct (decide (j = k)) as [->|]; [rw Hp; tauto|]. rw Hpj //. tauto.
Qed.

Lemma moved_sub s s' h x t k (b : bool) :
  wf s → hosts s !! h = Some x → hosts s' = <[h := lh_with_subs t x]> (hosts s) → near s s' →
  activePublicationIndex s' = activePublicationIndex s →
  (∀ j, hs_in j t ↔ (j = k ∧ b) ∨ (j ≠ k ∧ hs_in j (activeSubscriptions x))) →
  (∀ j, j ≠ k → ht_get j (activeSubscriptionIndex s') = ht_get j (activeSubscriptionIndex s)) →
  (∀ a, ht_get k (activeSubscriptionIndex s') = Some a → sub_ok k a) →
  (∀ q, subscribes s' q k ↔ (q = h ∧ b) ∨ (q ≠ h ∧ subscribes s q k)) →
  wf s' ∧ same_rest s s' ∧
  ∀ q j, subscribes s' q j ↔ (q = h ∧ j = k ∧ b) ∨ (¬ (q = h ∧ j = k) ∧ subscribes s q j).
Proof.
  intros W Hx Eh Hn Es Ht Hj Hk Hp.
  assert (∀ q j, j ≠ k → subscribes s' q j ↔ subscribes s q j) as Hpj.
  { intros q j Hne. unfold subscribes. by rw Hj. }
  split_and!.
  - eapply wf_change_subs; try done.
    + intros j ap. destruct (decide (j = k)) as [->|]; [apply Hk|]. rw Hj //. apply (wf_subs s W).
    + intros q j. rw Ht. destruct (decide (j = k)) as [->|]; [rw Hp; tauto|]. rw Hpj //.
      destruct (decide (q = h)) as [->|]; [|tauto]. rw (wf_sub s W) (host_sub_at _ _ _ _ Hx). tauto.
  - split; [done|]. intros q. by eapply host_attrs_insert.
  - intros q j. destruct (decide (j = k)) as [->|]; [rw Hp; tauto|]. rw Hpj //. tauto.
Qed.

Lemma hs_insert_moved k j (t : SH ()) : hs_in j (hs_insert k t) ↔ (j = k ∧ true) ∨ (j ≠ k ∧ hs_in j t).
Proof. rw hs_in_insert. destruct (decide (j = k)); naive_solver. Qed.
Lemma hs_erase_moved k j (t : SH ()) : hs_in j (ht_erase k t) ↔ (j = k ∧ false) ∨ (j ≠ k ∧ hs_in j t).
Proof. rw hs_in_erase. naive_solver. Qed.
End invariant.
