(* ===== verification/ProxyRequests.v ===== *)
(** * The pub/sub requests of the LocalProxy

    What a request does to the view of the proxy and whether it is forwarded
    to the rendezvous element; the lemmas on handleLocalRequest and the four
    methods it calls. *)

From S2P Require Import Prelude Enums HashTable BitVector Packet GlobalConf RvMessages ProxyStore LocalProxy ProxyInvariant.

Section requests.
Context `{CT : ClickTables}.
Implicit Types (s : proxy) (h : ptr) (k : bytes).

(** ** Changes in place *)

Lemma pub_ok_publishers k ap t : pub_ok k ap → (∃ h, is_Some (ht_get h t)) →
  (∀ h st, ht_get h t = Some st → st ≠ STOP_PUBLISH → ap_allKnownIDs ap ≠ []) → pub_ok k (ap_with_publishers t ap).
Proof. intros [] ? ?. by split. Qed.

Lemma pub_ok_state k ap q st : pub_ok k ap → (is_Some (ht_get q (ap_publishers ap)) → st ≠ STOP_PUBLISH → ap_allKnownIDs ap ≠ []) →
  pub_ok k (ap_with_publishers (ht_alter (λ _, st) q (ap_publishers ap)) ap).
Proof.
  intros Hok Hst. apply pub_ok_publishers; [done| |].
  - destruct (po_some _ _ Hok) as [p Hp]. exists p. by rw ht_is_Some_alter.
  - intros p v. rw ht_get_alter. case_decide as E; [subst p|apply (po_known _ _ Hok)].
    destruct (ht_get q (ap_publishers ap)); [|done]. intros [= <-]. apply Hst. by eexists.
Qed.

(** Entries of the publications that change in place. *)
Lemma wf_pubs_changed s t : wf s → (∀ k ap, ht_get k t = Some ap → pub_ok k ap) →
  (∀ k, (∃ ap, ht_get k t = Some ap) ↔ ∃ ap, ht_get k (activePublicationIndex s) = Some ap) →
  (∀ k ap ap', ht_get k t = Some ap → ht_get k (activePublicationIndex s) = Some ap' →
    ∀ q, is_Some (ht_get q (ap_publishers ap)) ↔ is_Some (ht_get q (ap_publishers ap'))) → wf (set_pubs t s).
Proof.
  intros [H1 H2 H3 H4 H5 H6 H7 H8 H9] Hok Hd Hq. split; try done. intros q k.
  transitivity (publishes s q k); [|exact (H4 q k)]. unfold publishes. cbn. split.
  - intros (ap & Hap & Hp). destruct (proj1 (Hd k)) as [ap' Hap']; [by exists ap|]. exists ap'. split; [done|]. by apply (Hq k ap ap').
  - intros (ap' & Hap' & Hp). destruct (proj2 (Hd k)) as [ap Hap]; [by exists ap'|]. exists ap. split; [done|]. by apply (Hq k ap ap').
Qed.

(** A change of an entry that is allowed. *)
Definition pub_change k (f : ActivePublication → ActivePublication) ap : Prop :=
  pub_ok k (f ap) ∧ ∀ q, is_Some (ht_get q (ap_publishers (f ap))) ↔ is_Some (ht_get q (ap_publishers ap)).

Lemma wf_upd_pub s k f : wf s → (∀ ap, ht_get k (activePublicationIndex s) = Some ap → pub_change k f ap) →
  wf (set_pubs (ht_alter f k (activePublicationIndex s)) s).
Proof.
  intros W Hf. apply wf_pubs_changed; [done|..].
  - intros j ap. rw ht_get_alter. case_decide as E; [subst j|apply (wf_pubs s W)].
    destruct (ht_get k _) as [a|]; [|done]. intros [= <-]. by apply Hf.
  - intros j. rw ht_get_alter. case_decide; [subst j|done]. destruct (ht_get k _); split; intros [? ?]; by eexists.
  - intros j ap ap'. rw ht_get_alter. case_decide as E; [subst j|intros -> [= ->]; done].
    intros H1 H2. rw H2 in H1. injection H1 as <-. by apply Hf.
Qed.

Lemma pub_change_known k IDs ap : IDs ≠ [] → pub_ok k ap → pub_change k (ap_with_known IDs) ap.
Proof. intros HI []. split; [|done]. split; try done. Qed.
Lemma pub_change_FID k f ap : fid_ok f → pub_ok k ap → pub_change k (ap_with_FID f) ap.
Proof. intros Hf []. split; [|done]. split; try done. Qed.
Lemma pub_change_state k q st ap : (st ≠ STOP_PUBLISH → ap_allKnownIDs ap ≠ []) → pub_ok k ap →
  pub_change k (λ ap, ap_with_publishers (ht_alter (λ _, st) q (ap_publishers ap)) ap) ap.
Proof. intros Hst Hok. split; [by apply pub_ok_state; [|auto]|]. intros p. cbn. by rw ht_is_Some_alter. Qed.
Lemma pub_change_comp k f g ap : pub_change k f ap → pub_change k g (f ap) → pub_change k (λ ap, g (f ap)) ap.
Proof. intros [H1 H2] [H3 H4]. split; [done|]. intros q. by rw H4. Qed.
(** ** The specification *)

Inductive change := Keep | StartPub | StopPub | StartSub | StopSub.

(** The kind of a request. *)
Definition request_kind (type : Z) : change :=
  if (type =? PUBLISH_SCOPE) || (type =? PUBLISH_INFO) then StartPub
  else if (type =? UNPUBLISH_SCOPE) || (type =? UNPUBLISH_INFO) then StopPub
  else if (type =? SUBSCRIBE_SCOPE) || (type =? SUBSCRIBE_INFO) || (type =? PUBLISH_DATA_iSUB) then StartSub
  else if (type =? UNSUBSCRIBE_SCOPE) || (type =? UNSUBSCRIBE_INFO) then StopSub
  else Keep.

(** The state of [h] as a publisher was set by a link failure or a
    reconnection: the publication is announced again. *)
Definition announced_again h (ap : ActivePublication) : bool :=
  (publisher_state h (ap_publishers ap) =? RE_PUBLISH) || (publisher_state h (ap_publishers ap) =? RESUME_PUBLISH).

(** What the request changes: nothing, if its strategy does not fit. *)
Definition effect s (kind : change) h k (strategy : Z) : change :=
  let takes :=
    match kind with
    | Keep => false
    | StartPub => proxy_strategy strategy &&
        match ht_get k (activePublicationIndex s) with
        | None => true | Some ap => negb (announced_again h ap) && (ap_strategy ap =? strategy) end
    | StopPub => proxy_strategy strategy &&
        match ht_get k (activePublicationIndex s) with None => false | Some ap => ap_strategy ap =? strategy end
    | StartSub => match ht_get k (activeSubscriptionIndex s) with None => true | Some a => as_strategy a =? strategy end
    | StopSub => match ht_get k (activeSubscriptionIndex s) with None => false | Some a => as_strategy a =? strategy end
    end in
  if takes then kind else Keep.

(** Who publishes and who subscribes after a change. *)
Definition publishes_after (c : change) h k (P : ptr → bytes → Prop) q j : Prop :=
  match c with
  | StartPub => P q j ∨ (q = h ∧ j = k)
  | StopPub => P q j ∧ ¬ (q = h ∧ j = k)
  | _ => P q j
  end.
Definition subscribes_after (c : change) h k (P : ptr → bytes → Prop) q j : Prop :=
  match c with
  | StartSub => P q j ∨ (q = h ∧ j = k)
  | StopSub => P q j ∧ ¬ (q = h ∧ j = k)
  | _ => P q j
  end.

(** The rendezvous element is told of the first publisher and of the last, of
    every subscription that is accepted, and of the last subscriber; not of
    subscriptions with a local strategy. *)
Definition forwarded s s' (kind : change) h k (strategy : Z) : Prop :=
  match kind with
  | Keep => False
  | StartPub => proxy_strategy strategy ∧
      match ht_get k (activePublicationIndex s) with None => True | Some ap => announced_again h ap end
  | StopPub => effect s kind h k strategy = StopPub ∧ ∀ q, ¬ publishes s' q k
  | StartSub =>
      match ht_get k (activeSubscriptionIndex s) with
      | None => ¬ local_strategy strategy | Some a => as_strategy a = strategy end
  | StopSub => effect s kind h k strategy = StopSub ∧ (∀ q, ¬ subscribes s' q k) ∧ ¬ local_strategy strategy
  end.

(** The contract of a request. *)
Record request_done s (kind : change) h k strategy (r : bool) s' : Prop := {
  rd_wf : wf s';
  rd_rest : same_rest s s';
  rd_out : out s' = out s;
  rd_pub : ∀ q j, publishes s' q j ↔ publishes_after (effect s kind h k strategy) h k (publishes s) q j;
  rd_sub : ∀ q j, subscribes s' q j ↔ subscribes_after (effect s kind h k strategy) h k (subscribes s) q j;
  rd_forwarded : r ↔ forwarded s s' kind h k strategy;
}.

(** ** Lemmas *)

Lemma pub_ok_add k ap h : pub_ok k ap → pub_ok k (ap_with_publishers (ht_find_insert h STOP_PUBLISH (ap_publishers ap)) ap).
Proof.
  intros Hok. apply pub_ok_publishers; [done| |].
  - exists h. rw ht_get_find_insert. destruct (ht_get h _); [done|]. by rw decide_True.
  - intros q st. rw ht_get_find_insert. destruct (ht_get q (ap_publishers ap)) as [w|] eqn:E.
    + intros [= <-]. by apply (po_known _ _ Hok q).
    + case_decide; [|done]. by intros [= <-].
Qed.

(** The table of the publications after a publisher left. *)
Lemma pub_dropped s h x k ap : wf s → hosts s !! h = Some x → ht_get k (activePublicationIndex s) = Some ap →
  let t := ht_erase h (ap_publishers ap) in
  let s1 := set_pubs (ht_alter (ap_with_publishers t) k (activePublicationIndex s))
    (set_hosts (<[h := lh_with_pubs (ht_erase k (activePublications x)) x]> (hosts s)) s) in
  let s' := if (ht_size t =? 0)%nat then set_pubs (ht_erase k (activePublicationIndex s1)) s1 else s1 in
  wf s' ∧ same_rest s s' ∧ (∀ q j, publishes s' q j ↔ publishes s q j ∧ ¬ (q = h ∧ j = k)) ∧
  ((ht_size t =? 0)%nat ↔ ∀ q, ¬ publishes s' q k).
Proof.
  intros W Hx Hap t s1 s'.
  assert (∀ q, is_Some (ht_get q t) ↔ q ≠ h ∧ publishes s q k) as Hold.
  { intros q. subst t. rw ht_get_erase. unfold publishes. rw Hap. case_decide; [subst|]; naive_solver. }
  assert ((ht_size t =? 0)%nat ↔ ∀ q, ¬ is_Some (ht_get q t)) as Hsz.
  { rw Is_true_true Nat.eqb_eq ht_size_empty_iff. setoid_rewrite eq_None_not_Some. done. }
  assert (∀ q, publishes s' q k ↔ is_Some (ht_get q t)) as Hq.
  { intros q. unfold publishes. subst s'. destruct (ht_size t =? 0)%nat.
    - cbn. rw ht_get_erase decide_True //. split; [by intros (? & ? & _)|]. by intros ?%Hsz.
    - cbn. rw ht_get_alter decide_True // Hap. split; [by intros (a & [= <-] & ?)|intros; by eexists]. }
  destruct (moved_pub s s' h x (ht_erase k (activePublications x)) k false) as (W' & R & V); try done.
  - subst s'. by destruct (ht_size t =? 0)%nat.
  - subst s'. by destruct (ht_size t =? 0)%nat.
  - subst s'. by destruct (ht_size t =? 0)%nat.
  - intros j. apply hs_erase_moved.
  - intros j Hj. subst s'. destruct (ht_size t =? 0)%nat; cbn; [rw ht_get_erase_ne //|]; rw ht_get_alter decide_False //.
  - intros a Ha. subst s'. destruct (ht_size t =? 0)%nat eqn:E; cbn in Ha; [by rw ht_get_erase_eq in Ha|].
    rw ht_get_alter decide_True // Hap in Ha. injection Ha as <-. pose proof (wf_pubs s W _ _ Hap) as Hok.
    apply pub_ok_publishers; [done| |].
    + by apply ht_size_nonzero, Nat.eqb_neq.
    + intros q st. subst t. rw ht_get_erase. case_decide; [done|]. apply (po_known _ _ Hok).
  - intros q. rw Hq Hold. naive_solver.
  - split_and!; [done|done| |].
    + intros q j. rw V. naive_solver.
    + rw Hsz. by setoid_rewrite Hq.
Qed.

Lemma sub_dropped s h x k a : wf s → hosts s !! h = Some x → ht_get k (activeSubscriptionIndex s) = Some a →
  let t := ht_erase h (as_subscribers a) in
  let s1 := set_subs (ht_alter (as_with_subscribers t) k (activeSubscriptionIndex s))
    (set_hosts (<[h := lh_with_subs (ht_erase k (activeSubscriptions x)) x]> (hosts s)) s) in
  let s' := if (ht_size t =? 0)%nat then set_subs (ht_erase k (activeSubscriptionIndex s1)) s1 else s1 in
  wf s' ∧ same_rest s s' ∧ (∀ q j, subscribes s' q j ↔ subscribes s q j ∧ ¬ (q = h ∧ j = k)) ∧
  ((ht_size t =? 0)%nat ↔ ∀ q, ¬ subscribes s' q k).
Proof.
  intros W Hx Ha t s1 s'.
  assert (∀ q, hs_in q t ↔ q ≠ h ∧ subscribes s q k) as Hold.
  { intros q. subst t. rw hs_in_erase. unfold subscribes. rw Ha. naive_solver. }
  assert ((ht_size t =? 0)%nat ↔ ∀ q, ¬ hs_in q t) as Hsz.
  { rw Is_true_true Nat.eqb_eq ht_size_empty_iff. setoid_rewrite eq_None_not_Some. done. }
  assert (∀ q, subscribes s' q k ↔ hs_in q t) as Hq.
  { intros q. unfold subscribes. subst s'. destruct (ht_size t =? 0)%nat.
    - cbn. rw ht_get_erase decide_True //. split; [by intros (? & ? & _)|]. by intros ?%Hsz.
    - cbn. rw ht_get_alter decide_True // Ha. split; [by intros (z & [= <-] & ?)|intros; by eexists]. }
  destruct (moved_sub s s' h x (ht_erase k (activeSubscriptions x)) k false) as (W' & R & V); try done.
  - subst s'. by destruct (ht_size t =? 0)%nat.
  - subst s'. by destruct (ht_size t =? 0)%nat.
  - subst s'. by destruct (ht_size t =? 0)%nat.
  - intros j. apply hs_erase_moved.
  - intros j Hj. subst s'. destruct (ht_size t =? 0)%nat; cbn; [rw ht_get_erase_ne //|]; rw ht_get_alter decide_False //.
  - intros z Hz. subst s'. destruct (ht_size t =? 0)%nat eqn:E; cbn in Hz; [by rw ht_get_erase_eq in Hz|].
    rw ht_get_alter decide_True // Ha in Hz. injection Hz as <-. destruct (wf_subs s W _ _ Ha). split; try done.
    by apply ht_size_nonzero, Nat.eqb_neq.
  - intros q. rw Hq Hold. naive_solver.
  - split_and!; [done|done| |].
    + intros q j. rw V. naive_solver.
    + rw Hsz. by setoid_rewrite Hq.
Qed.

(** The table of the publications after a publisher came. *)
Lemma pub_stored s h x k ap : wf s → hosts s !! h = Some x →
  let s' := set_hosts (<[h := lh_with_pubs (hs_insert k (activePublications x)) x]> (hosts s)) s in
  ∀ t, (∀ j, j ≠ k → ht_get j t = ht_get j (activePublicationIndex s)) → ht_get k t = Some ap →
  pub_ok k ap → (∀ q, is_Some (ht_get q (ap_publishers ap)) ↔ q = h ∨ publishes s q k) →
  wf (set_pubs t s') ∧ same_rest s (set_pubs t s') ∧
  ∀ q j, publishes (set_pubs t s') q j ↔ publishes s q j ∨ (q = h ∧ j = k).
Proof.
  intros W Hx s' t Hj Hk Hok Hq. set (s2 := set_pubs t s').
  assert (∀ q, publishes s2 q k ↔ q = h ∨ publishes s q k) as Hp.
  { intros q. rw -Hq. unfold publishes. cbn. rw Hk. naive_solver. }
  destruct (moved_pub s s2 h x (hs_insert k (activePublications x)) k true) as (W' & R & V); try done.
  - intros j. apply hs_insert_moved.
  - intros a. cbn. by rw Hk => - [= <-].
  - intros q. rw Hp. destruct (decide (q = h)); naive_solver.
  - split_and!; [done|done|]. intros q j. rw V. destruct (decide (q = h ∧ j = k)); naive_solver.
Qed.

Lemma sub_stored s h x k a : wf s → hosts s !! h = Some x →
  let s' := set_hosts (<[h := lh_with_subs (hs_insert k (activeSubscriptions x)) x]> (hosts s)) s in
  ∀ t, (∀ j, j ≠ k → ht_get j t = ht_get j (activeSubscriptionIndex s)) → ht_get k t = Some a →
  sub_ok k a → (∀ q, hs_in q (as_subscribers a) ↔ q = h ∨ subscribes s q k) →
  wf (set_subs t s') ∧ same_rest s (set_subs t s') ∧
  ∀ q j, subscribes (set_subs t s') q j ↔ subscribes s q j ∨ (q = h ∧ j = k).
Proof.
  intros W Hx s' t Hj Hk Hok Hq. set (s2 := set_subs t s').
  assert (∀ q, subscribes s2 q k ↔ q = h ∨ subscribes s q k) as Hp.
  { intros q. rw -Hq. unfold subscribes. cbn. rw Hk. naive_solver. }
  destruct (moved_sub s s2 h x (hs_insert k (activeSubscriptions x)) k true) as (W' & R & V); try done.
  - intros j. apply hs_insert_moved.
  - intros z. cbn. by rw Hk => - [= <-].
  - intros q. rw Hp. destruct (decide (q = h)); naive_solver.
  - split_and!; [done|done|]. intros q j. rw V. destruct (decide (q = h ∧ j = k)); naive_solver.
Qed.

(** A request that changes nothing. *)
Lemma request_kept s kind h k strategy (r : bool) : wf s → effect s kind h k strategy = Keep →
  (r ↔ forwarded s s kind h k strategy) → request_done s kind h k strategy r s.
Proof. intros W E F. split; try done; by rw E. Qed.

(** ** The four methods *)

Lemma wp_store_pub s h k strategy RVFID b : wf s → live s h → fid_ok RVFID → id_ok k →
  wp (storeActivePublication h k strategy RVFID b) (request_done s StartPub h k strategy) s.
Proof.
  intros W [x Hx] Hrv Hid. unfold storeActivePublication.
  destruct (proxy_strategy strategy) eqn:Hs; cbn [negb]; last first.
  { apply wp_ret, request_kept; [done|..]; unfold effect, forwarded; rw Hs //. naive_solver. }
  apply wp_bind, wp_find_pub. destruct (ht_get k (activePublicationIndex s)) as [ap|] eqn:Hap.
  - change (_ || _) with (announced_again h ap). destruct (announced_again h ap) eqn:Han.
    { apply wp_ret, request_kept; [done|..]; unfold effect, forwarded; rw Hap Hs Han //. }
    destruct (ap_strategy ap =? strategy) eqn:Hst; last first.
    { apply wp_ret, request_kept; [done|..]; unfold effect, forwarded; rw Hap Hs Han ?Hst //. naive_solver. }
    apply wp_bind, wp_upd_pub, wp_bind. eapply wp_live_host; [done|]. apply wp_ret.
    set (f := λ ap, ap_with_publishers _ ap).
    destruct (pub_stored s h x k (f ap) W Hx (ht_alter f k (activePublicationIndex s))) as (W' & R & V).
    + intros j Hj. rw ht_get_alter decide_False //.
    + rw ht_get_alter decide_True // Hap //.
    + apply pub_ok_add. by apply (wf_pubs s W).
    + intros q. rw (publishes_at s q k ap Hap). cbn. rw ht_get_find_insert.
      destruct (ht_get q (ap_publishers ap)) as [w|]; [by split; [right|]|].
      case_decide as E; [by split; [left|]|]. split; [by intros []|]. intros [->|[]]; done.
    + split; try done; unfold effect, forwarded; rw Hap Hs Han ?Hst //=. tauto.
  - apply wp_bind, wp_modify, wp_bind. eapply wp_live_host; [done|]. apply wp_ret.
    set (ap := mkAP _ _ _ _ _ _ _).
    assert (∀ q, ht_get q (ap_publishers ap) = if decide (h = q) then Some STOP_PUBLISH else None) as Hq.
    { intros q. cbn. by rw ht_get_find_insert ht_get_empty. }
    destruct (pub_stored s h x k ap W Hx (ht_set k ap (activePublicationIndex s))) as (W' & R & V).
    + intros j Hj. rw ht_get_set_ne //.
    + by rw ht_get_set_eq.
    + split; try done; [exists h; by rw Hq decide_True|by left|]. intros q st. rw Hq. case_decide; [|done]. by intros [= <-].
    + intros q. rw Hq. assert (¬ publishes s q k) as Hno by (intros (? & E & _); congruence).
      case_decide as E; [by split; [left|]|]. split; [by intros []|]. intros [->|]; done.
    + split; try done; unfold effect, forwarded; rw Hap Hs //.
Qed.

Lemma wp_remove_pub s h k strategy : wf s → live s h →
  wp (removeActivePublication h k strategy) (request_done s StopPub h k strategy) s.
Proof.
  intros W [x Hx]. unfold removeActivePublication.
  destruct (proxy_strategy strategy) eqn:Hs; cbn [negb]; last first.
  { apply wp_ret, request_kept; [done|..]; unfold effect, forwarded, effect; rw Hs //. naive_solver. }
  apply wp_bind, wp_find_pub. destruct (ht_get k (activePublicationIndex s)) as [ap|] eqn:Hap; last first.
  { apply wp_ret, request_kept; [done|..]; unfold effect, forwarded, effect; rw Hap Hs //. naive_solver. }
  destruct (ap_strategy ap =? strategy) eqn:Hst; last first.
  { apply wp_ret, request_kept; [done|..]; unfold effect, forwarded, effect; rw Hap Hs Hst //. naive_solver. }
  destruct (pub_dropped s h x k ap W Hx Hap) as (W' & R & V & F).
  assert (∀ (r : bool) s', wf s' → same_rest s s' → out s' = out s → activeSubscriptionIndex s' = activeSubscriptionIndex s →
    (∀ q j, publishes s' q j ↔ publishes s q j ∧ ¬ (q = h ∧ j = k)) → (r ↔ ∀ q, ¬ publishes s' q k) →
    request_done s StopPub h k strategy r s') as Hdone.
  { intros r s' ? ? ? Es ? ?. split; try done; unfold forwarded, effect; rw Hap Hs Hst //=; [|tauto].
    intros q j. unfold subscribes. by rw Es. }
  apply wp_bind. eapply wp_live_host; [done|]. apply wp_bind, wp_upd_pub.
  destruct (ht_size _ =? 0)%nat; [apply wp_bind, wp_modify|]; apply wp_ret; by apply Hdone.
Qed.

Lemma wp_remove_sub s h k strategy : wf s → live s h →
  wp (removeActiveSubscription h k strategy) (request_done s StopSub h k strategy) s.
Proof.
  intros W [x Hx]. unfold removeActiveSubscription.
  apply wp_bind, wp_find_sub. destruct (ht_get k (activeSubscriptionIndex s)) as [a|] eqn:Ha; last first.
  { apply wp_ret, request_kept; [done|..]; unfold effect, forwarded, effect; rw Ha //. naive_solver. }
  destruct (as_strategy a =? strategy) eqn:Hst; last first.
  { apply wp_ret, request_kept; [done|..]; unfold effect, forwarded, effect; rw Ha Hst //. naive_solver. }
  destruct (sub_dropped s h x k a W Hx Ha) as (W' & R & V & F).
  assert (∀ (r : bool) s', wf s' → same_rest s s' → out s' = out s → activePublicationIndex s' = activePublicationIndex s →
    (∀ q j, subscribes s' q j ↔ subscribes s q j ∧ ¬ (q = h ∧ j = k)) →
    (r ↔ (∀ q, ¬ subscribes s' q k) ∧ ¬ local_strategy strategy) →
    request_done s StopSub h k strategy r s') as Hdone.
  { intros r s' ? ? ? Es ? ?. split; try done; unfold forwarded, effect; rw Ha Hst //=; [|tauto].
    intros q j. unfold publishes. by rw Es. }
  apply Z.eqb_eq in Hst. subst strategy.
  apply wp_bind. eapply wp_live_host; [done|]. apply wp_bind, wp_upd_sub.
  destruct (ht_size _ =? 0)%nat; [apply wp_bind, wp_modify|]; apply wp_ret; apply Hdone; try done.
  - rw Is_true_true negb_true_iff -not_true_iff_false -Is_true_true. rw -F. cbn. tauto.
  - rw -F. cbn. tauto.
Qed.

Lemma wp_store_sub s h k strategy RVFID b : wf s → live s h → fid_ok RVFID → id_ok k → k ≠ HTTP_DEFAULT_IID →
  wp (storeActiveSubscription h k strategy RVFID b) (request_done s StartSub h k strategy) s.
Proof.
  intros W [x Hx] Hrv Hid Hne. unfold storeActiveSubscription.
  apply wp_bind, wp_find_sub. rw bool_decide_eq_false_2 //. destruct (ht_get k (activeSubscriptionIndex s)) as [a|] eqn:Ha.
  - destruct (as_strategy a =? strategy) eqn:Hst; last first.
    { apply wp_ret, request_kept; [done|..]; unfold effect, forwarded, effect; rw Ha ?Hst //.
      apply Z.eqb_neq in Hst. naive_solver. }
    apply wp_bind, wp_upd_sub, wp_bind. eapply wp_live_host; [done|]. apply wp_bind, wp_ret, wp_ret.
    set (f := λ a, as_with_subscribers _ a).
    assert (∀ q, hs_in q (as_subscribers (f a)) ↔ q = h ∨ subscribes s q k) as Hq.
    { intros q. cbn. rw hs_in_insert. by rw (subscribes_at s q k a Ha). }
    destruct (sub_stored s h x k (f a) W Hx (ht_alter f k (activeSubscriptionIndex s))) as (W' & R & V).
    + intros j Hj. rw ht_get_alter decide_False //.
    + rw ht_get_alter decide_True // Ha //.
    + destruct (wf_subs s W _ _ Ha). split; try done. exists h. apply Hq. by left.
    + done.
    + split; try done; unfold effect, forwarded; rw Ha ?Hst //=. apply Z.eqb_eq in Hst. by split.
  - apply wp_bind. unfold new_subscription. apply wp_bind, wp_modify. eapply wp_live_host; [done|].
    apply wp_bind, wp_ret, wp_ret. set (a := mkAS _ _ _ _ _).
    assert (∀ q, hs_in q (as_subscribers a) ↔ q = h) as Hq by (intros q; cbn; apply hs_in_singleton).
    destruct (sub_stored s h x k a W Hx (ht_set k a (activeSubscriptionIndex s))) as (W' & R & V).
    + intros j Hj. rw ht_get_set_ne //.
    + by rw ht_get_set_eq.
    + split; try done. exists h. by apply Hq.
    + intros q. rw Hq. assert (¬ subscribes s q k) as Hno by (intros (? & E & _); congruence). tauto.
    + split; try done; unfold effect, forwarded; rw Ha //=.
      destruct (local_strategy strategy); naive_solver.
Qed.

(** The request as a whole; [full_ID] is the identifier. *)
Lemma wp_local_request s type h ID prefixID strategy RVFID :
  wf s → live s h → fid_ok RVFID → id_ok (full_ID ID prefixID) →
  (request_kind type = StartSub → full_ID ID prefixID ≠ HTTP_DEFAULT_IID) →
  wp (handleLocalRequest type h ID prefixID strategy RVFID)
    (request_done s (request_kind type) h (full_ID ID prefixID) strategy) s.
Proof.
  intros W Hh Hrv Hid Hhttp. unfold handleLocalRequest, request_kind in *.
  destruct (type =? PUBLISH_SCOPE); [by apply wp_store_pub|].
  destruct (type =? PUBLISH_INFO); [by apply wp_store_pub|]. cbn [orb] in *.
  destruct (_ || _); [by apply wp_remove_pub|].
  destruct (type =? SUBSCRIBE_SCOPE); [apply wp_store_sub; auto|].
  destruct (type =? SUBSCRIBE_INFO); [apply wp_store_sub; auto|]. cbn [orb] in *.
  destruct (type =? PUBLISH_DATA_iSUB) eqn:E.
  - apply Z.eqb_eq in E. subst type. cbn. apply wp_store_sub; auto.
  - destruct (_ || _); [by apply wp_remove_sub|]. apply wp_ret. by apply request_kept.
Qed.
End requests.
