(* ===== verification/ProxyMessages.v ===== *)
(** * The messages of the LocalProxy

    What the element pushes, in closed form: the notifications and the data for
    a local host, the requests for the rendezvous element and the data for the
    network, each with the layout of its bytes. *)

From S2P Require Import Prelude Enums HashTable BitVector Packet GlobalConf RvMessages ProxyStore LocalProxy ProxyInvariant.

Section messages.
Context `{CT : ClickTables}.
Implicit Types (s : proxy) (h : ptr) (k : bytes) (g : gconf).

(** ** The layouts *)

Definition frags k : Z := zlen k / ID_LEN.

(** The port and the annotation of a host. *)
Definition host_event (x : LocalHost) (p : pkt) (d : bytes) : event :=
  match lh_type x with
  | CLICK_ELEMENT => Push (lh_id x) None p (Some <$> d)
  | LOCAL_PROCESS => Push 0 (Some (lh_id x)) p (Some <$> d)
  end.

(** A notification and data, for a local host. *)
Definition notification_bytes (type : Z) k : bytes := type :: frags k :: k.
Definition data_bytes (APItype : Z) k (d : bytes) : bytes := APItype :: frags k :: k ++ d.

(** A request, for the rendezvous element. *)
Definition request_bytes (type : Z) k (prefix : bytes) (strategy : Z) : bytes :=
  [type] ++ id_field k ++ id_field prefix ++ [strategy].

(** [body] as a publication under the scope of this node: to the LocalRV of
    this node, or over the network to the one of the domain. *)
Definition RV_event g (RVFID : BABitvector) (p : pkt) (body : bytes) : event :=
  if to_local_RV RVFID g then Push 1 None p (Some <$> [PUBLISHED_DATA; 2] ++ nodeRVScope g ++ body)
  else Push 2 None p (Some <$> bytes_of_FID RVFID ++ [1; 2] ++ nodeRVScope g ++ body).

Definition iSUB_event g (nodes : list bytes) : event :=
  Push 1 None Made (Some <$> [PUBLISHED_DATA_iSUB; 2] ++ nodeRVScope g ++ counted nodes).

(** Data, for the network. *)
Definition network_bytes g (IDs : list bytes) (type : option Z) (FID : BABitvector) (d : bytes) : bytes :=
  bytes_of_FID FID ++ counted (id_field <$> IDs) ++
  match type with
  | None => []
  | Some type => type :: (if type =? PUBLISH_DATA_iSUB then nodeID g else [])
  end ++ d.

(** ** What is sent *)

(** [m] sends [e] and changes nothing else. *)
Definition sends {A} (m : X A) (a : A) (e : list event) s : Prop := m s = Ok (a, set_out (out s ++ e) s).

Lemma set_out_id s : set_out (out s ++ []) s = s.
Proof. destruct s. unfold set_out. cbn. by rw app_nil_r. Qed.
Lemma set_out_out s o1 o2 : set_out (out (set_out o1 s) ++ o2) (set_out o1 s) = set_out (o1 ++ o2) s.
Proof. done. Qed.

Lemma sends_wp {A} (m : X A) a e s (Q : A → proxy → Prop) :
  sends m a e s → Q a (set_out (out s ++ e) s) → wp m Q s.
Proof. intros E H. unfold wp. by rw E. Qed.

Lemma sends_bind {A B} (m : X A) a (k : A → X B) b e1 e2 s :
  sends m a e1 s → sends (k a) b e2 (set_out (out s ++ e1) s) → sends (m ≫= k) b (e1 ++ e2) s.
Proof.
  unfold sends. intros E1 E2. unfold mbind, M_bind. rw E1 E2 /set_out /=. by rw app_assoc.
Qed.

Lemma sends_host s h x p d : hosts s !! h = Some x →
  sends (push_to_host h p (Some <$> d)) () [host_event x p d] s.
Proof.
  intros E. unfold sends, push_to_host, host_event, get_host, mbind, M_bind. rw E. by destruct (lh_type x).
Qed.

Lemma id_ok_frags k : id_ok k → frags k = Z.of_nat (length k / PURSUIT_ID_LEN) ∧ 1 <= frags k <= 255 ∧
  (Z.to_nat (frags k) * PURSUIT_ID_LEN)%nat = length k.
Proof. intros (n & Hn & E). unfold frags, zlen, ID_LEN. rw E /PURSUIT_ID_LEN. lia. Qed.

Lemma id_ok_u8 k : id_ok k → u8 (zlen k / Z.of_nat PURSUIT_ID_LEN) = frags k.
Proof. intros Hk%id_ok_frags. unfold u8. change (zlen k / _) with (frags k). rw Z.mod_small //. lia. Qed.

Lemma sends_notification s h x type k : hosts s !! h = Some x → id_ok k →
  sends (sendNotificationLocally type h k) () [host_event x Made (notification_bytes type k)] s.
Proof.
  intros Hx Hk. unfold sends, sendNotificationLocally. rw id_ok_u8 //.
  pose proof (id_ok_frags k Hk) as (_ & _ & Hl). rw Hl take_ge //.
  unfold mbind, M_bind, check. rw build_exact; [|rw !zlen_mjoin_cons zlen_mjoin_nil !zlen_cons !zlen_nil; lia].
  rw !mjoin_cons /= app_nil_r. by apply (sends_host s h x Made (notification_bytes type k)).
Qed.

Lemma sends_data s h x k p d APItype : hosts s !! h = Some x → id_ok k →
  sends (pushDataToLocalSubscriber h k p d APItype) () [host_event x p (data_bytes APItype k d)] s.
Proof. intros Hx Hk. unfold pushDataToLocalSubscriber. rw id_ok_u8 //. by apply sends_host. Qed.

(** ** Requests *)

Lemma gc_ok_scope g : gc_ok g → zlen (nodeRVScope g) = 16.
Proof. intros [Hid _ _]. unfold nodeRVScope. rw zlen_app. unfold zlen. rw Hid. done. Qed.

Lemma fid_ok_read f : fid_ok f → not_null f → FID_read f = Ok (bytes_of_FID f).
Proof. intros [->|[]]; [done|]. intros _. by apply FID_read_ok. Qed.

Lemma remote_fid f g : fid_ok f → to_local_RV f g = false → FID_read f = Ok (bytes_of_FID f).
Proof. intros Hf [E _]%orb_false_iff. apply fid_ok_read; [done|]. unfold not_null. by rw E. Qed.

Lemma RV_api_bytes type g : gc_ok g → mjoin (RV_api type g) = [type; 2] ++ nodeRVScope g.
Proof. intros Hg. unfold RV_api. rw (gc_ok_scope g Hg) !mjoin_cons /= app_nil_r //. Qed.

Lemma sends_request s p d RVFID : gc_ok (gc s) → fid_ok RVFID →
  sends (publishReqToRV p d RVFID) () [RV_event (gc s) RVFID p d] s.
Proof.
  intros Hg Hf. unfold sends, publishReqToRV, RV_event, mbind, M_bind, gets, check, emit, modify.
  pose proof (gc_ok_scope _ Hg) as Hsc. destruct (to_local_RV RVFID (gc s)) eqn:Hloc.
  - rw build_exact; [|rw RV_api_bytes // !zlen_app !zlen_cons zlen_nil; lia]. rw RV_api_bytes //.
    by rw -fmap_app -app_assoc.
  - rw build_exact; [|rw !zlen_mjoin_cons zlen_mjoin_nil Hsc; done].
    rw (remote_fid _ _ Hf Hloc) !mjoin_cons /= app_nil_r. by rw !fmap_app !fmap_cons !fmap_app.
Qed.

Lemma mjoin_request type n ID prefix strategy : frags ID = n →
  mjoin (request_chunks type n ID (frags prefix) prefix strategy) = request_bytes type ID prefix strategy.
Proof. intros <-. unfold request_bytes, request_chunks, id_field. by rw !mjoin_cons. Qed.

(** The length of the identifier is given as 1 by the callers. *)
Lemma sends_new_request s type ID prefix RVFID strategy : gc_ok (gc s) → fid_ok RVFID →
  length ID = PURSUIT_ID_LEN → (length prefix `mod` PURSUIT_ID_LEN = 0)%nat →
  sends (createAndSendPacketToRV type 1 ID (frags prefix) prefix RVFID strategy) ()
    [RV_event (gc s) RVFID Made (request_bytes type ID prefix strategy)] s.
Proof.
  intros Hg Hf HID Hp. unfold sends, createAndSendPacketToRV, RV_event, mbind, M_bind, gets, check, emit, modify.
  assert (frags ID = 1) as HfID by (unfold frags, zlen; by rw HID).
  assert (zlen ID = 8) as HlID by (unfold zlen; by rw HID).
  assert (frags prefix * 8 = zlen prefix) as Hfp.
  { unfold frags, zlen, ID_LEN, PURSUIT_ID_LEN in *. lia. }
  assert (zlen (request_bytes type ID prefix strategy) = 12 + zlen prefix) as Hrq.
  { unfold request_bytes, id_field. rw !zlen_app !zlen_cons HlID zlen_nil. lia. }
  pose proof (gc_ok_scope _ Hg) as Hsc. change (Z.of_nat PURSUIT_ID_LEN) with 8.
  destruct (to_local_RV RVFID (gc s)) eqn:Hloc.
  - rw build_exact.
    + rw mjoin_app mjoin_request // RV_api_bytes //.
    + rw mjoin_app zlen_app mjoin_request // Hrq RV_api_bytes // zlen_app Hsc !zlen_cons zlen_nil. lia.
  - rw (remote_fid _ _ Hf Hloc) c_str_read_all; [|unfold zlen in Hsc; unfold PURSUIT_ID_LEN; lia].
    assert (length (bytes_of_FID RVFID) = FID_LEN) as Hfl by (eapply FID_read_length, remote_fid; done).
    rw build_exact.
    + rw mjoin_app mjoin_request // !mjoin_cons /= app_nil_r. by rw -!app_assoc.
    + rw mjoin_app zlen_app mjoin_request // Hrq !zlen_mjoin_cons zlen_mjoin_nil Hsc !zlen_cons zlen_nil.
      assert (zlen (bytes_of_FID RVFID) = Z.of_nat FID_LEN) as -> by (unfold zlen; by rw Hfl). lia.
Qed.

Lemma node_chunks_all l : Forall (λ x, length x = NODEID_LEN) l → node_chunks l = Ok l.
Proof. induction 1 as [|x l Hx _ IH]; [done|]. cbn. by rw c_str_read_all // IH. Qed.

Lemma sends_iSUB s nodeIDs : gc_ok (gc s) → node_ids (ht_keys nodeIDs) →
  sends (publishiReqToRV nodeIDs) () [iSUB_event (gc s) (ht_keys nodeIDs)] s.
Proof.
  intros Hg [Hall Hn]. unfold sends, publishiReqToRV, iSUB_event, mbind, M_bind, gets, check, emit, modify.
  assert (Z.of_nat (ht_size nodeIDs) = zlen (ht_keys nodeIDs)) as ->.
  { unfold zlen, ht_size, ht_keys. by rw length_fmap. }
  assert (u8 (zlen (ht_keys nodeIDs)) = zlen (ht_keys nodeIDs)) as ->.
  { unfold u8. rw Z.mod_small //. pose proof (zlen_nonneg (ht_keys nodeIDs)). lia. }
  rw node_chunks_all // build_exact.
  - by rw mjoin_app RV_api_bytes // mjoin_cons -app_assoc.
  - rw mjoin_app RV_api_bytes // zlen_app zlen_app (gc_ok_scope _ Hg) zlen_mjoin_cons (zlen_mjoin_fixed NODEID_LEN) // !zlen_cons !zlen_nil. lia.
Qed.

(** ** Data for the network *)

Definition remote_events g IDs (type : option Z) FID (p : pkt) (d : bytes) : list event :=
  let q := Some <$> network_bytes g IDs type FID d in
  match type with
  | None => [Push 2 None p q]
  | Some type => (if type =? PUBLISH_DATA then [Kill p] else []) ++ [Push 2 None Made q]
  end.

Lemma ids_header_counted IDs : path_ids IDs → mjoin (ids_header IDs) = counted (id_field <$> IDs).
Proof.
  intros H. pose proof H as [_ Hn]. unfold ids_header, counted. assert (u8 (zlen IDs) = zlen IDs) as ->.
  { unfold u8. rw Z.mod_small //. pose proof (zlen_nonneg IDs). lia. }
  rw mjoin_cons take_ge ?put_ids_fields // ?zlen_fmap //. unfold zlen. lia.
Qed.

Lemma zlen_counted_ids IDs : zlen (counted (id_field <$> IDs)) = 1 + zlen IDs + zlen (mjoin IDs).
Proof. unfold counted. rw zlen_cons (zlen_id_fields (λ id, zlen id / ID_LEN)). lia. Qed.

Lemma sends_remote s IDs type FID p d : gc_ok (gc s) → path_ids IDs → FID_read FID = Ok (bytes_of_FID FID) →
  match type with Some type => type = PUBLISH_DATA ∨ type = PUBLISH_DATA_iSUB | None => True end →
  sends (pushDataToRemoteSubscribers IDs type FID p d) () (remote_events (gc s) IDs type FID p d) s.
Proof.
  intros Hg HIDs Hr Hty.
  unfold sends, pushDataToRemoteSubscribers, remote_events, network_bytes, mbind, M_bind, gets, check, emit, modify.
  assert (zlen (bytes_of_FID FID) = Z.of_nat FID_LEN) as Hfl.
  { unfold zlen. by rw (FID_read_length _ _ Hr). }
  assert (u8 (zlen IDs) = zlen IDs) as ->.
  { destruct HIDs as [_ Hn]. unfold u8. rw Z.mod_small //. pose proof (zlen_nonneg IDs). lia. }
  destruct type as [type|].
  - destruct Hty as [->| ->]; cbn [Z.eqb PUBLISH_DATA PUBLISH_DATA_iSUB Pos.eqb].
    + rw Hr build_exact.
      * rw mjoin_cons mjoin_app ids_header_counted // !mjoin_cons (app_nil_r d) set_out_out. by rw -app_assoc.
      * rw mjoin_cons zlen_app mjoin_app zlen_app ids_header_counted // zlen_counted_ids !zlen_mjoin_cons zlen_mjoin_nil Hfl zlen_cons zlen_nil. lia.
    + pose proof (go_id _ Hg) as Hid. rw Hr c_str_read_all // build_exact.
      * by rw mjoin_cons mjoin_app ids_header_counted // !mjoin_cons (app_nil_r d).
      * rw mjoin_cons zlen_app mjoin_app zlen_app ids_header_counted // zlen_counted_ids !zlen_mjoin_cons zlen_mjoin_nil Hfl zlen_cons zlen_nil.
        assert (zlen (nodeID (gc s)) = Z.of_nat NODEID_LEN) as -> by (unfold zlen; by rw Hid). lia.
  - rw Hr build_exact.
    + rw mjoin_cons ids_header_counted //. by rw -fmap_app -app_assoc.
    + rw mjoin_cons ids_header_counted // !zlen_app zlen_counted_ids Hfl. lia.
Qed.
End messages.
