(* ===== verification/ProxyDisconnect.v ===== *)
(** * Disconnection of a local host

    The four loops of [disconnect], each with the same invariant: the
    identifiers that were passed are no longer published or subscribed to by
    the host, everything else is as before, and for each identifier that
    nobody else has a removal request was sent. *)

From S2P Require Import Prelude Enums HashTable BitVector Packet GlobalConf RvMessages ProxyStore LocalProxy ProxyInvariant ProxyRequests ProxyMessages.

Section disconnect.
Context `{CT : ClickTables}.
Implicit Types (s : proxy) (h : ptr) (k : bytes).

(** ** The messages *)

Definition removal_bytes (type : Z) k (strategy : Z) : bytes := request_bytes type (last_of k) (prefix_of k) strategy.

Definition pub_removal s (ap : ActivePublication) : event :=
  RV_event (gc s) (ap_RVFID ap) Made
    (removal_bytes (if ap_isScope ap then UNPUBLISH_SCOPE else UNPUBLISH_INFO) (ap_fullID ap) (ap_strategy ap)).
Definition sub_removal s (a : ActiveSubscription) : event :=
  RV_event (gc s) (as_RVFID a) Made
    (removal_bytes (if as_isScope a then UNSUBSCRIBE_SCOPE else UNSUBSCRIBE_INFO) (as_fullID a) (as_strategy a)).

(** [h] alone publishes or subscribes. *)
Definition sole_publisher s h k : Prop := ∀ q, publishes s q k ↔ q = h.
Definition sole_subscriber s h k : Prop := ∀ q, subscribes s q k ↔ q = h.

(** The removal requests that the disconnection of [h] calls for. *)
Definition due_pub s h k (e : event) : Prop :=
  ∃ ap, ht_get k (activePublicationIndex s) = Some ap ∧ sole_publisher s h k ∧ e = pub_removal s ap.
Definition due_sub s h k (e : event) : Prop :=
  ∃ a, ht_get k (activeSubscriptionIndex s) = Some a ∧ sole_subscriber s h k ∧
    local_strategy (as_strategy a) = false ∧ e = sub_removal s a.

(** Another publisher takes over. *)
Definition takes_over s h (e : event) : Prop :=
  ∃ k q x, publishes s h k ∧ publishes s q k ∧ q ≠ h ∧ hosts s !! q = Some x ∧
    e = host_event x Made (notification_bytes START_PUBLISH k).

(** The parts of an entry that never change. *)
Definition same_pub (ap ap' : ActivePublication) : Prop :=
  ap_fullID ap = ap_fullID ap' ∧ ap_strategy ap = ap_strategy ap' ∧ ap_RVFID ap = ap_RVFID ap' ∧ ap_isScope ap = ap_isScope ap'.
Definition same_sub (a a' : ActiveSubscription) : Prop :=
  as_fullID a = as_fullID a' ∧ as_strategy a = as_strategy a' ∧ as_RVFID a = as_RVFID a' ∧ as_isScope a = as_isScope a'.

(** ** Progress *)

Record progress s h (DP DS : bytes → Prop) s1 : Prop := {
  pg_wf : wf s1;
  pg_rest : same_rest s s1;
  pg_pub : ∀ q j, publishes s1 q j ↔ publishes s q j ∧ ¬ (q = h ∧ DP j);
  pg_sub : ∀ q j, subscribes s1 q j ↔ subscribes s q j ∧ ¬ (q = h ∧ DS j);
  pg_same_pub : ∀ j ap, ht_get j (activePublicationIndex s1) = Some ap →
    ∃ ap', ht_get j (activePublicationIndex s) = Some ap' ∧ same_pub ap ap';
  pg_same_sub : ∀ j a, ht_get j (activeSubscriptionIndex s1) = Some a →
    ∃ a', ht_get j (activeSubscriptionIndex s) = Some a' ∧ same_sub a a';
  pg_dec_pub : ∀ k, publishes s h k → DP k ∨ ¬ DP k;
  pg_dec_sub : ∀ k, subscribes s h k → DS k ∨ ¬ DS k;
  pg_out : ∃ es, out s1 = out s ++ es ∧
    (∀ e, e ∈ es → (∃ k, due_pub s h k e) ∨ (∃ k, due_sub s h k e) ∨ takes_over s h e) ∧
    (∀ k e, DP k → due_pub s h k e → e ∈ es) ∧ (∀ k e, DS k → due_sub s h k e → e ∈ es);
}.

Lemma progress_start s h : wf s → progress s h (λ _, False) (λ _, False) s.
Proof.
  intros W. split; try done; try (intros; tauto).
  - intros j ap ?. by exists ap.
  - intros j a ?. by exists a.
  - exists []. rw app_nil_r. split_and!; [done|set_solver|done|done].
Qed.

Lemma progress_iff s h (DP DP' DS DS' : bytes → Prop) s1 : (∀ k, publishes s h k → DP k ↔ DP' k) → (∀ k, subscribes s h k → DS k ↔ DS' k) →
  progress s h DP DS s1 → progress s h DP' DS' s1.
Proof.
  intros Hp Hs [W R P S SP SS XP XS (es & E & E1 & E2 & E3)]. split; try done.
  - intros q j. rw P. split; (intros [H Hn]; split; [done|]); intros [-> HD]; apply Hn; (split; [done|]); by apply Hp.
  - intros q j. rw S. split; (intros [H Hn]; split; [done|]); intros [-> HD]; apply Hn; (split; [done|]); by apply Hs.
  - intros k Hk. rw -Hp //. auto.
  - intros k Hk. rw -Hs //. auto.
  - exists es. split_and!; [done|done| |].
    + intros k e HD Hdue. eapply E2, Hdue. apply Hp; [|done]. destruct Hdue as (ap & _ & Hso & _). by apply Hso.
    + intros k e HD Hdue. eapply E3, Hdue. apply Hs; [|done]. destruct Hdue as (ap & _ & Hso & _). by apply Hso.
Qed.

(** More identifiers. *)
Lemma progress_pub s h DP DS s1 s2 (NP : bytes → Prop) es : progress s h DP DS s1 → wf s2 → same_rest s1 s2 →
  (∀ q i, publishes s2 q i ↔ publishes s1 q i ∧ ¬ (q = h ∧ NP i)) →
  activeSubscriptionIndex s2 = activeSubscriptionIndex s1 →
  (∀ i ap, ht_get i (activePublicationIndex s2) = Some ap → ∃ ap', ht_get i (activePublicationIndex s1) = Some ap' ∧ same_pub ap ap') →
  out s2 = out s1 ++ es →
  (∀ e, e ∈ es → (∃ k, due_pub s h k e) ∨ (∃ k, due_sub s h k e) ∨ takes_over s h e) →
  (∀ k e, NP k → due_pub s h k e → e ∈ es) → (∀ k, NP k ∨ ¬ NP k) → progress s h (λ i, DP i ∨ NP i) DS s2.
Proof.
  intros [W R P S SP SS XP XS (es0 & E & E1 & E2 & E3)] W2 R2 P2 Es SP2 Eo He Hd Hdec. split; try done.
  - by eapply same_rest_trans.
  - intros q i. rw P2 P. tauto.
  - intros q i. unfold subscribes. rw Es. apply S.
  - intros i ap (ap1 & (ap2 & ? & Ha2)%SP & Ha1)%SP2. exists ap2. split; [done|].
    destruct Ha1 as (? & ? & ? & ?), Ha2 as (? & ? & ? & ?). split_and!; congruence.
  - intros i a. rw Es. apply SS.
  - intros k Hk. specialize (XP k Hk). specialize (Hdec k). tauto.
  - exists (es0 ++ es). split_and!.
    + by rw Eo E app_assoc.
    + intros e. rw elem_of_app. intros [?|?]; auto.
    + intros k e [HD|HD] Hdue; rw elem_of_app; eauto.
    + intros k e HD Hdue. rw elem_of_app. eauto.
Qed.

Lemma progress_sub s h DP DS s1 s2 (NS : bytes → Prop) es : progress s h DP DS s1 → wf s2 → same_rest s1 s2 →
  (∀ q i, subscribes s2 q i ↔ subscribes s1 q i ∧ ¬ (q = h ∧ NS i)) →
  activePublicationIndex s2 = activePublicationIndex s1 →
  (∀ i a, ht_get i (activeSubscriptionIndex s2) = Some a → ∃ a', ht_get i (activeSubscriptionIndex s1) = Some a' ∧ same_sub a a') →
  out s2 = out s1 ++ es →
  (∀ e, e ∈ es → (∃ k, due_pub s h k e) ∨ (∃ k, due_sub s h k e) ∨ takes_over s h e) →
  (∀ k e, NS k → due_sub s h k e → e ∈ es) → (∀ k, NS k ∨ ¬ NS k) → progress s h DP (λ i, DS i ∨ NS i) s2.
Proof.
  intros [W R P S SP SS XP XS (es0 & E & E1 & E2 & E3)] W2 R2 S2 Ep SS2 Eo He Hd Hdec. split; try done.
  - by eapply same_rest_trans.
  - intros q i. unfold publishes. rw Ep. apply P.
  - intros q i. rw S2 S. tauto.
  - intros i ap. rw Ep. apply SP.
  - intros i a (a1 & (a2 & ? & Ha2)%SS & Ha1)%SS2. exists a2. split; [done|].
    destruct Ha1 as (? & ? & ? & ?), Ha2 as (? & ? & ? & ?). split_and!; congruence.
  - intros k Hk. specialize (XS k Hk). specialize (Hdec k). tauto.
  - exists (es0 ++ es). split_and!.
    + by rw Eo E app_assoc.
    + intros e. rw elem_of_app. intros [?|?]; auto.
    + intros k e HD Hdue. rw elem_of_app. eauto.
    + intros k e [HD|HD] Hdue; rw elem_of_app; eauto.
Qed.

(** Identifiers split into their last fragment and the rest. *)
Lemma id_ok_split k : id_ok k →
  length (last_of k) = PURSUIT_ID_LEN ∧ (length (prefix_of k) `mod` PURSUIT_ID_LEN = 0)%nat ∧
  u8 ((zlen k - Z.of_nat PURSUIT_ID_LEN) / Z.of_nat PURSUIT_ID_LEN) = frags (prefix_of k) ∧ prefix_of k ++ last_of k = k.
Proof.
  intros (n & Hn & E). unfold last_of, prefix_of, frags, zlen, u8, ID_LEN.
  rw length_drop length_take E take_drop. unfold PURSUIT_ID_LEN. split_and!; lia || done.
Qed.

Lemma sends_removal s type k RVFID strategy : gc_ok (gc s) → fid_ok RVFID → id_ok k →
  sends (send_removal type k RVFID strategy) () [RV_event (gc s) RVFID Made (removal_bytes type k strategy)] s.
Proof.
  intros Hg Hf Hk. unfold send_removal. pose proof (id_ok_split k Hk) as (Hl & Hp & -> & _).
  by apply sends_new_request.
Qed.

Lemma progress_kept s h DP DS s1 s2 es : progress s h DP DS s1 → wf s2 → same_rest s1 s2 →
  (∀ q i, publishes s2 q i ↔ publishes s1 q i) → activeSubscriptionIndex s2 = activeSubscriptionIndex s1 →
  (∀ i ap, ht_get i (activePublicationIndex s2) = Some ap → ∃ ap', ht_get i (activePublicationIndex s1) = Some ap' ∧ same_pub ap ap') →
  out s2 = out s1 ++ es → (∀ e, e ∈ es → takes_over s h e) → progress s h DP DS s2.
Proof.
  intros Hp W2 R2 P2 Es SP2 Eo He. apply (progress_iff s h (λ i, DP i ∨ False) _ DS _); [tauto|done|].
  eapply (progress_pub s h DP DS s1 s2 (λ _, False)); try done; [intros; rw P2; tauto|auto|auto].
Qed.

(** A change of the state of the publishers, in place. *)
Lemma wf_alter_pub s k f : wf s →
  (∀ ap, ht_get k (activePublicationIndex s) = Some ap → pub_ok k (f ap) ∧ same_pub (f ap) ap ∧
    ∀ q, is_Some (ht_get q (ap_publishers (f ap))) ↔ is_Some (ht_get q (ap_publishers ap))) →
  let s' := set_pubs (ht_alter f k (activePublicationIndex s)) s in
  wf s' ∧ (∀ q j, publishes s' q j ↔ publishes s q j) ∧
  ∀ j ap, ht_get j (activePublicationIndex s') = Some ap → ∃ ap', ht_get j (activePublicationIndex s) = Some ap' ∧ same_pub ap ap'.
Proof.
  intros W Hf s'.
  assert (∀ q j, publishes s' q j ↔ publishes s q j) as P.
  { intros q j. destruct (ht_get k (activePublicationIndex s)) as [ap|] eqn:E.
    - rw (publishes_alter s s' k f ap q j eq_refl E). destruct (Hf ap eq_refl) as (_ & _ & ->).
      destruct (decide (j = k)) as [->|]; [rw (publishes_at s q k ap E)|]; tauto.
    - unfold publishes. subst s'. cbn. rw ht_get_alter. case_decide as Hj; [subst j|done]. by rw E. }
  split_and!; [|done|].
  - apply wf_upd_pub; [done|]. intros ap (? & _ & ?)%Hf. by split.
  - intros j ap. subst s'. cbn. rw ht_get_alter. case_decide as Hj; [subst j|by exists ap].
    destruct (ht_get k (activePublicationIndex s)) as [a|]; [|done]. intros [= <-]. exists a. by split; [|apply Hf].
Qed.

(** ** Publications *)

Lemma eq_or_ne j k : k = j ∨ k ≠ j.
Proof. destruct (decide (k = j)); auto. Qed.

(** The host leaves a publication: what follows when nobody is left, and when
    somebody is. *)
Lemma pub_leaves s h DP DS s1 j x ap : progress s h DP DS s1 → hosts s1 !! h = Some x →
  ht_get j (activePublicationIndex s1) = Some ap → publishes s1 h j →
  let t := ht_erase h (ap_publishers ap) in
  let s2 := set_pubs (ht_alter (ap_with_publishers t) j (activePublicationIndex s1))
    (set_hosts (<[h := lh_with_pubs (ht_erase j (activePublications x)) x]> (hosts s1)) s1) in
  if (ht_size t =? 0)%nat then
    wp (modify (λ s, set_pubs (ht_erase (ap_fullID ap) (activePublicationIndex s)) s);;
        send_removal (if ap_isScope ap then UNPUBLISH_SCOPE else UNPUBLISH_INFO) (ap_fullID ap) (ap_RVFID ap) (ap_strategy ap))
      (λ _, progress s h (λ i, DP i ∨ i = j) DS) s2
  else progress s h (λ i, DP i ∨ i = j) DS s2.
Proof.
  intros Hpg Hx Hap Hpub t s2. pose proof (pg_wf _ _ _ _ _ Hpg) as W.
  pose proof (wf_pubs s1 W _ _ Hap) as Hok. pose proof (po_id _ _ Hok) as Hid.
  destruct (pub_dropped s1 h x j ap W Hx Hap) as (W2 & R2 & P2 & F2). fold t in W2, R2, P2, F2.
  change (set_pubs (ht_alter _ _ _) _) with s2 in W2, R2, P2, F2.
  destruct (pg_same_pub _ _ _ _ _ Hpg _ _ Hap) as (ap0 & Hap0 & Hs).
  assert (∀ q, q ≠ h → publishes s q j ↔ publishes s1 q j) as Hq.
  { intros q Hne. rw (pg_pub _ _ _ _ _ Hpg). tauto. }
  assert (publishes s h j) as Hpub0 by (by apply (pg_pub _ _ _ _ _ Hpg) in Hpub as [? _]).
  destruct (ht_size t =? 0)%nat.
  - rw Hid. apply wp_bind, wp_modify. eapply sends_wp.
    { apply sends_removal; [apply W2|apply Hok|apply Hok]. }
    set (s3 := set_pubs _ s2) in *. set (es := [_]).
    eapply (progress_pub s h DP DS s1 _ (λ i, i = j) es Hpg); try done; try apply eq_or_ne.
    + by apply wf_out.
    + by apply same_rest_out.
    + intros i a. subst s3. cbn. rw ht_get_erase. case_decide; [done|]. rw ht_get_alter decide_False //. by exists a.
    + intros e He%list_elem_of_singleton. subst e. left. exists j, ap0. split_and!; [done| |].
      * intros q. split; [|by intros ->]. intros H. destruct (decide (q = h)); [done|]. exfalso.
        apply (proj1 F2 I q), P2. split; [by apply Hq|]. by intros [].
      * destruct Hs as (Hs1 & Hs2 & Hs3 & Hs4). unfold pub_removal. rw -Hs1 -Hs2 -Hs3 -Hs4 Hid.
        by rw -(nr_gc _ _ (sr_near _ _ (pg_rest _ _ _ _ _ Hpg))).
    + intros k e -> (ap1 & Hap1 & _ & ->). rw Hap0 in Hap1. injection Hap1 as <-.
      apply list_elem_of_singleton. destruct Hs as (Hs1 & Hs2 & Hs3 & Hs4). unfold pub_removal. rw -Hs1 -Hs2 -Hs3 -Hs4 Hid.
      by rw -(nr_gc _ _ (sr_near _ _ (pg_rest _ _ _ _ _ Hpg))).
  - eapply (progress_pub s h DP DS s1 s2 (λ i, i = j) [] Hpg); try done; try apply eq_or_ne.
    + intros i a. subst s2. cbn. rw ht_get_alter. case_decide as Hi; [subst i|by exists a]. rw Hap. intros [= <-]. by exists ap.
    + by rw app_nil_r.
    + set_solver.
    + intros k e -> (ap1 & _ & Hsole & _). exfalso. apply F2. intros q [H Hn]%P2.
      apply Hn. split; [|done]. apply Hsole. by apply (pg_pub _ _ _ _ _ Hpg) in H as [? _].
Qed.

Definition pub_kind s (scope : bool) k : Prop := ∃ ap, ht_get k (activePublicationIndex s) = Some ap ∧ ap_isScope ap = scope.
Definition sub_kind s (scope : bool) k : Prop := ∃ a, ht_get k (activeSubscriptionIndex s) = Some a ∧ as_isScope a = scope.

(** What a publisher of [j] has at hand. *)
Lemma progress_pub_at s h DP DS s1 j : progress s h DP DS s1 → publishes s1 h j →
  ∃ x ap, hosts s1 !! h = Some x ∧ ht_get j (activePublicationIndex s1) = Some ap ∧ pub_ok j ap ∧
    ∀ b, pub_kind s b j ↔ ap_isScope ap = b.
Proof.
  intros Hpg Hpub. pose proof (pg_wf _ _ _ _ _ Hpg) as W. destruct (publishes_live _ _ _ W Hpub) as [x Hx].
  pose proof Hpub as (ap & Hap & _). exists x, ap. split_and!; [done|done|by apply (wf_pubs _ W)|].
  destruct (pg_same_pub _ _ _ _ _ Hpg _ _ Hap) as (ap0 & Hap0 & _ & _ & _ & Hs). intros b. unfold pub_kind. rw Hap0 Hs.
  split; [by intros (? & [= <-] & ?)|intros; by eexists].
Qed.

Lemma wp_drop_publisher h j ap x (Q : PH Z → proxy → Prop) s1 : hosts s1 !! h = Some x →
  let t := ht_erase h (ap_publishers ap) in
  Q t (set_pubs (ht_alter (ap_with_publishers t) j (activePublicationIndex s1))
    (set_hosts (<[h := lh_with_pubs (ht_erase j (activePublications x)) x]> (hosts s1)) s1)) →
  wp (drop_publisher h j ap) Q s1.
Proof. intros Hx t H. unfold drop_publisher. apply wp_bind. eapply wp_live_host; [done|]. apply wp_bind, wp_upd_pub, wp_ret, H. Qed.

Lemma ht_first_some {V} (t : PH V) : ht_size t ≠ 0%nat → ∃ q, ht_first t = Some q ∧ is_Some (ht_get q t).
Proof. intros [q Hq]%ht_size_nonzero%ht_first_nonempty. exists q. split; [done|]. by apply ht_first_Some. Qed.

Lemma wp_delete_item_pub s h DP DS s1 j : progress s h DP DS s1 → publishes s1 h j →
  wp (delete_item_publication h j) (λ _, progress s h (λ i, DP i ∨ (i = j ∧ pub_kind s false j)) DS) s1.
Proof.
  intros Hpg Hpub. destruct (progress_pub_at _ _ _ _ _ _ Hpg Hpub) as (x & ap & Hx & Hap & Hok & Hkind).
  unfold delete_item_publication. apply wp_bind, wp_find_pub, wp_bind. eapply wp_lift_opt; [done|].
  destruct (ap_isScope ap) eqn:Hsc.
  { apply wp_ret. eapply progress_iff, Hpg; [|done]. intros k _. rw Hkind. naive_solver. }
  apply (wp_mono _ (λ _, progress s h (λ i, DP i ∨ i = j) DS)); last first.
  { intros [] s' H. eapply progress_iff, H; [|done]. intros k _. rw Hkind. naive_solver. }
  apply wp_bind. eapply wp_drop_publisher; [done|]. pose proof (pub_leaves _ _ _ _ _ _ _ _ Hpg Hx Hap Hpub) as Hl.
  cbv zeta in Hl |- *. destruct (ht_size _ =? 0)%nat eqn:Hsz; [by rw Hsc in Hl|].
  destruct (negb _) eqn:Hnot; [|by apply wp_ret].
  set (t := ht_erase h (ap_publishers ap)) in *. set (s2 := set_pubs _ _) in *.
  destruct (ht_first_some t) as (q & Hq & Hqt); [by apply Nat.eqb_neq|].
  apply wp_bind. eapply wp_lift_opt; [done|]. apply wp_bind, wp_upd_pub. set (f := λ ap, ap_with_publishers _ ap).
  assert (ht_get j (activePublicationIndex s2) = Some (ap_with_publishers t ap)) as Hap2.
  { subst s2. cbn. rw ht_get_alter decide_True // Hap //. }
  pose proof (pg_wf _ _ _ _ _ Hl) as W2. apply negb_true_iff, Z.eqb_neq in Hnot.
  assert (ht_get h (ap_publishers ap) = Some (publisher_state h (ap_publishers ap))) as Hst.
  { rw (publishes_at s1 h j ap Hap) in Hpub. destruct Hpub as [st Hst]. unfold publisher_state. by rw Hst. }
  destruct (wf_alter_pub s2 j f W2) as (W3 & P3 & SP3).
  { intros ap2. rw Hap2. intros [= <-]. split_and!; try done.
    - apply pub_ok_state; [by apply (wf_pubs s2 W2)|]. intros _ _. by apply (po_known _ _ Hok h _ Hst).
    - intros p. cbn. by rw ht_is_Some_alter. }
  set (s3 := set_pubs _ s2) in *. rw (po_id _ _ Hok) id_ok_u8; [|apply Hok].
  assert (publishes s1 q j ∧ q ≠ h) as [Hq1 Hqh].
  { rw (publishes_at s1 q j ap Hap). subst t. rw ht_get_erase in Hqt. by case_decide; [destruct Hqt|]. }
  assert (publishes s q j) as Hq0 by (by apply (pg_pub _ _ _ _ _ Hpg) in Hq1 as [? _]).
  apply wp_bind. eapply wp_check.
  { apply build_exact. rw !zlen_mjoin_cons zlen_mjoin_nil !zlen_cons !zlen_nil. lia. }
  rw !mjoin_cons /= app_nil_r.
  destruct (hosts s3 !! q) as [y|] eqn:Hy; last first.
  { exfalso. assert (live s3 q) as [? ?] by (apply (publishes_live s3 q j W3), P3; rw (publishes_at s2 q j _ Hap2); done). congruence. }
  eapply sends_wp; [by apply (sends_host s3 q y Made (notification_bytes START_PUBLISH j))|].
  eapply progress_kept; [exact Hl|..]; try done.
  - by apply wf_out.
  - intros e ->%list_elem_of_singleton.
    assert (same_rest s s3) as R by (pose proof (pg_rest _ _ _ _ _ Hl) as [[] ?]; by split). pose proof (sr_hosts _ _ R q) as Ha. unfold host_attrs in Ha. rw Hy in Ha.
    destruct (hosts s !! q) as [y0|] eqn:Hy0; [|done]. cbn in Ha. injection Ha as Et Ei.
    exists j, q, y0. split_and!; try done; [by apply (pg_pub _ _ _ _ _ Hpg) in Hpub as [? _]|]. unfold host_event. by rw Et Ei.
Qed.

Lemma wp_delete_scope_pub s h DP DS s1 j : progress s h DP DS s1 → publishes s1 h j →
  wp (delete_scope_publication h j) (λ _, progress s h (λ i, DP i ∨ (i = j ∧ pub_kind s true j)) DS) s1.
Proof.
  intros Hpg Hpub. destruct (progress_pub_at _ _ _ _ _ _ Hpg Hpub) as (x & ap & Hx & Hap & Hok & Hkind).
  unfold delete_scope_publication. apply wp_bind, wp_find_pub, wp_bind. eapply wp_lift_opt; [done|].
  destruct (ap_isScope ap) eqn:Hsc; cbn [negb]; last first.
  { apply wp_ret. eapply progress_iff, Hpg; [|done]. intros k _. rw Hkind. naive_solver. }
  apply (wp_mono _ (λ _, progress s h (λ i, DP i ∨ i = j) DS)); last first.
  { intros [] s' H. eapply progress_iff, H; [|done]. intros k _. rw Hkind. naive_solver. }
  apply wp_bind. eapply wp_drop_publisher; [done|]. pose proof (pub_leaves _ _ _ _ _ _ _ _ Hpg Hx Hap Hpub) as Hl.
  cbv zeta in Hl |- *. destruct (ht_size _ =? 0)%nat eqn:Hsz; [by rw Hsc in Hl|by apply wp_ret].
Qed.

(** ** Subscriptions *)

Lemma progress_sub_at s h DP DS s1 j : progress s h DP DS s1 → subscribes s1 h j →
  ∃ x a, hosts s1 !! h = Some x ∧ ht_get j (activeSubscriptionIndex s1) = Some a ∧ sub_ok j a ∧
    ∀ b, sub_kind s b j ↔ as_isScope a = b.
Proof.
  intros Hpg Hsub. pose proof (pg_wf _ _ _ _ _ Hpg) as W. destruct (subscribes_live _ _ _ W Hsub) as [x Hx].
  pose proof Hsub as (a & Ha & _). exists x, a. split_and!; [done|done|by apply (wf_subs _ W)|].
  destruct (pg_same_sub _ _ _ _ _ Hpg _ _ Ha) as (a0 & Ha0 & _ & _ & _ & Hs). intros b. unfold sub_kind. rw Ha0 Hs.
  split; [by intros (? & [= <-] & ?)|intros; by eexists].
Qed.

Lemma wp_delete_sub s h DP DS s1 j x a : progress s h DP DS s1 → hosts s1 !! h = Some x →
  ht_get j (activeSubscriptionIndex s1) = Some a → subscribes s1 h j →
  wp (delete_subscription (if as_isScope a then UNSUBSCRIBE_SCOPE else UNSUBSCRIBE_INFO) h j a)
    (λ _, progress s h DP (λ i, DS i ∨ i = j)) s1.
Proof.
  intros Hpg Hx Ha Hsub. pose proof (pg_wf _ _ _ _ _ Hpg) as W.
  pose proof (wf_subs s1 W _ _ Ha) as Hok. pose proof (so_id _ _ Hok) as Hid.
  unfold delete_subscription, drop_subscriber. apply wp_bind, wp_bind. eapply wp_live_host; [done|].
  apply wp_bind, wp_upd_sub, wp_ret. set (t := ht_erase h (as_subscribers a)). set (s2 := set_subs _ _).
  destruct (sub_dropped s1 h x j a W Hx Ha) as (W2 & R2 & S2 & F2). fold t in W2, R2, S2, F2.
  change (set_subs (ht_alter _ _ _) _) with s2 in W2, R2, S2, F2.
  destruct (pg_same_sub _ _ _ _ _ Hpg _ _ Ha) as (a0 & Ha0 & Hs1 & Hs2 & Hs3 & Hs4).
  assert (∀ q, q ≠ h → subscribes s q j ↔ subscribes s1 q j) as Hq.
  { intros q Hne. rw (pg_sub _ _ _ _ _ Hpg). tauto. }
  assert (subscribes s h j) as Hsub0 by (by apply (pg_sub _ _ _ _ _ Hpg) in Hsub as [? _]).
  assert (sub_removal s a0 = sub_removal s2 a) as Hev.
  { unfold sub_removal. rw -Hs1 -Hs2 -Hs3 -Hs4. by rw -(nr_gc _ _ (sr_near _ _ (pg_rest _ _ _ _ _ Hpg))). }
  destruct (ht_size t =? 0)%nat.
  - rw Hid. apply wp_bind, wp_modify. set (s3 := set_subs _ s2) in *.
    assert (sole_subscriber s h j) as Hsole.
    { intros q. split; [|by intros ->]. intros H. destruct (decide (q = h)); [done|]. exfalso.
      apply (proj1 F2 I q), S2. split; [by apply Hq|]. by intros []. }
    assert (∀ es, (∀ e, e ∈ es ↔ local_strategy (as_strategy a) = false ∧ e = sub_removal s2 a) →
      progress s h DP (λ i, DS i ∨ i = j) (set_out (out s3 ++ es) s3)) as Hdone.
    { intros es Hes. eapply (progress_sub s h DP DS s1 _ (λ i, i = j) es Hpg); try done; try apply eq_or_ne.
      - by apply wf_out.
      - by apply same_rest_out.
      - intros i b. subst s3. cbn. rw ht_get_erase. case_decide; [done|]. rw ht_get_alter decide_False //. by exists b.
      - intros e [Hl ->]%Hes. right. left. exists j, a0. rw -Hs2. by split_and!.
      - intros k e -> (a1 & Ha1 & _ & Hl & ->). rw Ha0 in Ha1. injection Ha1 as <-. apply Hes. rw Hs2. by split. }
    destruct (local_strategy (as_strategy a)).
    + apply wp_ret. rw -(set_out_id s3). apply Hdone. intros e. rw elem_of_nil. naive_solver.
    + eapply sends_wp; [by apply sends_removal; [apply W2|apply Hok|apply Hok]|]. apply Hdone. intros e.
      rw list_elem_of_singleton. unfold sub_removal. rw Hid. naive_solver.
  - apply wp_ret. eapply (progress_sub s h DP DS s1 s2 (λ i, i = j) [] Hpg); try done; try apply eq_or_ne.
    + intros i b. subst s2. cbn. rw ht_get_alter. case_decide as Hi; [subst i|by exists b]. rw Ha. intros [= <-]. by exists a.
    + by rw app_nil_r.
    + set_solver.
    + intros k e -> (a1 & _ & Hsole & _). exfalso. apply F2. intros q [H Hn]%S2.
      apply Hn. split; [|done]. apply Hsole. by apply (pg_sub _ _ _ _ _ Hpg) in H as [? _].
Qed.

Lemma wp_delete_item_sub s h DP DS s1 j : progress s h DP DS s1 → subscribes s1 h j →
  wp (delete_item_subscription h j) (λ _, progress s h DP (λ i, DS i ∨ (i = j ∧ sub_kind s false j))) s1.
Proof.
  intros Hpg Hsub. destruct (progress_sub_at _ _ _ _ _ _ Hpg Hsub) as (x & a & Hx & Ha & Hok & Hkind).
  unfold delete_item_subscription. apply wp_bind, wp_find_sub, wp_bind. eapply wp_lift_opt; [done|].
  pose proof (wp_delete_sub _ _ _ _ _ _ _ _ Hpg Hx Ha Hsub) as Hd. destruct (as_isScope a) eqn:Hsc.
  { apply wp_ret. eapply progress_iff, Hpg; [done|]. intros k _. rw Hkind. naive_solver. }
  eapply wp_mono; [exact Hd|]. intros [] s' H. eapply progress_iff, H; [done|]. intros k _. rw Hkind. naive_solver.
Qed.

Lemma wp_delete_scope_sub s h DP DS s1 j : progress s h DP DS s1 → subscribes s1 h j →
  wp (delete_scope_subscription h j) (λ _, progress s h DP (λ i, DS i ∨ (i = j ∧ sub_kind s true j))) s1.
Proof.
  intros Hpg Hsub. destruct (progress_sub_at _ _ _ _ _ _ Hpg Hsub) as (x & a & Hx & Ha & Hok & Hkind).
  unfold delete_scope_subscription. apply wp_bind, wp_find_sub, wp_bind. eapply wp_lift_opt; [done|].
  pose proof (wp_delete_sub _ _ _ _ _ _ _ _ Hpg Hx Ha Hsub) as Hd. destruct (as_isScope a) eqn:Hsc; cbn [negb]; last first.
  { apply wp_ret. eapply progress_iff, Hpg; [done|]. intros k _. rw Hkind. naive_solver. }
  eapply wp_mono; [exact Hd|]. intros [] s' H. eapply progress_iff, H; [done|]. intros k _. rw Hkind. naive_solver.
Qed.

(** ** The loops *)

(** The loops over publications and over subscriptions are the same: [prog D]
    is the progress when the identifiers of [D] are gone, of those in [P0]. *)
Section loops.
Context (h : ptr) (P0 : bytes → Prop) (prog : (bytes → Prop) → proxy → Prop) (keys : LocalHost → list bytes).
Context (prog_iff : ∀ (D D' : bytes → Prop) s1, (∀ k, P0 k → D k ↔ D' k) → prog D s1 → prog D' s1).
Context (prog_keys : ∀ D s1, prog D s1 → ∃ x, hosts s1 !! h = Some x ∧ NoDup (keys x) ∧
  (∀ k, k ∈ keys x → P0 k ∧ ¬ D k) ∧ ∀ k, P0 k → D k ∨ k ∈ keys x).

(** [del] takes an identifier away if it is of the kind [K]. *)
Definition deletes (K : bytes → Prop) (del : bytes → X ()) : Prop :=
  ∀ D j s2, prog D s2 → P0 j → ¬ D j → wp (del j) (λ _, prog (λ i, D i ∨ (i = j ∧ K j))) s2.

Lemma wp_del_loop K del D s1 l : deletes K del → prog D s1 → NoDup l → (∀ k, k ∈ l → P0 k ∧ ¬ D k) →
  wp (mfor l del) (λ _, prog (λ i, D i ∨ (i ∈ l ∧ K i))) s1.
Proof.
  intros Hdel Hp Hnd. revert D s1 Hp. induction Hnd as [|j l Hj Hnd IH]; intros D s1 Hp Hl.
  { apply wp_ret. eapply prog_iff, Hp. set_solver. }
  apply wp_bind. eapply wp_mono; [apply Hdel; [done|apply Hl; set_solver..]|].
  intros [] s2 Hp2. eapply wp_mono; [apply (IH _ s2 Hp2)|].
  - intros k Hk. destruct (Hl k ltac:(set_solver)) as [? HD]. split; [done|]. intros [?|[-> _]]; [done|]. set_solver.
  - intros [] s3. apply prog_iff. set_solver.
Qed.

Lemma wp_del_all K del D s1 : deletes K del → prog D s1 →
  wp (x ← get_host h; mfor (keys x) del) (λ _, prog (λ i, D i ∨ K i)) s1.
Proof.
  intros Hdel Hp. destruct (prog_keys _ _ Hp) as (x & Hx & Hnd & Hk & Hk0). apply wp_bind. eapply wp_read_host; [done|].
  eapply wp_mono; [by apply (wp_del_loop K)|]. intros [] s2. apply prog_iff. intros k Hk1.
  destruct (Hk0 k Hk1); tauto.
Qed.

Lemma deletes_level K del i : deletes K del →
  deletes (λ k, level k = i ∧ K k) (λ id, if (level id =? i)%nat then del id else mret ()).
Proof.
  intros Hdel D j s2 Hp Hj HD. destruct (Nat.eqb_spec (level j) i) as [E|E].
  - eapply wp_mono; [by apply Hdel|]. intros [] s3. apply prog_iff. naive_solver.
  - apply wp_ret. eapply prog_iff, Hp. naive_solver.
Qed.

Lemma wp_by_level K del D i s1 : deletes K del → prog (λ k, D k ∨ (K k ∧ (i < level k)%nat)) s1 →
  wp (by_level i (x ← get_host h; mret (keys x)) del) (λ _, prog (λ k, D k ∨ (K k ∧ (0 < level k)%nat))) s1.
Proof.
  intros Hdel. revert s1. induction i as [|i IH]; intros s1 Hp; [by apply wp_ret|]. cbn [by_level].
  destruct (prog_keys _ _ Hp) as (x & Hx & Hnd & Hk & Hk0).
  apply wp_bind, wp_bind. eapply wp_read_host; [done|]. apply wp_ret, wp_bind.
  eapply wp_mono; [apply (wp_del_loop (λ k, level k = S i ∧ K k)); [by apply deletes_level|done..]|].
  intros [] s2 Hp2. apply IH. eapply prog_iff, Hp2. intros k Hk1. split.
  - intros [[?|[? ?]]|(_ & -> & ?)]; [tauto|right; split; [done|lia]..].
  - intros [?|[HK Hl]]; [tauto|]. destruct (Hk0 k Hk1) as [[?|[? ?]]|Hin]; [tauto|left; right; split; [done|lia]|].
    destruct (decide (level k = S i)); [tauto|]. left. right. split; [done|lia].
Qed.

(** The deepest level. *)
Lemma wp_max_level (K : bytes → Prop) (body : nat → bytes → X nat) s1 l :
  (∀ m j, j ∈ l → wp (body m j) (λ m' s2, s2 = s1 ∧ (m ≤ m')%nat ∧ (K j → (level j ≤ m')%nat)) s1) →
  ∀ m, wp (mfoldl body m l) (λ m' s2, s2 = s1 ∧ (m ≤ m')%nat ∧ ∀ j, j ∈ l → K j → (level j ≤ m')%nat) s1.
Proof.
  intros Hb. induction l as [|j l IH]; intros m.
  { apply wp_ret. split_and!; [done|done|]. set_solver. }
  apply wp_bind. eapply wp_mono; [apply Hb; set_solver|]. intros m' ? (-> & Hm & Hj).
  eapply wp_mono; [apply IH; intros; apply Hb; set_solver|]. intros m'' ? (-> & Hm' & Hl).
  split_and!; [done|lia|]. intros i [->|Hi]%elem_of_cons HK; [specialize (Hj HK); lia|by apply Hl].
Qed.

Lemma wp_del_scopes K body del D s1 : deletes K del → prog D s1 →
  (∀ m j, P0 j → ¬ D j → wp (body m j) (λ m' s2, s2 = s1 ∧ (m ≤ m')%nat ∧ (K j → (level j ≤ m')%nat)) s1) →
  wp (x ← get_host h; max_level ← mfoldl body 0%nat (keys x); by_level max_level (x ← get_host h; mret (keys x)) del)
    (λ _, prog (λ k, D k ∨ (K k ∧ (0 < level k)%nat))) s1.
Proof.
  intros Hdel Hp Hb. destruct (prog_keys _ _ Hp) as (x & Hx & Hnd & Hk & Hk0). apply wp_bind. eapply wp_read_host; [done|].
  apply wp_bind. eapply wp_mono; [apply (wp_max_level K)|].
  - intros m j [? ?]%Hk. by apply Hb.
  - intros m ? (-> & _ & Hm). apply wp_by_level; [done|]. eapply prog_iff, Hp. intros k Hk1. split; [tauto|].
    intros [?|[HK Hl]]; [done|]. destruct (Hk0 k Hk1) as [?|Hin]; [done|]. specialize (Hm k Hin HK). lia.
Qed.
End loops.

(** ** The whole *)

Lemma host_keys s h x : wf s → hosts s !! h = Some x → ∀ k, k ∈ ht_keys (activePublications x) ↔ publishes s h k.
Proof. intros W Hx k. by rw -hs_in_keys (wf_pub s W) (host_pub_at _ _ _ _ Hx). Qed.
Lemma host_sub_keys s h x : wf s → hosts s !! h = Some x → ∀ k, k ∈ ht_keys (activeSubscriptions x) ↔ subscribes s h k.
Proof. intros W Hx k. by rw -hs_in_keys (wf_sub s W) (host_sub_at _ _ _ _ Hx). Qed.

Section phases.
Context (s : proxy) (h : ptr) (Hh : live s h).

Lemma progress_host DP DS s1 : progress s h DP DS s1 → ∃ x, hosts s1 !! h = Some x.
Proof. intros Hp. by apply (same_rest_live s s1 h (pg_rest _ _ _ _ _ Hp)). Qed.

Lemma pub_keys DS D s1 : progress s h D DS s1 → ∃ x, hosts s1 !! h = Some x ∧ NoDup (ht_keys (activePublications x)) ∧
  (∀ k, k ∈ ht_keys (activePublications x) → publishes s h k ∧ ¬ D k) ∧
  ∀ k, publishes s h k → D k ∨ k ∈ ht_keys (activePublications x).
Proof.
  intros Hp. destruct (progress_host _ _ _ Hp) as [x Hx]. exists x. split_and!; [done|apply ht_keys_nodup|..];
    intros k; rw (host_keys s1 h x (pg_wf _ _ _ _ _ Hp) Hx) (pg_pub _ _ _ _ _ Hp); [tauto|].
  intros Hk. destruct (pg_dec_pub _ _ _ _ _ Hp k Hk); tauto.
Qed.

Lemma sub_keys DP D s1 : progress s h DP D s1 → ∃ x, hosts s1 !! h = Some x ∧ NoDup (ht_keys (activeSubscriptions x)) ∧
  (∀ k, k ∈ ht_keys (activeSubscriptions x) → subscribes s h k ∧ ¬ D k) ∧
  ∀ k, subscribes s h k → D k ∨ k ∈ ht_keys (activeSubscriptions x).
Proof.
  intros Hp. destruct (progress_host _ _ _ Hp) as [x Hx]. exists x. split_and!; [done|apply ht_keys_nodup|..];
    intros k; rw (host_sub_keys s1 h x (pg_wf _ _ _ _ _ Hp) Hx) (pg_sub _ _ _ _ _ Hp); [tauto|].
  intros Hk. destruct (pg_dec_sub _ _ _ _ _ Hp k Hk); tauto.
Qed.

Lemma still_publishes D DS s1 j : progress s h D DS s1 → publishes s h j → ¬ D j → publishes s1 h j.
Proof. intros Hp ? ?. apply (pg_pub _ _ _ _ _ Hp). tauto. Qed.
Lemma still_subscribes DP D s1 j : progress s h DP D s1 → subscribes s h j → ¬ D j → subscribes s1 h j.
Proof. intros Hp ? ?. apply (pg_sub _ _ _ _ _ Hp). tauto. Qed.

Lemma wp_item_pubs D DS s1 : progress s h D DS s1 →
  wp (deleteAllActiveInformationItemPublications h) (λ _, progress s h (λ k, D k ∨ pub_kind s false k) DS) s1.
Proof.
  intros Hp. apply (wp_del_all h (publishes s h) (λ D, progress s h D DS) (λ x, ht_keys (activePublications x)));
    [|apply pub_keys| |done].
  - intros D1 D2 s2 ?. by apply progress_iff.
  - intros D1 j s2 ? ? ?. apply wp_delete_item_pub; [done|]. by eapply still_publishes.
Qed.

Lemma wp_item_subs DP D s1 : progress s h DP D s1 →
  wp (deleteAllActiveInformationItemSubscriptions h) (λ _, progress s h DP (λ k, D k ∨ sub_kind s false k)) s1.
Proof.
  intros Hp. apply (wp_del_all h (subscribes s h) (λ D, progress s h DP D) (λ x, ht_keys (activeSubscriptions x)));
    [|apply sub_keys| |done].
  - intros D1 D2 s2 ?. by apply progress_iff.
  - intros D1 j s2 ? ? ?. apply wp_delete_item_sub; [done|]. by eapply still_subscribes.
Qed.

Lemma wp_scope_pubs D DS s1 : progress s h D DS s1 →
  wp (deleteAllActiveScopePublications h) (λ _, progress s h (λ k, D k ∨ (pub_kind s true k ∧ (0 < level k)%nat)) DS) s1.
Proof.
  intros Hp. apply (wp_del_scopes h (publishes s h) (λ D, progress s h D DS) (λ x, ht_keys (activePublications x)));
    [|apply pub_keys| |done|].
  - intros D1 D2 s2 ?. by apply progress_iff.
  - intros D1 j s2 ? ? ?. apply wp_delete_scope_pub; [done|]. by eapply still_publishes.
  - intros m j Hj HD. destruct (progress_pub_at _ _ _ _ _ _ Hp (still_publishes _ _ _ _ Hp Hj HD)) as (_ & ap & _ & Hap & _ & Hk).
    apply wp_bind, wp_find_pub, wp_bind. eapply wp_lift_opt; [done|]. apply wp_ret. rw Hk.
    destruct (ap_isScope ap); split_and!; lia || done.
Qed.

Lemma wp_scope_subs DP D s1 : progress s h DP D s1 →
  wp (deleteAllActiveScopeSubscriptions h) (λ _, progress s h DP (λ k, D k ∨ (sub_kind s true k ∧ (0 < level k)%nat))) s1.
Proof.
  intros Hp. apply (wp_del_scopes h (subscribes s h) (λ D, progress s h DP D) (λ x, ht_keys (activeSubscriptions x)));
    [|apply sub_keys| |done|].
  - intros D1 D2 s2 ?. by apply progress_iff.
  - intros D1 j s2 ? ? ?. apply wp_delete_scope_sub; [done|]. by eapply still_subscribes.
  - intros m j Hj HD. destruct (progress_sub_at _ _ _ _ _ _ Hp (still_subscribes _ _ _ _ Hp Hj HD)) as (_ & a & _ & Ha & _ & Hk).
    apply wp_bind, wp_find_sub, wp_bind. eapply wp_lift_opt; [done|]. apply wp_ret. rw Hk.
    destruct (as_isScope a); split_and!; lia || done.
Qed.
End phases.

Lemma level_pos k : id_ok k → (0 < level k)%nat.
Proof. intros (n & Hn & E). unfold level. rw E /PURSUIT_ID_LEN. lia. Qed.

Lemma all_pubs s h k : wf s → publishes s h k → pub_kind s false k ∨ (pub_kind s true k ∧ (0 < level k)%nat).
Proof.
  intros W (ap & Hap & _). destruct (ap_isScope ap) eqn:E; [right|left; by exists ap].
  split; [by exists ap|]. apply level_pos, (po_len _ _ (wf_pubs s W _ _ Hap)).
Qed.
Lemma all_subs s h k : wf s → subscribes s h k → sub_kind s false k ∨ (sub_kind s true k ∧ (0 < level k)%nat).
Proof.
  intros W (a & Ha & _). destruct (as_isScope a) eqn:E; [right|left; by exists a].
  split; [by exists a|]. apply level_pos, (so_len _ _ (wf_subs s W _ _ Ha)).
Qed.

(** What a disconnection leaves. *)
Record disconnected s h s' : Prop := {
  dc_wf : wf s';
  dc_gone : hosts s' !! h = None;
  dc_hosts : ∀ q, q ≠ h → host_attrs s' q = host_attrs s q;
  dc_pub : ∀ q k, publishes s' q k ↔ publishes s q k ∧ q ≠ h;
  dc_sub : ∀ q k, subscribes s' q k ↔ subscribes s q k ∧ q ≠ h;
  dc_nodes : activeNodeIndex s' = activeNodeIndex s;
  dc_out : ∃ es, out s' = out s ++ es ∧
    (∀ e, e ∈ es → (∃ k, due_pub s h k e) ∨ (∃ k, due_sub s h k e) ∨ takes_over s h e) ∧
    ∀ k e, due_pub s h k e ∨ due_sub s h k e → e ∈ es;
}.

(** The host is deleted once nothing refers to it. *)
Lemma host_deleted s h x : wf s → hosts s !! h = Some x → (∀ k, ¬ publishes s h k) → (∀ k, ¬ subscribes s h k) →
  (∀ k, ¬ node_publisher s h k) →
  wf (set_hosts (delete h (hosts s)) (set_index (ht_erase (lh_id x) (local_pub_sub_Index s)) s)).
Proof.
  intros W Hx Hp Hs Hn. destruct W as [H1 H2 H3 H4 H5 H6 H7 H8 H9]. split; try done.
  - intros id q. cbn. rw ht_get_erase lookup_delete. destruct (decide (lh_id x = id)) as [<-|Hid].
    + split; [done|]. intros (y & Hy & Hid). case_decide as E; [done|].
      assert (ht_get (lh_id x) (local_pub_sub_Index s) = Some q) as E1 by (apply H1; by exists y).
      assert (ht_get (lh_id x) (local_pub_sub_Index s) = Some h) as E2 by (apply H1; by exists x). congruence.
    + rw H1. case_decide as E; [subst q|done]. split; [|by intros (? & ? & _)]. rw Hx. by intros (? & [= <-] & ?).
  - intros q [y Hy]. cbn in Hy. rw lookup_delete in Hy. case_decide; [done|]. apply H2. by exists y.
  - intros q k. specialize (H4 q k). unfold host_pub in *. cbn. rw lookup_delete. case_decide as E; [subst q|exact H4].
    split; [by intros ?%Hp|by intros (? & ? & _)].
  - intros q k. specialize (H6 q k). unfold host_sub in *. cbn. rw lookup_delete. case_decide as E; [subst q|exact H6].
    split; [by intros ?%Hs|by intros (? & ? & _)].
  - intros q k Hq. unfold live. cbn. rw lookup_delete. case_decide as E; [subst q; by apply Hn in Hq|]. by eapply H8.
Qed.

Lemma wp_disconnect s h : wf s → live s h → (∀ k, ¬ node_publisher s h k) →
  wp (disconnect h) (λ _, disconnected s h) s.
Proof.
  intros W Hh Hn. unfold disconnect.
  apply wp_bind. eapply wp_mono; [by apply (wp_item_pubs s h Hh), progress_start|]. intros [] s1 Hp1.
  apply wp_bind. eapply wp_mono; [by apply (wp_item_subs s h Hh), Hp1|]. intros [] s2 Hp2.
  apply wp_bind. eapply wp_mono; [by apply (wp_scope_pubs s h Hh), Hp2|]. intros [] s3 Hp3.
  apply wp_bind. eapply wp_mono; [by apply (wp_scope_subs s h Hh), Hp3|]. intros [] s4 Hp4.
  assert (progress s h (λ _, True) (λ _, True) s4) as [W4 R P S _ _ _ _ (es & E & E1 & E2 & E3)].
  { eapply progress_iff, Hp4; intros k Hk; [pose proof (all_pubs s h k W Hk)|pose proof (all_subs s h k W Hk)]; tauto. }
  clear s1 s2 s3 Hp1 Hp2 Hp3 Hp4. apply (same_rest_live s s4) in Hh as [x Hx]; [|done].
  apply wp_bind. eapply wp_read_host; [done|]. apply wp_bind, wp_modify. unfold wp, delete_host. cbn. rw Hx.
  split; try done.
  - apply (host_deleted s4 h x W4 Hx).
    + intros k [_ H]%P. by apply H.
    + intros k [_ H]%S. by apply H.
    + intros k. unfold node_publisher. rw (nr_nodes _ _ (sr_near _ _ R)). apply Hn.
  - apply lookup_delete_eq.
  - intros q Hq. unfold host_attrs. cbn. rw lookup_delete_ne //. apply R.
  - intros q k. rw -/(publishes s4 q k). change (publishes s4 q k ↔ publishes s q k ∧ q ≠ h). rw P. tauto.
  - intros q k. change (subscribes s4 q k ↔ subscribes s q k ∧ q ≠ h). rw S. tauto.
  - apply R.
  - exists es. split_and!; [done|done|]. intros k e [?|?]; eauto.
Qed.
End disconnect.
