(* ===== verification/ProxyDelivery.v ===== *)
(** * Delivery of data

    Which hosts get a publication, how often and with which identifier: the
    closed form of findLocalSubscribers, handleNetworkPublication and the
    methods for publications of local hosts. *)

From S2P Require Import Prelude Enums HashTable BitVector Packet GlobalConf RvMessages ProxyStore LocalProxy ProxyInvariant ProxyMessages.

Section delivery.
Context `{CT : ClickTables}.
Implicit Types (s : proxy) (h : ptr) (k : bytes).

(** ** The specification *)

#[export] Instance subscribes_dec s h k : Decision (subscribes s h k).
Proof.
  unfold subscribes. destruct (ht_get k (activeSubscriptionIndex s)) as [a|].
  - destruct (decide (hs_in h (as_subscribers a))); [left|right]; naive_solver.
  - right. by intros (? & ? & _).
Defined.

(** A host hears of an identifier if it subscribed to it, or to its father
    scope. *)
Definition hears s h k : Prop := subscribes s h k ∨ subscribes s h (prefix_of k).

#[export] Instance hears_dec s h k : Decision (hears s h k).
Proof. unfold hears. apply _. Defined.

(** The identifier a host is told: the last one it hears of. *)
Definition told s h (IDs : list bytes) : option bytes := last (filter (hears s h) IDs).

(** A copy for each host, the packet itself for the last. *)
Fixpoint deliveries s (ID_of : ptr → bytes) (hs : list ptr) (d : bytes) (APItype : Z) : list event :=
  match hs with
  | [] => []
  | h :: hs =>
      (match hosts s !! h with
       | Some x => [host_event x (match hs with [] => Given | _ => Clone end) (data_bytes APItype (ID_of h) d)]
       | None => []
       end) ++ deliveries s ID_of hs d APItype
  end.

(** The local receivers of [IDs] but [h0], each once. *)
Definition receivers s (h0 : option ptr) (IDs : list bytes) (hs : list ptr) : Prop :=
  NoDup hs ∧ ∀ h, h ∈ hs ↔ Some h ≠ h0 ∧ ∃ k, k ∈ IDs ∧ hears s h k.

(** ** Finding the subscribers *)

Lemma ht_get_add_subscribers a k (t : PH bytes) h :
  ht_get h (add_subscribers (Some a) k t) = if decide (hs_in h (as_subscribers a)) then Some k else ht_get h t.
Proof.
  unfold add_subscribers. assert (∀ l t, ht_get h (foldl (λ t h, ht_set h k t) t l) = if decide (h ∈ l) then Some k else ht_get h t) as Hg.
  { induction l as [|q l IH]; intros t'; cbn [foldl]; [case_decide; [set_solver|done]|].
    rw IH ht_get_set. repeat case_decide; set_solver. }
  rw Hg. apply decide_ext. by rw hs_in_keys.
Qed.

Lemma get_add_subscribers s k j (t : PH bytes) h :
  ht_get h (add_subscribers (ht_get j (activeSubscriptionIndex s)) k t) =
  if decide (subscribes s h j) then Some k else ht_get h t.
Proof.
  destruct (ht_get j (activeSubscriptionIndex s)) as [a|] eqn:E.
  - rw ht_get_add_subscribers. apply decide_ext. by rw (subscribes_at s h j a E).
  - rw decide_False //. intros (? & ? & _). congruence.
Qed.

Lemma told_cons s h k IDs : told s h (k :: IDs) =
  match told s h IDs with Some j => Some j | None => if decide (hears s h k) then Some k else None end.
Proof.
  unfold told. rw filter_cons. case_decide; [|by destruct (last _)]. rw last_cons. by destruct (last _).
Qed.

Lemma told_Some s h IDs : is_Some (told s h IDs) ↔ ∃ k, k ∈ IDs ∧ hears s h k.
Proof.
  induction IDs as [|k IDs IH]; [unfold told; cbn; split; [by intros []|set_solver]|].
  rw told_cons. destruct (told s h IDs) as [j|].
  - split; [|by eexists]. intros _. destruct (proj1 IH) as (i & ? & ?); [by eexists|]. exists i. set_solver.
  - split.
    + case_decide; [|by intros []]. intros _. exists k. set_solver.
    + intros (i & [->|Hi]%elem_of_cons & Hh); [by rw decide_True|]. destruct (proj2 IH) as [? ?]; [by exists i|done].
Qed.

Lemma findLocalSubscribers_spec s IDs t0 : ∃ t, findLocalSubscribers IDs t0 s = Ok (t, s) ∧
  ∀ h, ht_get h t = match told s h IDs with Some k => Some k | None => ht_get h t0 end.
Proof.
  revert t0. induction IDs as [|k IDs IH]; intros t0; [by exists t0|].
  destruct (IH (add_subscribers (ht_get (prefix_of k) (activeSubscriptionIndex s)) k
    (add_subscribers (ht_get k (activeSubscriptionIndex s)) k t0))) as (t & Et & Ht).
  exists t. split; [exact Et|]. intros h. rw Ht told_cons. destruct (told s h IDs); [done|].
  rw !get_add_subscribers. unfold hears. repeat case_decide; tauto || done.
Qed.

(** The keys of the table without the publisher are the receivers. *)
Lemma find_receivers s IDs : ∃ t, findLocalSubscribers IDs ht_empty s = Ok (t, s) ∧
  (∀ h, ht_get h t = told s h IDs) ∧ receivers s None IDs (ht_keys t) ∧
  ∀ h0, receivers s (Some h0) IDs (ht_keys (ht_erase h0 t)).
Proof.
  destruct (findLocalSubscribers_spec s IDs ht_empty) as (t & Et & Ht).
  assert (∀ h, ht_get h t = told s h IDs) as Ht'.
  { intros h. rw Ht ht_get_empty. by destruct (told s h IDs). }
  exists t. split_and!; [done|done| |]; [|intros h0]; (split; [apply ht_keys_nodup|]); intros h; rw elem_of_ht_keys.
  - rw Ht' told_Some. naive_solver.
  - rw ht_get_erase. case_decide as E; [subst h0; split; [by intros []|naive_solver]|]. rw Ht' told_Some. naive_solver.
Qed.

Lemma receivers_live s o IDs hs h : wf s → receivers s o IDs hs → h ∈ hs → live s h.
Proof. intros W [_ Hr] (_ & k & _ & [H|H])%Hr; by eapply subscribes_live. Qed.

(** ** The loop *)

Lemma sends_loop s f hs d APItype : (∀ h, h ∈ hs → live s h ∧ id_ok (f h)) →
  sends (push_locally ((λ h, (h, f h)) <$> hs) d APItype) () (deliveries s f hs d APItype) s.
Proof.
  enough (∀ o, (∀ h, h ∈ hs → live s h ∧ id_ok (f h)) →
    sends (push_locally ((λ h, (h, f h)) <$> hs) d APItype) () (deliveries s f hs d APItype) (set_out o s)) as Hg.
  { intros Hl. specialize (Hg (out s) Hl). by destruct s. }
  induction hs as [|h hs IH]; intros o Hl; [unfold sends; by rw set_out_id|]. cbn [fmap list_fmap push_locally deliveries].
  destruct (Hl h ltac:(set_solver)) as [[x Hx] Hk]. rw Hx. eapply sends_bind.
  - replace (match list_fmap _ _ _ hs with [] => _ | _ => _ end) with (match hs with [] => Given | _ => Clone end) by by destruct hs.
    by apply sends_data.
  - apply IH. intros q Hq. apply Hl. set_solver.
Qed.

Lemma deliveries_out s o f hs d APItype : deliveries (set_out o s) f hs d APItype = deliveries s f hs d APItype.
Proof. induction hs as [|h hs IH]; [done|]. cbn. by rw IH. Qed.

Lemma ht_elems_keys {V} (t : PH V) v0 : ht_elems t = (λ h, (h, default v0 (ht_get h t))) <$> ht_keys t.
Proof.
  unfold ht_keys. rw -list_fmap_compose. rw -{1}(list_fmap_id (ht_elems t)). apply list_fmap_ext. intros i [h v] Hi.
  cbn. apply list_elem_of_lookup_2, ht_elem_get in Hi. by rw Hi.
Qed.

Lemma ht_is_empty_keys {V} (t : PH V) : ht_is_empty t = match ht_keys t with [] => true | _ => false end.
Proof. unfold ht_is_empty, ht_keys. by destruct (ht_elems t). Qed.

(** ** Publications of the network *)

Definition network_copies s (IDs : list bytes) (hs : list ptr) (d : bytes) (APItype : Z) : list event :=
  match hs with
  | [] => [Kill Given]
  | _ => deliveries s (λ h, default [] (told s h IDs)) hs d APItype
  end.

Lemma told_id s h IDs k : told s h IDs = Some k → k ∈ IDs.
Proof. unfold told. intros H%last_Some_elem_of. by apply list_elem_of_filter in H as [_ ?]. Qed.

Lemma sends_network s IDs d APItype : wf s → Forall id_ok IDs → ∃ hs, receivers s None IDs hs ∧
  sends (handleNetworkPublication IDs d APItype) () (network_copies s IDs hs d APItype) s.
Proof.
  intros W HIDs. destruct (find_receivers s IDs) as (t & Et & Ht & Hr & _). exists (ht_keys t). split; [done|].
  assert (ht_elems t = (λ h, (h, default [] (told s h IDs))) <$> ht_keys t) as Hel.
  { rw {1}(ht_elems_keys t []). apply list_fmap_ext. intros i h _. by rw Ht. }
  assert (∀ h, h ∈ ht_keys t → live s h ∧ id_ok (default [] (told s h IDs))) as Hok.
  { intros h Hh. split; [by eapply receivers_live|]. apply elem_of_ht_keys in Hh as [k Hk]. rw Ht in Hk. rw Hk. cbn.
    eapply Forall_forall; [exact HIDs|]. by eapply told_id. }
  unfold handleNetworkPublication. rw -(app_nil_l (network_copies _ _ _ _ _)). eapply sends_bind.
  { unfold sends. by rw Et set_out_id. }
  rw set_out_id ht_is_empty_keys Hel. unfold network_copies. pose proof (sends_loop s _ _ d APItype Hok) as Hs.
  by destruct (ht_keys t).
Qed.

(** ** Publications of local hosts *)

(** The copies for the receivers [hs], all told [k], and for the network. *)
Definition user_copies s (remote : bool) IDs type fid k hs (d : bytes) (APItype : Z) : list event :=
  let to_network p := if remote then remote_events (gc s) IDs type fid p d else [] in
  match hs with
  | [] => if remote then to_network Given else [Kill Given]
  | _ => to_network Clone ++ deliveries s (λ _, k) hs d APItype
  end.

Definition data_type (type : option Z) : Prop :=
  match type with Some type => type = PUBLISH_DATA ∨ type = PUBLISH_DATA_iSUB | None => True end.

(** The publication that counts for an identifier: its own, or its father's. *)
Definition publication_of s k : option (bytes * ActivePublication) :=
  match ht_get k (activePublicationIndex s) with
  | Some ap => Some (k, ap)
  | None => (prefix_of k,.) <$> ht_get (prefix_of k) (activePublicationIndex s)
  end.

(** The identifiers data is sent under. *)
Definition publication_IDs s k (ap : ActivePublication) : list bytes :=
  match ht_get k (activePublicationIndex s) with Some _ => ap_allKnownIDs ap | None => [k] end.

(** Whether there is a path to subscribers in the network. *)
Definition goes_out s (type : option Z) (fid : BABitvector) : bool :=
  negb (BABitvector_zero fid || match type with None => BABitvector_eqb fid (iLID (gc s)) | Some _ => false end).

(** The end of [handleUserPublication]. *)
Definition send_user s (remote : bool) IDs type fid k hs d APItype : X () :=
  match hs, remote with
  | [], false => emit (Kill Given)
  | [], true => pushDataToRemoteSubscribers IDs type fid Given d
  | _, false => push_locally ((λ h, (h, k)) <$> hs) d APItype
  | _, true => pushDataToRemoteSubscribers IDs type fid Clone d;; push_locally ((λ h, (h, k)) <$> hs) d APItype
  end.

Lemma sends_user s k type d h APItype k' ap : wf s → id_ok k → data_type type →
  publication_of s k = Some (k', ap) → not_null (ap_FID_to_subscribers ap) → path_ids (publication_IDs s k ap) →
  ∃ hs, receivers s (Some h) (publication_IDs s k ap) hs ∧
  sends (handleUserPublication k type d h APItype) ()
    (user_copies s (goes_out s type (ap_FID_to_subscribers ap)) (publication_IDs s k ap) type (ap_FID_to_subscribers ap) k hs d APItype) s.
Proof.
  intros W Hk Hty Hpub Hnn HIDs. set (fid := ap_FID_to_subscribers ap) in *.
  destruct (find_receivers s (publication_IDs s k ap)) as (t & Et & Ht & _ & Hr). specialize (Hr h).
  exists (ht_keys (ht_erase h t)). split; [done|].
  assert (∀ q, q ∈ ht_keys (ht_erase h t) → live s q ∧ id_ok k) as Hok.
  { intros q Hq. split; [by eapply receivers_live|done]. }
  assert (fid_ok fid) as Hfid.
  { assert (ht_get k' (activePublicationIndex s) = Some ap) as Hap.
    { unfold publication_of in Hpub. destruct (ht_get k _) eqn:E; [naive_solver|].
      destruct (ht_get (prefix_of k) _) eqn:E'; naive_solver. }
    apply (wf_pubs s W _ _ Hap). }
  assert (handleUserPublication k type d h APItype s =
    send_user s (goes_out s type fid) (publication_IDs s k ap) type fid k (ht_keys (ht_erase h t)) d APItype s) as Hrun.
  { unfold handleUserPublication, publication_of, publication_IDs in *. unfold find_pub, mbind, M_bind, gets in *.
    destruct (ht_get k (activePublicationIndex s)) eqn:E; [|destruct (ht_get (prefix_of k) (activePublicationIndex s)) eqn:E'; [|done]].
    - injection Hpub as <- <-. cbn -[findLocalSubscribers]. apply Is_true_true in Hnn. fold fid. rw Hnn Et.
      unfold send_user. by destruct (ht_keys (ht_erase h t)).
    - injection Hpub as <- <-. cbn -[findLocalSubscribers]. apply Is_true_true in Hnn. fold fid. rw Hnn Et.
      unfold send_user. by destruct (ht_keys (ht_erase h t)). }
  unfold sends. rw Hrun. unfold send_user, user_copies. pose proof (sends_loop s (λ _, k) _ d APItype Hok) as Hl.
  destruct (ht_keys (ht_erase h t)) as [|q hs]; destruct (goes_out s type fid); try done.
  - apply (sends_remote s); try done; [apply W|by apply fid_ok_read].
  - change (sends (pushDataToRemoteSubscribers (publication_IDs s k ap) type fid Clone d;;
      push_locally ((λ h, (h, k)) <$> q :: hs) d APItype) () (remote_events (gc s) (publication_IDs s k ap) type fid Clone d ++
        deliveries s (λ _, k) (q :: hs) d APItype) s).
    eapply sends_bind; [apply sends_remote; try done; [apply W|by apply fid_ok_read]|].
    rw -(deliveries_out s (out s ++ remote_events (gc s) (publication_IDs s k ap) type fid Clone d)). by apply sends_loop.
Qed.

(** ** Publications with a path *)

(** The identifiers of [k], from those of its father. *)
Definition IDs_known s k : list bytes :=
  match ht_get (prefix_of k) (activePublicationIndex s) with
  | Some ap => filter (λ j, j ≠ k) ((λ j, j ++ last_of k) <$> ap_allKnownIDs ap)
  | None => [] end ++ [k].

Definition to_TM s (FID : BABitvector) : bool := not_null (TMFID (gc s)) && BABitvector_eqb FID (TMFID (gc s)).

Definition path_copies s IDs type FID k hs d APItype : list event :=
  match hs with
  | [] => remote_events (gc s) IDs type FID Given d
  | _ => (if to_TM s FID then [] else remote_events (gc s) IDs type FID Clone d) ++ deliveries s (λ _, k) hs d APItype
  end.

Lemma sends_path s k type FID d h APItype : wf s → id_ok k → data_type type →
  FID_read FID = Ok (bytes_of_FID FID) → path_ids (IDs_known s k) →
  ∃ hs, receivers s (Some h) (IDs_known s k) hs ∧
  sends (handleUserPublicationFID k type FID d h APItype) () (path_copies s (IDs_known s k) type FID k hs d APItype) s.
Proof.
  intros W Hk Hty Hr HIDs. destruct (find_receivers s (IDs_known s k)) as (t & Et & Ht & _ & Hrec). specialize (Hrec h).
  exists (ht_keys (ht_erase h t)). split; [done|].
  assert (∀ q, q ∈ ht_keys (ht_erase h t) → live s q ∧ id_ok k) as Hok.
  { intros q Hq. split; [by eapply receivers_live|done]. }
  unfold handleUserPublicationFID. rw -(app_nil_l (path_copies _ _ _ _ _ _ _ _)).
  eapply sends_bind; [unfold sends; rw set_out_id; done|]. rw set_out_id -(app_nil_l (path_copies _ _ _ _ _ _ _ _)).
  eapply sends_bind; [unfold sends; rw set_out_id; exact Et|]. rw set_out_id. unfold path_copies.
  pose proof (sends_loop s (λ _, k) _ d APItype Hok) as Hl.
  destruct (ht_keys (ht_erase h t)) as [|q hs]; [apply sends_remote; try done; apply W|].
  eapply sends_bind.
  - unfold push_beside, to_TM. unfold sends, mbind, M_bind, gets.
    destruct (_ && _); [by rw set_out_id|]. apply sends_remote; try done; apply W.
  - rw -(deliveries_out s (out s ++ if to_TM s FID then [] else remote_events (gc s) (IDs_known s k) type FID Clone d)).
    by apply sends_loop.
Qed.
End delivery.
