(* ===== verification/ProxyRendezvous.v ===== *)
(** * The LocalProxy and the rendezvous element together

    What one component sends, read by the other: a request of an application,
    forwarded by the proxy of its node to the LocalRV of that node or over the
    network to the one of the domain, is the request that LocalRV serves. *)

From S2P Require Import Prelude Enums HashTable BitVector Packet GlobalConf RvStore RvMessages LocalRV RvSafety.
From S2P Require Import ProxyStore LocalProxy ProxyInvariant ProxyRequests ProxyMessages ProxyDelivery.

Section rendezvous.
Context `{CT : ClickTables}.
Implicit Types (s : proxy) (h : ptr) (k : bytes).

(** Whole fragments, and their number in a byte. *)
Definition frag_ok k : Prop := ∃ n, (n ≤ 255)%nat ∧ length k = (n * PURSUIT_ID_LEN)%nat.

Lemma id_ok_frag k : id_ok k → frag_ok k.
Proof. intros (n & ? & ?). exists n. split; [lia|done]. Qed.

Lemma frag_ok_len k : frag_ok k → (Z.to_nat (frags k) * PURSUIT_ID_LEN)%nat = length k.
Proof. intros (n & _ & E). unfold frags, zlen, ID_LEN. rw E /PURSUIT_ID_LEN. lia. Qed.

(** ** Reading identifiers *)

(** A length byte and an identifier at an offset. *)
Lemma read_id_at d d1 k d3 off : d = d1 ++ id_field k ++ d3 → length d1 = off → frag_ok k →
  data_byte d off = Ok (frags k) ∧ data_read d (off + 1) (Z.to_nat (frags k) * PURSUIT_ID_LEN) = Ok k.
Proof.
  intros -> <- Hk. rw (frag_ok_len k Hk). split.
  - by apply (data_byte_at _ d1 _ (k ++ d3)).
  - apply (data_read_at _ (d1 ++ [frags k]) _ d3); [|by rw length_app|done]. unfold id_field. by rw -app_assoc.
Qed.

Lemma read_ID_at d d1 k d3 off : d = d1 ++ id_field k ++ d3 → length d1 = off → frag_ok k → read_ID d off = Ok k.
Proof. intros Hd Ho Hk. destruct (read_id_at d d1 k d3 off Hd Ho Hk) as [E1 E2]. unfold read_ID. by rw E1 /= E2. Qed.

Lemma length_id_field k : length (id_field k) = S (length k).
Proof. done. Qed.

(** ** LocalRV reads what the proxy sends *)

Lemma parse_request_at d d1 IDOfAPIEvent type ID prefix strategy off :
  d = d1 ++ request_bytes type ID prefix strategy → length d1 = off → frag_ok ID → frag_ok prefix →
  parse_request d IDOfAPIEvent off = Ok (mkRequest (drop PURSUIT_ID_LEN IDOfAPIEvent) type ID prefix strategy).
Proof.
  intros Hd Ho HID Hp. unfold parse_request, request_bytes in *.
  rw (data_byte_at d d1 type (id_field ID ++ id_field prefix ++ [strategy]) off) //=.
  destruct (read_id_at d (d1 ++ [type]) ID (id_field prefix ++ [strategy]) (off + 1)) as [E1 E2]; [|rw length_app; simpl; lia|done|].
  { by rw Hd -!app_assoc. }
  rw E1 /=. rw -Nat.add_assoc in E2. rw E2 /=.
  destruct (read_id_at d (d1 ++ type :: id_field ID) prefix [strategy] (off + 2 + length ID)) as [E3 E4]; [| |done|].
  { by rw Hd -!app_assoc. }
  { rw length_app /=. lia. }
  rw E3 /=. replace (off + 2 + length ID + 1)%nat with (off + 3 + length ID)%nat in E4 by lia. rw E4 /=.
  by rw (data_byte_at d (d1 ++ type :: id_field ID ++ id_field prefix) strategy [] (off + 3 + length ID + length prefix)) //;
    [rw Hd -!app_assoc /= -!app_assoc|rw !length_app /= !length_app /=; lia].
Qed.

Lemma lift_ok {A B} (a : A) (f : A → R B) r : (lift_res (Ok a) ≫= f) r = f a r.
Proof. done. Qed.

Lemma LocalRV_reads nodeID type ID prefix strategy r : length nodeID = NODEID_LEN → frag_ok ID → frag_ok prefix →
  LocalRV_push 0 ([PUBLISHED_DATA; 2] ++ (RVScope ++ nodeID) ++ request_bytes type ID prefix strategy) r =
  serve (mkRequest nodeID type ID prefix strategy) r.
Proof.
  intros Hn HID Hp. set (d := _ ++ _). set (scope := RVScope ++ nodeID) in *.
  assert (length scope = 16%nat) as Hsc by (by unfold scope; rw length_app Hn).
  unfold LocalRV_push. rw (data_byte_at d [] PUBLISHED_DATA (2 :: scope ++ request_bytes type ID prefix strategy) 0) //.
  rw (data_byte_at d [PUBLISHED_DATA] 2 (scope ++ request_bytes type ID prefix strategy) 1) //.
  change (0 =? 0) with true. cbv iota. rw !lift_ok.
  rw (data_read_at d [PUBLISHED_DATA; 2] scope (request_bytes type ID prefix strategy)) // lift_ok.
  change (PUBLISHED_DATA =? PUBLISHED_DATA) with true. cbv iota.
  rw (parse_request_at d ([PUBLISHED_DATA; 2] ++ scope) scope type ID prefix strategy) //.
  rw length_app Hsc //.
Qed.

(** ** The proxy reads what another proxy sends *)

Lemma read_ids_at IDs : Forall frag_ok IDs → ∀ d d1 d3 off, d = d1 ++ mjoin (id_field <$> IDs) ++ d3 → length d1 = off →
  read_ids d off (length IDs) = Ok (IDs, (off + length (mjoin (id_field <$> IDs)))%nat).
Proof.
  induction 1 as [|k IDs Hk _ IH]; intros d d1 d3 off Hd Ho; [cbn; by rw Nat.add_0_r|].
  cbn [fmap list_fmap length read_ids]. rw mjoin_cons. cbn [fmap list_fmap] in Hd. rw mjoin_cons in Hd.
  destruct (read_id_at d d1 k (mjoin (id_field <$> IDs) ++ d3) off) as [E1 E2]; [by rw Hd -app_assoc|done|done|].
  rw E1 /= E2 /= (frag_ok_len k Hk).
  rw (IH d (d1 ++ id_field k) d3 (off + 1 + length k)%nat).
  - cbn. rw length_app. f_equal. f_equal. lia.
  - by rw Hd -!app_assoc.
  - rw length_app length_id_field. lia.
Qed.

Lemma lift_check {A B} (a : A) (f : A → X B) s : (check (Ok a) ≫= f) s = f a s.
Proof. done. Qed.

Definition ids_ok (IDs : list bytes) : Prop := Forall frag_ok IDs ∧ (length IDs < 256)%nat.

(** The header of a packet of the network. *)
Lemma push_network_header anno IDs body s : ids_ok IDs →
  LocalProxy_push 2 anno (counted (id_field <$> IDs) ++ body) s =
  (if bool_decide (IDs = [controlReliabilityScope]) then handleControlReliabilityNotification body else
   type ← check (data_byte body 0);
   if type =? PUBLISH_DATA then
     let d := drop 1 body in
     if bool_decide (IDs = [notificationIID (gc s)]) then handleRVNotification d;; emit (Kill Given)
     else if bool_decide (IDs = [pathMgmtIID]) then processTMNotification d
     else handleNetworkPublication IDs d PUBLISHED_DATA
   else if type =? PUBLISH_DATA_iSUB then
     let d := drop 1 body in
     nodeID ← check (data_read d 0 NODEID_LEN);
     forward ← storeActiveNode nodeID IDs;
     (if forward : bool then publishiReqToRV (hs_insert nodeID ht_empty) else mret ());;
     handleNetworkPublication IDs d PUBLISHED_DATA_iSUB
   else handleNetworkPublication IDs body PUBLISHED_DATA) s.
Proof.
  intros [HIDs Hn]. unfold LocalProxy_push, counted. change (2 =? 2) with true. cbv iota. unfold push_from_network.
  set (d := _ ++ _). unfold mbind at 1, M_bind at 1, gets at 1. cbv beta iota.
  rw (data_byte_at d [] (zlen IDs) (mjoin (id_field <$> IDs) ++ body) 0); [|by subst d; rw zlen_fmap|done].
  rw lift_check. assert (Z.to_nat (zlen IDs) = length IDs) as -> by (unfold zlen; lia).
  rw (read_ids_at IDs HIDs d [zlen IDs] body 1); [|by subst d; rw zlen_fmap|done]. rw lift_check.
  rw (drop_at d (zlen IDs :: mjoin (id_field <$> IDs)) body); [done|by subst d; rw zlen_fmap|done].
Qed.

(** ** Requests of local hosts *)

(** The host of a packet, which may be new. *)
Record got_host s (t : ELEMENTtype) (id : Z) h s' : Prop := {
  gh_wf : wf s';
  gh_index : ht_get id (local_pub_sub_Index s') = Some h;
  gh_live : live s' h;
  gh_known : is_Some (ht_get id (local_pub_sub_Index s)) → s' = s;
  gh_new : ht_get id (local_pub_sub_Index s) = None → hosts s !! h = None;
  gh_hosts : ∀ q, q ≠ h → hosts s' !! q = hosts s !! q;
  gh_pubs : activePublicationIndex s' = activePublicationIndex s;
  gh_subs : activeSubscriptionIndex s' = activeSubscriptionIndex s;
  gh_nodes : activeNodeIndex s' = activeNodeIndex s;
  gh_gc : gc s' = gc s;
  gh_out : out s' = out s;
}.

Definition new_local_host s (t : ELEMENTtype) (id : Z) : proxy :=
  set_index (ht_set id (next s) (local_pub_sub_Index s))
    (set_next (S (next s)) (set_hosts (<[next s := mkLH t id ht_empty ht_empty]> (hosts s)) s)).

Lemma fresh_next s : wf s → hosts s !! next s = None.
Proof.
  intros W. destruct (hosts s !! next s) as [y|] eqn:Hy; [|done].
  assert (live s (next s)) as Hl%(wf_next s W) by (by exists y). lia.
Qed.

Lemma new_local_host_wf s t id : wf s → ht_get id (local_pub_sub_Index s) = None → wf (new_local_host s t id).
Proof.
  intros W E. pose proof W as [H1 H2 H3 H4 H5 H6 H7 H8 H9]. set (x := mkLH t id ht_empty ht_empty).
  assert (hosts s !! next s = None) as Hfresh by (by apply fresh_next).
  assert (∀ q, q ≠ next s → <[next s := x]> (hosts s) !! q = hosts s !! q) as Hold.
  { intros q Hq. by rw lookup_insert_ne. }
  split; try done; cbn; fold x.
  - intros j q. rw ht_get_set. destruct (decide (q = next s)) as [->|Hq].
    + rw lookup_insert_eq. split.
      * case_decide; [subst; intros _; by exists x|]. intros (y & Hy & _)%H1. congruence.
      * intros (y & [= <-] & <-). by rw decide_True.
    + rw Hold // -H1. case_decide; [subst j|done]. rw E. split; congruence.
  - intros q [y Hy]. cbn in Hy. destruct (decide (q = next s)) as [->|Hq]; [lia|]. fold x in Hy. rw Hold // in Hy.
    assert (live s q) as Hl%H2 by (by exists y). lia.
  - intros q k. destruct (decide (q = next s)) as [->|Hq]; [|unfold host_pub; cbn; fold x; rw Hold //; apply H4].
    split; [intros (y & Hy & _)%H4; congruence|]. intros (y & Hy & Hin). cbn in Hy. rw lookup_insert_eq in Hy.
    injection Hy as <-. by apply hs_in_empty in Hin.
  - intros q k. destruct (decide (q = next s)) as [->|Hq]; [|unfold host_sub; cbn; fold x; rw Hold //; apply H6].
    split; [intros (y & Hy & _)%H6; congruence|]. intros (y & Hy & Hin). cbn in Hy. rw lookup_insert_eq in Hy.
    injection Hy as <-. by apply hs_in_empty in Hin.
  - intros q k [y Hy]%H8. unfold live. cbn. destruct (decide (q = next s)) as [->|Hq]; [by rw lookup_insert_eq|].
    rw lookup_insert_ne //.
Qed.

Lemma wp_getLocalHost s t id : wf s → wp (getLocalHost t id) (got_host s t id) s.
Proof.
  intros W. unfold getLocalHost. apply wp_bind, wp_gets. destruct (ht_get id (local_pub_sub_Index s)) as [h|] eqn:E.
  - apply wp_ret. split; try done; [apply (wf_index s W) in E as (x & ? & _); by exists x|congruence].
  - apply wp_bind, wp_gets, wp_bind, wp_modify, wp_bind, wp_modify, wp_ret.
    split; try done; cbn.
    + by apply new_local_host_wf.
    + by rw ht_get_set_eq.
    + unfold live. cbn. by rw lookup_insert_eq.
    + intros [? ?]. congruence.
    + intros _. by apply fresh_next.
    + intros q Hq. by rw lookup_insert_ne.
Qed.

Lemma fid_ok_RVFID strategy g : gc_ok g → fid_ok (RVFID_of strategy g).
Proof.
  intros [_ Hrv _]. unfold RVFID_of. destruct (strategy =? DOMAIN_LOCAL); [done|]. right.
  by destruct (BABitvector_make_zeros (Z.of_nat FID_LEN * 8)) as (? & -> & _).
Qed.

(** The types with a meaning of their own for [push]. *)
Definition is_request (type : Z) : Prop :=
  type ∉ [DISCONNECT; PUBLISH_DATA; PUBLISH_DATA_iSUB; PUBLISH_DATA_iMULTICAST].

Lemma push_request_run type ID prefix strategy h s : frag_ok ID → frag_ok prefix → wf s → live s h →
  id_ok (full_ID ID prefix) → (request_kind type = StartSub → full_ID ID prefix ≠ HTTP_DEFAULT_IID) →
  let d := request_bytes type ID prefix strategy in
  let fid := RVFID_of strategy (gc s) in
  ∃ r s', request_done s (request_kind type) h (full_ID ID prefix) strategy r s' ∧
    push_request type d h s = Ok ((), set_out (out s ++ [if r : bool then RV_event (gc s) fid Given d else Kill Given]) s').
Proof.
  intros HID Hp W Hh Hid Hhttp d fid. pose proof (wf_gc s W) as Hg. pose proof (fid_ok_RVFID strategy _ Hg) as Hf.
  destruct (wp_ok _ _ _ (wp_local_request s type h ID prefix strategy fid W Hh Hf Hid Hhttp)) as (r & s' & Er & Hdone).
  exists r, s'. split; [done|]. unfold push_request, d, request_bytes.
  rw (read_ID_at d [type] ID (id_field prefix ++ [strategy]) 1) // lift_check.
  rw (read_ID_at d ([type] ++ id_field ID) prefix [strategy] (2 + length ID)) // lift_check.
  rw (data_byte_at d ([type] ++ id_field ID ++ id_field prefix) strategy [] (2 + length ID + 1 + length prefix)); cycle 1.
  { unfold d, request_bytes. by rw -!app_assoc. }
  { rw !length_app !length_id_field. cbn. lia. }
  rw lift_check. unfold mbind, M_bind, gets. fold fid. rw Er.
  assert (gc s' = gc s) as Egc by apply (rd_rest _ _ _ _ _ _ _ Hdone). rw -(rd_out _ _ _ _ _ _ _ Hdone).
  destruct r; [|done]. rw -Egc. apply sends_request; [by rw Egc|done].
Qed.

(** A packet of a local host that is a request. *)
Lemma request_run in_port anno type ID prefix strategy s : in_port ≠ 2 → in_port ≠ 3 → is_request type →
  frag_ok ID → frag_ok prefix → wf s → id_ok (full_ID ID prefix) →
  (request_kind type = StartSub → full_ID ID prefix ≠ HTTP_DEFAULT_IID) →
  let d := request_bytes type ID prefix strategy in
  let fid := RVFID_of strategy (gc s) in
  let '(t, id) := if in_port =? 0 then (LOCAL_PROCESS, anno) else (CLICK_ELEMENT, in_port) in
  ∃ h s1 r s', got_host s t id h s1 ∧ request_done s1 (request_kind type) h (full_ID ID prefix) strategy r s' ∧
    LocalProxy_push in_port anno d s =
    Ok ((), set_out (out s ++ [if r : bool then RV_event (gc s) fid Given d else Kill Given]) s').
Proof.
  intros H2 H3 Hty HID Hp W Hid Hhttp d fid.
  set (who := if in_port =? 0 then _ else _). destruct who as [t id] eqn:Ewho.
  destruct (wp_ok _ _ _ (wp_getLocalHost s t id W)) as (h & s1 & Eh & Hgot).
  destruct (push_request_run type ID prefix strategy h s1 HID Hp (gh_wf _ _ _ _ _ Hgot) (gh_live _ _ _ _ _ Hgot) Hid Hhttp)
    as (r & s' & Hdone & Erun).
  exists h, s1, r, s'. split_and!; [done|done|]. rw (gh_gc _ _ _ _ _ Hgot) (gh_out _ _ _ _ _ Hgot) in Erun.
  unfold LocalProxy_push. rw (proj2 (Z.eqb_neq _ _) H2) (proj2 (Z.eqb_neq _ _) H3).
  assert ((if in_port =? 0 then getLocalHost LOCAL_PROCESS anno else getLocalHost CLICK_ELEMENT in_port) = getLocalHost t id) as ->.
  { subst who. destruct (in_port =? 0); by injection Ewho as <- <-. }
  unfold mbind at 1, M_bind at 1. rw Eh (data_byte_at d [] type (id_field ID ++ id_field prefix ++ [strategy]) 0) // lift_check.
  unfold is_request in Hty. assert (∀ t, t ∈ [DISCONNECT; PUBLISH_DATA; PUBLISH_DATA_iSUB; PUBLISH_DATA_iMULTICAST] → (type =? t) = false) as Hne.
  { intros u Hu. apply Z.eqb_neq. by intros ->. }
  rw (Hne DISCONNECT) ?(Hne PUBLISH_DATA) ?(Hne PUBLISH_DATA_iSUB) ?(Hne PUBLISH_DATA_iMULTICAST); [done|set_solver..].
Qed.

(** ** Data and requests of other nodes *)

(** A receiver's copy is among the deliveries. *)
Lemma deliveries_in s f hs d APItype h x : h ∈ hs → hosts s !! h = Some x →
  ∃ p, host_event x p (data_bytes APItype (f h) d) ∈ deliveries s f hs d APItype.
Proof.
  induction hs as [|q hs IH]; [set_solver|]. intros [<-|Hin]%elem_of_cons Hx; cbn.
  - rw Hx. eexists. apply elem_of_app. left. by apply list_elem_of_singleton.
  - destruct (IH Hin Hx) as [p Hp]. exists p. apply elem_of_app. by right.
Qed.

Lemma network_copies_in s IDs hs d APItype h x : h ∈ hs → hosts s !! h = Some x →
  ∃ p, host_event x p (data_bytes APItype (default [] (told s h IDs)) d) ∈ network_copies s IDs hs d APItype.
Proof.
  intros Hin Hx. unfold network_copies. pose proof (deliveries_in s (λ h, default [] (told s h IDs)) hs d APItype h x Hin Hx) as H.
  by destruct hs; [set_solver|].
Qed.

Lemma told_single s h k : hears s h k → told s h [k] = Some k.
Proof. intros H. rw told_cons. cbn. by rw decide_True. Qed.

(** What goes to hosts: a packet of the network that is not for the proxy
    itself. *)
Lemma network_data_run anno IDs body s : wf s → Forall id_ok IDs → (length IDs < 256)%nat →
  IDs ∉ [[controlReliabilityScope]; [notificationIID (gc s)]; [pathMgmtIID]] →
  ∃ hs, receivers s None IDs hs ∧
    sends (LocalProxy_push 2 anno (counted (id_field <$> IDs) ++ PUBLISH_DATA :: body)) () (network_copies s IDs hs body PUBLISHED_DATA) s.
Proof.
  intros W HIDs Hn Hne. destruct (sends_network s IDs body PUBLISHED_DATA W HIDs) as (hs & Hr & Hs). exists hs. split; [done|].
  unfold sends. rw push_network_header; [|split; [eapply Forall_impl; [exact HIDs|apply id_ok_frag]|done]].
  rw bool_decide_eq_false_2; [|set_solver]. change (data_byte (PUBLISH_DATA :: body) 0) with (Ok PUBLISH_DATA). rw lift_check.
  change (PUBLISH_DATA =? PUBLISH_DATA) with true. cbv iota zeta. rw !bool_decide_eq_false_2; [exact Hs|set_solver..].
Qed.

Lemma network_request_run anno k type ID prefix strategy s : wf s → id_ok k → k ≠ controlReliabilityScope → is_request type →
  ∃ hs, receivers s None [k] hs ∧
    sends (LocalProxy_push 2 anno (counted (id_field <$> [k]) ++ request_bytes type ID prefix strategy)) ()
      (network_copies s [k] hs (request_bytes type ID prefix strategy) PUBLISHED_DATA) s.
Proof.
  intros W Hk Hne Hty. assert (Forall id_ok [k]) as HIDs by by constructor. unfold is_request in Hty.
  destruct (sends_network s [k] (request_bytes type ID prefix strategy) PUBLISHED_DATA W HIDs) as (hs & Hr & Hs). exists hs. split; [done|].
  unfold sends. rw push_network_header; [|split; [constructor; [by apply id_ok_frag|done]|cbn; lia]].
  rw bool_decide_eq_false_2; [|by intros [= ->]].
  change (data_byte (request_bytes type ID prefix strategy) 0) with (Ok type). rw lift_check.
  assert ((type =? PUBLISH_DATA) = false ∧ (type =? PUBLISH_DATA_iSUB) = false) as [-> ->]; [|exact Hs].
  split; apply Z.eqb_neq; intros ->; set_solver.
Qed.
End rendezvous.
