(* ===== verification/ProxySafety.v ===== *)
(** * The LocalProxy under any input

    Whatever bytes arrive, in whatever order, no handler of the proxy uses a
    null or deleted pointer, and the invariant is kept, outside the cases that
    [trusted] names.  A packet may end before the fields that are read from it;
    the source does not test that, and the lemmas here allow it: [wps]. *)

From S2P Require Import Prelude Enums HashTable BitVector Packet GlobalConf RvStore RvMessages LocalRV RvSafety.
From S2P Require Import ProxyStore LocalProxy ProxyInvariant ProxyRequests ProxyMessages ProxyDisconnect ProxyDelivery ProxyRendezvous.

Create HintDb oob.
Create HintDb quiet.

Section safety.
Context `{CT : ClickTables}.
Implicit Types (s : proxy) (h : ptr) (k : bytes).

(** ** Runs that may end at the end of a packet *)

Definition bounds_fault (f : fault) : Prop := f = OutOfBounds ∨ f = OutOfRange.

Definition wps {A} (m : X A) (Q : A → proxy → Prop) s : Prop :=
  match m s with Ok (a, s') => Q a s' | Fault f => bounds_fault f end.
(** A computation that only fails in this way. *)
Definition oob {A} (r : res A) : Prop := ∀ f, r = Fault f → bounds_fault f.

Lemma wps_ret {A} (a : A) (Q : A → proxy → Prop) s : Q a s → wps (mret a) Q s.
Proof. done. Qed.
Lemma wps_bind {A B} (m : X A) (f : A → X B) Q s : wps m (λ a s', wps (f a) Q s') s → wps (m ≫= f) Q s.
Proof. unfold wps, mbind, M_bind. by destruct (m s) as [[a s']|]. Qed.
Lemma wps_mono {A} (m : X A) (Q Q' : A → proxy → Prop) s : wps m Q s → (∀ a s', Q a s' → Q' a s') → wps m Q' s.
Proof. unfold wps. destruct (m s) as [[a s']|]; eauto. Qed.
Lemma wp_wps {A} (m : X A) (Q : A → proxy → Prop) s : wp m Q s → wps m Q s.
Proof. unfold wp, wps. by destruct (m s) as [[a s']|]. Qed.
Lemma wps_gets {A} (f : proxy → A) (Q : A → proxy → Prop) s : Q (f s) s → wps (gets f) Q s.
Proof. done. Qed.
Lemma wps_modify f (Q : () → proxy → Prop) s : Q () (f s) → wps (modify f) Q s.
Proof. done. Qed.
Lemma wps_check {A} (r : res A) (Q : A → proxy → Prop) s : oob r → (∀ a, r = Ok a → Q a s) → wps (check r) Q s.
Proof. unfold wps, check, oob. destruct r; eauto. Qed.

Lemma wps_mfor {A} (I : proxy → Prop) (l : list A) (body : A → X ()) s :
  I s → (∀ x s, x ∈ l → I s → wps (body x) (λ _, I) s) → wps (mfor l body) (λ _, I) s.
Proof.
  revert s. induction l as [|x l IH]; intros s H0 Hstep; [done|].
  apply wps_bind. eapply wps_mono; [apply Hstep; [set_solver|done]|].
  intros [] s' HI. apply IH; [done|]. intros. apply Hstep; [set_solver|done].
Qed.

(** ** Reading and building *)

Lemma oob_ok {A} (a : A) : oob (Ok a).
Proof. by intros f. Qed.
Lemma oob_bind {A B} (r : res A) (f : A → res B) : oob r → (∀ a, r = Ok a → oob (f a)) → oob (r ≫= f).
Proof. intros H1 H2 e. destruct r as [a|e']; cbn; [by apply H2|]. intros [= ->]. by apply H1. Qed.
Lemma oob_bounds {A} : oob (@Fault A OutOfBounds).
Proof. intros f [= <-]. by left. Qed.
Lemma oob_if {A} (b : bool) (x y : res A) : oob x → oob y → oob (if b then x else y).
Proof. by destruct b. Qed.

Lemma oob_byte d off : oob (data_byte d off).
Proof. unfold data_byte, or_fault. destruct (d !! off); [apply oob_ok|apply oob_bounds]. Qed.
Lemma oob_read d off n : oob (data_read d off n).
Proof. apply oob_if; [apply oob_ok|apply oob_bounds]. Qed.
Lemma oob_c_str t n : oob (c_str_read t n).
Proof. apply oob_if; [apply oob_ok|apply oob_bounds]. Qed.
Lemma oob_FID f : oob (FID_read f).
Proof. apply oob_if; [apply oob_ok|apply oob_bounds]. Qed.

Lemma oob_put chunks : ∀ off p, oob (packet_put_all off chunks p).
Proof.
  induction chunks as [|c chunks IH]; intros off p; [apply oob_ok|].
  apply oob_bind; [apply oob_if; [apply oob_ok|apply oob_bounds]|]. intros q _. apply IH.
Qed.
Lemma oob_build len chunks : oob (build len chunks).
Proof. apply oob_put. Qed.

Lemma oob_nodes l : oob (node_chunks l).
Proof.
  induction l as [|x l IH]; [apply oob_ok|]. apply oob_bind; [apply oob_c_str|]. intros y _.
  apply oob_bind; [done|]. intros r _. apply oob_ok.
Qed.

Lemma oob_ids n : ∀ d off, oob (read_ids d off n).
Proof.
  induction n as [|n IH]; intros d off; [apply oob_ok|]. apply oob_bind; [apply oob_byte|]. intros b _.
  apply oob_bind; [apply oob_read|]. intros k _. apply oob_bind; [apply IH|]. intros [IDs e] _. apply oob_ok.
Qed.

Lemma oob_ID d off : oob (read_ID d off).
Proof. apply oob_bind; [apply oob_byte|]. intros b _. apply oob_read. Qed.

Lemma oob_node_list n : ∀ d off acc, oob (read_nodes d off n acc).
Proof.
  induction n as [|n IH]; intros d off acc; [apply oob_ok|]. apply oob_bind; [apply oob_read|]. intros x _. apply IH.
Qed.

Lemma oob_loop f n : ∀ data o, oob (word_loop f n data o).
Proof.
  induction n as [|n IH]; intros [|d data] [|w o]; try apply oob_ok; try apply oob_bounds.
  apply oob_bind; [apply IH|]. intros r _. apply oob_ok.
Qed.
Lemma oob_fill f n : ∀ data, oob (word_fill f n data).
Proof.
  induction n as [|n IH]; intros [|d data]; try apply oob_ok; try apply oob_bounds.
  apply oob_bind; [apply IH|]. intros r _. apply oob_ok.
Qed.
Lemma oob_negate b : oob (BABitvector_negate b).
Proof. apply oob_bind; [apply oob_fill|]. intros d _. apply oob_ok. Qed.
Lemma oob_and a b : oob (BABitvector_and_assign a b).
Proof.
  apply oob_bind; [apply oob_if; [apply oob_ok|apply oob_bounds]|]. intros [] _.
  apply oob_bind; [apply oob_loop|]. intros d _. apply oob_ok.
Qed.
Lemma oob_or a b : oob (BABitvector_or_assign a b).
Proof. apply oob_bind; [apply oob_loop|]. intros d _. apply oob_ok. Qed.
Lemma oob_affects a b : oob (affects a b).
Proof. apply oob_bind; [apply oob_and|]. intros d _. apply oob_ok. Qed.
Lemma oob_invalidate a ap : oob (invalidate a ap).
Proof.
  apply oob_if; [|apply oob_ok]. apply oob_bind; [apply oob_affects|]. intros m _. apply oob_ok.
Qed.
Lemma oob_join l : ∀ f, oob (join_FIDs l f).
Proof.
  induction l as [|[an|] l IH]; intros f; [apply oob_ok| |apply IH]. apply oob_bind; [apply oob_or|]. intros g _. apply IH.
Qed.
Lemma oob_failed g d IDs off : oob (failed_request g d IDs off).
Proof.
  apply oob_if; [|apply oob_ok]. apply oob_bind; [apply oob_byte|]. intros b _. apply oob_bind; [apply oob_read|]. intros k _.
  apply oob_bind; [apply oob_byte|]. intros n _. apply oob_if; [intros f [= <-]; by right|].
  apply oob_bind; [apply oob_read|]. intros q _. apply oob_bind; [apply oob_byte|]. intros st _. apply oob_ok.
Qed.

#[local] Hint Resolve oob_byte oob_read oob_c_str oob_FID oob_build oob_nodes oob_ids oob_ID oob_node_list
  oob_negate oob_affects oob_invalidate oob_join oob_failed : oob.

(** One step; a read or a packet that is built may end the run. *)
Ltac wps_step :=
  lazymatch goal with
  | |- wps (mret _) _ _ => apply wps_ret
  | |- wps (_ ≫= _) _ _ => apply wps_bind
  | |- wps (gets _) _ _ => apply wps_gets
  | |- wps (modify _) _ _ => apply wps_modify
  | |- wps (emit _) _ _ => apply wps_modify
  | |- wps (find_pub _) _ _ => apply wps_gets
  | |- wps (find_sub _) _ _ => apply wps_gets
  | |- wps (find_node _) _ _ => apply wps_gets
  | |- wps (check _) _ _ => apply wps_check; [solve [auto with oob]|intros ? ?]
  end; cbv beta.
Ltac wps_steps := repeat wps_step.

(** ** What only sends *)

Definition quiet {A} (m : X A) s : Prop := wps m (λ _ s', ∃ o, s' = set_out o s) s.

Lemma quiet_here s : ∃ o, s = set_out o s.
Proof. exists (out s). by destruct s. Qed.
Lemma quiet_emitted e s : ∃ o, set_out (out s ++ [e]) s = set_out o s.
Proof. by eexists. Qed.
#[local] Hint Resolve quiet_here quiet_emitted : quiet.

Lemma quiet_seq {A} (m : X ()) (k : X A) s : quiet m s → (∀ o, quiet k (set_out o s)) → quiet (m;; k) s.
Proof.
  intros H1 H2. apply wps_bind. eapply wps_mono; [exact H1|]. intros [] s1 [o ->].
  eapply wps_mono; [apply H2|]. intros a s2 [o' ->]. by exists o'.
Qed.
Lemma quiet_if {A} (b : bool) (m n : X A) s : quiet m s → quiet n s → quiet (if b then m else n) s.
Proof. by destruct b. Qed.
Lemma quiet_mfor {A} (l : list A) body s : (∀ x o, x ∈ l → quiet (body x) (set_out o s)) → quiet (mfor l body) s.
Proof.
  intros H. apply wps_mfor; [apply quiet_here|]. intros x s1 Hx [o ->].
  eapply wps_mono; [by apply H|]. intros [] s2 [o' ->]. by exists o'.
Qed.
Lemma quiet_emit e s : quiet (emit e) s.
Proof. apply quiet_emitted. Qed.

Lemma quiet_push h p d s : live s h → quiet (push_to_host h p d) s.
Proof.
  intros [x Hx]. apply wps_bind, wp_wps. eapply wp_read_host; [done|]. destruct (lh_type x); apply quiet_emitted.
Qed.
Lemma quiet_notify type h k s : live s h → quiet (sendNotificationLocally type h k) s.
Proof. intros H. unfold quiet, sendNotificationLocally. wps_steps. by apply quiet_push. Qed.
Lemma quiet_remote IDs type f p d s : (∀ t, type = Some t → t = PUBLISH_DATA ∨ t = PUBLISH_DATA_iSUB) →
  quiet (pushDataToRemoteSubscribers IDs type f p d) s.
Proof.
  intros Hty. unfold quiet, pushDataToRemoteSubscribers. wps_steps. destruct type as [type|].
  - destruct (Hty type eq_refl) as [->| ->]; cbn [Z.eqb PUBLISH_DATA PUBLISH_DATA_iSUB Pos.eqb]; wps_steps; by eexists.
  - wps_steps. by eexists.
Qed.
Lemma quiet_to_RV p d f s : quiet (publishReqToRV p d f) s.
Proof. unfold quiet, publishReqToRV. wps_steps. destruct (to_local_RV _ _); wps_steps; by eexists. Qed.
Lemma quiet_iSUB t s : quiet (publishiReqToRV t) s.
Proof. unfold quiet, publishiReqToRV. wps_steps. by eexists. Qed.

(** ** Data *)


Lemma quiet_loop l d APItype s : Forall (λ e, live s e.1) l → quiet (push_locally l d APItype) s.
Proof.
  enough (∀ o, Forall (λ e, live s e.1) l → quiet (push_locally l d APItype) (set_out o s)) as Hg.
  { intros Hl. specialize (Hg (out s) Hl). by destruct s. }
  intros o Hl. revert o. induction Hl as [|[h k] l Hh _ IH]; intros o; [apply quiet_here|].
  cbn [push_locally]. apply quiet_seq; [by apply quiet_push|]. intros o'. apply (IH o').
Qed.

Lemma quiet_find IDs (Q : PH bytes → X ()) s : wf s →
  (∀ t, (∀ h, is_Some (ht_get h t) → live s h) → quiet (Q t) s) → quiet (t ← findLocalSubscribers IDs ht_empty; Q t) s.
Proof.
  intros W H. destruct (find_receivers s IDs) as (t & Et & Ht & Hr & _). apply wps_bind. unfold wps at 1. rw Et.
  apply H. intros h Hh. eapply receivers_live; [done|exact Hr|]. by apply elem_of_ht_keys.
Qed.

Lemma elems_live s (t : PH bytes) : (∀ h, is_Some (ht_get h t) → live s h) → Forall (λ e, live s e.1) (ht_elems t).
Proof. intros H. apply Forall_forall. intros [h k] Hin%ht_elem_get. apply H. by eexists. Qed.

Lemma keys_live s (t : PH bytes) h0 k : (∀ h, is_Some (ht_get h t) → live s h) →
  Forall (λ e, live s e.1) ((λ h, (h, k)) <$> ht_keys (ht_erase h0 t)).
Proof.
  intros H. apply Forall_fmap, Forall_forall. intros h Hh%elem_of_ht_keys. cbn. apply H. rw ht_get_erase in Hh.
  by case_decide; [destruct Hh|].
Qed.

Lemma quiet_network IDs d APItype s : wf s → quiet (handleNetworkPublication IDs d APItype) s.
Proof.
  intros W. apply quiet_find; [done|]. intros t Ht. destruct (ht_is_empty t); [apply quiet_emit|].
  by apply quiet_loop, elems_live.
Qed.

Definition sendable (type : option Z) : Prop := ∀ t, type = Some t → t = PUBLISH_DATA ∨ t = PUBLISH_DATA_iSUB.

Lemma quiet_user k type d h APItype s : wf s → live s h → sendable type →
  quiet (handleUserPublication k type d h APItype) s.
Proof.
  intros W Hh Hty. unfold quiet, handleUserPublication. apply wps_bind, wps_gets, wps_bind.
  destruct (ht_get k (activePublicationIndex s)) as [ap|]; [apply wps_ret|apply wps_gets;
    destruct (ht_get (prefix_of k) (activePublicationIndex s)) as [ap|]; [|apply quiet_emit]]; cbv zeta iota;
    (match goal with |- wps ?m _ ?s => change (quiet m s) end; apply quiet_if; [|apply quiet_if; [by apply quiet_notify|];
      apply quiet_if; [by apply quiet_notify|apply quiet_if; [apply quiet_here|apply quiet_emit]]];
    apply wps_bind, wps_gets, quiet_find; [done|]; intros t Ht; pose proof (keys_live s t h k Ht) as Hl;
    destruct (ht_keys (ht_erase h t)); destruct (negb _); try apply quiet_emit; try (by apply quiet_remote); [|by apply quiet_loop];
    apply quiet_seq; [by apply quiet_remote|]; intros o; by apply quiet_loop).
Qed.

Lemma quiet_known k (Q : list bytes → X ()) s : (∀ IDs, quiet (Q IDs) s) → quiet (IDs ← known_IDs k; Q IDs) s.
Proof. intros H. unfold quiet, known_IDs. wps_steps. apply H. Qed.

Lemma quiet_beside IDs type FID d s : sendable type → quiet (push_beside IDs type FID d) s.
Proof. intros H. unfold quiet, push_beside. wps_steps. destruct (_ && _); [apply quiet_here|by apply quiet_remote]. Qed.

Lemma quiet_path k type FID d h APItype s : wf s → sendable type →
  quiet (handleUserPublicationFID k type FID d h APItype) s.
Proof.
  intros W Hty. apply quiet_known. intros IDs. apply quiet_find; [done|]. intros t Ht.
  pose proof (keys_live s t h k Ht) as Hl. cbv zeta. destruct (ht_keys (ht_erase h t)); [by apply quiet_remote|].
  apply quiet_seq; [by apply quiet_beside|]. intros o. by apply quiet_loop.
Qed.

(** The first half of [handleUserTMPublication]. *)
Definition TM_publication k type FID d h : X () :=
  IDs ← known_IDs k;
  t ← findLocalSubscribers IDs ht_empty;
  match ht_keys (ht_erase h t) with
  | [] => pushDataToRemoteSubscribers IDs (Some type) FID Given d
  | _ => push_beside IDs (Some type) FID d
  end.

(** ** What changes the state *)

(** The invariant is kept, and no host is deleted. *)
Definition steps s s' : Prop := wf s' ∧ ∀ h, live s h → live s' h.
Definition safe {A} (m : X A) s : Prop := wps m (λ _, steps s) s.

Lemma steps_refl s : wf s → steps s s.
Proof. by split. Qed.
Lemma steps_trans s1 s2 s3 : steps s1 s2 → steps s2 s3 → steps s1 s3.
Proof. intros [_ H1] [W H2]. split; [done|]. auto. Qed.
Lemma steps_out s o : wf s → steps s (set_out o s).
Proof. intros W. by split; [apply wf_out|]. Qed.

Lemma safe_quiet {A} (m : X A) s : wf s → quiet m s → safe m s.
Proof. intros W H. eapply wps_mono; [exact H|]. intros a s' [o ->]. by apply steps_out. Qed.
Lemma safe_bind {A B} (m : X A) (f : A → X B) s : safe m s → (∀ a s1, steps s s1 → safe (f a) s1) → safe (m ≫= f) s.
Proof.
  intros H1 H2. apply wps_bind. eapply wps_mono; [exact H1|]. intros a s1 Hs.
  eapply wps_mono; [by apply H2|]. intros b s2. by apply steps_trans.
Qed.
Lemma safe_mfor {A} (l : list A) body s : wf s → (∀ x s1, x ∈ l → steps s s1 → safe (body x) s1) → safe (mfor l body) s.
Proof.
  intros W H. apply wps_mfor; [by apply steps_refl|]. intros x s1 Hx Hs.
  eapply wps_mono; [by apply H|]. intros b s2. by apply steps_trans.
Qed.
Lemma safe_if {A} (b : bool) (m n : X A) s : safe m s → safe n s → safe (if b then m else n) s.
Proof. by destruct b. Qed.
Lemma safe_ret {A} (a : A) s : wf s → safe (mret a) s.
Proof. intros W. by apply steps_refl. Qed.
Lemma safe_check {A B} (r : res A) (f : A → X B) s : oob r → (∀ a, r = Ok a → safe (f a) s) → safe (a ← check r; f a) s.
Proof. intros Ho H. apply wps_bind, wps_check; [done|]. exact H. Qed.

(** The packet is still there after [m]. *)
Definition keeps_packet (m : X ()) s : Prop :=
  ∀ s', m s = Ok ((), s') → existsb uses_given (drop (length (out s)) (out s')) = false.

Lemma wps_and_again {A} (m : X ()) (k : X A) Q s : quiet m s → keeps_packet m s → (∀ o, wps k Q (set_out o s)) →
  wps (and_again m k) Q s.
Proof.
  intros H1 H2 H3. unfold quiet, wps, keeps_packet in H1, H2. unfold and_again, wps, mbind, M_bind, gets.
  destruct (m s) as [[[] s1]|]; [|done]. rw (H2 s1 eq_refl). destruct H1 as [o ->]. apply H3.
Qed.

Lemma safe_upd_pub s k f : wf s → (∀ ap, ht_get k (activePublicationIndex s) = Some ap → pub_change k f ap) →
  safe (upd_pub k f) s.
Proof. intros W Hf. split; [by apply wf_upd_pub|done]. Qed.


Lemma wps_mfor_pos {A} (I : list A → proxy → Prop) (l : list A) (body : A → X ()) s :
  I l s → (∀ x t s, I (x :: t) s → wps (body x) (λ _, I t) s) → wps (mfor l body) (λ _, I []) s.
Proof.
  intros H0 Hstep. revert s H0. induction l as [|x l IH]; intros s H0; [done|].
  apply wps_bind. eapply wps_mono; [by apply Hstep|]. intros [] s'. apply IH.
Qed.

(** The loops over all entries of the publications: those to come are as they
    were. *)
Definition to_come s (l : list (bytes * ActivePublication)) s1 : Prop :=
  steps s s1 ∧ NoDup l.*1 ∧ ∀ k ap, (k, ap) ∈ l → ht_get k (activePublicationIndex s1) = Some ap.

Lemma to_come_all s : wf s → to_come s (ht_elems (activePublicationIndex s)) s.
Proof. intros W. split_and!; [by apply steps_refl|apply ht_elems_nodup|]. intros k ap. by rw ht_elem_get. Qed.

Lemma to_come_step s k ap l s1 s2 : to_come s ((k, ap) :: l) s1 → steps s1 s2 →
  (∀ j, j ≠ k → ht_get j (activePublicationIndex s2) = ht_get j (activePublicationIndex s1)) → to_come s l s2.
Proof.
  intros (S & Hnd & Hl) S2 Hj. cbn in Hnd. apply NoDup_cons in Hnd as [Hk Hnd].
  split_and!; [by eapply steps_trans|done|]. intros j ap' Hin. rw Hj; [apply Hl; set_solver|].
  intros ->. apply Hk. apply list_elem_of_fmap. by exists (k, ap').
Qed.

(** ** Paths *)

Lemma get_change_publishers f (t : PH Z) h : ht_get h (change_publishers f t) = f <$> ht_get h t.
Proof.
  unfold change_publishers. assert (∀ l (t : PH Z), NoDup l →
    ht_get h (foldl (λ t h, ht_alter f h t) t l) = if decide (h ∈ l) then f <$> ht_get h t else ht_get h t) as Hg.
  { intros l t' Hnd. revert t'. induction Hnd as [|q l Hq Hnd IH]; intros t'; cbn [foldl]; [case_decide; [set_solver|done]|].
    rw IH ht_get_alter. repeat case_decide; subst; set_solver. }
  rw Hg; [|apply ht_keys_nodup]. case_decide as E; [done|]. rw elem_of_ht_keys -eq_None_not_Some in E. by rw E.
Qed.

Lemma pub_ok_change k ap f g : pub_ok k ap → fid_ok f → (∀ st, g st ≠ STOP_PUBLISH → st ≠ STOP_PUBLISH) →
  pub_change k (λ ap, ap_with_publishers (change_publishers g (ap_publishers ap)) (ap_with_FID f ap)) ap.
Proof.
  intros Hok Hf Hg. assert (∀ q, is_Some (ht_get q (change_publishers g (ap_publishers ap))) ↔ is_Some (ht_get q (ap_publishers ap))) as Hq.
  { intros q. rw get_change_publishers. apply fmap_is_Some. }
  split; [|done]. apply pub_ok_publishers; [by apply pub_change_FID| |].
  - destruct (po_some _ _ Hok) as [h Hh]. exists h. by apply Hq.
  - intros h st. rw get_change_publishers. destruct (ht_get h (ap_publishers ap)) as [v|] eqn:E; [|done].
    intros [= <-] Hst. apply (po_known _ _ Hok h v E). auto.
Qed.

Lemma fid_ok_empty : fid_ok BABitvector_empty.
Proof. by left. Qed.
Lemma fid_ok_make : fid_ok (BABitvector_make (Z.of_nat FID_LEN * 8)).
Proof. right. by destruct (BABitvector_make_zeros (Z.of_nat FID_LEN * 8)) as (? & -> & _). Qed.

Lemma invalidate_change a ap ap' k : invalidate a ap = Ok (Some ap') → pub_ok k ap → pub_change k (λ _, ap') ap.
Proof.
  unfold invalidate. destruct (_ && _); [|done]. destruct (affects _ _) as [[]|]; cbn; try done.
  intros [= <-] Hok. apply (pub_ok_change k ap BABitvector_empty republish_state); [done|apply fid_ok_empty|].
  intros st. unfold republish_state. destruct (Z.eqb_spec st START_PUBLISH) as [->|]; done.
Qed.

Lemma safe_TM d s : wf s → safe (processTMNotification d) s.
Proof.
  intros W. apply safe_check; [auto with oob|]. intros b _.
  apply safe_bind; [by apply safe_quiet, quiet_emit|]. intros [] s1 [W1 _]. apply wps_bind, wps_gets.
  apply safe_bind.
  - eapply wps_mono; [apply (wps_mfor_pos (to_come s1)); [by apply to_come_all|]|by intros [] s2 [? _]].
    intros [k ap] t s2 Hc. pose proof Hc as ([W2 _] & _ & Hl). specialize (Hl k ap ltac:(set_solver)).
    apply wps_bind, wps_check; [auto with oob|]. intros [ap'|] Hr.
    + apply wps_modify. eapply to_come_step; [done| |].
      * apply safe_upd_pub; [done|]. intros ap2. rw Hl. intros [= <-]. eapply invalidate_change; [done|by apply (wf_pubs s2 W2)].
      * intros j Hj. cbn. by rw ht_get_alter decide_False.
    + apply wps_ret. eapply to_come_step; [done|by apply steps_refl|done].
  - intros [] s2 [W2 _]. apply wps_bind, wps_gets. apply safe_bind.
    + enough (∀ l acc, safe (mfoldl (λ acc an, m ← check (affects (FID_of_bytes b) (an_FID_to_node an));
        mret (if m : bool then hs_insert (an_nodeID an) acc else acc)) acc l) s2) as H by apply H.
      induction l as [|an l IH]; intros acc; [by apply safe_ret|]. apply wps_bind, wps_bind, wps_check; [auto with oob|].
      intros m _. apply wps_ret. apply IH.
    + intros acc s3 [W3 _]. apply safe_if; [by apply safe_ret|]. by apply safe_quiet, quiet_iSUB.
Qed.

(** ** Nodes *)

Lemma wf_nodes_changed s t : wf s → (∀ k an, ht_get k t = Some an → node_ok k an) →
  (∀ k an h, ht_get k t = Some an → is_Some (ht_get h (an_publishers an)) → live s h) → wf (set_nodes t s).
Proof. intros [H1 H2 H3 H4 H5 H6 H7 H8 H9] Hok Hl. split; try done. intros h k (an & Han & Hh). by eapply Hl. Qed.

Lemma safe_upd_node s k f : wf s → (∀ an, ht_get k (activeNodeIndex s) = Some an → node_ok k (f an) ∧
  ∀ q, is_Some (ht_get q (an_publishers (f an))) → is_Some (ht_get q (an_publishers an))) → safe (upd_node k f) s.
Proof.
  intros W Hf. split; [|done]. apply wf_nodes_changed; [done|..].
  - intros j an. rw ht_get_alter. case_decide as E; [subst j|apply (wf_nodes s W)].
    destruct (ht_get k _) as [a|]; [|done]. intros [= <-]. by apply Hf.
  - intros j an h. rw ht_get_alter. case_decide as E; [subst j|].
    + destruct (ht_get k (activeNodeIndex s)) as [a|] eqn:Ha; [|done]. intros [= <-] Hh. apply Hf in Hh; [|done].
      apply (wf_node s W h k). by exists a.
    + intros Han Hh. apply (wf_node s W h j). by exists an.
Qed.

Lemma node_ok_FID k an f : fid_ok f → node_ok k an → node_ok k (an_with_FID f an).
Proof. intros Hf []. by split. Qed.

Lemma is_byte_read d off n b : Forall is_byte d → data_read d off n = Ok b → Forall is_byte b ∧ length b = n.
Proof.
  intros Hd. unfold data_read. destruct (Nat.leb_spec (off + n) (length d)); [|done]. intros [= <-]. split.
  - by apply Forall_take, Forall_drop.
  - rw length_take length_drop. lia.
Qed.

Lemma fid_ok_bytes d off b : Forall is_byte d → data_read d off FID_LEN = Ok b → fid_ok (FID_of_bytes b).
Proof. intros Hd [Hb Hl]%is_byte_read; [|done]. right. split; [apply FID_of_bytes_wf; [by rw Hl|done]|done]. Qed.

Lemma safe_update_nodes n : ∀ d off s, Forall is_byte d → wf s → safe (update_nodes d off n) s.
Proof.
  induction n as [|n IH]; intros d off s Hd W; [by apply safe_ret|]. cbn [update_nodes].
  apply safe_check; [auto with oob|]. intros k _. apply safe_check; [auto with oob|]. intros b Hb.
  pose proof (fid_ok_bytes _ _ _ Hd Hb) as Hf. apply wps_bind, wps_gets. apply safe_bind; [|intros [] s1 [W1 _]; by apply IH].
  destruct (ht_get k (activeNodeIndex s)) as [an|] eqn:Han; [|by apply safe_ret].
  apply safe_bind.
  { apply safe_upd_node; [done|]. intros an' H. split; [|done]. by apply node_ok_FID, (wf_nodes s W). }
  intros [] s1 [W1 L1]. destruct (ht_first (an_publishers an)) as [h|] eqn:Hh; [|by apply safe_ret].
  assert (live s1 h) as Hl1.
  { apply L1, (wf_node s W h k). exists an. split; [done|]. by apply ht_first_Some. }
  apply safe_bind.
  - apply safe_upd_node; [done|]. intros an' H. split; [by destruct (wf_nodes s1 W1 _ _ H)|]. intros q. cbn. by rw ht_is_Some_alter.
  - intros [] s2 [W2 L2]. apply safe_quiet; [done|]. apply quiet_notify. auto.
Qed.

Lemma safe_storeActiveNode k IDs s : wf s → length k = NODEID_LEN → safe (storeActiveNode k IDs) s.
Proof.
  intros W Hk. destruct (find_receivers s IDs) as (t & Et & _ & Hr & _). apply wps_bind. unfold wps at 1. rw Et.
  apply wps_bind, wps_gets. destruct (ht_get k (activeNodeIndex s)) as [an|]; [by apply safe_ret|].
  apply wps_bind, wps_modify, wps_ret. split; [|done]. apply wf_nodes_changed; [done|..].
  - intros j an. rw ht_get_set. case_decide as E; [subst j|apply (wf_nodes s W)]. intros [= <-].
    split; [done|done|apply fid_ok_make].
  - intros j an h. rw ht_get_set. case_decide as E; [subst j|intros Han Hh; apply (wf_node s W h j); by exists an].
    intros [= <-]. cbn. intros Hh. eapply receivers_live; [done|exact Hr|]. revert Hh.
    assert (∀ l (t : PH Z), is_Some (ht_get h (foldl (λ t h, ht_find_insert h STOP_PUBLISH_iSUB t) t l)) → h ∈ l ∨ is_Some (ht_get h t)) as Hg.
    { induction l as [|q l IH]; intros t0; cbn [foldl]; [by right|]. intros [Hin|Hin]%IH; [left; set_solver|].
      rw ht_get_find_insert in Hin. destruct (ht_get h t0); [by right|]. case_decide; [left; set_solver|by destruct Hin]. }
    intros [Hin|Hin]%Hg; [done|]. rw ht_get_empty in Hin. by destruct Hin.
Qed.

(** ** Notifications of the rendezvous element *)

Lemma safe_notify type h k s : wf s → live s h → safe (sendNotificationLocally type h k) s.
Proof. intros W Hh. apply safe_quiet; [done|]. by apply quiet_notify. Qed.

Lemma safe_notify_scopes type IDs s : wf s → safe (notify_scopes type IDs) s.
Proof.
  intros W. apply safe_mfor; [done|]. intros k s1 _ [W1 _]. unfold findActiveSubscriptions. apply wps_bind, wps_bind, wps_gets, wps_ret.
  apply safe_mfor; [done|]. intros h s2 Hh [W2 L2]. apply safe_notify; [done|]. apply L2.
  destruct (ht_get (prefix_of k) (activeSubscriptionIndex s1)) as [a|] eqn:Ha; [|apply elem_of_ht_keys in Hh; rw ht_get_empty in Hh; by destruct Hh].
  destruct (as_isScope a); [|apply elem_of_ht_keys in Hh; rw ht_get_empty in Hh; by destruct Hh].
  apply hs_in_keys, hs_in_insert_all in Hh as [Hh|Hh]; [|by apply hs_in_empty in Hh].
  apply (subscribes_live s1 h (prefix_of k) W1). rw (subscribes_at s1 h _ a Ha). by apply hs_in_keys.
Qed.

Lemma first_live s k ap h : wf s → ht_get k (activePublicationIndex s) = Some ap → ht_first (ap_publishers ap) = Some h → live s h.
Proof. intros W Hap Hh. apply (publishes_live s h k W). rw (publishes_at s h k ap Hap). by apply ht_first_Some. Qed.

(** The publications of [IDs] have identifiers to send data under. *)
Definition all_known s (IDs : list bytes) : Prop :=
  ∀ k ap, k ∈ IDs → ht_get k (activePublicationIndex s) = Some ap → ap_allKnownIDs ap ≠ [].

Lemma safe_learn IDs f s : wf s → fid_ok f → wps (mfor IDs (learn IDs f)) (λ _ s', steps s s' ∧ all_known s' IDs) s.
Proof.
  intros W Hf. enough (∀ l s1, IDs ≠ [] ∨ l = [] → steps s s1 → (∀ k ap, k ∈ IDs → k ∉ l → ht_get k (activePublicationIndex s1) = Some ap → ap_allKnownIDs ap ≠ []) →
    wps (mfor l (learn IDs f)) (λ _ s', steps s s' ∧ all_known s' IDs) s1) as Hg.
  { apply Hg; [destruct IDs; auto|by apply steps_refl|done]. }
  induction l as [|k l IH]; intros s1 Hne S Hk.
  { apply wps_ret. split; [done|]. intros k ap Hin. apply Hk; [done|set_solver]. }
  destruct Hne as [Hne|]; [|done]. cbn [mfor]. apply wps_bind. unfold learn at 1. apply wps_bind, wps_gets.
  destruct (ht_get k (activePublicationIndex s1)) as [ap|] eqn:Hap.
  - apply wps_modify. apply IH; [by left| |].
    + eapply steps_trans; [done|]. apply safe_upd_pub; [apply S|]. intros ap' Hap'.
      pose proof (wf_pubs s1 (proj1 S) _ _ Hap') as Hok. apply pub_change_comp; [by apply pub_change_known|].
      apply pub_change_FID; [done|]. by apply pub_change_known.
    + intros j aj Hj Hjl. cbn. rw ht_get_alter. case_decide as E; [|apply Hk; set_solver]. subst j. rw Hap. by intros [= <-].
  - apply wps_ret. apply IH; [by left|done|]. intros j aj Hj Hjl. destruct (decide (j = k)) as [->|]; [by rw Hap|]. apply Hk; set_solver.
Qed.

Lemma all_known_alter s IDs k st h : all_known s IDs →
  all_known (set_pubs (ht_alter (λ ap, ap_with_publishers (ht_alter (λ _, st) h (ap_publishers ap)) ap) k (activePublicationIndex s)) s) IDs.
Proof.
  intros H j ap Hj. cbn. rw ht_get_alter. case_decide as E; [subst j|by apply H].
  destruct (ht_get k (activePublicationIndex s)) as [a|] eqn:Ha; [|done]. intros [= <-]. by apply (H k a).
Qed.

Lemma safe_start IDs s : wf s → all_known s IDs → safe (mfor IDs start_first) s.
Proof.
  intros W Hk. eapply wps_mono; [apply (wps_mfor (λ s1, steps s s1 ∧ all_known s1 IDs)); [by split; [apply steps_refl|]|]|by intros [] s' [? _]].
  intros k s1 Hin [S1 K1]. pose proof (proj1 S1) as W1. apply wps_bind, wps_gets.
  destruct (ht_get k (activePublicationIndex s1)) as [ap|] eqn:Hap; [|by apply wps_ret].
  destruct (ht_first (ap_publishers ap)) as [h|] eqn:Hh; [|by apply wps_ret].
  apply wps_bind, wps_modify. set (s2 := set_pubs _ s1).
  assert (wf s2) as W2.
  { apply wf_upd_pub; [done|]. intros ap' Hap'. apply pub_change_state; [intros _; by apply (K1 k)|by apply (wf_pubs s1 W1)]. }
  eapply wps_mono; [by apply (quiet_notify START_PUBLISH h k s2), (first_live s1 k ap)|].
  intros [] s3 [o ->]. split; [|by apply (all_known_alter s1)]. eapply steps_trans; [exact S1|]. by split; [apply wf_out|].
Qed.

Lemma safe_update IDs s : wf s → safe (mfor IDs update_first) s.
Proof.
  intros W. apply safe_mfor; [done|]. intros k s1 _ [W1 _]. apply wps_bind, wps_gets.
  destruct (ht_get k (activePublicationIndex s1)) as [ap|] eqn:Hap; [|by apply safe_ret].
  destruct (ht_first (ap_publishers ap)) as [h|] eqn:Hh; [|by apply safe_ret].
  apply safe_if; [|by apply safe_ret]. apply safe_notify; [done|]. by apply (first_live s1 k ap).
Qed.

Lemma publisher_live s k ap h st : wf s → ht_get k (activePublicationIndex s) = Some ap → (h, st) ∈ ht_elems (ap_publishers ap) → live s h.
Proof. intros W Hap Hin%ht_elem_get. apply (publishes_live s h k W). rw (publishes_at s h k ap Hap). by eexists. Qed.

Lemma safe_stop IDs0 IDs s : wf s → IDs0 ≠ [] → safe (mfor IDs (stop_all IDs0)) s.
Proof.
  intros W Hne. apply safe_mfor; [done|]. intros k s1 _ [W1 _]. apply wps_bind, wps_gets.
  destruct (ht_get k (activePublicationIndex s1)) as [ap|] eqn:Hap; [|by apply safe_ret].
  apply safe_bind.
  { apply safe_upd_pub; [done|]. intros ap' Hap'. pose proof (wf_pubs s1 W1 _ _ Hap') as Hok.
    apply pub_change_comp; [by apply pub_change_known|]. apply pub_change_FID; [apply fid_ok_make|]. by apply pub_change_known. }
  intros [] s2 [W2 L2]. apply safe_mfor; [done|]. intros [h st] s3 Hin [W3 L3]. apply safe_if; [|by apply safe_ret].
  apply safe_bind.
  - apply safe_upd_pub; [done|]. intros ap' Hap'. apply pub_change_state; [by intros []|by apply (wf_pubs s3 W3)].
  - intros [] s4 [W4 L4]. apply safe_notify; [done|]. by eapply L4, L3, L2, publisher_live.
Qed.

Lemma wf_set_gc s g : wf s → gc_ok g → wf (set_gc g s).
Proof. intros [] Hg. by split. Qed.

Lemma safe_RVNotification d s : Forall is_byte d → wf s → safe (handleRVNotification d) s.
Proof.
  intros Hd W. apply safe_check; [auto with oob|]. intros type _.
  apply (safe_bind (if type =? UPDATE_FID_iSUB then _ else _)).
  { apply safe_if; [by apply safe_ret|]. apply safe_check; [auto with oob|]. intros n _.
    apply wps_check; [auto with oob|]. intros a _. by apply steps_refl. }
  intros [IDs off] s1 [W1 _]. apply safe_if; [by apply safe_notify_scopes|]. apply safe_if.
  { apply safe_check; [auto with oob|]. intros b Hb. apply wps_bind. pose proof (fid_ok_bytes _ _ _ Hd Hb) as Hf.
    eapply wps_mono; [by apply safe_learn|]. intros [] s2 [S2 K2]. pose proof (proj1 S2) as W2.
    eapply wps_mono; [|intros a s3; by apply steps_trans].
    destruct (type =? START_PUBLISH); [by apply safe_start|by apply safe_update]. }
  pose proof (wf_gc s1 W1) as [Hid Hrv Htm].
  apply safe_if.
  { apply safe_check; [auto with oob|]. intros b Hb. apply wps_modify. split; [|done]. apply wf_set_gc; [done|].
    split; try done. by eapply fid_ok_bytes. }
  apply safe_if.
  { apply safe_check; [auto with oob|]. intros b Hb. apply wps_modify. split; [|done]. apply wf_set_gc; [done|].
    split; try done. by eapply fid_ok_bytes. }
  apply safe_if.
  { destruct IDs as [|k IDs]; [by apply safe_ret|]. by apply safe_stop. }
  apply safe_if; [|by apply safe_ret]. apply safe_check; [auto with oob|]. intros n _. by apply safe_update_nodes.
Qed.

(** ** Multicast, management, failures *)

Lemma safe_multicast k d t s : wf s → safe (handleUserMulticastRequest k PUBLISH_DATA d t) s.
Proof.
  intros W. apply wps_bind, wps_gets, wps_bind, wps_gets. set (id := match ht_get k _ with Some _ => k | None => prefix_of k end).
  destruct (ht_get id (activePublicationIndex s)) as [ap|] eqn:Hap.
  - apply safe_bind.
    { apply safe_upd_pub; [done|]. intros ap' Hap'. apply pub_change_known; [done|]. by apply (wf_pubs s W). }
    intros [] s1 [W1 _]. apply wps_bind, wps_gets, wps_bind, wps_check; [auto with oob|]. intros f _.
    apply safe_quiet; [done|]. apply quiet_remote. intros u [= <-]. by left.
  - apply safe_quiet; [done|]. apply quiet_seq; [apply quiet_emit|]. intros o. apply quiet_emit.
Qed.

Lemma safe_resume k ap s : wf s → ht_get k (activePublicationIndex s) = Some ap →
  wps (resume_pub k ap) (λ _ s', steps s s' ∧ ∀ j, j ≠ k → ht_get j (activePublicationIndex s') = ht_get j (activePublicationIndex s)) s.
Proof.
  intros W Hap. unfold resume_pub. destruct (ap_isScope ap); [by apply wps_ret; split; [apply steps_refl|]|].
  eapply wps_mono; [apply (wps_mfor (λ s1, steps s s1 ∧
    (∀ j, j ≠ k → ht_get j (activePublicationIndex s1) = ht_get j (activePublicationIndex s)) ∧
    ∃ ap1, ht_get k (activePublicationIndex s1) = Some ap1 ∧ ap_allKnownIDs ap1 = ap_allKnownIDs ap))|].
  - split_and!; [by apply steps_refl|done|]. by exists ap.
  - intros [h st] s1 Hin (S1 & J1 & ap1 & Hap1 & Hk1). pose proof (proj1 S1) as W1.
    destruct (Z.eqb_spec st PAUSE_PUBLISH) as [->|]; [|apply wps_ret; split_and!; [done|done|by exists ap1]].
    assert (ap_allKnownIDs ap ≠ []) as Hne.
    { apply (po_known _ _ (wf_pubs s W _ _ Hap) h PAUSE_PUBLISH); [by apply ht_elem_get|done]. }
    apply wps_bind, wps_modify. set (s2 := set_pubs _ s1).
    assert (wf s2) as W2.
    { apply wf_upd_pub; [done|]. intros ap' Hap'. apply pub_change_state; [|by apply (wf_pubs s1 W1)].
      intros _. rw Hap1 in Hap'. injection Hap' as <-. by rw Hk1. }
    destruct (ap_allKnownIDs ap) as [|k0 ks] eqn:Ek; [done|]. apply wps_bind. cbn. apply wps_ret.
    eapply wps_mono; [by eapply quiet_notify, (proj2 S1), publisher_live|]. intros [] s3 [o ->]. split_and!.
    + eapply steps_trans; [exact S1|]. by split; [apply wf_out|].
    + intros j Hj. cbn. rw ht_get_alter decide_False //. by apply J1.
    + eexists. split; [cbn; by rw ht_get_alter decide_True // Hap1|done].
  - intros [] s' (? & ? & _). done.
Qed.

Lemma safe_updateStates state s : wf s → safe (updateStates state) s.
Proof.
  intros W. unfold updateStates. apply safe_if.
  - apply safe_bind.
    { apply wps_modify. split; [|done]. apply wf_set_gc; [done|]. pose proof (wf_gc s W) as []. split; try done. apply fid_ok_empty. }
    intros [] s1 [W1 _]. apply wps_bind, wps_gets. apply safe_bind.
    + apply safe_mfor; [done|]. intros k s2 _ [W2 _]. apply safe_upd_pub; [done|]. intros ap Hap.
      pose proof (wf_pubs s2 W2 _ _ Hap) as Hok. unfold disconnect_pub. unfold pub_change. destruct (ap_isScope ap); [done|].
      apply (pub_ok_change k ap BABitvector_empty pause_state); [done|apply fid_ok_empty|].
      intros st. unfold pause_state. by destruct (Z.eqb_spec st STOP_PUBLISH) as [->|].
    + intros [] s2 [W2 _]. apply wps_bind, wps_gets. apply safe_mfor; [done|]. intros k s3 _ [W3 _].
      apply safe_upd_node; [done|]. intros an Han. split; [|done]. apply node_ok_FID; [apply fid_ok_empty|by apply (wf_nodes s3 W3)].
  - apply safe_if; [|by apply safe_ret]. apply wps_bind, wps_gets. apply safe_bind.
    + eapply wps_mono; [apply (wps_mfor_pos (to_come s)); [by apply to_come_all|]|by intros [] s2 [? _]].
      intros [k ap] t s1 Hc. pose proof Hc as ([W1 _] & _ & Hl).
      eapply wps_mono; [apply safe_resume; [done|apply Hl; set_solver]|]. intros [] s2 [S2 J2]. by eapply to_come_step.
    + intros [] s1 [W1 _]. apply wps_bind, wps_gets. apply safe_if; [by apply safe_ret|]. by apply safe_quiet, quiet_iSUB.
Qed.

Lemma quiet_report q l s : (∀ h, h ∈ l → live s h) → quiet (push_report q l) s.
Proof.
  intros H. apply quiet_mfor. intros h o Hh. destruct (H h Hh) as [x Hx].
  apply wps_bind, wp_wps. eapply wp_read_host; [exact Hx|]. apply quiet_emitted.
Qed.

Lemma quiet_control d s : wf s → quiet (handleControlReliabilityNotification d) s.
Proof.
  intros W. unfold quiet, handleControlReliabilityNotification. wps_steps. destruct a1 as [IDs off]. wps_steps.
  destruct a2 as [fullID strategy]. match goal with |- wps ?m _ ?s => change (quiet m s) end.
  apply quiet_if; [apply quiet_emit|]. unfold quiet. wps_steps. match goal with |- wps ?m _ ?s => change (quiet m s) end.
  apply quiet_if; [|apply quiet_if; [|apply quiet_here]].
  - destruct (ht_get fullID (activePublicationIndex s)) as [ap|] eqn:Hap; [|apply quiet_here]. apply quiet_if; [|apply quiet_here].
    apply quiet_report. intros h Hh%elem_of_ht_keys. apply (publishes_live s h fullID W). by rw (publishes_at s h fullID ap Hap).
  - destruct (ht_get fullID (activeSubscriptionIndex s)) as [a'|] eqn:Ha; [|apply quiet_here]. apply quiet_if; [|apply quiet_here].
    apply quiet_report. intros h Hh%hs_in_keys. apply (subscribes_live s h fullID W). by rw (subscribes_at s h fullID a' Ha).
Qed.

(** ** push *)

(** What the source relies on.  A host that disconnects is no publisher for
    implicit subscribers (its entries there would dangle); nobody subscribes
    to the default HTTP identifier; identifiers are not empty and their
    fragments are counted in a byte; and where the packet is read after a
    publication, the publication did not use it up. *)
Definition may_leave h s : Prop := ∀ k, ¬ node_publisher s h k.
Definition names_ok k : Prop := id_ok k ∧ k ≠ HTTP_DEFAULT_IID.

Definition request_trusted (d : bytes) : Prop := ∀ ID prefix,
  read_ID d 1 = Ok ID → read_ID d (2 + length ID) = Ok prefix → names_ok (full_ID ID prefix).

Definition data_trusted (d : bytes) h s : Prop := ∀ b,
  read_ID d 1 = Ok pathMgmtIID → data_byte d (2 + length pathMgmtIID) = Ok IMPLICIT_RENDEZVOUS →
  data_read d (2 + length pathMgmtIID + 1) FID_LEN = Ok b →
  keeps_packet (TM_publication pathMgmtIID PUBLISH_DATA (FID_of_bytes b) (drop (2 + length pathMgmtIID + 1 + FID_LEN) d) h) s.

Definition iSUB_trusted (d : bytes) h s : Prop := ∀ ID,
  read_ID d 1 = Ok ID → data_byte d (2 + length ID) = Ok DOMAIN_LOCAL →
  let d' := drop (2 + length ID + 1) d in
  keeps_packet (handleUserPublication ID (Some PUBLISH_DATA_iSUB) d' h PUBLISHED_DATA_iSUB) s ∧
  ∀ ID', read_ID d' 0 = Ok ID' → names_ok (full_ID ID' (prefix_of ID')).

Definition host_trusted (d : bytes) h s : Prop :=
  (data_byte d 0 = Ok DISCONNECT → may_leave h s) ∧
  (data_byte d 0 = Ok PUBLISH_DATA → data_trusted d h s) ∧
  (data_byte d 0 = Ok PUBLISH_DATA_iSUB → iSUB_trusted d h s) ∧
  (∀ type, data_byte d 0 = Ok type → is_request type → request_trusted d).

(** The host a packet of [in_port] comes from. *)
Definition host_of (in_port anno : Z) : X ptr :=
  if (in_port =? 0) || (in_port =? 3) then getLocalHost LOCAL_PROCESS anno else getLocalHost CLICK_ELEMENT in_port.

Definition trusted (in_port anno : Z) (d : bytes) s : Prop :=
  Forall is_byte d ∧
  (in_port ≠ 2 → ∀ h s', host_of in_port anno s = Ok (h, s') →
    if in_port =? 3 then data_byte d 0 = Ok DISCONNECT → may_leave h s' else host_trusted d h s').

Definition runs (m : X ()) s : Prop := wps m (λ _, wf) s.

Lemma safe_runs m s : safe m s → runs m s.
Proof. intros H. eapply wps_mono; [exact H|]. by intros [] s' [? _]. Qed.

Lemma runs_disconnect h s : wf s → live s h → may_leave h s → runs (disconnect h;; emit (Kill Given)) s.
Proof.
  intros W Hh Hn. apply wps_bind, wp_wps. eapply wp_mono; [by apply wp_disconnect|]. intros [] s1 D.
  apply wps_modify. by apply wf_out, D.
Qed.

Lemma safe_network d s : Forall is_byte d → wf s → safe (push_from_network d) s.
Proof.
  intros Hd W. apply wps_bind, wps_gets, safe_check; [auto with oob|]. intros n _. apply safe_check; [auto with oob|].
  intros [IDs off] _. cbv zeta. apply safe_if; [by apply safe_quiet, quiet_control|]. apply safe_check; [auto with oob|]. intros type _.
  assert (Forall is_byte (drop 1 (drop off d))) as Hd' by (by do 2 apply Forall_drop).
  apply safe_if; [|apply safe_if; [|by apply safe_quiet, quiet_network]].
  - apply safe_if; [|apply safe_if; [by apply safe_TM|by apply safe_quiet, quiet_network]].
    apply safe_bind; [by apply safe_RVNotification|]. intros [] s1 [W1 _]. by apply safe_quiet, quiet_emit.
  - apply safe_check; [auto with oob|]. intros k Hk. apply safe_bind.
    { apply safe_storeActiveNode; [done|]. by apply is_byte_read in Hk as [_ ?]. }
    intros b s1 [W1 _]. apply safe_bind; [apply safe_if; [by apply safe_quiet, quiet_iSUB|by apply safe_ret]|].
    intros [] s2 [W2 _]. by apply safe_quiet, quiet_network.
Qed.

Lemma sendable_data : sendable (Some PUBLISH_DATA).
Proof. intros t [= <-]. by left. Qed.
Lemma sendable_iSUB : sendable (Some PUBLISH_DATA_iSUB).
Proof. intros t [= <-]. by right. Qed.
Lemma sendable_none : sendable None.
Proof. done. Qed.
#[local] Hint Resolve sendable_data sendable_iSUB sendable_none : quiet.

Lemma safe_path k type FID d h s APItype : wf s → sendable type → safe (handleUserPublicationFID k type FID d h APItype) s.
Proof. intros. apply safe_quiet; [done|]. by apply quiet_path. Qed.

Lemma safe_TM_publication k FID d h s : wf s → keeps_packet (TM_publication k PUBLISH_DATA FID d h) s →
  safe (handleUserTMPublication k PUBLISH_DATA FID d h) s.
Proof.
  intros W Hk. unfold TM_publication in Hk. unfold handleUserTMPublication.
  apply wps_bind. unfold known_IDs. apply wps_bind, wps_gets, wps_ret. set (IDs := (_ : list bytes)).
  destruct (find_receivers s IDs) as (t & Et & Ht & _). apply wps_bind. unfold wps at 1. rw Et.
  apply wps_and_again.
  - destruct (ht_keys (ht_erase h t)); [apply quiet_remote|apply quiet_beside]; auto with quiet.
  - intros s' Hs'. apply Hk. unfold mbind, M_bind. change (known_IDs k s) with (Ok (IDs, s) : res (list bytes * proxy)). cbv beta iota. by rw Et.
  - intros o. eapply wps_mono; [apply safe_TM; by apply wf_out|]. intros [] s2. by intros [? H].
Qed.

Lemma safe_push_data d h s : Forall is_byte d → wf s → live s h → data_trusted d h s → safe (push_data d h) s.
Proof.
  intros Hd W Hh Ht. apply wps_bind, wps_gets, safe_check; [auto with oob|]. intros ID HID. cbv zeta.
  apply safe_check; [auto with oob|]. intros strategy Hst. destruct (_ || _) eqn:Hs.
  - apply safe_check; [auto with oob|]. intros b Hb. destruct (Z.eqb_spec strategy LINK_LOCAL) as [|Hne]; [by apply safe_path; auto with quiet|].
    assert (strategy = IMPLICIT_RENDEZVOUS) as -> by lia.
    apply safe_if; [|apply safe_if; [by apply safe_path; auto with quiet|]].
    + apply safe_bind; [apply safe_RVNotification; [by apply Forall_drop|done]|]. intros [] s1 [W1 _]. by apply safe_quiet, quiet_emit.
    + destruct (bool_decide (ID = pathMgmtIID)) eqn:E; [|by apply safe_path; auto with quiet].
      apply bool_decide_eq_true in E. subst ID. apply safe_TM_publication; [done|]. by apply (Ht b).
  - apply safe_if.
    + apply safe_check; [auto with oob|]. intros f _. apply safe_path; auto with quiet.
    + apply safe_quiet; [done|]. apply quiet_user; auto with quiet.
Qed.

Lemma wp_safe_request s type h ID prefix strategy : wf s → live s h → names_ok (full_ID ID prefix) →
  ∀ fid, fid_ok fid → safe (handleLocalRequest type h ID prefix strategy fid) s.
Proof.
  intros W Hh [Hid Hne] fid Hf. eapply wp_wps, wp_mono; [by apply wp_local_request|].
  intros r s' Hd. split; [apply Hd|]. intros q Hq. by apply (same_rest_live s s' q (rd_rest _ _ _ _ _ _ _ Hd)).
Qed.

Lemma safe_push_iSUB d h s : wf s → live s h → iSUB_trusted d h s → safe (push_iSUB d h) s.
Proof.
  intros W Hh Ht. apply safe_check; [auto with oob|]. intros ID HID. cbv zeta.
  apply safe_check; [auto with oob|]. intros strategy Hst. destruct (Z.eqb_spec strategy DOMAIN_LOCAL) as [->|]; [|by apply safe_ret].
  destruct (Ht ID HID Hst) as [Hk Hn]. apply wps_and_again; [apply quiet_user; auto with quiet|done|].
  intros o. set (s1 := set_out o s). assert (wf s1) as W1 by by apply wf_out.
  assert (steps s s1) as S1 by by apply steps_out.
  eapply wps_mono; [|intros a s2; by apply steps_trans]. apply wps_bind, wps_gets.
  apply safe_check; [auto with oob|]. intros ID' HID'. apply safe_bind.
  - apply wp_safe_request; [done|done|by apply Hn|]. apply (wf_gc s W).
  - intros b s2 [W2 _]. by apply safe_quiet, quiet_emit.
Qed.

Lemma safe_push_iMULTICAST d s : wf s → safe (push_iMULTICAST d) s.
Proof.
  intros W. apply safe_check; [auto with oob|]. intros ID _. apply safe_check; [auto with oob|]. intros st _.
  apply safe_check; [auto with oob|]. intros n _. cbv zeta. apply safe_check; [auto with oob|]. intros t _. by apply safe_multicast.
Qed.

Lemma safe_push_request type d h s : wf s → live s h → request_trusted d → safe (push_request type d h) s.
Proof.
  intros W Hh Ht. apply safe_check; [auto with oob|]. intros ID HID. cbv zeta. apply safe_check; [auto with oob|]. intros prefix Hp.
  apply safe_check; [auto with oob|]. intros strategy _. apply wps_bind, wps_gets. apply safe_bind.
  - apply wp_safe_request; [done|done|by apply Ht|]. apply fid_ok_RVFID, W.
  - intros r s1 [W1 _]. apply safe_if; apply safe_quiet; try done; [apply quiet_to_RV|apply quiet_emit].
Qed.

Lemma runs_mapp d h s : wf s → live s h → (data_byte d 0 = Ok DISCONNECT → may_leave h s) → runs (handleMappRequest d h) s.
Proof.
  intros W [x Hx] Hn. apply wps_bind, wps_check; [auto with oob|]. intros type Hty. apply wps_bind, wps_gets.
  assert (∀ t n b, safe (answer h t n b) s) as Hans.
  { intros t n b. apply safe_quiet; [done|]. apply wps_bind, wps_check; [auto with oob|]. intros q _. apply wps_bind, wp_wps.
    eapply wp_read_host; [done|]. apply quiet_emitted. }
  assert (∀ s1 : proxy, wf s1 → wps (emit (Kill Given)) (λ _, wf) s1) as Hkill by (intros s1 W1; by apply wf_out).
  apply wps_bind. apply (wps_mono _ (λ _, wf)); [|intros a s1 W1; by apply Hkill]. match goal with |- wps ?m _ _ => change (runs m s) end.
  destruct (type =? GET_NODEID).
  { apply safe_runs, safe_check; [auto with oob|]. intros id _. apply Hans. }
  destruct (type =? GET_RVTMFID).
  { apply safe_runs, safe_check; [auto with oob|]. intros id _. apply Hans. }
  destruct (type =? SET_CONNECTION_STATUS).
  { apply wps_bind, wps_check; [auto with oob|]. intros st _. apply wps_bind, wps_modify. apply safe_runs, safe_updateStates.
    by destruct W. }
  destruct (Z.eqb_spec type DISCONNECT) as [->|]; [|by apply wps_ret].
  apply wp_wps. eapply wp_mono; [by apply wp_disconnect; [done|exists x|apply Hn]|]. intros [] s1 D. apply D.
Qed.

Lemma runs_push in_port anno d s : wf s → trusted in_port anno d s → runs (LocalProxy_push in_port anno d) s.
Proof.
  intros W [Hd Ht]. unfold LocalProxy_push. destruct (Z.eqb_spec in_port 2) as [->|H2]; [by apply safe_runs, safe_network|].
  specialize (Ht H2). assert (∀ t id, host_of in_port anno = getLocalHost t id → ∀ m,
    (∀ h s1, got_host s t id h s1 → (if in_port =? 3 then data_byte d 0 = Ok DISCONNECT → may_leave h s1 else host_trusted d h s1) → runs (m h) s1) →
    runs (h ← getLocalHost t id; m h) s) as Hget.
  { intros t id E m Hk. destruct (wp_ok _ _ _ (wp_getLocalHost s t id W)) as (h & s1 & Eh & Hgot).
    apply wps_bind. unfold wps at 1. rw Eh. apply Hk; [done|]. apply Ht. by rw E. }
  unfold host_of in *. destruct (Z.eqb_spec in_port 3) as [->|H3].
  { apply (Hget LOCAL_PROCESS anno eq_refl). intros h s1 [] Hl. by apply runs_mapp. }
  assert (∀ h s1, wf s1 → live s1 h → host_trusted d h s1 →
    runs (type ← check (data_byte d 0);
      if type =? DISCONNECT then disconnect h;; emit (Kill Given)
      else if type =? PUBLISH_DATA then push_data d h
      else if type =? PUBLISH_DATA_iSUB then push_iSUB d h
      else if type =? PUBLISH_DATA_iMULTICAST then push_iMULTICAST d
      else push_request type d h) s1) as Hbody.
  { intros h s1 W1 L1 (T1 & T2 & T3 & T4). apply wps_bind, wps_check; [auto with oob|]. intros type Hty.
    destruct (Z.eqb_spec type DISCONNECT) as [->|N1]; [by apply runs_disconnect; auto|].
    destruct (Z.eqb_spec type PUBLISH_DATA) as [->|N2]; [by apply safe_runs, safe_push_data; auto|].
    destruct (Z.eqb_spec type PUBLISH_DATA_iSUB) as [->|N3]; [by apply safe_runs, safe_push_iSUB; auto|].
    destruct (Z.eqb_spec type PUBLISH_DATA_iMULTICAST) as [->|N4]; [by apply safe_runs, safe_push_iMULTICAST|].
    apply safe_runs, safe_push_request; [done|done|]. apply (T4 type Hty). unfold is_request. set_solver. }
  destruct (Z.eqb_spec in_port 0) as [->|H0].
  - apply (Hget LOCAL_PROCESS anno eq_refl). intros h s1 G T. by apply Hbody; [apply G|apply G|].
  - apply (Hget CLICK_ELEMENT in_port eq_refl). intros h s1 G T. by apply Hbody; [apply G|apply G|].
Qed.

(** ** The states the element reaches *)

Inductive proxy_reachable (g : gconf) : proxy → Prop :=
  | proxy_start : proxy_reachable g (proxy0 g)
  | proxy_step in_port anno d s s' : proxy_reachable g s → trusted in_port anno d s →
      LocalProxy_push in_port anno d s = Ok ((), s') → proxy_reachable g s'.

Lemma proxy_reachable_wf g s : gc_ok g → proxy_reachable g s → wf s.
Proof.
  intros Hg. induction 1 as [|in_port anno d s s' _ W Ht E]; [by apply wf_initial|].
  pose proof (runs_push in_port anno d s W Ht) as H. unfold runs, wps in H. by rw E in H.
Qed.

(** Requests are trusted when their identifiers are. *)
Lemma trusted_request in_port anno type ID prefix strategy s : in_port ≠ 3 → is_request type → frag_ok ID → frag_ok prefix →
  names_ok (full_ID ID prefix) → Forall is_byte (request_bytes type ID prefix strategy) →
  trusted in_port anno (request_bytes type ID prefix strategy) s.
Proof.
  intros H3 Hty HID Hp Hn Hb. split; [done|]. intros _ h s' _. rw (proj2 (Z.eqb_neq _ _) H3). unfold is_request in Hty.
  set (d := request_bytes _ _ _ _) in *. split_and!; try (intros [= ->]; set_solver).
  intros type' [= <-] _ ID' prefix' E1 E2.
  rw (read_ID_at d [type] ID (id_field prefix ++ [strategy]) 1) // in E1. injection E1 as <-.
  rw (read_ID_at d ([type] ++ id_field ID) prefix [strategy] (2 + length ID)) // in E2. by injection E2 as <-.
Qed.
End safety.
