(* ===== verification/ProxyNotify.v ===== *)
(** * Notifications for the LocalProxy

    A START_PUBLISH notification as LocalRV builds it, and a link failure
    reported by the topology manager: what they change and who is told, in
    closed form. *)

From S2P Require Import Prelude Enums HashTable BitVector Packet GlobalConf RvStore RvMessages LocalRV RvSafety.
From S2P Require Import ProxyStore LocalProxy ProxyInvariant ProxyRequests ProxyMessages ProxyDelivery ProxyRendezvous ProxySafety.

Section notify.
Context `{CT : ClickTables}.
Implicit Types (s : proxy) (h : ptr) (k : bytes).

(** ** The start of publications *)

(** The first publisher starts. *)
Definition start_ap (ap : ActivePublication) : ActivePublication :=
  match ht_first (ap_publishers ap) with
  | Some h => ap_with_publishers (ht_alter (λ _, START_PUBLISH) h (ap_publishers ap)) ap
  | None => ap
  end.

(** The notifications of the first publishers. *)
Definition first_events s (type : Z) (t : SH ActivePublication) (IDs : list bytes) : list event :=
  k ← IDs;
  match ht_get k t with
  | Some ap =>
      match ht_first (ap_publishers ap) ≫= (hosts s !!.) with
      | Some x => [host_event x Made (notification_bytes type k)]
      | None => []
      end
  | None => []
  end.

Lemma first_events_ext s type t t' l : (∀ j, j ∈ l → ap_publishers <$> ht_get j t = ap_publishers <$> ht_get j t') →
  first_events s type t l = first_events s type t' l.
Proof.
  intros H. unfold first_events. induction l as [|j l IH]; [done|]. cbn. f_equal; [|apply IH; intros i Hi; apply H; set_solver].
  specialize (H j ltac:(set_solver)). destruct (ht_get j t), (ht_get j t'); try done. by injection H as ->.
Qed.

Lemma learn_loop s IDs f l : ∀ t o, ∃ t',
  mfor l (learn IDs f) (set_out o (set_pubs t s)) = Ok ((), set_out o (set_pubs t' s)) ∧
  ∀ j, ht_get j t' = (λ ap, if decide (j ∈ l) then ap_with_FID f (ap_with_known IDs ap) else ap) <$> ht_get j t.
Proof.
  induction l as [|k l IH]; intros t o.
  { exists t. split; [done|]. intros j. destruct (ht_get j t); [cbn; case_decide; set_solver|done]. }
  set (g := λ ap, ap_with_FID f (ap_with_known IDs ap)).
  set (t1 := match ht_get k t with Some _ => ht_alter g k t | None => t end).
  destruct (IH t1 o) as (t' & E & Ht). exists t'. split.
  - assert (learn IDs f k (set_out o (set_pubs t s)) = Ok ((), set_out o (set_pubs t1 s))) as E1.
    { unfold learn, mbind, M_bind, find_pub, gets, t1. cbn. by destruct (ht_get k t). }
    cbn [mfor]. unfold mbind, M_bind. by rw E1 E.
  - intros j. rw Ht. unfold t1. destruct (decide (j = k)) as [->|Hj].
    + destruct (ht_get k t) as [ap|] eqn:Hk; [|by rw Hk]. rw ht_get_alter decide_True // Hk. cbn.
      f_equal. repeat case_decide; set_solver.
    + assert (ht_get j (match ht_get k t with Some _ => ht_alter g k t | None => t end) = ht_get j t) as ->.
      { destruct (ht_get k t); [|done]. rw ht_get_alter decide_False //. }
      destruct (ht_get j t); [cbn; f_equal; repeat case_decide; set_solver|done].
Qed.

Lemma start_loop s l : NoDup l → ∀ t o,
  (∀ k ap h, k ∈ l → ht_get k t = Some ap → is_Some (ht_get h (ap_publishers ap)) → id_ok k ∧ live s h) →
  ∃ t', mfor l start_first (set_out o (set_pubs t s)) = Ok ((), set_out (o ++ first_events s START_PUBLISH t l) (set_pubs t' s)) ∧
    ∀ j, ht_get j t' = (λ ap, if decide (j ∈ l) then start_ap ap else ap) <$> ht_get j t.
Proof.
  induction 1 as [|k l Hk Hnd IH]; intros t o Hl.
  { exists t. split; [by rw app_nil_r|]. intros j. destruct (ht_get j t); [cbn; case_decide; set_solver|done]. }
  set (t1 := match ht_get k t with Some ap => match ht_first (ap_publishers ap) with
    | Some h => ht_alter (λ ap, ap_with_publishers (ht_alter (λ _, START_PUBLISH) h (ap_publishers ap)) ap) k t | None => t end | None => t end).
  assert (∀ j, j ≠ k → ht_get j t1 = ht_get j t) as Hj.
  { intros j Hne. unfold t1. destruct (ht_get k t) as [ap|]; [|done]. destruct (ht_first _); [|done]. rw ht_get_alter decide_False //. }
  assert (start_first k (set_out o (set_pubs t s)) = Ok ((), set_out (o ++ first_events s START_PUBLISH t [k]) (set_pubs t1 s))) as E1.
  { unfold start_first, first_events, mbind, M_bind, find_pub, gets, t1. cbn. destruct (ht_get k t) as [ap|] eqn:Ek; cbn; [|by rw app_nil_r].
    destruct (ht_first (ap_publishers ap)) as [h|] eqn:Eh; cbn; [|by rw app_nil_r].
    destruct (Hl k ap h ltac:(set_solver) Ek) as [Hid [x Hx]]; [by apply ht_first_Some|]. rw Hx.
    set (s1 := set_pubs (ht_alter _ k t) s). unfold upd_pub, modify. cbn.
    exact (sends_notification (set_out o s1) h x START_PUBLISH k Hx Hid). }
  destruct (IH t1 (o ++ first_events s START_PUBLISH t [k])) as (t' & E & Ht).
  { intros j ap h Hin. rw Hj; [|set_solver]. apply Hl. set_solver. }
  exists t'. split.
  - cbn [mfor]. unfold mbind, M_bind. rw E1 E. do 2 f_equal. rw -app_assoc. f_equal. f_equal.
    assert (first_events s START_PUBLISH t1 l = first_events s START_PUBLISH t l) as ->.
    { apply first_events_ext. intros j Hin. by rw Hj; [|set_solver]. }
    unfold first_events. cbn. by rw app_nil_r.
  - intros j. rw Ht. destruct (decide (j = k)) as [->|Hne].
    + unfold t1. destruct (ht_get k t) as [ap|] eqn:Ek; [|by rw Ek].
      destruct (ht_first (ap_publishers ap)) as [h|] eqn:Eh.
      * rw ht_get_alter decide_True // Ek. cbn. f_equal. rw decide_False //. rw decide_True; [|set_solver]. unfold start_ap. by rw Eh.
      * rw Ek. cbn. f_equal. rw decide_False //. rw decide_True; [|set_solver]. unfold start_ap. by rw Eh.
    + rw Hj //. destruct (ht_get j t); [cbn; f_equal; repeat case_decide; set_solver|done].
Qed.

(** The publications after the notification. *)
Definition started (IDs : list bytes) (f : BABitvector) k (ap : ActivePublication) : ActivePublication :=
  if decide (k ∈ IDs) then start_ap (ap_with_FID f (ap_with_known IDs ap)) else ap.

Lemma start_notification s IDs fid : wf s → length fid = FID_LEN → NoDup IDs → ids_ok IDs →
  ∃ t, handleRVNotification (START_PUBLISH :: counted (id_field <$> IDs) ++ fid) s =
    Ok ((), set_out (out s ++ first_events s START_PUBLISH (activePublicationIndex s) IDs) (set_pubs t s)) ∧
    ∀ j, ht_get j t = started IDs (FID_of_bytes fid) j <$> ht_get j (activePublicationIndex s).
Proof.
  intros W Hfid Hnd [HIDs Hn]. set (f := FID_of_bytes fid). set (p0 := activePublicationIndex s).
  destruct (learn_loop s IDs f IDs p0 (out s)) as (t1 & E1 & H1).
  assert (∀ j, ap_publishers <$> ht_get j t1 = ap_publishers <$> ht_get j p0) as Hp.
  { intros j. rw H1. destruct (ht_get j p0); [cbn; by case_decide|done]. }
  destruct (start_loop s IDs Hnd t1 (out s)) as (t2 & E2 & H2).
  { intros j ap h _ Hj Hh. specialize (Hp j). rw Hj in Hp. destruct (ht_get j p0) as [ap0|] eqn:E0; [|done].
    injection Hp as Hp. rw Hp in Hh. split; [apply (po_len _ _ (wf_pubs s W _ _ E0))|].
    apply (publishes_live s h j W). by rw (publishes_at s h j ap0 E0). }
  exists t2. split.
  - set (d := _ :: _). unfold handleRVNotification.
    change (data_byte d 0) with (Ok START_PUBLISH). rw lift_check.
    change (START_PUBLISH =? UPDATE_FID_iSUB) with false. cbv iota.
    assert (data_byte d 1 = Ok (zlen IDs)) as -> by (by rw -(zlen_fmap id_field)). unfold mbind at 1, M_bind at 1. rw lift_check.
    assert (Z.to_nat (zlen IDs) = length IDs) as -> by (unfold zlen; lia). unfold check.
    rw (read_ids_at IDs HIDs d [START_PUBLISH; zlen IDs] fid 2); [|by subst d; rw -(zlen_fmap id_field)|done].
    change (START_PUBLISH =? SCOPE_PUBLISHED) with false. change (START_PUBLISH =? SCOPE_UNPUBLISHED) with false.
    change (START_PUBLISH =? START_PUBLISH) with true. cbn [orb]. cbv iota.
    rw (data_read_at d ([START_PUBLISH; zlen IDs] ++ mjoin (id_field <$> IDs)) fid []).
    + unfold mbind, M_bind. fold f. destruct s as [hs nx li p1 sub nod g st o]. cbn in p0. subst p0. cbn in *. rw E1 E2. cbn.
      do 2 f_equal. f_equal. f_equal. by apply first_events_ext.
    + subst d. by rw app_nil_r -(zlen_fmap id_field).
    + by rw length_app.
    + done.
  - intros j. rw H2 H1. unfold started. destruct (ht_get j p0); [cbn; f_equal; by case_decide|done].
Qed.

Lemma path_ids_ok IDs : path_ids IDs → ids_ok IDs.
Proof.
  intros [H Hn]. split; [|unfold zlen in Hn; lia]. eapply Forall_impl; [exact H|]. intros k [Hk Hl].
  exists (length k / PURSUIT_ID_LEN)%nat. unfold zlen, PURSUIT_ID_LEN in *. lia.
Qed.

(** A publication under the notification identifier, from LocalRV. *)
Lemma push_notification s anno body fid : wf s → gconf_wf (gc s) → length fid = FID_LEN → ∃ h s1,
  got_host s CLICK_ELEMENT 1 h s1 ∧
  LocalProxy_push 1 anno (api_bytes 2 (notificationIID (gc s)) fid ++ body) s = (handleRVNotification body;; emit (Kill Given)) s1.
Proof.
  intros W Hg Hfid. destruct (wp_ok _ _ _ (wp_getLocalHost s CLICK_ELEMENT 1 W)) as (h & s1 & Eh & Hgot).
  exists h, s1. split; [done|]. remember (notificationIID (gc s)) as NID eqn:EN. set (d := api_bytes _ _ _ ++ body).
  assert (length NID = 16%nat) as HNID.
  { pose proof (zlen_notificationIID (gc s) Hg) as H. unfold zlen in H. rw -EN in H. lia. }
  assert (id_field NID = 2 :: NID) as Hf.
  { unfold id_field, zlen. by rw HNID. }
  assert (frag_ok NID) as Hfr by (exists 2%nat; split; [lia|done]).
  unfold LocalProxy_push. cbn [Z.eqb Pos.eqb]. unfold mbind at 1, M_bind at 1. rw Eh.
  change (data_byte d 0) with (Ok PUBLISH_DATA). rw lift_check.
  change (PUBLISH_DATA =? DISCONNECT) with false. change (PUBLISH_DATA =? PUBLISH_DATA) with true. cbv iota.
  unfold push_data. unfold mbind at 1, M_bind at 1, gets at 1.
  rw (read_ID_at d [PUBLISH_DATA] NID ([IMPLICIT_RENDEZVOUS] ++ fid ++ body) 1); [|by subst d; rw /api_bytes Hf -!app_assoc|done|done].
  rw lift_check HNID. cbv zeta.
  rw (data_byte_at d ([PUBLISH_DATA; 2] ++ NID) IMPLICIT_RENDEZVOUS (fid ++ body) (2 + 16)); [|by subst d; rw /api_bytes -!app_assoc|by rw length_app HNID].
  rw lift_check. change (IMPLICIT_RENDEZVOUS =? IMPLICIT_RENDEZVOUS) with true. change (IMPLICIT_RENDEZVOUS =? LINK_LOCAL) with false.
  cbn [orb]. cbv iota. rw (data_read_at d ([PUBLISH_DATA; 2] ++ NID ++ [IMPLICIT_RENDEZVOUS]) fid body);
    [|by subst d; rw /api_bytes -!app_assoc|by rw !length_app HNID|done].
  rw lift_check. assert (gc s1 = gc s) as -> by apply Hgot. rw -EN bool_decide_eq_true_2 //.
  rw (drop_at d ([PUBLISH_DATA; 2] ++ NID ++ [IMPLICIT_RENDEZVOUS] ++ fid) body); [done|by subst d; rw /api_bytes -!app_assoc|].
  rw !length_app HNID Hfid. done.
Qed.

(** ** Link failures *)

(** The link is on the path: its bits are in the forwarding identifier. *)
Definition on_path (link f : BABitvector) : bool :=
  forallb (λ i, negb (bv_bit link i) || bv_bit f i) (seq 0 256).

Lemma affects_on_path link f : bv_wf link → bv_max link = 255 → bv_wf f → bv_max f = 255 →
  affects link f = Ok (on_path link f).
Proof.
  intros Wl Hl Wf Hf. destruct (and_implements link f Wl Wf) as (c & Hc & Wc & Hmc & Hbit); [congruence|].
  unfold affects. rw Hc. change (Ok (BABitvector_eqb c link) = Ok (on_path link f)). f_equal. apply eq_true_iff_eq.
  rw BABitvector_eqb_bits // Hmc Hl. unfold on_path. rw forallb_forall. unfold bv_len, BABitvector_size in *. rw Hl in Hbit.
  rw Hmc Hl. split.
  - intros [_ H] i Hi%in_seq. specialize (H i ltac:(lia)). rw Hbit in H; [|lia]. destruct (bv_bit link i); [exact H|done].
  - intros H. split; [done|]. intros i Hi. rw Hbit //. specialize (H i ltac:(apply in_seq; lia)).
    destruct (bv_bit link i); [exact H|done].
Qed.

(** A publication whose path is lost: it has none, and who published is to
    publish again. *)
Definition loses_path (link : BABitvector) (ap : ActivePublication) : bool :=
  negb (ap_isScope ap) && not_null (ap_FID_to_subscribers ap) && on_path link (ap_FID_to_subscribers ap).
Definition failed (link : BABitvector) (ap : ActivePublication) : ActivePublication :=
  if loses_path link ap then
    ap_with_publishers (change_publishers republish_state (ap_publishers ap)) (ap_with_FID BABitvector_empty ap)
  else ap.

Lemma invalidate_failed link ap : bv_wf link → bv_max link = 255 → fid_ok (ap_FID_to_subscribers ap) →
  invalidate link ap = Ok (if loses_path link ap then Some (failed link ap) else None).
Proof.
  intros Wl Hl Hf. unfold invalidate, failed, loses_path. destruct (negb (ap_isScope ap)); cbn [andb]; [|done].
  destruct (not_null (ap_FID_to_subscribers ap)) eqn:Hn; cbn [andb]; [|done].
  destruct Hf as [E|[Wf Hf]]; [by rw E in Hn|]. rw affects_on_path //. cbn -[on_path]. by destruct (on_path _ _).
Qed.

Lemma failure_loop s link l : bv_wf link → bv_max link = 255 → NoDup l.*1 → (∀ k ap, (k, ap) ∈ l → fid_ok (ap_FID_to_subscribers ap)) → ∀ t o,
  (∀ k ap, (k, ap) ∈ l → ht_get k t = Some ap) → ∃ t',
  mfor l (λ '(id, ap), r ← check (invalidate link ap); match r with Some ap => upd_pub id (λ _, ap) | None => mret () end)
    (set_out o (set_pubs t s)) = Ok ((), set_out o (set_pubs t' s)) ∧
  ∀ j, ht_get j t' = (λ ap, if decide (j ∈ l.*1) then failed link ap else ap) <$> ht_get j t.
Proof.
  intros Wl Hl Hnd Hf. induction l as [|[k ap] l IH]; intros t o Ht.
  { exists t. split; [done|]. intros j. destruct (ht_get j t); [cbn; case_decide; set_solver|done]. }
  cbn in Hnd. apply NoDup_cons in Hnd as [Hk Hnd].
  set (t1 := if loses_path link ap then ht_alter (λ _, failed link ap) k t else t).
  assert (∀ j, j ≠ k → ht_get j t1 = ht_get j t) as Hj.
  { intros j Hne. unfold t1. destruct (loses_path link ap); [|done]. rw ht_get_alter decide_False //. }
  destruct (IH Hnd ltac:(intros i ai Hi; apply (Hf i ai); set_solver) t1 o) as (t' & E & Ht').
  { intros j aj Hin. rw Hj; [apply Ht; set_solver|]. intros ->. apply Hk, list_elem_of_fmap. by exists (k, aj). }
  exists t'. split.
  - cbn [mfor]. unfold mbind at 1, M_bind at 1. rw invalidate_failed //; [|apply (Hf k ap); set_solver].
    unfold mbind at 1, M_bind at 1, check at 1. unfold t1 in E. destruct (loses_path link ap); exact E.
  - intros j. rw Ht'. cbn [fmap list_fmap fst]. destruct (decide (j = k)) as [->|Hne].
    + specialize (Ht k ap ltac:(set_solver)). rw Ht. unfold t1. destruct (loses_path link ap) eqn:El.
      * rw ht_get_alter decide_True // Ht. cbn. f_equal. rw decide_False //. rw decide_True //. set_solver.
      * rw Ht. cbn. f_equal. rw decide_False //. rw decide_True; [|set_solver]. unfold failed. by rw El.
    + rw Hj //. destruct (ht_get j t); [cbn; f_equal; repeat case_decide; set_solver|done].
Qed.

Lemma affected_fold s link l : bv_wf link → bv_max link = 255 →
  (∀ an, an ∈ l → bv_wf (an_FID_to_node an) ∧ bv_max (an_FID_to_node an) = 255) → ∀ acc, ∃ acc',
  mfoldl (λ acc an, m ← check (affects link (an_FID_to_node an)); mret (if m : bool then hs_insert (an_nodeID an) acc else acc)) acc l s =
  Ok (acc', s) ∧ ∀ k, hs_in k acc' ↔ hs_in k acc ∨ ∃ an, an ∈ l ∧ an_nodeID an = k ∧ on_path link (an_FID_to_node an) = true.
Proof.
  intros Wl Hl Hn. induction l as [|an l IH]; intros acc; [exists acc; split; [done|]; set_solver|].
  destruct (Hn an ltac:(set_solver)) as [Wn Hmn].
  destruct (IH ltac:(intros; apply Hn; set_solver) (if on_path link (an_FID_to_node an) then hs_insert (an_nodeID an) acc else acc)) as (acc' & E & H).
  exists acc'. split.
  - rw -E. cbn [mfoldl]. unfold mbind, M_bind, check. by rw affects_on_path.
  - intros k. rw H. setoid_rewrite elem_of_cons. destruct (on_path link (an_FID_to_node an)) eqn:Eon; [rw hs_in_insert|];
      naive_solver congruence.
Qed.

Lemma size_keys {V} (t : SH V) : ht_size t = length (ht_keys t).
Proof. unfold ht_size, ht_keys. by rw length_fmap. Qed.

(** Every known node has a path of full width: so after UPDATE_FID_iSUB, not
    after a disconnection from the network. *)
Definition nodes_ready s : Prop :=
  (∀ k an, ht_get k (activeNodeIndex s) = Some an → bv_wf (an_FID_to_node an) ∧ bv_max (an_FID_to_node an) = 255) ∧
  (ht_size (activeNodeIndex s) < 256)%nat.

(** The nodes that lose their path, in some order. *)
Definition lost_nodes s (link : BABitvector) (nodes : list bytes) : Prop :=
  NoDup nodes ∧ ∀ k, k ∈ nodes ↔ ∃ an, ht_get k (activeNodeIndex s) = Some an ∧ on_path link (an_FID_to_node an) = true.

Lemma TM_notification s d link : wf s → nodes_ready s → Forall is_byte d → data_read d 0 FID_LEN = Ok link →
  let f := FID_of_bytes link in ∃ t nodes, lost_nodes s f nodes ∧
    processTMNotification d s = Ok ((), set_out (out s ++ Kill Given ::
      (match nodes with [] => [] | _ => [iSUB_event (gc s) nodes] end)) (set_pubs t s)) ∧
    ∀ k, ht_get k t = failed f <$> ht_get k (activePublicationIndex s).
Proof.
  intros W [Hn Hsz] Hd Hlink f. destruct (is_byte_read _ _ _ _ Hd Hlink) as [Hb Hlen].
  assert (bv_wf f) as Wf by (apply FID_of_bytes_wf; [by rw Hlen|done]). assert (bv_max f = 255) as Hf by done.
  set (p0 := activePublicationIndex s). set (o := out s ++ [Kill Given]).
  destruct (failure_loop s f (ht_elems p0) Wf Hf (ht_elems_nodup p0)) with (t := p0) (o := o) as (t & E & Ht).
  { intros k ap Hin%ht_elem_get. apply (wf_pubs s W _ _ Hin). }
  { intros k ap. by rw ht_elem_get. }
  destruct (affected_fold (set_out o (set_pubs t s)) f (ht_vals (activeNodeIndex s)) Wf Hf) with (acc := ht_empty (T := SH) (V := ())) as (acc & Ea & Ha).
  { intros an [k Hk]%elem_of_ht_vals. by apply (Hn k). }
  assert (∀ k, k ∈ ht_keys acc ↔ ∃ an, ht_get k (activeNodeIndex s) = Some an ∧ on_path f (an_FID_to_node an) = true) as Hkeys.
  { intros k. rw -hs_in_keys Ha. split.
    - intros [H|(an & [j Hj]%elem_of_ht_vals & Hid & Hon)]; [by apply hs_in_empty in H|].
      exists an. rw -Hid (no_id _ _ (wf_nodes s W _ _ Hj)). done.
    - intros (an & Hk & Hon). right. exists an. split_and!; [apply elem_of_ht_vals; by exists k| |done].
      apply (no_id _ _ (wf_nodes s W _ _ Hk)). }
  exists t, (ht_keys acc). split_and!; [by split; [apply ht_keys_nodup|]| |].
  - unfold processTMNotification. rw Hlink lift_check. fold f. unfold mbind, M_bind in *. unfold emit, modify, gets.
    change (set_out (out s ++ [Kill Given]) s) with (set_out o (set_pubs p0 s)). rw E.
    cbn [activeNodeIndex set_out set_pubs] in *. rw Ea.
    rw size_keys. assert (node_ids (ht_keys acc)) as Hids.
    { split.
      - apply Forall_forall. intros k (an & Hk & _)%Hkeys. apply (no_len _ _ (wf_nodes s W _ _ Hk)).
      - assert (length (ht_keys acc) ≤ length (ht_keys (activeNodeIndex s)))%nat as Hle.
        { apply submseteq_length, NoDup_submseteq; [apply ht_keys_nodup|]. intros k (an & Hk & _)%Hkeys. apply elem_of_ht_keys. by eexists. }
        rw size_keys in Hsz. unfold zlen. lia. }
    pose proof (sends_iSUB (set_out o (set_pubs t s)) acc (wf_gc s W) Hids) as Hs. unfold sends in Hs.
    destruct (ht_keys acc) eqn:Ek; cbn [length Nat.eqb]; [by subst o|]. rw Hs. subst o. cbn. by rw -app_assoc.
  - intros k. rw Ht. fold p0. destruct (ht_get k p0) as [ap|] eqn:Ep; [|done]. cbn. f_equal. apply decide_True.
    apply elem_of_ht_keys. by eexists.
Qed.

(** What follows: the next data of the publisher is answered with a
    RE_PUBLISH notification, and the request it repeats then goes to the
    rendezvous element again. *)
Lemma publish_again s k ap h x type d APItype : hosts s !! h = Some x → id_ok k →
  ht_get k (activePublicationIndex s) = Some ap → ap_FID_to_subscribers ap = BABitvector_empty →
  publisher_state h (ap_publishers ap) = RE_PUBLISH →
  sends (handleUserPublication k type d h APItype) () [host_event x Made (notification_bytes RE_PUBLISH k)] s.
Proof.
  intros Hx Hk Hap Hf Hst. unfold sends, handleUserPublication, mbind, M_bind, find_pub, gets. rw Hap. cbn. rw Hf Hst. cbn.
  by apply sends_notification.
Qed.
End notify.
