(* ===== verification/Proxy.v ===== *)
(** * What the LocalProxy guarantees

    The properties of the proxy and of the proxy together with the rendezvous
    element, over any Click tables, each with an instance on the association
    lists of HashTable.v. *)

From S2P Require Import Prelude Enums HashTable BitVector Packet GlobalConf RvStore RvMessages LocalRV RvSafety.
From S2P Require Import ProxyStore LocalProxy ProxyInvariant ProxyRequests ProxyMessages ProxyDisconnect ProxyDelivery.
From S2P Require Import ProxyRendezvous ProxySafety ProxyNotify.

(** ** A small node, for the instances *)

Module Node2.
#[export] Instance tables : ClickTables := alist_tables.

Definition frag (b : Z) : bytes := replicate PURSUIT_ID_LEN b.
Definition A : bytes := frag 1.
Definition I : bytes := frag 3.
Definition fid (b : Z) : BABitvector := FID_of_bytes (b :: replicate (FID_LEN - 1) 0).

(** The node 00000001, whose rendezvous point is its own, and the node
    00000002, which reaches it over the network. *)
Definition g1 : gconf :=
  mkConf [48; 48; 48; 48; 48; 48; 48; 49] true true true true (fid 0) (fid 0) (fid 1) (fid 2).
Definition g2 : gconf :=
  mkConf [48; 48; 48; 48; 48; 48; 48; 50] true false false true (fid 4) (fid 4) (fid 8) (fid 2).

Lemma fid_wf b : is_byte b → bv_wf (fid b) ∧ bv_max (fid b) = 255.
Proof. intros Hb. split; [|done]. apply FID_of_bytes_wf; [done|]. constructor; [done|]. by apply Forall_replicate. Qed.
Lemma g1_ok : gc_ok g1.
Proof. split; [done|right; by apply fid_wf..]. Qed.
Lemma g2_ok : gc_ok g2.
Proof. split; [done|right; by apply fid_wf..]. Qed.

(** An input: port, netlink port of the application, and a request. *)
Record input := mkIn { i_port : Z; i_anno : Z; i_type : Z; i_ID : bytes; i_prefix : bytes; i_strategy : Z }.
Definition input_bytes (i : input) : bytes := request_bytes (i_type i) (i_ID i) (i_prefix i) (i_strategy i).

Fixpoint push_all (l : list input) : X () :=
  match l with [] => mret () | i :: l => LocalProxy_push (i_port i) (i_anno i) (input_bytes i);; push_all l end.
Definition after (m : X ()) (s : proxy) : proxy := match m s with Ok (_, s') => s' | Fault _ => s end.

Definition input_ok (i : input) : Prop :=
  i_port i ≠ 3 ∧ is_request (i_type i) ∧ frag_ok (i_ID i) ∧ frag_ok (i_prefix i) ∧
  names_ok (full_ID (i_ID i) (i_prefix i)) ∧ Forall is_byte (input_bytes i).

Lemma push_all_wf l s : Forall input_ok l → wf s → wf (after (push_all l) s).
Proof.
  intros Hl W. assert (wps (push_all l) (λ _, wf) s) as H.
  { revert s W. induction Hl as [|i l (? & ? & ? & ? & ? & ?) _ IH]; intros s W; [done|].
    apply wps_bind. eapply wps_mono; [apply runs_push; [done|by apply trusted_request]|]. intros []. apply IH. }
  unfold after. unfold wps in H. by destruct (push_all l s) as [[[] s']|].
Qed.

(** Application 10 subscribes to the scope A, in which application 11
    publishes the item I; the rendezvous element subscribes to its scope. *)
Definition inputs : list input := [
  mkIn 1 0 SUBSCRIBE_SCOPE RVScope [] IMPLICIT_RENDEZVOUS;
  mkIn 0 10 SUBSCRIBE_SCOPE A [] DOMAIN_LOCAL;
  mkIn 0 11 PUBLISH_SCOPE A [] DOMAIN_LOCAL;
  mkIn 0 11 PUBLISH_INFO I A DOMAIN_LOCAL].
Definition state : proxy := after (push_all inputs) (proxy0 g1).

(** The conditions, decided. *)
Definition fragb (lo : nat) (k : bytes) : bool :=
  ((length k mod PURSUIT_ID_LEN =? 0) && (lo * PURSUIT_ID_LEN <=? length k) && (length k <=? 255 * PURSUIT_ID_LEN))%nat.
Definition bytesb (l : bytes) : bool := forallb (λ b, (0 <=? b) && (b <? 256)) l.
Definition input_okb (i : input) : bool :=
  negb (i_port i =? 3) &&
  bool_decide (i_type i ∉ [DISCONNECT; PUBLISH_DATA; PUBLISH_DATA_iSUB; PUBLISH_DATA_iMULTICAST]) &&
  fragb 0 (i_ID i) && fragb 0 (i_prefix i) && fragb 1 (full_ID (i_ID i) (i_prefix i)) &&
  bool_decide (full_ID (i_ID i) (i_prefix i) ≠ HTTP_DEFAULT_IID) && bytesb (input_bytes i).

Lemma fragb_ok lo k : fragb lo k = true → ∃ n, (lo ≤ n ≤ 255)%nat ∧ length k = (n * PURSUIT_ID_LEN)%nat.
Proof. unfold fragb, PURSUIT_ID_LEN. intros H. exists (length k / 8)%nat. lia. Qed.
Lemma fragb_frag k : fragb 0 k = true → frag_ok k.
Proof. intros (n & ? & ?)%fragb_ok. exists n. split; [lia|done]. Qed.
Lemma bytesb_ok l : bytesb l = true → Forall is_byte l.
Proof. unfold bytesb. rw forallb_forall. intros H. apply Forall_forall. intros b Hb%list_elem_of_In%H. unfold is_byte. lia. Qed.

Lemma input_okb_ok l : forallb input_okb l = true → Forall input_ok l.
Proof.
  rw forallb_forall. intros H. apply Forall_forall. intros i Hi%list_elem_of_In%H. unfold input_okb in Hi.
  apply andb_true_iff in Hi as [(((((H1 & H2)%andb_true_iff & H3)%andb_true_iff & H4)%andb_true_iff & H5)%andb_true_iff & H6)%andb_true_iff H7].
  split_and!; [lia|by apply bool_decide_eq_true in H2|by apply fragb_frag..| |by apply bytesb_ok].
  split; [by apply (fragb_ok 1)|by apply bool_decide_eq_true in H6].
Qed.

Lemma node_wf : wf state.
Proof. apply push_all_wf; [by apply input_okb_ok|]. apply wf_initial, g1_ok. Qed.
End Node2.

(** ** The properties *)

Section proxy.
Context `{CT : ClickTables}.
Implicit Types (s : proxy) (h : ptr) (k : bytes).

(** [C3] In every state the proxy reaches from its start by trusted packets
    on any of its ports, whatever their bytes and their order, the tables of
    publications, subscriptions, hosts and nodes agree ([wf]).  Any further
    trusted packet is handled to an end, without a null pointer and without a
    deleted host: the run ends in such a state again, or it stops at an access
    outside a buffer (the packet that is read, one that is built) or at an
    assertion about sizes, such as the widths of bit vectors.  It does not
    stop so for a complete pub/sub request from an application or an element
    (a port that is neither that of the network nor that of the mobility
    application), nor for complete data of the network that is not for the
    proxy itself. *)
Theorem proxy_reachable_safe g s (Hg : gc_ok g) (Hs : proxy_reachable g s) :
  wf s ∧ (∀ in_port anno d, trusted in_port anno d s →
    match LocalProxy_push in_port anno d s with
    | Ok (_, s') => proxy_reachable g s' ∧ wf s'
    | Fault f => f = OutOfBounds ∨ f = OutOfRange
    end) ∧
  (∀ in_port anno type ID prefix strategy, in_port ≠ 2 → in_port ≠ 3 → is_request type → frag_ok ID → frag_ok prefix → names_ok (full_ID ID prefix) →
    ∃ s', LocalProxy_push in_port anno (request_bytes type ID prefix strategy) s = Ok ((), s')) ∧
  (∀ anno IDs body, Forall id_ok IDs → (length IDs < 256)%nat → IDs ∉ [[controlReliabilityScope]; [notificationIID (gc s)]; [pathMgmtIID]] →
    ∃ s', LocalProxy_push 2 anno (counted (id_field <$> IDs) ++ PUBLISH_DATA :: body) s = Ok ((), s')).
Proof.
  pose proof (proxy_reachable_wf g s Hg Hs) as W. split; [done|]. split_and!.
  - intros in_port anno d Ht. pose proof (runs_push in_port anno d s W Ht) as H. unfold runs, wps in H.
    destruct (LocalProxy_push in_port anno d s) as [[[] s']|f] eqn:E; [|exact H]. split; [by eapply proxy_step|done].
  - intros in_port anno type ID prefix strategy H2 H3 Hty HI HP [Hid Hne].
    pose proof (request_run in_port anno type ID prefix strategy s H2 H3 Hty HI HP W Hid (λ _, Hne)) as H. cbv zeta in H.
    destruct (in_port =? 0); destruct H as (h & s1 & r & s' & _ & _ & E); by eexists.
  - intros anno IDs body HI Hn Hne. destruct (network_data_run anno IDs body s W HI Hn Hne) as (hs & _ & E). by eexists.
Qed.

(** [C11] A pub/sub request of a live host, of any type, about an identifier
    other than the default HTTP one: it runs to its end; who publishes and who
    subscribes afterwards is what [effect] says (nothing changes if the
    strategy does not fit); nothing else changes, nothing is sent; and the
    result, whether the request goes on to the rendezvous element, is
    [forwarded]: for the first publisher and the last, a publisher that was
    told to publish again, an accepted subscription, the last subscriber. *)
Theorem local_request_correct s type h ID prefix strategy RVFID
    (W : wf s) (Hh : live s h) (Hf : fid_ok RVFID) (Hid : names_ok (full_ID ID prefix)) :
  ∃ r s', handleLocalRequest type h ID prefix strategy RVFID s = Ok (r, s') ∧
    wf s' ∧ same_rest s s' ∧ out s' = out s ∧
    let k := full_ID ID prefix in
    let kind := request_kind type in
    (∀ q j, publishes s' q j ↔ publishes_after (effect s kind h k strategy) h k (publishes s) q j) ∧
    (∀ q j, subscribes s' q j ↔ subscribes_after (effect s kind h k strategy) h k (subscribes s) q j) ∧
    (r ↔ forwarded s s' kind h k strategy).
Proof.
  destruct Hid as [Hid Hne].
  destruct (wp_ok _ _ _ (wp_local_request s type h ID prefix strategy RVFID W Hh Hf Hid (λ _, Hne))) as (r & s' & E & []).
  by exists r, s'.
Qed.

(** [C21] The disconnection of a host that no implicit subscription refers to
    runs to its end and deletes the host; nothing refers to it any more, the
    other hosts publish and subscribe to what they did; a removal request is
    sent for every identifier that it alone published, or subscribed to
    without a local strategy, with the bytes LocalRV reads; and nothing else
    is sent but START_PUBLISH to a publisher that takes over. *)
Theorem disconnect_correct s h (W : wf s) (Hh : live s h) (Hn : may_leave h s) :
  ∃ s' es, disconnect h s = Ok ((), s') ∧ wf s' ∧ hosts s' !! h = None ∧ out s' = out s ++ es ∧
    (∀ q, q ≠ h → host_attrs s' q = host_attrs s q) ∧
    (∀ q k, publishes s' q k ↔ publishes s q k ∧ q ≠ h) ∧
    (∀ q k, subscribes s' q k ↔ subscribes s q k ∧ q ≠ h) ∧
    (∀ k e, due_pub s h k e ∨ due_sub s h k e → e ∈ es) ∧
    (∀ e, e ∈ es → (∃ k, due_pub s h k e) ∨ (∃ k, due_sub s h k e) ∨ takes_over s h e).
Proof.
  destruct (wp_ok _ _ _ (wp_disconnect s h W Hh Hn)) as ([] & s' & E & [W' G H P S N (es & Eo & E1 & E2)]).
  exists s', es. by split_and!.
Qed.

(** From the application to the rendezvous element: a request of an
    application is applied to the host of the application, and if it is to be
    forwarded exactly one packet leaves.  It goes to the LocalRV of this node,
    which then serves that request as a request of this node; or, when the
    rendezvous point is elsewhere, to the network, under the identifier of the
    rendezvous scope of this node.  Otherwise the packet is killed. *)
Theorem application_request_served s anno type ID prefix strategy
    (W : wf s) (Hty : is_request type) (HID : frag_ok ID) (Hp : frag_ok prefix) (Hk : names_ok (full_ID ID prefix)) :
  let rq := request_bytes type ID prefix strategy in
  let RVFID := RVFID_of strategy (gc s) in
  ∃ h s1 r s' e, got_host s LOCAL_PROCESS anno h s1 ∧
    request_done s1 (request_kind type) h (full_ID ID prefix) strategy r s' ∧
    LocalProxy_push 0 anno rq s = Ok ((), set_out (out s ++ [e]) s') ∧
    if r then
      if to_local_RV RVFID (gc s) then
        ∃ b, e = Push 1 None Given (Some <$> b) ∧
          ∀ r, LocalRV_push 0 b r = serve (mkRequest (nodeID (gc s)) type ID prefix strategy) r
      else e = Push 2 None Given (Some <$> bytes_of_FID RVFID ++ counted (id_field <$> [nodeRVScope (gc s)]) ++ rq)
    else e = Kill Given.
Proof.
  intros rq RVFID. destruct Hk as [Hid Hne]. pose proof (wf_gc s W) as Hg.
  destruct (request_run 0 anno type ID prefix strategy s) as (h & s1 & r & s' & Hgot & Hdone & E); try done.
  exists h, s1, r, s'. eexists. split_and!; [done|done|exact E|]. destruct r; [|done]. unfold RV_event. fold RVFID.
  destruct (to_local_RV RVFID (gc s)).
  - eexists. split; [done|]. intros rv. apply LocalRV_reads; [apply Hg|done|done].
  - do 3 f_equal. cbn. rw app_nil_r /id_field (gc_ok_scope _ Hg) //.
Qed.

(** The other half: the packet that the proxy of another node sends (the
    previous theorem) arrives at a node whose rendezvous element, on port 1,
    hears of the rendezvous scope of that node: the element gets it, and
    serves the request as a request of that node. *)
Theorem remote_request_served s anno g type ID prefix strategy h x
    (W : wf s) (Hg : gc_ok g) (Hty : is_request type) (HID : frag_ok ID) (Hp : frag_ok prefix)
    (Hx : hosts s !! h = Some x) (Hrv : lh_type x = CLICK_ELEMENT ∧ lh_id x = 1) (Hears : hears s h (nodeRVScope g)) :
  ∃ es, LocalProxy_push 2 anno (counted (id_field <$> [nodeRVScope g]) ++ request_bytes type ID prefix strategy) s =
      Ok ((), set_out (out s ++ es) s) ∧
    ∃ p b, Push 1 None p (Some <$> b) ∈ es ∧
      ∀ r, LocalRV_push 0 b r = serve (mkRequest (nodeID g) type ID prefix strategy) r.
Proof.
  pose proof (gc_ok_scope g Hg) as Hl. unfold zlen in Hl.
  assert (id_ok (nodeRVScope g)) as Hk by (exists 2%nat; unfold PURSUIT_ID_LEN; lia).
  destruct (network_request_run anno (nodeRVScope g) type ID prefix strategy s W Hk) as (hs & Hr & Hs); [|done|].
  { intros E. by rw E in Hl. }
  eexists. split; [exact Hs|]. assert (h ∈ hs) as Hin.
  { apply Hr. split; [done|]. exists (nodeRVScope g). by split; [apply list_elem_of_singleton|]. }
  destruct (network_copies_in s [nodeRVScope g] hs (request_bytes type ID prefix strategy) PUBLISHED_DATA h x Hin Hx) as [p He].
  rw told_single // in He. cbn [default] in He. unfold host_event in He. destruct Hrv as [Et Ei]. rw Et Ei in He.
  eexists p, _. split; [exact He|]. intros r. rw -(LocalRV_reads (nodeID g) type ID prefix strategy r (go_id g Hg) HID Hp).
  f_equal. unfold data_bytes, frags, zlen. by rw Hl.
Qed.

(** [C23] A publication of the network that is not for the proxy itself goes
    to every local host that subscribed to one of its identifiers or to the
    father scope of one, once, with the last such identifier and the data as
    it came; the last host gets the packet, the others copies; without
    receivers the packet is killed; and nothing else happens. *)
Theorem network_delivery s anno IDs body
    (W : wf s) (HIDs : Forall id_ok IDs) (Hn : (length IDs < 256)%nat)
    (Hne : IDs ∉ [[controlReliabilityScope]; [notificationIID (gc s)]; [pathMgmtIID]]) :
  ∃ hs, NoDup hs ∧ (∀ h, h ∈ hs ↔ ∃ k, k ∈ IDs ∧ hears s h k) ∧
    LocalProxy_push 2 anno (counted (id_field <$> IDs) ++ PUBLISH_DATA :: body) s =
    Ok ((), set_out (out s ++ match hs with
      | [] => [Kill Given]
      | _ => deliveries s (λ h, default [] (told s h IDs)) hs body PUBLISHED_DATA end) s).
Proof.
  destruct (network_data_run anno IDs body s W HIDs Hn Hne) as (hs & [Hnd Hr] & Hs). exists hs.
  split; [done|]. split; [|exact Hs]. intros h. rw Hr. naive_solver.
Qed.

(** [C22] Data of a local publisher [h] without a path of its own, for a
    publication (its own or its father's) that has one: every other local
    host that hears of an identifier of the publication gets it once, and, if
    the path is not empty, one packet goes to the network, with the path,
    all identifiers of the publication and the data. *)
Theorem user_delivery s k type d h APItype k' ap
    (W : wf s) (Hk : id_ok k) (Hty : data_type type) (Hap : publication_of s k = Some (k', ap))
    (Hnn : not_null (ap_FID_to_subscribers ap)) (HIDs : path_ids (publication_IDs s k ap)) :
  ∃ hs, NoDup hs ∧ (∀ q, q ∈ hs ↔ q ≠ h ∧ ∃ j, j ∈ publication_IDs s k ap ∧ hears s q j) ∧
    handleUserPublication k type d h APItype s = Ok ((), set_out (out s ++
      user_copies s (goes_out s type (ap_FID_to_subscribers ap)) (publication_IDs s k ap) type
        (ap_FID_to_subscribers ap) k hs d APItype) s).
Proof.
  destruct (sends_user s k type d h APItype k' ap W Hk Hty Hap Hnn HIDs) as (hs & [Hnd Hr] & Hs). exists hs.
  split; [done|]. split; [|exact Hs]. intros q. rw Hr. naive_solver.
Qed.

(** The same with a path that comes with the data (LINK_LOCAL,
    IMPLICIT_RENDEZVOUS, BROADCAST_IF): the data leaves over that path, under
    the identifiers that the father of [k] gives and [k] itself; but not when
    it is for the topology manager and a local host gets it. *)
Theorem path_delivery s k type FID d h APItype
    (W : wf s) (Hk : id_ok k) (Hty : data_type type) (Hf : FID_read FID = Ok (bytes_of_FID FID)) (HIDs : path_ids (IDs_known s k)) :
  ∃ hs, NoDup hs ∧ (∀ q, q ∈ hs ↔ q ≠ h ∧ ∃ j, j ∈ IDs_known s k ∧ hears s q j) ∧
    handleUserPublicationFID k type FID d h APItype s =
    Ok ((), set_out (out s ++ path_copies s (IDs_known s k) type FID k hs d APItype) s).
Proof.
  destruct (sends_path s k type FID d h APItype W Hk Hty Hf HIDs) as (hs & [Hnd Hr] & Hs). exists hs.
  split; [done|]. split; [|exact Hs]. intros q. rw Hr. naive_solver.
Qed.

(** From node to node: what the proxy of one node sends to the network
    for a publication is, without its path, what the proxy of another node
    delivers: the same identifiers, the same data, to every host there that
    hears of one of them. *)
Theorem data_crosses_network s1 s2 anno k d h k' ap
    (W1 : wf s1) (W2 : wf s2) (Hk : id_ok k) (Hap : publication_of s1 k = Some (k', ap))
    (Hnn : not_null (ap_FID_to_subscribers ap)) (HIDs : path_ids (publication_IDs s1 k ap))
    (Hok : Forall id_ok (publication_IDs s1 k ap))
    (Hne : publication_IDs s1 k ap ∉ [[controlReliabilityScope]; [notificationIID (gc s2)]; [pathMgmtIID]]) :
  let IDs := publication_IDs s1 k ap in
  ∃ b es hs, handleUserPublication k (Some PUBLISH_DATA) d h PUBLISHED_DATA s1 = Ok ((), set_out (out s1 ++ es) s1) ∧
    Push 2 None Made (Some <$> bytes_of_FID (ap_FID_to_subscribers ap) ++ b) ∈ es ∧
    NoDup hs ∧ (∀ q, q ∈ hs ↔ ∃ j, j ∈ IDs ∧ hears s2 q j) ∧
    LocalProxy_push 2 anno b s2 = Ok ((), set_out (out s2 ++ network_copies s2 IDs hs d PUBLISHED_DATA) s2).
Proof.
  intros IDs. destruct (sends_user s1 k (Some PUBLISH_DATA) d h PUBLISHED_DATA k' ap W1 Hk (or_introl eq_refl) Hap Hnn HIDs) as (hs1 & _ & E1).
  destruct (network_data_run anno IDs d s2 W2 Hok) as (hs & [Hnd Hr] & E2); [destruct HIDs as [_ Hn]; unfold zlen in Hn; subst IDs; lia|done|].
  eexists _, _, hs. split_and!; [exact E1| |done|intros q; rw Hr; naive_solver|exact E2].
  assert (goes_out s1 (Some PUBLISH_DATA) (ap_FID_to_subscribers ap) = true) as Hout.
  { unfold goes_out. rw orb_false_r. by apply Is_true_true in Hnn. }
  unfold user_copies. rw Hout. assert (∀ p, Push 2 None Made (Some <$> bytes_of_FID (ap_FID_to_subscribers ap) ++
    counted (id_field <$> IDs) ++ PUBLISH_DATA :: d) ∈ remote_events (gc s1) IDs (Some PUBLISH_DATA) (ap_FID_to_subscribers ap) p d) as Hin.
  { intros p. cbn. set_solver. }
  destruct hs1; [apply Hin|]. apply elem_of_app. left. apply Hin.
Qed.

(** The answer of the rendezvous element: the START_PUBLISH notification
    that LocalRV builds for the proxy of its node is read by that proxy as it
    was meant: every known publication among the identifiers gets all of them
    and the internal forwarding identifier as its path, its first publisher is
    in the state START_PUBLISH and is told so, once; nothing else changes. *)
Theorem rendezvous_starts_publisher s anno IDs
    (W : wf s) (Hg : gconf_wf (gc s)) (HIDs : path_ids IDs) (Hnd : NoDup IDs) :
  let path := FID_of_bytes (bytes_of_FID (iLID (gc s))) in
  ∃ b h s1 t, encode (gc s) (LocalPublisher START_PUBLISH IDs true) = Ok (Some <$> b) ∧ got_host s CLICK_ELEMENT 1 h s1 ∧
    LocalProxy_push 1 anno b s = Ok ((), set_out (out s ++
      first_events s1 START_PUBLISH (activePublicationIndex s) IDs ++ [Kill Given]) (set_pubs t s1)) ∧
    (∀ j, ht_get j t = started IDs path j <$> ht_get j (activePublicationIndex s)) ∧
    BABitvector_eqb path (iLID (gc s)) = true.
Proof.
  intros path. set (g := gc s) in *. pose proof (iLID_len g Hg) as Hlen.
  destruct (push_notification s anno (START_PUBLISH :: counted (id_field <$> IDs) ++ bytes_of_FID (iLID g)) (bytes_of_FID (iLID g)) W Hg Hlen)
    as (h & s1 & Hgot & E).
  destruct (start_notification s1 IDs (bytes_of_FID (iLID g)) (gh_wf _ _ _ _ _ Hgot) Hlen Hnd (path_ids_ok IDs HIDs)) as (t & Et & Ht).
  rw (gh_pubs _ _ _ _ _ Hgot) (gh_out _ _ _ _ _ Hgot) in Et Ht.
  eexists _, h, s1, t. split_and!; [exact (local_publisher_layout g Hg START_PUBLISH IDs true HIDs)|done| |done|].
  - cbn [layout] in *. rw E. unfold mbind, M_bind. rw Et. unfold emit, modify. cbn. by rw -app_assoc.
  - destruct (gc_ilid _ Hg) as [Wl Hl]. by destruct (FID_of_bytes_of_FID (iLID g) Wl Hl) as (_ & _ & H & _).
Qed.

(** [C25] A link failure and what follows, when there are fewer than 256 known
    nodes and each has a path of full width ([nodes_ready]; it is not so after
    SET_CONNECTION_STATUS has taken the paths, where the notification meets an
    assertion).  The notification of the topology manager with the identifier
    of a link: exactly the publications of items whose path contains the link
    lose it, and whoever was publishing is to publish again ([failed]); for the
    nodes whose path contains the link, if any, new paths are asked for; the
    packet is killed.  Then the first data of such a publisher is answered by
    RE_PUBLISH, and when the application publishes again the request goes to
    the rendezvous element although the publication is known. *)
Theorem link_failure_recovery s d link
    (W : wf s) (Hn : nodes_ready s) (Hd : Forall is_byte d) (Hlink : data_read d 0 FID_LEN = Ok link) :
  ∃ s' nodes, lost_nodes s (FID_of_bytes link) nodes ∧
    processTMNotification d s = Ok ((), s') ∧
    out s' = out s ++ Kill Given :: (match nodes with [] => [] | _ => [iSUB_event (gc s) nodes] end) ∧
    (∀ k, ht_get k (activePublicationIndex s') = failed (FID_of_bytes link) <$> ht_get k (activePublicationIndex s)) ∧
    ∀ k ap h x data, ht_get k (activePublicationIndex s) = Some ap → loses_path (FID_of_bytes link) ap = true →
      ht_get h (ap_publishers ap) = Some START_PUBLISH → hosts s !! h = Some x →
      handleUserPublication k (Some PUBLISH_DATA) data h PUBLISHED_DATA s' =
        Ok ((), set_out (out s' ++ [host_event x Made (notification_bytes RE_PUBLISH k)]) s') ∧
      ∀ RVFID, storeActivePublication h k DOMAIN_LOCAL RVFID false s' = Ok (true, s').
Proof.
  destruct (TM_notification s d link W Hn Hd Hlink) as (t & nodes & Hl & E & Ht).
  eexists _, nodes. split_and!; [done|exact E|done|exact Ht|].
  intros k ap h x data Hap Hlose Hst Hx. set (s' := set_out _ _).
  assert (ht_get k (activePublicationIndex s') = Some (failed (FID_of_bytes link) ap)) as Hap'.
  { subst s'. cbn. by rw Ht Hap. }
  assert (publisher_state h (ap_publishers (failed (FID_of_bytes link) ap)) = RE_PUBLISH) as Hre.
  { unfold failed, publisher_state. rw Hlose. cbn. by rw get_change_publishers Hst. }
  split.
  - apply (publish_again s' k (failed (FID_of_bytes link) ap)); [done|apply (po_len _ _ (wf_pubs s W _ _ Hap))|done| |done].
    unfold failed. by rw Hlose.
  - intros RVFID. clearbody s'. unfold storeActivePublication. change (negb (proxy_strategy DOMAIN_LOCAL)) with false.
    unfold mbind at 1, M_bind at 1, find_pub, gets. cbv beta iota. by rw Hap' Hre.
Qed.
End proxy.

(** ** Instances *)

Module Run2.
Export Node2.

Lemma push_all_reachable g l s : gc_ok g → Forall input_ok l → proxy_reachable g s → proxy_reachable g (after (push_all l) s).
Proof.
  intros Hg Hl Hs. enough (match push_all l s with Ok (_, s') => proxy_reachable g s' | Fault _ => True end) as H.
  { unfold after. by destruct (push_all l s) as [[]|]. }
  revert s Hs. induction Hl as [|i l (? & ? & ? & ? & ? & ?) _ IH]; intros s Hs; [done|].
  cbn [push_all]. unfold mbind, M_bind. destruct (LocalProxy_push _ _ _ s) as [[[] s']|] eqn:E; [|done].
  apply IH. eapply proxy_step; [done| |exact E]. by apply trusted_request.
Qed.

Lemma state_reachable : proxy_reachable g1 state.
Proof. apply push_all_reachable; [apply g1_ok|by apply input_okb_ok|apply proxy_start]. Qed.

(** The proxy after the rendezvous element has started the publication, and
    the proxy of the other node. *)
Definition k : bytes := A ++ I.
Definition start_bytes : bytes := layout g1 (LocalPublisher START_PUBLISH [k] true).
Definition state2 : proxy := after (LocalProxy_push 1 0 start_bytes) state.
Definition state_b : proxy := after (push_all inputs) (proxy0 g2).

Lemma start_trusted s : trusted 1 0 start_bytes s.
Proof.
  split; [by apply bytesb_ok|]. intros _ h s' _. split_and!.
  - intros E. by vm_compute in E.
  - intros _ b E. by vm_compute in E.
  - intros E. by vm_compute in E.
  - intros type [= <-] H. exfalso. apply H. set_solver.
Qed.

Lemma state2_wf : wf state2.
Proof.
  pose proof (runs_push 1 0 start_bytes state node_wf (start_trusted state)) as H. unfold runs, wps in H.
  unfold state2, after. destruct (LocalProxy_push 1 0 start_bytes state) as [[]|]; [done|apply node_wf].
Qed.
Lemma state_b_wf : wf state_b.
Proof. apply push_all_wf; [by apply input_okb_ok|]. apply wf_initial, g2_ok. Qed.

Definition item : ActivePublication :=
  match ht_get k (activePublicationIndex state2) with Some ap => ap | None => mkAP [] 0 ht_empty [] (fid 0) (fid 0) false end.
(** The hosts of the two applications. *)
Definition subscriber : ptr := 1%nat.
Definition publisher : ptr := 2%nat.
Definition host_at (s : proxy) (h : ptr) : LocalHost := default (mkLH LOCAL_PROCESS 0 ht_empty ht_empty) (hosts s !! h).

Lemma k_ok : id_ok k ∧ names_ok k ∧ path_ids [k].
Proof.
  assert (id_ok k) as H by (by exists 2%nat; split; [lia|]). split_and!; [done|by split|]. split; [|done]. by repeat constructor.
Qed.
Lemma g1_wf : gconf_wf g1.
Proof.
  split; try (by apply fid_wf); [done|]. split; [by apply fid_wf|left; done].
Qed.
Lemma no_nodes : ht_elems (activeNodeIndex state2) = [] ∧ ht_elems (activeNodeIndex state) = [].
Proof. by vm_compute. Qed.
Lemma state_may_leave h : may_leave h state.
Proof.
  intros j (an & H & _). apply ht_elem_get in H. destruct no_nodes as [_ E]. by rw E in H; apply elem_of_nil in H.
Qed.
End Run2.

Section instances.
Import Run2.

Lemma state_live h : bool_decide (is_Some (hosts state !! h)) = true → live state h.
Proof. apply bool_decide_eq_true_1. Qed.

Lemma host_at_live s h : bool_decide (is_Some (hosts s !! h)) = true → hosts s !! h = Some (host_at s h).
Proof. intros [x E]%bool_decide_eq_true. unfold host_at. by rw E. Qed.

Lemma proxy_reachable_safe_witness :
  gc_ok g1 ∧ proxy_reachable g1 state ∧ wf state ∧ trusted 1 0 start_bytes state ∧
  match LocalProxy_push 1 0 start_bytes state with
  | Ok (_, s') => proxy_reachable g1 s' ∧ wf s' | Fault f => f = OutOfBounds ∨ f = OutOfRange end.
Proof.
  destruct (proxy_reachable_safe g1 state g1_ok state_reachable) as [W H]. split_and!; [exact g1_ok|exact state_reachable|exact W|exact (start_trusted state)|].
  exact (proj1 H 1 0 start_bytes (start_trusted state)).
Defined.

(** The item is unpublished: the last publisher, so the request goes on. *)
Lemma local_request_correct_witness :
  wf state ∧ live state publisher ∧ ∃ r s', handleLocalRequest UNPUBLISH_INFO publisher I A DOMAIN_LOCAL (fid 0) state = Ok (r, s') ∧
    wf s' ∧ r = true ∧ ¬ publishes s' publisher k.
Proof.
  assert (live state publisher) as Hh by by apply state_live.
  assert (names_ok (full_ID I A)) as Hk by apply k_ok. assert (fid_ok (fid 0)) as Hf by (right; by apply fid_wf).
  destruct (local_request_correct state UNPUBLISH_INFO publisher I A DOMAIN_LOCAL (fid 0) node_wf Hh Hf Hk)
    as (r & s' & E & W & _ & _ & P & _ & F).
  split; [exact node_wf|]. split; [exact Hh|]. exists r, s'. split; [exact E|]. split; [exact W|].
  assert (effect state (request_kind UNPUBLISH_INFO) publisher (full_ID I A) DOMAIN_LOCAL = StopPub) as Heff by by vm_compute.
  split; last first.
  { cbv zeta in P. rw Heff in P. intros [_ H]%P. apply H. split; reflexivity. }
  assert ((λ x : res (bool * proxy), match x with Ok (r, _) => r | Fault _ => false end)
    (handleLocalRequest UNPUBLISH_INFO publisher I A DOMAIN_LOCAL (fid 0) state) = true) as Hr by by vm_compute.
  by rw E in Hr.
Defined.

(** Application 11 goes: two removal requests for the rendezvous element. *)
Lemma disconnect_correct_witness :
  wf state ∧ live state publisher ∧ may_leave publisher state ∧ ∃ s' es, disconnect publisher state = Ok ((), s') ∧
    wf s' ∧ hosts s' !! publisher = None ∧ out s' = out state ++ es ∧ length es = 2%nat ∧
    ∀ q j, publishes s' q j ↔ publishes state q j ∧ q ≠ publisher.
Proof.
  assert (live state publisher) as Hh by by apply state_live. pose proof (state_may_leave publisher) as Hn.
  destruct (disconnect_correct state publisher node_wf Hh Hn) as (s' & es & E & W & G & Eo & _ & P & _).
  split; [exact node_wf|]. split; [exact Hh|]. split; [exact Hn|]. exists s', es. refine (conj E (conj W (conj G (conj Eo (conj _ P))))).
  assert (length (out (after (disconnect publisher) state)) = (length (out state) + 2)%nat) as Hl by by vm_compute.
  unfold after in Hl. rw E Eo length_app in Hl. lia.
Defined.

(** Application 10 publishes a new scope. *)
Lemma application_request_served_witness :
  wf state ∧ ∃ s' b, LocalProxy_push 0 10 (request_bytes PUBLISH_SCOPE (frag 5) A DOMAIN_LOCAL) state =
      Ok ((), set_out (out state ++ [Push 1 None Given (Some <$> b)]) s') ∧
    ∀ r, LocalRV_push 0 b r = serve (mkRequest (nodeID g1) PUBLISH_SCOPE (frag 5) A DOMAIN_LOCAL) r.
Proof.
  split; [exact node_wf|]. assert (frag_ok (frag 5) ∧ frag_ok A) as [HI HA] by (split; by apply fragb_frag).
  assert (is_request PUBLISH_SCOPE) as Hty by (unfold is_request; set_solver).
  assert (names_ok (full_ID (frag 5) A)) as Hk by (split; [by apply (fragb_ok 1)|done]).
  destruct (application_request_served state 10 PUBLISH_SCOPE (frag 5) A DOMAIN_LOCAL node_wf Hty HI HA Hk)
    as (h & s1 & r & s' & e & Hgot & Hdone & E & He).
  assert (gc state = g1) as Hg by by vm_compute. rw Hg in He.
  assert (to_local_RV (RVFID_of DOMAIN_LOCAL g1) g1 = true) as Hl by by vm_compute.
  cbv zeta in He. rw Hl in He. destruct r.
  - destruct He as (b & -> & Hb). exists s', b. split; [exact E|exact Hb].
  - exfalso. assert ((λ x : res (() * proxy), match x with Ok (_, s') => last (out s') | Fault _ => None end)
      (LocalProxy_push 0 10 (request_bytes PUBLISH_SCOPE (frag 5) A DOMAIN_LOCAL) state) ≠ Some (Kill Given)) as Hlast by by vm_compute.
    apply Hlast. rw E He. cbn [out set_out]. apply last_snoc.
Defined.

Lemma fid_read b : is_byte b → FID_read (fid b) = Ok (bytes_of_FID (fid b)).
Proof. intros Hb. apply FID_read_ok; by apply fid_wf. Qed.

(** The LocalRV of the node, on port 1, hears of all rendezvous scopes. *)
Lemma remote_request_served_witness :
  wf state ∧ ∃ es, LocalProxy_push 2 0 (counted (id_field <$> [nodeRVScope g2]) ++ request_bytes PUBLISH_SCOPE I A DOMAIN_LOCAL) state =
      Ok ((), set_out (out state ++ es) state) ∧
    ∃ p b, Push 1 None p (Some <$> b) ∈ es ∧
      ∀ r, LocalRV_push 0 b r = serve (mkRequest (nodeID g2) PUBLISH_SCOPE I A DOMAIN_LOCAL) r.
Proof.
  split; [exact node_wf|]. assert (frag_ok I ∧ frag_ok A) as [HI HA] by (split; by apply fragb_frag).
  assert (is_request PUBLISH_SCOPE) as Hty by (unfold is_request; set_solver).
  assert (hosts state !! 0%nat = Some (host_at state 0)) as Hx by by apply host_at_live.
  assert (lh_type (host_at state 0) = CLICK_ELEMENT ∧ lh_id (host_at state 0) = 1) as Hrv by (split; vm_compute; reflexivity).
  assert (bool_decide (hears state 0%nat (nodeRVScope g2)) = true) as Hears by by vm_compute.
  apply bool_decide_eq_true in Hears.
  exact (remote_request_served state 0 g2 PUBLISH_SCOPE I A DOMAIN_LOCAL 0%nat (host_at state 0) node_wf g2_ok Hty HI HA Hx Hrv Hears).
Defined.

(** Application 10 gets the data of an item in the scope it subscribed to. *)
Lemma network_delivery_witness :
  wf state ∧ ∃ hs, NoDup hs ∧ (∀ h, h ∈ hs ↔ ∃ j, j ∈ [k] ∧ hears state h j) ∧
    LocalProxy_push 2 0 (counted (id_field <$> [k]) ++ [PUBLISH_DATA; 1; 2; 3]) state =
    Ok ((), set_out (out state ++ match hs with
      | [] => [Kill Given]
      | _ => deliveries state (λ h, default [] (told state h [k])) hs [1; 2; 3] PUBLISHED_DATA end) state).
Proof.
  split; [exact node_wf|]. assert (Forall id_ok [k]) as HIDs by (constructor; [apply k_ok|constructor]).
  assert ([k] ∉ [[controlReliabilityScope]; [notificationIID (gc state)]; [pathMgmtIID]]) as Hne.
  { apply (bool_decide_eq_true_1 _). by vm_compute. }
  exact (network_delivery state 0 [k] [1; 2; 3] node_wf HIDs ltac:(cbn; lia) Hne).
Defined.

(** Application 11 publishes data, once its publication has started. *)
Lemma item_published : publication_of state2 k = Some (k, item) ∧ not_null (ap_FID_to_subscribers item) = true ∧
  publication_IDs state2 k item = [k].
Proof. by vm_compute. Qed.

Lemma user_delivery_witness :
  wf state2 ∧ not_null (ap_FID_to_subscribers item) ∧ ∃ hs, NoDup hs ∧
    (∀ q, q ∈ hs ↔ q ≠ publisher ∧ ∃ j, j ∈ publication_IDs state2 k item ∧ hears state2 q j) ∧
    handleUserPublication k (Some PUBLISH_DATA) [1; 2] publisher PUBLISHED_DATA state2 = Ok ((), set_out (out state2 ++
      user_copies state2 (goes_out state2 (Some PUBLISH_DATA) (ap_FID_to_subscribers item)) (publication_IDs state2 k item)
        (Some PUBLISH_DATA) (ap_FID_to_subscribers item) k hs [1; 2] PUBLISHED_DATA) state2).
Proof.
  destruct item_published as (Hap & Hnn & HIDs). split; [exact state2_wf|]. apply Is_true_true in Hnn. split; [exact Hnn|].
  assert (path_ids (publication_IDs state2 k item)) as Hp by (rw HIDs; apply k_ok).
  exact (user_delivery state2 k (Some PUBLISH_DATA) [1; 2] publisher PUBLISHED_DATA k item state2_wf (proj1 k_ok) (or_introl eq_refl) Hap Hnn Hp).
Defined.

Lemma path_delivery_witness :
  wf state ∧ ∃ hs, NoDup hs ∧ (∀ q, q ∈ hs ↔ q ≠ publisher ∧ ∃ j, j ∈ IDs_known state k ∧ hears state q j) ∧
    handleUserPublicationFID k (Some PUBLISH_DATA) (fid 4) [1; 2] publisher PUBLISHED_DATA state =
    Ok ((), set_out (out state ++ path_copies state (IDs_known state k) (Some PUBLISH_DATA) (fid 4) k hs [1; 2] PUBLISHED_DATA) state).
Proof.
  split; [exact node_wf|]. assert (IDs_known state k = [k]) as HIDs by by vm_compute.
  assert (path_ids (IDs_known state k)) as Hp by (rw HIDs; apply k_ok).
  exact (path_delivery state k (Some PUBLISH_DATA) (fid 4) [1; 2] publisher PUBLISHED_DATA node_wf (proj1 k_ok) (or_introl eq_refl)
    (fid_read 4 ltac:(unfold is_byte; lia)) Hp).
Defined.

Lemma data_crosses_network_witness :
  wf state2 ∧ wf state_b ∧ ∃ b es hs, handleUserPublication k (Some PUBLISH_DATA) [7] publisher PUBLISHED_DATA state2 =
      Ok ((), set_out (out state2 ++ es) state2) ∧
    Push 2 None Made (Some <$> bytes_of_FID (ap_FID_to_subscribers item) ++ b) ∈ es ∧
    NoDup hs ∧ (∀ q, q ∈ hs ↔ ∃ j, j ∈ publication_IDs state2 k item ∧ hears state_b q j) ∧
    LocalProxy_push 2 0 b state_b = Ok ((), set_out (out state_b ++ network_copies state_b (publication_IDs state2 k item) hs [7] PUBLISHED_DATA) state_b).
Proof.
  destruct item_published as (Hap & Hnn & HIDs). apply Is_true_true in Hnn. split; [exact state2_wf|]. split; [exact state_b_wf|].
  assert (path_ids (publication_IDs state2 k item)) as Hp by (rw HIDs; apply k_ok).
  assert (Forall id_ok (publication_IDs state2 k item)) as Hok by (rw HIDs; constructor; [apply k_ok|constructor]).
  assert (publication_IDs state2 k item ∉ [[controlReliabilityScope]; [notificationIID (gc state_b)]; [pathMgmtIID]]) as Hne.
  { rw HIDs. apply (bool_decide_eq_true_1 _). by vm_compute. }
  exact (data_crosses_network state2 state_b 0 k [7] publisher k item state2_wf state_b_wf (proj1 k_ok) Hap Hnn Hp Hok Hne).
Defined.

Lemma rendezvous_starts_publisher_witness :
  wf state ∧ gc state = g1 ∧ ∃ b h s1 t, encode (gc state) (LocalPublisher START_PUBLISH [k] true) = Ok (Some <$> b) ∧
    got_host state CLICK_ELEMENT 1 h s1 ∧
    LocalProxy_push 1 0 b state = Ok ((), set_out (out state ++
      first_events s1 START_PUBLISH (activePublicationIndex state) [k] ++ [Kill Given]) (set_pubs t s1)).
Proof.
  split; [exact node_wf|]. assert (gc state = g1) as Hg by by vm_compute. split; [exact Hg|].
  assert (gconf_wf (gc state)) as Hw by (rw Hg; exact g1_wf).
  assert (NoDup [k]) as Hnd by apply NoDup_singleton.
  destruct (rendezvous_starts_publisher state 0 [k] node_wf Hw (proj2 (proj2 k_ok)) Hnd) as (b & h & s1 & t & E & Hgot & Erun & _).
  exists b, h, s1, t. exact (conj E (conj Hgot Erun)).
Defined.

(** The internal link fails: the item loses its path. *)
Lemma state2_ready : nodes_ready state2.
Proof.
  destruct no_nodes as [E _]. split; [|unfold ht_size; rw E; cbn; lia].
  intros j an H. apply ht_elem_get in H. rw E in H. destruct (proj1 (elem_of_nil _) H).
Qed.

Lemma link_failure_recovery_witness :
  wf state2 ∧ nodes_ready state2 ∧ loses_path (FID_of_bytes (bytes_of_FID (fid 1))) item = true ∧
  ∃ s', processTMNotification (bytes_of_FID (fid 1)) state2 = Ok ((), s') ∧
    handleUserPublication k (Some PUBLISH_DATA) [7] publisher PUBLISHED_DATA s' =
      Ok ((), set_out (out s' ++ [host_event (host_at state2 publisher) Made (notification_bytes RE_PUBLISH k)]) s') ∧
    storeActivePublication publisher k DOMAIN_LOCAL (fid 0) false s' = Ok (true, s').
Proof.
  split; [exact state2_wf|]. split; [exact state2_ready|].
  assert (loses_path (FID_of_bytes (bytes_of_FID (fid 1))) item = true) as Hlose by by vm_compute. split; [exact Hlose|].
  assert (Forall is_byte (bytes_of_FID (fid 1))) as Hd by by apply bytesb_ok.
  assert (data_read (bytes_of_FID (fid 1)) 0 FID_LEN = Ok (bytes_of_FID (fid 1))) as Hr by by vm_compute.
  destruct (link_failure_recovery state2 _ _ state2_wf state2_ready Hd Hr) as (s' & nodes & _ & E & _ & _ & H).
  assert (ht_get k (activePublicationIndex state2) = Some item) as Hap by by vm_compute.
  assert (ht_get publisher (ap_publishers item) = Some START_PUBLISH) as Hst by by vm_compute.
  assert (hosts state2 !! publisher = Some (host_at state2 publisher)) as Hx by by apply host_at_live.
  destruct (H k item publisher (host_at state2 publisher) [7] Hap Hlose Hst Hx) as [H1 H2].
  exists s'. exact (conj E (conj H1 (H2 (fid 0)))).
Defined.
End instances.
