(* ===== verification/ClientApi.v ===== *)
(** * The client library

    lib/blackadder.{hpp,cpp}: what an application hands to the socket for each
    method of the class Blackadder, and the Event it gets from a message; the
    same messages of lib/nb_blackadder.cpp; the string functions, and the
    hashes of lib/ba_fnv.hpp that make identifiers.

    A message is the length in its netlink header and the bytes after the
    header.  Opening and closing the socket is I/O. *)

From S2P Require Import Prelude Enums BitVector Packet RvMessages.

(** ** Requests *)

Definition NLMSGHDR : nat := 16.

Record datagram := mkDg { nlmsg_len : Z; dg_payload : bytes }.

(** [str_opt] and [str_opt_len]: [None] is the null pointer. *)
Definition opt_bytes (str_opt : option bytes) : bytes := default [] str_opt.

(** [unsigned char id_len = id.length() / PURSUIT_ID_LEN] *)
Definition id_len (id : bytes) : Z := u8 (zlen id / Z.of_nat PURSUIT_ID_LEN).

Definition create_and_send_buffers (type : Z) (id prefix_id : bytes) (strategy : Z) (str_opt : option bytes) : datagram :=
  mkDg (u32 (Z.of_nat NLMSGHDR + 1 + 1 + zlen id + 1 + zlen prefix_id + 1 + zlen (opt_bytes str_opt)))
    ([type] ++ [id_len id] ++ id ++ [id_len prefix_id] ++ prefix_id ++ [strategy] ++ opt_bytes str_opt).

Definition wrong_size (id : bytes) : bool := negb (zlen id mod Z.of_nat PURSUIT_ID_LEN =? 0).
Definition is_empty (id : bytes) : bool := zlen id =? 0.
Definition multiple_fragments (id : bytes) : bool := zlen id / Z.of_nat PURSUIT_ID_LEN >? 1.

(** [None]: a message on the console and nothing is sent. *)
Definition Blackadder_publish_scope (id prefix_id : bytes) (strategy : Z) (str_opt : option bytes) : option datagram :=
  if wrong_size id then None else if wrong_size prefix_id then None else if is_empty id then None
  else Some (create_and_send_buffers PUBLISH_SCOPE id prefix_id strategy str_opt).

(** The source tests [prefix_id] twice. *)
Definition Blackadder_publish_info (id prefix_id : bytes) (strategy : Z) (str_opt : option bytes) : option datagram :=
  if wrong_size id then None else if wrong_size prefix_id then None else if is_empty prefix_id then None
  else if is_empty prefix_id then None
  else Some (create_and_send_buffers PUBLISH_INFO id prefix_id strategy str_opt).

Definition Blackadder_unpublish_scope (id prefix_id : bytes) (strategy : Z) (str_opt : option bytes) : option datagram :=
  if wrong_size id then None else if wrong_size prefix_id then None else if is_empty id then None
  else if multiple_fragments id then None
  else Some (create_and_send_buffers UNPUBLISH_SCOPE id prefix_id strategy str_opt).

Definition Blackadder_unpublish_info (id prefix_id : bytes) (strategy : Z) (str_opt : option bytes) : option datagram :=
  if wrong_size id then None else if wrong_size prefix_id then None else if is_empty id then None
  else if is_empty prefix_id then None else if multiple_fragments id then None
  else Some (create_and_send_buffers UNPUBLISH_INFO id prefix_id strategy str_opt).

Definition Blackadder_subscribe_scope (id prefix_id : bytes) (strategy : Z) (str_opt : option bytes) : option datagram :=
  if wrong_size id then None else if wrong_size prefix_id then None else if is_empty id then None
  else if multiple_fragments id then None
  else Some (create_and_send_buffers SUBSCRIBE_SCOPE id prefix_id strategy str_opt).

Definition Blackadder_subscribe_info (id prefix_id : bytes) (strategy : Z) (str_opt : option bytes) : option datagram :=
  if wrong_size id then None else if wrong_size prefix_id then None else if is_empty id then None
  else if is_empty prefix_id then None else if multiple_fragments id then None
  else Some (create_and_send_buffers SUBSCRIBE_INFO id prefix_id strategy str_opt).

Definition Blackadder_unsubscribe_scope (id prefix_id : bytes) (strategy : Z) (str_opt : option bytes) : option datagram :=
  if wrong_size id then None else if wrong_size prefix_id then None else if is_empty id then None
  else if multiple_fragments id then None
  else Some (create_and_send_buffers UNSUBSCRIBE_SCOPE id prefix_id strategy str_opt).

Definition Blackadder_unsubscribe_info (id prefix_id : bytes) (strategy : Z) (str_opt : option bytes) : option datagram :=
  if wrong_size id then None else if wrong_size prefix_id then None else if is_empty id then None
  else if is_empty prefix_id then None else if multiple_fragments id then None
  else Some (create_and_send_buffers UNSUBSCRIBE_INFO id prefix_id strategy str_opt).

(** ** Data *)

Definition Blackadder_publish_data (id : bytes) (strategy : Z) (str_opt : option bytes) (data : bytes) : option datagram :=
  if wrong_size id then None else
  Some (mkDg (u32 (Z.of_nat NLMSGHDR + 1 + 1 + zlen id + 1 + zlen (opt_bytes str_opt) + zlen data))
    ([PUBLISH_DATA] ++ [id_len id] ++ id ++ [strategy] ++ opt_bytes str_opt ++ data)).

(** To a set of nodes.  The identifiers of the nodes are joined and as many
    bytes are taken as their number, a byte, asks for. *)
Definition Blackadder_publish_data_nodes (id : bytes) (strategy : Z) (str_opt : option bytes) (nodeIds : list bytes)
    (data : bytes) : res (option datagram) :=
  if wrong_size id then Ok None else
  let nodeIdListSize := u8 (zlen nodeIds) in
  nodes ← c_str_read (mjoin nodeIds) (Z.to_nat nodeIdListSize * NODEID_LEN);
  Ok (Some (mkDg (u32 (Z.of_nat NLMSGHDR + 1 + 1 + zlen id + 1 + 1 + nodeIdListSize * Z.of_nat NODEID_LEN
      + zlen (opt_bytes str_opt) + zlen data))
    ([PUBLISH_DATA_iMULTICAST] ++ [id_len id] ++ id ++ [strategy] ++ opt_bytes str_opt ++ [nodeIdListSize] ++ nodes ++ data))).

(** With an implicit subscription to [isubID]. *)
Definition Blackadder_publish_data_isub (id : bytes) (strategy : Z) (str_opt : option bytes) (isubID data : bytes)
    : option datagram :=
  if wrong_size id then None else
  let n := id_len isubID * Z.of_nat PURSUIT_ID_LEN in
  Some (mkDg (u32 (Z.of_nat NLMSGHDR + 1 + 1 + zlen id + 1 + 1 + n + zlen (opt_bytes str_opt) + zlen data))
    ([PUBLISH_DATA_iSUB] ++ [id_len id] ++ id ++ [strategy] ++ opt_bytes str_opt ++ [id_len isubID]
      ++ take (Z.to_nat n) isubID ++ data)).

Definition Blackadder_disconnect : datagram := mkDg (Z.of_nat NLMSGHDR + 1) [DISCONNECT].

(** ** Events *)

(** [data] points into the buffer; [None] is the null pointer. *)
Record Event := mkEv {
  ev_type : Z;
  ev_id : bytes;
  ev_nodeId : bytes;
  ev_isubID : bytes;
  ev_data : option bytes;
}.

Definition Event_new : Event := mkEv 0 [] [] [] None.

(** The fields after the header of a message [d], put into [ev]. *)
Definition parse_event (ev : Event) (d : bytes) : res Event :=
  type ← data_byte d NLMSGHDR;
  len ← data_byte d (NLMSGHDR + 1);
  let n := (Z.to_nat len * PURSUIT_ID_LEN)%nat in
  id ← data_read d (NLMSGHDR + 2) n;
  let ptr := (NLMSGHDR + 2 + n)%nat in
  if type =? PUBLISHED_DATA then Ok (mkEv type id (ev_nodeId ev) (ev_isubID ev) (Some (drop ptr d)))
  else if type =? PUBLISHED_DATA_iSUB then
    nodeId ← data_read d ptr NODEID_LEN;
    isubID_len ← data_byte d (ptr + NODEID_LEN);
    let m := (Z.to_nat isubID_len * PURSUIT_ID_LEN)%nat in
    isubID ← data_read d (ptr + NODEID_LEN + 1) m;
    Ok (mkEv type id nodeId isubID (Some (drop (ptr + NODEID_LEN + 1 + m) d)))
  else Ok (mkEv type id (ev_nodeId ev) (ev_isubID ev) None).

Definition undefined (ev : Event) : Event := mkEv UNDEF_EVENT (ev_id ev) (ev_nodeId ev) (ev_isubID ev) (ev_data ev).

(** [recv] is the message, [None] when the socket gives none; [data_len] the
    length of the buffer of the caller, if it gives one, to which the message
    is cut. *)
Definition Blackadder_getEventIntoBuf (ev : Event) (data_len : option nat) (recv : option bytes) : res Event :=
  match recv with
  | None => Ok (undefined ev)
  | Some d =>
      let d := match data_len with None => d | Some n => take n d end in
      if (length d <? NLMSGHDR)%nat then Ok (undefined ev) else parse_event ev d
  end.

Definition Blackadder_getEvent (ev : Event) (recv : option bytes) : res Event := Blackadder_getEventIntoBuf ev None recv.

(** ** The non-blocking library: the messages

    The buffer after the header is made with the computed length and filled by
    [memcpy]; [nlmsg_len] is the length of the buffer and of the data that is
    sent with it. *)

Record nb_message := mkNb { nb_nlmsg_len : Z; nb_buffer : packet; nb_data : bytes }.

Definition nb_make (len : Z) (chunks : list bytes) (data : bytes) : res nb_message :=
  q ← build len chunks; Ok (mkNb (u32 (Z.of_nat NLMSGHDR + len + zlen data)) q data).

Definition NB_push (type : Z) (id prefix_id : bytes) (strategy : Z) (str_opt : option bytes) : res nb_message :=
  nb_make (1 + 1 + zlen id + 1 + zlen prefix_id + 1 + zlen (opt_bytes str_opt))
    [[type]; [id_len id]; id; [id_len prefix_id]; prefix_id; [strategy]; opt_bytes str_opt] [].

(** Nothing, or the message. *)
Definition NB_unless (bad : bool) (m : res nb_message) : res (option nb_message) :=
  if bad then Ok None else m ← m; Ok (Some m).

Definition NB_publish_scope (id prefix_id : bytes) (strategy : Z) (str_opt : option bytes) : res (option nb_message) :=
  NB_unless (wrong_size id || wrong_size prefix_id || is_empty id) (NB_push PUBLISH_SCOPE id prefix_id strategy str_opt).
Definition NB_publish_info (id prefix_id : bytes) (strategy : Z) (str_opt : option bytes) : res (option nb_message) :=
  NB_unless (wrong_size id || wrong_size prefix_id || is_empty prefix_id || is_empty prefix_id)
    (NB_push PUBLISH_INFO id prefix_id strategy str_opt).
Definition NB_unpublish_scope (id prefix_id : bytes) (strategy : Z) (str_opt : option bytes) : res (option nb_message) :=
  NB_unless (wrong_size id || wrong_size prefix_id || is_empty id || multiple_fragments id)
    (NB_push UNPUBLISH_SCOPE id prefix_id strategy str_opt).
Definition NB_unpublish_info (id prefix_id : bytes) (strategy : Z) (str_opt : option bytes) : res (option nb_message) :=
  NB_unless (wrong_size id || wrong_size prefix_id || is_empty id || is_empty prefix_id || multiple_fragments id)
    (NB_push UNPUBLISH_INFO id prefix_id strategy str_opt).
Definition NB_subscribe_scope (id prefix_id : bytes) (strategy : Z) (str_opt : option bytes) : res (option nb_message) :=
  NB_unless (wrong_size id || wrong_size prefix_id || is_empty id || multiple_fragments id)
    (NB_push SUBSCRIBE_SCOPE id prefix_id strategy str_opt).
Definition NB_subscribe_info (id prefix_id : bytes) (strategy : Z) (str_opt : option bytes) : res (option nb_message) :=
  NB_unless (wrong_size id || wrong_size prefix_id || is_empty id || is_empty prefix_id || multiple_fragments id)
    (NB_push SUBSCRIBE_INFO id prefix_id strategy str_opt).
Definition NB_unsubscribe_scope (id prefix_id : bytes) (strategy : Z) (str_opt : option bytes) : res (option nb_message) :=
  NB_unless (wrong_size id || wrong_size prefix_id || is_empty id || multiple_fragments id)
    (NB_push UNSUBSCRIBE_SCOPE id prefix_id strategy str_opt).
Definition NB_unsubscribe_info (id prefix_id : bytes) (strategy : Z) (str_opt : option bytes) : res (option nb_message) :=
  NB_unless (wrong_size id || wrong_size prefix_id || is_empty id || is_empty prefix_id || multiple_fragments id)
    (NB_push UNSUBSCRIBE_INFO id prefix_id strategy str_opt).

(** Data: the size of the identifier is not tested. *)
Definition NB_publish_data (id : bytes) (strategy : Z) (str_opt : option bytes) (data : bytes) : res nb_message :=
  nb_make (1 + 1 + zlen id + 1 + zlen (opt_bytes str_opt)) [[PUBLISH_DATA]; [id_len id]; id; [strategy]; opt_bytes str_opt] data.

Definition NB_publish_data_nodes (id : bytes) (strategy : Z) (str_opt : option bytes) (nodeIds : list bytes) (data : bytes)
    : res nb_message :=
  let nodeIdListSize := u8 (zlen nodeIds) in
  nodes ← c_str_read (mjoin nodeIds) (Z.to_nat nodeIdListSize * PURSUIT_ID_LEN);
  nb_make (1 + 1 + zlen id + 1 + zlen (opt_bytes str_opt) + 1 + nodeIdListSize * Z.of_nat PURSUIT_ID_LEN)
    [[PUBLISH_DATA_iMULTICAST]; [id_len id]; id; [strategy]; opt_bytes str_opt; [nodeIdListSize]; nodes] data.

Definition NB_publish_data_isub (id : bytes) (strategy : Z) (str_opt : option bytes) (isubID data : bytes) : res nb_message :=
  nb_make (1 + 1 + zlen id + 1 + zlen (opt_bytes str_opt) + 1 + zlen isubID)
    [[PUBLISH_DATA_iSUB]; [id_len id]; id; [strategy]; opt_bytes str_opt; [id_len isubID]; isubID] data.

(** What the selector makes of a message: a new event for the queue. *)
Definition NB_read_event (recv : option bytes) : res (option Event) :=
  match recv with
  | None => Ok None
  | Some [] => Ok None
  | Some d => ev ← parse_event Event_new d; Ok (Some ev)
  end.

(** ** Strings *)

(** The scope part of an identifier, and the new value of [depth], an
    [unsigned int] that is compared with [id_len - 1]. *)
Definition get_chararray_sid (icnid : bytes) (depth : Z) : bytes * Z :=
  let id_len := zlen icnid / Z.of_nat PURSUIT_ID_LEN in
  let depth := if depth >? u32 (id_len - 1) then u32 (id_len - 1) else depth in
  (take (Z.to_nat (u32 (depth * Z.of_nat PURSUIT_ID_LEN))) icnid, depth).

Definition hex_value (c : Z) : option Z :=
  if (48 <=? c) && (c <=? 57) then Some (c - 48)
  else if (65 <=? c) && (c <=? 70) then Some (c - 55)
  else if (97 <=? c) && (c <=? 102) then Some (c - 87)
  else None.

(** [istringstream(a b) >> hex >> n]: white space is skipped, a sign is
    read, and digits up to the first other character; 0 when there are none. *)
Definition read_hex (a b : Z) : Z :=
  match hex_value a, hex_value b with
  | Some x, Some y => 16 * x + y
  | Some x, None => x
  | None, Some y =>
      if (a =? 32) || ((9 <=? a) && (a <=? 13)) || (a =? 43) then y
      else if a =? 45 then u32 (- y) else 0
  | None, None => 0
  end.

Fixpoint hex_to_chararray (hexstr : bytes) : bytes :=
  match hexstr with
  | a :: b :: l => u8 (read_hex a b) :: hex_to_chararray l
  | _ => []
  end.

Definition hex_lower (n : Z) : Z := if n <? 10 then 48 + n else 87 + n.

Fixpoint chararray_to_hex (str : bytes) : bytes :=
  match str with
  | [] => []
  | c :: str =>
      (if c >? 15 then [hex_lower (c / 16); hex_lower (c mod 16)] else [48; hex_lower c]) ++ chararray_to_hex str
  end.

(** ** Hashes *)

Definition u64 (z : Z) : Z := z mod 18446744073709551616.
Definition FNV_BASIS : Z := 14695981039346656037.
Definition FNV_PRIME : Z := 1099511628211.

Definition fnv1_64 (data : bytes) : Z :=
  foldl (λ hash b, Z.lxor (u64 (hash * FNV_PRIME)) b) FNV_BASIS data.
Definition fnv1a_64 (data : bytes) : Z :=
  foldl (λ hash b, u64 (Z.lxor hash b * FNV_PRIME)) FNV_BASIS data.

(** The bytes of the hash in memory, from the last to the first. *)
Definition fnv1_64_str (data : bytes) : bytes := reverse (le_bytes 8 (fnv1_64 data)).
Definition fnv1a_64_str (data : bytes) : bytes := reverse (le_bytes 8 (fnv1a_64 data)).
