(* ===== verification/Client.v ===== *)
(** * The messages of the client library

    Both libraries send the same messages; the length in the netlink header is
    the length of the message; the events that the node sends are read as they
    were meant; strings survive the conversion to hexadecimal digits; and a
    hash is a fragment of an identifier. *)

From S2P Require Import Prelude Enums BitVector Packet RvMessages ClientApi.

(** ** Sizes *)

Definition whole (id : bytes) : Prop := ∃ n, length id = (n * PURSUIT_ID_LEN)%nat.

Lemma wrong_size_false id : wrong_size id = false ↔ whole id.
Proof.
  unfold wrong_size, whole, zlen, PURSUIT_ID_LEN. split.
  - intros H. exists (length id / 8)%nat. lia.
  - intros [n E]. rw E. lia.
Qed.
Lemma is_empty_false id : is_empty id = false ↔ id ≠ [].
Proof. unfold is_empty, zlen. destruct id; cbn; split; intros; try done; lia. Qed.
Lemma multiple_false id : multiple_fragments id = false ↔ (length id < 2 * PURSUIT_ID_LEN)%nat.
Proof. unfold multiple_fragments, zlen, PURSUIT_ID_LEN. lia. Qed.

Lemma id_len_whole id : whole id → (length id < 256 * PURSUIT_ID_LEN)%nat → id_len id * Z.of_nat PURSUIT_ID_LEN = zlen id.
Proof. intros [n E] H. unfold id_len, u8, zlen. rw E. unfold PURSUIT_ID_LEN in *. lia. Qed.
Lemma id_len_bound id : 0 <= id_len id * Z.of_nat PURSUIT_ID_LEN <= zlen id.
Proof. unfold id_len, u8, zlen, PURSUIT_ID_LEN. lia. Qed.

(** ** What is on the wire *)

Definition wire (m : datagram) : Z * packet := (nlmsg_len m, Some <$> dg_payload m).
Definition nb_wire (m : nb_message) : Z * packet := (nb_nlmsg_len m, nb_buffer m ++ (Some <$> nb_data m)).

Definition same_wire (m : res (option nb_message)) (d : option datagram) : Prop :=
  ∃ q, m = Ok q ∧ nb_wire <$> q = wire <$> d.

Lemma nb_make_exact len chunks data : len = zlen (mjoin chunks) →
  nb_make len chunks data = Ok (mkNb (u32 (Z.of_nat NLMSGHDR + len + zlen data)) (Some <$> mjoin chunks) data).
Proof. intros E. unfold nb_make. rw build_exact //. Qed.

(** The lengths of the parts of a message. *)
Ltac wire_len := unfold zlen; rw ?length_app; cbn [length mjoin list_join]; rw ?length_app; cbn [length]; lia.

Lemma nb_push_wire type id prefix_id strategy str_opt : ∃ q, NB_push type id prefix_id strategy str_opt = Ok q ∧
  nb_wire q = wire (create_and_send_buffers type id prefix_id strategy str_opt).
Proof.
  unfold NB_push. rw nb_make_exact; [|wire_len]. eexists. split; [done|]. unfold nb_wire, wire, create_and_send_buffers.
  cbn [nb_nlmsg_len nb_buffer nb_data nlmsg_len dg_payload]. f_equal; [f_equal; wire_len|].
  rw app_nil_r. f_equal. cbn [mjoin list_join]. by rw app_nil_r.
Qed.

Lemma nb_unless_wire bad type id prefix_id strategy str_opt d :
  d = (if bad : bool then None else Some (create_and_send_buffers type id prefix_id strategy str_opt)) →
  same_wire (NB_unless bad (NB_push type id prefix_id strategy str_opt)) d.
Proof.
  intros ->. destruct (nb_push_wire type id prefix_id strategy str_opt) as (q & E & Hq).
  destruct bad; [by exists None|]. exists (Some q). unfold NB_unless. rw E. split; [done|]. cbn. by rw Hq.
Qed.

(** Appends to the right. *)
Ltac app_norm := cbn; rw ?app_nil_r; repeat (rw -app_assoc; cbn).

(** The calls of the two libraries, by type. *)
Definition request_call : Type := bytes → bytes → Z → option bytes → option datagram.
Definition nb_call : Type := bytes → bytes → Z → option bytes → res (option nb_message).
Definition api_calls : list (Z * (request_call * nb_call)) := [
  (PUBLISH_SCOPE, (Blackadder_publish_scope, NB_publish_scope));
  (PUBLISH_INFO, (Blackadder_publish_info, NB_publish_info));
  (UNPUBLISH_SCOPE, (Blackadder_unpublish_scope, NB_unpublish_scope));
  (UNPUBLISH_INFO, (Blackadder_unpublish_info, NB_unpublish_info));
  (SUBSCRIBE_SCOPE, (Blackadder_subscribe_scope, NB_subscribe_scope));
  (SUBSCRIBE_INFO, (Blackadder_subscribe_info, NB_subscribe_info));
  (UNSUBSCRIBE_SCOPE, (Blackadder_unsubscribe_scope, NB_unsubscribe_scope));
  (UNSUBSCRIBE_INFO, (Blackadder_unsubscribe_info, NB_unsubscribe_info))].

(** What a call accepts, as its documentation has it: whole fragments; scopes
    need an identifier, items a father; an identifier of several fragments is
    for publishing only.  [publish_info] does not test the identifier. *)
Definition accepts (type : Z) (id prefix_id : bytes) : Prop :=
  whole id ∧ whole prefix_id ∧
  (type ≠ PUBLISH_INFO → id ≠ []) ∧
  (type ∈ [PUBLISH_INFO; UNPUBLISH_INFO; SUBSCRIBE_INFO; UNSUBSCRIBE_INFO] → prefix_id ≠ []) ∧
  (type ∉ [PUBLISH_SCOPE; PUBLISH_INFO] → (length id < 2 * PURSUIT_ID_LEN)%nat).

Ltac guards := repeat match goal with
  | |- context [if wrong_size ?x then _ else _] => destruct (wrong_size x) eqn:?
  | |- context [if is_empty ?x then _ else _] => destruct (is_empty x) eqn:?
  | |- context [if multiple_fragments ?x then _ else _] => destruct (multiple_fragments x) eqn:?
  end.

Lemma call_sends type call nb id prefix_id strategy str_opt d : (type, (call, nb)) ∈ api_calls →
  call id prefix_id strategy str_opt = Some d →
  accepts type id prefix_id ∧ d = create_and_send_buffers type id prefix_id strategy str_opt.
Proof.
  unfold api_calls. rw !elem_of_cons elem_of_nil. intros H. unfold accepts.
  destruct_or!; try done; injection H as -> -> ->; cbv beta delta
    [Blackadder_publish_scope Blackadder_publish_info Blackadder_unpublish_scope Blackadder_unpublish_info
     Blackadder_subscribe_scope Blackadder_subscribe_info Blackadder_unsubscribe_scope Blackadder_unsubscribe_info];
    guards; try done; intros [= <-];
    repeat match goal with
    | H : wrong_size _ = false |- _ => apply wrong_size_false in H
    | H : is_empty _ = false |- _ => apply is_empty_false in H
    | H : multiple_fragments _ = false |- _ => apply multiple_false in H
    end; split_and!; try done; intros Hin; exfalso; revert Hin; apply (bool_decide_eq_false_1 _) || (intros Hin; apply Hin);
    vm_compute; try reflexivity; set_solver.
Qed.

Lemma same_wire_made m d : (∃ q, m = Ok q ∧ nb_wire q = wire d) → same_wire (NB_unless false m) (Some d).
Proof. intros (q & -> & E). exists (Some q). split; [done|]. cbn. by rw E. Qed.

Lemma mkDg_eq a b p q : a = b → p = q → mkDg (u32 a) p = mkDg (u32 b) q.
Proof. by intros -> ->. Qed.

Lemma nb_made_wire len chunks data d : len = zlen (mjoin chunks) →
  d = mkDg (u32 (Z.of_nat NLMSGHDR + len + zlen data)) (mjoin chunks ++ data) →
  ∃ q, nb_make len chunks data = Ok q ∧ nb_wire q = wire d.
Proof. intros E ->. rw nb_make_exact //. eexists. split; [done|]. unfold nb_wire, wire. cbn. by rw fmap_app. Qed.

Lemma nb_data_wire id strategy str_opt data : wrong_size id = false →
  same_wire (NB_unless false (NB_publish_data id strategy str_opt data)) (Blackadder_publish_data id strategy str_opt data).
Proof.
  intros E. unfold Blackadder_publish_data. rw E. apply same_wire_made. apply nb_made_wire; [wire_len|].
  apply mkDg_eq; [lia|]. by app_norm.
Qed.

Lemma nb_isub_wire id strategy str_opt isubID data : wrong_size id = false → whole isubID →
  (length isubID < 256 * PURSUIT_ID_LEN)%nat →
  same_wire (NB_unless false (NB_publish_data_isub id strategy str_opt isubID data))
    (Blackadder_publish_data_isub id strategy str_opt isubID data).
Proof.
  intros E Hi Hn. unfold Blackadder_publish_data_isub. rw E. pose proof (id_len_whole isubID Hi Hn) as El. rw El.
  apply same_wire_made. apply nb_made_wire; [wire_len|]. rw take_ge; [|unfold zlen; lia].
  apply mkDg_eq; [lia|]. by app_norm.
Qed.

Lemma nb_nodes_wire id strategy str_opt nodeIds data : wrong_size id = false →
  match Blackadder_publish_data_nodes id strategy str_opt nodeIds data with
  | Ok d => same_wire (NB_unless false (NB_publish_data_nodes id strategy str_opt nodeIds data)) d
  | Fault f => NB_publish_data_nodes id strategy str_opt nodeIds data = Fault f
  end.
Proof.
  intros E. unfold Blackadder_publish_data_nodes, NB_publish_data_nodes. rw E.
  change NODEID_LEN with PURSUIT_ID_LEN. destruct (c_str_read _ _) as [nodes|f] eqn:En; [|done]. cbn [mbind res_mbind res_bind].
  assert (zlen nodes = u8 (zlen nodeIds) * Z.of_nat PURSUIT_ID_LEN) as Hl.
  { unfold c_str_read in En. destruct (Nat.leb_spec (Z.to_nat (u8 (zlen nodeIds)) * PURSUIT_ID_LEN) (S (length (mjoin nodeIds)))); [|done].
    injection En as <-. unfold zlen at 1. rw length_take length_app. cbn [length]. unfold u8 in *. lia. }
  rw -Hl. apply same_wire_made. apply nb_made_wire; [wire_len|].
  apply mkDg_eq; [lia|]. by app_norm.
Qed.

(** [C31] The non-blocking library sends, for every call, the message that the
    blocking one sends: nothing in the same cases, and otherwise the same
    bytes with the same length in the header; also for data, if the size of
    the identifier is one that the blocking library accepts (and with an
    implicit subscription, if that identifier has fewer than 256 fragments). *)
Theorem nb_same_messages id prefix_id strategy str_opt data :
  (∀ type call nb, (type, (call, nb)) ∈ api_calls →
    same_wire (nb id prefix_id strategy str_opt) (call id prefix_id strategy str_opt)) ∧
  (whole id → same_wire (NB_unless false (NB_publish_data id strategy str_opt data)) (Blackadder_publish_data id strategy str_opt data)) ∧
  (whole id → ∀ isubID, whole isubID → (length isubID < 256 * PURSUIT_ID_LEN)%nat →
    same_wire (NB_unless false (NB_publish_data_isub id strategy str_opt isubID data))
      (Blackadder_publish_data_isub id strategy str_opt isubID data)) ∧
  (whole id → ∀ nodeIds, match Blackadder_publish_data_nodes id strategy str_opt nodeIds data with
    | Ok d => same_wire (NB_unless false (NB_publish_data_nodes id strategy str_opt nodeIds data)) d
    | Fault f => NB_publish_data_nodes id strategy str_opt nodeIds data = Fault f
    end).
Proof.
  split_and!.
  - unfold api_calls. intros type call nb H. rw !elem_of_cons elem_of_nil in H.
    destruct_or!; try done; injection H as -> -> ->; apply nb_unless_wire; cbv beta delta
    [Blackadder_publish_scope Blackadder_publish_info Blackadder_unpublish_scope Blackadder_unpublish_info
     Blackadder_subscribe_scope Blackadder_subscribe_info Blackadder_unsubscribe_scope Blackadder_unsubscribe_info];
    guards; done.
  - intros Hid%wrong_size_false. by apply nb_data_wire.
  - intros Hid%wrong_size_false isubID Hi Hn. by apply nb_isub_wire.
  - intros Hid%wrong_size_false nodeIds. by apply nb_nodes_wire.
Qed.

(** ** The length in the header *)

(** The length in the netlink header of every message is the length of
    the header and of what follows it, as long as it fits in 32 bits. *)
Theorem netlink_length id prefix_id strategy str_opt data isubID nodeIds m :
  m ∈ (Blackadder_publish_data id strategy str_opt data :: Blackadder_publish_data_isub id strategy str_opt isubID data ::
    match Blackadder_publish_data_nodes id strategy str_opt nodeIds data with Ok m => m | Fault _ => None end ::
    ((λ c : Z * (request_call * nb_call), c.2.1 id prefix_id strategy str_opt) <$> api_calls)) →
  match m with
  | Some m => nlmsg_len m = u32 (Z.of_nat NLMSGHDR + zlen (dg_payload m))
  | None => True
  end.
Proof.
  intros [->|[->|[->|Hin]%elem_of_cons]%elem_of_cons]%elem_of_cons.
  - unfold Blackadder_publish_data. destruct (wrong_size id); [done|]. cbn [nlmsg_len dg_payload]. f_equal. wire_len.
  - unfold Blackadder_publish_data_isub. destruct (wrong_size id); [done|]. cbn [nlmsg_len dg_payload]. f_equal.
    pose proof (id_len_bound isubID) as Hb. unfold zlen. rw !length_app length_take. unfold zlen in Hb. cbn [length]. lia.
  - unfold Blackadder_publish_data_nodes. destruct (wrong_size id); [done|].
    destruct (c_str_read _ _) as [nodes|] eqn:En; [|done]. cbn [mbind res_mbind res_bind nlmsg_len dg_payload]. f_equal.
    pose proof (c_str_read_length _ _ _ En) as Hl. unfold zlen. rw !length_app Hl. cbn [length]. unfold u8, zlen in *. lia.
  - apply list_elem_of_fmap in Hin as ([type [call nb]] & -> & Hin). cbn.
    destruct (call id prefix_id strategy str_opt) as [d|] eqn:E; [|done].
    apply (call_sends type call nb) in E as [_ ->]; [|done]. cbn [create_and_send_buffers nlmsg_len dg_payload]. f_equal. wire_len.
Qed.

(** ** Events *)

Definition after_header (hdr : bytes) : Prop := length hdr = NLMSGHDR.

Lemma id_len_nat k : whole k → (length k < 256 * PURSUIT_ID_LEN)%nat → (Z.to_nat (id_len k) * PURSUIT_ID_LEN)%nat = length k.
Proof. intros Hw Hl. pose proof (id_len_whole k Hw Hl) as E. unfold zlen in E. unfold id_len, u8 in *. lia. Qed.

(** The fields that all messages have. *)
Lemma parse_event_id d hdr type k rest : d = hdr ++ type :: id_len k :: k ++ rest → after_header hdr →
  whole k → (length k < 256 * PURSUIT_ID_LEN)%nat →
  data_byte d NLMSGHDR = Ok type ∧ data_byte d (NLMSGHDR + 1) = Ok (id_len k) ∧
  data_read d (NLMSGHDR + 2) (Z.to_nat (id_len k) * PURSUIT_ID_LEN) = Ok k ∧
  drop (NLMSGHDR + 2 + Z.to_nat (id_len k) * PURSUIT_ID_LEN) d = rest.
Proof.
  intros -> Hh Hw Hl. rw (id_len_nat k Hw Hl). split_and!.
  - by apply (data_byte_at _ hdr _ (id_len k :: k ++ rest)).
  - apply (data_byte_at _ (hdr ++ [type]) _ (k ++ rest)); [by rw -app_assoc|by rw length_app Hh].
  - apply (data_read_at _ (hdr ++ [type; id_len k]) _ rest); [by rw -app_assoc|by rw length_app Hh|done].
  - apply (drop_at _ (hdr ++ type :: id_len k :: k)); [by rw -app_assoc|]. rw length_app Hh. cbn. lia.
Qed.

Lemma parse_event_data ev hdr k data : after_header hdr → whole k → (length k < 256 * PURSUIT_ID_LEN)%nat →
  Blackadder_getEvent ev (Some (hdr ++ PUBLISHED_DATA :: id_len k :: k ++ data)) =
  Ok (mkEv PUBLISHED_DATA k (ev_nodeId ev) (ev_isubID ev) (Some data)).
Proof.
  intros Hh Hw Hl. unfold Blackadder_getEvent, Blackadder_getEventIntoBuf.
  destruct (Nat.ltb_spec (length (hdr ++ PUBLISHED_DATA :: id_len k :: k ++ data)) NLMSGHDR) as [Hlt|_].
  { rw length_app Hh in Hlt. lia. }
  destruct (parse_event_id _ hdr PUBLISHED_DATA k data eq_refl Hh Hw Hl) as (E1 & E2 & E3 & E4).
  unfold parse_event. rw E1 /= E2 /= E3 /=. do 3 f_equal. exact E4.
Qed.

Lemma parse_event_notification ev hdr type k rest : type ∉ [PUBLISHED_DATA; PUBLISHED_DATA_iSUB] →
  after_header hdr → whole k → (length k < 256 * PURSUIT_ID_LEN)%nat →
  Blackadder_getEvent ev (Some (hdr ++ type :: id_len k :: k ++ rest)) =
  Ok (mkEv type k (ev_nodeId ev) (ev_isubID ev) None).
Proof.
  intros Hty Hh Hw Hl. unfold Blackadder_getEvent, Blackadder_getEventIntoBuf.
  destruct (Nat.ltb_spec (length (hdr ++ type :: id_len k :: k ++ rest)) NLMSGHDR) as [Hlt|_].
  { rw length_app Hh in Hlt. lia. }
  destruct (parse_event_id _ hdr type k rest eq_refl Hh Hw Hl) as (E1 & E2 & E3 & _).
  unfold parse_event. rw E1 /= E2 /= E3 /=.
  destruct (Z.eqb_spec type PUBLISHED_DATA) as [->|_]; [set_solver|].
  destruct (Z.eqb_spec type PUBLISHED_DATA_iSUB) as [->|_]; [set_solver|done].
Qed.

(** ** Hexadecimal digits *)

Lemma hex_value_lower n : 0 <= n < 16 → hex_value (hex_lower n) = Some n.
Proof.
  intros H. assert (n ∈ [0;1;2;3;4;5;6;7;8;9;10;11;12;13;14;15]) as Hn by (rw !elem_of_cons elem_of_nil; lia).
  revert Hn. rw !elem_of_cons elem_of_nil. intros Hn. destruct_or!; by subst || done.
Qed.

(** Bytes that are printed as hexadecimal digits and read again are the
    same bytes. *)
Theorem hex_roundtrip s : Forall is_byte s → hex_to_chararray (chararray_to_hex s) = s.
Proof.
  induction 1 as [|c s Hc _ IH]; [done|]. unfold is_byte in Hc. cbn [chararray_to_hex].
  assert (∃ a b, 0 <= a < 16 ∧ 0 <= b < 16 ∧ c = 16 * a + b ∧
    (if c >? 15 then [hex_lower (c / 16); hex_lower (c mod 16)] else [48; hex_lower c]) = [hex_lower a; hex_lower b])
    as (a & b & Ha & Hb & E & ->).
  { destruct (c >? 15) eqn:E; [exists (c / 16), (c mod 16)|exists 0, c]; split_and!; try done; lia. }
  cbn [app hex_to_chararray]. unfold read_hex. rw !hex_value_lower // IH. f_equal. unfold u8. lia.
Qed.

(** ** Hashes *)

Lemma lxor_u64 a b : 0 <= a < 2 ^ 64 → 0 <= b < 2 ^ 64 → 0 <= Z.lxor a b < 2 ^ 64.
Proof.
  intros Ha Hb. split; [apply Z.lxor_nonneg; lia|].
  destruct (Z.eq_dec (Z.lxor a b) 0) as [->|Hne]; [lia|].
  apply Z.log2_lt_pow2; [pose proof (proj2 (Z.lxor_nonneg a b)); lia|].
  pose proof (Z.log2_lxor a b). pose proof (Z.log2_le_mono a (2 ^ 64 - 1)). pose proof (Z.log2_le_mono b (2 ^ 64 - 1)).
  change (Z.log2 (2 ^ 64 - 1)) with 63 in *. lia.
Qed.

Lemma fnv_range (f : Z → Z → Z) data : (∀ h b, 0 <= h < 2 ^ 64 → is_byte b → 0 <= f h b < 2 ^ 64) →
  Forall is_byte data → 0 <= foldl f FNV_BASIS data < 2 ^ 64.
Proof.
  intros Hf Hd. assert (0 <= FNV_BASIS < 2 ^ 64) as Hb by (unfold FNV_BASIS; lia). revert Hb. generalize FNV_BASIS.
  induction Hd as [|b data Hb _ IH]; intros h Hh; [done|]. cbn. by apply IH, Hf.
Qed.

(** The hash of any bytes is a 64-bit number, and its string is one
    fragment of an identifier: eight bytes, the most significant first, that
    stand for the number. *)
Theorem fnv_identifier data : Forall is_byte data →
  ∀ h s, (h, s) ∈ [(fnv1_64 data, fnv1_64_str data); (fnv1a_64 data, fnv1a_64_str data)] →
  0 <= h < 2 ^ 64 ∧ length s = PURSUIT_ID_LEN ∧ Forall is_byte s ∧ le_number (reverse s) = h.
Proof.
  intros Hd h s Hin. assert (0 <= h < 2 ^ 64 ∧ s = reverse (le_bytes 8 h)) as [Hh ->].
  { rw !elem_of_cons elem_of_nil in Hin. destruct_or!; try done; injection Hin as -> ->; split; try done;
      apply fnv_range; try done; intros h b Hh Hb; unfold is_byte, u64 in *; [apply lxor_u64|]; lia. }
  split; [done|]. split; [by rw length_reverse le_bytes_length|].
  split; [apply Forall_reverse, le_bytes_bytes|]. rw reverse_involutive. by apply le_number_bytes.
Qed.

(** ** Witnesses *)

Lemma netlink_length_witness : ∃ m, Blackadder_publish_data (replicate 8 7) 2 None [1; 2] = Some m ∧
  nlmsg_len m = u32 (Z.of_nat NLMSGHDR + zlen (dg_payload m)).
Proof.
  eexists. split; [reflexivity|].
  exact (netlink_length (replicate 8 7) [] 2 None [1; 2] [] [] (Blackadder_publish_data (replicate 8 7) 2 None [1; 2])
    (list_elem_of_here _ _)).
Defined.

Lemma hex_roundtrip_witness : hex_to_chararray (chararray_to_hex [0; 10; 255]) = [0; 10; 255].
Proof. apply (hex_roundtrip [0; 10; 255]). repeat constructor; unfold is_byte; lia. Defined.

Lemma fnv_identifier_witness : length (fnv1a_64_str [104; 105]) = PURSUIT_ID_LEN.
Proof.
  assert (Forall is_byte [104; 105]) as H by (repeat constructor; unfold is_byte; lia).
  exact (proj1 (proj2 (fnv_identifier [104; 105] H (fnv1a_64 [104; 105]) (fnv1a_64_str [104; 105])
    (list_elem_of_further _ _ _ (list_elem_of_here _ _))))).
Defined.

Lemma nb_same_messages_witness : whole (replicate 8 7) ∧
  same_wire (NB_unless false (NB_publish_data (replicate 8 7) 2 None [1; 2])) (Blackadder_publish_data (replicate 8 7) 2 None [1; 2]).
Proof.
  assert (whole (replicate 8 7)) as H by by exists 1%nat. split; [exact H|].
  exact (proj1 (proj2 (nb_same_messages (replicate 8 7) [] 2 None [1; 2])) H).
Defined.
