(* ===== verification/NbQueue.v ===== *)
(** * The threads of the non-blocking library

    lib/nb_blackadder.cpp: the application puts messages into a queue, the
    selector thread sends them and reads events, and the worker thread hands
    the events to the callback.  A step is a critical section or what the
    selector does between two of them, so that every interleaving of the three
    threads is a run.

    One application thread calls the library; a condition variable wakes a
    thread only when it is signalled.  What [select] reports and what
    [sendmsg] returns is free. *)

From S2P Require Import Prelude Enums BitVector Packet RvMessages ClientApi.

(** Where the selector is: at [select]; after it, with what it reports for the
    pipe and for reading from the socket; after the pipe; before writing. *)
Inductive selector_pc := Selecting | Selected (pipe_ready readable : bool) | Piped (readable : bool) | Received.

(** Where the worker is: before the lock, waiting for the condition, at the
    test of the loop with the lock, in the callback. *)
Inductive worker_pc := Idle | Waiting | Looping | Calling (ev : Event).

Record nb := mkNBs {
  output_queue : list nb_message;
  sent : list nb_message;
  pipe : nat;
  write_set : bool;
  blocked : bool;
  event_queue : list Event;
  handled : list Event;
  selector : selector_pc;
  worker : worker_pc;
}.

Definition nb0 : nb := mkNBs [] [] 0 false false [] [] Selecting Idle.

Definition MAX_QUEUE : nat := 1000.

Definition set_output q p b s := mkNBs q (sent s) p (write_set s) b (event_queue s) (handled s) (selector s) (worker s).
Definition set_selector pc s :=
  mkNBs (output_queue s) (sent s) (pipe s) (write_set s) (blocked s) (event_queue s) (handled s) pc (worker s).
Definition set_write_set w s :=
  mkNBs (output_queue s) (sent s) (pipe s) w (blocked s) (event_queue s) (handled s) (selector s) (worker s).
Definition set_events q s :=
  mkNBs (output_queue s) (sent s) (pipe s) (write_set s) (blocked s) q (handled s) (selector s) (worker s).
Definition set_worker h w s :=
  mkNBs (output_queue s) (sent s) (pipe s) (write_set s) (blocked s) (event_queue s) h (selector s) w.

(** ** The critical sections *)

(** The end of [push] and of [publish_data]: a byte is written into the pipe
    for the first message of the queue, and the application waits when the
    queue is full. *)
Definition NB_enqueue (msg : nb_message) (s : nb) : nb :=
  let q := output_queue s ++ [msg] in
  set_output q (if (length q =? 1)%nat then S (pipe s) else pipe s) (length q =? MAX_QUEUE)%nat s.

(** [select] leaves in the sets what is ready. *)
Definition NB_select (pipe_ready readable writable : bool) (s : nb) : nb :=
  set_selector (Selected pipe_ready readable) (set_write_set writable s).

Definition NB_read_pipe (pipe_ready readable : bool) (s : nb) : nb :=
  set_selector (Piped readable)
    (if pipe_ready then set_write_set true (set_output (output_queue s) (pred (pipe s)) (blocked s) s) else s).

(** An event for the worker, which is woken if it waits. *)
Definition NB_receive (ev : option Event) (s : nb) : nb :=
  set_selector Received
    (match ev with
     | Some ev => set_worker (handled s) (match worker s with Waiting => Looping | w => w end)
                    (set_events (event_queue s ++ [ev]) s)
     | None => s end).

(** [ok] is [ret > 0]; the queue is read without a test. *)
Definition NB_write (ok : bool) (s : nb) : res nb :=
  if write_set s then
    match output_queue s with
    | [] => Fault OutOfBounds
    | msg :: q =>
        let s := if ok then mkNBs q (sent s ++ [msg]) (pipe s) (write_set s) (blocked s) (event_queue s) (handled s)
                              (selector s) (worker s) else s in
        let more := negb (length (output_queue s) =? 0)%nat in
        Ok (set_selector Selecting (set_write_set more
          (set_output (output_queue s) (pipe s) (if more then blocked s else false) s)))
    end
  else Ok (set_selector Selecting s).

(** The loop of the worker, one turn. *)
Definition NB_worker (s : nb) : nb :=
  match worker s with
  | Idle => set_worker (handled s) Waiting s
  | Waiting => s
  | Looping =>
      match event_queue s with
      | [] => set_worker (handled s) Idle s
      | ev :: q => set_worker (handled s) (Calling ev) (set_events q s)
      end
  | Calling ev => set_worker (handled s ++ [ev]) Looping s
  end.

(** ** Runs *)

(** The messages and the events that a step adds. *)
Inductive step : list nb_message → list Event → nb → nb → Prop :=
  | step_push msg s : blocked s = false → step [msg] [] s (NB_enqueue msg s)
  | step_select p r w s : selector s = Selecting → p || r || w → (p → (0 < pipe s)%nat) → (w → write_set s) →
      step [] [] s (NB_select p r w s)
  | step_pipe p r s : selector s = Selected p r → step [] [] s (NB_read_pipe p r s)
  | step_receive ev s : selector s = Piped true → step [] (option_list ev) s (NB_receive ev s)
  | step_skip s : selector s = Piped false → step [] [] s (set_selector Received s)
  | step_write ok s s' : selector s = Received → NB_write ok s = Ok s' → step [] [] s s'
  | step_worker s : worker s ≠ Waiting → step [] [] s (NB_worker s).

Inductive run : nb → list nb_message → list Event → nb → Prop :=
  | run_nil s : run s [] [] s
  | run_step s ms es s1 m e s2 : run s ms es s1 → step m e s1 s2 → run s (ms ++ m) (es ++ e) s2.

(** One turn of the selector when the socket takes what it is given: what is
    ready is reported, nothing is read. *)
Definition NB_turn (s : nb) : res nb :=
  let p := (0 <? pipe s)%nat in
  if p || write_set s then
    NB_write true (set_selector Received (NB_read_pipe p false (NB_select p false (write_set s) s)))
  else Ok s.

Fixpoint NB_turns (n : nat) (s : nb) : res nb :=
  match n with O => Ok s | S n => s ← NB_turn s; NB_turns n s end.

Fixpoint NB_works (n : nat) (s : nb) : nb :=
  match n with O => s | S n => NB_works n (NB_worker s) end.
