(* ===== verification/NbThreads.v ===== *)
(** * The non-blocking library: order, progress, and lost wake-ups

    Every run of the three threads keeps the order of messages and events and
    never reads from an empty queue.  Progress holds while the selector is
    still interested in writing, or a byte is in the pipe, and while the worker
    does not wait; the two states without are reachable and are described. *)

From S2P Require Import Prelude Enums BitVector Packet RvMessages ClientApi NbQueue.

Definition in_callback (w : worker_pc) : list Event := match w with Calling ev => [ev] | _ => [] end.

Record nb_inv (s : nb) (ms : list nb_message) (es : list Event) : Prop := {
  ni_messages : sent s ++ output_queue s = ms;
  ni_events : handled s ++ in_callback (worker s) ++ event_queue s = es;
  ni_write : write_set s → output_queue s ≠ [] ∧ pipe s = 0%nat;
  ni_pipe : (pipe s ≤ 1)%nat ∧ (pipe s = 1%nat → output_queue s ≠ []);
  ni_selected : ∀ r, selector s = Selected true r → pipe s = 1%nat;
  ni_full : (length (output_queue s) ≤ MAX_QUEUE)%nat;
  ni_room : blocked s = false → (length (output_queue s) < MAX_QUEUE)%nat;
}.

Lemma nb_inv0 : nb_inv nb0 [] [].
Proof. split; cbn; unfold MAX_QUEUE; (done || lia). Qed.

Lemma inv_enqueue s ms es msg : nb_inv s ms es → blocked s = false → nb_inv (NB_enqueue msg s) (ms ++ [msg]) es.
Proof.
  intros [H1 H2 H3 H4 H5 H6 H7] Hb. specialize (H7 Hb).
  assert (output_queue s ++ [msg] ≠ []) as Hne by (by destruct (output_queue s)).
  assert ((length (output_queue s ++ [msg]) =? 1)%nat = true → output_queue s = [] ∧ pipe s = 0%nat) as Hfirst.
  { rw length_app. intros E%Nat.eqb_eq. destruct (output_queue s); [split; [done|]|cbn in E; lia].
    destruct H4 as [? H4]. destruct (pipe s) as [|[|]]; [done| |lia]. by destruct (H4 eq_refl). }
  split; cbn; try done.
  - by rw app_assoc H1.
  - intros [Hq Hp]%H3. split; [done|]. destruct (_ =? 1)%nat; [|done]. by destruct (Hfirst eq_refl).
  - split; [|done]. destruct (_ =? 1)%nat; [by destruct (Hfirst eq_refl) as [_ ->]|apply H4].
  - intros r Hr%H5. destruct (_ =? 1)%nat; [|done]. destruct (Hfirst eq_refl). lia.
  - rw length_app. cbn. lia.
  - rw length_app. cbn. unfold MAX_QUEUE in *. intros. lia.
Qed.

Lemma inv_write s ms es : nb_inv s ms es → ∀ ok, ∃ s', NB_write ok s = Ok s' ∧ nb_inv s' ms es.
Proof.
  intros [H1 H2 H3 H4 H5 H6 H7] ok. unfold NB_write. destruct (write_set s) eqn:Ew; last first.
  { eexists. split; [done|]. split; cbn; try done. by rw Ew. }
  destruct (H3 I) as [Hne Hp]. destruct (output_queue s) as [|msg q] eqn:Eq; [done|]. eexists. split; [done|].
  cbn in H6. destruct ok; split; cbn; rw ?Eq ?Hp; cbn; try done.
  - by rw -app_assoc.
  - by destruct q.
  - by split; [lia|].
  - lia.
  - by split; [lia|].
Qed.

Lemma inv_step m e s s' ms es : nb_inv s ms es → step m e s s' → nb_inv s' (ms ++ m) (es ++ e).
Proof.
  intros W Hs. pose proof W as [H1 H2 H3 H4 H5 H6 H7]. destruct Hs as [msg s Hb|p r w s _ _ Hp Hw|p r s Hr|ev s Hr|s Hr|ok s s' Hr E|s Hk];
    rw ?app_nil_r.
  - by apply inv_enqueue.
  - split; cbn; try done.
    + intros Hw'. apply H3, Hw, Hw'.
    + intros r' [= -> <-]. destruct (Hp I); lia.
  - unfold NB_read_pipe. destruct p; split; cbn; try done.
    + intros _. pose proof (H5 r Hr) as Hp. rw Hp. split; [|done]. by apply H4.
    + pose proof (H5 r Hr) as Hp. rw Hp. split; [lia|done].
  - destruct ev as [ev|]; cbn [option_list]; rw ?app_nil_r; split; cbn; try done.
    rw -H2 -!app_assoc. by destruct (worker s).
  - by split.
  - destruct (inv_write s ms es W ok) as (s1 & E1 & W1). by rw E1 in E; injection E as <-.
  - unfold NB_worker. destruct (worker s) eqn:Ek; [split; cbn; try done; by rw Ek in H2|done| |].
    + destruct (event_queue s) eqn:Eq; split; cbn; rw ?Eq; try done; by rw -?H2 ?Ek ?Eq.
    + split; cbn; try done. rw -H2. cbn. by rw -app_assoc.
Qed.

Lemma inv_run s ms es : run nb0 ms es s → nb_inv s ms es.
Proof.
  intros H. remember nb0 as s0 eqn:E. induction H as [s|s ms es s1 m e s2 _ IH Hs]; [subst; apply nb_inv0|].
  eapply inv_step; [by apply IH|done].
Qed.

Lemma run_trans s ms es s1 ms' es' s2 : run s ms es s1 → run s1 ms' es' s2 → run s (ms ++ ms') (es ++ es') s2.
Proof.
  intros H1 H2. induction H2 as [s1|s1 ms' es' s2 m e s3 _ IH Hs]; [by rw !app_nil_r|].
  rw !app_assoc. eapply run_step; [by apply IH|done].
Qed.

Lemma run_one s m e s' : step m e s s' → run s m e s'.
Proof. intros H. apply (run_step s [] [] s m e s' (run_nil s) H). Qed.

(** In every run, whatever the interleaving of the three threads, what
    [select] reports and what [sendmsg] returns: the messages that were sent
    and the ones in the queue are the ones that were pushed, in their order;
    so are the events that the callback got, the one it is called with and the
    ones in the queue; the queue never has more than a thousand messages; and
    the selector never takes a message of an empty queue. *)
Theorem nb_order ms es s : run nb0 ms es s →
  sent s ++ output_queue s = ms ∧ handled s ++ in_callback (worker s) ++ event_queue s = es ∧
  (length (output_queue s) ≤ MAX_QUEUE)%nat ∧ ∀ ok, ∃ s', NB_write ok s = Ok s'.
Proof.
  intros W%inv_run. split_and!; [apply W|apply W|apply W|]. intros ok. destruct (inv_write s ms es W ok) as (s' & E & _). by exists s'.
Qed.

(** ** Progress *)

(** The selector will write. *)
Definition awake (s : nb) : Prop := output_queue s = [] ∨ (0 < pipe s)%nat ∨ write_set s.

Lemma turn_sends s ms es msg q : nb_inv s ms es → selector s = Selecting → awake s → output_queue s = msg :: q →
  ∃ s', NB_turn s = Ok s' ∧ run s [] [] s' ∧ selector s' = Selecting ∧ awake s' ∧ output_queue s' = q ∧
    sent s' = sent s ++ [msg].
Proof.
  intros [H1 H2 H3 H4 H5 H6 H7] Hs Ha Hq. unfold NB_turn. set (p := (0 <? pipe s)%nat).
  assert (p || write_set s = true) as Hready.
  { destruct Ha as [Hn|[Hp|Hw]]; [by rw Hq in Hn|subst p; by rw (proj2 (Nat.ltb_lt _ _) Hp)|]. apply Is_true_true in Hw. rw Hw orb_true_r //. }
  rw Hready. set (s1 := NB_select p false (write_set s) s). set (s2 := NB_read_pipe p false s1).
  assert (step [] [] s s1) as S1.
  { apply step_select; [done|rw orb_false_r Hready //| |done]. subst p. intros E%Is_true_true. by apply Nat.ltb_lt. }
  assert (step [] [] s1 s2) as S2 by by apply step_pipe.
  assert (selector s2 = Piped false) as Hs2 by (unfold s2, NB_read_pipe; by destruct p).
  assert (write_set s2 = true) as Hw2 by (unfold s2, NB_read_pipe; destruct p; [done|exact Hready]).
  assert (output_queue s2 = msg :: q) as Hq2 by (unfold s2, NB_read_pipe; by destruct p).
  assert (sent s2 = sent s) as He2 by (unfold s2, NB_read_pipe; by destruct p).
  set (s3 := set_selector Received s2). assert (step [] [] s2 s3) as S3 by by apply step_skip.
  assert (∃ s4, NB_write true s3 = Ok s4 ∧ selector s4 = Selecting ∧ awake s4 ∧ output_queue s4 = q ∧
    sent s4 = sent s ++ [msg]) as (s4 & E4 & Hs4).
  { unfold NB_write. cbn. rw Hw2 Hq2. eexists. split; [done|]. cbn. rw He2. split_and!; try done.
    destruct q; [by left|by right; right]. }
  exists s4. split; [exact E4|]. split; [|exact Hs4].
  exact (run_trans _ [] [] _ [] [] _ (run_one _ _ _ _ S1) (run_trans _ [] [] _ [] [] _ (run_one _ _ _ _ S2)
    (run_trans _ [] [] _ [] [] _ (run_one _ _ _ _ S3) (run_one _ _ _ _ (step_write true s3 s4 eq_refl E4))))).
Qed.

Lemma turns_send s ms es : nb_inv s ms es → selector s = Selecting → awake s →
  ∃ s', NB_turns (length (output_queue s)) s = Ok s' ∧ run s [] [] s' ∧ output_queue s' = [] ∧
    sent s' = sent s ++ output_queue s.
Proof.
  remember (output_queue s) as q eqn:Eq. revert s Eq. induction q as [|msg q IH]; intros s Eq W Hs Ha.
  { exists s. rw -Eq app_nil_r. split_and!; try done. constructor. }
  destruct (turn_sends s ms es msg q W Hs Ha (eq_sym Eq)) as (s1 & E1 & R1 & Hs1 & Ha1 & Hq1 & He1).
  assert (nb_inv s1 ms es) as W1.
  { clear -W R1. remember [] as m eqn:Em in R1. remember [] as e eqn:Ee in R1.
    enough (nb_inv s1 (ms ++ m) (es ++ e)) as W1 by (by subst; rw !app_nil_r in W1).
    clear Em Ee. induction R1 as [s|s m e s1 m' e' s2 _ IH Hs]; [by rw !app_nil_r|].
    rw !app_assoc. eapply inv_step; [by apply IH|done]. }
  destruct (IH s1 (eq_sym Hq1) W1 Hs1 Ha1) as (s2 & E2 & R2 & Hq2 & He2). exists s2. cbn. rw E1. cbn.
  split_and!; [done|exact (run_trans _ [] [] _ [] [] _ R1 R2)|done|by rw He2 He1 -app_assoc].
Qed.

(** The steps of the worker from the test of its loop. *)
Lemma works_handle s : worker s = Looping →
  ∃ n s', NB_works n s = s' ∧ run s [] [] s' ∧ worker s' = Idle ∧ event_queue s' = [] ∧
    handled s' = handled s ++ event_queue s ∧ (n = 2 * length (event_queue s) + 1)%nat.
Proof.
  remember (event_queue s) as q eqn:Eq. revert s Eq. induction q as [|ev q IH]; intros s Eq Hk.
  { exists 1%nat, (NB_worker s). split; [done|]. split; [apply run_one, step_worker; by rw Hk|].
    unfold NB_worker. rw Hk -Eq. cbn. by rw app_nil_r. }
  set (s1 := NB_worker s). set (s2 := NB_worker s1).
  assert (worker s1 = Calling ev ∧ event_queue s1 = q ∧ handled s1 = handled s) as (Hk1 & Hq1 & Hh1).
  { unfold s1, NB_worker. by rw Hk -Eq. }
  assert (worker s2 = Looping ∧ event_queue s2 = q ∧ handled s2 = handled s ++ [ev]) as (Hk2 & Hq2 & Hh2).
  { unfold s2, NB_worker. rw Hk1. cbn. by rw Hq1 Hh1. }
  destruct (IH s2 (eq_sym Hq2) Hk2) as (n & s' & E & R & Hk' & Hq' & Hh' & Hn). exists (S (S n)), s'.
  split_and!; try done.
  - refine (run_trans _ [] [] s1 [] [] _ _ (run_trans _ [] [] s2 [] [] _ _ R)); apply run_one, step_worker;
      [by rw Hk|by rw Hk1].
  - by rw Hh' Hh2 -app_assoc.
  - cbn. lia.
Qed.

(** The library can make progress.  When the selector is at its [select]
    and the queue is empty, a byte is in the pipe or the selector waits for
    the socket to be writable, then, as long as the socket is writable, takes
    each message and has nothing to read, the selector sends every message that
    was pushed within as many turns as there are messages; when the worker has
    the lock or is in the callback, it hands every event that was read to the
    callback within two steps for each event and two more. *)
Theorem nb_progress ms es s : run nb0 ms es s →
  (selector s = Selecting → awake s →
    ∃ s', NB_turns (length (output_queue s)) s = Ok s' ∧ run s [] [] s' ∧ output_queue s' = [] ∧ sent s' = ms) ∧
  (worker s ≠ Idle → worker s ≠ Waiting →
    ∃ n s', NB_works n s = s' ∧ run s [] [] s' ∧ event_queue s' = [] ∧ handled s' = es ∧
      (n ≤ 2 * length (event_queue s) + 2)%nat).
Proof.
  intros W%inv_run. split.
  - intros Hs Ha. destruct (turns_send s ms es W Hs Ha) as (s' & E & R & Hq & He). exists s'.
    split_and!; try done. by rw He (ni_messages _ _ _ W).
  - intros Hi Hw. pose proof (ni_events _ _ _ W) as Hev. destruct (worker s) as [| | |ev] eqn:Ek; [done|done| |].
    + destruct (works_handle s Ek) as (n & s' & E & R & _ & Hq & Hh & Hn). exists n, s'.
      split_and!; try done; [by rw Hh|lia].
    + set (s1 := NB_worker s).
      assert (worker s1 = Looping ∧ event_queue s1 = event_queue s ∧ handled s1 = handled s ++ [ev]) as (Hk1 & Hq1 & Hh1).
      { unfold s1, NB_worker. by rw Ek. }
      destruct (works_handle s1 Hk1) as (n & s' & E & R & _ & Hq & Hh & Hn). exists (S n), s'. split_and!; try done.
      * refine (run_trans _ [] [] s1 [] [] _ _ R). apply run_one, step_worker. by rw Ek.
      * rw Hh Hh1 Hq1 -Hev -app_assoc //.
      * rw Hn Hq1; lia.
Qed.

(** ** The states without progress *)

(** No byte in the pipe, and no interest in writing. *)
Definition stalled (s : nb) : Prop :=
  output_queue s ≠ [] ∧ pipe s = 0%nat ∧ write_set s = false ∧ ∀ r, selector s ≠ Selected true r.

Lemma stalled_step m e s s' : stalled s → step m e s s' →
  stalled s' ∧ sent s' = sent s ∧ output_queue s' = output_queue s ++ m.
Proof.
  intros (Hq & Hp & Hw & Hr) Hs. destruct Hs as [msg s _|p r w s _ _ Hp' Hw'|p r s Hr'|ev s _|s _|ok s s' _ E|s Hk].
  - assert ((length (output_queue s ++ [msg]) =? 1)%nat = false) as E.
    { apply Nat.eqb_neq. rw length_app. destruct (output_queue s); [done|]. cbn. lia. }
    unfold stalled, NB_enqueue. cbn. rw E. split_and!; try done. by destruct (output_queue s).
  - unfold stalled. cbn. rw app_nil_r. split_and!; try done.
    + destruct w; [|done]. by rw Hw in Hw'; destruct (Hw' I).
    + intros r' [= -> _]. specialize (Hp' I). lia.
  - destruct p; [by destruct (Hr r)|]. unfold stalled. cbn. by rw app_nil_r.
  - unfold stalled. rw app_nil_r. by destruct ev.
  - unfold stalled. cbn. by rw app_nil_r.
  - unfold NB_write in E. rw Hw in E. injection E as <-. unfold stalled. cbn. by rw app_nil_r.
  - unfold stalled, NB_worker. rw app_nil_r. destruct (worker s); [done|done| |done]. by destruct (event_queue s).
Qed.

(** The selector loses messages of its queue: [select] clears the set of
    the sockets to write to when the socket is only readable, and only the
    first message of an empty queue writes into the pipe.  For any two messages
    and any event there is a run in which the first message is sent, after
    which nothing that the threads do sends another message. *)
Theorem nb_selector_stalls msg msg' ev :
  ∃ s, run nb0 [msg; msg'] [ev] s ∧ sent s = [msg] ∧
    ∀ ms es s', run s ms es s' → sent s' = [msg] ∧ output_queue s' = msg' :: ms.
Proof.
  set (s := mkNBs [msg'] [msg] 0 false false [ev] [] Selecting Idle). exists s. split_and!.
  - set (a1 := NB_enqueue msg nb0). set (a2 := NB_enqueue msg' a1). set (a3 := NB_select true false false a2).
    set (a4 := NB_read_pipe true false a3). set (a5 := set_selector Received a4).
    set (a6 := mkNBs [msg'] [msg] 0 true false [] [] Selecting Idle). set (a7 := NB_select false true false a6).
    set (a8 := NB_read_pipe false true a7). set (a9 := NB_receive (Some ev) a8).
    change (run nb0 ([msg] ++ [msg']) ([] ++ [ev]) s).
    refine (run_trans _ [msg] [] a1 [msg'] [ev] _ _ _); [apply run_one; by constructor|].
    refine (run_trans _ [msg'] [] a2 [] [ev] _ _ _); [apply run_one; by constructor|].
    refine (run_trans _ [] [] a3 [] [ev] _ _ _); [apply run_one; constructor; try done; intros; cbn; lia|].
    refine (run_trans _ [] [] a4 [] [ev] _ _ _); [apply run_one; by constructor|].
    refine (run_trans _ [] [] a5 [] [ev] _ _ _); [apply run_one; by constructor|].
    refine (run_trans _ [] [] a6 [] [ev] _ _ _); [apply run_one; by apply (step_write true)|].
    refine (run_trans _ [] [] a7 [] [ev] _ _ _); [apply run_one; by constructor|].
    refine (run_trans _ [] [] a8 [] [ev] _ _ _); [apply run_one; by constructor|].
    refine (run_trans _ [] [ev] a9 [] [] _ _ _); [apply run_one; by apply (step_receive (Some ev))|].
    apply run_one. by apply (step_write true).
  - done.
  - intros ms es s' R. enough (stalled s' ∧ sent s' = [msg] ∧ output_queue s' = msg' :: ms) by tauto.
    remember s as s0 eqn:E. induction R as [s1|s1 ms es s1' m e s2 R IH Hs]; [by subst|].
    destruct (IH E) as (Hst & He & Hq). destruct (stalled_step _ _ _ _ Hst Hs) as (Hst' & He' & Hq').
    split_and!; [done|by rw He'|by rw Hq' Hq].
Qed.

(** An event that is read before the worker waits again stays in the queue
    until the next one is read. *)
Example nb_worker_sleeps ev : ∃ s, run nb0 [] [ev] s ∧ worker s = Waiting ∧ event_queue s = [ev] ∧ selector s = Selecting.
Proof.
  set (a1 := NB_select false true false nb0). set (a2 := NB_read_pipe false true a1).
  set (a3 := NB_receive (Some ev) a2). set (a4 := set_selector Selecting a3). exists (NB_worker a4). split; [|done].
  refine (run_trans _ [] [] a1 [] [ev] _ _ _); [apply run_one; by constructor|].
  refine (run_trans _ [] [] a2 [] [ev] _ _ _); [apply run_one; by constructor|].
  refine (run_trans _ [] [ev] a3 [] [] _ _ _); [apply run_one; by apply (step_receive (Some ev))|].
  refine (run_trans _ [] [] a4 [] [] _ _ _); apply run_one; [by apply (step_write true)|by constructor].
Qed.

(** ** Witnesses *)

Definition a_message : nb_message := mkNb 20 [Some 1] [].

Lemma a_run : run nb0 [a_message] [] (NB_enqueue a_message nb0).
Proof. apply run_one. by constructor. Qed.

Lemma nb_order_witness : output_queue (NB_enqueue a_message nb0) = [a_message].
Proof. destruct (nb_order _ _ _ a_run) as (E & _). exact E. Defined.

Lemma nb_progress_witness : ∃ s', NB_turns 1 (NB_enqueue a_message nb0) = Ok s' ∧ sent s' = [a_message].
Proof.
  destruct (proj1 (nb_progress _ _ _ a_run)) as (s' & E & _ & _ & H); [done|right; left; cbn; lia|].
  exists s'. split; [exact E|exact H].
Defined.
