(* ===== verification/Netlink.v ===== *)
(** * The netlink elements

    src/{netlink,tonetlink,fromnetlink,tomgmnetlink,frommgmnetlink}.{hh,cc}:
    the elements between the sockets of the applications and the proxy.

    In user space a socket hands over one message at a time.  The two elements
    that send share the queue of the Netlink element, and each asks for the
    writing of its own socket.  In the kernel a callback gets a message and a
    task empties a queue.  Numbers are stored as the machine does, least
    significant byte first. *)

From S2P Require Import Prelude Enums BitVector Packet RvMessages ClientApi.

(** ** The header *)

Record nlmsghdr := mkNlh { nlmsg_length : Z; nlmsg_type : Z; nlmsg_flags : Z; nlmsg_seq : Z; nlmsg_pid : Z }.

Definition nlmsghdr_bytes (h : nlmsghdr) : bytes :=
  le_bytes 4 (nlmsg_length h) ++ le_bytes 2 (nlmsg_type h) ++ le_bytes 2 (nlmsg_flags h) ++
  le_bytes 4 (nlmsg_seq h) ++ le_bytes 4 (nlmsg_pid h).

(** A message of the library, from the process [pid]. *)
Definition client_bytes (pid : Z) (m : datagram) : bytes := nlmsghdr_bytes (mkNlh (nlmsg_len m) 0 1 0 pid) ++ dg_payload m.

Definition nlmsg_len_of (d : bytes) : res Z := b ← data_read d 0 4; Ok (le_number b).
Definition nlmsg_pid_of (d : bytes) : res Z := b ← data_read d 12 4; Ok (le_number b).

(** ** User space: to the applications

    A packet in the queue has its annotation, which is the netlink port of the
    application.  [writes_app] and [writes_mgm]: SELECT_WRITE on the sockets. *)
Record netlink := mkNl { out_buf_queue : list (Z * bytes); writes_app : bool; writes_mgm : bool }.

(** The length in the header is [sizeof (final_p->length())]. *)
Definition with_header (pid : Z) (d : bytes) : bytes := nlmsghdr_bytes (mkNlh 4 0 1 0 pid) ++ d.

Definition ToNetlink_push (anno : Z) (d : bytes) (s : netlink) : netlink :=
  mkNl (out_buf_queue s ++ [(anno, with_header 9999 d)]) true (writes_mgm s).

Definition ToMGMNetlink_push (anno : Z) (d : bytes) (s : netlink) : netlink :=
  mkNl (out_buf_queue s ++ [(anno, with_header PID_MAPI d)]) (writes_app s) true.

(** What is sent, and to which port. *)
Definition ToNetlink_selected (s : netlink) : option (Z * bytes) * netlink :=
  match out_buf_queue s with
  | newPacket :: q => (Some newPacket, mkNl q (match q with [] => false | _ => writes_app s end) (writes_mgm s))
  | [] => (None, mkNl [] false (writes_mgm s))
  end.

Definition ToMGMNetlink_selected (s : netlink) : option (Z * bytes) * netlink :=
  match out_buf_queue s with
  | newPacket :: q => (Some newPacket, mkNl q (writes_app s) (match q with [] => false | _ => writes_mgm s end))
  | [] => (None, mkNl [] (writes_app s) false)
  end.

(** ** User space: from the applications

    [recv] is what [recv] gives, [None] if it fails.  The packet goes to the
    proxy with the port of the sender as its annotation, from port 0
    (FromNetlink) or 3 (FromMGMNetlink) of the proxy.  [pull] takes at most
    what the packet has. *)
Definition FromNetlink_selected (recv : option bytes) : res (option (Z * bytes)) :=
  match recv with
  | None | Some [] => Ok None
  | Some d => pid ← nlmsg_pid_of d; Ok (Some (pid, drop NLMSGHDR d))
  end.

(** ** The kernel *)

(** A 32-bit number that is stored in an [int]. *)
Definition int32 (z : Z) : Z := if u32 z <? 2147483648 then u32 z else u32 z - 4294967296.

(** [nlmsglen < sizeof ( *nlh)] compares an [int] with a [size_t]. *)
Definition nl_callback (skb : bytes) (down_queue : list (Z * bytes)) : res (list (Z * bytes)) :=
  let skblen := zlen skb in
  if skblen <? Z.of_nat NLMSGHDR then Ok down_queue else
  nlmsglen ← (len ← nlmsg_len_of skb; Ok (int32 len));
  if ((nlmsglen mod 2 ^ 64) <? Z.of_nat NLMSGHDR) || (skblen <? nlmsglen) then Ok down_queue else
  pid ← nlmsg_pid_of skb;
  Ok ((pid, drop NLMSGHDR skb) :: down_queue).

(** The loop of both tasks: the last packet of the queue, until it is empty. *)
Fixpoint run_task {A} (n : nat) (queue : list A) : list A :=
  match n with
  | O => []
  | S n => match last queue with Some p => p :: run_task n (removelast queue) | None => [] end
  end.

(** Packets for the proxy. *)
Definition FromNetlink_run_task (down_queue : list (Z * bytes)) : list (Z * bytes) := run_task (length down_queue) down_queue.

Definition ToNetlink_push_kernel (anno : Z) (d : bytes) (up_queue : list (Z * bytes)) : list (Z * bytes) :=
  (anno, with_header 0 d) :: up_queue.

Definition ToNetlink_run_task (up_queue : list (Z * bytes)) : list (Z * bytes) := run_task (length up_queue) up_queue.

(** ** Messages of the library arrive *)

Lemma nlmsghdr_bytes_length h : length (nlmsghdr_bytes h) = NLMSGHDR.
Proof. unfold nlmsghdr_bytes. by rw !length_app !le_bytes_length. Qed.

Lemma read_header h rest : 0 <= nlmsg_length h < 2 ^ 32 → 0 <= nlmsg_pid h < 2 ^ 32 →
  nlmsg_len_of (nlmsghdr_bytes h ++ rest) = Ok (nlmsg_length h) ∧
  nlmsg_pid_of (nlmsghdr_bytes h ++ rest) = Ok (nlmsg_pid h) ∧ drop NLMSGHDR (nlmsghdr_bytes h ++ rest) = rest.
Proof.
  intros Hl Hp. unfold nlmsg_len_of, nlmsg_pid_of. split_and!.
  - rw (data_read_at _ [] (le_bytes 4 (nlmsg_length h)) (le_bytes 2 (nlmsg_type h) ++ le_bytes 2 (nlmsg_flags h) ++
      le_bytes 4 (nlmsg_seq h) ++ le_bytes 4 (nlmsg_pid h) ++ rest) 0 4); [| |done|by rw le_bytes_length].
    + cbn [mbind res_mbind res_bind]. by rw le_number_bytes.
    + unfold nlmsghdr_bytes. by rw -!app_assoc.
  - rw (data_read_at _ (le_bytes 4 (nlmsg_length h) ++ le_bytes 2 (nlmsg_type h) ++ le_bytes 2 (nlmsg_flags h) ++
      le_bytes 4 (nlmsg_seq h)) (le_bytes 4 (nlmsg_pid h)) rest 12 4); [| |by rw !length_app !le_bytes_length|by rw le_bytes_length].
    + cbn [mbind res_mbind res_bind]. by rw le_number_bytes.
    + unfold nlmsghdr_bytes. by rw -!app_assoc.
  - by apply (drop_at _ (nlmsghdr_bytes h)); [|rw nlmsghdr_bytes_length].
Qed.

Lemma run_task_reverse {A} (q : list A) : run_task (length q) q = reverse q.
Proof.
  induction q as [|x q IH] using rev_ind; [done|]. rw length_app reverse_app Nat.add_comm. cbn [length Nat.add run_task].
  by rw last_snoc removelast_last IH.
Qed.

Definition message_ok (pid : Z) (m : datagram) : Prop :=
  0 <= pid < 2 ^ 32 ∧ nlmsg_len m = u32 (Z.of_nat NLMSGHDR + zlen (dg_payload m)) ∧
  Z.of_nat NLMSGHDR + zlen (dg_payload m) < 2 ^ 31.

Lemma user_receives pid m : message_ok pid m → FromNetlink_selected (Some (client_bytes pid m)) = Ok (Some (pid, dg_payload m)).
Proof.
  intros (Hp & El & Hl). unfold FromNetlink_selected.
  destruct (read_header (mkNlh (nlmsg_len m) 0 1 0 pid) (dg_payload m)) as (_ & E & Ed); [cbn; rw El; unfold u32; lia|done|].
  change (nlmsghdr_bytes _ ++ dg_payload m) with (client_bytes pid m) in E, Ed.
  destruct (client_bytes pid m) as [|b d] eqn:Ec; [by cbn in E|]. rw -Ec in E, Ed. rw -Ec E Ed. done.
Qed.

Lemma kernel_receives pid m q : message_ok pid m → nl_callback (client_bytes pid m) q = Ok ((pid, dg_payload m) :: q).
Proof.
  intros (Hp & El & Hl). unfold nl_callback.
  destruct (read_header (mkNlh (nlmsg_len m) 0 1 0 pid) (dg_payload m)) as (E1 & E2 & Ed); [cbn; rw El; unfold u32; lia|done|].
  change (nlmsghdr_bytes _ ++ dg_payload m) with (client_bytes pid m) in E1, E2, Ed. cbn [nlmsg_length nlmsg_pid] in E1, E2.
  assert (zlen (client_bytes pid m) = Z.of_nat NLMSGHDR + zlen (dg_payload m)) as Hc.
  { unfold zlen, client_bytes. rw length_app nlmsghdr_bytes_length. lia. }
  rw Hc E1 E2 Ed El. cbn [mbind res_mbind res_bind].
  assert (int32 (u32 (Z.of_nat NLMSGHDR + zlen (dg_payload m))) = Z.of_nat NLMSGHDR + zlen (dg_payload m)) as ->.
  { unfold int32, u32, zlen, NLMSGHDR in *. destruct (Z.ltb_spec (((Z.of_nat 16 + Z.of_nat (length (dg_payload m))) mod 4294967296) mod 4294967296) 2147483648); lia. }
  unfold zlen, NLMSGHDR in *.
  rw (proj2 (Z.ltb_ge _ _)); [|lia]. rw (proj2 (Z.ltb_ge _ _)); [|lia]. by rw (proj2 (Z.ltb_ge _ _)); [|lia].
Qed.

(** [C32] The messages of an application, each with the length of its bytes in
    the header, arrive at the proxy: in user space each one as it is read, in
    the kernel all of them in the order of the callbacks, when the task runs;
    with the process as their annotation and without the header. *)
Theorem application_messages_arrive l : Forall (λ '(pid, m), message_ok pid m) l →
  Forall (λ '(pid, m), FromNetlink_selected (Some (client_bytes pid m)) = Ok (Some (pid, dg_payload m))) l ∧
  ∃ q, foldl (λ r '(pid, m), q ← r; nl_callback (client_bytes pid m) q) (Ok []) l = Ok q ∧
    FromNetlink_run_task q = (λ '(pid, m), (pid, dg_payload m)) <$> l.
Proof.
  intros H. split; [eapply Forall_impl; [exact H|]; intros [pid m]; apply user_receives|].
  exists (reverse ((λ '(pid, m), (pid, dg_payload m)) <$> l)). split.
  - induction l as [|[pid m] l IH] using rev_ind; [done|]. apply Forall_app in H as [Hl [Hm _]%Forall_cons].
    rw foldl_app IH // fmap_app reverse_app. cbn. by apply kernel_receives.
  - unfold FromNetlink_run_task. by rw run_task_reverse reverse_involutive.
Qed.

(** ** Packets of the proxy are sent in their order *)

(** What a step adds to the packets of the proxy and to what is sent. *)
Inductive nl_step : list (Z * bytes) → list (Z * bytes) → netlink → netlink → Prop :=
  | nl_push_app anno d s : nl_step [(anno, with_header 9999 d)] [] s (ToNetlink_push anno d s)
  | nl_push_mgm anno d s : nl_step [(anno, with_header PID_MAPI d)] [] s (ToMGMNetlink_push anno d s)
  | nl_app s o s' : writes_app s → ToNetlink_selected s = (o, s') → nl_step [] (option_list o) s s'
  | nl_mgm s o s' : writes_mgm s → ToMGMNetlink_selected s = (o, s') → nl_step [] (option_list o) s s'.

Inductive nl_run : list (Z * bytes) → list (Z * bytes) → netlink → Prop :=
  | nl_start : nl_run [] [] (mkNl [] false false)
  | nl_next ps ss s p o s' : nl_run ps ss s → nl_step p o s s' → nl_run (ps ++ p) (ss ++ o) s'.

(** The two elements send the packets of the proxy once and in their
    order, each to the port of its annotation and after a header; and while
    a packet waits, one of the two sockets is waited for, and the next packet
    is sent when it is writable. *)
Theorem netlink_order ps ss s : nl_run ps ss s →
  ss ++ out_buf_queue s = ps ∧
  ∀ p q, out_buf_queue s = p :: q → ∃ s', nl_step [] [p] s s' ∧ out_buf_queue s' = q.
Proof.
  intros H. assert (ss ++ out_buf_queue s = ps ∧ (out_buf_queue s ≠ [] → writes_app s ∨ writes_mgm s)) as [E Hw].
  { induction H as [|ps ss s p o s' _ [E Hw] Hs]; [done|]. destruct Hs as [anno d s|anno d s|s o s' Ha Hs|s o s' Ha Hs].
    - rw app_nil_r app_assoc E. split; [done|by left].
    - rw app_nil_r app_assoc E. split; [done|by right].
    - unfold ToNetlink_selected in Hs. destruct (out_buf_queue s) as [|p q] eqn:Eq; injection Hs as <- <-; cbn; rw ?app_nil_r.
      + by rw app_nil_r in E.
      + rw -app_assoc. split; [done|]. destruct q; [done|]. by left.
    - unfold ToMGMNetlink_selected in Hs. destruct (out_buf_queue s) as [|p q] eqn:Eq; injection Hs as <- <-; cbn; rw ?app_nil_r.
      + by rw app_nil_r in E.
      + rw -app_assoc. split; [done|]. destruct q; [done|]. by right. }
  split; [done|]. intros p q Eq. destruct Hw as [Hw|Hw]; [by rw Eq|..].
  - eexists. split; [apply (nl_app s (Some p)); [done|unfold ToNetlink_selected; by rw Eq]|done].
  - eexists. split; [apply (nl_mgm s (Some p)); [done|unfold ToMGMNetlink_selected; by rw Eq]|done].
Qed.

(** The queue is shared: the answer to a management application leaves by the
    socket of the others when this one is writable first. *)
Example management_by_application_socket d :
  ToNetlink_selected (ToNetlink_push 10 d (ToMGMNetlink_push 20 d (mkNl [] false false))) =
  (Some (20, with_header PID_MAPI d), mkNl [(10, with_header 9999 d)] true true).
Proof. done. Qed.

(** A length of more than two gigabytes in the header of a short message
    passes both tests of the callback. *)
Example long_length_passes q : nl_callback (nlmsghdr_bytes (mkNlh (2 ^ 31) 0 1 0 7)) q = Ok ((7, []) :: q).
Proof. done. Qed.

(** ** Witnesses *)

Lemma application_messages_arrive_witness :
  ∃ q, foldl (λ r '(pid, m), q ← r; nl_callback (client_bytes pid m) q) (Ok []) [(10, Blackadder_disconnect); (11, mkDg 18 [1; 2])] = Ok q ∧
    FromNetlink_run_task q = [(10, [DISCONNECT]); (11, [1; 2])].
Proof.
  assert (Forall (λ '(pid, m), message_ok pid m) [(10, Blackadder_disconnect); (11, mkDg 18 [1; 2])]) as H.
  { repeat constructor; cbn; lia. }
  exact (proj2 (application_messages_arrive _ H)).
Defined.

Lemma netlink_order_witness : out_buf_queue (ToNetlink_push 10 [1] (mkNl [] false false)) = [(10, with_header 9999 [1])].
Proof.
  assert (nl_run ([] ++ [(10, with_header 9999 [1])]) ([] ++ []) (ToNetlink_push 10 [1] (mkNl [] false false))) as H
    by (eapply nl_next; constructor).
  destruct (netlink_order _ _ _ H) as [E _]. exact E.
Defined.
