(* ===== verification/Application.v ===== *)
(** * From application to application

    The client library, the netlink elements, the proxies and the rendezvous
    element together: a call of the library is the request that the rendezvous
    element serves; data that an application publishes is the event that the
    applications of another node get. *)

From S2P Require Import Prelude Enums HashTable BitVector Packet GlobalConf RvStore RvMessages LocalRV RvSafety.
From S2P Require Import ProxyStore LocalProxy ProxyInvariant ProxyRequests ProxyMessages ProxyDisconnect ProxyDelivery.
From S2P Require Import ProxyRendezvous ProxySafety ProxyNotify Proxy ClientApi Client Netlink.

(** Identifiers of at most 255 fragments. *)
Definition short (k : bytes) : Prop := (length k < 256 * PURSUIT_ID_LEN)%nat.

Lemma whole_frag_ok k : whole k → short k → frag_ok k.
Proof. intros [n E] Hs. exists n. unfold short, PURSUIT_ID_LEN in *. split; [lia|done]. Qed.

Lemma id_ok_whole k : id_ok k → whole k ∧ short k.
Proof. intros (n & Hn & E). split; [by exists n|]. unfold short. rw E. unfold PURSUIT_ID_LEN. lia. Qed.

Lemma id_field_len k : whole k → short k → id_len k :: k = id_field k.
Proof.
  intros Hw Hs. unfold id_field. f_equal. pose proof (id_len_whole k Hw Hs) as E. change ID_LEN with 8. change (Z.of_nat PURSUIT_ID_LEN) with 8 in E. lia.
Qed.

Lemma request_payload type ID prefix strategy : whole ID → short ID → whole prefix → short prefix →
  dg_payload (create_and_send_buffers type ID prefix strategy None) = request_bytes type ID prefix strategy.
Proof.
  intros H1 H2 H3 H4. unfold request_bytes. rw -!id_field_len //.
Qed.

(** What is sent has the length of its bytes in the header. *)
Lemma request_message pid type ID prefix strategy : 0 <= pid < 2 ^ 32 → short ID → short prefix →
  message_ok pid (create_and_send_buffers type ID prefix strategy None).
Proof.
  intros Hp H1 H2. unfold message_ok, short, PURSUIT_ID_LEN in *. cbn [create_and_send_buffers nlmsg_len dg_payload opt_bytes default].
  split; [done|]. split; [f_equal; wire_len|]. unfold zlen, NLMSGHDR. rw !length_app. cbn [length]. rw ?length_app. lia.
Qed.

Lemma data_message pid k strategy data : 0 <= pid < 2 ^ 32 → short k → zlen data < 2 ^ 30 → whole k →
  ∃ m, Blackadder_publish_data k strategy None data = Some m ∧ message_ok pid m ∧
    dg_payload m = [PUBLISH_DATA] ++ id_field k ++ [strategy] ++ data.
Proof.
  intros Hp Hs Hd Hw. unfold Blackadder_publish_data. rw (proj2 (wrong_size_false k) Hw). eexists. split; [done|].
  unfold message_ok, short, PURSUIT_ID_LEN, zlen, NLMSGHDR in *. cbn [nlmsg_len dg_payload opt_bytes default].
  split; [split; [done|]; split; [f_equal; wire_len|]; rw !length_app; cbn [length]; rw ?length_app; lia|].
  by rw -id_field_len.
Qed.

Section application.
Context `{CT : ClickTables}.
Implicit Types (s : proxy) (h : ptr) (k : bytes).

(** [C9] A pub/sub call of the library that is accepted, for an identifier
    that fits the byte of its length and is not the default HTTP one: the node reads, under the port of the
    process, the request; the proxy applies it to the host of the process; and
    if it is to be forwarded, either the rendezvous element of this node gets
    it and serves that type of request, identifier, father and strategy as one
    of this node, or one packet with the request goes to the network, to the
    rendezvous point. *)
Theorem api_request_served s pid type call nb ID prefix strategy m
    (W : wf s) (Hpid : 0 <= pid < 2 ^ 32) (Hcall : (type, (call, nb)) ∈ api_calls) (Hm : call ID prefix strategy None = Some m)
    (HID : short ID) (Hp : short prefix) (Hk : names_ok (full_ID ID prefix)) :
  let rq := request_bytes type ID prefix strategy in
  FromNetlink_selected (Some (client_bytes pid m)) = Ok (Some (pid, rq)) ∧
  ∃ h s1 r s' e, got_host s LOCAL_PROCESS pid h s1 ∧
    request_done s1 (request_kind type) h (full_ID ID prefix) strategy r s' ∧
    LocalProxy_push 0 pid rq s = Ok ((), set_out (out s ++ [e]) s') ∧
    if r then
      if to_local_RV (RVFID_of strategy (gc s)) (gc s) then
        ∃ b, e = Push 1 None Given (Some <$> b) ∧
          ∀ r, LocalRV_push 0 b r = serve (mkRequest (nodeID (gc s)) type ID prefix strategy) r
      else e = Push 2 None Given (Some <$> bytes_of_FID (RVFID_of strategy (gc s)) ++
                                  counted (id_field <$> [nodeRVScope (gc s)]) ++ rq)
    else e = Kill Given.
Proof.
  intros rq. destruct (call_sends type call nb ID prefix strategy None m Hcall Hm) as [(HwI & HwP & _) ->]. split.
  - rw user_receives; [|by apply request_message]. by rw request_payload.
  - apply application_request_served; try done; [|by apply whole_frag_ok..].
    clear -Hcall. unfold api_calls in Hcall. rw !elem_of_cons elem_of_nil in Hcall. unfold is_request.
    destruct_or!; try done; injection Hcall as -> _ _; apply (bool_decide_eq_true_1 _); by vm_compute.
Qed.

(** The message with data reaches the publication of the process. *)
Lemma push_data_run s pid k strategy data : wf s → id_ok k →
  strategy ∉ [IMPLICIT_RENDEZVOUS; LINK_LOCAL; BROADCAST_IF] →
  ∃ h s1, got_host s LOCAL_PROCESS pid h s1 ∧
    LocalProxy_push 0 pid ([PUBLISH_DATA] ++ id_field k ++ [strategy] ++ data) s =
    handleUserPublication k (Some PUBLISH_DATA) data h PUBLISHED_DATA s1.
Proof.
  intros W Hk Hst. destruct (wp_ok _ _ _ (wp_getLocalHost s LOCAL_PROCESS pid W)) as (h & s1 & Eh & Hgot).
  exists h, s1. split; [done|]. set (d := [PUBLISH_DATA] ++ _).
  unfold LocalProxy_push. change (0 =? 2) with false. change (0 =? 3) with false. change (0 =? 0) with true. cbv iota.
  unfold mbind at 1, M_bind at 1. rw Eh (data_byte_at d [] PUBLISH_DATA (id_field k ++ [strategy] ++ data) 0) // lift_check.
  change (PUBLISH_DATA =? DISCONNECT) with false. change (PUBLISH_DATA =? PUBLISH_DATA) with true. cbv iota.
  unfold push_data. unfold mbind at 1, M_bind at 1, gets. cbv iota beta.
  rw (read_ID_at d [PUBLISH_DATA] k ([strategy] ++ data) 1) //; [|by apply id_ok_frag]. rw lift_check. cbv zeta.
  rw (data_byte_at d ([PUBLISH_DATA] ++ id_field k) strategy data (2 + length k)); [|by rw -app_assoc|done]. rw lift_check.
  assert (∀ t, t ∈ [IMPLICIT_RENDEZVOUS; LINK_LOCAL; BROADCAST_IF] → (strategy =? t) = false) as Hne.
  { intros u Hu. apply Z.eqb_neq. by intros ->. }
  rw (Hne IMPLICIT_RENDEZVOUS) ?(Hne LINK_LOCAL) ?(Hne BROADCAST_IF); [|set_solver..]. cbn [orb].
  by rw (drop_at d ([PUBLISH_DATA] ++ id_field k ++ [strategy]) data); [|rw -!app_assoc|rw !length_app length_id_field; cbn; lia].
Qed.

(** What the library makes of a publication for a process. *)
Lemma event_read id data pid nl ev : id_ok id → out_buf_queue nl = [] →
  ∃ msg nl', ToNetlink_selected (ToNetlink_push pid (data_bytes PUBLISHED_DATA id data) nl) = (Some (pid, msg), nl') ∧
    Blackadder_getEvent ev (Some msg) = Ok (mkEv PUBLISHED_DATA id (ev_nodeId ev) (ev_isubID ev) (Some data)).
Proof.
  intros Hid Es. eexists _, _. unfold ToNetlink_selected, ToNetlink_push. rw Es. split; [reflexivity|].
  destruct (id_ok_whole id Hid) as [Hwi Hsi]. unfold with_header, data_bytes, frags.
  pose proof (id_field_len id Hwi Hsi) as Ef. unfold id_field in Ef. injection Ef as <-.
  apply parse_event_data; [apply nlmsghdr_bytes_length|done|done].
Qed.

(** [C8] Data from application to application.  A process of one node
    publishes data for an identifier whose publication has a path, by a call
    of the library with a strategy without a path.  One packet goes to the
    network, with the path; and when a node gets it without its path, every
    process there that hears of an identifier of the publication gets a
    message that the library reads as a PUBLISHED_DATA event with the last
    such identifier and the data. *)
Theorem application_to_application s1 s2 anno pid k strategy data k' ap
    (W1 : wf s1) (W2 : wf s2) (Hpid : 0 <= pid < 2 ^ 32) (Hk : id_ok k)
    (Hst : strategy ∉ [IMPLICIT_RENDEZVOUS; LINK_LOCAL; BROADCAST_IF]) (Hdata : zlen data < 2 ^ 30)
    (Hap : publication_of s1 k = Some (k', ap)) (Hnn : not_null (ap_FID_to_subscribers ap))
    (HIDs : path_ids (publication_IDs s1 k ap)) (Hok : Forall id_ok (publication_IDs s1 k ap))
    (Hne : publication_IDs s1 k ap ∉ [[controlReliabilityScope]; [notificationIID (gc s2)]; [pathMgmtIID]]) :
  let IDs := publication_IDs s1 k ap in
  ∃ m b0 s1' es b es2,
    Blackadder_publish_data k strategy None data = Some m ∧
    FromNetlink_selected (Some (client_bytes pid m)) = Ok (Some (pid, b0)) ∧
    LocalProxy_push 0 pid b0 s1 = Ok ((), set_out (out s1 ++ es) s1') ∧
    Push 2 None Made (Some <$> bytes_of_FID (ap_FID_to_subscribers ap) ++ b) ∈ es ∧
    LocalProxy_push 2 anno b s2 = Ok ((), set_out (out s2 ++ es2) s2) ∧
    ∀ q x id, told s2 q IDs = Some id → hosts s2 !! q = Some x → lh_type x = LOCAL_PROCESS →
      ∃ p (d : bytes), Push 0 (Some (lh_id x)) p (Some <$> d) ∈ es2 ∧
        ∀ nl ev, out_buf_queue nl = [] → ∃ msg nl', ToNetlink_selected (ToNetlink_push (lh_id x) d nl) = (Some (lh_id x, msg), nl') ∧
          Blackadder_getEvent ev (Some msg) = Ok (mkEv PUBLISHED_DATA id (ev_nodeId ev) (ev_isubID ev) (Some data)).
Proof.
  intros IDs. destruct (id_ok_whole k Hk) as [Hw Hs].
  destruct (data_message pid k strategy data Hpid Hs Hdata Hw) as (m & Em & Hm & Ep).
  destruct (push_data_run s1 pid k strategy data W1 Hk Hst) as (h & s1' & Hgot & Erun).
  assert (publication_of s1' k = Some (k', ap)) as Hap' by (unfold publication_of; by rw (gh_pubs _ _ _ _ _ Hgot)).
  assert (publication_IDs s1' k ap = IDs) as HI by (unfold publication_IDs; by rw (gh_pubs _ _ _ _ _ Hgot)).
  destruct (data_crosses_network s1' s2 anno k data h k' ap (gh_wf _ _ _ _ _ Hgot) W2 Hk Hap' Hnn) as (b & es & hs & E1 & Hin & _ & Hhs & E2);
    rw ?HI //. rw HI in Hhs, E2. rw (gh_out _ _ _ _ _ Hgot) in E1.
  eexists m, _, s1', es, b, _. split_and!; [done|by rw user_receives|by rw Ep Erun|done|exact E2|].
  intros q x id Htold Hx Hty. assert (q ∈ hs) as Hq.
  { apply Hhs. exists id. split; [by eapply told_id|]. unfold told in Htold. apply last_Some_elem_of in Htold.
    by apply list_elem_of_filter in Htold as [? _]. }
  destruct (network_copies_in s2 IDs hs data PUBLISHED_DATA q x Hq Hx) as [p He]. rw Htold in He. cbn [default] in He.
  unfold host_event in He. rw Hty in He. exists p, (data_bytes PUBLISHED_DATA id data). split; [exact He|].
  intros nl ev Es. apply event_read; [|done]. eapply Forall_forall; [exact Hok|by eapply told_id].
Qed.
End application.

(** ** Instances *)

Section instances.
Import Run2.

(** Application 10 publishes a new scope. *)
Lemma api_request_served_witness :
  ∃ m, Blackadder_publish_scope (frag 5) A DOMAIN_LOCAL None = Some m ∧
    FromNetlink_selected (Some (client_bytes 10 m)) = Ok (Some (10, request_bytes PUBLISH_SCOPE (frag 5) A DOMAIN_LOCAL)).
Proof.
  eexists. split; [reflexivity|].
  assert ((PUBLISH_SCOPE, (Blackadder_publish_scope, NB_publish_scope)) ∈ api_calls) as Hcall by by constructor.
  assert (short (frag 5) ∧ short A) as [HI HA] by (unfold short, PURSUIT_ID_LEN; cbn; lia).
  assert (names_ok (full_ID (frag 5) A)) as Hk by (split; [by apply (fragb_ok 1)|done]).
  exact (proj1 (api_request_served state 10 PUBLISH_SCOPE _ _ (frag 5) A DOMAIN_LOCAL _ node_wf ltac:(lia) Hcall eq_refl HI HA Hk)).
Defined.

(** Application 11 of one node publishes, once its publication has started;
    application 10 of the other gets the event. *)
Lemma application_to_application_witness :
  ∃ m b0 s1' es b es2,
    Blackadder_publish_data k DOMAIN_LOCAL None [7] = Some m ∧
    FromNetlink_selected (Some (client_bytes 11 m)) = Ok (Some (11, b0)) ∧
    LocalProxy_push 0 11 b0 state2 = Ok ((), set_out (out state2 ++ es) s1') ∧
    LocalProxy_push 2 0 b state_b = Ok ((), set_out (out state_b ++ es2) state_b) ∧
    ∃ p (d : bytes), Push 0 (Some 10) p (Some <$> d) ∈ es2 ∧
      ∃ msg nl', ToNetlink_selected (ToNetlink_push 10 d (mkNl [] false false)) = (Some (10, msg), nl') ∧
        Blackadder_getEvent Event_new (Some msg) = Ok (mkEv PUBLISHED_DATA k [] [] (Some [7])).
Proof.
  destruct item_published as (Hap & Hnn & HIDs). apply Is_true_true in Hnn.
  assert (path_ids (publication_IDs state2 k item)) as Hp by (rw HIDs; apply k_ok).
  assert (Forall id_ok (publication_IDs state2 k item)) as Hok by (rw HIDs; constructor; [apply k_ok|constructor]).
  assert (publication_IDs state2 k item ∉ [[controlReliabilityScope]; [notificationIID (gc state_b)]; [pathMgmtIID]]) as Hne.
  { rw HIDs. apply (bool_decide_eq_true_1 _). by vm_compute. }
  assert (DOMAIN_LOCAL ∉ [IMPLICIT_RENDEZVOUS; LINK_LOCAL; BROADCAST_IF]) as Hst by (apply (bool_decide_eq_true_1 _); by vm_compute).
  destruct (application_to_application state2 state_b 0 11 k DOMAIN_LOCAL [7] k item state2_wf state_b_wf ltac:(lia) (proj1 k_ok)
    Hst (eq_refl : zlen [7] < 2 ^ 30) Hap Hnn Hp Hok Hne) as (m & b0 & s1' & es & b & es2 & E1 & E2 & E3 & _ & E4 & H).
  exists m, b0, s1', es, b, es2. split; [exact E1|]. split; [exact E2|]. split; [exact E3|]. split; [exact E4|].
  assert (hosts state_b !! subscriber = Some (host_at state_b subscriber)) as Hx by by apply host_at_live.
  assert (told state_b subscriber (publication_IDs state2 k item) = Some k) as Htold by (rw HIDs; by vm_compute).
  assert (lh_type (host_at state_b subscriber) = LOCAL_PROCESS ∧ lh_id (host_at state_b subscriber) = 10) as [Hty Hid] by (split; vm_compute; reflexivity).
  destruct (H subscriber (host_at state_b subscriber) k Htold Hx Hty) as (p & d & Hin & Hev). rw Hid in Hin, Hev.
  exists p, d. split; [exact Hin|]. exact (Hev (mkNl [] false false) Event_new eq_refl).
Defined.
End instances.
