(* ===== verification/StdMap.v ===== *)
(** * std::map and std::set

    The ordered containers of the topology manager: a map is its list of
    entries in the order of an iterator, which is the order of the keys.  The
    laws of lookup need no order. *)

From S2P Require Import Prelude.
From Stdlib Require Import Sorted.

(** The order of std::string, and of pairs. *)
Fixpoint string_ltb (a b : bytes) : bool :=
  match a, b with
  | _, [] => false
  | [], _ :: _ => true
  | x :: a, y :: b => (x <? y) || ((x =? y) && string_ltb a b)
  end.

Definition pair_ltb (a b : nat * nat) : bool := ((a.1 <? b.1) || ((a.1 =? b.1) && (a.2 <? b.2)))%nat.

Class KeyOrder (K : Type) := key_ltb : K → K → bool.
#[export] Instance string_order : KeyOrder bytes := string_ltb.
#[export] Instance pair_order : KeyOrder (nat * nat) := pair_ltb.
#[export] Instance nat_order : KeyOrder nat := Nat.ltb.
#[export] Instance Z_order : KeyOrder Z := Z.ltb.

(** A strict order of all keys. *)
Class KeyOrderLaws (K : Type) `{KeyOrder K} := {
  key_irrefl (k : K) : key_ltb k k = false;
  key_trans (a b c : K) : key_ltb a b = true → key_ltb b c = true → key_ltb a c = true;
  key_total (a b : K) : a ≠ b → key_ltb a b = true ∨ key_ltb b a = true;
}.
#[export] Instance Z_order_laws : KeyOrderLaws Z.
Proof. split; unfold key_ltb, Z_order; lia. Qed.

Section maps.
Context {K : Type} `{EqDecision K} `{KeyOrder K} {V : Type}.
Implicit Types (m : list (K * V)) (k : K).

Fixpoint map_find k m : option V :=
  match m with [] => None | (j, v) :: m => if decide (k = j) then Some v else map_find k m end.

(** The place of a new key. *)
Fixpoint map_place k (v : V) m : list (K * V) :=
  match m with
  | [] => [(k, v)]
  | (j, w) :: m => if key_ltb k j then (k, v) :: (j, w) :: m else (j, w) :: map_place k v m
  end.

(** [m.insert(pair(k, v))], which keeps an entry of [k]; [m[k] = v]; and
    [m.erase(k)]. *)
Definition map_add k v m : list (K * V) := match map_find k m with Some _ => m | None => map_place k v m end.
Definition map_set k v m : list (K * V) :=
  match map_find k m with
  | Some _ => (λ '(j, w), if decide (k = j) then (j, v) else (j, w)) <$> m
  | None => map_place k v m
  end.
Definition map_del k m : list (K * V) := filter (λ e, e.1 ≠ k) m.

Lemma map_find_place k v m j : map_find k m = None →
  map_find j (map_place k v m) = if decide (j = k) then Some v else map_find j m.
Proof.
  induction m as [|[i w] m IH]; intros Hk; cbn in *; [by destruct (decide (j = k))|].
  destruct (decide (k = i)) as [|Hki]; [done|]. destruct (key_ltb k i); cbn.
  - done.
  - rw IH //. destruct (decide (j = i)), (decide (j = k)); congruence.
Qed.

Lemma map_find_add k v m j :
  map_find j (map_add k v m) = if decide (j = k) then Some (default v (map_find k m)) else map_find j m.
Proof.
  unfold map_add. destruct (map_find k m) as [w|] eqn:E; [|by rw map_find_place].
  by destruct (decide (j = k)) as [->|].
Qed.

Lemma map_find_replace k v m j :
  map_find j ((λ '(j, w), if decide (k = j) then (j, v) else (j, w)) <$> m) =
  if decide (j = k) then (λ _, v) <$> map_find k m else map_find j m.
Proof.
  induction m as [|[i u] m IH]; [by destruct (decide (j = k))|]. cbn. destruct (decide (k = i)) as [<-|Hki]; cbn.
  - destruct (decide (j = k)); [done|]. by rw IH.
  - rw IH. destruct (decide (j = i)) as [->|]; [by rw decide_False|done].
Qed.

Lemma map_find_set k v m j : map_find j (map_set k v m) = if decide (j = k) then Some v else map_find j m.
Proof.
  unfold map_set. destruct (map_find k m) as [w|] eqn:E; [|by rw map_find_place]. by rw map_find_replace E.
Qed.

Lemma map_find_del k m j : map_find j (map_del k m) = if decide (j = k) then None else map_find j m.
Proof.
  unfold map_del. induction m as [|[i u] m IH]; cbn; [by destruct (decide (j = k))|].
  destruct (decide (i ≠ k)) as [Hi|Hi]; cbn; rw IH.
  - destruct (decide (j = i)) as [->|]; [by rw decide_False|done].
  - apply dec_stable in Hi as ->. by destruct (decide (j = k)).
Qed.

(** The keys are different. *)
Definition map_ok m : Prop := NoDup m.*1.

Lemma map_find_elem k v m : map_ok m → (k, v) ∈ m ↔ map_find k m = Some v.
Proof.
  unfold map_ok. induction m as [|[i u] m IH]; cbn; [by rw elem_of_nil|]. intros [Hi Hn]%NoDup_cons.
  rw elem_of_cons. destruct (decide (k = i)) as [->|Hk].
  - split; [|intros [= ->]; by left]. intros [[= ->]|Hin]; [done|]. exfalso. apply Hi. by apply (list_elem_of_fmap_2 fst) in Hin.
  - rw IH //. naive_solver.
Qed.

Lemma map_find_keys k m : is_Some (map_find k m) ↔ k ∈ m.*1.
Proof.
  induction m as [|[i u] m IH]; cbn; [by rw elem_of_nil; split; [intros []|]|]. rw elem_of_cons.
  destruct (decide (k = i)); naive_solver.
Qed.

Lemma map_place_keys k v m : (map_place k v m).*1 ≡ₚ k :: m.*1.
Proof.
  induction m as [|[i u] m IH]; [done|]. cbn. destruct (key_ltb k i); [done|]. cbn. rw IH. apply perm_swap.
Qed.

Lemma map_ok_place k v m : map_find k m = None → map_ok m → map_ok (map_place k v m).
Proof.
  intros E H1. unfold map_ok. rw map_place_keys. constructor; [|done]. rw -map_find_keys E. by intros [].
Qed.
Lemma map_ok_add k v m : map_ok m → map_ok (map_add k v m).
Proof. intros H1. unfold map_add. destruct (map_find k m) eqn:E; [done|]. by apply map_ok_place. Qed.

Lemma map_set_known_keys k v m : is_Some (map_find k m) → (map_set k v m).*1 = m.*1.
Proof.
  unfold map_set. intros [w ->]. rw -list_fmap_compose. apply list_fmap_ext. intros _ [j u] _. cbn. by destruct (decide _).
Qed.
Lemma map_ok_set k v m : map_ok m → map_ok (map_set k v m).
Proof.
  intros H1. destruct (map_find k m) eqn:E.
  - unfold map_ok. by rw map_set_known_keys //; rw E.
  - unfold map_set. rw E. by apply map_ok_place.
Qed.
Lemma map_ok_del k m : map_ok m → map_ok (map_del k m).
Proof.
  unfold map_ok, map_del. induction m as [|[i u] m IH]; [done|]. intros [Hi Hn]%NoDup_cons. rw filter_cons.
  destruct (decide _); [|by apply IH]. cbn [fmap list_fmap fst]. constructor; [|by apply IH].
  intros Hin. apply Hi. apply list_elem_of_fmap in Hin as (e & -> & He). apply list_elem_of_fmap. exists e. split; [done|].
  by apply list_elem_of_filter in He as [_ ?].
Qed.
End maps.

(** ** The order of the entries *)

Section sorted.
Context {K : Type} `{EqDecision K} `{KO : KeyOrderLaws K} {V : Type}.
Implicit Types (m : list (K * V)) (k : K).

Definition map_sorted m : Prop := StronglySorted (λ a b, key_ltb a.1 b.1 = true) m.

Lemma map_sorted_place k v m : map_find k m = None → map_sorted m → map_sorted (map_place k v m).
Proof.
  intros Hk Hs. induction Hs as [|[j w] m Hm IH Hj]; [by repeat constructor|]. cbn in Hk |- *. case_decide as Hd; [done|].
  destruct (key_ltb k j) eqn:E.
  - constructor; [by constructor|]. constructor; [done|]. eapply Forall_impl; [exact Hj|]. intros [i u] Hi. cbn in *. by eapply key_trans.
  - constructor; [by apply IH|]. destruct (key_total k j Hd) as [E'|E']; [congruence|]. apply Forall_forall. intros e He.
    assert (e = (k, v) ∨ e ∈ m) as [->|He'].
    { clear -He. induction m as [|[i u] m IHm]; cbn in He; [left; by apply list_elem_of_singleton in He|].
      destruct (key_ltb k i); [apply elem_of_cons in He; naive_solver|]. apply elem_of_cons in He as [->|He]; [right; by left|].
      destruct (IHm He) as [->|?]; [by left|right; by right]. }
    + done.
    + by apply (proj1 (Forall_forall _ _) Hj).
Qed.

Lemma map_sorted_add k v m : map_sorted m → map_sorted (map_add k v m).
Proof. unfold map_add. destruct (map_find k m) eqn:E; [done|]. by apply map_sorted_place. Qed.

Lemma map_sorted_ok m : map_sorted m → map_ok m.
Proof.
  intros Hs. induction Hs as [|[k v] m Hm IH Hk]; constructor; [|done]. intros (e & Ek & He)%list_elem_of_fmap. cbn in Ek.
  apply (proj1 (Forall_forall _ _) Hk) in He. cbn in He. rw -Ek key_irrefl in He. done.
Qed.

Lemma map_sorted_filter (P : K * V → Prop) `{∀ e, Decision (P e)} m : map_sorted m → map_sorted (filter P m).
Proof.
  intros H'. induction H' as [|e m Hm IH He]; [constructor|]. rw filter_cons. case_decide; [|done]. constructor; [done|].
  apply Forall_forall. intros x [_ Hx]%list_elem_of_filter. by apply (proj1 (Forall_forall _ _) He).
Qed.

(** Maps with the same entries are the same list. *)
Lemma map_sorted_unique m m' : map_sorted m → map_sorted m' → (∀ e, e ∈ m ↔ e ∈ m') → m = m'.
Proof.
  intros Hs. revert m'. induction Hs as [|e m Hm IH He]; intros m' H' Heq.
  - destruct m' as [|e' m']; [done|]. exfalso. apply (elem_of_nil (A := K * V) e'), Heq. by left.
  - destruct H' as [|e' m' Hm' He']; [exfalso; apply (elem_of_nil (A := K * V) e), Heq; by left|].
    assert (e = e') as <-.
    { pose proof (proj1 (Heq e) (list_elem_of_here _ _)) as [|E]%elem_of_cons; [done|].
      pose proof (proj2 (Heq e') (list_elem_of_here _ _)) as [|E']%elem_of_cons; [done|].
      apply (proj1 (Forall_forall _ _) He') in E. apply (proj1 (Forall_forall _ _) He) in E'.
      pose proof (key_trans _ _ _ E E') as Hc. by rw key_irrefl in Hc. }
    f_equal. apply IH; [done|]. intros x. assert (∀ l, Forall (λ b, key_ltb e.1 b.1 = true) l → e ∉ l) as Hno.
    { intros l Hl Hin. apply (proj1 (Forall_forall _ _) Hl) in Hin. by rw key_irrefl in Hin. }
    pose proof (Hno _ He). pose proof (Hno _ He'). specialize (Heq x). rw !elem_of_cons in Heq. naive_solver.
Qed.
End sorted.

(** A set is its list of elements in order. *)
Fixpoint set_place {K} `{KeyOrder K} (k : K) (s : list K) : list K :=
  match s with [] => [k] | j :: s => if key_ltb k j then k :: j :: s else j :: set_place k s end.
Definition set_add {K} `{EqDecision K} `{KeyOrder K} (k : K) (s : list K) : list K :=
  if decide (k ∈ s) then s else set_place k s.

Section sets.
Context {K : Type} `{EqDecision K} `{KeyOrder K}.
Implicit Types (s : list K) (k : K).

Lemma set_place_perm k s : set_place k s ≡ₚ k :: s.
Proof. induction s as [|j s IH]; [done|]. cbn. destruct (key_ltb k j); [done|]. rw IH. apply perm_swap. Qed.

Lemma elem_of_set_add k s j : j ∈ set_add k s ↔ j = k ∨ j ∈ s.
Proof.
  unfold set_add. destruct (decide (k ∈ s)); [naive_solver|]. by rw set_place_perm elem_of_cons.
Qed.

Lemma NoDup_set_add k s : NoDup s → NoDup (set_add k s).
Proof. unfold set_add. intros Hs. destruct (decide (k ∈ s)); [done|]. rw set_place_perm. by constructor. Qed.

Lemma elem_of_set_adds l s j : j ∈ foldl (λ s k, set_add k s) s l ↔ j ∈ l ∨ j ∈ s.
Proof.
  revert s. induction l as [|k l IH]; intros s; cbn; [set_solver|]. rw IH elem_of_set_add elem_of_cons. naive_solver.
Qed.
Lemma NoDup_set_adds l s : NoDup s → NoDup (foldl (λ s k, set_add k s) s l).
Proof. revert s. induction l as [|k l IH]; intros s Hs; [done|]. cbn. by apply IH, NoDup_set_add. Qed.
End sets.
