(* ===== verification/LibBitvector.v ===== *)
(** * Bitvector of the libraries

    lib/bitvector.{hpp,cpp}: the second copy of the class, which the topology
    manager and the applications use.  It is BABitvector without the
    assertions and with a constructor from a string; what has no assertion in
    the other copy is the same code and is used from BitVector.v. *)

From S2P Require Import Prelude Enums BitVector.

(** [memset(_data, 0, n)] *)
Fixpoint memset0 (n : nat) (data : list Z) : list Z :=
  match data with
  | [] => []
  | w :: data =>
      if (4 <=? n)%nat then 0 :: memset0 (n - 4) data
      else Z.shiftl (Z.shiftr w (8 * Z.of_nat n)) (8 * Z.of_nat n) :: data
  end.

(** Assignment to a bit by [operator[]], and its constant form; neither asserts anything. *)
Definition Bitvector_set (b : BABitvector) (i : Z) (x : bool) : res BABitvector :=
  let j := Z.shiftr i 5 in
  if (0 <=? j) && (j <? zlen (bv_data b)) then
    Ok (mkBV (bv_max b) (alter (Bit_assign x (Z.shiftl 1 (Z.land i 31))) (Z.to_nat j) (bv_data b)))
  else Fault OutOfBounds.

Definition Bitvector_get (b : BABitvector) (i : Z) : res bool :=
  let j := Z.shiftr i 5 in
  if 0 <=? j then
    w ← or_fault OutOfBounds (bv_data b !! Z.to_nat j); Ok (negb (Z.land w (Z.shiftl 1 (Z.land i 31)) =? 0))
  else Fault OutOfBounds.

(** The loop of the constructor: only the bits of a '1' are assigned. *)
Fixpoint set_ones (b : BABitvector) (x : bytes) : res BABitvector :=
  match x with
  | [] => Ok b
  | c :: x => b ← (if c =? 49 then Bitvector_set b (zlen x) true else Ok b); set_ones b x
  end.

(** [mem] is what the new storage, a word for each character, holds; only as
    many bytes of it as there are characters are cleared. *)
Definition Bitvector_of_string (mem : list Z) (x : bytes) : res BABitvector :=
  set_ones (mkBV (zlen x - 1) (memset0 (length x) mem)) x.

(** The copy constructor. *)
Definition Bitvector_new (o : BABitvector) : BABitvector :=
  if bv_max o >? MAX_INLINE_BIT then mkBV (bv_max o) (take (nwords (bv_max o)) (bv_data o))
  else mkBV (bv_max o) (take 2 (bv_data o)).

Definition Bitvector_and_assign (b o : BABitvector) : res BABitvector :=
  d ← word_loop Z.land (nwords (bv_max b)) (bv_data b) (bv_data o); Ok (mkBV (bv_max b) d).

Definition Bitvector_xor_assign (b o : BABitvector) : res BABitvector :=
  d ← word_loop Z.lxor (nwords (bv_max b)) (bv_data b) (bv_data o); Ok (mkBV (bv_max b) d).

Definition Bitvector_and (b o : BABitvector) : res BABitvector := Bitvector_and_assign (Bitvector_new b) o.
Definition Bitvector_or (b o : BABitvector) : res BABitvector := BABitvector_or_assign (Bitvector_new b) o.
Definition Bitvector_xor (b o : BABitvector) : res BABitvector := Bitvector_xor_assign (Bitvector_new b) o.

Definition Bitvector_or_with_difference (b o diff : BABitvector) : res (BABitvector * BABitvector) :=
  let diff := if negb (bv_max diff =? bv_max b) then BABitvector_resize (bv_max b + 1) diff else diff in
  dd ← word_loop (λ d w, Z.land w (not32 d)) (nwords (bv_max b)) (bv_data b) (bv_data o);
  d ← word_loop Z.lor (nwords (bv_max b)) (bv_data b) (bv_data o);
  Ok (mkBV (bv_max b) d,
      mkBV (bv_max diff) (take (nwords (bv_max b)) dd ++ drop (nwords (bv_max b)) (bv_data diff))).

(** [to_string]: the bits from the last to the first. *)
Fixpoint Bitvector_to_string_from (b : BABitvector) (i : nat) : res bytes :=
  match i with
  | O => Ok []
  | S i => x ← Bitvector_get b (Z.of_nat i);
           r ← Bitvector_to_string_from b i;
           Ok ((if x : bool then 49 else 48) :: r)
  end.
Definition Bitvector_to_string (b : BABitvector) : res bytes := Bitvector_to_string_from b (Z.to_nat (BABitvector_size b)).

(** ** The two copies agree *)

Lemma Bitvector_set_spec b i x : bv_wf b → (i < bv_len b)%nat → Bitvector_set b (Z.of_nat i) x = BABitvector_set b (Z.of_nat i) x.
Proof.
  intros [H1 H2 _ _] Hi. pose proof (bit_lt_words b i Hi) as Hw. unfold Bitvector_set, BABitvector_set, zlen.
  unfold bv_len, BABitvector_size in Hi. rw shiftr5.
  assert ((0 <=? Z.of_nat i / 32) && (Z.of_nat i / 32 <? Z.of_nat (length (bv_data b))) = true) as -> by lia.
  by assert ((0 <=? Z.of_nat i) && (Z.of_nat i <=? bv_max b) = true) as -> by lia.
Qed.

Lemma Bitvector_get_spec b i : bv_wf b → (i < bv_len b)%nat → Bitvector_get b (Z.of_nat i) = BABitvector_get b (Z.of_nat i).
Proof.
  intros [H1 _ _ _] Hi. unfold Bitvector_get, BABitvector_get. unfold bv_len, BABitvector_size in Hi. rw shiftr5.
  assert ((0 <=? Z.of_nat i / 32) = true) as -> by lia.
  by assert ((0 <=? Z.of_nat i) && (Z.of_nat i <=? bv_max b) = true) as -> by lia.
Qed.

Lemma Bitvector_to_string_spec b : bv_wf b → Bitvector_to_string b = BABitvector_to_string b.
Proof.
  intros Hb. unfold Bitvector_to_string, BABitvector_to_string. assert (∀ n, (n ≤ bv_len b)%nat →
    Bitvector_to_string_from b n = to_string_from b n) as H; [|by apply H].
  induction n as [|n IH]; intros Hn; [done|]. cbn. rw Bitvector_get_spec //. by rw IH; [|lia].
Qed.

Lemma Bitvector_new_wf b : bv_wf b → bv_wf (Bitvector_new b) ∧ bv_max (Bitvector_new b) = bv_max b ∧
  ∀ i, (i < bv_len b)%nat → bv_bit (Bitvector_new b) i = bv_bit b i.
Proof.
  intros [H1 H2 H3 H4]. unfold Bitvector_new. assert (∀ n, (n = 2 `max` nwords (bv_max b))%nat →
    bv_wf (mkBV (bv_max b) (take n (bv_data b))) ∧
    ∀ i, (i < bv_len b)%nat → bv_bit (mkBV (bv_max b) (take n (bv_data b))) i = bv_bit b i) as H.
  { intros n ->. assert (∀ i, (i < 32 * (2 `max` nwords (bv_max b)))%nat →
      bv_bit (mkBV (bv_max b) (take (2 `max` nwords (bv_max b)) (bv_data b))) i = bv_bit b i) as Hb.
    { intros i Hi. unfold bv_bit, data_bit. cbn [bv_data]. rw !nth_lookup lookup_take_lt //. lia. }
    split.
    - split; cbn [bv_max bv_data]; [done|rw length_take; lia|by apply Forall_take|]. intros i Hi Hi'. rw Hb //. by apply H4.
    - intros i Hi. apply Hb. pose proof (bit_lt_words b i Hi). lia. }
  pose proof (nwords_eq (bv_max b)) as Hn. unfold MAX_INLINE_BIT. destruct (Z.gtb_spec (bv_max b) 63).
  - destruct (H (nwords (bv_max b))) as [??]; [|done]. rw decide_False in Hn; lia.
  - destruct (H 2%nat) as [??]; [|done]. destruct (decide (bv_max b < 0)); lia.
Qed.

Lemma lib_or_implements : implements Bitvector_or orb.
Proof.
  intros a b Ha Hb Hm. destruct (Bitvector_new_wf a Ha) as (W & M & B).
  destruct (or_implements (Bitvector_new a) b W Hb) as (c & E & Wc & Mc & Bc); [congruence|].
  exists c. split_and!; [done|done|congruence|]. intros i Hi. rw Bc; [by rw B|]. unfold bv_len, BABitvector_size in *. by rw M.
Qed.

Lemma lib_and_implements : implements Bitvector_and andb.
Proof.
  intros a b Ha Hb Hm. destruct (Bitvector_new_wf a Ha) as (W & M & B).
  destruct (and_implements (Bitvector_new a) b W Hb) as (c & E & Wc & Mc & Bc); [congruence|].
  exists c. split_and!; [|done|congruence|].
  - unfold BABitvector_and_assign in E. by rw same_max_ok in E; [|congruence].
  - intros i Hi. rw Bc; [by rw B|]. unfold bv_len, BABitvector_size in *. by rw M.
Qed.

(** The storage of a new vector, cleared. *)
Lemma memset0_zero n mem i : (n ≤ length mem)%nat → (4 * i + 4 ≤ n)%nat → nth i (memset0 n mem) 0 = 0.
Proof.
  revert n i. induction mem as [|w mem IH]; intros n i Hl Hi; [cbn in *; lia|]. cbn [memset0].
  destruct (Nat.leb_spec 4 n); [|lia]. destruct i as [|i]; [done|]. cbn [length] in Hl. cbn. destruct (decide (n - 4 ≤ length mem)%nat); [apply IH; lia|lia].
Qed.

Lemma memset0_length n mem : length (memset0 n mem) = length mem.
Proof.
  revert n. induction mem as [|w mem IH]; intros n; [done|]. cbn [memset0]. destruct (4 <=? n)%nat; [|done]. cbn [length]. by rw IH.
Qed.

Lemma memset0_words n mem : Forall word_ok mem → Forall word_ok (memset0 n mem).
Proof.
  revert n. induction mem as [|w mem IH]; intros n Hm; [done|]. apply Forall_cons in Hm as [Hw Hm]. cbn [memset0].
  destruct (4 <=? n)%nat; constructor; [by apply word_ok_0|by apply IH| |done].
  apply word_ok_bits in Hw as [H0 Hb]. apply word_ok_bits. split; [apply Z.shiftl_nonneg, Z.shiftr_nonneg; lia|].
  intros k Hk. destruct (Z.leb_spec (8 * Z.of_nat n) k).
  - rw Z.shiftl_spec; [|lia]. rw Z.shiftr_spec; [|lia]. apply Hb. lia.
  - by rw Z.shiftl_spec_low.
Qed.

Lemma set_ones_spec b x : bv_wf b → (length x ≤ bv_len b)%nat →
  ∃ c, set_ones b x = Ok c ∧ bv_wf c ∧ bv_max c = bv_max b ∧
    ∀ i, bv_bit c i = (bool_decide (i < length x)%nat && (nth (length x - 1 - i) x 0 =? 49)) || bv_bit b i.
Proof.
  revert b. induction x as [|ch x IH]; intros b Hb Hl; cbn [set_ones].
  { exists b. split_and!; [done..|]. intros i. cbn [length]. by rw bool_decide_eq_false_2; [|lia]. }
  cbn [length] in Hl. unfold zlen.
  assert (∃ b', (if ch =? 49 then Bitvector_set b (Z.of_nat (length x)) true else Ok b) = Ok b' ∧ bv_wf b' ∧ bv_max b' = bv_max b ∧
    ∀ j, bv_bit b' j = (bool_decide (j = length x) && (ch =? 49)) || bv_bit b j) as (b' & -> & Hb' & Hm & Hbit).
  { destruct (ch =? 49).
    - rw Bitvector_set_spec //. destruct (BABitvector_set_spec b (length x) true) as (c & E & ? & ? & Hc); [done|lia|].
      exists c. split_and!; [done..|]. intros j. rw Hc. by case_decide; [rw bool_decide_eq_true_2|rw bool_decide_eq_false_2].
    - exists b. split_and!; [done..|]. intros j. by rw andb_false_r. }
  cbn [mbind res_mbind res_bind].
  destruct (IH b') as (c & Hc & Hwf & Hm' & Hbits); [done|unfold bv_len, BABitvector_size in *; rw Hm; lia|].
  exists c. split_and!; [done|done|by rw Hm'|]. intros i. rw Hbits Hbit. cbn [length].
  destruct (decide (i < length x)%nat).
  - rw (bool_decide_eq_false_2 (i = length x)); [|lia]. rw !bool_decide_eq_true_2; [|lia..].
    by replace (S (length x) - 1 - i)%nat with (S (length x - 1 - i)) by lia.
  - rw (bool_decide_eq_false_2 (i < length x)%nat) //. destruct (decide (i = length x)) as [->|].
    + rw (bool_decide_eq_true_2 (length x = length x)) // bool_decide_eq_true_2; [|lia]. by replace (S (length x) - 1 - length x)%nat with 0%nat by lia.
    + by rw !bool_decide_eq_false_2; [|lia..].
Qed.

Lemma of_string_spec mem x : length mem = length x → Forall word_ok mem → (8 ≤ length x)%nat →
  ∃ c, Bitvector_of_string mem x = Ok c ∧ bv_wf c ∧ bv_max c = zlen x - 1 ∧
    ∀ i, (i < length x)%nat → bv_bit c i = (nth (length x - 1 - i) x 0 =? 49).
Proof.
  intros Hl Hw H8. unfold Bitvector_of_string. set (b := mkBV (zlen x - 1) (memset0 (length x) mem)).
  pose proof (nwords_eq (zlen x - 1)) as Hn. unfold zlen in Hn. rw decide_False in Hn; [|lia].
  assert (∀ i, (i < 32 * (2 `max` nwords (bv_max b)))%nat → bv_bit b i = false) as Hz.
  { intros i Hi. unfold bv_bit, data_bit. cbn [bv_data b]. rw memset0_zero ?Z.bits_0 //; [lia|]. unfold b, zlen in Hi. cbn [bv_max] in Hi. lia. }
  assert (bv_wf b) as Wb.
  { split; [cbn; unfold zlen; lia| |by apply memset0_words|intros i _ Hi; by apply Hz].
    unfold b. cbn [bv_data bv_max]. rw memset0_length. unfold zlen. lia. }
  assert (bv_len b = length x) as Hlen by (unfold bv_len, BABitvector_size, b, zlen; cbn [bv_max]; lia).
  destruct (set_ones_spec b x Wb) as (c & E & Wc & Mc & Bc); [lia|].
  exists c. split_and!; [done|done|by rw Mc|]. intros i Hi. rw Bc bool_decide_eq_true_2 // Hz ?orb_false_r //.
  pose proof (bit_lt_words b i ltac:(lia)). lia.
Qed.

(** A vector that is made from a string of at least eight characters
    '0' and '1' has one bit for each, whatever the memory held, and prints as
    that string; and it is the vector that the elements of the node make from
    it. *)
Theorem lib_string_roundtrip mem x : length mem = length x → Forall word_ok mem → (8 ≤ length x)%nat →
  Forall (λ c, c = 48 ∨ c = 49) x →
  ∃ b c, Bitvector_of_string mem x = Ok b ∧ bv_wf b ∧ BABitvector_size b = zlen x ∧ Bitvector_to_string b = Ok x ∧
    parse_bits (BABitvector_make (zlen x)) x = Ok c ∧ BABitvector_eqb b c = true.
Proof.
  intros Hl Hw H8 H01. destruct (of_string_spec mem x Hl Hw H8) as (b & E & Wb & Mb & Bb).
  destruct (BABitvector_make_zeros (zlen x)) as (Hwf & Hm & _); [unfold zlen; lia|].
  assert (bv_len b = length x) as Hlen by (unfold bv_len, BABitvector_size; rw Mb; unfold zlen; lia).
  destruct (parse_bits_spec (BABitvector_make (zlen x)) x Hwf) as (c & Ec & Wc & Mc & Bc); [unfold bv_len, BABitvector_size; rw Hm; unfold zlen; lia|].
  exists b, c. split_and!; [done|done|unfold BABitvector_size; rw Mb; lia| |done|].
  - rw Bitvector_to_string_spec //. by apply to_string_bits.
  - apply BABitvector_eqb_bits; [done|done|]. split; [by rw Mc Hm Mb|]. rw Hlen. intros i Hi. by rw Bb // Bc decide_True.
Qed.

(** A shorter string gives a vector with bits of the memory. *)
Example short_string_garbage : Bitvector_of_string [16776960] [48] = Ok (mkBV 0 [16776960]) ∧
  BABitvector_zero (mkBV 0 [16776960]) = false.
Proof. by vm_compute. Qed.

Lemma lib_string_roundtrip_witness : ∃ b, Bitvector_of_string (replicate 8 77) [48; 49; 48; 48; 48; 48; 48; 49] = Ok b ∧
  Bitvector_to_string b = Ok [48; 49; 48; 48; 48; 48; 48; 49].
Proof.
  assert (Forall word_ok (replicate 8 77)) as Hw by (apply Forall_replicate; unfold word_ok; lia).
  assert (Forall (λ c, c = 48 ∨ c = 49) [48; 49; 48; 48; 48; 48; 48; 49]) as H01 by (repeat constructor; lia).
  destruct (lib_string_roundtrip (replicate 8 77) [48; 49; 48; 48; 48; 48; 48; 49] eq_refl Hw ltac:(cbn; lia) H01)
    as (b & _ & E & _ & _ & Es & _).
  exists b. split; [exact E|exact Es].
Defined.
