(* ===== verification/Topology.v ===== *)
(** * The topology graph

    TopologyManager/tm_graph.{hpp,cpp} and tm_igraph.cpp: the state of the
    topology manager, the identifiers of shortest paths, the choice of a
    publisher for each subscriber, and the change of a link.

    igraph and the monitoring agent are not part of the repository's logic:
    the class [Igraph] has the functions of igraph that are called, and the
    answers of the agent are an argument. *)

From S2P Require Import Prelude Enums BitVector Packet StdMap LibBitvector.

(** ** igraph *)

Class Igraph := {
  graph : Type;
  igraph_vcount : graph → nat;
  igraph_ecount : graph → nat;
  igraph_edge : graph → nat → nat * nat;
  VAS_NODEID : graph → nat → bytes;
  VAS_iLID : graph → nat → bytes;
  EAS_LID : graph → nat → bytes;
  EAS_LID_set : nat → bytes → graph → graph;
  igraph_get_shortest_paths : graph → nat → nat → list nat;
  igraph_get_eid : graph → nat → nat → option nat;
  igraph_add_edges : list (nat * nat) → graph → graph;
  igraph_delete_edges : list (nat * nat) → graph → graph;
}.

(** The words that [new uint32_t[n]] gives. *)
Class Heap := {
  new_words : nat → list Z;
  new_words_length n : length (new_words n) = n;
  new_words_ok n : Forall word_ok (new_words n);
}.

(** ** State *)

(** The identifiers of a map are pointers; [None] is null. *)
Record tmgraph `{Igraph} := mkTM {
  tm_graph : graph;
  tm_nodeID : bytes;
  RVnodeID : bytes;
  RMnodeID : bytes;
  tm_mode : bytes;
  extension : list bool;
  reverse_node_index : list (bytes * nat);
  nodeID_iLID : list (bytes * BABitvector);
  edge_LID : list (nat * BABitvector);
  reverse_edge_index : list (bytes * nat);
  freedLIDs : list ((nat * nat) * BABitvector);
  tm_RVFID : list (bytes * option BABitvector);
  tm_TMFID : list (bytes * option BABitvector);
  TM_to_nodeFID : list (bytes * option BABitvector);
}.

Definition FID_BITS : nat := FID_LEN * 8.
Definition UINT_MAX : Z := 4294967295.
Definition SUPPORT_SIZE : Z := 5.
Definition TE : Z := 0.
Definition QOS : Z := 1.
Definition RS : Z := 2.
Definition PM : Z := 3.

(** [fail] marks what is read through [end()] or a null pointer. *)
Definition found {A} (o : option A) : res A := or_fault NullDeref o.

Section topology.
Context `{IG : Igraph} `{HP : Heap}.
Implicit Types (tm : tmgraph) (g : graph).

Definition set_graph g tm := mkTM _ g (tm_nodeID tm) (RVnodeID tm) (RMnodeID tm) (tm_mode tm) (extension tm)
  (reverse_node_index tm) (nodeID_iLID tm) (edge_LID tm) (reverse_edge_index tm) (freedLIDs tm) (tm_RVFID tm) (tm_TMFID tm) (TM_to_nodeFID tm).
Definition set_edges l r tm := mkTM _ (tm_graph tm) (tm_nodeID tm) (RVnodeID tm) (RMnodeID tm) (tm_mode tm) (extension tm)
  (reverse_node_index tm) (nodeID_iLID tm) l r (freedLIDs tm) (tm_RVFID tm) (tm_TMFID tm) (TM_to_nodeFID tm).
Definition set_freed f tm := mkTM _ (tm_graph tm) (tm_nodeID tm) (RVnodeID tm) (RMnodeID tm) (tm_mode tm) (extension tm)
  (reverse_node_index tm) (nodeID_iLID tm) (edge_LID tm) (reverse_edge_index tm) f (tm_RVFID tm) (tm_TMFID tm) (TM_to_nodeFID tm).
Definition set_FIDs rv t n tm := mkTM _ (tm_graph tm) (tm_nodeID tm) (RVnodeID tm) (RMnodeID tm) (tm_mode tm) (extension tm)
  (reverse_node_index tm) (nodeID_iLID tm) (edge_LID tm) (reverse_edge_index tm) (freedLIDs tm) rv t n.
Definition set_extension e tm := mkTM _ (tm_graph tm) (tm_nodeID tm) (RVnodeID tm) (RMnodeID tm) (tm_mode tm) e
  (reverse_node_index tm) (nodeID_iLID tm) (edge_LID tm) (reverse_edge_index tm) (freedLIDs tm) (tm_RVFID tm) (tm_TMFID tm) (TM_to_nodeFID tm).

(** ** tm_graph.cpp *)

(** The test lets 5 pass; [extension] has five elements. *)
Definition getExten (idx : Z) tm : res bool :=
  if (idx <? 0) || (idx >? SUPPORT_SIZE) then Ok false else or_fault OutOfBounds (extension tm !! Z.to_nat idx).
Definition setExten (idx : Z) tm : res tmgraph :=
  if (idx <? 0) || (idx >? SUPPORT_SIZE) then Ok tm
  else if idx <? zlen (extension tm) then Ok (set_extension (<[Z.to_nat idx := true]> (extension tm)) tm) else Fault OutOfBounds.

Definition getTM_to_nodeFID (nodeID : bytes) tm : res (option BABitvector) := found (map_find nodeID (TM_to_nodeFID tm)).
Definition getRVFID (nodeID : bytes) tm : res (option BABitvector) := found (map_find nodeID (tm_RVFID tm)).
Definition getTMFID (nodeID : bytes) tm : res (option BABitvector) := found (map_find nodeID (tm_TMFID tm)).

(** [*m[nodeID] = *FID]: the object is assigned. *)
Definition map_assign (nodeID : bytes) (FID : BABitvector) (m : list (bytes * option BABitvector)) :
    res (list (bytes * option BABitvector)) :=
  match map_find nodeID m with
  | Some (Some old) => Ok (map_set nodeID (Some (BABitvector_copy old FID)) m)
  | _ => Fault NullDeref
  end.
Definition setTM_to_nodeFID (nodeID : bytes) (FID : BABitvector) tm : res tmgraph :=
  m ← map_assign nodeID FID (TM_to_nodeFID tm); Ok (set_FIDs (tm_RVFID tm) (tm_TMFID tm) m tm).
Definition setRVFID (nodeID : bytes) (FID : BABitvector) tm : res tmgraph :=
  m ← map_assign nodeID FID (tm_RVFID tm); Ok (set_FIDs m (tm_TMFID tm) (TM_to_nodeFID tm) tm).
Definition setTMFID (nodeID : bytes) (FID : BABitvector) tm : res tmgraph :=
  m ← map_assign nodeID FID (tm_TMFID tm); Ok (set_FIDs (tm_RVFID tm) m (TM_to_nodeFID tm) tm).

(** ** Reading the topology *)

(** The tables of the vertices, for the vertex numbers in [vs]. *)
Fixpoint read_vertices (vs : list nat) tm : res tmgraph :=
  match vs with
  | [] => Ok tm
  | i :: vs =>
      let nID := VAS_NODEID (tm_graph tm) i in
      let iLID := VAS_iLID (tm_graph tm) i in
      ilid ← Bitvector_of_string (new_words (length iLID)) iLID;
      read_vertices vs (mkTM _ (tm_graph tm) (tm_nodeID tm) (RVnodeID tm) (RMnodeID tm) (tm_mode tm) (extension tm)
        (map_add nID i (reverse_node_index tm)) (map_add nID ilid (nodeID_iLID tm)) (edge_LID tm) (reverse_edge_index tm)
        (freedLIDs tm) (map_add nID None (tm_RVFID tm)) (map_add nID None (tm_TMFID tm)) (TM_to_nodeFID tm))
  end.

(** The tables of the edges. *)
Fixpoint read_edges (es : list nat) tm : res tmgraph :=
  match es with
  | [] => Ok tm
  | i :: es =>
      let LID := EAS_LID (tm_graph tm) i in
      lid ← Bitvector_of_string (new_words (length LID)) LID;
      read_edges es (set_edges (map_add i lid (edge_LID tm)) (map_add LID i (reverse_edge_index tm)) tm)
  end.

Definition readTopology (g : graph) tm : res tmgraph :=
  tm ← read_vertices (seq 0 (igraph_vcount g)) (set_graph g tm); read_edges (seq 0 (igraph_ecount g)) tm.

Definition updateTMStates tm : res tmgraph :=
  read_edges (seq 0 (igraph_ecount (tm_graph tm))) (set_edges [] [] tm).

(** ** The identifier of a shortest path *)

(** [igraph_get_eid]; without an edge igraph ends the program. *)
Definition get_eid g (u v : nat) : res nat := or_fault OutOfRange (igraph_get_eid g u v).

(** The attributes of the links of a path, or-ed bit by bit. *)
Fixpoint or_attributes g (p : list nat) (F : BABitvector) : res BABitvector :=
  match p with
  | u :: (v :: _) as p' =>
      eid ← get_eid g u v;
      LID ← c_str_read (EAS_LID g eid) FID_BITS;
      F ← set_ones F LID;
      or_attributes g p' F
  | _ => Ok F
  end.

Definition calculateFID (source destination : bytes) tm : res BABitvector :=
  let g := tm_graph tm in
  from ← found (map_find source (reverse_node_index tm));
  to ← found (map_find destination (reverse_node_index tm));
  let temp_v := igraph_get_shortest_paths g from to in
  result ← or_attributes g temp_v (BABitvector_make (Z.of_nat FID_BITS));
  if (0 <? length temp_v)%nat then
    iLID ← c_str_read (VAS_iLID g to) FID_BITS; set_ones result iLID
  else Ok result.

(** [resultFID = resultFID | *lid] *)
Definition or_into (F lid : BABitvector) : res BABitvector := r ← Bitvector_or F lid; Ok (BABitvector_copy F r).

(** The same with the tables of the manager. *)
Fixpoint or_LIDs (p : list nat) (F : BABitvector) tm : res BABitvector :=
  match p with
  | u :: (v :: _) as p' =>
      eid ← get_eid (tm_graph tm) u v;
      lid ← found (map_find eid (edge_LID tm));
      F ← or_into F lid;
      or_LIDs p' F tm
  | _ => Ok F
  end.

(** The nodes of a path, with [->] between them. *)
Fixpoint path_string g (p : list nat) : bytes :=
  match p with
  | [] => []
  | [v] => VAS_NODEID g v
  | v :: p => VAS_NODEID g v ++ [45; 62] ++ path_string g p
  end.

(** The overload that also gives the number of nodes on the path. *)
Definition calculateFID_hops (source destination : bytes) (resultFID : BABitvector) (path : bytes) tm :
    res (BABitvector * Z * bytes) :=
  let g := tm_graph tm in
  from ← found (map_find source (reverse_node_index tm));
  to ← found (map_find destination (reverse_node_index tm));
  let temp_v := igraph_get_shortest_paths g from to in
  let path := path ++ path_string g temp_v in
  resultFID ← or_LIDs temp_v resultFID tm;
  let numberOfHops := if (length temp_v =? 0)%nat then UINT_MAX else u32 (zlen temp_v) in
  ilid ← found (map_find destination (nodeID_iLID tm));
  resultFID ← or_into resultFID ilid;
  Ok (resultFID, numberOfHops, path).

(** ** Publishers for subscribers *)

(** The local variables that outlive a turn of the outer loop. *)
Record best := mkBest {
  minimumNumberOfHops : Z;
  bestPublisher : bytes;
  bestFID : BABitvector;
  best_path : bytes;
  resultFID : BABitvector;
}.

Fixpoint try_publishers (rs : bool) (publishers : list bytes) (subscriber : bytes) (b : best) tm : res best :=
  match publishers with
  | [] => Ok b
  | pub :: publishers =>
      r ← BABitvector_clear (resultFID b);
      '(r, numberOfHops, curr_path) ← calculateFID_hops pub subscriber r [] tm;
      try_publishers rs publishers subscriber
        (if minimumNumberOfHops b >? numberOfHops
         then mkBest numberOfHops pub (BABitvector_copy (bestFID b) r) (if rs then curr_path else best_path b) r
         else mkBest (minimumNumberOfHops b) (bestPublisher b) (bestFID b) (best_path b) r) tm
  end.

Abbreviation fid_map := (list (bytes * option BABitvector)).

(** With the resiliency extension the path is recorded. *)
Definition record_path (b : best) (path_vectors : list (bytes * list bytes)) : list (bytes * list bytes) :=
  match path_vectors with
  | [] => map_add (bestPublisher b) [best_path b] []
  | _ => (λ '(p, ps), if decide (p = bestPublisher b) then (p, set_add (best_path b) ps) else (p, ps)) <$> path_vectors
  end.

Definition add_FID (b : best) (result : fid_map) : res fid_map :=
  existing ← found (map_find (bestPublisher b) result);
  match existing with
  | Some existingFID =>
      if minimumNumberOfHops b =? UINT_MAX then Ok (map_set (bestPublisher b) (Some (Bitvector_new (bestFID b))) result)
      else F ← or_into existingFID (bestFID b); Ok (map_set (bestPublisher b) (Some F) result)
  | None => Ok (map_set (bestPublisher b) (Some (Bitvector_new (bestFID b))) result)
  end.

Fixpoint serve_subscribers (rs : bool) (publishers subscribers : list bytes) (b : best) (result : fid_map)
    (path_vectors : list (bytes * list bytes)) tm : res (fid_map * list (bytes * list bytes)) :=
  match subscribers with
  | [] => Ok (result, path_vectors)
  | subscriber :: subscribers =>
      b ← try_publishers rs publishers subscriber
            (mkBest UINT_MAX (bestPublisher b) (bestFID b) (best_path b) (resultFID b)) tm;
      let path_vectors := if rs then record_path b path_vectors else path_vectors in
      result ← add_FID b result;
      serve_subscribers rs publishers subscribers b result path_vectors tm
  end.

Definition best0 : best :=
  mkBest 0 [] (BABitvector_make (Z.of_nat FID_BITS)) [] (BABitvector_make (Z.of_nat FID_BITS)).

(** The overload for sets of nodes. *)
Definition calculateFIDs (publishers subscribers : list bytes) (result : fid_map) (path_vectors : list (bytes * list bytes)) tm :
    res (fid_map * list (bytes * list bytes)) :=
  rs ← getExten RS tm;
  let result := foldl (λ m pub, map_add pub None m) result publishers in
  let path_vectors := foldl (λ m pub, map_add pub [] m) path_vectors publishers in
  serve_subscribers rs publishers subscribers best0 result path_vectors tm.

(** One publisher, the nearest subscriber. *)
Fixpoint try_subscribers (publisher : bytes) (subscribers : list bytes) (b : best) (result : fid_map)
    (paths : list (bytes * bytes)) tm : res (best * fid_map * list (bytes * bytes)) :=
  match subscribers with
  | [] => Ok (b, result, paths)
  | subscriber :: subscribers =>
      let result := map_add subscriber None result in
      let paths := map_add subscriber [] paths in
      r ← BABitvector_clear (resultFID b);
      '(r, numberOfHops, path) ← calculateFID_hops publisher subscriber r [] tm;
      try_subscribers publisher subscribers
        (if minimumNumberOfHops b >? numberOfHops
         then mkBest numberOfHops subscriber (BABitvector_copy (bestFID b) r) path r
         else mkBest (minimumNumberOfHops b) (bestPublisher b) (bestFID b) (best_path b) r) result paths tm
  end.

(** [bestPublisher] stands for [bestSubscriber] here. *)
Definition UcalculateFID (publisher : bytes) (subscribers : list bytes) (result : fid_map) (paths : list (bytes * bytes)) tm :
    res (fid_map * list (bytes * bytes)) :=
  '(b, result, paths) ← try_subscribers publisher subscribers
      (mkBest UINT_MAX [] (BABitvector_make (Z.of_nat FID_BITS)) [] (BABitvector_make (Z.of_nat FID_BITS))) result paths tm;
  if decide (bestPublisher b = []) then Ok (result, paths)
  else Ok (map_set (bestPublisher b) (Some (Bitvector_new (bestFID b))) result, map_set (bestPublisher b) (best_path b) paths).

(** ** The identifiers of all nodes *)

Fixpoint calculate_all (nodes : list bytes) tm : res tmgraph :=
  match nodes with
  | [] => Ok tm
  | n :: nodes =>
      rv ← calculateFID n (RVnodeID tm) tm;
      t ← calculateFID n (tm_nodeID tm) tm;
      f ← calculateFID (tm_nodeID tm) n tm;
      calculate_all nodes (set_FIDs (map_set n (Some rv) (tm_RVFID tm)) (map_set n (Some t) (tm_TMFID tm))
        (map_set n (Some f) (TM_to_nodeFID tm)) tm)
  end.

Definition calculateRVTMFIDs tm : res tmgraph := calculate_all (reverse_node_index tm).*1 tm.
End topology.
