(* ===== verification/TopologyPaths.v ===== *)
(** * Identifiers of paths

    The laws of igraph that the manager relies on, the invariant of its
    tables, and what the identifiers of shortest paths contain. *)

From S2P Require Import Prelude Enums BitVector Packet Forwarder ForwarderProofs StdMap LibBitvector Topology.

Section paths.
Context `{IG : Igraph} `{HP : Heap}.
Implicit Types (tm : tmgraph) (g : graph).

(** ** Walks, and the laws of igraph *)

Definition edge g (u v e : nat) : Prop := (e < igraph_ecount g)%nat ∧ igraph_edge g e = (u, v).

Inductive walk g : nat → nat → list nat → Prop :=
  | walk_one u : (u < igraph_vcount g)%nat → walk g u u [u]
  | walk_cons u v w e p : (u < igraph_vcount g)%nat → edge g u v e → walk g v w p → walk g u w (u :: p).

(** The documentation of igraph: an edge is found if there is one; the path is
    a shortest one, or empty if there is none. *)
Record igraph_laws g : Prop := {
  law_eid u v e : igraph_get_eid g u v = Some e → edge g u v e;
  law_no_eid u v e : igraph_get_eid g u v = None → ¬ edge g u v e;
  law_path u v : igraph_get_shortest_paths g u v ≠ [] → walk g u v (igraph_get_shortest_paths g u v);
  law_shortest u v p : walk g u v p → igraph_get_shortest_paths g u v ≠ [] ∧
    (length (igraph_get_shortest_paths g u v) ≤ length p)%nat;
}.

(** ** The tables *)

(** An attribute is a string of 256 bits; [attr_bit] is one of them. *)
Definition attr_ok (s : bytes) : Prop := length s = FID_BITS ∧ Forall (λ c, c = 48 ∨ c = 49) s.
Definition attr_bit (s : bytes) (i : nat) : bool := nth (255 - i) s 0 =? 49.
Definition has_bits (F : BABitvector) (P : nat → bool) : Prop := FID_ok F ∧ ∀ i, (i < 256)%nat → bv_bit F i = P i.

Record attributes_ok g : Prop := {
  ao_nodes v : (v < igraph_vcount g)%nat → attr_ok (VAS_iLID g v);
  ao_edges e : (e < igraph_ecount g)%nat → attr_ok (EAS_LID g e);
  ao_names v w : (v < igraph_vcount g)%nat → (w < igraph_vcount g)%nat → VAS_NODEID g v = VAS_NODEID g w → v = w;
}.

Record tm_ok tm : Prop := {
  to_attributes : attributes_ok (tm_graph tm);
  to_nodes n v : map_find n (reverse_node_index tm) = Some v ↔ (v < igraph_vcount (tm_graph tm))%nat ∧ VAS_NODEID (tm_graph tm) v = n;
  to_ilids v : (v < igraph_vcount (tm_graph tm))%nat → ∃ b, map_find (VAS_NODEID (tm_graph tm) v) (nodeID_iLID tm) = Some b ∧
    has_bits b (attr_bit (VAS_iLID (tm_graph tm) v));
  to_lids e : (e < igraph_ecount (tm_graph tm))%nat → ∃ b, map_find e (edge_LID tm) = Some b ∧
    has_bits b (attr_bit (EAS_LID (tm_graph tm) e));
}.

Lemma of_attribute s : attr_ok s → ∃ b, Bitvector_of_string (new_words (length s)) s = Ok b ∧ has_bits b (attr_bit s).
Proof.
  intros [Hl H01]. destruct (of_string_spec (new_words (length s)) s) as (b & E & W & M & B); [apply new_words_length|apply new_words_ok|rw Hl; unfold FID_BITS, FID_LEN; lia|].
  exists b. split; [done|]. unfold zlen in M. rw Hl in M, B. split; [by split|]. intros i Hi. unfold FID_BITS, FID_LEN in B. by rw B.
Qed.

(** ** Reading the graph *)

Definition ilids_ok (vs : list nat) tm : Prop := ∀ v, v ∈ vs → ∃ b, map_find (VAS_NODEID (tm_graph tm) v) (nodeID_iLID tm) = Some b ∧
  has_bits b (attr_bit (VAS_iLID (tm_graph tm) v)).

Lemma read_vertices_ok vs ws tm : attributes_ok (tm_graph tm) → NoDup (ws ++ vs) →
  (∀ v, v ∈ ws ++ vs → (v < igraph_vcount (tm_graph tm))%nat) →
  (∀ n v, map_find n (reverse_node_index tm) = Some v ↔ v ∈ ws ∧ VAS_NODEID (tm_graph tm) v = n) →
  (∀ n, is_Some (map_find n (nodeID_iLID tm)) → ∃ v, v ∈ ws ∧ VAS_NODEID (tm_graph tm) v = n) →
  ilids_ok ws tm →
  ∃ tm', read_vertices vs tm = Ok tm' ∧ tm_graph tm' = tm_graph tm ∧
    (∀ n v, map_find n (reverse_node_index tm') = Some v ↔ v ∈ ws ++ vs ∧ VAS_NODEID (tm_graph tm) v = n) ∧
    ilids_ok (ws ++ vs) tm' ∧
    edge_LID tm' = edge_LID tm ∧ reverse_edge_index tm' = reverse_edge_index tm ∧
    tm_nodeID tm' = tm_nodeID tm ∧ RVnodeID tm' = RVnodeID tm ∧ RMnodeID tm' = RMnodeID tm ∧
    extension tm' = extension tm ∧ freedLIDs tm' = freedLIDs tm.
Proof.
  intros HA. revert ws tm HA. induction vs as [|v vs IH]; intros ws tm HA Hnd Hin Hix Hil Hw.
  { exists tm. rw app_nil_r. split_and!; try done. }
  cbn [read_vertices]. assert (v < igraph_vcount (tm_graph tm))%nat as Hv by (apply Hin; set_solver).
  destruct (of_attribute _ (ao_nodes _ HA v Hv)) as (b & E & Hb). rw E. cbn [mbind res_mbind res_bind].
  set (tm1 := mkTM _ _ _ _ _ _ _ _ _ _ _ _ _ _ _). rw (app_assoc ws [v] vs) in Hnd, Hin |- *.
  assert (v ∉ ws) as Hnew.
  { apply NoDup_app in Hnd as [Hnd _]. apply NoDup_app in Hnd as (_ & Hd & _). intros H. apply (Hd v H). by left. }
  assert (∀ w, w ∈ ws → VAS_NODEID (tm_graph tm) w ≠ VAS_NODEID (tm_graph tm) v) as Hne.
  { intros w H Ew. apply Hnew. by rw -(ao_names _ HA w v (Hin w ltac:(set_solver)) Hv Ew). }
  assert (map_find (VAS_NODEID (tm_graph tm) v) (reverse_node_index tm) = None) as Hn1.
  { destruct (map_find _ _) as [w|] eqn:Ew; [|done]. apply Hix in Ew as [Hw1 Ew]. by apply Hne in Ew. }
  assert (map_find (VAS_NODEID (tm_graph tm) v) (nodeID_iLID tm) = None) as Hn2.
  { destruct (map_find _ (nodeID_iLID tm)) as [w|] eqn:Ew; [|done]. destruct (Hil (VAS_NODEID (tm_graph tm) v)) as (w' & Hw1 & Ew'); [by exists w|]. by apply Hne in Ew'. }
  destruct (IH (ws ++ [v]) tm1) as (tm' & E' & G & I' & W' & Hrest); [done|done|exact Hin| | | |].
  - intros n w. cbn. rw map_find_add Hn1 elem_of_app list_elem_of_singleton. cbn [default]. case_decide as Hd.
    + subst n. split; [intros [= <-]; split; [by right|done]|]. intros [[Hw1 | ->] Ew]; [by apply Hne in Ew|done].
    + rw Hix. split; [naive_solver|]. intros [[Hw1 | ->] Ew]; [done|by destruct Hd].
  - intros n. cbn. rw map_find_add. case_decide as Hd.
    + intros _. exists v. split; [set_solver|done].
    + intros (w & Hw1 & Ew)%Hil. exists w. split; [set_solver|done].
  - intros w. cbn. rw map_find_add Hn2 elem_of_app list_elem_of_singleton. cbn [default]. intros Hw1. case_decide as Hd.
    + exists b. split; [done|]. destruct Hw1 as [Hw1 | ->]; [by apply Hne in Hd|done].
    + destruct Hw1 as [Hw1 | ->]; [by apply Hw|done].
  - exists tm'. split_and!; try done; apply Hrest.
Qed.

Lemma read_edges_ok es tm : attributes_ok (tm_graph tm) → NoDup es → (∀ e, e ∈ es → (e < igraph_ecount (tm_graph tm))%nat) →
  (∀ e, e ∈ es → map_find e (edge_LID tm) = None) →
  ∃ l r, read_edges es tm = Ok (set_edges l r tm) ∧
    (∀ e, e ∈ es → ∃ b, map_find e l = Some b ∧ has_bits b (attr_bit (EAS_LID (tm_graph tm) e))) ∧
    (∀ e, e ∉ es → map_find e l = map_find e (edge_LID tm)).
Proof.
  intros HA. revert tm HA. induction es as [|e es IH]; intros tm HA Hnd Hin Hno.
  { exists (edge_LID tm), (reverse_edge_index tm). split_and!; [by destruct tm|set_solver|done]. }
  apply NoDup_cons in Hnd as [He Hnd]. cbn [read_edges].
  destruct (of_attribute _ (ao_edges _ HA e (Hin e ltac:(by left)))) as (b & E & Hb). rw E. cbn [mbind res_mbind res_bind].
  destruct (IH (set_edges (map_add e b (edge_LID tm)) (map_add (EAS_LID (tm_graph tm) e) e (reverse_edge_index tm)) tm))
    as (l & r & E' & H1 & H2); [done|done| | |].
  { intros e' He'. apply Hin. by right. }
  { intros e' He'. cbn. rw map_find_add. case_decide; [subst; done|]. apply Hno. by right. }
  exists l, r. rw E'. split_and!; [done| |].
  - intros e' [->|He']%elem_of_cons; [|by apply H1]. rw H2 //. cbn. rw map_find_add decide_True // Hno; [|by left]. by exists b.
  - intros e' [Hne He']%not_elem_of_cons. rw H2 //. cbn. by rw map_find_add decide_False.
Qed.

Lemma updateTMStates_ok tm : attributes_ok (tm_graph tm) →
  ∃ l r, updateTMStates tm = Ok (set_edges l r tm) ∧
    ∀ e, (e < igraph_ecount (tm_graph tm))%nat → ∃ b, map_find e l = Some b ∧ has_bits b (attr_bit (EAS_LID (tm_graph tm) e)).
Proof.
  intros HA. unfold updateTMStates.
  destruct (read_edges_ok (seq 0 (igraph_ecount (tm_graph tm))) (set_edges [] [] tm) HA) as (l & r & E & H1 & _).
  - apply NoDup_seq.
  - intros e He%elem_of_seq. cbn. lia.
  - done.
  - exists l, r. rw E. split; [done|]. intros e He. apply H1, elem_of_seq. lia.
Qed.

Lemma readTopology_ok g tm : attributes_ok g → reverse_node_index tm = [] → nodeID_iLID tm = [] → edge_LID tm = [] →
  ∃ tm', readTopology g tm = Ok tm' ∧ tm_ok tm' ∧ tm_graph tm' = g ∧ tm_nodeID tm' = tm_nodeID tm ∧ RVnodeID tm' = RVnodeID tm ∧
    extension tm' = extension tm ∧ RMnodeID tm' = RMnodeID tm.
Proof.
  intros HA H1 H2 H3. unfold readTopology.
  destruct (read_vertices_ok (seq 0 (igraph_vcount g)) [] (set_graph g tm)) as (tm1 & E & G & I1 & W1 & L1 & R1 & N1 & V1 & M1 & X1 & F1); try done.
  - apply NoDup_seq.
  - intros v Hv%elem_of_seq. cbn. lia.
  - intros n v. cbn. rw H1. split; [done|]. intros [Hv _]. by apply elem_of_nil in Hv.
  - intros n. cbn. rw H2. by intros [].
  - intros v Hv. by apply elem_of_nil in Hv.
  - rw E. cbn [mbind res_mbind res_bind]. cbn in G.
    destruct (read_edges_ok (seq 0 (igraph_ecount g)) tm1) as (l & r & E' & HE & _).
    + by rw G.
    + apply NoDup_seq.
    + intros e He%elem_of_seq. rw G. lia.
    + intros e _. rw L1. cbn. by rw H3.
    + exists (set_edges l r tm1). split_and!; try done. split; cbn; rw ?G; [done| | |].
      * intros n v. rw I1 /= elem_of_seq. naive_solver lia.
      * intros v Hv. destruct (W1 v) as (b & Hb); [apply elem_of_seq; lia|]. rw G in Hb. by exists b.
      * intros e He. destruct (HE e) as (b & Hb); [apply elem_of_seq; lia|]. rw G in Hb. by exists b.
Qed.
End paths.
