(* ===== verification/TopologyFID.v ===== *)
(** * Forwarding identifiers of shortest paths

    What the three overloads of calculateFID compute, against the links of the
    shortest path; and that every forwarder on the path recognises them. *)

From S2P Require Import Prelude Enums BitVector Packet Forwarder ForwarderProofs StdMap LibBitvector Topology TopologyPaths.

Section fids.
Context `{IG : Igraph} `{HP : Heap}.
Implicit Types (tm : tmgraph) (g : graph).

(** The links of a path. *)
Fixpoint path_eids g (p : list nat) : list nat :=
  match p with
  | u :: (v :: _) as p' => option_list (igraph_get_eid g u v) ++ path_eids g p'
  | _ => []
  end.

Lemma walk_head g u w p : walk g u w p → ∃ q, p = u :: q.
Proof. intros []; by eexists. Qed.

Lemma path_eids_walk g u v w p e' : igraph_laws g → edge g u v e' → walk g v w p →
  ∃ q e, p = v :: q ∧ igraph_get_eid g u v = Some e ∧ edge g u v e ∧ path_eids g (u :: p) = e :: path_eids g p.
Proof.
  intros L He [q ->]%walk_head. destruct (igraph_get_eid g u v) as [e|] eqn:E; last first.
  { by apply (law_no_eid _ L u v e') in E. }
  exists q, e. split_and!; [done|done|by apply law_eid|]. cbn [path_eids]. by rw E.
Qed.

Lemma path_eids_bound g u w p e : igraph_laws g → walk g u w p → e ∈ path_eids g p → (e < igraph_ecount g)%nat.
Proof.
  intros L Hw. induction Hw as [u Hu|u v w e' p Hu He Hw IH]; [by intros ?%elem_of_nil|].
  destruct (path_eids_walk g u v w p e' L He Hw) as (q & e1 & -> & _ & [He1 _] & ->).
  intros [->|Hin]%elem_of_cons; [done|by apply IH].
Qed.

Lemma walk_ends g u w p : walk g u w p → (w < igraph_vcount g)%nat.
Proof. by induction 1. Qed.

Lemma has_bits_ext F P Q : has_bits F P → (∀ i, (i < 256)%nat → P i = Q i) → has_bits F Q.
Proof. intros [O B] H. split; [done|]. intros i Hi. by rw B // H. Qed.

Lemma new_bits F P : has_bits F P → has_bits (Bitvector_new F) P.
Proof.
  intros [[W M] B]. destruct (Bitvector_new_wf F W) as (Wn & Mn & Bn). split; [split; [done|congruence]|].
  intros i Hi. rw Bn; [by apply B|]. unfold bv_len, BABitvector_size. rw M. lia.
Qed.

Lemma copy_bits F0 F P : has_bits F P → has_bits (BABitvector_copy F0 F) P.
Proof.
  intros HF. assert (BABitvector_copy F0 F = Bitvector_new F) as ->; [|by apply new_bits].
  destruct HF as [[_ M] _]. unfold BABitvector_copy, Bitvector_new. by rw M.
Qed.

Lemma clear_bits F P : has_bits F P → ∃ R, BABitvector_clear F = Ok R ∧ has_bits R (λ _, false).
Proof.
  intros [[W M] _]. unfold BABitvector_clear. destruct W as [H1 H2 H3 H4].
  destruct (word_fill_spec (λ _, 0) (nwords (bv_max F)) (bv_data F)) as (d & -> & Hl & Hn); [lia|]. eexists. split; [done|].
  rw M in Hn, H2. change (nwords 255) with 8%nat in Hn, H2.
  assert (∀ i, (i < 256)%nat → bv_bit (mkBV (bv_max F) d) i = false) as Hz.
  { intros i Hi. unfold bv_bit, data_bit. cbn [bv_data]. rw Hn decide_True ?Z.bits_0 //. lia. }
  split; [|by intros i Hi; rw Hz]. split; [|done]. split; cbn [bv_max bv_data]; rw ?M.
  - lia.
  - rw Hl. exact H2.
  - apply Forall_nth_word. intros j. rw Hn. case_decide; [apply word_ok_0|by apply Forall_nth_word].
  - intros i Hi Hi'. change (2 `max` nwords 255)%nat with 8%nat in Hi'. lia.
Qed.

(** Or-ing, as a map of bit functions. *)
Lemma or_into_bits F lid P Q : has_bits F P → has_bits lid Q →
  ∃ R, or_into F lid = Ok R ∧ has_bits R (λ i, P i || Q i).
Proof.
  intros [[W M] B] [[W' M'] B']. destruct (lib_or_implements F lid W W') as (c & E & Wc & Mc & Bc); [congruence|].
  unfold or_into. rw E. eexists. split; [done|]. apply copy_bits. split; [split; [done|congruence]|].
  intros i Hi. rw Bc; [by rw B // B'|]. unfold bv_len, BABitvector_size. rw M. lia.
Qed.

Lemma set_ones_bits F s P : has_bits F P → attr_ok s → ∃ R, set_ones F s = Ok R ∧ has_bits R (λ i, P i || attr_bit s i).
Proof.
  intros [[W M] B] [Hl _]. destruct (set_ones_spec F s W) as (c & E & Wc & Mc & Bc).
  { rw Hl. unfold bv_len, BABitvector_size. rw M. done. }
  exists c. split; [done|]. split; [split; [done|congruence]|]. intros i Hi. rw Bc Hl.
  rw bool_decide_eq_true_2; [|unfold FID_BITS, FID_LEN; lia]. rw B // orb_comm. by f_equal.
Qed.

Lemma read_attribute s : attr_ok s → c_str_read s FID_BITS = Ok s.
Proof.
  intros [Hl _]. unfold c_str_read. rw Hl. destruct (Nat.leb_spec FID_BITS (S FID_BITS)); [|lia]. f_equal.
  rw take_app_le; [|by rw Hl]. apply take_ge. by rw Hl.
Qed.

Lemma zeros_bits : has_bits (BABitvector_make (Z.of_nat FID_BITS)) (λ _, false).
Proof.
  destruct (BABitvector_make_zeros (Z.of_nat FID_BITS)) as (W & M & B); [unfold FID_BITS; lia|]. by split.
Qed.

(** The bits of the links of a path. *)
Definition links_bit g (p : list nat) (i : nat) : bool := existsb (λ e, attr_bit (EAS_LID g e) i) (path_eids g p).

Lemma or_attributes_cons g u v q F : or_attributes g (u :: v :: q) F =
  (eid ← get_eid g u v; LID ← c_str_read (EAS_LID g eid) FID_BITS; F ← set_ones F LID; or_attributes g (v :: q) F).
Proof. done. Qed.

Lemma or_LIDs_cons u v q F tm : or_LIDs (u :: v :: q) F tm =
  (eid ← get_eid (tm_graph tm) u v; lid ← found (map_find eid (edge_LID tm)); F ← or_into F lid; or_LIDs (v :: q) F tm).
Proof. done. Qed.

Lemma or_attributes_bits g u w p F P : igraph_laws g → attributes_ok g → walk g u w p → has_bits F P →
  ∃ R, or_attributes g p F = Ok R ∧ has_bits R (λ i, P i || links_bit g p i).
Proof.
  intros L HA Hw. revert F P. induction Hw as [u Hu|u v w e' p Hu He Hw IH]; intros F P HF.
  { exists F. split; [done|]. eapply has_bits_ext; [done|]. intros i _. by rw orb_false_r. }
  destruct (path_eids_walk g u v w p e' L He Hw) as (q & e & -> & Ee & [He1 _] & Ep).
  rw or_attributes_cons. unfold get_eid. rw Ee. cbn [or_fault mbind res_mbind res_bind].
  pose proof (ao_edges _ HA e He1) as Ha. rw read_attribute //. cbn [mbind res_mbind res_bind].
  destruct (set_ones_bits F _ P HF Ha) as (F1 & -> & HF1). cbn [mbind res_mbind res_bind].
  destruct (IH F1 _ HF1) as (R & -> & HR). exists R. split; [done|]. eapply has_bits_ext; [done|].
  intros i _. unfold links_bit. rw Ep. cbn [existsb]. by rw orb_assoc.
Qed.

Lemma or_LIDs_bits tm u w p F P : igraph_laws (tm_graph tm) → tm_ok tm → walk (tm_graph tm) u w p → has_bits F P →
  ∃ R, or_LIDs p F tm = Ok R ∧ has_bits R (λ i, P i || links_bit (tm_graph tm) p i).
Proof.
  intros L T Hw. revert F P. induction Hw as [u Hu|u v w e' p Hu He Hw IH]; intros F P HF.
  { exists F. split; [done|]. eapply has_bits_ext; [done|]. intros i _. by rw orb_false_r. }
  destruct (path_eids_walk _ u v w p e' L He Hw) as (q & e & -> & Ee & [He1 _] & Ep).
  rw or_LIDs_cons. unfold get_eid. rw Ee. cbn [or_fault mbind res_mbind res_bind].
  destruct (to_lids _ T e He1) as (b & Eb & Hb). rw Eb. cbn [found or_fault mbind res_mbind res_bind].
  destruct (or_into_bits F b P _ HF Hb) as (F1 & -> & HF1). cbn [mbind res_mbind res_bind].
  destruct (IH F1 _ HF1) as (R & -> & HR). exists R. split; [done|]. eapply has_bits_ext; [done|].
  intros i _. unfold links_bit. rw Ep. cbn [existsb]. by rw orb_assoc.
Qed.

(** ** Paths between nodes *)

(** The shortest path between two nodes, by their names. *)
Definition path_of tm (source destination : bytes) : list nat :=
  match map_find source (reverse_node_index tm), map_find destination (reverse_node_index tm) with
  | Some u, Some v => igraph_get_shortest_paths (tm_graph tm) u v
  | _, _ => []
  end.

Definition known tm (n : bytes) : Prop := is_Some (map_find n (reverse_node_index tm)).

Definition iLID_bit tm (n : bytes) (i : nat) : bool :=
  match map_find n (reverse_node_index tm) with Some v => attr_bit (VAS_iLID (tm_graph tm) v) i | None => false end.

(** What an identifier from [source] to [destination] should be: the links of
    the path and the internal link of the destination. *)
Definition path_bits tm (source destination : bytes) (i : nat) : bool :=
  links_bit (tm_graph tm) (path_of tm source destination) i || iLID_bit tm destination i.

Lemma path_walk tm s d u v : igraph_laws (tm_graph tm) → map_find s (reverse_node_index tm) = Some u →
  map_find d (reverse_node_index tm) = Some v → path_of tm s d ≠ [] → walk (tm_graph tm) u v (path_of tm s d).
Proof. intros L Eu Ev. unfold path_of. rw Eu Ev. apply law_path, L. Qed.

Lemma calculateFID_bits tm s d : igraph_laws (tm_graph tm) → tm_ok tm → known tm s → known tm d →
  ∃ F, calculateFID s d tm = Ok F ∧
    has_bits F (λ i, negb (bool_decide (path_of tm s d = [])) && path_bits tm s d i).
Proof.
  intros L T [u Eu] [v Ev]. unfold calculateFID. rw Eu Ev. cbn [found or_fault mbind res_mbind res_bind].
  assert (path_of tm s d = igraph_get_shortest_paths (tm_graph tm) u v) as Ep by (unfold path_of; by rw Eu Ev).
  destruct (decide (path_of tm s d = [])) as [En|Hn].
  - rw -Ep En. cbn [or_attributes mbind res_mbind res_bind length]. eexists. split; [done|].
    eapply has_bits_ext; [apply zeros_bits|]. intros i _. by rw bool_decide_eq_true_2.
  - pose proof (path_walk tm s d u v L Eu Ev Hn) as Hw. rw -Ep.
    destruct (or_attributes_bits _ _ _ _ _ _ L (to_attributes _ T) Hw zeros_bits) as (R & E & HR). rw E.
    cbn [mbind res_mbind res_bind]. destruct (Nat.ltb_spec 0 (length (path_of tm s d))) as [_|Hz]; [|by destruct (path_of tm s d); [|cbn in Hz; lia]].
    pose proof (ao_nodes _ (to_attributes _ T) v (walk_ends _ _ _ _ Hw)) as Ha. rw read_attribute //. cbn [mbind res_mbind res_bind].
    destruct (set_ones_bits R _ _ HR Ha) as (F & EF & HF). exists F. split; [done|]. eapply has_bits_ext; [done|].
    intros i _. rw bool_decide_eq_false_2 //. cbn. unfold path_bits, iLID_bit. by rw Ev.
Qed.

Definition hops tm (s d : bytes) : Z := if decide (path_of tm s d = []) then UINT_MAX else u32 (zlen (path_of tm s d)).

Lemma calculateFID_hops_bits tm s d F path : igraph_laws (tm_graph tm) → tm_ok tm → known tm s → known tm d → has_bits F (λ _, false) →
  ∃ R, calculateFID_hops s d F path tm = Ok (R, hops tm s d, path ++ path_string (tm_graph tm) (path_of tm s d)) ∧
    has_bits R (path_bits tm s d).
Proof.
  intros L T [u Eu] [v Ev] HF. unfold calculateFID_hops, hops. rw Eu Ev. cbn [found or_fault mbind res_mbind res_bind].
  assert (path_of tm s d = igraph_get_shortest_paths (tm_graph tm) u v) as Ep by (unfold path_of; by rw Eu Ev). rw -!Ep.
  assert (∃ R, or_LIDs (path_of tm s d) F tm = Ok R ∧ has_bits R (λ i, links_bit (tm_graph tm) (path_of tm s d) i)) as (R & -> & HR).
  { destruct (decide (path_of tm s d = [])) as [En|Hn]; [rw En; by exists F|].
    by destruct (or_LIDs_bits _ _ _ _ _ _ L T (path_walk tm s d u v L Eu Ev Hn) HF) as (R & E & HR); exists R. }
  cbn [mbind res_mbind res_bind]. apply (to_nodes _ T) in Ev as Hv. destruct Hv as [Hv <-].
  destruct (to_ilids _ T v Hv) as (b & -> & Hb). cbn [found or_fault mbind res_mbind res_bind].
  destruct (or_into_bits R b _ _ HR Hb) as (R' & -> & HR'). cbn [mbind res_mbind res_bind]. exists R'. split.
  - do 3 f_equal. by destruct (path_of tm s (VAS_NODEID (tm_graph tm) v)).
  - eapply has_bits_ext; [done|]. intros i _. unfold path_bits, iLID_bit. by rw Ev.
Qed.

(** ** What a path identifier is for *)

Definition LID_of g (e : nat) : bytes := EAS_LID g e.

(** [L] is the vector of an attribute. *)
Definition vector_of (s : bytes) (L : BABitvector) : Prop := has_bits L (attr_bit s).

Lemma bits_match F L P s : has_bits F P → vector_of s L → (∀ i, (i < 256)%nat → attr_bit s i = true → P i = true) →
  matches F L = Ok true.
Proof.
  intros [OF BF] [OL BL] H. apply matches_iff; [done|done|]. intros i Hi Hb. rw BF //. apply H; [done|]. by rw -BL.
Qed.

Lemma links_match tm s d F e L : has_bits F (path_bits tm s d) → e ∈ path_eids (tm_graph tm) (path_of tm s d) →
  vector_of (EAS_LID (tm_graph tm) e) L → matches F L = Ok true.
Proof.
  intros HF He HL. eapply bits_match; [exact HF|exact HL|]. intros i _ Hb. unfold path_bits, links_bit.
  apply orb_true_iff. left. apply existsb_exists. exists e. split; [by apply list_elem_of_In|done].
Qed.

Lemma iLID_match tm s d v F L : has_bits F (path_bits tm s d) → map_find d (reverse_node_index tm) = Some v →
  vector_of (VAS_iLID (tm_graph tm) v) L → matches F L = Ok true.
Proof.
  intros HF Hv HL. eapply bits_match; [exact HF|exact HL|]. intros i _ Hb. unfold path_bits, iLID_bit. by rw Hv Hb orb_true_r.
Qed.

(** [C26] The identifier from a node to another one.  With a path it contains
    the identifier of every link of a shortest path and the internal one of
    the destination, so that the forwarding test of every node on the path
    succeeds, and it contains nothing else: a link matches only if each of its
    bits is a bit of these.  Without a path it is zero. *)
Theorem calculateFID_correct tm s d
    (L : igraph_laws (tm_graph tm)) (T : tm_ok tm) (Hs : known tm s) (Hd : known tm d) :
  ∃ F u v, calculateFID s d tm = Ok F ∧ FID_ok F ∧
    map_find s (reverse_node_index tm) = Some u ∧ map_find d (reverse_node_index tm) = Some v ∧
    let p := path_of tm s d in
    if decide (p = []) then BABitvector_zero F = true ∧ ∀ q, ¬ walk (tm_graph tm) u v q
    else walk (tm_graph tm) u v p ∧ (∀ q, walk (tm_graph tm) u v q → (length p ≤ length q)%nat) ∧
      (∀ e LID, e ∈ path_eids (tm_graph tm) p → vector_of (EAS_LID (tm_graph tm) e) LID → matches F LID = Ok true) ∧
      (∀ iLID, vector_of (VAS_iLID (tm_graph tm) v) iLID → matches F iLID = Ok true) ∧
      ∀ LID, FID_ok LID → matches F LID = Ok true → ∀ i, (i < 256)%nat → bv_bit LID i = true →
        attr_bit (VAS_iLID (tm_graph tm) v) i = true ∨ ∃ e, e ∈ path_eids (tm_graph tm) p ∧ attr_bit (EAS_LID (tm_graph tm) e) i = true.
Proof.
  destruct (calculateFID_bits tm s d L T Hs Hd) as (F & E & HF). destruct Hs as [u Eu], Hd as [v Ev].
  exists F, u, v. split_and!; [done|apply HF|done|done|]. cbv zeta. destruct (decide (path_of tm s d = [])) as [En|Hn].
  - split.
    + destruct HF as [OF BF]. apply BABitvector_zero_bits; [apply OF|]. rw FID_ok_len //. intros i Hi. rw BF // bool_decide_eq_true_2 //.
    + intros q Hq. apply (law_shortest _ L) in Hq as [Hq _]. apply Hq. unfold path_of in En. by rw Eu Ev in En.
  - assert (has_bits F (path_bits tm s d)) as HF'.
    { eapply has_bits_ext; [done|]. intros i _. by rw bool_decide_eq_false_2. }
    split_and!.
    + by apply path_walk.
    + intros q Hq. unfold path_of. rw Eu Ev. by apply (law_shortest _ L).
    + intros e LID. by apply links_match.
    + intros iLID. by apply (iLID_match tm s d v).
    + intros LID OL HM i Hi Hb. apply (proj1 (matches_iff F LID (proj1 HF') OL)) with (i := i) in HM; [|done|done].
      destruct HF' as [_ BF]. rw BF // in HM. unfold path_bits, links_bit, iLID_bit in HM. rw Ev in HM.
      apply orb_true_iff in HM as [HM|HM]; [right|by left]. apply existsb_exists in HM as (e & He & Hbe).
      exists e. split; [by apply list_elem_of_In|done].
Qed.
End fids.
