(* ===== verification/TopologyServe.v ===== *)
(** * Publishers for subscribers

    calculateFID for sets of nodes gives each subscriber to the nearest
    publisher, and each publisher the identifier of all its subscribers;
    UcalculateFID gives a publisher its nearest subscriber. *)

From S2P Require Import Prelude Enums BitVector Packet Forwarder ForwarderProofs StdMap LibBitvector Topology TopologyPaths TopologyFID.

Section serve.
Context `{IG : Igraph} `{HP : Heap}.
Implicit Types (tm : tmgraph) (g : graph).

(** ** The nearest of several *)

(** The first element of [l] with the least distance, if it is less than [m]. *)
Fixpoint closest (dist : bytes → Z) (l : list bytes) (m : Z) (best : option bytes) : Z * option bytes :=
  match l with
  | [] => (m, best)
  | x :: l => if m >? dist x then closest dist l (dist x) (Some x) else closest dist l m best
  end.

Lemma closest_spec dist l m best : let '(m', b') := closest dist l m best in
  m' <= m ∧ (∀ x, x ∈ l → m' <= dist x) ∧ ((m' = m ∧ b' = best) ∨ (m' < m ∧ ∃ x, x ∈ l ∧ b' = Some x ∧ dist x = m')).
Proof.
  revert m best. induction l as [|x l IH]; intros m best; cbn [closest].
  { split; [lia|]. split; [by intros x ?%elem_of_nil|by left]. }
  destruct (Z.gtb_spec m (dist x)) as [Hx|Hx].
  - specialize (IH (dist x) (Some x)). destruct (closest dist l (dist x) (Some x)) as [m' b']. destruct IH as (H1 & H2 & H3).
    split; [lia|]. split.
    + intros y [->|Hy]%elem_of_cons; [done|by apply H2].
    + right. split; [lia|]. destruct H3 as [[-> ->]|(_ & y & Hy & -> & <-)]; [exists x; set_solver|exists y; set_solver].
  - specialize (IH m best). destruct (closest dist l m best) as [m' b']. destruct IH as (H1 & H2 & H3).
    split; [lia|]. split.
    + intros y [->|Hy]%elem_of_cons; [lia|by apply H2].
    + destruct H3 as [?|(? & y & Hy & ?)]; [by left|]. right. split; [done|]. exists y. split; [by right|done].
Qed.

(** The publisher of a subscriber. *)
Definition server tm (publishers : list bytes) (subscriber : bytes) : option bytes :=
  (closest (λ p, hops tm p subscriber) publishers UINT_MAX None).2.

(** ** The loops *)

Definition best_ok (b : best) : Prop := (∃ P, has_bits (bestFID b) P) ∧ ∃ P, has_bits (resultFID b) P.

(** [bestFID] and [best_path] are those of a path from [bestPublisher]. *)
Definition best_is tm (rs : bool) (d : bytes) (b : best) (p : bytes) : Prop :=
  bestPublisher b = p ∧ has_bits (bestFID b) (path_bits tm p d) ∧
  (rs → best_path b = path_string (tm_graph tm) (path_of tm p d)).

Lemma try_publishers_run tm rs pubs d b (best : option bytes) : igraph_laws (tm_graph tm) → tm_ok tm → Forall (known tm) pubs → known tm d →
  best_ok b → (∀ p, best = Some p → best_is tm rs d b p) →
  ∃ b', try_publishers rs pubs d b tm = Ok b' ∧ best_ok b' ∧
    let '(m, o) := closest (λ p, hops tm p d) pubs (minimumNumberOfHops b) best in
    minimumNumberOfHops b' = m ∧
    match o with
    | Some p => best_is tm rs d b' p
    | None => bestPublisher b' = bestPublisher b ∧ bestFID b' = bestFID b
    end.
Proof.
  intros L T Hk Hd. revert b best. induction Hk as [|p pubs Hp Hk IH]; intros b best Hb Hbest; cbn [try_publishers closest].
  { exists b. split; [done|]. split; [done|]. split; [done|]. destruct best; [by apply Hbest|done]. }
  destruct Hb as [HbF [P HbR]]. destruct (clear_bits _ _ HbR) as (r & -> & Hr). cbn [mbind res_mbind res_bind].
  destruct (calculateFID_hops_bits tm p d r [] L T Hp Hd Hr) as (R & -> & HR). cbn [mbind res_mbind res_bind].
  destruct (minimumNumberOfHops b >? hops tm p d).
  - destruct (IH (mkBest (hops tm p d) p (BABitvector_copy (bestFID b) R) (if rs then path_string (tm_graph tm) (path_of tm p d) else best_path b) R)
      (Some p)) as (b' & E & Hb' & H).
    + split; [eexists; cbn; by apply copy_bits|by eexists].
    + intros q [= <-]. split_and!; [done|cbn; by apply copy_bits|]. cbn. by destruct rs.
    + exists b'. split; [exact E|]. split; [done|]. cbn [minimumNumberOfHops] in H.
      pose proof (closest_spec (λ p, hops tm p d) pubs (hops tm p d) (Some p)) as Hc.
      destruct (closest _ pubs (hops tm p d) (Some p)) as [m o]. destruct Hc as (_ & _ & [[_ ->]|(_ & x & _ & -> & _)]); exact H.
  - destruct (IH (mkBest (minimumNumberOfHops b) (bestPublisher b) (bestFID b) (best_path b) R) best) as (b' & E & Hb' & H).
    + split; [done|by eexists].
    + exact Hbest.
    + exists b'. split; [exact E|]. split; [done|]. exact H.
Qed.

(** ** The assignment *)

Definition served tm pubs (subs : list bytes) (p : bytes) : list bytes := filter (λ d, server tm pubs d = Some p) subs.

Definition tree_bits tm (p : bytes) (subs : list bytes) (i : nat) : bool := existsb (λ d, path_bits tm p d i) subs.

(** The entry of a publisher: null without subscribers, otherwise the
    identifier of the paths to all of them. *)
Definition entry_ok tm pubs subs (p : bytes) (o : option BABitvector) : Prop :=
  match o with
  | None => served tm pubs subs p = []
  | Some F => served tm pubs subs p ≠ [] ∧ has_bits F (tree_bits tm p (served tm pubs subs p))
  end.

Definition result_ok tm (pubs subs : list bytes) (result : list (bytes * option BABitvector)) : Prop :=
  ∀ p, if decide (p ∈ pubs) then ∃ o, map_find p result = Some o ∧ entry_ok tm pubs subs p o else map_find p result = None.

(** The paths that are recorded. *)
Definition paths_ok tm (pubs subs : list bytes) (rs : bool) (pv : list (bytes * list bytes)) : Prop :=
  ∀ p, p ∈ pubs → ∃ ps, map_find p pv = Some ps ∧
    ∀ x, x ∈ ps ↔ rs ∧ ∃ d, d ∈ served tm pubs subs p ∧ x = path_string (tm_graph tm) (path_of tm p d).

Definition reachable tm (pubs : list bytes) (d : bytes) : Prop := ∃ p, p ∈ pubs ∧ hops tm p d < UINT_MAX.

Lemma server_spec tm pubs d : reachable tm pubs d →
  ∃ p, closest (λ p, hops tm p d) pubs UINT_MAX None = (hops tm p d, Some p) ∧ server tm pubs d = Some p ∧ p ∈ pubs ∧
    hops tm p d < UINT_MAX ∧ ∀ q, q ∈ pubs → hops tm p d <= hops tm q d.
Proof.
  intros (q & Hq & Hlt). unfold server. pose proof (closest_spec (λ p, hops tm p d) pubs UINT_MAX None) as H.
  destruct (closest _ pubs UINT_MAX None) as [m o]. destruct H as (H1 & H2 & [[-> ->]|(Hm & p & Hp & -> & <-)]).
  - specialize (H2 q Hq). cbn in H2. lia.
  - exists p. split_and!; try done.
Qed.

Lemma server_none tm pubs d : ¬ reachable tm pubs d → closest (λ p, hops tm p d) pubs UINT_MAX None = (UINT_MAX, None).
Proof.
  intros Hn. pose proof (closest_spec (λ p, hops tm p d) pubs UINT_MAX None) as H.
  destruct (closest _ pubs UINT_MAX None) as [m o]. destruct H as (_ & _ & [[-> ->]|(Hm & p & Hp & -> & <-)]); [done|].
  exfalso. apply Hn. by exists p.
Qed.

Lemma served_snoc tm pubs subs d p : served tm pubs (subs ++ [d]) p =
  served tm pubs subs p ++ (if decide (server tm pubs d = Some p) then [d] else []).
Proof. unfold served. rw filter_app filter_cons. by destruct (decide _). Qed.

Lemma add_FID_ok tm pubs subs d p rs b result : p ∈ pubs → server tm pubs d = Some p → best_is tm rs d b p →
  minimumNumberOfHops b < UINT_MAX → result_ok tm pubs subs result →
  ∃ result', add_FID b result = Ok result' ∧ result_ok tm pubs (subs ++ [d]) result'.
Proof.
  intros Hp Hs (Eb & HF & _) Hm Hr. pose proof (Hr p) as Hrp. rw decide_True // in Hrp. destruct Hrp as (o & Eo & Ho).
  assert (∃ F, add_FID b result = Ok (map_set p (Some F) result) ∧
    has_bits F (λ i, tree_bits tm p (served tm pubs subs p) i || path_bits tm p d i)) as (F & E & HF').
  { unfold add_FID. rw Eb Eo. cbn [found or_fault mbind res_mbind res_bind]. destruct o as [F|].
    - destruct Ho as [_ Ho]. destruct (Z.eqb_spec (minimumNumberOfHops b) UINT_MAX); [lia|].
      destruct (or_into_bits F (bestFID b) _ _ Ho HF) as (R & -> & HR). by exists R.
    - eexists. split; [done|]. cbn in Ho. eapply has_bits_ext; [by apply new_bits|]. intros i _. by rw Ho. }
  eexists. split; [exact E|]. intros q. pose proof (Hr q) as Hrq. destruct (decide (q ∈ pubs)) as [Hq|Hq].
  - rw map_find_set. unfold entry_ok. rw served_snoc. destruct (decide (q = p)) as [->|Hne].
    + exists (Some F). split; [done|]. rw decide_True //. split; [by destruct (served tm pubs subs p)|].
      eapply has_bits_ext; [exact HF'|]. intros i _. unfold tree_bits. rw existsb_app. cbn. by rw orb_false_r.
    + destruct Hrq as (o' & Eo' & Ho'). exists o'. split; [done|]. rw decide_False; [|congruence]. by rw app_nil_r.
  - rw map_find_set decide_False //. congruence.
Qed.

Lemma record_path_ok tm pubs subs d p b pv : p ∈ pubs → server tm pubs d = Some p → best_is tm true d b p →
  paths_ok tm pubs subs true pv → paths_ok tm pubs (subs ++ [d]) true (record_path b pv).
Proof.
  intros Hp Hs (Eb & _ & Epath) Hpv q Hq. specialize (Epath I).
  destruct (Hpv p Hp) as (ps0 & Eps0 & _). assert (record_path b pv =
    (λ '(j, ps), if decide (j = p) then (j, set_add (best_path b) ps) else (j, ps)) <$> pv) as ->.
  { unfold record_path. rw Eb. by destruct pv. }
  assert (∀ l : list (bytes * list bytes), map_find q ((λ '(j, ps), if decide (j = p) then (j, set_add (best_path b) ps) else (j, ps)) <$> l) =
    (if decide (q = p) then set_add (best_path b) else id) <$> map_find q l) as ->.
  { intros l. clear. induction l as [|[j ps] l IH]; [done|]. cbn. destruct (decide (j = p)) as [->|Hj]; cbn.
    - destruct (decide (q = p)); [done|]. exact IH.
    - destruct (decide (q = j)) as [->|]; [by rw decide_False|]. exact IH. }
  destruct (Hpv q Hq) as (ps & -> & Hps). eexists. split; [done|]. intros x. rw served_snoc.
  destruct (decide (q = p)) as [->|Hne].
  - rw decide_True // elem_of_set_add Hps Epath. split.
    + intros [->|(_ & d' & Hd' & ->)]; (split; [done|]); [exists d|exists d']; set_solver.
    + intros (_ & d' & [Hd'| ->%list_elem_of_singleton]%elem_of_app & ->); [|by left]. right. split; [done|]. by exists d'.
  - rw decide_False; [|congruence]. rw app_nil_r. apply Hps.
Qed.

Lemma serve_run tm pubs rs done_ subs b result pv : igraph_laws (tm_graph tm) → tm_ok tm → Forall (known tm) pubs →
  Forall (λ d, known tm d ∧ reachable tm pubs d) subs → best_ok b →
  result_ok tm pubs done_ result → paths_ok tm pubs done_ rs pv →
  ∃ result' pv', serve_subscribers rs pubs subs b result pv tm = Ok (result', pv') ∧
    result_ok tm pubs (done_ ++ subs) result' ∧ paths_ok tm pubs (done_ ++ subs) rs pv'.
Proof.
  intros L T Hp Hs. revert done_ b result pv. induction Hs as [|d subs [Hd Hreach] Hs IH]; intros done_ b result pv Hb Hr Hpv.
  { exists result, pv. by rw app_nil_r. }
  cbn [serve_subscribers].
  destruct (try_publishers_run tm rs pubs d (mkBest UINT_MAX (bestPublisher b) (bestFID b) (best_path b) (resultFID b)) None L T Hp Hd Hb)
    as (b' & -> & Hb' & H); [done|]. cbn [mbind res_mbind res_bind minimumNumberOfHops] in *.
  destruct (server_spec tm pubs d Hreach) as (p & Ec & Eserver & Hpin & Hlt & _). rw Ec in H. destruct H as [Hm Hbest].
  destruct (add_FID_ok tm pubs done_ d p rs b' result Hpin Eserver Hbest) as (result' & -> & Hr'); [by rw Hm|done|].
  cbn [mbind res_mbind res_bind]. rw (app_assoc done_ [d] subs). apply IH; [done|done|].
  destruct rs; [by apply (record_path_ok tm pubs done_ d p)|].
  intros q Hq. destruct (Hpv q Hq) as (ps & E & Hps). exists ps. split; [done|]. intros x. rw Hps. split; by intros [? _].
Qed.

(** The entries that a table starts with. *)
Lemma map_find_adds {V} (v : V) (l : list bytes) (m : list (bytes * V)) k :
  map_find k (foldl (λ m d, map_add d v m) m l) = if decide (k ∈ l) then Some (default v (map_find k m)) else map_find k m.
Proof.
  revert m. induction l as [|q l IH]; intros m; [done|]. cbn [foldl]. rw IH map_find_add.
  destruct (decide (k = q)) as [->|Hne].
  - rw (decide_True (P := q ∈ q :: l)); [|by left]. by destruct (decide (q ∈ l)).
  - destruct (decide (k ∈ l)); [rw decide_True //; by right|]. rw decide_False //. set_solver.
Qed.

Lemma empty_result tm pubs : result_ok tm pubs [] (foldl (λ m pub, map_add pub None m) [] pubs).
Proof. intros p. rw map_find_adds. case_decide; [|done]. by exists None. Qed.

Lemma empty_paths tm pubs rs : paths_ok tm pubs [] rs (foldl (λ m pub, map_add pub [] m) [] pubs).
Proof.
  intros p Hp. exists []. rw map_find_adds decide_True //. split; [done|]. intros x. rw elem_of_nil. split; [done|].
  by intros (_ & d & Hd%elem_of_nil & _).
Qed.

Lemma hops_path tm p d : zlen (path_of tm p d) < UINT_MAX → path_of tm p d ≠ [] → hops tm p d = zlen (path_of tm p d).
Proof. intros Hl Hn. unfold hops. rw decide_False //. unfold u32, UINT_MAX, zlen in *. lia. Qed.

Lemma hops_unreachable tm p d : path_of tm p d = [] → hops tm p d = UINT_MAX.
Proof. intros E. unfold hops. by rw decide_True. Qed.

Lemma server_shortest tm pubs d : (∀ p, zlen (path_of tm p d) < UINT_MAX) → (∃ p, p ∈ pubs ∧ path_of tm p d ≠ []) →
  reachable tm pubs d ∧ ∃ p, server tm pubs d = Some p ∧ p ∈ pubs ∧ path_of tm p d ≠ [] ∧
    ∀ q, q ∈ pubs → path_of tm q d ≠ [] → (length (path_of tm p d) ≤ length (path_of tm q d))%nat.
Proof.
  intros Hl (p0 & Hp0 & Hn0). assert (reachable tm pubs d) as Hr by (exists p0; split; [done|]; by rw hops_path).
  split; [done|]. destruct (server_spec tm pubs d Hr) as (p & _ & Es & Hp & Hlt & Hmin). exists p.
  assert (path_of tm p d ≠ []) as Hn by (intros E; rw hops_unreachable // in Hlt; lia).
  split_and!; try done. intros q Hq Hnq. specialize (Hmin q Hq). rw !hops_path // in Hmin. unfold zlen in Hmin. lia.
Qed.

Lemma elem_of_served tm pubs subs p d : d ∈ served tm pubs subs p ↔ server tm pubs d = Some p ∧ d ∈ subs.
Proof. unfold served. by rw list_elem_of_filter. Qed.

Lemma tree_bits_path tm p subs d i : d ∈ subs → path_bits tm p d i = true → tree_bits tm p subs i = true.
Proof. intros Hd Hb. apply existsb_exists. exists d. split; [by apply list_elem_of_In|done]. Qed.

(** The keys of the result. *)
Lemma serve_keys tm pubs rs subs b result pv result' pv' :
  serve_subscribers rs pubs subs b result pv tm = Ok (result', pv') → result'.*1 ≡ₚ result.*1 ∧ (map_ok result → map_ok result').
Proof.
  revert b result pv. induction subs as [|d subs IH]; intros b result pv; [by intros [= <- <-]|]. cbn [serve_subscribers].
  destruct (try_publishers _ _ _ _ _) as [b1|]; [|done]. cbn [mbind res_mbind res_bind].
  destruct (add_FID b1 result) as [r1|] eqn:E; [|done]. cbn [mbind res_mbind res_bind]. intros (H1 & H2)%IH.
  unfold add_FID in E. destruct (map_find (bestPublisher b1) result) as [o|] eqn:Ef; [|done]. cbn [found or_fault mbind res_mbind res_bind] in E.
  assert (∃ F, r1 = map_set (bestPublisher b1) (Some F) result) as [F ->].
  { destruct o as [F|]; [destruct (_ =? UINT_MAX)|]; [by injection E as <-; eexists| |by injection E as <-; eexists].
    destruct (or_into F (bestFID b1)); [|done]. injection E as <-. by eexists. }
  rw map_set_known_keys in H1; [|by eexists]. split; [done|]. intros Hm. by apply H2, map_ok_set.
Qed.

(** Topology formation, by the table of the assignment. *)
Lemma calculateFIDs_run tm pubs subs rs : igraph_laws (tm_graph tm) → tm_ok tm → getExten RS tm = Ok rs →
  Forall (known tm) pubs → Forall (known tm) subs → (∀ p d, zlen (path_of tm p d) < UINT_MAX) →
  (∀ d, d ∈ subs → ∃ p, p ∈ pubs ∧ path_of tm p d ≠ []) →
  ∃ result pv, calculateFIDs pubs subs [] [] tm = Ok (result, pv) ∧ result_ok tm pubs subs result ∧ paths_ok tm pubs subs rs pv ∧
    map_ok result.
Proof.
  intros L T Hrs Hp Hs Hl Hreach. unfold calculateFIDs. rw Hrs. cbn [mbind res_mbind res_bind].
  assert (best_ok best0) as Hb by (split; eexists; apply zeros_bits).
  assert (Forall (λ d, known tm d ∧ reachable tm pubs d) subs) as Hsr.
  { apply Forall_forall. intros d Hd. split; [by eapply Forall_forall in Hs|]. by apply server_shortest; [|apply Hreach]. }
  destruct (serve_run tm pubs rs [] subs best0 _ _ L T Hp Hsr Hb (empty_result tm pubs) (empty_paths tm pubs rs)) as (result & pv & E & Hr & Hpv).
  exists result, pv. split_and!; [done|done|done|]. eapply serve_keys; [exact E|].
  assert (∀ m : list (bytes * option BABitvector), map_ok m → map_ok (foldl (λ m pub, map_add pub None m) m pubs)) as H; [|apply H; constructor].
  clear. induction pubs as [|q pubs IH]; intros m Hm; [done|]. by apply IH, map_ok_add.
Qed.

(** A subscriber of the table. *)
Lemma result_serves tm pubs subs result d : (∀ p, zlen (path_of tm p d) < UINT_MAX) → (∃ p, p ∈ pubs ∧ path_of tm p d ≠ []) →
  d ∈ subs → result_ok tm pubs subs result → ∃ p F, p ∈ pubs ∧ d ∈ served tm pubs subs p ∧ path_of tm p d ≠ [] ∧
    (∀ q, q ∈ pubs → path_of tm q d ≠ [] → (length (path_of tm p d) ≤ length (path_of tm q d))%nat) ∧
    map_find p result = Some (Some F) ∧
    (∀ e LID, e ∈ path_eids (tm_graph tm) (path_of tm p d) → vector_of (EAS_LID (tm_graph tm) e) LID → matches F LID = Ok true) ∧
    (∀ v iLID, map_find d (reverse_node_index tm) = Some v → vector_of (VAS_iLID (tm_graph tm) v) iLID → matches F iLID = Ok true).
Proof.
  intros Hl Hreach Hd Hr. destruct (server_shortest tm pubs d Hl Hreach) as (_ & p & Es & Hpin & Hn & Hmin).
  pose proof (Hr p) as Hrp. rw decide_True // in Hrp. destruct Hrp as (o & Eo & Ho).
  assert (d ∈ served tm pubs subs p) as Hdin by by apply elem_of_served.
  destruct o as [F|]; [|unfold entry_ok in Ho; rw Ho in Hdin; by apply elem_of_nil in Hdin]. destruct Ho as [_ HF].
  exists p, F. split_and!; try done.
  - intros e LID He HL. eapply bits_match; [exact HF|exact HL|]. intros i _ Hi. eapply tree_bits_path; [exact Hdin|].
    unfold path_bits, links_bit. apply orb_true_iff. left. apply existsb_exists. exists e. split; [by apply list_elem_of_In|done].
  - intros v iLID Ev HL. eapply bits_match; [exact HF|exact HL|]. intros i _ Hi. eapply tree_bits_path; [exact Hdin|].
    unfold path_bits, iLID_bit. by rw Ev Hi orb_true_r.
Qed.

(** [C7] Topology formation, for subscribers that can each be reached from one
    of the publishers (one that cannot takes the service from others:
    TopologyIgraph.Net.unreachable_subscriber_drops,
    unreachable_first_subscriber).
    Every subscriber is then reached by one of the nearest publishers: that
    publisher gets an identifier which every link of a shortest path to the
    subscriber and the internal link of the subscriber match (and, with the
    resiliency extension, the path is recorded for it).  A publisher without
    subscribers gets none, and an identifier has no bit that is not of a link
    on the way to one of the publisher's subscribers. *)
Theorem calculateFIDs_correct tm pubs subs rs
    (L : igraph_laws (tm_graph tm)) (T : tm_ok tm) (Hrs : getExten RS tm = Ok rs)
    (Hp : Forall (known tm) pubs) (Hs : Forall (known tm) subs)
    (Hl : ∀ p d, zlen (path_of tm p d) < UINT_MAX)
    (Hreach : ∀ d, d ∈ subs → ∃ p, p ∈ pubs ∧ path_of tm p d ≠ []) :
  ∃ result pv, calculateFIDs pubs subs [] [] tm = Ok (result, pv) ∧
    (∀ d, d ∈ subs → ∃ p F, p ∈ pubs ∧ path_of tm p d ≠ [] ∧
      (∀ q, q ∈ pubs → path_of tm q d ≠ [] → (length (path_of tm p d) ≤ length (path_of tm q d))%nat) ∧
      map_find p result = Some (Some F) ∧
      (∀ e LID, e ∈ path_eids (tm_graph tm) (path_of tm p d) → vector_of (EAS_LID (tm_graph tm) e) LID → matches F LID = Ok true) ∧
      (∀ v iLID, map_find d (reverse_node_index tm) = Some v → vector_of (VAS_iLID (tm_graph tm) v) iLID → matches F iLID = Ok true) ∧
      (rs → ∃ ps, map_find p pv = Some ps ∧ path_string (tm_graph tm) (path_of tm p d) ∈ ps)) ∧
    (∀ p, p ∈ pubs → map_find p result = Some None ∨ ∃ F, map_find p result = Some (Some F) ∧
      (∃ d, d ∈ subs ∧ server tm pubs d = Some p) ∧
      ∀ LID, FID_ok LID → matches F LID = Ok true → ∀ i, (i < 256)%nat → bv_bit LID i = true →
        ∃ d, d ∈ subs ∧ server tm pubs d = Some p ∧ path_bits tm p d i = true).
Proof.
  destruct (calculateFIDs_run tm pubs subs rs L T Hrs Hp Hs Hl Hreach) as (result & pv & E & Hr & Hpv & _).
  exists result, pv. split; [exact E|]. split.
  - intros d Hd. destruct (result_serves tm pubs subs result d (λ p, Hl p d) (Hreach d Hd) Hd Hr)
      as (p & F & Hpin & Hdin & Hn & Hmin & Eo & Hlinks & Hiv). exists p, F. split_and!; try done.
    intros Hrst. destruct (Hpv p Hpin) as (ps & Eps & Hps). exists ps. split; [done|]. apply Hps. split; [done|]. by exists d.
  - intros p Hpin. pose proof (Hr p) as Hrp. rw decide_True // in Hrp. destruct Hrp as ([F|] & Eo & Ho); [right|by left].
    destruct Ho as [Hne HF]. exists F. split; [done|]. split.
    + destruct (served tm pubs subs p) as [|d l] eqn:El; [done|]. exists d. apply and_comm, (elem_of_served tm pubs subs p).
      rw El. by left.
    + intros LID OL HM i Hi Hbit. apply (proj1 (matches_iff F LID (proj1 HF) OL)) with (i := i) in HM; [|done|done].
      destruct HF as [_ BF]. rw BF // in HM. apply existsb_exists in HM as (d & Hd%list_elem_of_In & Hbd).
      apply elem_of_served in Hd as [Hsd Hd]. by exists d.
Qed.

(** A set of subscribers whose first one no publisher reaches is not
    served at all: the best publisher is then the empty string, which is
    looked up in the result and whose end is dereferenced. *)
Theorem unreachable_first_subscriber tm pubs d subs rs
    (L : igraph_laws (tm_graph tm)) (T : tm_ok tm) (Hrs : getExten RS tm = Ok rs)
    (Hp : Forall (known tm) pubs) (Hd : known tm d) (Hempty : [] ∉ pubs)
    (Hun : ∀ p, p ∈ pubs → path_of tm p d = []) :
  calculateFIDs pubs (d :: subs) [] [] tm = Fault NullDeref.
Proof.
  unfold calculateFIDs. rw Hrs. cbn [mbind res_mbind res_bind serve_subscribers].
  assert (best_ok best0) as Hb by (split; eexists; apply zeros_bits).
  destruct (try_publishers_run tm rs pubs d (mkBest UINT_MAX (bestPublisher best0) (bestFID best0) (best_path best0) (resultFID best0)) None L T Hp Hd Hb)
    as (b' & -> & _ & H); [done|]. cbn [mbind res_mbind res_bind minimumNumberOfHops] in *.
  rw server_none in H; [|intros (p & Hpin & Hlt); rw hops_unreachable in Hlt; [lia|by apply Hun]].
  destruct H as (_ & Eb & _). unfold add_FID. rw Eb. cbn [bestPublisher best0].
  pose proof (empty_result tm pubs []) as Hr. rw decide_False // in Hr. by rw Hr.
Qed.

(** ** A publisher and its nearest subscriber *)

(** [b] holds the path from [p] to the best subscriber [d]. *)
Definition nearest_is tm (p : bytes) (b : best) (d : bytes) : Prop :=
  bestPublisher b = d ∧ has_bits (bestFID b) (path_bits tm p d) ∧ best_path b = path_string (tm_graph tm) (path_of tm p d).

Lemma try_subscribers_run tm p subs b (best : option bytes) result paths : igraph_laws (tm_graph tm) → tm_ok tm →
  known tm p → Forall (known tm) subs → best_ok b → (∀ d, best = Some d → nearest_is tm p b d) →
  ∃ b', try_subscribers p subs b result paths tm =
      Ok (b', foldl (λ m d, map_add d None m) result subs, foldl (λ m d, map_add d [] m) paths subs) ∧ best_ok b' ∧
    let '(m, o) := closest (λ d, hops tm p d) subs (minimumNumberOfHops b) best in
    minimumNumberOfHops b' = m ∧ match o with Some d => nearest_is tm p b' d | None => bestPublisher b' = bestPublisher b end.
Proof.
  intros L T Hp Hs. revert b best result paths. induction Hs as [|d subs Hd Hs IH]; intros b best result paths Hb Hbest.
  { exists b. cbn. split; [done|]. split; [done|]. split; [done|]. destruct best; [by apply Hbest|done]. }
  cbn [try_subscribers closest foldl]. destruct Hb as [HbF [P HbR]]. destruct (clear_bits _ _ HbR) as (r & -> & Hr). cbn [mbind res_mbind res_bind].
  destruct (calculateFID_hops_bits tm p d r [] L T Hp Hd Hr) as (R & -> & HR). cbn [mbind res_mbind res_bind app].
  destruct (minimumNumberOfHops b >? hops tm p d).
  - destruct (IH (mkBest (hops tm p d) d (BABitvector_copy (bestFID b) R) (path_string (tm_graph tm) (path_of tm p d)) R)
      (Some d) (map_add d None result) (map_add d [] paths)) as (b' & E & Hb' & H).
    + split; [eexists; cbn; by apply copy_bits|by eexists].
    + intros q [= <-]. split_and!; [done|cbn; by apply copy_bits|done].
    + exists b'. split; [exact E|]. split; [done|]. cbn [minimumNumberOfHops] in H.
      pose proof (closest_spec (λ d, hops tm p d) subs (hops tm p d) (Some d)) as Hc.
      destruct (closest _ subs (hops tm p d) (Some d)) as [m o]. destruct Hc as (_ & _ & [[_ ->]|(_ & x & _ & -> & _)]); exact H.
  - destruct (IH (mkBest (minimumNumberOfHops b) (bestPublisher b) (bestFID b) (best_path b) R) best (map_add d None result)
      (map_add d [] paths)) as (b' & E & Hb' & H); [|exact Hbest|].
    + split; [done|by eexists].
    + exists b'. split; [exact E|]. split; [done|exact H].
Qed.

(** [C37] Unicast delivery.  A publisher gets the identifier of a shortest path
    to one subscriber, and no subscriber is nearer: the links of the path and
    the internal link of the subscriber match it, and no other bit is set; the
    path is recorded for it.  The other subscribers stay without an
    identifier, and all do if there is no path to any. *)
Theorem UcalculateFID_correct tm p subs
    (L : igraph_laws (tm_graph tm)) (T : tm_ok tm) (Hp : known tm p) (Hs : Forall (known tm) subs) (Hne : [] ∉ subs)
    (Hl : ∀ d, zlen (path_of tm p d) < UINT_MAX) :
  ∃ result paths, UcalculateFID p subs [] [] tm = Ok (result, paths) ∧
    if decide (Exists (λ d, path_of tm p d ≠ []) subs) then
      ∃ d F, d ∈ subs ∧ path_of tm p d ≠ [] ∧
        (∀ q, q ∈ subs → path_of tm p q ≠ [] → (length (path_of tm p d) ≤ length (path_of tm p q))%nat) ∧
        (∀ q, map_find q result = if decide (q = d) then Some (Some F) else if decide (q ∈ subs) then Some None else None) ∧
        map_find d paths = Some (path_string (tm_graph tm) (path_of tm p d)) ∧
        FID_ok F ∧ (∀ i, (i < 256)%nat → bv_bit F i = path_bits tm p d i) ∧
        (∀ e LID, e ∈ path_eids (tm_graph tm) (path_of tm p d) → vector_of (EAS_LID (tm_graph tm) e) LID → matches F LID = Ok true) ∧
        (∀ v iLID, map_find d (reverse_node_index tm) = Some v → vector_of (VAS_iLID (tm_graph tm) v) iLID → matches F iLID = Ok true)
    else ∀ q, map_find q result = if decide (q ∈ subs) then Some None else None.
Proof.
  assert (best_ok (mkBest UINT_MAX [] (BABitvector_make (Z.of_nat FID_BITS)) [] (BABitvector_make (Z.of_nat FID_BITS)))) as Hb
    by (split; eexists; apply zeros_bits).
  destruct (try_subscribers_run tm p subs _ None [] [] L T Hp Hs Hb) as (b & E & [[P HF] _] & H); [done|].
  unfold UcalculateFID. rw E. cbn [mbind res_mbind res_bind]. cbn [minimumNumberOfHops bestPublisher] in H.
  pose proof (closest_spec (λ d, hops tm p d) subs UINT_MAX None) as Hc.
  destruct (closest _ subs UINT_MAX None) as [m o]. destruct Hc as (_ & Hmin & Hc), H as [_ H].
  destruct (decide (Exists (λ d, path_of tm p d ≠ []) subs)) as [Hex|Hex].
  - assert (∃ d, o = Some d ∧ d ∈ subs ∧ path_of tm p d ≠ [] ∧ hops tm p d = m) as (d & -> & Hd & Hn & Em).
    { apply Exists_exists in Hex as (q & Hq & Hnq). specialize (Hmin q Hq). pose proof (Hl q) as Hlq. rw hops_path // in Hmin.
      destruct Hc as [[-> _]|(Hm & d & Hd & -> & Em)]; [lia|]. exists d. split_and!; try done. intros En. rw hops_unreachable // in Em. lia. }
    destruct H as (Eb & HF' & Epath). rw Eb. rw decide_False; [|intros ->; done]. eexists _, _. split; [done|].
    exists d, (Bitvector_new (bestFID b)). pose proof (new_bits _ _ HF') as HN. split_and!; try done.
    + intros q Hq Hnq. specialize (Hmin q Hq). rw -Em !hops_path // in Hmin. unfold zlen in Hmin. lia.
    + intros q. rw map_find_set. case_decide; [done|]. rw map_find_adds. by case_decide.
    + by rw map_find_set decide_True // Epath.
    + apply HN.
    + apply HN.
    + intros e LID. by apply links_match.
    + intros v iLID. by apply (iLID_match tm p d v).
  - assert (o = None) as ->.
    { destruct Hc as [[_ ->]|(Hm & d & Hd & -> & Em)]; [done|]. exfalso. apply Hex, Exists_exists. exists d. split; [done|].
      intros En. rw hops_unreachable // in Em. lia. }
    destruct (decide (bestPublisher b = [])); [|done]. eexists _, _. split; [done|]. intros q. rw map_find_adds. by case_decide.
Qed.
End serve.
