(* ===== verification/TopologyIgraph.v ===== *)
(** * Graphs as lists

    An instance of the interface of igraph: nodes and links in lists, and the
    shortest path by the number of links.  The laws hold, and the properties
    of the topology are applied to a small network. *)

From S2P Require Import Prelude Enums BitVector Packet Forwarder ForwarderProofs StdMap LibBitvector Topology TopologyPaths TopologyFID TopologyServe.

Record lgraph := mkLG { lg_nodes : list (bytes * bytes); lg_links : list ((nat * nat) * bytes) }.

Fixpoint first_some {A B} (f : A → option B) (l : list A) : option B :=
  match l with [] => None | x :: l => match f x with Some y => Some y | None => first_some f l end end.

(** A walk of [n] links. *)
Fixpoint walk_n (G : lgraph) (n u v : nat) : option (list nat) :=
  match n with
  | O => if decide (u = v ∧ (u < length (lg_nodes G))%nat) then Some [u] else None
  | S n => if decide (u < length (lg_nodes G))%nat
      then first_some (λ l : nat * nat * bytes, if decide (l.1.1 = u) then cons u <$> walk_n G n l.1.2 v else None) (lg_links G)
      else None
  end.

Definition shortest_walk (G : lgraph) (u v : nat) : list nat :=
  default [] (first_some (λ n, walk_n G n u v) (seq 0 (length (lg_nodes G)))).

#[export] Instance list_igraph : Igraph := {|
  graph := lgraph;
  igraph_vcount G := length (lg_nodes G);
  igraph_ecount G := length (lg_links G);
  igraph_edge G e := match lg_links G !! e with Some l => l.1 | None => (0, 0)%nat end;
  VAS_NODEID G v := match lg_nodes G !! v with Some n => n.1 | None => [] end;
  VAS_iLID G v := match lg_nodes G !! v with Some n => n.2 | None => [] end;
  EAS_LID G e := match lg_links G !! e with Some l => l.2 | None => [] end;
  EAS_LID_set e s G := mkLG (lg_nodes G) (alter (λ l, (l.1, s)) e (lg_links G));
  igraph_get_shortest_paths := shortest_walk;
  igraph_get_eid G u v := fst <$> list_find (λ l : nat * nat * bytes, l.1 = (u, v)) (lg_links G);
  igraph_add_edges ps G := mkLG (lg_nodes G) (lg_links G ++ ((λ p, (p, [])) <$> ps));
  igraph_delete_edges ps G := mkLG (lg_nodes G) (filter (λ l : nat * nat * bytes, l.1 ∉ ps) (lg_links G));
|}.

Lemma first_some_in {A B} (f : A → option B) l y : first_some f l = Some y → ∃ x, x ∈ l ∧ f x = Some y.
Proof.
  induction l as [|x l IH]; [done|]. cbn. destruct (f x) eqn:E; [intros [= <-]; exists x; set_solver|].
  intros (x' & ? & ?)%IH. exists x'. set_solver.
Qed.

Lemma first_some_some {A B} (f : A → option B) l x : x ∈ l → is_Some (f x) → is_Some (first_some f l).
Proof.
  induction l as [|x' l IH]; [by intros ?%elem_of_nil|]. intros [->|Hx]%elem_of_cons [y Hy]; cbn.
  - rw Hy. by eexists.
  - destruct (f x'); [by eexists|]. apply IH; [done|by eexists].
Qed.

(** The first number with a result. *)
Lemma first_some_seq {B} (f : nat → option B) a n y : first_some f (seq a n) = Some y →
  ∃ k, (a ≤ k)%nat ∧ f k = Some y ∧ ∀ j, (a ≤ j < k)%nat → f j = None.
Proof.
  revert a. induction n as [|n IH]; intros a; [done|]. cbn. destruct (f a) eqn:E.
  - intros [= <-]. exists a. split_and!; [lia|done|lia].
  - intros (k & Hk & Ek & Hj)%IH. exists k. split_and!; [lia|done|]. intros j Hj'. destruct (decide (j = a)) as [->|]; [done|apply Hj; lia].
Qed.

Section laws.
Context (G : lgraph).

Lemma edge_link u v e : edge G u v e ↔ ∃ s, lg_links G !! e = Some ((u, v), s).
Proof.
  unfold edge. cbn. split.
  - intros [[[p s] E]%lookup_lt_is_Some_2 H]. rw E in H. cbn in H. subst p. by exists s.
  - intros [s E]. rw E. split; [|done]. by eapply lookup_lt_Some.
Qed.

Lemma walk_n_sound n u v p : walk_n G n u v = Some p → walk G u v p ∧ length p = S n.
Proof.
  revert u p. induction n as [|n IH]; intros u p; cbn.
  - case_decide as H; [|done]. intros [= <-]. destruct H as [<- H]. split; [by constructor|done].
  - case_decide as Hu; [|done]. intros ([[a b] s] & Hin & E)%first_some_in. cbn in E. case_decide; [|done]. subst a.
    destruct (walk_n G n b v) as [q|] eqn:Eq; [|done]. injection E as <-. apply IH in Eq as [Hw Hl].
    apply list_elem_of_lookup in Hin as [e He]. split; [|cbn; lia]. eapply (walk_cons _ u b v e); [done| |done]. apply edge_link. by eexists.
Qed.

Lemma walk_n_complete u v p : walk G u v p → ∀ n, length p = S n → is_Some (walk_n G n u v).
Proof.
  induction 1 as [u Hu|u w v e p Hu He Hw IH]; intros n Hn.
  - injection Hn as <-. cbn. by rw decide_True.
  - destruct p as [|x p]; [by inversion Hw|]. destruct n as [|n]; [done|]. injection Hn as Hn.
    destruct (IH n) as [q Hq]; [cbn; lia|]. apply edge_link in He as [s He]. cbn in Hu. cbn. rw decide_True //. apply (first_some_some _ _ ((u, w), s)).
    + by eapply list_elem_of_lookup_2.
    + cbn. by rw decide_True // Hq.
Qed.

Lemma walk_vertices u v p : walk G u v p → Forall (λ x, (x < length (lg_nodes G))%nat) p.
Proof.
  by induction 1; constructor.
Qed.

Lemma walk_suffix u v p1 x p2 : walk G u v (p1 ++ x :: p2) → walk G x v (x :: p2).
Proof.
  revert u. induction p1 as [|y p1 IH]; intros u Hw; cbn in Hw.
  - pose proof Hw as Hw'. apply walk_head in Hw' as [q [= -> ->]]. done.
  - inversion Hw as [|? z ? e ? Hu He Hw']; subst; [by destruct p1|]. by apply (IH z).
Qed.

Lemma walk_simple u v p : walk G u v p → ∃ q, walk G u v q ∧ NoDup q ∧ (length q ≤ length p)%nat.
Proof.
  induction 1 as [u Hu|u w v e p Hu He Hw (q & Hq & Hnd & Hl)].
  - exists [u]. split_and!; [by constructor|apply NoDup_singleton|done].
  - destruct (decide (u ∈ q)) as [(q1 & q2 & ->)%list_elem_of_split|Hn].
    + exists (u :: q2). split_and!; [by eapply walk_suffix|by apply NoDup_app in Hnd as (_ & _ & ?)|].
      rw length_app in Hl. cbn in *. lia.
    + exists (u :: q). split_and!; [by eapply walk_cons|by constructor|cbn; lia].
Qed.

Lemma simple_length p : NoDup p → Forall (λ x, (x < length (lg_nodes G))%nat) p → (length p ≤ length (lg_nodes G))%nat.
Proof.
  intros Hnd Hp. rw -(length_seq (length (lg_nodes G)) 0). apply NoDup_incl_length; [by apply NoDup_ListNoDup|].
  intros x Hx%list_elem_of_In. apply list_elem_of_In, elem_of_seq. apply (proj1 (Forall_forall _ _) Hp) in Hx. lia.
Qed.

Lemma list_igraph_laws : igraph_laws G.
Proof.
  assert (∀ u v, shortest_walk G u v ≠ [] → ∃ n, walk_n G n u v = Some (shortest_walk G u v) ∧ ∀ j, (j < n)%nat → walk_n G j u v = None) as Hsp.
  { intros u v. unfold shortest_walk. destruct (first_some _ _) as [p|] eqn:E; [|done]. intros _.
    apply first_some_seq in E as (n & _ & E & Hj). exists n. split; [done|]. intros j Hjn. apply Hj. lia. }
  split.
  - intros u v e. cbn. destruct (list_find _ _) as [[i l]|] eqn:E; [|done]. intros [= <-].
    apply list_find_Some in E as (E & Hl & _). apply edge_link. destruct l as [q s]. cbn in Hl. subst q. by exists s.
  - intros u v e. cbn. destruct (list_find _ _) as [[i l]|] eqn:E; [done|]. intros _ [s He]%edge_link.
    apply list_find_None in E. apply list_elem_of_lookup_2 in He. by apply (proj1 (Forall_forall _ _) E) in He.
  - intros u v Hn. destruct (Hsp u v Hn) as (n & E & _). by apply walk_n_sound in E as [? _].
  - intros u v p Hw. destruct (walk_simple u v p Hw) as (q & Hq & Hnd & Hl).
    pose proof (simple_length q Hnd (walk_vertices u v q Hq)) as Hlq. destruct (walk_head _ _ _ _ Hq) as [q' Eq].
    assert (is_Some (walk_n G (length q') u v)) as Hs by (apply (walk_n_complete u v q Hq); by rw Eq).
    assert (shortest_walk G u v ≠ []) as Hne.
    { unfold shortest_walk. destruct (first_some_some (λ n, walk_n G n u v) (seq 0 (length (lg_nodes G))) (length q')) as [r Hr]; [|done|].
      - apply elem_of_seq. rw Eq in Hlq. cbn in Hlq. lia.
      - rw Hr. cbn. apply first_some_in in Hr as (n & _ & Hr). apply walk_n_sound in Hr as [_ Hr]. by destruct r. }
    split; [done|]. destruct (Hsp u v Hne) as (n & E & Hj). apply walk_n_sound in E as [_ El].
    destruct (decide (length q' < n)%nat) as [Hlt|]; [by rw (Hj _ Hlt) in Hs; destruct Hs|].
    cbn. rw El. rw Eq in Hl. cbn in Hl. lia.
Qed.
End laws.

Lemma list_paths (tm : tmgraph) p d : zlen (path_of tm p d) <= zlen (lg_nodes (tm_graph tm)).
Proof.
  unfold path_of. destruct (map_find p (reverse_node_index tm)) as [u|]; [|unfold zlen; cbn; lia].
  destruct (map_find d (reverse_node_index tm)) as [v|]; [|unfold zlen; cbn; lia].
  cbn. unfold shortest_walk. destruct (first_some _ _) as [q|] eqn:E; [|unfold zlen; cbn; lia].
  apply first_some_in in E as (n & Hn & E). apply walk_n_sound in E as [_ El]. cbn. unfold zlen. rw El.
  apply elem_of_seq in Hn. lia.
Qed.

(** ** A small network *)

Module Net.
#[export] Instance dirty_heap : Heap.
Proof.
  refine {| new_words n := replicate n 4294967295 |}; [intros n; apply length_replicate|].
  intros n. apply Forall_replicate. unfold word_ok. lia.
Defined.

(** The string of the identifier with one bit, and the names of the nodes. *)
Definition lid (k : nat) : bytes := replicate (255 - k) 48 ++ [49] ++ replicate k 48.
Definition name (k : Z) : bytes := replicate 7 48 ++ [48 + k].

(** Node 1 has links with nodes 2 and 3; node 4 has none. *)
Definition net : lgraph := mkLG
  [(name 1, lid 0); (name 2, lid 1); (name 3, lid 2); (name 4, lid 3)]
  [((0, 1), lid 10); ((1, 0), lid 11); ((0, 2), lid 12); ((2, 0), lid 13)]%nat.

Definition empty : tmgraph := mkTM _ net (name 1) (name 1) (name 1) [] [false; false; false; false; false] [] [] [] [] [] [] [] [].
Definition get {A} (a : A) (r : res A) : A := match r with Ok x => x | Fault _ => a end.
Definition start : tmgraph := get empty (readTopology net empty).
Definition tm : tmgraph := get start (calculateRVTMFIDs start).

Definition attrb (s : bytes) : bool := (length s =? FID_BITS)%nat && forallb (λ c, (c =? 48) || (c =? 49)) s.
Lemma attrb_ok s : attrb s = true → attr_ok s.
Proof.
  intros [Hl%Nat.eqb_eq H]%andb_true_iff. split; [done|]. apply Forall_forall. intros c Hc%list_elem_of_In.
  apply (proj1 (forallb_forall _ _) H) in Hc. lia.
Qed.

Definition attributesb (G : lgraph) : bool :=
  forallb (λ n, attrb n.2) (lg_nodes G) && forallb (λ l, attrb l.2) (lg_links G) && bool_decide (NoDup (lg_nodes G).*1).

Lemma attributesb_ok G : attributesb G = true → attributes_ok (G : graph).
Proof.
  intros [[Hn He]%andb_true_iff Hd%bool_decide_eq_true]%andb_true_iff. split; cbn.
  - intros v [n En]%lookup_lt_is_Some_2. rw En. apply attrb_ok, (proj1 (forallb_forall _ _) Hn).
    by eapply list_elem_of_In, list_elem_of_lookup_2.
  - intros e [l El]%lookup_lt_is_Some_2. rw El. apply attrb_ok, (proj1 (forallb_forall _ _) He).
    by eapply list_elem_of_In, list_elem_of_lookup_2.
  - intros v w [n En]%lookup_lt_is_Some_2 [m Em]%lookup_lt_is_Some_2. rw En Em. intros E.
    eapply NoDup_lookup; [exact Hd| |]; rw list_lookup_fmap ?En ?Em; cbn; by rw ?E.
Qed.

Lemma net_attributes : attributes_ok (net : graph).
Proof. apply attributesb_ok. by vm_compute. Qed.

Lemma net_laws : igraph_laws (net : graph).
Proof. apply list_igraph_laws. Qed.

Lemma net_start_ok : tm_ok start ∧ tm_graph start = net ∧ getExten RS start = Ok false.
Proof.
  destruct (readTopology_ok (IG := list_igraph) net empty net_attributes eq_refl eq_refl eq_refl) as (t & E & T & G & _ & _ & X & _).
  unfold start. rw E. split_and!; [exact T|exact G|]. unfold getExten. cbn -[zlen]. by rw X.
Qed.

Lemma knownb tm n : bool_decide (is_Some (map_find n (reverse_node_index tm))) = true → known tm n.
Proof. apply bool_decide_eq_true_1. Qed.

(** Node 1 publishes for nodes 2 and 3 and for the isolated node 4: the
    identifier is that of the last path found, to node 3 only. *)
Example unreachable_subscriber_drops : ∃ F,
  calculateFIDs [name 1] [name 2; name 3; name 4] [] [] start = Ok ([(name 1, Some F)], [(name 1, [])]) ∧
  server start [name 1] (name 2) = Some (name 1) ∧
  (LID ← Bitvector_of_string (new_words 256) (lid 10); matches F LID) = Ok false ∧
  (LID ← Bitvector_of_string (new_words 256) (lid 12); matches F LID) = Ok true.
Proof. eexists. split; [vm_compute; reflexivity|]. split; [vm_compute; reflexivity|]. split; vm_compute; reflexivity. Qed.
End Net.

Section instances.
Import Net.

Lemma calculateFID_correct_witness : ∃ F, calculateFID (name 2) (name 3) start = Ok F ∧ FID_ok F ∧
  path_of start (name 2) (name 3) = [1; 0; 2]%nat ∧
  ∀ LID, vector_of (lid 11) LID ∨ vector_of (lid 12) LID ∨ vector_of (lid 2) LID → matches F LID = Ok true.
Proof.
  destruct net_start_ok as (T & G & _). assert (igraph_laws (tm_graph start)) as L by (rw G; exact net_laws).
  assert (known start (name 2) ∧ known start (name 3)) as [H2 H3] by (split; apply knownb; vm_compute; reflexivity).
  assert (path_of start (name 2) (name 3) = [1; 0; 2]%nat) as Ep by (vm_compute; reflexivity).
  assert (map_find (name 3) (reverse_node_index start) = Some 2%nat) as E3 by (vm_compute; reflexivity).
  destruct (calculateFID_correct start (name 2) (name 3) L T H2 H3) as (F & u & v & E & OF & _ & Ev & H). exists F.
  split; [exact E|]. split; [exact OF|]. split; [exact Ep|]. rw Ep in H. destruct H as (_ & _ & Hlinks & Hdest & _).
  rw G in Hlinks, Hdest. assert (v = 2%nat) as -> by congruence. intros LID [HL|[HL|HL]].
  - apply (Hlinks 1%nat); [|exact HL]. apply (bool_decide_eq_true_1 _). vm_compute. reflexivity.
  - apply (Hlinks 2%nat); [|exact HL]. apply (bool_decide_eq_true_1 _). vm_compute. reflexivity.
  - apply Hdest. exact HL.
Defined.

Lemma start_paths p d : zlen (path_of start p d) < UINT_MAX.
Proof. destruct net_start_ok as (_ & G & _). pose proof (list_paths start p d) as H. rw G in H. change (zlen (lg_nodes net)) with 4 in H. unfold UINT_MAX. lia. Qed.

(** Nodes 2 and 3 publish, node 1 is the subscriber; both are as near. *)
Lemma calculateFIDs_correct_witness : ∃ result pv F, calculateFIDs [name 2; name 3] [name 1] [] [] start = Ok (result, pv) ∧
  map_find (name 2) result = Some (Some F) ∧ ∀ LID, vector_of (lid 11) LID ∨ vector_of (lid 0) LID → matches F LID = Ok true.
Proof.
  destruct net_start_ok as (T & G & X). assert (igraph_laws (tm_graph start)) as L by (rw G; exact net_laws).
  assert (Forall (known start) [name 2; name 3]) as Hp by (repeat constructor; apply knownb; vm_compute; reflexivity).
  assert (Forall (known start) [name 1]) as Hs by (repeat constructor; apply knownb; vm_compute; reflexivity).
  assert (∀ d, d ∈ [name 1] → ∃ p, p ∈ [name 2; name 3] ∧ path_of start p d ≠ []) as Hreach.
  { intros d ->%list_elem_of_singleton. exists (name 2). split; [by left|]. apply (bool_decide_eq_true_1 _). vm_compute. reflexivity. }
  destruct (calculateFIDs_correct start [name 2; name 3] [name 1] false L T X Hp Hs start_paths Hreach) as (result & pv & E & Hsub & Hpub).
  exists result, pv. destruct (Hsub (name 1) ltac:(by left)) as (p & F & Hpin & _ & _ & EF & Hlinks & Hdest & _).
  rw G in Hlinks, Hdest. assert (p = name 2) as ->.
  { destruct (Hpub p Hpin) as [En|(F' & _ & (d & ->%list_elem_of_singleton & Es) & _)]; [congruence|].
    assert (server start [name 2; name 3] (name 1) = Some (name 2)) as Es' by (vm_compute; reflexivity). congruence. }
  exists F. split; [exact E|]. split; [exact EF|]. intros LID [HL|HL].
  - apply (Hlinks 1%nat); [|exact HL]. apply (bool_decide_eq_true_1 _). vm_compute. reflexivity.
  - apply (Hdest 0%nat); [vm_compute; reflexivity|exact HL].
Defined.

(** Node 3 publishes; node 1 is nearer than node 2, and node 4 has no path. *)
Lemma UcalculateFID_correct_witness : ∃ result paths F, UcalculateFID (name 3) [name 1; name 2; name 4] [] [] start = Ok (result, paths) ∧
  map_find (name 1) result = Some (Some F) ∧ map_find (name 2) result = Some None ∧
  ∀ LID, vector_of (lid 13) LID ∨ vector_of (lid 0) LID → matches F LID = Ok true.
Proof.
  destruct net_start_ok as (T & G & _). assert (igraph_laws (tm_graph start)) as L by (rw G; exact net_laws).
  assert (known start (name 3)) as Hp by (apply knownb; vm_compute; reflexivity).
  assert (Forall (known start) [name 1; name 2; name 4]) as Hs by (repeat constructor; apply knownb; vm_compute; reflexivity).
  assert ([] ∉ [name 1; name 2; name 4]) as Hne by (apply (bool_decide_eq_true_1 _); vm_compute; reflexivity).
  destruct (UcalculateFID_correct start (name 3) [name 1; name 2; name 4] L T Hp Hs Hne (start_paths (name 3)))
    as (result & paths & E & H).
  assert (Exists (λ d, path_of start (name 3) d ≠ []) [name 1; name 2; name 4]) as Hex.
  { constructor 1. apply (bool_decide_eq_true_1 _). vm_compute. reflexivity. }
  destruct (decide _) as [_|Hno]; [|destruct (Hno Hex)].
  destruct H as (d & F & Hd & Hn & Hmin & Hr & _ & _ & _ & Hlinks & Hdest).
  assert (d = name 1) as ->.
  { rw !elem_of_cons in Hd. destruct Hd as [->|[->|[->|Hd]]]; [reflexivity| | |destruct (proj1 (elem_of_nil _) Hd)].
    - assert ((length (path_of start (name 3) (name 2)) ≤ length (path_of start (name 3) (name 1)))%nat) as Hle.
      { apply Hmin; [left|]. apply (bool_decide_eq_true_1 _). vm_compute. reflexivity. }
      vm_compute in Hle. lia.
    - destruct Hn. vm_compute. reflexivity. }
  pose proof (Hr (name 1)) as H1. pose proof (Hr (name 2)) as H2. vm_compute in H1, H2.
  rw G in Hlinks, Hdest. exists result, paths, F. split; [exact E|]. split; [exact H1|]. split; [exact H2|]. intros LID [HL|HL].
  - apply (Hlinks 3%nat); [|exact HL]. apply (bool_decide_eq_true_1 _). vm_compute. reflexivity.
  - apply (Hdest 0%nat); [vm_compute; reflexivity|exact HL].
Defined.

(** Node 4 is isolated. *)
Lemma unreachable_first_subscriber_witness : calculateFIDs [name 1] [name 4; name 2] [] [] start = Fault NullDeref.
Proof.
  destruct net_start_ok as (T & G & X). assert (igraph_laws (tm_graph start)) as L by (rw G; exact net_laws).
  assert (Forall (known start) [name 1]) as Hp by (repeat constructor; apply knownb; vm_compute; reflexivity).
  assert (known start (name 4)) as Hd by (apply knownb; vm_compute; reflexivity).
  assert ([] ∉ [name 1]) as He by (apply (bool_decide_eq_true_1 _); vm_compute; reflexivity).
  assert (∀ p, p ∈ [name 1] → path_of start p (name 4) = []) as Hun by (intros p ->%list_elem_of_singleton; vm_compute; reflexivity).
  exact (unreachable_first_subscriber start [name 1] (name 4) [name 2] false L T X Hp Hd He Hun).
Defined.
End instances.
