(* ===== verification/TopologyUpdate.v ===== *)
(** * Links that fail and return

    TMIgraph::updateGraph: a link that a node reports as lost is taken out of
    the graph and its identifiers are kept; when it returns it gets them back.
    The monitoring agent is told, and its answers are an argument. *)

From S2P Require Import Prelude StdString Enums BitVector Packet StdMap LibBitvector Topology.

(** What the agent is told: the identifier ([None] when the variable was not
    assigned), the two nodes, and whether the link is up. *)
Record link_report := mkLR { lr_lid : option Z; lr_node1 : Z; lr_node2 : Z; lr_up : bool }.

(** ** Numbers of nodes *)

Fixpoint drop_zeros (s : bytes) : bytes := match s with c :: s' => if c =? 48 then drop_zeros s' else s | [] => [] end.
(** The number of a node, in sixteen bits. *)
Definition node_int (nodeID : bytes) : Z := u16 (atoi (drop_zeros nodeID)).

(** The position of the first character that satisfies [f], among [n]. *)
Fixpoint first_pos (f : Z → bool) (n : nat) (pos : Z) (s : bytes) : option Z :=
  match n, s with
  | S n, c :: s => if f c then Some pos else first_pos f n (pos + 1) s
  | _, _ => None
  end.
Definition first_one (n : nat) (LID : bytes) : option Z := first_pos (λ c, c =? 49) n 0 LID.

Section update.
Context `{IG : Igraph} `{HP : Heap}.
Implicit Types (tm : tmgraph).

(** The identifier of a link, by [igraph_get_eids] and [edge_LID]; an edge
    that is missing has the number -1, which is not in the table. *)
Definition link_LID (p : nat * nat) tm : res BABitvector :=
  found (igraph_get_eid (tm_graph tm) p.1 p.2 ≫= λ e, map_find e (edge_LID tm)).

(** The first loop looks at [FID_LEN] characters, the second at all; what it
    does not find leaves [lid_int] as it was.  An agent that does not answer
    ends the function with -1, which is [true]. *)
Definition remove_link (source destination : bytes) (forward_edge backward_edge : nat * nat) (bidirectional : bool)
    (answers : bool * bool) tm : res (bool * tmgraph * list link_report) :=
  lid ← link_LID forward_edge tm;
  LID ← Bitvector_to_string lid;
  let lid_int := first_one FID_LEN LID in
  let tm1 := set_freed (map_add forward_edge lid (freedLIDs tm)) tm in
  let r1 := mkLR lid_int (node_int destination) (node_int source) false in
  if negb answers.1 then Ok (true, tm1, [r1]) else
  '(tm2, rs, ok) ← (if bidirectional then
      lid ← link_LID backward_edge tm1;
      let tm2 := set_freed (map_add backward_edge lid (freedLIDs tm1)) tm1 in
      LID ← Bitvector_to_string lid;
      let lid_int := match first_one FID_BITS LID with Some pos => Some pos | None => lid_int end in
      Ok (tm2, [mkLR lid_int (node_int source) (node_int destination) false], answers.2)
    else Ok (tm1, [], true));
  if negb ok then Ok (true, tm2, r1 :: rs) else
  let v := if bidirectional then [forward_edge; backward_edge] else [forward_edge] in
  tm3 ← updateTMStates (set_graph (igraph_delete_edges v (tm_graph tm)) tm2);
  Ok (true, tm3, r1 :: rs).

(** The attribute of the new edge. *)
Definition restore_LID (p : nat * nat) (LID : bytes) (g : graph) (tm : tmgraph) : res tmgraph :=
  e ← get_eid g p.1 p.2;
  Ok (set_freed (map_del p (freedLIDs tm)) (set_graph (EAS_LID_set e LID (tm_graph tm)) tm)).

(** The last loop tests for a null character. *)
Definition restore_link (source destination : bytes) (forward_edge backward_edge : nat * nat) (bidirectional : bool)
    (answers : bool * bool) tm : res (bool * tmgraph * list link_report) :=
  let v := if bidirectional then [forward_edge; backward_edge] else [forward_edge] in
  let g := igraph_add_edges v (tm_graph tm) in
  lid ← found (map_find forward_edge (freedLIDs tm));
  LID ← Bitvector_to_string lid;
  let lid_int := first_one FID_LEN LID in
  tm1 ← restore_LID forward_edge LID g (set_graph g tm);
  let r1 := mkLR lid_int (node_int destination) (node_int source) true in
  if negb answers.1 then Ok (true, tm1, [r1]) else
  '(tm2, rs, ok) ← (if bidirectional then
      lid ← found (map_find backward_edge (freedLIDs tm1));
      LID ← Bitvector_to_string lid;
      let lid_int := match first_pos (λ c, negb (c =? 0)) FID_LEN 0 LID with Some pos => Some pos | None => lid_int end in
      tm2 ← restore_LID backward_edge LID g tm1;
      Ok (tm2, [mkLR lid_int (node_int source) (node_int destination) true], answers.2)
    else Ok (tm1, [], true));
  if negb ok then Ok (true, tm2, r1 :: rs) else
  tm3 ← updateTMStates tm2;
  Ok (true, tm3, r1 :: rs).

Definition updateGraph (source destination : bytes) (bidirectional remove : bool) (answers : bool * bool) tm :
    res (bool * tmgraph * list link_report) :=
  source_vertex ← found (map_find source (reverse_node_index tm));
  destination_vertex ← found (map_find destination (reverse_node_index tm));
  let forward_edge := (source_vertex, destination_vertex) in
  let backward_edge := (destination_vertex, source_vertex) in
  let freed p := bool_decide (is_Some (map_find p (freedLIDs tm))) in
  let broken := if bidirectional then freed forward_edge && freed backward_edge else freed forward_edge in
  let exists_ := bool_decide (is_Some (igraph_get_eid (tm_graph tm) source_vertex destination_vertex)) in
  if remove && exists_ then remove_link source destination forward_edge backward_edge bidirectional answers tm
  else if negb remove && negb exists_ && broken then restore_link source destination forward_edge backward_edge bidirectional answers tm
  else Ok (false, tm, []).
End update.
