(* ===== verification/TopologyLinks.v ===== *)
(** * What a change of a link does

    Taking a link out and putting it back: the tables agree with the graph in
    between and after, no path uses the link while it is out, and the graph
    has the same links with the same identifiers again. *)

From S2P Require Import Prelude Enums BitVector Packet Forwarder ForwarderProofs StdMap LibBitvector Topology TopologyPaths TopologyFID TopologyUpdate.

Section links.
Context `{IG : Igraph} `{HP : Heap}.
Implicit Types (tm : tmgraph) (g : graph).

Definition links g : list ((nat * nat) * bytes) := (λ e, (igraph_edge g e, EAS_LID g e)) <$> seq 0 (igraph_ecount g).

Definition same_vertices g g' : Prop := igraph_vcount g' = igraph_vcount g ∧
  (∀ v, VAS_NODEID g' v = VAS_NODEID g v) ∧ ∀ v, VAS_iLID g' v = VAS_iLID g v.

(** The documentation of igraph for graphs without parallel edges: edges are
    deleted by their ends, new edges have an empty attribute, and a change of
    an attribute changes that of one edge.  No order of the edges is kept. *)
Class IgraphEdits := {
  add_links g ps : links (igraph_add_edges ps g) ≡ₚ links g ++ ((λ p, (p, [])) <$> ps);
  delete_links g ps : NoDup (links g).*1 → links (igraph_delete_edges ps g) ≡ₚ filter (λ l, l.1 ∉ ps) (links g);
  set_links g e s p : links g !! e = Some p → links (EAS_LID_set e s g) = <[e := (p.1, s)]> (links g);
  add_vertices g ps : same_vertices g (igraph_add_edges ps g);
  delete_vertices g ps : same_vertices g (igraph_delete_edges ps g);
  set_vertices g e s : same_vertices g (EAS_LID_set e s g);
}.

Lemma links_lookup g e : (e < igraph_ecount g)%nat → links g !! e = Some (igraph_edge g e, EAS_LID g e).
Proof. intros He. unfold links. by rw list_lookup_fmap lookup_seq_lt. Qed.

Lemma links_inv g e l : links g !! e = Some l → (e < igraph_ecount g)%nat ∧ l = (igraph_edge g e, EAS_LID g e).
Proof.
  intros H. assert (e < igraph_ecount g)%nat as He.
  { apply lookup_lt_Some in H. unfold links in H. by rw length_fmap length_seq in H. }
  rw links_lookup // in H. naive_solver.
Qed.

Lemma link_of_edge g u v e : edge g u v e → ((u, v), EAS_LID g e) ∈ links g.
Proof. intros [He Ee]. apply list_elem_of_lookup. exists e. by rw links_lookup // Ee. Qed.

Lemma edge_of_link g u v s : ((u, v), s) ∈ links g → ∃ e, edge g u v e ∧ EAS_LID g e = s.
Proof. intros [e He]%list_elem_of_lookup. apply links_inv in He as [Hl [= E ->]]. exists e. by split. Qed.

(** An edge is found by its ends. *)
Lemma eid_link g p : igraph_laws g → (∃ s, (p, s) ∈ links g) ↔ is_Some (igraph_get_eid g p.1 p.2).
Proof.
  intros L. destruct p as [u v]. cbn. split.
  - intros [s (e & He & _)%edge_of_link]. destruct (igraph_get_eid g u v) eqn:E; [by eexists|]. by apply (law_no_eid _ L u v e) in E.
  - intros [e He%(law_eid _ L)]. eexists. by apply link_of_edge.
Qed.

Lemma eid_attribute g p e s : igraph_laws g → NoDup (links g).*1 → (p, s) ∈ links g → igraph_get_eid g p.1 p.2 = Some e →
  links g !! e = Some (p, s).
Proof.
  intros L Hnd [i Hi]%list_elem_of_lookup He. destruct p as [u v]. apply (law_eid _ L) in He as [He Ee].
  rw links_lookup // Ee. assert (e = i) as ->; [|by apply links_inv in Hi as [_ [= _ ->]]].
  eapply NoDup_lookup; [exact Hnd| |]; rw list_lookup_fmap; [by rw links_lookup // Ee|by rw Hi /= Ee].
Qed.

(** ** The tables after a change *)

Lemma attributes_links g : attributes_ok g → ∀ l, l ∈ links g → attr_ok l.2.
Proof. intros HA l [e He]%list_elem_of_lookup. apply links_inv in He as [Hl ->]. by apply (ao_edges _ HA). Qed.

Lemma links_attributes g g' : attributes_ok g → same_vertices g g' → (∀ l, l ∈ links g' → attr_ok l.2) → attributes_ok g'.
Proof.
  intros HA (Ev & En & Ei) Hl. split.
  - intros v Hv. rw Ei. apply (ao_nodes _ HA). by rw -Ev.
  - intros e He. apply (Hl (igraph_edge g' e, EAS_LID g' e)). apply list_elem_of_lookup. exists e. by apply links_lookup.
  - intros v w. rw Ev !En. apply (ao_names _ HA).
Qed.

Lemma refreshed tm g : tm_ok tm → same_vertices (tm_graph tm) g → (∀ l, l ∈ links g → attr_ok l.2) →
  ∀ tm', tm_graph tm' = g → reverse_node_index tm' = reverse_node_index tm → nodeID_iLID tm' = nodeID_iLID tm →
  ∃ l r, updateTMStates tm' = Ok (set_edges l r tm') ∧ tm_ok (set_edges l r tm').
Proof.
  intros T Hv Hl tm' Eg Er Ei. pose proof (links_attributes _ _ (to_attributes _ T) Hv Hl) as HA.
  destruct (updateTMStates_ok tm') as (l & r & E & HE); [by rw Eg|]. exists l, r. split; [done|].
  destruct Hv as (Evc & En & Eil). split; cbn; rw ?Eg; [done| | |].
  - intros n v. rw Er Evc En. apply (to_nodes _ T).
  - intros v. rw Evc En Eil Ei. apply (to_ilids _ T).
  - intros e. rw -Eg. apply HE.
Qed.

(** The string of the identifier of a link is its attribute. *)
Lemma lid_string F s : attr_ok s → has_bits F (attr_bit s) → Bitvector_to_string F = Ok s.
Proof.
  intros [Hl H01] [[W M] B]. rw Bitvector_to_string_spec //. apply to_string_bits; [done| |done|].
  - unfold bv_len, BABitvector_size. rw M Hl. done.
  - intros i Hi. rw Hl in Hi |- *. unfold FID_BITS, FID_LEN in *. rw B //.
Qed.

(** The object of a link in the table. *)
Lemma link_LID_ok tm p s : igraph_laws (tm_graph tm) → tm_ok tm → NoDup (links (tm_graph tm)).*1 → (p, s) ∈ links (tm_graph tm) →
  ∃ b, link_LID p tm = Ok b ∧ has_bits b (attr_bit s) ∧ Bitvector_to_string b = Ok s.
Proof.
  intros L T Hnd Hp. destruct (proj1 (eid_link _ p L)) as [e Ee]; [by exists s|].
  pose proof (eid_attribute _ p e s L Hnd Hp Ee) as Hl. apply links_inv in Hl as [He [= Ep Es]].
  destruct (to_lids _ T e He) as (b & Eb & Hb). exists b. unfold link_LID. rw Ee /= Eb. split; [done|]. rw -Es in Hb. split; [done|].
  apply lid_string; [|done]. by apply (attributes_links _ (to_attributes _ T) (p, s)).
Qed.

(** ** A link that is lost *)

Definition without (ps : list (nat * nat)) (l : list ((nat * nat) * bytes)) : list ((nat * nat) * bytes) := filter (λ l, l.1 ∉ ps) l.

Context `{IE : !IgraphEdits} (laws : ∀ g, igraph_laws g).

(** [tm'] is [tm] with the links [ps] taken out and their identifiers kept. *)
Definition taken_out tm (ps : list (nat * nat)) tm' : Prop :=
  tm_ok tm' ∧ links (tm_graph tm') ≡ₚ without ps (links (tm_graph tm)) ∧
  (∀ p, map_find p (freedLIDs tm') = None ↔ p ∉ ps ∧ map_find p (freedLIDs tm) = None) ∧
  (∀ p, p ∉ ps → map_find p (freedLIDs tm') = map_find p (freedLIDs tm)) ∧
  reverse_node_index tm' = reverse_node_index tm ∧ same_vertices (tm_graph tm) (tm_graph tm').

(** The nodes of the manager and the identifiers stored for the nodes. *)
Definition same_paths tm tm' : Prop := tm_nodeID tm' = tm_nodeID tm ∧ RVnodeID tm' = RVnodeID tm ∧
  (RMnodeID tm' = RMnodeID tm ∧ extension tm' = extension tm) ∧
  tm_RVFID tm' = tm_RVFID tm ∧ tm_TMFID tm' = tm_TMFID tm ∧ TM_to_nodeFID tm' = TM_to_nodeFID tm.

Lemma same_paths_trans tm1 tm2 tm3 : same_paths tm1 tm2 → same_paths tm2 tm3 → same_paths tm1 tm3.
Proof. unfold same_paths. intros (?&?&(?&?)&?&?&?) (?&?&(?&?)&?&?&?). split_and!; congruence. Qed.

Lemma remove_both tm source destination p q s s' : tm_ok tm → NoDup (links (tm_graph tm)).*1 →
  (p, s) ∈ links (tm_graph tm) → (q, s') ∈ links (tm_graph tm) → p ≠ q →
  map_find p (freedLIDs tm) = None → map_find q (freedLIDs tm) = None →
  ∃ tm' rs b b', remove_link source destination p q true (true, true) tm = Ok (true, tm', rs) ∧ taken_out tm [p; q] tm' ∧
    freedLIDs tm' = map_add q b' (map_add p b (freedLIDs tm)) ∧ same_paths tm tm' ∧
    map_find p (freedLIDs tm') = Some b ∧ map_find q (freedLIDs tm') = Some b' ∧
    has_bits b (attr_bit s) ∧ has_bits b' (attr_bit s') ∧ Bitvector_to_string b = Ok s ∧ Bitvector_to_string b' = Ok s'.
Proof.
  intros T Hnd Hp Hq Hne Hfp Hfq. unfold remove_link.
  destruct (link_LID_ok tm p s (laws _) T Hnd Hp) as (b & -> & Hb & Es). cbn [mbind res_mbind res_bind]. rw Es.
  cbn [mbind res_mbind res_bind fst snd negb].
  assert (∀ f, link_LID q (set_freed f tm) = link_LID q tm) as Hlid by done. rw Hlid.
  destruct (link_LID_ok tm q s' (laws _) T Hnd Hq) as (b' & -> & Hb' & Es'). cbn [mbind res_mbind res_bind]. rw Es'.
  cbn [mbind res_mbind res_bind negb].
  destruct (refreshed tm (igraph_delete_edges [p; q] (tm_graph tm)) T (delete_vertices _ _)) with
    (tm' := set_graph (igraph_delete_edges [p; q] (tm_graph tm))
      (set_freed (map_add q b' (map_add p b (freedLIDs tm))) (set_freed (map_add p b (freedLIDs tm)) tm)))
    as (l & r & E & T'); [|done..|].
  { intros x. rw delete_links // list_elem_of_filter. intros [_ Hx]. by apply (attributes_links _ (to_attributes _ T)). }
  cbn [freedLIDs set_freed] in E |- *. rw E. cbn [mbind res_mbind res_bind]. eexists _, _, b, b'. split; [done|].
  assert (∀ x, map_find x (map_add q b' (map_add p b (freedLIDs tm))) =
    if decide (x = q) then Some b' else if decide (x = p) then Some b else map_find x (freedLIDs tm)) as Hf.
  { intros x. rw !map_find_add. rw (decide_False (P := q = p)); [|done]. rw Hfp Hfq. done. }
  split; [|split_and!; try done; cbn; rw Hf].
  - split_and!; try done; cbn.
    + by apply delete_links.
    + intros x. rw Hf. destruct (decide (x = q)) as [->|]; [split; [done|set_solver]|].
      destruct (decide (x = p)) as [->|]; [split; [done|set_solver]|]. set_solver.
    + intros x Hx. rw Hf !decide_False //; set_solver.
    + apply delete_vertices.
  - by rw decide_False // decide_True.
  - by rw decide_True.
Qed.

(** No path goes over a link that is out. *)
Lemma taken_out_paths tm ps tm' u v e : taken_out tm ps tm' → (u, v) ∈ ps → ¬ edge (tm_graph tm') u v e.
Proof.
  intros (_ & Hl & _) Hin He%link_of_edge. rw Hl in He. unfold without in He. apply list_elem_of_filter in He as [He _]. by apply He.
Qed.

(** ** A link that returns *)

Lemma insert_permutation {A} (l rest : list A) i x y : l !! i = Some y → l ≡ₚ y :: rest → <[i := x]> l ≡ₚ x :: rest.
Proof.
  intros Hi Hl. rw insert_take_drop; [|by apply lookup_lt_Some in Hi].
  pose proof (take_drop_middle _ _ _ Hi) as E. revert E. generalize (take i l) (drop (S i) l). intros a b <-.
  rw -Permutation_middle in Hl. apply Permutation_cons_inv in Hl. by rw -Permutation_middle Hl.
Qed.

Lemma ends_set g p s e : NoDup (links g).*1 → links g !! e = Some p → (links (EAS_LID_set e s g)).*1 = (links g).*1.
Proof.
  intros Hnd He. rw (set_links _ _ _ _ He) list_fmap_insert. apply list_insert_id. by rw list_lookup_fmap He.
Qed.

(** An edge keeps its number when an attribute changes. *)
Lemma restore_step tm g p s e rest : NoDup (links (tm_graph tm)).*1 → links (tm_graph tm) ≡ₚ (p, []) :: rest →
  igraph_get_eid g p.1 p.2 = Some e → links (tm_graph tm) !! e = Some (p, []) →
  ∃ tm', restore_LID p s g tm = Ok tm' ∧ links (tm_graph tm') ≡ₚ (p, s) :: rest ∧
    (links (tm_graph tm')).*1 = (links (tm_graph tm)).*1 ∧ freedLIDs tm' = map_del p (freedLIDs tm) ∧
    same_vertices (tm_graph tm) (tm_graph tm') ∧ reverse_node_index tm' = reverse_node_index tm ∧ nodeID_iLID tm' = nodeID_iLID tm ∧
    same_paths tm tm'.
Proof.
  intros Hnd Hl Ee He. unfold restore_LID, get_eid. rw Ee. cbn [or_fault mbind res_mbind res_bind]. eexists. split; [done|]. cbn.
  split_and!; try done; [|by eapply ends_set|apply set_vertices..].
  rw (set_links _ _ s _ He). by apply (insert_permutation _ _ _ _ (p, [])).
Qed.

Lemma ends_unique (l : list ((nat * nat) * bytes)) p s s' : NoDup l.*1 → (p, s) ∈ l → (p, s') ∈ l → s = s'.
Proof.
  intros Hnd [i Hi]%list_elem_of_lookup [j Hj]%list_elem_of_lookup. assert (i = j) as <-; [|congruence].
  eapply NoDup_lookup; [exact Hnd| |]; rw list_lookup_fmap; [by rw Hi|by rw Hj].
Qed.

Lemma same_vertices_trans g1 g2 g3 : same_vertices g1 g2 → same_vertices g2 g3 → same_vertices g1 g3.
Proof. intros (E1 & N1 & I1) (E2 & N2 & I2). split_and!; [congruence|intros v; by rw N2|intros v; by rw I2]. Qed.

Lemma eid_at g p s : NoDup (links g).*1 → (p, s) ∈ links g → ∃ e, igraph_get_eid g p.1 p.2 = Some e ∧ links g !! e = Some (p, s).
Proof.
  intros Hnd Hp. destruct (proj1 (eid_link g p (laws g))) as [e Ee]; [by exists s|]. exists e. split; [done|].
  by eapply eid_attribute.
Qed.

Lemma restore_both tm source destination p q b b' s s' : tm_ok tm → NoDup (links (tm_graph tm)).*1 → p ≠ q →
  p ∉ (links (tm_graph tm)).*1 → q ∉ (links (tm_graph tm)).*1 → attr_ok s → attr_ok s' →
  map_find p (freedLIDs tm) = Some b → map_find q (freedLIDs tm) = Some b' →
  Bitvector_to_string b = Ok s → Bitvector_to_string b' = Ok s' →
  ∃ tm' rs, restore_link source destination p q true (true, true) tm = Ok (true, tm', rs) ∧ tm_ok tm' ∧
    links (tm_graph tm') ≡ₚ (p, s) :: (q, s') :: links (tm_graph tm) ∧
    (∀ x, map_find x (freedLIDs tm') = if decide (x = p ∨ x = q) then None else map_find x (freedLIDs tm)) ∧
    reverse_node_index tm' = reverse_node_index tm ∧ same_vertices (tm_graph tm) (tm_graph tm') ∧ same_paths tm tm' ∧
    freedLIDs tm' = map_del q (map_del p (freedLIDs tm)).
Proof.
  intros T Hnd Hne Hp Hq Ha Ha' Efp Efq Es Es'. unfold restore_link. set (g := igraph_add_edges [p; q] (tm_graph tm)).
  rw Efp. cbn [found or_fault mbind res_mbind res_bind]. rw Es. cbn [mbind res_mbind res_bind].
  assert (links g ≡ₚ (p, []) :: (q, []) :: links (tm_graph tm)) as Hg.
  { unfold g. rw add_links. cbn. rw -Permutation_middle. constructor. by rw -Permutation_middle app_nil_r. }
  assert (NoDup (links g).*1) as Hndg.
  { rw Hg. cbn. constructor; [by intros [?|?]%elem_of_cons|]. by constructor. }
  destruct (eid_at g p [] Hndg) as (e & Ee & He); [rw Hg; by left|].
  destruct (restore_step (set_graph g tm) g p s e _ Hndg Hg Ee He) as (tm2 & -> & Hl2 & Hends2 & Hf2 & Hv2 & Hr2 & Hi2 & Hs2).
  cbn [mbind res_mbind res_bind fst snd negb]. rw Hf2 map_find_del decide_False //. cbn [freedLIDs set_graph]. rw Efq.
  cbn [found or_fault mbind res_mbind res_bind]. rw Es'. cbn [mbind res_mbind res_bind].
  destruct (eid_at g q [] Hndg) as (e' & Ee' & He'); [rw Hg; right; by left|]. cbn [tm_graph set_graph] in Hends2, Hv2.
  assert (NoDup (links (tm_graph tm2)).*1) as Hnd2 by by rw Hends2.
  assert (links (tm_graph tm2) !! e' = Some (q, [])) as He2.
  { assert ((links (tm_graph tm2)).*1 !! e' = Some q) as H by (by rw Hends2 list_lookup_fmap He').
    rw list_lookup_fmap in H. destruct (links (tm_graph tm2) !! e') as [[q' x]|] eqn:Ex; [|done]. injection H as ->.
    do 2 f_equal. apply (ends_unique (links (tm_graph tm2)) q); [done|by eapply list_elem_of_lookup_2|]. rw Hl2. right. by left. }
  assert (links (tm_graph tm2) ≡ₚ (q, []) :: (p, s) :: links (tm_graph tm)) as Hl2' by (rw Hl2; apply perm_swap).
  destruct (restore_step tm2 g q s' e' _ Hnd2 Hl2' Ee' He2) as (tm3 & -> & Hl3 & _ & Hf3 & Hv3 & Hr3 & Hi3 & Hs3).
  cbn [mbind res_mbind res_bind negb].
  assert (same_vertices (tm_graph tm) (tm_graph tm3)) as Hv.
  { eapply same_vertices_trans; [|exact Hv3]. eapply same_vertices_trans; [|exact Hv2]. apply add_vertices. }
  destruct (refreshed tm (tm_graph tm3) T Hv) with (tm' := tm3) as (l & r & E & T'); [|done|by rw Hr3 Hr2|by rw Hi3 Hi2|].
  { intros x. rw Hl3 !elem_of_cons. intros [->|[->|Hx]]; [done|done|]. by apply (attributes_links _ (to_attributes _ T)). }
  rw E. cbn [mbind res_mbind res_bind]. eexists _, _. split; [done|]. split; [done|]. cbn. split_and!.
  - rw Hl3. apply perm_swap.
  - intros x. rw Hf3 Hf2 !map_find_del. cbn [freedLIDs set_graph].
    destruct (decide (x = q)) as [->|]; [rw decide_True //; by right|]. destruct (decide (x = p)) as [->|]; [rw decide_True //; by left|].
    rw decide_False //. naive_solver.
  - by rw Hr3 Hr2.
  - exact Hv.
  - by apply (same_paths_trans _ tm2).
  - by rw Hf3 Hf2.
Qed.

Lemma NoDup_without ps (l : list ((nat * nat) * bytes)) : NoDup l.*1 → NoDup (without ps l).*1.
Proof.
  unfold without. induction l as [|x l IH]; [done|]. intros [Hx Hnd]%NoDup_cons. rw filter_cons.
  destruct (decide (x.1 ∉ ps)); [|by apply IH]. constructor; [|by apply IH].
  intros (y & Ey & Hy)%list_elem_of_fmap. apply Hx. apply list_elem_of_filter in Hy as [_ Hy]. rw Ey.
  by apply list_elem_of_fmap_2.
Qed.

(** The links, and the links without two of them. *)
Lemma without_two (l : list ((nat * nat) * bytes)) p q s s' : NoDup l.*1 → p ≠ q → (p, s) ∈ l → (q, s') ∈ l →
  l ≡ₚ (p, s) :: (q, s') :: without [p; q] l.
Proof.
  intros Hnd Hne Hp Hq. assert (∀ x, x ∈ without [p; q] l ↔ x.1 ≠ p ∧ x.1 ≠ q ∧ x ∈ l) as Hw.
  { intros x. unfold without. rw list_elem_of_filter. set_solver. }
  apply NoDup_Permutation; [by eapply NoDup_fmap_1| |].
  - constructor; [rw elem_of_cons Hw; cbn; naive_solver|]. constructor; [rw Hw; cbn; naive_solver|].
    apply NoDup_filter. by eapply NoDup_fmap_1.
  - intros [x y]. rw !elem_of_cons Hw. cbn. split.
    + intros Hx. destruct (decide (x = p)) as [->|]; [left; f_equal; by eapply ends_unique|].
      destruct (decide (x = q)) as [->|]; [right; left; f_equal; by eapply ends_unique|]. by right; right.
    + by intros [[= -> ->]|[[= -> ->]|(_ & _ & ?)]].
Qed.

(** [C27] A link that fails and returns, in both directions, with an agent
    that answers.  The failure takes the two edges out of the graph, so that
    no path uses them, and keeps their identifiers; a second report of it
    changes nothing; and the return puts the edges back with the identifiers
    they had, after which the graph has the links it had and nothing is kept.
    The tables agree with the graph in between and after. *)
Theorem link_fails_and_returns tm source destination u v s s'
    (T : tm_ok tm) (Hnd : NoDup (links (tm_graph tm)).*1) (Hne : u ≠ v)
    (Hs : map_find source (reverse_node_index tm) = Some u) (Hd : map_find destination (reverse_node_index tm) = Some v)
    (Hl : ((u, v), s) ∈ links (tm_graph tm)) (Hl' : ((v, u), s') ∈ links (tm_graph tm))
    (Hf : map_find (u, v) (freedLIDs tm) = None) (Hf' : map_find (v, u) (freedLIDs tm) = None) :
  ∃ tm1 rs1 tm2 rs2,
    updateGraph source destination true true (true, true) tm = Ok (true, tm1, rs1) ∧ tm_ok tm1 ∧
    links (tm_graph tm1) ≡ₚ without [(u, v); (v, u)] (links (tm_graph tm)) ∧
    (∀ e, ¬ edge (tm_graph tm1) u v e ∧ ¬ edge (tm_graph tm1) v u e) ∧
    (∀ answers, updateGraph source destination true true answers tm1 = Ok (false, tm1, [])) ∧
    updateGraph source destination true false (true, true) tm1 = Ok (true, tm2, rs2) ∧ tm_ok tm2 ∧
    links (tm_graph tm2) ≡ₚ links (tm_graph tm) ∧ ∀ x, map_find x (freedLIDs tm2) = map_find x (freedLIDs tm).
Proof.
  assert ((u, v) ≠ (v, u)) as Hpq by congruence.
  destruct (remove_both tm source destination _ _ s s' T Hnd Hl Hl' Hpq Hf Hf') as (tm1 & rs1 & b & b' & E1 & Ht & _ & _ & Eb & Eb' & _ & _ & Es & Es').
  pose proof (λ e, conj (taken_out_paths tm _ tm1 u v e Ht ltac:(by left)) (taken_out_paths tm _ tm1 v u e Ht ltac:(right; by left))) as Hno.
  destruct Ht as (T1 & Hl1 & _ & Hfr & Er1 & _).
  assert (∀ x, x ∈ (without [(u, v); (v, u)] (links (tm_graph tm))).*1 → x ∉ [(u, v); (v, u)]) as Hout.
  { intros x (l & -> & Hin)%list_elem_of_fmap. by apply list_elem_of_filter in Hin as [? _]. }
  assert (NoDup (links (tm_graph tm1)).*1) as Hnd1.
  { rw Hl1. by apply NoDup_without. }
  assert (igraph_get_eid (tm_graph tm1) u v = None) as Eno.
  { destruct (igraph_get_eid _ u v) as [e|] eqn:E; [|done]. apply (law_eid _ (laws _)) in E. by destruct (proj1 (Hno e)). }
  destruct (restore_both tm1 source destination (u, v) (v, u) b b' s s' T1 Hnd1 Hpq) as (tm2 & rs2 & E2 & T2 & Hl2 & Hf2 & _); try done.
  { rw Hl1. intros Hx%Hout. apply Hx. by left. }
  { rw Hl1. intros Hx%Hout. apply Hx. right. by left. }
  { by apply (attributes_links _ (to_attributes _ T) ((u, v), s)). }
  { by apply (attributes_links _ (to_attributes _ T) ((v, u), s')). }
  exists tm1, rs1, tm2, rs2. unfold updateGraph. rw Er1 Hs Hd. cbn [found or_fault mbind res_mbind res_bind]. rw Eno Eb Eb'.
  destruct (proj1 (eid_link _ (u, v) (laws (tm_graph tm)))) as [e Ee]; [by exists s|]. cbn [fst snd] in Ee. rw Ee.
  change (bool_decide (is_Some (Some e))) with true. change (bool_decide (is_Some (@None nat))) with false. cbn [andb negb].
  change (bool_decide (is_Some (Some b))) with true. change (bool_decide (is_Some (Some b'))) with true. cbn [andb].
  split_and!; try done.
  - rw Hl2 Hl1. symmetry. by apply without_two.
  - intros x. rw Hf2. destruct (decide _) as [[->| ->]|Hx]; [done|done|]. apply Hfr. set_solver.
Qed.

(** An agent that does not answer: the function says that the graph was
    updated, and it was not. *)
Lemma silent_agent_keeps_link tm source destination bidirectional u v s
    (T : tm_ok tm) (Hnd : NoDup (links (tm_graph tm)).*1)
    (Hs : map_find source (reverse_node_index tm) = Some u) (Hd : map_find destination (reverse_node_index tm) = Some v)
    (Hl : ((u, v), s) ∈ links (tm_graph tm)) ok :
  ∃ tm' rs, updateGraph source destination bidirectional true (false, ok) tm = Ok (true, tm', rs) ∧ tm_graph tm' = tm_graph tm.
Proof.
  unfold updateGraph. rw Hs Hd. cbn [found or_fault mbind res_mbind res_bind].
  destruct (proj1 (eid_link _ (u, v) (laws (tm_graph tm)))) as [e Ee]; [by exists s|]. cbn [fst snd] in Ee. rw Ee.
  rw bool_decide_eq_true_2; [|by eexists]. cbn [andb]. unfold remove_link.
  destruct (link_LID_ok tm (u, v) s (laws _) T Hnd Hl) as (b & -> & _ & Es). cbn [mbind res_mbind res_bind]. rw Es.
  by eexists _, _.
Qed.
End links.
