(* ===== verification/TopologyNet.v ===== *)
(** * A link of the small network

    The laws of editing for graphs as lists, and the change of a link of the
    network of TopologyIgraph.v. *)

From S2P Require Import Prelude Enums BitVector Packet Forwarder ForwarderProofs StdMap LibBitvector Topology TopologyPaths TopologyFID TopologyServe.
From S2P Require Import TopologyIgraph TopologyUpdate TopologyLinks.

Lemma list_links (G : lgraph) : links (IG := list_igraph) G = lg_links G.
Proof.
  unfold links. cbn. apply list_eq. intros i. rw list_lookup_fmap. destruct (lg_links G !! i) as [l|] eqn:E.
  - rw lookup_seq_lt; [|by eapply lookup_lt_Some]. cbn. rw E. by destruct l.
  - rw lookup_seq_ge //. by apply lookup_ge_None.
Qed.

#[export] Instance list_edits : IgraphEdits (IG := list_igraph).
Proof.
  split; intros.
  - by rw !list_links.
  - by rw !list_links.
  - rw !list_links in H |- *. cbn. apply list_eq. intros i. destruct (decide (i = e)) as [->|Hne].
    + rw list_lookup_insert_eq; [|by eapply lookup_lt_Some]. by rw list_lookup_alter decide_True // H.
    + by rw list_lookup_alter_ne // list_lookup_insert_ne.
  - done.
  - done.
  - done.
Qed.

Section instances.
Import Net.

(** The link between nodes 1 and 2. *)
Lemma link_fails_and_returns_witness : ∃ tm1 rs1 tm2 rs2,
  updateGraph (name 1) (name 2) true true (true, true) start = Ok (true, tm1, rs1) ∧
  (∀ e, ¬ edge (tm_graph tm1) 0 1 e ∧ ¬ edge (tm_graph tm1) 1 0 e) ∧
  updateGraph (name 1) (name 2) true false (true, true) tm1 = Ok (true, tm2, rs2) ∧
  links (tm_graph tm2) ≡ₚ links (tm_graph start).
Proof.
  destruct net_start_ok as (T & G & _).
  assert (NoDup (links (tm_graph start)).*1) as Hnd.
  { rw G list_links. apply (bool_decide_eq_true_1 _). vm_compute. reflexivity. }
  assert (((0, 1)%nat, lid 10) ∈ links (tm_graph start)) as Hl by (rw G list_links; left).
  assert (((1, 0)%nat, lid 11) ∈ links (tm_graph start)) as Hl' by (rw G list_links; right; left).
  assert (map_find (name 1) (reverse_node_index start) = Some 0%nat) as H1 by (vm_compute; reflexivity).
  assert (map_find (name 2) (reverse_node_index start) = Some 1%nat) as H2 by (vm_compute; reflexivity).
  assert (map_find (0, 1)%nat (freedLIDs start) = None ∧ map_find (1, 0)%nat (freedLIDs start) = None) as [Hf Hf'] by (vm_compute; split; reflexivity).
  assert (∀ g : lgraph, igraph_laws (IG := list_igraph) g) as Hlaws by apply list_igraph_laws.
  destruct (link_fails_and_returns (IG := list_igraph) Hlaws start (name 1) (name 2) 0 1 (lid 10) (lid 11) T Hnd ltac:(lia) H1 H2 Hl Hl' Hf Hf')
    as (tm1 & rs1 & tm2 & rs2 & E1 & _ & _ & Hno & _ & E2 & _ & Hl2 & _).
  exists tm1, rs1, tm2, rs2. exact (conj E1 (conj Hno (conj E2 Hl2))).
Defined.

(** What the agent is told about the link is wrong: the first loop looks at
    the first 32 of 256 characters, in which no bit of this identifier is; the
    second one finds it; and the test of the last loop holds for '0'. *)
Example link_reports :
  (λ r, match r with Ok (_, _, rs) => rs | Fault _ => [] end) (updateGraph (name 1) (name 2) true true (true, true) start) =
    [mkLR None 2 1 false; mkLR (Some 244) 1 2 false] ∧
  (λ r, match r with Ok (_, tm1, _) => (λ r, match r with Ok (_, _, rs) => rs | Fault _ => [] end)
      (updateGraph (name 1) (name 2) true false (true, true) tm1) | Fault _ => [] end)
    (updateGraph (name 1) (name 2) true true (true, true) start) = [mkLR None 2 1 true; mkLR (Some 0) 1 2 true].
Proof. split; vm_compute; reflexivity. Qed.
End instances.
