(* ===== verification/TopologyManager.v ===== *)
(** * The server of the topology manager

    TopologyManager/tm.cpp: the requests of the rendezvous elements for paths,
    multicast and unicast, and the reports about links, with what the server
    publishes for each.

    A request is a pointer and a length, and some reads go past the length:
    [beyond] is the memory after the request.  The QoS extension is not
    modelled: its choice of paths is an argument, and what is handed to it is
    an event.  The answers of the monitoring agent are an argument too. *)

From S2P Require Import Prelude Enums BitVector Packet StdMap RvMessages ClientApi LibBitvector Topology TopologyUpdate.

(** ** Identifiers *)

(** The identifier of 15 digits F and the digit [c]. *)
Definition hex_id (c : Z) : bytes := hex_to_chararray (replicate (PURSUIT_ID_LEN * 2 - 1) 70 ++ [c]).
Definition req_bin_id : bytes := hex_id 69.
Definition uc_req_bin_id : bytes := hex_id 68.
Definition resp_bin_prefix_id : bytes := hex_id 68.
Definition resl_bin_id : bytes := hex_id 48.
Definition resl_resp_bin_id : bytes := hex_id 49.
Definition resl_req_bin_id : bytes := hex_id 50.
Definition uc_resl_bin_id : bytes := hex_id 51.
Definition lsn_bin_id : bytes := replicate (PURSUIT_ID_LEN - 1) SUFFIX_NOTIFICATION ++ [LINK_STATE_NOTIFICATION].
Definition lsm_bin_scope : bytes := hex_id 66.
Definition pathMgmt_bin_id : bytes := hex_id 57.
Definition pathMgmt_bin_full_id : bytes := pathMgmt_bin_id ++ pathMgmt_bin_id.
Definition UpdatePathId : bytes := resl_bin_id.
Definition UpdateUnicastPathId : bytes := resl_bin_id ++ uc_resl_bin_id.
Definition DiscoverFailureId : bytes := resl_req_bin_id.
Definition UnicastDeliveryId : bytes := req_bin_id ++ uc_req_bin_id.
Definition RecoverUnicastDeliveryId : bytes := resl_resp_bin_id ++ uc_resl_bin_id.

Definition QoS_METADATA : Z := 108.

(** [strtoul(s, NULL, 16)] of a string of hexadecimal digits. *)
Fixpoint strtoul_hex (n : Z) (s : bytes) : Z :=
  match s with
  | c :: s => match hex_value c with Some d => strtoul_hex (n * 16 + d) s | None => n end
  | [] => n
  end.

Definition map_root_scope (s : Z) : Z :=
  if s <? 65536 then s
  else if s =? 0xFFFFFFFFFFFFFFFA then NAMESPACE_PATH_MANAGEMENT
  else if s =? 0xFFFFFFFFFFFFFFFB then NAMESPACE_LINK_STATE
  else if s =? 0xFFFFFFFFFFFFFFFD then NAMESPACE_TM_APP
  else if s =? 0xFFFFFFFFFFFFFFFE then NAMESPACE_RV_TM
  else if s =? 0xFFFFFFFFFFFFFFFF then NAMESPACE_APP_RV
  else NAMESPACE_UNKNOWN.

Definition root_scope_of (ids_str : bytes) : Z := map_root_scope (strtoul_hex 0 (take 16 (chararray_to_hex ids_str))).

(** ** What the server does *)

(** [Publish]: [publish_data] with the strategy IMPLICIT_RENDEZVOUS and [FID];
    [PathCalculations] and [LinkState] are for the monitoring agent, the other
    two for the QoS extension. *)
Inductive tm_event :=
  | Publish (id FID : bytes) (data : packet)
  | PathCalculations (root_scope n : Z)
  | LinkState (r : link_report)
  | IIMetaData (request : bytes)
  | LSMUpdate (data publisher : bytes).

Section server.
Context `{IG : Igraph} `{HP : Heap}.

(** The counters are [int]s, kept as numbers of 32 bits. *)
Record tm_server := mkSrv { srv_tm : tmgraph; moly_tm_requests : gmap Z Z; happened : list tm_event }.

Definition T (A : Type) : Type := M tm_server A.
#[global] Instance T_ret : MRet T := @M_ret tm_server.
#[global] Instance T_bind : MBind T := @M_bind tm_server.

Definition set_tm tm s := mkSrv tm (moly_tm_requests s) (happened s).
Definition happens (l : list tm_event) s := mkSrv (srv_tm s) (moly_tm_requests s) (happened s ++ l).
Definition publish_data (id FID : bytes) (data : packet) : T () := modify (happens [Publish id FID data]).

Definition on_tm {A} (f : tmgraph → res A) : T A := tm ← gets srv_tm; from_res (f tm).
Definition upd_tm (f : tmgraph → res tmgraph) : T () := tm ← on_tm f; modify (set_tm tm).
(** [*tm_igraph->getRVFID(nodeID)] and its like *)
Definition deref (get : tmgraph → res (option BABitvector)) : T BABitvector := F ← on_tm get; lift_opt NullDeref F.

(** A publication that the node [nodeID] gets by the path to it. *)
Definition publish_to (nodeID id : bytes) (data : packet) : T () :=
  F ← deref (getTM_to_nodeFID nodeID); FID ← from_res (FID_read F); publish_data id FID data.
Definition respond (nodeID : bytes) (data : packet) : T () := publish_to nodeID (resp_bin_prefix_id ++ nodeID) data.

Definition report_calculation (ids_str : bytes) : T () :=
  let root_scope := root_scope_of ids_str in
  n ← gets (λ s, u32 (default 0 (moly_tm_requests s !! root_scope) + 1));
  modify (λ s, mkSrv (srv_tm s) (<[root_scope := n]> (moly_tm_requests s)) (happened s ++ [PathCalculations root_scope n])).

(** ** Requests for paths *)

(** [n] node identifiers, into a set. *)
Fixpoint read_set (m : bytes) (off n : nat) (acc : list bytes) : res (list bytes) :=
  match n with
  | O => Ok acc
  | S n => nodeID ← data_read m off PURSUIT_ID_LEN; read_set m (off + PURSUIT_ID_LEN) n (set_add nodeID acc)
  end.

(** [memcpy(_, request + ids_index, request_len - ids_index)] *)
Definition rest_of (m : bytes) (request_len ids_index : nat) : res bytes :=
  if (request_len <? ids_index)%nat then Fault OutOfBounds else data_read m ids_index (request_len - ids_index).

(** What is collected for the resiliency manager. *)
Record resiliency := mkRs { no_pathvectors : Z; pathvectors_Field : bytes; no_alternatives : Z; alternatives : bytes }.

Definition add_path (r : resiliency) (path : bytes) : resiliency :=
  mkRs (u8 (no_pathvectors r + 1)) (pathvectors_Field r ++ [u8 (zlen path)] ++ path) (no_alternatives r) (alternatives r).
Definition add_alternative (r : resiliency) (nodeID : bytes) : resiliency :=
  mkRs (no_pathvectors r) (pathvectors_Field r) (u8 (no_alternatives r + 1)) (alternatives r ++ nodeID).

(** The answer for one entry of the result. *)
Definition answer_publisher (rs : bool) (m : bytes) (request_type : Z) (request_len ids_index : nat)
    (pathvectors : list (bytes * list bytes)) (r : resiliency) (e : bytes * option BABitvector) : T resiliency :=
  rest ← from_res (rest_of m request_len ids_index);
  match e.2 with
  | None =>
      response ← from_res (build (Z.of_nat request_len - (Z.of_nat ids_index - 1)) [[STOP_PUBLISH]; rest]);
      respond e.1 response;;
      mret (if rs then add_alternative r e.1 else r)
  | Some F =>
      let response_type := if request_type =? UPDATE_FID then UPDATE_FID else START_PUBLISH in
      FID ← from_res (FID_read F);
      response ← from_res (build (Z.of_nat request_len - (Z.of_nat ids_index - 1) + Z.of_nat FID_LEN) [[response_type]; rest; FID]);
      respond e.1 response;;
      if rs then paths ← lift_opt NullDeref (map_find e.1 pathvectors); mret (foldl add_path r paths) else mret r
  end.

(** UPDATE_DELIVERY for the resiliency manager, field after field; the first
    [memcpy] of [ids] may be overwritten by the next ones. *)
Definition update_delivery (no_ids IDLen : Z) (ids : bytes) (r : resiliency) : T () :=
  let n := (Z.to_nat IDLen * PURSUIT_ID_LEN)%nat in
  let k := if no_pathvectors r >? 0 then length (pathvectors_Field r) else 0%nat in
  let size := 3 + no_ids * IDLen * Z.of_nat PURSUIT_ID_LEN + 1 + Z.of_nat k + 1 + no_alternatives r * Z.of_nat NODEID_LEN in
  response ← from_res (
    p ← packet_put_all 0 [[UPDATE_DELIVERY]; [no_ids]; [IDLen]; ids] (packet_make size);
    p ← packet_put (3 + n) [no_pathvectors r] p;
    paths ← c_str_read (pathvectors_Field r) k;
    p ← packet_put (4 + n) paths p;
    p ← packet_put (4 + n + k) [no_alternatives r] p;
    alts ← c_str_read (alternatives r) (Z.to_nat (no_alternatives r) * NODEID_LEN);
    packet_put (5 + n + k) alts p);
  RM ← gets (λ s, RMnodeID (srv_tm s));
  publish_to RM (UpdatePathId ++ RM) response.

(** The memory after a request, and the QoS extension, [None] when it has no
    weights. *)
Context (beyond : bytes).
Context (qos : option (bytes → list bytes → list bytes → res (list (bytes * option BABitvector) * list (bytes * list bytes)))).

Definition find_paths (ids_str : bytes) (publishers subscribers : list bytes) :
    T (list (bytes * option BABitvector) * list (bytes * list bytes)) :=
  q ← on_tm (getExten QOS);
  match qos with
  | Some weighted => if q : bool then from_res (weighted ids_str publishers subscribers)
                     else on_tm (calculateFIDs publishers subscribers [] [])
  | None => on_tm (calculateFIDs publishers subscribers [] [])
  end.

(** MATCH_PUB_SUBS and UPDATE_FID.  [ids] gets the bytes from the first
    identifier on, [ids_size] of them, two of which are past the request. *)
Definition match_multicast (request : bytes) (request_type : Z) : T () :=
  let m := request ++ beyond in
  let request_len := length request in
  no_publishers ← from_res (data_byte m 2);
  let np := Z.to_nat no_publishers in
  publishers ← from_res (read_set m 3 np []);
  let off := (3 + np * PURSUIT_ID_LEN)%nat in
  no_subscribers ← from_res (data_byte m off);
  let ns := Z.to_nat no_subscribers in
  subscribers ← from_res (read_set m (off + 1) ns []);
  let ids_index := (off + 1 + ns * PURSUIT_ID_LEN)%nat in
  no_ids ← from_res (data_byte m ids_index);
  IDLen ← from_res (data_byte m (ids_index + 1));
  ids ← from_res (if (request_len <? ids_index)%nat then Fault OutOfBounds
                  else data_read m (ids_index + 2) (request_len - ids_index));
  ids_str ← from_res (data_read ids 0 (Z.to_nat IDLen * PURSUIT_ID_LEN));
  report_calculation ids_str;;
  '(result, pathvectors) ← find_paths ids_str publishers subscribers;
  rs ← on_tm (getExten RS);
  r ← mfoldl (answer_publisher rs m request_type request_len ids_index pathvectors) (mkRs 0 [] 0 []) result;
  if rs : bool then update_delivery no_ids IDLen ids r else mret ().

(** A scope that was published or not: the same bytes for each subscriber,
    in a buffer with room for an identifier that is not written. *)
Definition notify_scope (request : bytes) (request_type : Z) : T () :=
  let m := request ++ beyond in
  no_subscribers ← from_res (data_byte m 2);
  let ns := Z.to_nat no_subscribers in
  mfor (seq 0 ns) (λ i,
    nodeID ← from_res (data_read m (3 + i * PURSUIT_ID_LEN) PURSUIT_ID_LEN);
    let ids_index := (3 + ns * PURSUIT_ID_LEN)%nat in
    rest ← from_res (rest_of m (length request) ids_index);
    response ← from_res (build (zlen request - (Z.of_nat ids_index - 1) + Z.of_nat FID_LEN) [[request_type]; rest]);
    respond nodeID response).

Definition handleMulticastPathRequest (request : bytes) : T () :=
  let m := request ++ beyond in
  request_type ← from_res (data_byte m 0);
  _ ← from_res (data_byte m 1);
  if request_type =? QoS_METADATA then modify (happens [IIMetaData request])
  else if (request_type =? MATCH_PUB_SUBS) || (request_type =? UPDATE_FID) then match_multicast request request_type
  else if (request_type =? SCOPE_PUBLISHED) || (request_type =? SCOPE_UNPUBLISHED) then notify_scope request request_type
  else mret ().

(** ** Requests for unicast paths *)

(** The loop ends at the first entry with a path; the entries before it are
    the alternatives. *)
Fixpoint first_path (result : list (bytes * option BABitvector)) (r : resiliency) : option (bytes * BABitvector) * resiliency :=
  match result with
  | [] => (None, r)
  | (_, Some F) as e :: _ => (Some (e.1, F), r)
  | (nodeID, None) :: result => first_path result (add_alternative r nodeID)
  end.

(** UPDATE_DELIVERY of one path. *)
Definition update_unicast_delivery (no_ids IDLen : Z) (ids publisher path : bytes) (r : resiliency) : T () :=
  let path_len := u8 (zlen path) in
  let size := 3 + IDLen * Z.of_nat PURSUIT_ID_LEN + Z.of_nat NODEID_LEN + 2 + path_len + 1 + no_alternatives r * Z.of_nat NODEID_LEN in
  node ← from_res (c_str_read publisher NODEID_LEN);
  path ← from_res (c_str_read path (Z.to_nat path_len));
  alts ← from_res (c_str_read (alternatives r) (Z.to_nat (no_alternatives r) * NODEID_LEN));
  response ← from_res (build size [[UPDATE_DELIVERY]; [no_ids]; [IDLen]; ids; node; [1]; [path_len]; path; [no_alternatives r]; alts]);
  RM ← gets (λ s, RMnodeID (srv_tm s));
  publish_to RM (UpdateUnicastPathId ++ RM) response.

Definition match_unicast (request : bytes) (request_type : Z) : T () :=
  let m := request ++ beyond in
  let request_len := length request in
  no_publishers ← from_res (data_byte m 2);
  publisher ← from_res (data_read m 3 PURSUIT_ID_LEN);
  no_subscribers ← from_res (data_byte m (3 + NODEID_LEN));
  let ns := Z.to_nat no_subscribers in
  subscribers ← from_res (read_set m (4 + NODEID_LEN) ns []);
  let offset := (4 + NODEID_LEN + ns * NODEID_LEN)%nat in
  no_ids ← from_res (data_byte m offset);
  IDLen ← from_res (data_byte m (offset + 1));
  ids ← from_res (data_read m (offset + 2) (Z.to_nat IDLen * PURSUIT_ID_LEN));
  _ ← lift_opt OutOfBounds (if zlen ids <=? u32 (Z.of_nat request_len - Z.of_nat offset) then Some () else None);
  report_calculation ids;;
  '(result, paths) ← on_tm (UcalculateFID publisher subscribers [] []);
  rs ← on_tm (getExten RS);
  let '(found_path, r) := first_path result (mkRs 0 [] 0 []) in
  match found_path with
  | Some (subscriber, F) =>
      let response_type := if request_type =? MATCH_PUB_SUBS then START_PUBLISH else UPDATE_FID in
      let ids_index := (4 + Z.to_nat no_publishers * PURSUIT_ID_LEN + ns * PURSUIT_ID_LEN)%nat in
      rest ← from_res (rest_of m request_len ids_index);
      FID ← from_res (FID_read F);
      response ← from_res (build (Z.of_nat request_len - (Z.of_nat ids_index - 1) + Z.of_nat FID_LEN) [[response_type]; rest; FID]);
      respond publisher response;;
      let path := default [] (map_find subscriber paths) in
      if rs && (0 <? u8 (zlen path)) then update_unicast_delivery no_ids IDLen ids publisher path r else mret ()
  | None => mret ()
  end.

(** The paths from a publisher to nodes that published for it alone. *)
Definition paths_to_isubscribers (request : bytes) : T () :=
  let m := request ++ beyond in
  _ ← from_res (data_byte m 1);
  publisher ← from_res (data_read m 2 PURSUIT_ID_LEN);
  no_subscribers ← from_res (data_byte m (2 + NODEID_LEN));
  let ns := Z.to_nat no_subscribers in
  nodes ← mfoldl (λ l i,
      nodeID ← from_res (data_read m (3 + NODEID_LEN + i * NODEID_LEN) NODEID_LEN);
      F ← on_tm (calculateFID publisher nodeID);
      FID ← from_res (FID_read F);
      mret (l ++ [nodeID; FID])) [] (seq 0 ns);
  response ← from_res (build (2 + no_subscribers * Z.of_nat NODEID_LEN + no_subscribers * Z.of_nat FID_LEN)
      ([UPDATE_FID_iSUB] :: [no_subscribers] :: nodes));
  respond publisher response.

(** [offset += no_subscribers] instead of its size. *)
Definition notify_unicast_scope (request : bytes) (request_type : Z) : T () :=
  let m := request ++ beyond in
  no_subscribers ← from_res (data_byte m 2);
  let ns := Z.to_nat no_subscribers in
  let offset := (2 + ns)%nat in
  mfor (seq 0 ns) (λ i,
    nodeID ← from_res (data_read m (offset + i * PURSUIT_ID_LEN) PURSUIT_ID_LEN);
    rest ← from_res (rest_of m (length request) (offset + ns * PURSUIT_ID_LEN));
    response ← from_res (build (zlen request - (2 + no_subscribers * Z.of_nat PURSUIT_ID_LEN) + Z.of_nat FID_LEN) [[request_type]; rest]);
    respond nodeID response).

Definition handleUnicastPathRequest (request : bytes) : T () :=
  let m := request ++ beyond in
  request_type ← from_res (data_byte m 0);
  _ ← from_res (data_byte m 1);
  if (request_type =? MATCH_PUB_SUBS) || (request_type =? UPDATE_FID) then match_unicast request request_type
  else if request_type =? MATCH_PUB_iSUBS then paths_to_isubscribers request
  else if (request_type =? SCOPE_PUBLISHED) || (request_type =? SCOPE_UNPUBLISHED) then notify_unicast_scope request request_type
  else mret ().

(** ** Reports about links

    [uc_notification]: the identifiers of the lost links go to each node. *)
Context (uc_notification : bool) (answers : bool * bool).

(** [AND_CMP = lid & FID; AND_CMP == lid] *)
Definition uses_link (lid FID : BABitvector) : res bool :=
  c ← Bitvector_and lid FID;
  Ok (BABitvector_eqb (BABitvector_copy (BABitvector_make (Z.of_nat FID_BITS)) c) lid).

(** The entry at a position of the iterator over [TM_to_nodeFID]. *)
Definition at_iterator (i : nat) : T (bytes * BABitvector) :=
  tm ← gets srv_tm; e ← lift_opt NullDeref (TM_to_nodeFID tm !! i); F ← lift_opt NullDeref e.2; mret (e.1, F).

(** A lost link and the path to the node at [i]; the result is the node. *)
Definition check_path (i : nat) (notify : bool) (_ : bytes) (link : (nat * nat) * BABitvector) : T bytes :=
  '(nodeID, F) ← at_iterator i;
  match' ← from_res (uses_link link.2 F);
  (if match' : bool then
     tm ← gets srv_tm; F ← on_tm (calculateFID (tm_nodeID tm) nodeID); upd_tm (setTM_to_nodeFID nodeID F)
   else mret ());;
  (if notify then LID ← from_res (FID_read link.2); publish_to nodeID pathMgmt_bin_full_id (Some <$> LID) else mret ());;
  mret nodeID.

(** A new identifier for a node, which is told. *)
Definition send_update (type : Z) (nodeID : bytes) (F : BABitvector) : T () :=
  FID ← from_res (FID_read F); respond nodeID (Some <$> type :: FID).

(** A lost link and the paths from the node to the rendezvous node and to the
    topology manager. *)
Definition check_RVTM (nodeID : bytes) (link : (nat * nat) * BABitvector) : T () :=
  F ← deref (getRVFID nodeID);
  match' ← from_res (uses_link link.2 F);
  (if match' : bool then
     tm ← gets srv_tm; F ← on_tm (calculateFID nodeID (RVnodeID tm));
     upd_tm (setRVFID nodeID F);; send_update UPDATE_RVFID nodeID F
   else mret ());;
  F ← deref (getTMFID nodeID);
  match' ← from_res (uses_link link.2 F);
  (if match' : bool then
     tm ← gets srv_tm; F ← on_tm (calculateFID nodeID (tm_nodeID tm));
     upd_tm (setTMFID nodeID F);; send_update UPDATE_TMFID nodeID F
   else mret ()).

Definition AllzeroFID : BABitvector := BABitvector_make (Z.of_nat FID_BITS).

(** One node after a failure; [nodeID] is the variable of the last turn. *)
Definition check_node (notify : bool) (links : list ((nat * nat) * BABitvector)) (acc : bytes * BABitvector) (i : nat) :
    T (bytes * BABitvector) :=
  nodeID ← mfoldl (check_path i notify) acc.1 links;
  F ← deref (getTM_to_nodeFID nodeID);
  (if BABitvector_zero F then upd_tm (setRVFID nodeID AllzeroFID);; upd_tm (setTMFID nodeID AllzeroFID)
   else mfor links (check_RVTM nodeID));;
  F ← deref (getTM_to_nodeFID nodeID);
  TM_to_all_FID ← from_res (or_into acc.2 F);
  mret (nodeID, TM_to_all_FID).

Definition no_nodes : T nat := gets (λ s, length (reverse_node_index (srv_tm s))).

(** After a failure: all nodes; the result is the union of their paths. *)
Definition link_failed (notify : bool) : T BABitvector :=
  n ← no_nodes;
  links ← gets (λ s, freedLIDs (srv_tm s));
  '(_, TM_to_all_FID) ← mfoldl (check_node notify links) ([], AllzeroFID) (seq 0 n);
  mret TM_to_all_FID.

(** A node that has no path and now may have one. *)
Definition reconnect (i : nat) : T () :=
  '(nodeID, F) ← at_iterator i;
  if negb (BABitvector_zero F) then mret () else
  tm ← gets srv_tm;
  F ← on_tm (calculateFID (tm_nodeID tm) nodeID);
  if BABitvector_zero F then mret () else
  upd_tm (setTM_to_nodeFID nodeID F);;
  F ← on_tm (calculateFID nodeID (RVnodeID tm));
  upd_tm (setRVFID nodeID F);; send_update UPDATE_RVFID nodeID F;;
  F ← on_tm (calculateFID nodeID (tm_nodeID tm));
  upd_tm (setTMFID nodeID F);; send_update UPDATE_TMFID nodeID F.

Definition link_restored : T () := n ← no_nodes; mfor (seq 0 n) reconnect.

(** [string(request, off, n)]: the characters up to a null, and of these at
    most [n] from [off] on. *)
Fixpoint c_string (m : bytes) : res bytes :=
  match m with
  | [] => Fault OutOfBounds
  | c :: m => if c =? 0 then Ok [] else s ← c_string m; Ok (c :: s)
  end.
Definition c_substr (m : bytes) (off n : nat) : res bytes :=
  s ← c_string m; if (length s <? off)%nat then Fault OutOfRange else Ok (take n (drop off s)).

(** The report: whether the graph was updated, whether a link is removed, its
    [net_type] and the node at its other end. *)
Definition read_report (request request_publisher : bytes) : T (bool * bool * Z * bytes) :=
  let m := request ++ beyond in
  lsn_type ← from_res (data_byte m 0);
  net_type ← from_res (data_byte m 1);
  affected_node ← from_res (c_substr m 2 NODEID_LEN);
  let remove := lsn_type =? REMOVE_LINK in
  '(update, tm, reports) ← on_tm (updateGraph affected_node request_publisher (negb (net_type =? 0)) remove answers);
  modify (set_tm tm);; modify (happens (LinkState <$> reports));;
  mret (update, remove, net_type, affected_node).

(** With path management the nodes are told which links are lost. *)
Definition handleLinkStateNotificationPM (request request_publisher : bytes) : T () :=
  '(update, remove, _, _) ← read_report request request_publisher;
  if negb update then mret () else
  if remove : bool then
    TM_to_all_FID ← link_failed uc_notification;
    links ← gets (λ s, freedLIDs (srv_tm s));
    if uc_notification then mret () else
    FID ← from_res (FID_read TM_to_all_FID);
    mfor links (λ link, LID ← from_res (FID_read link.2); publish_data pathMgmt_bin_full_id FID (Some <$> LID))
  else link_restored.

(** With resiliency the resiliency manager is asked for what is lost. *)
Definition handleLinkStateNotificationRM (request request_publisher : bytes) : T () :=
  '(update, remove, net_type, affected_node) ← read_report request request_publisher;
  if negb update then mret () else
  if remove : bool then
    _ ← link_failed false;
    publisher ← from_res (c_str_read request_publisher NODEID_LEN);
    affected ← from_res (c_str_read affected_node NODEID_LEN);
    RM ← gets (λ s, RMnodeID (srv_tm s));
    publish_to RM (DiscoverFailureId ++ RM) (Some <$> [DISCOVER_FAILURE; net_type] ++ publisher ++ affected)
  else link_restored.

(** ** Events *)

(** One turn of the loop; [false] if it ends, which an event that could not be
    received makes it do. *)
Definition event_listener (ev : Event) : T bool :=
  if ev_type ev =? UNDEF_EVENT then mret false else
  if negb (ev_type ev =? PUBLISHED_DATA) then mret true else
  data ← lift_opt NullDeref (ev_data ev);
  _ ← lift_opt OutOfRange (if (length (ev_id ev) <? PURSUIT_ID_LEN)%nat then None else Some ());
  let publisher := drop (length (ev_id ev) - PURSUIT_ID_LEN) (ev_id ev) in
  let prefix_id := take (length (ev_id ev) - PURSUIT_ID_LEN) (ev_id ev) in
  pm ← on_tm (getExten PM); rs ← on_tm (getExten RS); q ← on_tm (getExten QOS);
  (if bool_decide (prefix_id = lsn_bin_id) && (pm : bool) then handleLinkStateNotificationPM data publisher
  else if bool_decide (prefix_id = lsn_bin_id) && (rs : bool) then handleLinkStateNotificationRM data publisher
  else if bool_decide (prefix_id = lsm_bin_scope) && (q : bool) then modify (happens [LSMUpdate data publisher])
  else if bool_decide (prefix_id = UnicastDeliveryId) || bool_decide (prefix_id = RecoverUnicastDeliveryId)
  then handleUnicastPathRequest data
  else handleMulticastPathRequest data);;
  mret true.
End server.

(** What [main] asks for, in order. *)
Definition main_requests : list (option datagram) := [
  Blackadder_subscribe_scope req_bin_id [] IMPLICIT_RENDEZVOUS None;
  Blackadder_subscribe_scope uc_req_bin_id req_bin_id IMPLICIT_RENDEZVOUS None;
  Blackadder_subscribe_scope lsn_bin_id [] IMPLICIT_RENDEZVOUS None;
  Blackadder_subscribe_scope resl_resp_bin_id [] IMPLICIT_RENDEZVOUS None;
  Blackadder_subscribe_scope uc_resl_bin_id resl_resp_bin_id IMPLICIT_RENDEZVOUS None;
  Blackadder_publish_scope pathMgmt_bin_id [] IMPLICIT_RENDEZVOUS None;
  Blackadder_publish_info pathMgmt_bin_id pathMgmt_bin_id IMPLICIT_RENDEZVOUS None;
  Blackadder_subscribe_scope lsm_bin_scope [] DOMAIN_LOCAL None].
