(* ===== verification/TopologyRequests.v ===== *)
(** * What the topology manager answers

    A request of a rendezvous element for paths, read from its bytes: one
    answer for each publisher, sent over the path to it. *)

From S2P Require Import Prelude Enums BitVector Packet Forwarder ForwarderProofs StdMap RvMessages ClientApi LibBitvector.
From S2P Require Import Topology TopologyPaths TopologyFID TopologyServe TopologyUpdate TopologyManager.

(** The request, after the header for the topology manager. *)
Definition paths_request (request_type strategy : Z) (ps ss IDs : list bytes) : bytes :=
  [request_type; strategy] ++ counted ps ++ counted ss ++ counted (id_field <$> IDs).

(** The message for a publisher with and without a path. *)
Definition answer_bytes (request_type : Z) (IDs : list bytes) (o : option BABitvector) : bytes :=
  match o with
  | Some F => (if request_type =? UPDATE_FID then UPDATE_FID else START_PUBLISH) :: counted (id_field <$> IDs) ++ bytes_of_FID F
  | None => STOP_PUBLISH :: counted (id_field <$> IDs)
  end.

Section requests.
Context `{IG : Igraph} `{HP : Heap}.
Context (beyond : bytes).
Implicit Types (tm : tmgraph) (s : tm_server).

Lemma from_res_bind {A B} (a : A) (f : A → T B) s : (from_res (Ok a) ≫= f) s = f a s.
Proof. done. Qed.
Lemma on_tm_bind {A B} (r : tmgraph → res A) a (f : A → T B) s : r (srv_tm s) = Ok a → (on_tm r ≫= f) s = f a s.
Proof. intros E. unfold on_tm, from_res, mbind, T_bind, M_bind, gets. by rw E. Qed.

(** The path from the manager to a node. *)
Definition path_to tm (n : bytes) : BABitvector := default BABitvector_empty (mjoin (map_find n (TM_to_nodeFID tm))).
Definition holds_path tm (n : bytes) : Prop := ∃ F, map_find n (TM_to_nodeFID tm) = Some (Some F) ∧ FID_ok F.

Definition publication tm (n id : bytes) (data : bytes) : tm_event := Publish id (bytes_of_FID (path_to tm n)) (Some <$> data).

Lemma FID_ok_read F : FID_ok F → FID_read F = Ok (bytes_of_FID F).
Proof. intros [W M]. by apply FID_read_ok. Qed.

Lemma bytes_of_words_take n l : bytes_of_words (take n l) = take (4 * n) (bytes_of_words l).
Proof.
  revert n. induction l as [|w l IH]; intros [|n]; try done.
  change (bytes_of_words (w :: l)) with (bytes_of_word w ++ bytes_of_words l).
  change (bytes_of_words (take (S n) (w :: l))) with (bytes_of_word w ++ bytes_of_words (take n l)).
  replace (4 * S n)%nat with (length (bytes_of_word w) + 4 * n)%nat by (rw bytes_of_word_length; lia).
  by rw take_app_add' // IH.
Qed.

(** Vectors with the same bits are sent as the same bytes. *)
Lemma same_bits_bytes F G : FID_ok F → has_bits G (bv_bit F) → bytes_of_FID G = bytes_of_FID F.
Proof.
  intros [W M] [[W' M'] B]. unfold bytes_of_FID. change FID_LEN with (4 * 8)%nat.
  rw -!bytes_of_words_take. f_equal.
  apply bv_words_eq_bits; [done|done|congruence|rw M'; vm_compute; lia|rw M'; vm_compute; lia|].
  intros i Hi. apply B. by rw FID_ok_len in Hi.
Qed.

Lemma FID_ok_length F : FID_ok F → zlen (bytes_of_FID F) = Z.of_nat FID_LEN.
Proof. intros O. apply FID_ok_read in O. apply FID_read_length in O. unfold zlen. by rw O. Qed.

Lemma publish_to_run s n id data : holds_path (srv_tm s) n →
  publish_to n id (Some <$> data) s = Ok ((), happens [publication (srv_tm s) n id data] s).
Proof.
  intros (F & E & OF). unfold publish_to, deref, publication, path_to. rw E. cbn [mjoin option_join default].
  unfold on_tm, getTM_to_nodeFID, gets, from_res, mbind, T_bind, M_bind, lift_opt. rw E. cbn. by rw FID_ok_read.
Qed.

(** ** The paths of the manager *)

(** [F] is the identifier of the path from [n] to [d]. *)
Definition leads tm (F : BABitvector) (n d : bytes) : Prop :=
  has_bits F (λ i, negb (bool_decide (path_of tm n d = [])) && path_bits tm n d i).

Lemma set_FIDs_ok tm rv t f : tm_ok tm → tm_ok (set_FIDs rv t f tm).
Proof. by intros []. Qed.

(** The tables of the paths of the nodes [nodes]: to the rendezvous node, to
    the manager, and from it. *)
Definition paths_known tm (nodes : list bytes) (rv t f : list (bytes * option BABitvector)) : Prop :=
  ∀ n, n ∈ nodes → (∃ F, map_find n rv = Some (Some F) ∧ leads tm F n (RVnodeID tm)) ∧
    (∃ F, map_find n t = Some (Some F) ∧ leads tm F n (tm_nodeID tm)) ∧
    (∃ F, map_find n f = Some (Some F) ∧ leads tm F (tm_nodeID tm) n).

Lemma calculate_all_run nodes tm : igraph_laws (tm_graph tm) → tm_ok tm → Forall (known tm) nodes →
  known tm (RVnodeID tm) → known tm (tm_nodeID tm) →
  ∃ rv t f, calculate_all nodes tm = Ok (set_FIDs rv t f tm) ∧ paths_known tm nodes rv t f ∧
    ∀ n, n ∉ nodes → map_find n rv = map_find n (tm_RVFID tm) ∧ map_find n t = map_find n (tm_TMFID tm) ∧
      map_find n f = map_find n (TM_to_nodeFID tm).
Proof.
  intros L T Hn HR HT. revert tm L T Hn HR HT. induction nodes as [|n nodes IH]; intros tm L T Hn HR HT.
  { exists (tm_RVFID tm), (tm_TMFID tm), (TM_to_nodeFID tm). split_and!; [by destruct tm| |done]. by intros n ?%elem_of_nil. }
  apply Forall_cons in Hn as [Hn Hns]. cbn [calculate_all].
  destruct (calculateFID_bits tm n (RVnodeID tm) L T Hn HR) as (F1 & -> & H1). cbn [mbind res_mbind res_bind].
  destruct (calculateFID_bits tm n (tm_nodeID tm) L T Hn HT) as (F2 & -> & H2). cbn [mbind res_mbind res_bind].
  destruct (calculateFID_bits tm (tm_nodeID tm) n L T HT Hn) as (F3 & -> & H3). cbn [mbind res_mbind res_bind].
  set (tm1 := set_FIDs _ _ _ tm).
  destruct (IH tm1 L (set_FIDs_ok _ _ _ _ T) Hns HR HT) as (rv & t & f & -> & Hk & Ho). exists rv, t, f.
  split; [done|]. assert (∀ j, j ≠ n → j ∉ nodes → map_find j rv = map_find j (tm_RVFID tm) ∧ map_find j t = map_find j (tm_TMFID tm) ∧
    map_find j f = map_find j (TM_to_nodeFID tm)) as Hother.
  { intros j Hj (-> & -> & ->)%Ho. cbn. by rw !map_find_set !decide_False. }
  split.
  - intros j [->|Hj]%elem_of_cons; [|by apply Hk]. destruct (decide (n ∈ nodes)) as [Hin|Hin]; [by apply Hk|].
    destruct (Ho n Hin) as (-> & -> & ->). cbn. rw !map_find_set !decide_True //. eauto 10.
  - intros j [? ?]%not_elem_of_cons. by apply Hother.
Qed.

(** The manager has read its topology and calculated its paths: each node has
    its three identifiers. *)
Theorem manager_starts g tm
    (L : igraph_laws g) (A : attributes_ok g)
    (H1 : reverse_node_index tm = []) (H2 : nodeID_iLID tm = []) (H3 : edge_LID tm = [])
    (HR : ∃ v, (v < igraph_vcount g)%nat ∧ VAS_NODEID g v = RVnodeID tm)
    (HT : ∃ v, (v < igraph_vcount g)%nat ∧ VAS_NODEID g v = tm_nodeID tm) :
  ∃ tm1 tm2, readTopology g tm = Ok tm1 ∧ calculateRVTMFIDs tm1 = Ok tm2 ∧
    tm_ok tm2 ∧ tm_graph tm2 = g ∧ extension tm2 = extension tm ∧
    (∀ v, (v < igraph_vcount g)%nat → known tm2 (VAS_NODEID g v)) ∧
    ∀ n, known tm2 n → (∃ F, map_find n (tm_RVFID tm2) = Some (Some F) ∧ leads tm2 F n (RVnodeID tm)) ∧
      (∃ F, map_find n (tm_TMFID tm2) = Some (Some F) ∧ leads tm2 F n (tm_nodeID tm)) ∧
      (∃ F, map_find n (TM_to_nodeFID tm2) = Some (Some F) ∧ leads tm2 F (tm_nodeID tm) n).
Proof.
  destruct (readTopology_ok g tm A H1 H2 H3) as (tm1 & E1 & T & G & EN & ER & EX & _).
  assert (∀ n, (∃ v, (v < igraph_vcount g)%nat ∧ VAS_NODEID g v = n) → known tm1 n) as Hk.
  { intros n (v & Hv & En). exists v. apply (to_nodes _ T). by rw G. }
  destruct (calculate_all_run (reverse_node_index tm1).*1 tm1) as (rv & t & f & E2 & Hp & _); [by rw G|done| |rw ER; by apply Hk|rw EN; by apply Hk|].
  { apply Forall_forall. intros n Hn. by apply map_find_keys. }
  exists tm1, (set_FIDs rv t f tm1). split_and!; [done|exact E2|by apply set_FIDs_ok|done|done| |].
  - intros v Hv. apply Hk. by exists v.
  - intros n Hn%map_find_keys%Hp. by rw ER EN in Hn.
Qed.

Lemma leads_holds tm n F : map_find n (TM_to_nodeFID tm) = Some (Some F) → leads tm F (tm_nodeID tm) n → holds_path tm n.
Proof. intros E [O _]. by exists F. Qed.

(** ** Reading *)

Lemma read_set_run m l : Forall (λ x, length x = PURSUIT_ID_LEN) l → ∀ d1 d3 off acc,
  m = d1 ++ mjoin l ++ d3 → length d1 = off → read_set m off (length l) acc = Ok (foldl (λ a k, set_add k a) acc l).
Proof.
  induction 1 as [|x l Hx _ IH]; intros d1 d3 off acc Hm Hoff; [done|]. cbn [length read_set foldl].
  change (mjoin (x :: l)) with (x ++ mjoin l) in Hm. rw -app_assoc in Hm.
  rw (data_read_at m d1 x (mjoin l ++ d3)) //. cbn [mbind res_mbind res_bind].
  apply (IH (d1 ++ x) d3); [by rw -app_assoc|]. by rw length_app Hoff Hx.
Qed.

Lemma rest_of_run m d1 d2 d3 : m = d1 ++ d2 ++ d3 → rest_of m (length (d1 ++ d2)) (length d1) = Ok d2.
Proof.
  intros ->. unfold rest_of. rw length_app. destruct (Nat.ltb_spec (length d1 + length d2) (length d1)); [lia|].
  rw Nat.add_comm Nat.add_sub. apply data_read_app.
Qed.

(** ** The answers *)

(** What is collected for the resiliency manager. *)
Definition collect (pv : list (bytes * list bytes)) (r : resiliency) (e : bytes * option BABitvector) : resiliency :=
  match e.2 with
  | None => add_alternative r e.1
  | Some _ => foldl add_path r (default [] (map_find e.1 pv))
  end.

Definition has_paths (rs : bool) (pv : list (bytes * list bytes)) (e : bytes * option BABitvector) : Prop :=
  rs = true → is_Some e.2 → is_Some (map_find e.1 pv).

Lemma answer_run s m rs request_type d1 IDs pv r e : m = d1 ++ counted (id_field <$> IDs) ++ beyond →
  holds_path (srv_tm s) e.1 → (∀ F, e.2 = Some F → FID_ok F) → has_paths rs pv e → (0 < length d1)%nat →
  answer_publisher rs m request_type (length (d1 ++ counted (id_field <$> IDs))) (length d1) pv r e s =
  Ok (if rs then collect pv r e else r, happens [publication (srv_tm s) e.1 (resp_bin_prefix_id ++ e.1) (answer_bytes request_type IDs e.2)] s).
Proof.
  intros Hm Hp HF Hpv Hd. set (ids := counted (id_field <$> IDs)). unfold answer_publisher, collect.
  rw (rest_of_run m d1 ids beyond) // from_res_bind. destruct e as [p [F|]]; cbn [fst snd answer_bytes] in *.
  - rw FID_ok_read ?from_res_bind; [|by apply HF]. rw build_exact ?from_res_bind.
    + cbn [mjoin list_join]. rw app_nil_r. unfold mbind at 1, T_bind at 1, M_bind at 1, respond. rw publish_to_run //.
      destruct rs; [|done]. destruct (Hpv eq_refl) as [paths Ep]; [by eexists|]. cbn in Ep. by rw Ep.
    + rw !zlen_mjoin_cons zlen_mjoin_nil (FID_ok_length F); [|by apply HF]. rw /zlen length_app. fold ids. cbn [length]. lia.
  - rw build_exact ?from_res_bind.
    + cbn [mjoin list_join]. rw app_nil_r. unfold mbind, T_bind, M_bind, respond. by rw publish_to_run.
    + rw !zlen_mjoin_cons zlen_mjoin_nil /zlen length_app. fold ids. cbn [length]. lia.
Qed.

Lemma happens_nil s : happens [] s = s.
Proof. destruct s. unfold happens. cbn. by rw app_nil_r. Qed.
Lemma happens_happens s l k : happens k (happens l s) = happens (l ++ k) s.
Proof. unfold happens. cbn. by rw app_assoc. Qed.

(** One answer per entry, in the order of the table. *)
Definition answers tm (request_type : Z) (IDs : list bytes) (result : list (bytes * option BABitvector)) : list tm_event :=
  (λ e, publication tm e.1 (resp_bin_prefix_id ++ e.1) (answer_bytes request_type IDs e.2)) <$> result.

Lemma answers_run s m rs request_type d1 IDs pv r result : m = d1 ++ counted (id_field <$> IDs) ++ beyond →
  Forall (λ e, holds_path (srv_tm s) e.1 ∧ ∀ F, e.2 = Some F → FID_ok F) result → Forall (has_paths rs pv) result → (0 < length d1)%nat →
  mfoldl (answer_publisher rs m request_type (length (d1 ++ counted (id_field <$> IDs))) (length d1) pv) r result s =
  Ok (if rs then foldl (collect pv) r result else r, happens (answers (srv_tm s) request_type IDs result) s).
Proof.
  intros Hm HF Hpv Hd. revert r s HF Hpv. induction result as [|e result IH]; intros r s HF Hpv; [cbn; rw happens_nil; by destruct rs|].
  apply Forall_cons in HF as [[Hp HF] Hr]. apply Forall_cons in Hpv as [Hpe Hpv]. cbn [mfoldl]. unfold mbind, T_bind, M_bind. rw answer_run //.
  rw IH // happens_happens. by destruct rs.
Qed.

(** The state after a request was counted. *)
Definition counted_request s (id : bytes) : tm_server :=
  let root_scope := root_scope_of id in
  let n := u32 (default 0 (moly_tm_requests s !! root_scope) + 1) in
  mkSrv (srv_tm s) (<[root_scope := n]> (moly_tm_requests s)) (happened s ++ [PathCalculations root_scope n]).

(** The set of the nodes of a list. *)
Definition set_of (l : list bytes) : list bytes := foldl (λ a k, set_add k a) [] l.

Lemma elem_of_set_of l k : k ∈ set_of l ↔ k ∈ l.
Proof. unfold set_of. rw elem_of_set_adds. set_solver. Qed.

Lemma of_set_of l k : k ∈ set_of l → k ∈ l.
Proof. apply elem_of_set_of. Qed.
Lemma to_set_of l k : k ∈ l → k ∈ set_of l.
Proof. apply elem_of_set_of. Qed.

(** ** Topology formation *)

(** The table of the answers: an entry for each publisher, each subscriber
    with a nearest publisher, whose identifier its path matches. *)
Record formation tm (ps ss : list bytes) (result : list (bytes * option BABitvector)) : Prop := {
  fo_keys : NoDup result.*1 ∧ ∀ p, p ∈ result.*1 ↔ p ∈ ps;
  fo_none p : (p, None) ∈ result → ∀ d, d ∈ ss → server tm (set_of ps) d ≠ Some p;
  fo_some p F : (p, Some F) ∈ result → FID_ok F ∧ (∃ d, d ∈ ss ∧ server tm (set_of ps) d = Some p) ∧
    ∀ i, (i < 256)%nat → bv_bit F i = true → ∃ d, d ∈ ss ∧ server tm (set_of ps) d = Some p ∧ path_bits tm p d i = true;
  fo_served d : d ∈ ss → ∃ p F, (p, Some F) ∈ result ∧ server tm (set_of ps) d = Some p ∧ path_of tm p d ≠ [] ∧
    (∀ q, q ∈ ps → path_of tm q d ≠ [] → (length (path_of tm p d) ≤ length (path_of tm q d))%nat) ∧
    (∀ e LID, e ∈ path_eids (tm_graph tm) (path_of tm p d) → vector_of (EAS_LID (tm_graph tm) e) LID → matches F LID = Ok true) ∧
    ∀ v iLID, map_find d (reverse_node_index tm) = Some v → vector_of (VAS_iLID (tm_graph tm) v) iLID → matches F iLID = Ok true;
}.

Lemma known_set_of tm l : Forall (known tm) l → Forall (known tm) (set_of l).
Proof. rw !Forall_forall. intros H x Hx. apply H. by rw -elem_of_set_of. Qed.

(** What the formation needs: the tables of the graph, a path to each node
    that publishes, and one from a publisher to each subscriber. *)
Record can_form (rs : bool) tm (ps ss : list bytes) : Prop := {
  cf_laws : igraph_laws (tm_graph tm);
  cf_tables : tm_ok tm;
  cf_rs : getExten RS tm = Ok rs;
  cf_pubs : Forall (λ p, known tm p ∧ holds_path tm p) ps;
  cf_subs : Forall (known tm) ss;
  cf_length p d : zlen (path_of tm p d) < UINT_MAX;
  cf_reach d : d ∈ ss → ∃ p, p ∈ ps ∧ path_of tm p d ≠ [];
}.

Lemma formation_table rs tm ps ss : can_form rs tm ps ss →
  ∃ result pv, calculateFIDs (set_of ps) (set_of ss) [] [] tm = Ok (result, pv) ∧ formation tm ps ss result ∧
    Forall (λ e, holds_path tm e.1 ∧ ∀ F, e.2 = Some F → FID_ok F) result ∧ Forall (has_paths rs pv) result ∧
    paths_ok tm (set_of ps) (set_of ss) rs pv.
Proof.
  intros [L T Hrs Hp Hs Hl Hreach].
  assert (Forall (known tm) ps) as Hkp by (eapply Forall_impl; [exact Hp|by intros ? []]).
  assert (∀ d, d ∈ set_of ss → ∃ p, p ∈ set_of ps ∧ path_of tm p d ≠ []) as Hr1.
  { intros d (p & Hpin & Hn)%of_set_of%Hreach. exists p. split; [by apply to_set_of|done]. }
  destruct (calculateFIDs_run tm (set_of ps) (set_of ss) rs L T Hrs (known_set_of _ _ Hkp) (known_set_of _ _ Hs) Hl Hr1)
    as (result & pv & E & Hr & Hpv & Hm).
  assert (∀ p o, (p, o) ∈ result → p ∈ ps ∧ entry_ok tm (set_of ps) (set_of ss) p o) as Hin.
  { intros p o H%map_find_elem; [|done]. pose proof (Hr p) as Hrp. case_decide as Hd; [|congruence].
    destruct Hrp as (o' & Eo & Ho). apply of_set_of in Hd. split; [done|]. by replace o with o' by congruence. }
  exists result, pv. split; [done|]. split; [split|split; [|split; [|done]]].
  - split; [exact Hm|]. intros p. rw -map_find_keys. pose proof (Hr p) as Hrp. rw -(elem_of_set_of ps). case_decide; [|rw Hrp; by split; [intros []|]].
    destruct Hrp as (o & Eo & _). split; [done|]. by eexists.
  - intros p [Hpin Ho]%Hin d Hd Es. cbn in Ho. apply (elem_of_nil (A := bytes) d). rw -Ho. apply elem_of_served.
    split; [done|]. by apply to_set_of.
  - intros p F [Hpin [Hne HF]]%Hin. split_and!; [apply HF| |].
    + destruct (served tm (set_of ps) (set_of ss) p) as [|d l] eqn:El; [done|]. assert (d ∈ d :: l) as Hd by by left.
      rw -El in Hd. apply elem_of_served in Hd as [Es Hd]. exists d. split; [by apply of_set_of|done].
    + intros i Hi Hb. destruct HF as [_ BF]. rw BF // in Hb. apply existsb_exists in Hb as (d & Hd%list_elem_of_In & Hbd).
      apply elem_of_served in Hd as [Es Hd%of_set_of]. by exists d.
  - intros d Hd. pose proof (to_set_of ss d Hd) as Hd'.
    destruct (result_serves tm (set_of ps) (set_of ss) result d (λ p, Hl p d) (Hr1 d Hd') Hd' Hr)
      as (p & F & Hpin & Hdin & Hn & Hmin & Eo & Hlinks & Hiv). exists p, F. split_and!; try done.
    + by apply map_find_elem.
    + by apply elem_of_served in Hdin as [? _].
    + intros q Hq. apply Hmin. by apply to_set_of.
  - apply Forall_forall. intros [p o] [Hpin Ho]%Hin. cbn. split; [by eapply Forall_forall in Hp as [_ ?]; [|exact Hpin]|].
    intros F ->. apply Ho.
  - apply Forall_forall. intros [p o] [Hpin _]%Hin _ _. destruct (Hpv p (to_set_of _ _ Hpin)) as (l & El & _). by exists l.
Qed.

Context (qos : option (bytes → list bytes → list bytes → res (list (bytes * option BABitvector) * list (bytes * list bytes)))).

(** [ids] of the function. *)
Definition ids_after (id0 : bytes) (IDs : list bytes) : bytes :=
  take (length (counted (id_field <$> id0 :: IDs))) (id0 ++ mjoin (id_field <$> IDs) ++ beyond).

Lemma match_multicast_run s rs request_type strategy ps ss id0 IDs result pv :
  node_ids ps → node_ids ss → path_ids (id0 :: IDs) → (2 ≤ length beyond)%nat →
  getExten QOS (srv_tm s) = Ok false → getExten RS (srv_tm s) = Ok rs →
  calculateFIDs (set_of ps) (set_of ss) [] [] (srv_tm s) = Ok (result, pv) →
  Forall (λ e, holds_path (srv_tm s) e.1 ∧ ∀ F, e.2 = Some F → FID_ok F) result → Forall (has_paths rs pv) result →
  match_multicast beyond qos (paths_request request_type strategy ps ss (id0 :: IDs)) request_type s =
  (if rs then update_delivery (zlen (id0 :: IDs)) (zlen id0 / ID_LEN) (ids_after id0 IDs) (foldl (collect pv) (mkRs 0 [] 0 []) result) else mret ())
    (happens (answers (srv_tm s) request_type (id0 :: IDs) result) (counted_request s id0)).
Proof.
  intros [Hps Nps] [Hss Nss] [HIDs NIDs] Hbeyond Hqos Hrs Hcalc HF Hpv. set (ids := counted (id_field <$> id0 :: IDs)).
  set (d1 := [request_type; strategy] ++ counted ps ++ counted ss). unfold match_multicast. cbv zeta.
  assert (paths_request request_type strategy ps ss (id0 :: IDs) = d1 ++ ids) as -> by (by subst d1; rw -!app_assoc).
  set (m := (d1 ++ ids) ++ beyond). assert (m = d1 ++ ids ++ beyond) as Hm by by rw /m -app_assoc.
  assert (Z.to_nat (zlen ps) = length ps ∧ Z.to_nat (zlen ss) = length ss) as [Eps Ess] by (unfold zlen; lia).
  assert (length (mjoin ps) = (length ps * PURSUIT_ID_LEN)%nat ∧ length (mjoin ss) = (length ss * PURSUIT_ID_LEN)%nat) as [Lps Lss].
  { pose proof (zlen_mjoin_fixed _ _ Hps) as H1. pose proof (zlen_mjoin_fixed _ _ Hss) as H2.
    unfold zlen, NODEID_LEN, PURSUIT_ID_LEN in *. lia. }
  rw (data_byte_at m [request_type; strategy] (zlen ps) (mjoin ps ++ counted ss ++ ids ++ beyond) 2) //;
    [|by rw Hm /d1 /counted /= -!app_assoc].
  rw from_res_bind Eps (read_set_run m ps Hps ([request_type; strategy; zlen ps]) (counted ss ++ ids ++ beyond) 3) //;
    [|by rw Hm /d1 /counted /= -!app_assoc].
  rw from_res_bind (data_byte_at m ([request_type; strategy] ++ counted ps) (zlen ss) (mjoin ss ++ ids ++ beyond));
    [|by rw Hm /d1 /counted /= -!app_assoc|by rw /counted /= Lps].
  rw from_res_bind Ess (read_set_run m ss Hss ([request_type; strategy] ++ counted ps ++ [zlen ss]) (ids ++ beyond));
    [|by rw Hm /d1 /counted /= -!app_assoc|rw !length_app /counted /= Lps; lia].
  rw from_res_bind. assert ((3 + length ps * PURSUIT_ID_LEN + 1 + length ss * PURSUIT_ID_LEN)%nat = length d1) as ->.
  { rw /d1 !length_app /counted /= Lps Lss. lia. }
  set (rest := mjoin (id_field <$> IDs)).
  assert (ids = zlen (id0 :: IDs) :: (zlen id0 / ID_LEN) :: id0 ++ rest) as Eids by (by rw /ids /counted zlen_fmap).
  assert (m = d1 ++ zlen (id0 :: IDs) :: (zlen id0 / ID_LEN) :: id0 ++ rest ++ beyond) as Hm1.
  { rw Hm Eids. cbn [app]. by rw -app_assoc. }
  rw (data_byte_at m d1 _ _ (length d1) Hm1 eq_refl).
  rw from_res_bind (data_byte_at m (d1 ++ [zlen (id0 :: IDs)]) (zlen id0 / ID_LEN) (id0 ++ rest ++ beyond));
    [|by rw Hm1 -app_assoc|by rw length_app].
  rw from_res_bind. assert ((length (d1 ++ ids) <? length d1)%nat = false) as -> by (rw length_app; lia).
  assert (length (d1 ++ ids) - length d1 = length ids)%nat as -> by (rw length_app; lia).
  set (after := take (length ids) (id0 ++ rest ++ beyond)).
  assert (data_read m (length d1 + 2) (length ids) = Ok after) as ->.
  { rw data_read_ok; [|rw Hm !length_app; lia]. f_equal.
    rw (drop_at m (d1 ++ [zlen (id0 :: IDs); zlen id0 / ID_LEN]) (id0 ++ rest ++ beyond)); [done|by rw Hm1 -app_assoc|by rw length_app]. }
  rw from_res_bind. apply Forall_cons in HIDs as [[Hmod Hlen] HIDs].
  assert (Z.to_nat (zlen id0 / ID_LEN) * PURSUIT_ID_LEN = length id0)%nat as Elen.
  { unfold zlen, ID_LEN, PURSUIT_ID_LEN in *. lia. }
  assert (data_read after 0 (Z.to_nat (zlen id0 / ID_LEN) * PURSUIT_ID_LEN) = Ok id0) as ->.
  { rw Elen. assert (length id0 ≤ length ids)%nat as Hle by (rw Eids /= length_app; lia). rw data_read_ok.
    - f_equal. rw drop_0 /after take_take. rw (Nat.min_l _ _ Hle). by rw take_app_length.
    - rw /after length_take !length_app. lia. }
  rw from_res_bind. change ((report_calculation id0 ≫= ?k) s) with (k () (counted_request s id0)). cbv beta.
  set (s1 := counted_request s id0).
  assert (find_paths qos id0 (set_of ps) (set_of ss) s1 = Ok ((result, pv), s1)) as Epaths.
  { unfold find_paths. rw (on_tm_bind _ false); [|exact Hqos]. by destruct qos; unfold on_tm, from_res, mbind, T_bind, M_bind, gets; rw Hcalc. }
  unfold set_of in Epaths. unfold mbind at 1, T_bind at 1, M_bind at 1. rw Epaths.
  rw (on_tm_bind _ rs); [|exact Hrs]. unfold mbind, T_bind, M_bind.
  rw (answers_run s1 m rs request_type d1 (id0 :: IDs) pv _ result) //; [by destruct rs|cbn; lia].
Qed.

Lemma paths_request_run s rs request_type strategy ps ss id0 IDs result pv :
  request_type = MATCH_PUB_SUBS ∨ request_type = UPDATE_FID →
  node_ids ps → node_ids ss → path_ids (id0 :: IDs) → (2 ≤ length beyond)%nat →
  getExten QOS (srv_tm s) = Ok false → getExten RS (srv_tm s) = Ok rs →
  calculateFIDs (set_of ps) (set_of ss) [] [] (srv_tm s) = Ok (result, pv) →
  Forall (λ e, holds_path (srv_tm s) e.1 ∧ ∀ F, e.2 = Some F → FID_ok F) result → Forall (has_paths rs pv) result →
  handleMulticastPathRequest beyond qos (paths_request request_type strategy ps ss (id0 :: IDs)) s =
  (if rs then update_delivery (zlen (id0 :: IDs)) (zlen id0 / ID_LEN) (ids_after id0 IDs) (foldl (collect pv) (mkRs 0 [] 0 []) result) else mret ())
    (happens (answers (srv_tm s) request_type (id0 :: IDs) result) (counted_request s id0)).
Proof.
  intros Hty Hps Hss HIDs Hb Hq Hrs Hcalc HF Hpv. unfold handleMulticastPathRequest. cbv zeta.
  change (data_byte (paths_request request_type strategy ps ss (id0 :: IDs) ++ beyond) 0) with (Ok request_type).
  change (data_byte (paths_request request_type strategy ps ss (id0 :: IDs) ++ beyond) 1) with (Ok strategy).
  rw !from_res_bind. rw -(match_multicast_run s rs request_type strategy ps ss id0 IDs result pv) //.
  by destruct Hty as [->| ->].
Qed.
End requests.
