(* ===== verification/TopologyRendezvous.v ===== *)
(** * From the rendezvous element to the publishers

    The request that LocalRV sends for a match, the choice of the topology
    manager, its answers, and the proxies that carry and apply them. *)

From S2P Require Import Prelude Enums HashTable BitVector Packet GlobalConf RvStore RvMessages LocalRV RvSafety Forwarder ForwarderProofs.
From S2P Require Import ProxyStore LocalProxy ProxyInvariant ProxyRequests ProxyMessages ProxyDisconnect ProxyDelivery.
From S2P Require Import ProxyRendezvous ProxySafety ProxyNotify Proxy ClientApi Client Netlink Application.
From S2P Require Import StdMap LibBitvector Topology TopologyPaths TopologyFID TopologyServe TopologyIgraph TopologyUpdate TopologyManager TopologyRequests.

(** The identifiers of the manager are those of the nodes. *)
Lemma identifiers_agree : req_bin_id = TMScope ∧ uc_req_bin_id = TMScopeUC ∧ UnicastDeliveryId = TMScope ++ TMScopeUC ∧
  pathMgmt_bin_full_id = pathMgmtIID ∧ ∀ g, resp_bin_prefix_id ++ nodeID g = notificationIID g.
Proof. split_and!; [reflexivity..|]. intros g. unfold notificationIID. by rw app_assoc. Qed.

Section formation.
Context `{IG : Igraph} `{HP : Heap}.
Implicit Types (tm : tmgraph) (s : tm_server).

(** What the manager needs: the tables of its graph, a path to each node that
    publishes, no extension, and that two bytes after a request can be read. *)
Record manager_ready (beyond : bytes) s (ps ss : list bytes) : Prop := {
  mr_laws : igraph_laws (tm_graph (srv_tm s));
  mr_tables : tm_ok (srv_tm s);
  mr_extensions : extension (srv_tm s) = [false; false; false; false; false];
  mr_pubs : Forall (λ p, known (srv_tm s) p ∧ holds_path (srv_tm s) p) ps;
  mr_subs : Forall (known (srv_tm s)) ss;
  mr_length p d : zlen (path_of (srv_tm s) p d) < UINT_MAX;
  mr_reach d : d ∈ ss → ∃ p, p ∈ ps ∧ path_of (srv_tm s) p d ≠ [];
  mr_beyond : (2 ≤ length beyond)%nat;
}.

(** The event of a request of the rendezvous element of the node [g]. *)
Definition request_event (g : gconf) (nodeId isubID : bytes) (b : bytes) : Event := mkEv PUBLISHED_DATA (nodeTMScope g) nodeId isubID (Some b).

Context (beyond : bytes) (qos : option (bytes → list bytes → list bytes → res (list (bytes * option BABitvector) * list (bytes * list bytes)))).
Context (uc_notification : bool) (agent : bool * bool).

Lemma event_multicast s g x y b : gconf_wf g → extension (srv_tm s) = [false; false; false; false; false] →
  event_listener beyond qos uc_notification agent (request_event g x y b) s =
  (handleMulticastPathRequest beyond qos b;; mret true) s.
Proof.
  intros Hg Hx. unfold event_listener, request_event. cbn [ev_type ev_data ev_id].
  change (PUBLISHED_DATA =? UNDEF_EVENT) with false. change (PUBLISHED_DATA =? PUBLISHED_DATA) with true. cbv iota. cbn [negb].
  pose proof (zlen_nodeTMScope g Hg) as Hl. unfold zlen in Hl.
  assert (take (length (nodeTMScope g) - PURSUIT_ID_LEN) (nodeTMScope g) = TMScope) as Et.
  { assert (length (nodeTMScope g) - PURSUIT_ID_LEN = length TMScope)%nat as -> by (change (length TMScope) with 8%nat; unfold PURSUIT_ID_LEN; lia).
    apply take_app_length. }
  destruct (Nat.ltb_spec (length (nodeTMScope g)) PURSUIT_ID_LEN); [unfold PURSUIT_ID_LEN in *; lia|]. rw Et.
  assert (∀ i, 0 <= i <= 3 → getExten i (srv_tm s) = Ok false) as He.
  { intros i Hi. unfold getExten. rw Hx. assert (i = 0 ∨ i = 1 ∨ i = 2 ∨ i = 3) as [->|[->|[->| ->]]] by lia; reflexivity. }
  cbv zeta. change ((lift_opt NullDeref (Some b) ≫= ?k) s) with (k b s). cbv beta. change ((lift_opt OutOfRange (Some ()) ≫= ?k) s) with (k () s). cbv beta.
  do 3 (rw (on_tm_bind _ false); [|apply He; unfold PM, RS, QOS; lia]). rw !andb_false_r.
  by rw !(bool_decide_eq_false_2 (TMScope = _)).
Qed.

Lemma ready_forms s ps ss : manager_ready beyond s ps ss → can_form false (srv_tm s) ps ss.
Proof. intros [L T X Hp Hs Hl Hr _]. split; try done. unfold getExten. by rw X. Qed.

Lemma formation_run s g request_type strategy ps ss id0 IDs x y :
  manager_ready beyond s ps ss → gconf_wf g → bv_max (TMFID g) = 255 →
  request_type = MATCH_PUB_SUBS ∨ request_type = UPDATE_FID →
  msg_fields_ok (TMRendezvous request_type strategy ps ss (id0 :: IDs)) → zlen (mjoin (id0 :: IDs)) < 256 →
  ∃ b s' n result, (∃ rest, b = request_type :: rest) ∧
    encode g (TMRendezvous request_type strategy ps ss (id0 :: IDs)) =
      Ok (Some <$> api_bytes 2 (nodeTMScope g) (bytes_of_FID (TMFID g)) ++ b) ∧
    event_listener beyond qos uc_notification agent (request_event g x y b) s = Ok (true, s') ∧ srv_tm s' = srv_tm s ∧
    happened s' = happened s ++ PathCalculations (root_scope_of id0) n :: answers (srv_tm s) request_type (id0 :: IDs) result ∧
    formation (srv_tm s) ps ss result ∧ Forall (λ e, holds_path (srv_tm s) e.1 ∧ ∀ F, e.2 = Some F → FID_ok F) result.
Proof.
  intros R Hg Htm Hty Hf Hlen. destruct (formation_table false (srv_tm s) ps ss (ready_forms _ _ _ R)) as (result & pv & Ecalc & Hform & HF & Hpv & _).
  destruct R as [_ _ X _ _ _ _ Hb]. eexists _, _, _, result. split_and!.
  - by eexists.
  - rw (TM_requests_built g _ Hg Htm Hf eq_refl). cbn [TM_ids]. rw (proj2 (Z.ltb_lt _ _) Hlen). done.
  - rw event_multicast //. destruct Hf as (Hps & Hss & HIDs). unfold mbind, T_bind, M_bind.
    rw (paths_request_run beyond qos s false request_type strategy ps ss id0 IDs result pv) //; unfold getExten; by rw X.
  - done.
  - cbn. by rw -app_assoc.
  - done.
  - done.
Qed.
End formation.

(** ** At the nodes *)

Lemma FID_bytes_again F : FID_ok F → bytes_of_FID (FID_of_bytes (bytes_of_FID F)) = bytes_of_FID F.
Proof.
  intros [W _]. unfold bytes_of_FID at 1. rw FID_words // (bytes_of_words_take 8) take_take.
  by rw Nat.min_id.
Qed.

Section delivery.
Context `{CT : ClickTables}.
Implicit Types (s : proxy) (h : ptr) (k : bytes).

(** A publication with a path of its own, from a process or an element. *)
Lemma push_path_run s in_port pid k fid data : (in_port = 0 ∨ in_port = 1) → wf s → id_ok k → length fid = FID_LEN →
  k ∉ [notificationIID (gc s); pathMgmtIID] →
  ∃ h s1, (if in_port =? 0 then got_host s LOCAL_PROCESS pid h s1 else got_host s CLICK_ELEMENT in_port h s1) ∧
    LocalProxy_push in_port pid ([PUBLISH_DATA] ++ id_field k ++ [IMPLICIT_RENDEZVOUS] ++ fid ++ data) s =
    handleUserPublicationFID k (if bool_decide (k = nodeTMScope (gc s)) || bool_decide (k = nodeTMScopeUC (gc s)) then None else Some PUBLISH_DATA)
      (FID_of_bytes fid) data h PUBLISHED_DATA s1.
Proof.
  intros Hport W Hk Hfid Hne. set (host := if in_port =? 0 then getLocalHost LOCAL_PROCESS pid else getLocalHost CLICK_ELEMENT in_port).
  assert (∃ h s1, (if in_port =? 0 then got_host s LOCAL_PROCESS pid h s1 else got_host s CLICK_ELEMENT in_port h s1) ∧
    host s = Ok (h, s1) ∧ gc s1 = gc s) as (h & s1 & Hgot & Eh & Eg).
  { subst host. destruct (in_port =? 0).
    - destruct (wp_ok _ _ _ (wp_getLocalHost s LOCAL_PROCESS pid W)) as (h & s1 & Eh & Hgot). exists h, s1. split_and!; [done..|apply Hgot].
    - destruct (wp_ok _ _ _ (wp_getLocalHost s CLICK_ELEMENT in_port W)) as (h & s1 & Eh & Hgot). exists h, s1. split_and!; [done..|apply Hgot]. }
  exists h, s1. split; [done|]. set (d := [PUBLISH_DATA] ++ _).
  unfold LocalProxy_push. fold host. assert ((in_port =? 2) = false ∧ (in_port =? 3) = false) as [-> ->] by lia.
  unfold mbind at 1, M_bind at 1. rw Eh (data_byte_at d [] PUBLISH_DATA (id_field k ++ [IMPLICIT_RENDEZVOUS] ++ fid ++ data) 0) // lift_check.
  change (PUBLISH_DATA =? DISCONNECT) with false. change (PUBLISH_DATA =? PUBLISH_DATA) with true. cbv iota.
  unfold push_data. unfold mbind at 1, M_bind at 1, gets. cbv iota beta.
  rw (read_ID_at d [PUBLISH_DATA] k ([IMPLICIT_RENDEZVOUS] ++ fid ++ data) 1) //; [|by apply id_ok_frag]. rw lift_check. cbv zeta.
  rw (data_byte_at d ([PUBLISH_DATA] ++ id_field k) IMPLICIT_RENDEZVOUS (fid ++ data) (2 + length k)); [|by rw -app_assoc|done].
  rw lift_check. change (IMPLICIT_RENDEZVOUS =? IMPLICIT_RENDEZVOUS) with true. change (IMPLICIT_RENDEZVOUS =? LINK_LOCAL) with false.
  cbn [orb]. cbv iota. rw (data_read_at d ([PUBLISH_DATA] ++ id_field k ++ [IMPLICIT_RENDEZVOUS]) fid data);
    [|by rw -!app_assoc|rw !length_app length_id_field; cbn; lia|done].
  rw lift_check Eg. rw !elem_of_cons in Hne.
  rw (bool_decide_eq_false_2 (k = notificationIID _)) ?(bool_decide_eq_false_2 (k = pathMgmtIID)); [|naive_solver..].
  rw (drop_at d ([PUBLISH_DATA] ++ id_field k ++ [IMPLICIT_RENDEZVOUS] ++ fid) data);
    [by destruct (_ || _)|rw -!app_assoc //|rw !length_app length_id_field Hfid; cbn; unfold FID_LEN; lia].
Qed.

(** The identifier of the notifications of a node is no other identifier. *)
Lemma notification_apart g g' : gconf_wf g → gconf_wf g' → nodeID g ≠ nodeID g' →
  notificationIID g ∉ [notificationIID g'; nodeTMScope g'; nodeTMScopeUC g'; pathMgmtIID] ∧ [notificationIID g] ≠ [controlReliabilityScope].
Proof.
  intros Hg Hg' Hne. pose proof (zlen_notificationIID g Hg) as Hl. split.
  - rw !elem_of_cons elem_of_nil. intros [E|[E|[E|[E|[]]]]].
    + apply Hne. unfold notificationIID in E. by apply app_inv_head, app_inv_head in E.
    + apply (f_equal (λ l, l !! 7%nat)) in E. done.
    + pose proof (zlen_nodeTMScopeUC g' Hg') as Hl'. rw -E Hl in Hl'. done.
    + apply (f_equal (λ l, l !! 7%nat)) in E. done.
  - intros [=].
Qed.

Lemma answer_delivered s1 s2 pid anno path IDs F :
  wf s1 → wf s2 → gconf_wf (gc s1) → gconf_wf (gc s2) → nodeID (gc s2) ≠ nodeID (gc s1) →
  FID_ok path → FID_ok F → NoDup IDs → path_ids IDs →
  ht_get resp_bin_prefix_id (activePublicationIndex s1) = None → (∀ q, ¬ hears s1 q (notificationIID (gc s2))) →
  ∃ m s1' es b t,
    Blackadder_publish_data (notificationIID (gc s2)) IMPLICIT_RENDEZVOUS (Some (bytes_of_FID path))
      (answer_bytes MATCH_PUB_SUBS IDs (Some F)) = Some m ∧
    LocalProxy_push 0 pid (dg_payload m) s1 = Ok ((), set_out (out s1 ++ es) s1') ∧
    Push 2 None Made (Some <$> bytes_of_FID path ++ b) ∈ es ∧
    LocalProxy_push 2 anno b s2 =
      Ok ((), set_out (out s2 ++ first_events s2 START_PUBLISH (activePublicationIndex s2) IDs ++ [Kill Given]) (set_pubs t s2)) ∧
    ∀ j, ht_get j t = started IDs (FID_of_bytes (bytes_of_FID F)) j <$> ht_get j (activePublicationIndex s2).
Proof.
  intros W1 W2 Hg1 Hg2 Hne Opath OF Hnd HIDs Hno Hears. set (k := notificationIID (gc s2)). set (msg := answer_bytes _ _ _).
  destruct (notification_apart (gc s2) (gc s1) Hg2 Hg1 Hne) as [Hap Hcr]. fold k in Hap, Hcr.
  pose proof (zlen_notificationIID (gc s2) Hg2) as Hl. fold k in Hl.
  assert (id_ok k) as Hk by (exists 2%nat; unfold zlen in Hl; unfold PURSUIT_ID_LEN; lia).
  destruct (id_ok_whole k Hk) as [Hw Hs]. pose proof (FID_ok_length path Opath) as Hp. unfold zlen in Hp.
  rw !not_elem_of_cons in Hap. destruct Hap as (Hn1 & Hn2 & Hn3 & Hn4 & _).
  destruct (push_path_run s1 0 pid k (bytes_of_FID path) msg (or_introl eq_refl) W1 Hk ltac:(lia)) as (h & s1' & Hgot & Erun); [set_solver|].
  change (0 =? 0) with true in Hgot. cbv iota in Hgot. rw !bool_decide_eq_false_2 // in Erun. cbn [orb] in Erun.
  assert (IDs_known s1' k = [k]) as Hknown.
  { unfold IDs_known. rw (gh_pubs _ _ _ _ _ Hgot). assert (prefix_of k = resp_bin_prefix_id) as ->; [|by rw Hno].
    unfold prefix_of. unfold zlen in Hl. assert (length k - PURSUIT_ID_LEN = 8)%nat as -> by (unfold PURSUIT_ID_LEN; lia).
    destruct identifiers_agree as (_ & _ & _ & _ & E). unfold k. rw -E. apply take_app_length'. done. }
  assert (path_ids [k]) as Hpk.
  { split; [|done]. constructor; [|constructor]. assert (length k = 16)%nat as E by (unfold zlen in Hl; lia). unfold zlen. by rw E. }
  destruct (FID_of_bytes_of_FID path (proj1 Opath) (proj2 Opath)) as (Wp & Mp & _ & _).
  assert (FID_ok (FID_of_bytes (bytes_of_FID path))) as Op' by by split.
  assert (path_ids (IDs_known s1' k)) as Hpk' by by rw Hknown.
  destruct (sends_path s1' k (Some PUBLISH_DATA) (FID_of_bytes (bytes_of_FID path)) msg h PUBLISHED_DATA
    (gh_wf _ _ _ _ _ Hgot) Hk (or_introl eq_refl) (FID_ok_read _ Op') Hpk') as (hs & [_ Hrec] & Esend).
  rw Hknown in Hrec, Esend. assert (hs = []) as ->.
  { destruct hs as [|q hs]; [done|]. destruct (proj1 (Hrec q) ltac:(by left)) as (_ & j & ->%list_elem_of_singleton & Hq).
    destruct (Hears q). unfold hears, subscribes in *. by rw (gh_subs _ _ _ _ _ Hgot) in Hq. }
  assert (length (bytes_of_FID F) = FID_LEN) as HF by (pose proof (FID_ok_length F OF) as H; unfold zlen in H; lia).
  destruct (start_notification s2 IDs (bytes_of_FID F) W2 HF Hnd (path_ids_ok IDs HIDs)) as (t & Et & Ht).
  exists (mkDg (u32 (Z.of_nat NLMSGHDR + 1 + 1 + zlen k + 1 + zlen (opt_bytes (Some (bytes_of_FID path))) + zlen msg))
    ([PUBLISH_DATA] ++ (id_len k :: k) ++ [IMPLICIT_RENDEZVOUS] ++ bytes_of_FID path ++ msg)), s1'.
  eexists _, (counted (id_field <$> [k]) ++ PUBLISH_DATA :: msg), t. split_and!.
  - unfold Blackadder_publish_data. by rw (proj2 (wrong_size_false k) Hw).
  - cbn [dg_payload]. rw (id_field_len k Hw Hs) Erun.
    unfold sends in Esend. rw Esend (gh_out _ _ _ _ _ Hgot). done.
  - assert (bytes_of_FID path ++ counted (id_field <$> [k]) ++ PUBLISH_DATA :: msg =
      network_bytes (gc s1') [k] (Some PUBLISH_DATA) (FID_of_bytes (bytes_of_FID path)) msg) as ->.
    { unfold network_bytes. by rw FID_bytes_again. }
    right. left.
  - rw push_network_header; [|by apply path_ids_ok]. rw bool_decide_eq_false_2 //.
    change (data_byte (PUBLISH_DATA :: msg) 0) with (Ok PUBLISH_DATA). rw lift_check.
    change (PUBLISH_DATA =? PUBLISH_DATA) with true. cbv iota zeta. change (drop 1 (PUBLISH_DATA :: msg)) with msg.
    rw bool_decide_eq_true_2 //. unfold mbind, M_bind. rw Et. unfold emit, modify. cbn. by rw -app_assoc.
  - exact Ht.
Qed.
(** The other way: the request of the rendezvous element of one node, at the
    node of the manager. *)
Lemma request_delivered s0 s1 anno anno' type rest h x :
  let g := gc s0 in let k := nodeTMScope g in
  wf s0 → wf s1 → gconf_wf g → bv_max (TMFID g) = 255 → type ∉ [PUBLISH_DATA; PUBLISH_DATA_iSUB] →
  ht_get TMScope (activePublicationIndex s0) = None → (∀ q, ¬ hears s0 q k) →
  hosts s1 !! h = Some x → lh_type x = LOCAL_PROCESS → hears s1 h k →
  ∃ b s0' es0 es1 p d,
    LocalProxy_push 1 anno (api_bytes 2 k (bytes_of_FID (TMFID g)) ++ type :: rest) s0 = Ok ((), set_out (out s0 ++ es0) s0') ∧
    Push 2 None Given (Some <$> bytes_of_FID (TMFID g) ++ b) ∈ es0 ∧
    LocalProxy_push 2 anno' b s1 = Ok ((), set_out (out s1 ++ es1) s1) ∧
    Push 0 (Some (lh_id x)) p (Some <$> d) ∈ es1 ∧
    ∀ nl, out_buf_queue nl = [] → ∃ msg nl', ToNetlink_selected (ToNetlink_push (lh_id x) d nl) = (Some (lh_id x, msg), nl') ∧
      Blackadder_getEvent Event_new (Some msg) = Ok (request_event g [] [] (type :: rest)).
Proof.
  intros g k W0 W1 Hg Htm Hty Hno Hq Hx Hlt Hears. set (data := type :: rest).
  pose proof (zlen_nodeTMScope g Hg) as Hl. fold k in Hl. assert (length k = 16%nat) as Hlk by (unfold zlen in Hl; lia).
  assert (id_ok k) as Hk by (exists 2%nat; unfold PURSUIT_ID_LEN; lia).
  assert (FID_ok (TMFID g)) as OF by (split; [apply Hg|done]). pose proof (FID_ok_length _ OF) as HF. unfold zlen in HF.
  assert (id_field k = 2 :: k) as Ef by (by unfold id_field, zlen; rw Hlk).
  assert (k ∉ [notificationIID g; pathMgmtIID]) as Hap.
  { rw !not_elem_of_cons. split_and!; [| |by apply not_elem_of_nil]; intros E; apply (f_equal (λ l, l !! 7%nat)) in E; done. }
  destruct (push_path_run s0 1 anno k (bytes_of_FID (TMFID g)) data (or_intror eq_refl) W0 Hk ltac:(lia) Hap) as (h0 & s0' & Hgot & Erun).
  change (1 =? 0) with false in Hgot. cbv iota in Hgot. fold g k in Erun. rw bool_decide_eq_true_2 // in Erun. cbn [orb] in Erun.
  assert (IDs_known s0' k = [k]) as Hknown.
  { unfold IDs_known. rw (gh_pubs _ _ _ _ _ Hgot). assert (prefix_of k = TMScope) as ->; [|by rw Hno].
    unfold prefix_of. rw Hlk. by apply take_app_length'. }
  assert (path_ids [k]) as Hpk by (split; [|done]; constructor; [|constructor]; unfold zlen; by rw Hlk).
  destruct (FID_of_bytes_of_FID _ (proj1 OF) (proj2 OF)) as (Wp & Mp & _ & _).
  assert (path_ids (IDs_known s0' k)) as Hpk' by by rw Hknown.
  destruct (sends_path s0' k None (FID_of_bytes (bytes_of_FID (TMFID g))) data h0 PUBLISHED_DATA
    (gh_wf _ _ _ _ _ Hgot) Hk I (FID_ok_read _ (conj Wp Mp)) Hpk') as (hs & [_ Hrec] & Esend).
  rw Hknown in Hrec, Esend. assert (hs = []) as ->.
  { destruct hs as [|q hs]; [done|]. destruct (proj1 (Hrec q) ltac:(by left)) as (_ & j & ->%list_elem_of_singleton & Hh).
    destruct (Hq q). unfold hears, subscribes in *. by rw (gh_subs _ _ _ _ _ Hgot) in Hh. }
  destruct (sends_network s1 [k] data PUBLISHED_DATA W1) as (hs & [_ Hr] & Hs); [by repeat constructor|].
  assert (h ∈ hs) as Hin by (apply Hr; split; [done|]; exists k; split; [by left|done]).
  destruct (network_copies_in s1 [k] hs data PUBLISHED_DATA h x Hin Hx) as [p He]. rw told_single // in He. cbn [default] in He.
  unfold host_event in He. rw Hlt in He.
  eexists (counted (id_field <$> [k]) ++ data), s0', _, _, p, (data_bytes PUBLISHED_DATA k data). split_and!.
  - assert (api_bytes 2 k (bytes_of_FID (TMFID g)) ++ data =
      [PUBLISH_DATA] ++ id_field k ++ [IMPLICIT_RENDEZVOUS] ++ bytes_of_FID (TMFID g) ++ data) as ->.
    { unfold api_bytes. by rw Ef -!app_assoc. }
    rw Erun -(gh_out _ _ _ _ _ Hgot). exact Esend.
  - assert (bytes_of_FID (TMFID g) ++ counted (id_field <$> [k]) ++ data =
      network_bytes (gc s0') [k] None (FID_of_bytes (bytes_of_FID (TMFID g))) data) as ->.
    { unfold network_bytes. by rw FID_bytes_again. }
    left.
  - rw push_network_header; [|by apply path_ids_ok]. rw bool_decide_eq_false_2; [|intros [=]].
    change (data_byte data 0) with (Ok type). rw lift_check. rw !not_elem_of_cons in Hty. destruct Hty as (Ht1 & Ht2 & _).
    apply Z.eqb_neq in Ht1, Ht2. rw Ht1 Ht2. exact Hs.
  - exact He.
  - intros nl Es. exact (event_read k data (lh_id x) nl Event_new Hk Es).
Qed.
End delivery.

(** ** The whole way *)

Section matched.
Context `{IG : Igraph} `{HP : Heap} `{CT : ClickTables}.
Context (beyond : bytes) (qos : option (bytes → list bytes → list bytes → res (list (bytes * option BABitvector) * list (bytes * list bytes)))).
Context (uc_notification : bool) (agent : bool * bool).


(** The nodes of a rendezvous element and of the manager, the process [x]:
    nothing else at the first is concerned with the scope of requests, and the
    process subscribed to it. *)
Record can_request (s0 s1 : proxy) (h : ptr) (x : LocalHost) : Prop := {
  rq_wf : wf s0 ∧ wf s1;
  rq_gc : gconf_wf (gc s0) ∧ bv_max (TMFID (gc s0)) = 255;
  rq_free : ht_get TMScope (activePublicationIndex s0) = None ∧ ∀ q, ¬ hears s0 q (nodeTMScope (gc s0));
  rq_host : hosts s1 !! h = Some x ∧ lh_type x = LOCAL_PROCESS;
  rq_hears : hears s1 h (nodeTMScope (gc s0));
}.

(** The nodes of the manager and of a publisher. *)
Record can_answer (s1 s2 : proxy) : Prop := {
  an_wf : wf s1 ∧ wf s2;
  an_gc : gconf_wf (gc s1) ∧ gconf_wf (gc s2) ∧ nodeID (gc s2) ≠ nodeID (gc s1);
  an_free : ht_get resp_bin_prefix_id (activePublicationIndex s1) = None ∧ ∀ q, ¬ hears s1 q (notificationIID (gc s2));
}.

(** A publication of the manager starts those of [s2] with the path [F]: the
    call of the library, its packet at [s1] and, without its path, at [s2]. *)
Definition starts_publications (s1 s2 : proxy) (pid anno : Z) (IDs : list bytes) (F : BABitvector) (e : tm_event) : Prop :=
  ∃ id path data m s1' es b t, e = Publish id path (Some <$> data) ∧
    Blackadder_publish_data id IMPLICIT_RENDEZVOUS (Some path) data = Some m ∧
    LocalProxy_push 0 pid (dg_payload m) s1 = Ok ((), set_out (out s1 ++ es) s1') ∧
    Push 2 None Made (Some <$> path ++ b) ∈ es ∧
    LocalProxy_push 2 anno b s2 =
      Ok ((), set_out (out s2 ++ first_events s2 START_PUBLISH (activePublicationIndex s2) IDs ++ [Kill Given]) (set_pubs t s2)) ∧
    ∀ j, ht_get j t = started IDs (FID_of_bytes (bytes_of_FID F)) j <$> ht_get j (activePublicationIndex s2).

Lemma answers_start (s : tm_server) result IDs (s1 s2 : proxy) pid anno F : can_answer s1 s2 → NoDup IDs → path_ids IDs →
  Forall (λ e, holds_path (srv_tm s) e.1 ∧ ∀ F, e.2 = Some F → FID_ok F) result → (nodeID (gc s2), Some F) ∈ result →
  ∃ e, e ∈ answers (srv_tm s) MATCH_PUB_SUBS IDs result ∧ starts_publications s1 s2 pid anno IDs F e.
Proof.
  intros [[W1 W2] (Hg1 & Hg2 & Hne) [Hno Hq]] Hnd HIDs HF Hin.
  eapply Forall_forall in HF as [(path & Ep & Op) HF]; [|exact Hin]. specialize (HF F eq_refl). cbn [fst] in Ep.
  destruct (answer_delivered s1 s2 pid anno path IDs F W1 W2 Hg1 Hg2 Hne Op HF Hnd HIDs Hno Hq) as (m & s1' & es & b & t & H).
  eexists. split; [apply list_elem_of_fmap; eexists; split; [reflexivity|exact Hin]|].
  eexists _, _, _, m, s1', es, b, t. split; [reflexivity|]. cbn [fst snd]. unfold path_to. rw Ep.
  destruct identifiers_agree as (_ & _ & _ & _ & E). rw E. exact H.
Qed.

(** [C24] Topology formation, from the rendezvous element of one node to the
    publishers, when the manager runs without extensions, keeps a path to each
    publisher, and each subscriber can be reached from one of the publishers
    ([manager_ready]).  The request that LocalRV builds for matched publishers
    and subscribers leaves its node over the path to the manager; the process
    of the manager hears it as a PUBLISHED_DATA event, and handles it: the
    calculation is counted, every publisher gets one answer, and no other node
    gets one.  Every subscriber is served by one of its nearest publishers,
    whose identifier all links of the path and the internal link of the
    subscriber match.  And the answer with an identifier, published by the
    library, leaves over the path to the publisher, whose proxy gives the
    matched publications that identifier and starts their first publisher. *)
Theorem match_starts_publishers (s : tm_server) strategy ps ss id0 IDs (s0 s1 : proxy) anno anno' h x
    (R : manager_ready beyond s ps ss) (Q : can_request s0 s1 h x) (Hnd : NoDup (id0 :: IDs)) (Hlen : zlen (mjoin (id0 :: IDs)) < 256)
    (Hf : msg_fields_ok (TMRendezvous MATCH_PUB_SUBS strategy ps ss (id0 :: IDs))) :
  ∃ m s0' es0 b es1 p d,
    encode (gc s0) (TMRendezvous MATCH_PUB_SUBS strategy ps ss (id0 :: IDs)) = Ok (Some <$> m) ∧
    LocalProxy_push 1 anno m s0 = Ok ((), set_out (out s0 ++ es0) s0') ∧
    Push 2 None Given (Some <$> bytes_of_FID (TMFID (gc s0)) ++ b) ∈ es0 ∧
    LocalProxy_push 2 anno' b s1 = Ok ((), set_out (out s1 ++ es1) s1) ∧
    Push 0 (Some (lh_id x)) p (Some <$> d) ∈ es1 ∧
    ∀ nl, out_buf_queue nl = [] → ∃ msg nl' ev s' n result,
      ToNetlink_selected (ToNetlink_push (lh_id x) d nl) = (Some (lh_id x, msg), nl') ∧
      Blackadder_getEvent Event_new (Some msg) = Ok ev ∧
      event_listener beyond qos uc_notification agent ev s = Ok (true, s') ∧ srv_tm s' = srv_tm s ∧
      happened s' = happened s ++ PathCalculations (root_scope_of id0) n :: answers (srv_tm s) MATCH_PUB_SUBS (id0 :: IDs) result ∧
      formation (srv_tm s) ps ss result ∧
      ∀ (s1 s2 : proxy) anno F, can_answer s1 s2 → (nodeID (gc s2), Some F) ∈ result →
        ∃ e, e ∈ happened s' ∧ starts_publications s1 s2 (lh_id x) anno (id0 :: IDs) F e.
Proof.
  destruct Q as [[W0 W1] [Hg Htm] [Hno Hq] [Hx Hproc] Hears].
  destruct (formation_run beyond qos uc_notification agent s (gc s0) MATCH_PUB_SUBS strategy ps ss id0 IDs [] [] R Hg Htm (or_introl eq_refl) Hf Hlen)
    as (b & s' & n & result & Hb & E & Erun & Es & Eh & Hform & HF).
  destruct Hb as [rest ->].
  destruct (request_delivered s0 s1 anno anno' MATCH_PUB_SUBS rest h x W0 W1 Hg Htm) as (b0 & s0' & es0 & es1 & p & d & E1 & H1 & E2 & H2 & Hev);
    [apply (bool_decide_eq_true_1 _); vm_compute; reflexivity|done..|].
  eexists _, s0', es0, b0, es1, p, d. split_and!; [exact E|exact E1|exact H1|exact E2|exact H2|].
  intros nl Enl. destruct (Hev nl Enl) as (msg & nl' & Esel & Eget). exists msg, nl', (request_event (gc s0) [] [] (MATCH_PUB_SUBS :: rest)), s', n, result.
  split_and!; [exact Esel|exact Eget|exact Erun|exact Es|exact Eh|exact Hform|].
  intros s3 s2 anno3 F Hcan Hin. destruct Hf as (_ & _ & HIDs).
  destruct (answers_start s result (id0 :: IDs) s3 s2 (lh_id x) anno3 F Hcan Hnd HIDs HF Hin) as (e & He & Hstart).
  exists e. split; [|exact Hstart]. rw Eh. set_solver.
Qed.
End matched.

(** ** An instance *)

(** The small network: the manager runs on node 1 as application 9; node 2
    publishes the item of Run2 and has the rendezvous element, node 3
    subscribes. *)
Module Matched.
Import Run2 Net.

Definition manager : proxy := after (push_all [mkIn 0 9 SUBSCRIBE_SCOPE TMScope [] IMPLICIT_RENDEZVOUS]) (proxy0 g1).
Definition process : ptr := 0%nat.
Definition srv : tm_server (IG := list_igraph) := mkSrv tm ∅ [].

Lemma manager_wf : wf manager.
Proof. apply push_all_wf; [by apply input_okb_ok|]. apply wf_initial, g1_ok. Qed.

Lemma g2_wf : gconf_wf g2.
Proof. split; try (by apply fid_wf); [done|]. split; [by apply fid_wf|left; done]. Qed.

Lemma tm_ready : tm_ok tm ∧ tm_graph tm = net ∧ extension tm = [false; false; false; false; false] ∧
  ∀ v, (v < 4)%nat → known tm (VAS_NODEID (net : graph) v) ∧ holds_path tm (VAS_NODEID (net : graph) v).
Proof.
  assert (∃ v, (v < igraph_vcount (net : graph))%nat ∧ VAS_NODEID (net : graph) v = name 1) as Hv by (exists 0%nat; split; [cbn; lia|done]).
  destruct (manager_starts (IG := list_igraph) net empty net_laws net_attributes eq_refl eq_refl eq_refl Hv Hv)
    as (tm1 & tm2 & E1 & E2 & T & G & X & Hk & Hp).
  assert (start = tm1) as Es by exact (f_equal (get empty) E1). rw -Es in E2.
  assert (tm = tm2) as -> by exact (f_equal (get start) E2).
  split_and!; [exact T|exact G|exact X|]. intros v Hv4. specialize (Hk v Hv4). split; [exact Hk|].
  destruct (Hp _ Hk) as (_ & _ & F & EF & [O _]). exists F. exact (conj EF O).
Qed.

Lemma srv_ready : manager_ready [0; 0] srv [name 2] [name 3].
Proof.
  destruct tm_ready as (T & G & X & Hk). split.
  - cbn [srv srv_tm]. rw G. exact net_laws.
  - exact T.
  - exact X.
  - constructor; [exact (Hk 1%nat ltac:(lia))|constructor].
  - constructor; [exact (proj1 (Hk 2%nat ltac:(lia)))|constructor].
  - intros p d. pose proof (list_paths tm p d) as H. cbn [srv srv_tm]. rw G in H. change (zlen (lg_nodes net)) with 4 in H. unfold UINT_MAX. lia.
  - intros d ->%list_elem_of_singleton. exists (name 2). split; [left|]. apply (bool_decide_eq_true_1 _). vm_compute. reflexivity.
  - cbn. lia.
Qed.

Lemma unheard s q k : ht_get k (activeSubscriptionIndex s) = None → ht_get (prefix_of k) (activeSubscriptionIndex s) = None → ¬ hears s q k.
Proof. intros E1 E2 [(? & E & _)|(? & E & _)]; congruence. Qed.

Lemma node2_requests : can_request state_b manager process (host_at manager process).
Proof.
  split.
  - exact (conj state_b_wf manager_wf).
  - assert (gc state_b = g2) as -> by (vm_compute; reflexivity). split; [exact g2_wf|reflexivity].
  - split; [vm_compute; reflexivity|]. intros q. apply unheard; vm_compute; reflexivity.
  - split; vm_compute; reflexivity.
  - assert (gc state_b = g2) as -> by (vm_compute; reflexivity). apply (bool_decide_eq_true_1 _). vm_compute. reflexivity.
Qed.

Lemma node2_answered : can_answer manager state_b.
Proof.
  split.
  - exact (conj manager_wf state_b_wf).
  - assert (gc state_b = g2) as -> by (vm_compute; reflexivity). assert (gc manager = g1) as -> by (vm_compute; reflexivity).
    split; [exact g1_wf|]. split; [exact g2_wf|]. apply (bool_decide_eq_true_1 _). vm_compute. reflexivity.
  - split; [vm_compute; reflexivity|]. intros q. apply unheard; vm_compute; reflexivity.
Qed.

End Matched.

Section instances.
Import Run2 Net Matched.

Lemma match_starts_publishers_witness : ∃ m ev s' F e,
  encode (gc state_b) (TMRendezvous MATCH_PUB_SUBS DOMAIN_LOCAL [name 2] [name 3] [k]) = Ok (Some <$> m) ∧
  event_listener [0; 0] None false (false, false) ev srv = Ok (true, s') ∧
  e ∈ happened s' ∧ starts_publications manager state_b 9 0 [k] F e ∧
  ∀ LID, vector_of (lid 11) LID ∨ vector_of (lid 12) LID ∨ vector_of (lid 2) LID → matches F LID = Ok true.
Proof.
  destruct tm_ready as (_ & G & _).
  assert (NoDup [k]) as Hnd by apply NoDup_singleton.
  assert (zlen (mjoin [k]) < 256) as Hlen by (vm_compute; reflexivity).
  assert (msg_fields_ok (TMRendezvous MATCH_PUB_SUBS DOMAIN_LOCAL [name 2] [name 3] [k])) as Hf.
  { split; [split; [constructor; [reflexivity|constructor]|vm_compute; reflexivity]|].
    split; [split; [constructor; [reflexivity|constructor]|vm_compute; reflexivity]|exact (proj2 (proj2 k_ok))]. }
  destruct (match_starts_publishers [0; 0] None false (false, false) srv DOMAIN_LOCAL [name 2] [name 3] k [] state_b manager 0 0
    process (host_at manager process) srv_ready node2_requests Hnd Hlen Hf) as (m & _ & _ & b & es1 & p & d & E & _ & _ & _ & _ & Hev).
  destruct (Hev (mkNl [] false false) eq_refl) as (msg & nl' & ev & s' & n & result & _ & _ & Erun & _ & _ & Hform & Hstart).
  destruct (fo_served _ _ _ _ Hform (name 3) ltac:(left)) as (p' & F & Hin & _ & _ & _ & Hlinks & Hdest).
  assert (p' = name 2) as ->.
  { apply list_elem_of_singleton. apply (proj2 (fo_keys _ _ _ _ Hform)). apply list_elem_of_fmap. exists (p', Some F). exact (conj eq_refl Hin). }
  destruct (Hstart manager state_b 0 F node2_answered Hin) as (e & He & Hs).
  exists m, ev, s', F, e. split; [exact E|]. split; [exact Erun|]. split; [exact He|]. split; [exact Hs|].
  cbn [srv srv_tm] in Hlinks, Hdest. rw G in Hlinks, Hdest. intros LID [HL|[HL|HL]].
  - apply (Hlinks 1%nat); [|exact HL]. apply (bool_decide_eq_true_1 _). vm_compute. reflexivity.
  - apply (Hlinks 2%nat); [|exact HL]. apply (bool_decide_eq_true_1 _). vm_compute. reflexivity.
  - apply (Hdest 2%nat); [vm_compute; reflexivity|exact HL].
Defined.
End instances.
