(* ===== verification/TopologyRepair.v ===== *)
(** * After a link failure

    What the topology manager does when a link is lost: every stored
    identifier that may use a lost link is calculated again, the nodes are told
    their new ones, and afterwards the identifiers lead where they should in
    the graph that is left. *)

From S2P Require Import Prelude Enums BitVector Packet Forwarder ForwarderProofs StdMap RvMessages ClientApi LibBitvector.
From S2P Require Import Topology TopologyPaths TopologyFID TopologyServe TopologyUpdate TopologyLinks TopologyManager TopologyRequests.

Section repair.
Context `{IG : Igraph} `{HP : Heap}.
Implicit Types (tm : tmgraph) (P C : nat → bool).

Abbreviation table := (list (bytes * option BABitvector)) (only parsing).

(** ** Bits *)

(** The bits of a link are among [P]. *)
Definition covers P (lid : BABitvector) : bool := forallb (λ i, negb (bv_bit lid i) || P i) (seq 0 256).
Definition empty_bits P : bool := forallb (λ i, negb (P i)) (seq 0 256).

Lemma covers_iff P lid : covers P lid = true ↔ ∀ i, (i < 256)%nat → bv_bit lid i = true → P i = true.
Proof.
  unfold covers. rw forallb_forall. split.
  - intros H i Hi Hb. specialize (H i ltac:(apply in_seq; lia)). by rw Hb in H.
  - intros H i Hi%in_seq. destruct (bv_bit lid i) eqn:E; [|done]. by rw H //; lia.
Qed.

Lemma uses_link_covers F lid P : has_bits F P → FID_ok lid → uses_link lid F = Ok (covers P lid).
Proof.
  intros [[WF MF] B] [Wl Ml]. destruct (lib_and_implements lid F Wl WF) as (c & E & Wc & Mc & Bc); [congruence|].
  unfold uses_link. rw E. cbn [mbind res_mbind res_bind]. f_equal.
  assert (has_bits c (λ i, bv_bit lid i && P i)) as Hc.
  { split; [split; [done|congruence]|]. intros i Hi. rw Bc ?B //. unfold bv_len, BABitvector_size. rw Ml. lia. }
  destruct (copy_bits (BABitvector_make (Z.of_nat FID_BITS)) c _ Hc) as [[W M] B']. apply eq_true_iff_eq.
  rw BABitvector_eqb_bits // M Ml covers_iff. unfold bv_len, BABitvector_size. rw M. split.
  - intros [_ H] i Hi Hb. specialize (H i ltac:(lia)). rw B' // Hb in H. exact H.
  - intros H. split; [done|]. intros i Hi. assert (i < 256)%nat as Hi' by lia. rw B' //. specialize (H i Hi').
    destruct (bv_bit lid i); [by rw H|done].
Qed.

Lemma zero_bits F P : has_bits F P → BABitvector_zero F = empty_bits P.
Proof.
  intros [[W M] B]. apply eq_true_iff_eq. rw BABitvector_zero_bits // FID_ok_len //. unfold empty_bits. rw forallb_forall. split.
  - intros H i Hi%in_seq. by rw -B ?H //; lia.
  - intros H i Hi. specialize (H i ltac:(apply in_seq; lia)). rw B //. by destruct (P i).
Qed.

(** ** Tables *)

(** The entry of [n] gets the bits [P], nothing else changes. *)
Definition table_set (m m' : table) (n : bytes) P : Prop :=
  m'.*1 = m.*1 ∧ (∃ F, map_find n m' = Some (Some F) ∧ has_bits F P) ∧ ∀ k, k ≠ n → map_find k m' = map_find k m.

Lemma table_set_refl m n F P : map_find n m = Some (Some F) → has_bits F P → table_set m m n P.
Proof. intros E H. split_and!; [done|by exists F|done]. Qed.
Lemma table_set_trans m m1 m2 n P Q : table_set m m1 n P → table_set m1 m2 n Q → table_set m m2 n Q.
Proof. intros (K1 & _ & O1) (K2 & H2 & O2). split_and!; [congruence|done|]. intros k Hk. by rw O2 // O1. Qed.
Lemma table_set_ext m m' n P Q : table_set m m' n P → (∀ i, (i < 256)%nat → P i = Q i) → table_set m m' n Q.
Proof. intros (K & (F & E & H) & O) HPQ. split_and!; [done| |done]. exists F. split; [done|]. by eapply has_bits_ext. Qed.

Lemma assign_set m n old F P : map_find n m = Some (Some old) → has_bits F P →
  ∃ m', map_assign n F m = Ok m' ∧ table_set m m' n P.
Proof.
  intros E H. unfold map_assign. rw E. eexists. split; [done|]. split_and!.
  - apply map_set_known_keys. by rw E.
  - eexists. rw map_find_set decide_True //. split; [done|]. by apply copy_bits.
  - intros k Hk. by rw map_find_set decide_False.
Qed.

(** The state with other tables, after [evs]. *)
Definition stored (rv t f : table) (evs : list tm_event) (s : tm_server) : tm_server :=
  mkSrv (set_FIDs rv t f (srv_tm s)) (moly_tm_requests s) (happened s ++ evs).

Lemma stored_nothing s : stored (tm_RVFID (srv_tm s)) (tm_TMFID (srv_tm s)) (TM_to_nodeFID (srv_tm s)) [] s = s.
Proof. destruct s as [tm r h]. unfold stored. cbn. rw app_nil_r. by destruct tm. Qed.
Lemma stored_stored rv t f e rv' t' f' e' s : stored rv' t' f' e' (stored rv t f e s) = stored rv' t' f' (e ++ e') s.
Proof. unfold stored. cbn. by rw app_assoc. Qed.

(** What is stored for a path after the lost links were compared with it: the
    path that is calculated, if one may be on it. *)
Definition compared (links : list ((nat * nat) * BABitvector)) P C : nat → bool :=
  if existsb (λ l, covers P l.2) links then C else P.

Lemma compared_cons l links P C : compared (l :: links) P C = compared links (if covers P l.2 then C else P) C.
Proof. unfold compared. cbn [existsb]. destruct (covers P l.2); cbn [orb]; [by destruct (existsb _ _)|done]. Qed.
#[local] Opaque covers empty_bits.

(** The bits of the path between two nodes in the graph. *)
Definition calculated tm (n d : bytes) (i : nat) : bool := negb (bool_decide (path_of tm n d = [])) && path_bits tm n d i.

(** ** One node *)

(** What the comparisons rely on: the tables of the graph, and the lost links. *)
Record can_repair tm (links : list ((nat * nat) * BABitvector)) : Prop := {
  cr_laws : igraph_laws (tm_graph tm);
  cr_tables : tm_ok tm;
  cr_ends : known tm (tm_nodeID tm) ∧ known tm (RVnodeID tm);
  cr_links : Forall (λ l, FID_ok l.2) links;
}.

Lemma can_repair_stored s links rv t f e : can_repair (srv_tm s) links → can_repair (srv_tm (stored rv t f e s)) links.
Proof. intros [L T K Hl]. split; [exact L|by apply set_FIDs_ok|exact K|exact Hl]. Qed.

Lemma calculate_run tm n d : igraph_laws (tm_graph tm) → tm_ok tm → known tm n → known tm d →
  ∃ F, calculateFID n d tm = Ok F ∧ has_bits F (calculated tm n d).
Proof. apply calculateFID_bits. Qed.

Lemma key_at (m : table) i n : map_ok m → m.*1 !! i = Some n → ∀ F, map_find n m = Some F → m !! i = Some (n, F).
Proof.
  intros Hm Hi F HF. rw list_lookup_fmap in Hi. destruct (m !! i) as [[k v]|] eqn:E; [|done]. injection Hi as ->.
  apply list_elem_of_lookup_2, map_find_elem in E; [|done]. congruence.
Qed.

Lemma wp_on_tm {A} (r : tmgraph → res A) a (Q : A → tm_server → Prop) s : r (srv_tm s) = Ok a → Q a s → wp (on_tm r) Q s.
Proof. intros E H. unfold wp, on_tm, from_res, mbind, T_bind, M_bind, gets. by rw E. Qed.
Lemma wp_deref_FID (get : tmgraph → res (option BABitvector)) F (Q : BABitvector → tm_server → Prop) s :
  get (srv_tm s) = Ok (Some F) → Q F s → wp (deref get) Q s.
Proof. intros E H. unfold deref. apply wp_bind. by eapply wp_on_tm. Qed.
Lemma wp_upd_tm (f : tmgraph → res tmgraph) tm' (Q : () → tm_server → Prop) s : f (srv_tm s) = Ok tm' → Q () (set_tm tm' s) → wp (upd_tm f) Q s.
Proof. intros E H. unfold upd_tm. apply wp_bind. eapply wp_on_tm; [done|]. by apply wp_modify. Qed.
Lemma wp_publish_to n id data (Q : () → tm_server → Prop) s : holds_path (srv_tm s) n →
  Q () (happens [publication (srv_tm s) n id data] s) → wp (publish_to n id (Some <$> data)) Q s.
Proof. intros Hp H. eapply ok_wp; [by apply publish_to_run|done]. Qed.

Lemma happens_stored l rv t f e s : happens l (stored rv t f e s) = stored rv t f (e ++ l) s.
Proof. unfold happens, stored. cbn. by rw app_assoc. Qed.

(** The tables of [s] but that of the paths to nodes, after [e]. *)
Definition moved f e s : tm_server := stored (tm_RVFID (srv_tm s)) (tm_TMFID (srv_tm s)) f e s.

Lemma wp_check_path s0 i n f e P notify acc l : can_repair (srv_tm s0) [l] → known (srv_tm s0) n →
  map_ok (TM_to_nodeFID (srv_tm s0)) → (TM_to_nodeFID (srv_tm s0)).*1 !! i = Some n → table_set (TM_to_nodeFID (srv_tm s0)) f n P →
  wp (check_path i notify acc l) (λ n' s', n' = n ∧ ∃ f' e', s' = moved f' e' s0 ∧
    table_set (TM_to_nodeFID (srv_tm s0)) f' n (if covers P l.2 then calculated (srv_tm s0) (tm_nodeID (srv_tm s0)) n else P)) (moved f e s0).
Proof.
  intros [L T [HT _] Hl] Hn Hm Hi Hf. set (tm := srv_tm s0) in *. apply Forall_cons in Hl as [Hl _].
  destruct Hf as (Hk & (F & HF & HFP) & Ho). assert (f !! i = Some (n, Some F)) as Hat.
  { apply key_at; [by unfold map_ok; rw Hk|by rw Hk|done]. }
  unfold check_path, at_iterator. apply wp_bind, wp_bind, wp_gets. apply wp_bind. eapply wp_lift_opt; [exact Hat|].
  apply wp_bind. eapply wp_lift_opt; [done|]. apply wp_ret. cbn [fst snd]. apply wp_bind.
  eapply wp_from_res; [by apply uses_link_covers|]. apply wp_bind.
  set (P' := if covers P l.2 then calculated tm (tm_nodeID tm) n else P).
  assert (wp (if covers P l.2 then tm ← gets srv_tm; F ← on_tm (calculateFID (tm_nodeID tm) n); upd_tm (setTM_to_nodeFID n F) else mret ())
    (λ _ s', ∃ f', s' = moved f' e s0 ∧ table_set (TM_to_nodeFID tm) f' n P') (moved f e s0)) as Hstep.
  { subst P'. destruct (covers P l.2); [|apply wp_ret; exists f; split; [done|]; split_and!; [done|by exists F|done]].
    apply wp_bind, wp_gets, wp_bind.
    destruct (calculate_run tm (tm_nodeID tm) n L T HT Hn) as (F' & E & HF').
    eapply wp_on_tm; [exact E|]. destruct (assign_set f n F F' _ HF HF') as (m' & Em & Hm').
    eapply wp_upd_tm; [unfold setTM_to_nodeFID; cbn [moved stored srv_tm set_FIDs TM_to_nodeFID]; rw Em; done|].
    exists m'. split; [done|]. eapply table_set_trans; [|exact Hm']. split_and!; [done|by exists F|done]. }
  eapply wp_mono; [exact Hstep|]. intros _ s' (f' & -> & Hf'). apply wp_bind.
  assert (wp (if notify then LID ← from_res (FID_read l.2); publish_to n pathMgmt_bin_full_id (Some <$> LID) else mret ())
    (λ _ s', ∃ e', s' = moved f' e' s0) (moved f' e s0)) as Htell.
  { destruct notify; [|apply wp_ret; by eexists]. apply wp_bind. eapply wp_from_res; [by apply FID_ok_read|].
    destruct Hf' as (_ & (F' & EF' & [OF' _]) & _). apply wp_publish_to; [by exists F'|]. eexists. unfold moved. by rw happens_stored. }
  eapply wp_mono; [exact Htell|]. intros _ s' [e' ->]. apply wp_ret. split; [done|]. by exists f', e'.
Qed.

Lemma can_repair_one tm l links : can_repair tm links → l ∈ links → can_repair tm [l].
Proof. intros [L T K Hl] Hin. split; [done..|]. constructor; [|constructor]. by eapply Forall_forall in Hl. Qed.

(** All lost links, for the path to the node. *)
Lemma wp_check_paths s0 i n F notify acc links : can_repair (srv_tm s0) links → known (srv_tm s0) n → links ≠ [] →
  map_ok (TM_to_nodeFID (srv_tm s0)) → (TM_to_nodeFID (srv_tm s0)).*1 !! i = Some n →
  map_find n (TM_to_nodeFID (srv_tm s0)) = Some (Some F) → FID_ok F →
  wp (mfoldl (check_path i notify) acc links) (λ n' s', n' = n ∧ ∃ f' e', s' = moved f' e' s0 ∧
    table_set (TM_to_nodeFID (srv_tm s0)) f' n (compared links (bv_bit F) (calculated (srv_tm s0) (tm_nodeID (srv_tm s0)) n))) s0.
Proof.
  intros R Hn Hne Hm Hi HF OF. set (C := calculated _ _ n).
  eapply wp_mono; [apply (wp_mfoldl (λ rest n' s', (n' = n ∨ rest = links) ∧ ∃ f' e' P', s' = moved f' e' s0 ∧
    table_set (TM_to_nodeFID (srv_tm s0)) f' n P' ∧ compared rest P' C = compared links (bv_bit F) C))|].
  - split; [by right|]. exists (TM_to_nodeFID (srv_tm s0)), [], (bv_bit F). split_and!; [by rw /moved stored_nothing| |done].
    by eapply table_set_refl.
  - intros l t b s [d Hd] (_ & f' & e' & P' & -> & Hf & Hc). eapply wp_mono.
    + apply wp_check_path; [eapply can_repair_one; [exact R|rw -Hd; set_solver]|exact Hn|exact Hm|exact Hi|exact Hf].
    + intros n' s' (-> & f2 & e2 & -> & Hf2). split; [by left|]. exists f2, e2. eexists. split_and!; [done|exact Hf2|].
      by rw -compared_cons.
  - intros n' s' ([->|E] & f' & e' & P' & -> & Hf & Hc); [|by destruct links]. split; [done|]. exists f', e'. split; [done|].
    cbn [compared] in Hc. unfold compared in Hc at 1. cbn [existsb] in Hc. by rw -Hc.
Qed.

(** The paths from the node: one lost link.  [f] is the table of the paths to
    nodes, which does not change any more. *)
Definition told_FID (f : table) (n : bytes) (type : Z) C (e : list tm_event) : Prop :=
  ∃ F G, map_find n f = Some (Some F) ∧ has_bits G C ∧
    Publish (resp_bin_prefix_id ++ n) (bytes_of_FID F) (Some <$> type :: bytes_of_FID G) ∈ e.

Lemma told_app f n type C e e' : told_FID f n type C e → told_FID f n type C (e ++ e').
Proof. intros (F & G & H1 & H2 & H3). exists F, G. set_solver. Qed.

Lemma wp_send_update s f n type C G (Q : () → tm_server → Prop) : TM_to_nodeFID (srv_tm s) = f → holds_path (srv_tm s) n → has_bits G C →
  (∀ ev, told_FID f n type C [ev] → Q () (happens [ev] s)) → wp (send_update type n G) Q s.
Proof.
  intros <- Hp HG H. unfold send_update. apply wp_bind. eapply wp_from_res; [apply FID_ok_read, HG|].
  unfold respond. apply wp_publish_to; [done|]. apply H. destruct Hp as (F & EF & OF). exists F, G. split_and!; [done|done|].
  unfold publication, path_to. rw EF. by left.
Qed.

(** One stored path of the node, compared with a lost link: [get] and [set]
    are those of one of the tables. *)
Lemma wp_check_RVTM s0 n f rv t e PR PT l : can_repair (srv_tm s0) [l] → known (srv_tm s0) n →
  (∃ F, map_find n f = Some (Some F) ∧ FID_ok F) →
  table_set (tm_RVFID (srv_tm s0)) rv n PR → table_set (tm_TMFID (srv_tm s0)) t n PT →
  let CR := calculated (srv_tm s0) n (RVnodeID (srv_tm s0)) in
  let CT := calculated (srv_tm s0) n (tm_nodeID (srv_tm s0)) in
  wp (check_RVTM n l) (λ _ s', ∃ rv' t' e', s' = stored rv' t' f (e ++ e') s0 ∧
    table_set (tm_RVFID (srv_tm s0)) rv' n (if covers PR l.2 then CR else PR) ∧
    table_set (tm_TMFID (srv_tm s0)) t' n (if covers PT l.2 then CT else PT) ∧
    (covers PR l.2 = true → told_FID f n UPDATE_RVFID CR e') ∧ (covers PT l.2 = true → told_FID f n UPDATE_TMFID CT e'))
    (stored rv t f e s0).
Proof.
  intros [L T [HT HR] Hl] Hn Hf Hrv Ht CR CT. set (tm := srv_tm s0) in *. apply Forall_cons in Hl as [Hl _].
  assert (Hrv' := Hrv). assert (Ht' := Ht). destruct Hrv' as (_ & (R & ER & HRP) & _), Ht' as (_ & (M & EM & HMP) & _).
  unfold check_RVTM. apply wp_bind. eapply wp_deref_FID; [unfold getRVFID; cbn [stored srv_tm set_FIDs tm_RVFID]; by rw ER|].
  apply wp_bind. eapply wp_from_res; [by apply uses_link_covers|]. apply wp_bind.
  assert (wp (if covers PR l.2 then tm ← gets srv_tm; F ← on_tm (calculateFID n (RVnodeID tm)); upd_tm (setRVFID n F);; send_update UPDATE_RVFID n F
      else mret ()) (λ _ s', ∃ rv' e', s' = stored rv' t f (e ++ e') s0 ∧
      table_set (tm_RVFID tm) rv' n (if covers PR l.2 then CR else PR) ∧ (covers PR l.2 = true → told_FID f n UPDATE_RVFID CR e'))
    (stored rv t f e s0)) as Hstep.
  { destruct (covers PR l.2); [|apply wp_ret; exists rv, []; by rw app_nil_r].
    apply wp_bind, wp_gets, wp_bind. destruct (calculate_run tm n (RVnodeID tm) L T Hn HR) as (F & E & HF).
    eapply wp_on_tm; [exact E|]. destruct (assign_set rv n R F _ ER HF) as (m' & Em & Hm'). apply wp_bind.
    eapply wp_upd_tm; [unfold setRVFID; cbn [stored srv_tm set_FIDs tm_RVFID]; rw Em; done|].
    apply (wp_send_update _ f n UPDATE_RVFID CR); [done|done|done|]. intros ev Htold. exists m', [ev].
    split; [by unfold stored, happens; cbn; rw app_assoc|]. split; [by eapply table_set_trans|done]. }
  eapply wp_mono; [exact Hstep|]. intros _ s' (rv' & e1 & -> & Hrv' & Htold). apply wp_bind.
  eapply wp_deref_FID; [unfold getTMFID; cbn [stored srv_tm set_FIDs tm_TMFID]; by rw EM|].
  apply wp_bind. eapply wp_from_res; [by apply uses_link_covers|].
  destruct (covers PT l.2).
  - apply wp_bind, wp_gets, wp_bind. destruct (calculate_run tm n (tm_nodeID tm) L T Hn HT) as (F & E & HF).
    eapply wp_on_tm; [exact E|]. destruct (assign_set t n M F _ EM HF) as (m' & Em & Hm'). apply wp_bind.
    eapply wp_upd_tm; [unfold setTMFID; cbn [stored srv_tm set_FIDs tm_TMFID]; rw Em; done|].
    apply (wp_send_update _ f n UPDATE_TMFID CT); [done|done|done|]. intros ev Htold'. exists rv', m', (e1 ++ [ev]).
    split_and!; [by unfold stored, happens; cbn; rw !app_assoc|done|by eapply table_set_trans| |].
    + intros H. by apply told_app, Htold.
    + intros _. destruct Htold' as (F1 & G1 & H1 & H2 & H3). exists F1, G1. set_solver.
  - apply wp_ret. exists rv', t, e1. by split_and!.
Qed.

Lemma told_prefix f n type C e e' : told_FID f n type C e' → told_FID f n type C (e ++ e').
Proof. intros (F & G & H1 & H2 & H3). exists F, G. set_solver. Qed.

(** Whether a lost link may be on a path with the bits [P]. *)
Definition hit (links : list ((nat * nat) * BABitvector)) P : bool := existsb (λ l, covers P l.2) links.

(** What becomes of the entries of a node for its own paths. *)
Definition own_paths tm f n links PR PT (rv t rv' t' : table) (e : list tm_event) : Prop :=
  table_set rv rv' n (compared links PR (calculated tm n (RVnodeID tm))) ∧
  table_set t t' n (compared links PT (calculated tm n (tm_nodeID tm))) ∧
  (hit links PR = true → told_FID f n UPDATE_RVFID (calculated tm n (RVnodeID tm)) e) ∧
  (hit links PT = true → told_FID f n UPDATE_TMFID (calculated tm n (tm_nodeID tm)) e).

Lemma wp_check_RVTMs s0 n f rv t e PR PT links : can_repair (srv_tm s0) links → known (srv_tm s0) n →
  (∃ F, map_find n f = Some (Some F) ∧ FID_ok F) →
  table_set (tm_RVFID (srv_tm s0)) rv n PR → table_set (tm_TMFID (srv_tm s0)) t n PT →
  wp (mfor links (check_RVTM n)) (λ _ s', ∃ rv' t' e', s' = stored rv' t' f (e ++ e') s0 ∧
    own_paths (srv_tm s0) f n links PR PT (tm_RVFID (srv_tm s0)) (tm_TMFID (srv_tm s0)) rv' t' e')
    (stored rv t f e s0).
Proof.
  intros R Hn Hf. revert rv t e PR PT. induction links as [|l links IH]; intros rv t e PR PT Hrv Ht.
  { apply wp_ret. exists rv, t, []. rw app_nil_r. by split_and!. }
  cbn [mfor]. apply wp_bind. eapply wp_mono; [apply wp_check_RVTM; [by eapply can_repair_one; [|left]|done|done|exact Hrv|exact Ht]|].
  intros _ s' (rv1 & t1 & e1 & -> & Hrv1 & Ht1 & Htr & Htt). eapply wp_mono; [apply IH; [|exact Hrv1|exact Ht1]|].
  { destruct R as [L T K Hl]. split; [done..|]. by apply Forall_cons in Hl as [_ ?]. }
  intros _ s' (rv2 & t2 & e2 & -> & Hrv2 & Ht2 & Htr2 & Htt2). exists rv2, t2, (e1 ++ e2). rw -app_assoc.
  split; [done|]. split_and!; rw ?compared_cons //.
  - unfold hit in *. cbn [existsb]. destruct (covers PR l.2); [by intros _; apply told_app, Htr|]. intros H. by apply told_prefix, Htr2.
  - unfold hit in *. cbn [existsb]. destruct (covers PT l.2); [by intros _; apply told_app, Htt|]. intros H. by apply told_prefix, Htt2.
Qed.

(** ** The turn of a node *)

Definition none_bits (_ : nat) : bool := false.

(** From the entries [PF], [PR] and [PT] of the node. *)
Definition node_repaired tm links n PF PR PT (rv t f rv' t' f' : table) (e : list tm_event) : Prop :=
  let PF' := compared links PF (calculated tm (tm_nodeID tm) n) in
  table_set f f' n PF' ∧
  if empty_bits PF' then table_set rv rv' n none_bits ∧ table_set t t' n none_bits
  else own_paths tm f' n links PR PT rv t rv' t' e.

Lemma wp_check_node s0 i n F PR PT notify links acc all : can_repair (srv_tm s0) links → known (srv_tm s0) n → links ≠ [] →
  map_ok (TM_to_nodeFID (srv_tm s0)) → (TM_to_nodeFID (srv_tm s0)).*1 !! i = Some n →
  map_find n (TM_to_nodeFID (srv_tm s0)) = Some (Some F) → FID_ok F → FID_ok all →
  table_set (tm_RVFID (srv_tm s0)) (tm_RVFID (srv_tm s0)) n PR → table_set (tm_TMFID (srv_tm s0)) (tm_TMFID (srv_tm s0)) n PT →
  wp (check_node notify links (acc, all) i) (λ r s', r.1 = n ∧ FID_ok r.2 ∧ ∃ rv' t' f' e, s' = stored rv' t' f' e s0 ∧
    node_repaired (srv_tm s0) links n (bv_bit F) PR PT (tm_RVFID (srv_tm s0)) (tm_TMFID (srv_tm s0)) (TM_to_nodeFID (srv_tm s0))
      rv' t' f' e) s0.
Proof.
  intros R Hn Hne Hm Hi HF OF Oall Hrv Ht. set (tm := srv_tm s0) in *. unfold check_node. apply wp_bind.
  eapply wp_mono; [by apply wp_check_paths|]. intros _ s' (-> & f' & e & -> & Hf). fold tm in Hf.
  set (PF' := compared links (bv_bit F) (calculated tm (tm_nodeID tm) n)) in *. assert (Hf' := Hf). destruct Hf' as (_ & (F' & EF' & HF') & _).
  apply wp_bind. eapply wp_deref_FID; [unfold getTM_to_nodeFID; cbn [moved stored srv_tm set_FIDs TM_to_nodeFID]; by rw EF'|].
  rw (zero_bits F' PF' HF'). apply wp_bind.
  assert (wp (if empty_bits PF' then upd_tm (setRVFID n AllzeroFID);; upd_tm (setTMFID n AllzeroFID) else mfor links (check_RVTM n))
    (λ _ s', ∃ rv' t' e', s' = stored rv' t' f' (e ++ e') s0 ∧
      if empty_bits PF' then table_set (tm_RVFID tm) rv' n none_bits ∧ table_set (tm_TMFID tm) t' n none_bits
      else own_paths tm f' n links PR PT (tm_RVFID tm) (tm_TMFID tm) rv' t' e') (moved f' e s0)) as Hown.
  { destruct (empty_bits PF').
    - assert (has_bits AllzeroFID none_bits) as Hz by apply zeros_bits.
      assert (Hrv' := Hrv). assert (Ht' := Ht). destruct Hrv' as (_ & (B & EB & _) & _), Ht' as (_ & (M & EM & _) & _).
      destruct (assign_set _ n B _ _ EB Hz) as (rv' & Erv & Hrv'). destruct (assign_set _ n M _ _ EM Hz) as (t' & Et & Ht').
      apply wp_bind. eapply wp_upd_tm; [unfold setRVFID; cbn [moved stored srv_tm set_FIDs tm_RVFID]; fold tm; rw Erv; done|].
      eapply wp_upd_tm; [unfold setTMFID; cbn [set_tm moved stored srv_tm set_FIDs tm_TMFID]; fold tm; rw Et; done|].
      exists rv', t', []. rw app_nil_r. done.
    - eapply wp_mono; [apply wp_check_RVTMs; [exact R|exact Hn|exists F'; split; [exact EF'|apply HF']|exact Hrv|exact Ht]|].
      intros _ s' (rv' & t' & e' & -> & H). by exists rv', t', e'. }
  eapply wp_mono; [exact Hown|]. intros _ s' (rv' & t' & e' & -> & Hres). apply wp_bind.
  eapply wp_deref_FID; [unfold getTM_to_nodeFID; cbn [stored srv_tm set_FIDs TM_to_nodeFID]; by rw EF'|].
  assert (has_bits all (bv_bit all)) as Hall by by split.
  destruct (or_into_bits all F' _ _ Hall HF') as (A & EA & HA). apply wp_bind. eapply wp_from_res; [exact EA|].
  apply wp_ret. cbn [fst snd]. split; [done|]. split; [apply HA|]. exists rv', t', f', (e ++ e'). split; [done|].
  split; [exact Hf|]. fold PF'. destruct (empty_bits PF'); [done|]. destruct Hres as (H1 & H2 & H3 & H4).
  split_and!; [done|done|intros H; by apply told_prefix, H3|intros H; by apply told_prefix, H4].
Qed.

(** ** All nodes *)

(** There is an entry for each node, in all tables. *)
Record entries_ok tm : Prop := {
  en_ok : map_ok (TM_to_nodeFID tm);
  en_count : length (reverse_node_index tm) = length (TM_to_nodeFID tm);
  en_known n : n ∈ (TM_to_nodeFID tm).*1 → known tm n ∧
    (∃ F, map_find n (TM_to_nodeFID tm) = Some (Some F) ∧ FID_ok F) ∧
    (∃ F, map_find n (tm_RVFID tm) = Some (Some F) ∧ FID_ok F) ∧ (∃ F, map_find n (tm_TMFID tm) = Some (Some F) ∧ FID_ok F);
}.

(** The entries of a node after a failure. *)
Definition entry_repaired tm links n (rv t f : table) (e : list tm_event) : Prop :=
  ∃ F R M F' R' M', map_find n (TM_to_nodeFID tm) = Some (Some F) ∧ map_find n (tm_RVFID tm) = Some (Some R) ∧
    map_find n (tm_TMFID tm) = Some (Some M) ∧
    map_find n f = Some (Some F') ∧ map_find n rv = Some (Some R') ∧ map_find n t = Some (Some M') ∧
    has_bits F' (compared links (bv_bit F) (calculated tm (tm_nodeID tm) n)) ∧
    if BABitvector_zero F' then has_bits R' none_bits ∧ has_bits M' none_bits
    else has_bits R' (compared links (bv_bit R) (calculated tm n (RVnodeID tm))) ∧
      has_bits M' (compared links (bv_bit M) (calculated tm n (tm_nodeID tm))) ∧
      (hit links (bv_bit R) = true → told_FID f n UPDATE_RVFID (calculated tm n (RVnodeID tm)) e) ∧
      (hit links (bv_bit M) = true → told_FID f n UPDATE_TMFID (calculated tm n (tm_nodeID tm)) e).

Definition entry_kept tm n (rv t f : table) : Prop :=
  map_find n rv = map_find n (tm_RVFID tm) ∧ map_find n t = map_find n (tm_TMFID tm) ∧ map_find n f = map_find n (TM_to_nodeFID tm).

Lemma entry_repaired_kept tm links n rv t f e rv' t' f' e' : entry_repaired tm links n rv t f e →
  map_find n rv' = map_find n rv → map_find n t' = map_find n t → map_find n f' = map_find n f → entry_repaired tm links n rv' t' f' (e ++ e').
Proof.
  intros (F & R & M & F' & R' & M' & H1 & H2 & H3 & H4 & H5 & H6 & HF & H) Er Et Ef. exists F, R, M, F', R', M'.
  rw Er Et Ef. split_and!; try done. destruct (BABitvector_zero F'); [done|]. destruct H as (HR & HM & Hr & Ht).
  split_and!; [done|done| |]; [intros E; apply Hr in E as (F1 & G & E1 & E2 & E3)|intros E; apply Ht in E as (F1 & G & E1 & E2 & E3)];
    exists F1, G; rw Ef; set_solver.
Qed.

Lemma wp_link_failed s0 notify : let tm := srv_tm s0 in let links := freedLIDs tm in
  can_repair tm links → entries_ok tm → links ≠ [] →
  wp (link_failed notify) (λ all s', FID_ok all ∧ ∃ rv t f e, s' = stored rv t f e s0 ∧ f.*1 = (TM_to_nodeFID tm).*1 ∧
    ∀ n, n ∈ (TM_to_nodeFID tm).*1 → entry_repaired tm links n rv t f e) s0.
Proof.
  intros tm links R [Hm Hcount Hk] Hne. unfold link_failed, no_nodes. apply wp_bind, wp_gets, wp_bind, wp_gets, wp_bind. fold tm links.
  set (nodes := (TM_to_nodeFID tm).*1) in *. set (N := length nodes).
  assert (length (reverse_node_index tm) = N) as -> by (unfold N, nodes; by rw length_fmap).
  eapply wp_mono; [apply (wp_mfoldl (λ rest acc s', FID_ok acc.2 ∧ ∃ rv t f e k, s' = stored rv t f e s0 ∧ rest = seq k (N - k) ∧
    (k ≤ N)%nat ∧ f.*1 = nodes ∧ (∀ j n, nodes !! j = Some n → if (j <? k)%nat then entry_repaired tm links n rv t f e else entry_kept tm n rv t f)))|].
  - split; [apply zeros_bits|]. exists (tm_RVFID tm), (tm_TMFID tm), (TM_to_nodeFID tm), [], 0%nat.
    split_and!; [by rw stored_nothing|by rw Nat.sub_0_r|lia|done|]. intros j n _. by destruct j.
  - intros i rest [acc all] s' _ (Oall & rv & t & f & e & k & -> & Hrest & Hle & Hf & Hj).
    destruct (N - k)%nat as [|r] eqn:Er; [done|]. cbn [seq] in Hrest. injection Hrest as -> ->.
    destruct (lookup_lt_is_Some_2 nodes k) as [n Hn]; [unfold N in *; lia|].
    pose proof (Hj k n Hn) as Hkept. rw Nat.ltb_irrefl in Hkept. destruct Hkept as (Erv & Et & Ef).
    destruct (Hk n) as (Hkn & (F & EF & OF) & (B & EB & OB) & (M & EM & OM)); [by eapply list_elem_of_lookup_2|].
    rw EF in Ef. rw EB in Erv. rw EM in Et. cbn [snd] in Oall.
    eapply wp_mono; [apply (wp_check_node (stored rv t f e s0) k n F (bv_bit B) (bv_bit M)); try done|].
    + by apply can_repair_stored.
    + unfold map_ok. cbn [stored srv_tm set_FIDs TM_to_nodeFID]. by rw Hf.
    + cbn [stored srv_tm set_FIDs TM_to_nodeFID]. by rw Hf.
    + by eapply table_set_refl.
    + by eapply table_set_refl.
    + intros [acc' all'] s' (E & Oall' & rv' & t' & f' & e' & -> & Hrep). cbn [fst snd] in E, Oall' |- *. split; [done|].
      exists rv', t', f', (e ++ e'), (S k). split_and!; [by rw stored_stored|by replace (N - S k)%nat with r by lia|lia| |].
      { destruct Hrep as [(Kf & _) _]. cbn [stored srv_tm set_FIDs TM_to_nodeFID] in Kf. by rw Kf. }
      cbn [stored srv_tm set_FIDs TM_to_nodeFID tm_RVFID tm_TMFID] in Hrep.
      intros j q Hq. destruct (decide (j = k)) as [->|Hjk].
      * assert (q = n) as -> by congruence. rw (proj2 (Nat.ltb_lt _ _) (Nat.lt_succ_diag_r k)).
        destruct Hrep as ((_ & (F' & EF' & HF') & _) & Hown). rw -(zero_bits F' _ HF') in Hown.
        destruct (BABitvector_zero F') eqn:Ez.
        -- destruct Hown as [(_ & (R' & ER' & HR') & _) (_ & (M' & EM' & HM') & _)].
           exists F, B, M, F', R', M'. split_and!; try done. by rw Ez.
        -- destruct Hown as ((_ & (R' & ER' & HR') & _) & (_ & (M' & EM' & HM') & _) & Hr & Ht).
           exists F, B, M, F', R', M'. split_and!; try done. rw Ez. split_and!; [done|done| |].
           ++ intros H. by apply told_prefix, Hr.
           ++ intros H. by apply told_prefix, Ht.
      * assert (q ≠ n) as Hqn by (intros ->; apply Hjk; by eapply NoDup_lookup).
        assert (map_find q rv' = map_find q rv ∧ map_find q t' = map_find q t ∧ map_find q f' = map_find q f) as (E1 & E2 & E3).
        { destruct Hrep as ((_ & _ & Of) & Hown). destruct (empty_bits _).
          - destruct Hown as [(_ & _ & Or) (_ & _ & Ot)]. by rw Or // Ot // Of.
          - destruct Hown as ((_ & _ & Or) & (_ & _ & Ot) & _). by rw Or // Ot // Of. }
        specialize (Hj j q Hq). assert ((j <? S k)%nat = (j <? k)%nat) as -> by lia. destruct (j <? k)%nat.
        -- by eapply entry_repaired_kept.
        -- unfold entry_kept in *. by rw E1 E2 E3.
  - intros [acc all] s' (Oall & rv & t & f & e & k & -> & Hrest & Hle & Hf & Hj). apply wp_ret. split; [done|].
    exists rv, t, f, e. split_and!; [done|done|]. intros n [j Hn]%list_elem_of_lookup. specialize (Hj j n Hn).
    destruct (N - k)%nat as [|r] eqn:Er; [|done]. apply lookup_lt_Some in Hn as Hlt.
    assert ((j <? k)%nat = true) as E by (apply Nat.ltb_lt; unfold N in *; lia). by rw E in Hj.
Qed.
End repair.
