(* ===== verification/TopologyFailure.v ===== *)
(** * Paths through failures

    That the identifiers the topology manager keeps lead where they should in
    the graph as it is, and still do after a link was reported as lost. *)

From S2P Require Import Prelude Enums BitVector Packet Forwarder ForwarderProofs StdMap RvMessages ClientApi LibBitvector.
From S2P Require Import Topology TopologyPaths TopologyFID TopologyServe TopologyUpdate TopologyLinks TopologyManager TopologyRequests TopologyRepair.

Section failure.
Context `{IG : Igraph} `{HP : Heap}.
Implicit Types (tm : tmgraph) (g : graph) (F : BABitvector) (P C : nat → bool).

(** ** Routes *)

(** The forwarding test succeeds for the identifier [s]. *)
Definition recognised F (s : bytes) : Prop := ∀ LID, vector_of s LID → matches F LID = Ok true.

(** A packet with [F] gets from [u] to [v], and to the node itself there. *)
Inductive route g F : nat → nat → Prop :=
  | route_end v : (v < igraph_vcount g)%nat → recognised F (VAS_iLID g v) → route g F v v
  | route_hop u v w s : (u < igraph_vcount g)%nat → ((u, v), s) ∈ links g → recognised F s → route g F v w → route g F u w.

(** [F] leads from [s] to [d], or is zero and there is no way. *)
Definition conducts tm F (s d : bytes) : Prop :=
  ∃ u v, map_find s (reverse_node_index tm) = Some u ∧ map_find d (reverse_node_index tm) = Some v ∧
    (route (tm_graph tm) F u v ∨ BABitvector_zero F = true ∧ ∀ p, ¬ walk (tm_graph tm) u v p).

Lemma recognised_iff F s : FID_ok F → attr_ok s →
  recognised F s ↔ ∀ i, (i < 256)%nat → attr_bit s i = true → bv_bit F i = true.
Proof.
  intros O A. split.
  - intros H i Hi Hb. destruct (of_attribute s A) as (L & _ & HL). specialize (H L HL).
    apply (proj1 (matches_iff F L O (proj1 HL)) H i Hi). destruct HL as [_ BL]. by rw BL.
  - intros H LID HL. by apply (bits_match F LID (bv_bit F) s).
Qed.

(** Identifiers with the same bits are recognised alike. *)
Lemma recognised_bits F P s : has_bits F P → attr_ok s → (∀ i, (i < 256)%nat → attr_bit s i = true → P i = true) → recognised F s.
Proof. intros HF A H. apply recognised_iff; [apply HF|done|]. intros i Hi Hb. destruct HF as [_ B]. rw B //. by apply H. Qed.

Lemma recognised_same F F' s : FID_ok F → has_bits F' (bv_bit F) → attr_ok s → recognised F s → recognised F' s.
Proof. intros O HF' A H. apply (recognised_bits F' (bv_bit F)); [done|done|]. by apply recognised_iff. Qed.

Lemma link_attr_ok g p s : attributes_ok g → (p, s) ∈ links g → attr_ok s.
Proof. intros A H. by apply (attributes_links g A (p, s)). Qed.

Lemma route_same g F F' u v : attributes_ok g → FID_ok F → has_bits F' (bv_bit F) → route g F u v → route g F' u v.
Proof.
  intros A O H. induction 1 as [v Hv Hr|u v w s Hu Hin Hr Hw IH].
  - constructor; [done|]. apply (recognised_same F); [done|done|by apply (ao_nodes _ A)|done].
  - eapply route_hop; [done|done| |exact IH]. apply (recognised_same F); [done|done|by eapply link_attr_ok|done].
Qed.

Lemma zero_same F F' : FID_ok F → has_bits F' (bv_bit F) → BABitvector_zero F' = BABitvector_zero F.
Proof. intros O H. rw (zero_bits F (bv_bit F)); [|by split]. by apply zero_bits. Qed.

(** A walk whose links are in the identifier is a route. *)
Lemma walk_route g u v p F P : igraph_laws g → attributes_ok g → walk g u v p → has_bits F P →
  (∀ i, (i < 256)%nat → links_bit g p i = true → P i = true) →
  (∀ i, (i < 256)%nat → attr_bit (VAS_iLID g v) i = true → P i = true) → route g F u v.
Proof.
  intros L A Hw HF. induction Hw as [v Hv|u v w e' p Hu He Hw IH]; intros Hl Hi.
  - constructor; [done|]. apply (recognised_bits F P); [done|by apply (ao_nodes _ A)|done].
  - destruct (path_eids_walk g u v w p e' L He Hw) as (q & e & -> & _ & Hedge & Ep).
    assert (∀ i, links_bit g (u :: v :: q) i = attr_bit (EAS_LID g e) i || links_bit g (v :: q) i) as Hb.
    { intros i. unfold links_bit. by rw Ep. }
    eapply (route_hop g F u v w (EAS_LID g e)); [done|by apply link_of_edge| |].
    + apply (recognised_bits F P); [done|by apply (ao_edges _ A), Hedge|]. intros i Hi' E. apply Hl; [done|]. by rw Hb E.
    + apply IH; [|done]. intros i Hi' E. apply Hl; [done|]. by rw Hb E orb_true_r.
Qed.

(** What is calculated leads where it should. *)
Lemma calculated_conducts tm s d F : igraph_laws (tm_graph tm) → tm_ok tm → known tm s → known tm d →
  has_bits F (calculated tm s d) → conducts tm F s d.
Proof.
  intros L T [u Eu] [v Ev] HF. exists u, v. split_and!; [done|done|].
  destruct (decide (path_of tm s d = [])) as [En|Hn].
  - right. split.
    + rw (zero_bits F _ HF). rw -(zero_bits (BABitvector_make (Z.of_nat FID_BITS)) (calculated tm s d)); [by vm_compute|].
      eapply has_bits_ext; [apply zeros_bits|]. intros i _. unfold calculated. by rw bool_decide_eq_true_2.
    + intros p Hp. apply (law_shortest _ L) in Hp as [Hp _]. apply Hp. unfold path_of in En. by rw Eu Ev in En.
  - left. eapply (walk_route _ _ _ (path_of tm s d) F (calculated tm s d)); [done|apply to_attributes, T|by apply path_walk|done| |].
    + intros i _ E. unfold calculated, path_bits. by rw bool_decide_eq_false_2 // E.
    + intros i _ E. unfold calculated, path_bits, iLID_bit. rw bool_decide_eq_false_2 // Ev E. by rw orb_true_r.
Qed.

(** ** Links that are lost *)

(** The links [ps] of [g] are out of [g'], and their identifiers are in [fl]. *)
Record lost g g' (ps : list (nat * nat)) (fl : list ((nat * nat) * BABitvector)) : Prop := {
  lo_links : links g' ≡ₚ without ps (links g);
  lo_vertices : same_vertices g g';
  lo_freed p s : p ∈ ps → (p, s) ∈ links g → ∃ b, (p, b) ∈ fl ∧ has_bits b (attr_bit s);
}.

(** A link that is lost is recognised as one that may be on the path. *)
Lemma lost_hit fl P F b s p : has_bits F P → attr_ok s → (p, b) ∈ fl → has_bits b (attr_bit s) → recognised F s → hit fl P = true.
Proof.
  intros HF A Hin [Ob Bb] Hr. unfold hit. apply existsb_exists. exists (p, b). split; [by apply list_elem_of_In|].
  apply covers_iff. intros i Hi Hb. cbn in Hb. rw Bb // in Hb. destruct HF as [O B]. rw -B //.
  by apply (proj1 (recognised_iff F s O A) Hr).
Qed.

Lemma route_kept g g' ps fl F P u v : attributes_ok g → lost g g' ps fl → has_bits F P → hit fl P = false →
  route g F u v → route g' F u v.
Proof.
  intros A [Hl (Ev & En & Ei) Hf] HF Hh. induction 1 as [v Hv Hr|u v w s Hu Hin Hr Hw IH].
  - constructor; [by rw Ev|by rw Ei].
  - apply (route_hop g' F u v w s); [by rw Ev| |done|done]. rw Hl. unfold without. apply list_elem_of_filter. split; [|done].
    intros Hps. destruct (Hf _ _ Hps Hin) as (b & Hb & Hbs). assert (attr_ok s) as As by (by eapply link_attr_ok).
    by rw (lost_hit fl P F b s (u, v) HF As Hb Hbs Hr) in Hh.
Qed.

Lemma walk_lost g g' ps fl u v p : lost g g' ps fl → walk g' u v p → walk g u v p.
Proof.
  intros [Hl (Ev & _) _]. induction 1 as [v Hv|u v w e p Hu He%link_of_edge Hw IH]; [constructor; by rw -Ev|].
  rw Hl in He. apply list_elem_of_filter in He as [_ He]. apply edge_of_link in He as (e' & He' & _).
  eapply walk_cons; [by rw -Ev|exact He'|exact IH].
Qed.

(** The comparison with the lost links keeps what still leads to its end. *)
Lemma conducts_lost tm tm' ps F F' s d : igraph_laws (tm_graph tm') → tm_ok tm → tm_ok tm' →
  lost (tm_graph tm) (tm_graph tm') ps (freedLIDs tm') → reverse_node_index tm' = reverse_node_index tm → FID_ok F →
  conducts tm F s d → has_bits F' (compared (freedLIDs tm') (bv_bit F) (calculated tm' s d)) → conducts tm' F' s d.
Proof.
  intros L T T' Hlost Er O (u & v & Eu & Ev & Hc) HF'. unfold compared in HF'. fold (hit (freedLIDs tm') (bv_bit F)) in HF'.
  destruct (hit (freedLIDs tm') (bv_bit F)) eqn:Eh.
  - apply calculated_conducts; [done|done|eexists; by rw Er|eexists; by rw Er|done].
  - exists u, v. rw Er. split_and!; [done|done|]. destruct Hc as [Hr|[Hz Hn]].
    + left. apply (route_same _ F); [apply to_attributes, T'|done|done|].
      eapply (route_kept (tm_graph tm) _ ps _ F (bv_bit F)); [apply to_attributes, T|done|done|done|done].
    + right. split; [by rw (zero_same F)|]. intros p Hp. eapply (Hn p), walk_lost; [exact Hlost|exact Hp].
Qed.

(** ** The state of the manager *)

(** The three identifiers of a node, and where they lead; a node that is not
    reached needs none. *)
Definition node_served tm (n : bytes) : Prop :=
  ∃ F R M, map_find n (TM_to_nodeFID tm) = Some (Some F) ∧ map_find n (tm_RVFID tm) = Some (Some R) ∧
    map_find n (tm_TMFID tm) = Some (Some M) ∧ conducts tm F (tm_nodeID tm) n ∧
    (BABitvector_zero F = false → conducts tm R n (RVnodeID tm) ∧ conducts tm M n (tm_nodeID tm)).

Record manager_ok tm : Prop := {
  mo_tables : tm_ok tm;
  mo_ends : known tm (tm_nodeID tm) ∧ known tm (RVnodeID tm);
  mo_entries : entries_ok tm;
  mo_links : NoDup (links (tm_graph tm)).*1;
  mo_named v : (v < igraph_vcount (tm_graph tm))%nat → ∃ i, (i < 256)%nat ∧ attr_bit (VAS_iLID (tm_graph tm) v) i = true;
  mo_apart p : p ∈ (links (tm_graph tm)).*1 → map_find p (freedLIDs tm) = None;
  mo_freed : Forall (λ l, FID_ok l.2) (freedLIDs tm);
  mo_paths n : n ∈ (TM_to_nodeFID tm).*1 → node_served tm n;
}.

(** The nodes are the same. *)
Definition same_nodes tm tm' : Prop := tm_nodeID tm' = tm_nodeID tm ∧ RVnodeID tm' = RVnodeID tm ∧
  (RMnodeID tm' = RMnodeID tm ∧ extension tm' = extension tm) ∧
  reverse_node_index tm' = reverse_node_index tm ∧ (TM_to_nodeFID tm').*1 = (TM_to_nodeFID tm).*1.

(** The node is told an identifier, over the path it has. *)
Definition informed (n : bytes) (F : BABitvector) (type : Z) (G : BABitvector) (e : list tm_event) : Prop :=
  Publish (resp_bin_prefix_id ++ n) (bytes_of_FID F) (Some <$> type :: bytes_of_FID G) ∈ e.

Definition same_bits F G : Prop := ∀ i, (i < 256)%nat → bv_bit F i = bv_bit G i.

(** From [tm] to [tm']: a node that is not reached any more loses its paths,
    any other one is told the identifiers that are not what they were. *)
Definition node_updated tm tm' (n : bytes) (e : list tm_event) : Prop :=
  ∃ R M F' R' M', map_find n (tm_RVFID tm) = Some (Some R) ∧ map_find n (tm_TMFID tm) = Some (Some M) ∧
    map_find n (TM_to_nodeFID tm') = Some (Some F') ∧ map_find n (tm_RVFID tm') = Some (Some R') ∧ map_find n (tm_TMFID tm') = Some (Some M') ∧
    if BABitvector_zero F' then BABitvector_zero R' = true ∧ BABitvector_zero M' = true
    else (¬ same_bits R R' → informed n F' UPDATE_RVFID R' e) ∧ (¬ same_bits M M' → informed n F' UPDATE_TMFID M' e).

(** With an internal identifier for every node, zero means that there is no
    way. *)
Lemma route_walk g F u v : route g F u v → ∃ p, walk g u v p.
Proof.
  induction 1 as [v Hv _|u v w s Hu (e & He & _)%edge_of_link _ _ [p Hp]]; [exists [v]; by constructor|].
  exists (u :: p). by eapply walk_cons.
Qed.

Lemma route_nonzero g F u v : attributes_ok g → FID_ok F → route g F u v →
  (∀ v, (v < igraph_vcount g)%nat → ∃ i, (i < 256)%nat ∧ attr_bit (VAS_iLID g v) i = true) → BABitvector_zero F = false.
Proof.
  intros A O H Hn. induction H as [v Hv Hr|]; [|done]. destruct (BABitvector_zero F) eqn:Ez; [|done].
  destruct (Hn v Hv) as (i & Hi & Hb). apply (proj1 (recognised_iff F _ O (ao_nodes _ A v Hv)) Hr) in Hb; [|done].
  rw (proj1 (BABitvector_zero_bits F (proj1 O)) Ez) // in Hb. by rw FID_ok_len.
Qed.

Lemma conducts_zero tm F s d u v : manager_ok tm → FID_ok F → conducts tm F s d →
  map_find s (reverse_node_index tm) = Some u → map_find d (reverse_node_index tm) = Some v →
  BABitvector_zero F = true ↔ ∀ p, ¬ walk (tm_graph tm) u v p.
Proof.
  intros M O (u' & v' & Eu' & Ev' & Hc) Eu Ev. assert (u' = u ∧ v' = v) as [-> ->] by (split; congruence).
  destruct Hc as [Hr|[Hz Hn]]; [|done]. split.
  - intros Hz. pose proof (route_nonzero _ _ _ _ (to_attributes _ (mo_tables _ M)) O Hr (mo_named _ M)). congruence.
  - intros Hn. destruct (route_walk _ _ _ _ Hr) as [p Hp]. by destruct (Hn p).
Qed.

(** ** A failure *)

(** [tm'] is [tm] without the links [ps]. *)
Record fails tm ps tm' : Prop := {
  fa_tables : tm_ok tm';
  fa_lost : lost (tm_graph tm) (tm_graph tm') ps (freedLIDs tm');
  fa_nodes : reverse_node_index tm' = reverse_node_index tm;
  fa_same : same_paths tm tm';
  fa_links : NoDup (links (tm_graph tm')).*1;
  fa_apart p : p ∈ (links (tm_graph tm')).*1 → map_find p (freedLIDs tm') = None;
  fa_freed : Forall (λ l, FID_ok l.2) (freedLIDs tm') ∧ freedLIDs tm' ≠ [];
}.

Lemma compared_same fl P C : hit fl P = false → compared fl P C = P.
Proof. unfold compared, hit. by intros ->. Qed.
Lemma compared_hit fl P C : hit fl P = true → compared fl P C = C.
Proof. unfold compared, hit. by intros ->. Qed.

(** A node is told what is not as it was. *)
Lemma told_informed f n type fl R R' C F e : FID_ok R → has_bits R' (compared fl (bv_bit R) C) →
  map_find n f = Some (Some F) → (hit fl (bv_bit R) = true → told_FID f n type C e) → ¬ same_bits R R' → informed n F type R' e.
Proof.
  intros O HR' EF Ht Hd. destruct (hit fl (bv_bit R)) eqn:Eh.
  - destruct (Ht eq_refl) as (F1 & G & EF1 & HG & Hin). rw compared_hit // in HR'. assert (F1 = F) as -> by congruence.
    unfold informed. rw -(same_bits_bytes R' G) //; [apply HR'|]. eapply has_bits_ext; [exact HG|]. intros i Hi.
    destruct HR' as [_ B]. by rw B.
  - destruct Hd. rw compared_same // in HR'. intros i Hi. destruct HR' as [_ B]. by rw B.
Qed.

Lemma none_zero F : has_bits F none_bits → BABitvector_zero F = true.
Proof. intros H. apply BABitvector_zero_bits; [apply H|]. intros i Hi. destruct H as [O B]. rw B //. by rw FID_ok_len in Hi. Qed.

(** The entries of a node that were there before: one turn of the loop. *)
Lemma entry_updated tm ps tm' rv t f e n : (∀ g, igraph_laws g) → manager_ok tm → fails tm ps tm' →
  n ∈ (TM_to_nodeFID tm).*1 → entry_repaired tm' (freedLIDs tm') n rv t f e →
  let tm2 := set_FIDs rv t f tm' in
  node_served tm2 n ∧ node_updated tm tm2 n e ∧ known tm2 n ∧
    (∃ F, map_find n f = Some (Some F) ∧ FID_ok F) ∧ (∃ F, map_find n rv = Some (Some F) ∧ FID_ok F) ∧
    ∃ F, map_find n t = Some (Some F) ∧ FID_ok F.
Proof.
  intros laws M [T' Hl Er (EN & ERV & EX & Erv & Et & Ef) _ _ _] Hn Hrep tm2.
  destruct (en_known _ (mo_entries _ M) n Hn) as (Hk & (F & EF & OF) & (R & ER & OR) & (B & EB & OB)).
  destruct (mo_paths _ M n Hn) as (F0 & R0 & B0 & EF0 & ER0 & EB0 & Hc & Hown).
  assert (F0 = F ∧ R0 = R ∧ B0 = B) as (-> & -> & ->) by (split_and!; congruence).
  destruct Hrep as (F0 & R0 & B0 & F' & R' & B' & EF1 & ER1 & EB1 & EF' & ER' & EB' & HF' & H).
  assert (F0 = F ∧ R0 = R ∧ B0 = B) as (-> & -> & ->) by (split_and!; congruence).
  assert (conducts tm' F' (tm_nodeID tm') n) as Hc'.
  { rw EN. rw EN in HF'. by eapply (conducts_lost tm tm' ps F F'); [|apply (mo_tables _ M)|..]. }
  split; [|split; [|split]].
  - exists F', R', B'. split_and!; [exact EF'|exact ER'|exact EB'|exact Hc'|]. intros Ez. rw Ez in H. destruct H as (HR & HB & _).
    assert (BABitvector_zero F = false) as Ez0.
    { destruct (BABitvector_zero F) eqn:E; [|done]. exfalso. destruct Hc as (u & v & Eu & Ev & Hc).
      assert (∀ p, ¬ walk (tm_graph tm) u v p) as Hno.
      { apply (proj1 (conducts_zero tm F (tm_nodeID tm) n u v M OF (ex_intro _ u (ex_intro _ v (conj Eu (conj Ev Hc)))) Eu Ev) E). }
      destruct Hc' as (u' & v' & Eu' & Ev' & [Hr|[Hz _]]); [|congruence]. rw EN Er in Eu'. rw Er in Ev'.
      assert (u' = u ∧ v' = v) as [-> ->] by (split; congruence). destruct (route_walk _ _ _ _ Hr) as [p Hp].
      by apply (walk_lost _ _ _ _ _ _ _ Hl), Hno in Hp. }
    destruct (Hown Ez0) as [HcR HcM]. cbn [set_FIDs tm_nodeID RVnodeID]. split.
    + rw ERV. rw ERV in HR. by eapply (conducts_lost tm tm' ps R R'); [|apply (mo_tables _ M)|..].
    + rw EN. rw EN in HB. by eapply (conducts_lost tm tm' ps B B'); [|apply (mo_tables _ M)|..].
  - exists R, B, F', R', B'. split_and!; [exact ER|exact EB|exact EF'|exact ER'|exact EB'|].
    destruct (BABitvector_zero F'); [split; apply none_zero, H|]. destruct H as (HR & HB & HtR & HtB).
    split; [eapply told_informed; [exact OR|exact HR|exact EF'|exact HtR]|eapply told_informed; [exact OB|exact HB|exact EF'|exact HtB]].
  - unfold known. cbn [set_FIDs reverse_node_index]. by rw Er.
  - split_and!; [exists F'; split; [done|apply HF']|..].
    + exists R'. split; [done|]. destruct (BABitvector_zero F'); apply H.
    + exists B'. split; [done|]. destruct (BABitvector_zero F'); apply H.
Qed.

Lemma wp_failure s0 tm ps notify : (∀ g, igraph_laws g) → manager_ok tm → fails tm ps (srv_tm s0) →
  wp (link_failed notify) (λ all s', FID_ok all ∧ ∃ rv t f e, s' = stored rv t f e s0 ∧ manager_ok (srv_tm s') ∧
    same_nodes tm (srv_tm s') ∧
    ∀ n, n ∈ (TM_to_nodeFID tm).*1 → node_updated tm (srv_tm s') n e) s0.
Proof.
  intros laws M Hf. assert (Hf' := Hf). destruct Hf' as [T' Hl Er (EN & ERV & EX & Erv & Et & Ef) Hnd Hap [Hfl Hne]].
  eapply wp_mono; [apply (wp_link_failed s0 notify)|].
  - split; [apply laws|done| |done]. unfold known. rw EN ERV Er. apply (mo_ends _ M).
  - destruct (mo_entries _ M) as [H1 H2 H3]. split; rw ?Ef ?Er ?Erv ?Et; [done|done|]. unfold known. by rw Er.
  - done.
  - intros all s' (Oall & rv & t & f & e & -> & Ek & Hrep). rw Ef in Ek, Hrep. split; [done|]. exists rv, t, f, e. split; [done|].
    pose proof (λ n Hn, entry_updated tm ps _ rv t f e n laws M Hf Hn (Hrep n Hn)) as Hup. cbn [stored srv_tm].
    split; [|split; [split_and!; [exact EN|exact ERV|apply EX|apply EX|exact Er|exact Ek]|intros n Hn; apply Hup, Hn]]. split; cbn [set_FIDs tm_graph freedLIDs TM_to_nodeFID]; [by apply set_FIDs_ok| | |done| |done|done|].
    + unfold known. cbn. rw EN ERV Er. apply (mo_ends _ M).
    + destruct (mo_entries _ M) as [H1 H2 H3]. split; cbn [set_FIDs TM_to_nodeFID reverse_node_index tm_RVFID tm_TMFID].
      * unfold map_ok. by rw Ek.
      * rw Er H2. by rw -!(length_fmap fst) Ek.
      * intros n Hn. rw Ek in Hn. by apply Hup.
    + destruct (lo_vertices _ _ _ _ Hl) as (Ev & _ & Ei). intros v. rw Ev Ei. apply (mo_named _ M).
    + intros n Hn. rw Ek in Hn. by apply Hup.
Qed.

(** ** The report *)

Context `{IE : !IgraphEdits} (laws : ∀ g, igraph_laws g).

Lemma map_add_Forall {K V} `{EqDecision K} `{KeyOrder K} (P : K * V → Prop) k v (m : list (K * V)) :
  P (k, v) → Forall P m → Forall P (map_add k v m).
Proof.
  intros Hk Hm. unfold map_add. destruct (map_find k m); [done|]. induction Hm as [|[j w] m Hj Hm IH]; cbn; [by constructor|].
  destruct (key_ltb k j); by repeat constructor.
Qed.

Lemma find_in {K V} `{EqDecision K} (k : K) (v : V) m : map_find k m = Some v → (k, v) ∈ m.
Proof. induction m as [|[j w] m IH]; [done|]. cbn. case_decide as E; [intros [= ->]; subst; by left|]. intros Hm. right. by apply IH. Qed.

(** The removal of a link in both directions. *)
Lemma update_fails tm source destination u v : manager_ok tm → u ≠ v →
  map_find source (reverse_node_index tm) = Some u → map_find destination (reverse_node_index tm) = Some v →
  (u, v) ∈ (links (tm_graph tm)).*1 → (v, u) ∈ (links (tm_graph tm)).*1 →
  ∃ tm' rs, updateGraph source destination true true (true, true) tm = Ok (true, tm', rs) ∧ fails tm [(u, v); (v, u)] tm'.
Proof.
  intros M Hne Hs Hd ([p1 s] & Ep1 & Hl)%list_elem_of_fmap ([p2 s'] & Ep2 & Hl')%list_elem_of_fmap. cbn in Ep1, Ep2. subst p1 p2.
  destruct M as [T _ _ Hnd _ Hap Hfl _]. assert ((u, v) ≠ (v, u)) as Hpq by congruence.
  destruct (remove_both laws tm source destination _ _ s s' T Hnd Hl Hl' Hpq) as (tm1 & rs & b & b' & E & Ht & Ef & Hsame & Eb & Eb' & Hb & Hb' & _);
    [by apply Hap, (list_elem_of_fmap_2 fst _ ((u, v), s))|by apply Hap, (list_elem_of_fmap_2 fst _ ((v, u), s'))|].
  destruct Ht as (T1 & Hl1 & Hn1 & _ & Er & Hv). exists tm1, rs. split.
  - unfold updateGraph. rw Hs Hd. cbn [found or_fault mbind res_mbind res_bind].
    destruct (proj1 (eid_link _ (u, v) (laws (tm_graph tm)))) as [e Ee]; [by exists s|]. cbn [fst snd] in Ee. rw Ee. exact E.
  - split; [done| |done|done| | |].
    + split; [done|done|]. intros p x [->|[->|Hp]%elem_of_cons]%elem_of_cons Hx; [| |by apply elem_of_nil in Hp].
      * rw (ends_unique _ _ x s Hnd Hx Hl). exists b. split; [by apply find_in|done].
      * rw (ends_unique _ _ x s' Hnd Hx Hl'). exists b'. split; [by apply find_in|done].
    + rw Hl1. by apply NoDup_without.
    + intros p. rw Hl1. intros ([q x] & -> & Hin)%list_elem_of_fmap. apply list_elem_of_filter in Hin as [Hq Hin]. apply Hn1.
      split; [done|]. by apply Hap, (list_elem_of_fmap_2 fst _ (q, x)).
    + split; [|intros En; by rw En in Eb]. rw Ef. apply map_add_Forall; [apply Hb'|]. apply map_add_Forall; [apply Hb|done].
Qed.

(** The report is read as a string: nothing of it is a null. *)
Lemma c_string_app (l m z : bytes) : Forall (λ c, c ≠ 0) l → c_string m = Ok z → c_string (l ++ m) = Ok (l ++ z).
Proof.
  intros Hl Hm. induction Hl as [|c l Hc Hl IH]; [done|]. cbn [app c_string]. destruct (Z.eqb_spec c 0); [done|].
  by rw IH.
Qed.

Lemma wp_read_report beyond answers type net_type source z s destination r (Q : bool * bool * Z * bytes → tm_server → Prop) :
  type ≠ 0 → net_type ≠ 0 → length source = NODEID_LEN → Forall (λ c, c ≠ 0) source → c_string beyond = Ok z →
  updateGraph source destination true (type =? REMOVE_LINK) answers (srv_tm s) = Ok r →
  Q (r.1.1, type =? REMOVE_LINK, net_type, source) (happens (LinkState <$> r.2) (set_tm r.1.2 s)) →
  wp (read_report beyond answers ([type; net_type] ++ source) destination) Q s.
Proof.
  intros Ht Hn Hl Hs Hb Hu HQ. unfold read_report. apply wp_bind. eapply wp_from_res; [done|]. apply wp_bind.
  eapply wp_from_res; [done|]. apply wp_bind. eapply wp_from_res.
  { unfold c_substr. rw -app_assoc (c_string_app [type; net_type] _ (source ++ z)); [|by repeat constructor|by apply c_string_app].
    cbn [mbind res_mbind res_bind]. destruct (Nat.ltb_spec (length ([type; net_type] ++ source ++ z)) 2); [cbn in *; lia|].
    cbn [app drop]. rw take_app_le; [|by rw Hl]. rw take_ge; [done|by rw Hl]. }
  apply wp_bind. destruct (Z.eqb_spec net_type 0); [done|]. eapply wp_on_tm; [exact Hu|]. destruct r as [[update tm'] rs].
  apply wp_bind, wp_modify, wp_bind, wp_modify, wp_ret. exact HQ.
Qed.

Lemma happens_app l l' (s : tm_server) : happens l' (happens l s) = happens (l ++ l') s.
Proof. unfold happens. cbn. by rw app_assoc. Qed.

Lemma node_updated_more tm tm' n e e' : e ⊆ e' → node_updated tm tm' n e → node_updated tm tm' n e'.
Proof.
  intros He (R & M & F' & R' & M' & H1 & H2 & H3 & H4 & H5 & H). exists R, M, F', R', M'. split_and!; [done..|].
  destruct (BABitvector_zero F'); [done|]. destruct H as [HR HM]. split; intros Hd; apply He; [by apply HR|by apply HM].
Qed.

(** The lost links are published, or were told to each node. *)
Lemma wp_announce (b : bool) all s : FID_ok all → Forall (λ l, FID_ok l.2) (freedLIDs (srv_tm s)) →
  wp (links ← gets (λ s, freedLIDs (srv_tm s));
    if b then mret () else
    FID ← from_res (FID_read all);
    mfor links (λ link, LID ← from_res (FID_read link.2); publish_data pathMgmt_bin_full_id FID (Some <$> LID)))
    (λ _ s', ∃ e, s' = happens e s) s.
Proof.
  intros Oall Hfl. apply wp_bind, wp_gets. destruct b; [apply wp_ret; exists []; by rw happens_nil|].
  apply wp_bind. eapply wp_from_res; [by apply FID_ok_read|]. apply wp_mfor_inv; [exists []; by rw happens_nil|].
  intros l s1 Hin [e ->]. apply wp_bind. eapply wp_from_res; [apply FID_ok_read; by eapply Forall_forall in Hfl|].
  apply wp_modify. eexists. by rw happens_app.
Qed.

(** [C6] A link between two nodes, in both directions, is reported as lost,
    with path management, and the monitoring agent answers for both
    directions (with an agent that does not answer the graph keeps the link:
    TopologyLinks.silent_agent_keeps_link).  Afterwards the graph is without
    it, and the manager is again in a state in which the tables agree with the
    graph and the identifiers it keeps for each node lead, in the graph that is
    left, from the manager to the node, and for a node that is reached from it
    to the rendezvous node and to the manager; zero is kept only where there is
    no way.  A node that is still reached is sent each identifier that is not
    what it was, over the path it has now, and one that is not any more loses
    its paths. *)
Theorem link_failure_repaired beyond uc_notification (s : tm_server) source destination net_type z u v
    (M : manager_ok (srv_tm s)) (Hlen : length source = NODEID_LEN) (Hstr : Forall (λ c, c ≠ 0) source)
    (Hb : c_string beyond = Ok z) (Hnt : net_type ≠ 0) (Hne : u ≠ v)
    (Hs : map_find source (reverse_node_index (srv_tm s)) = Some u) (Hd : map_find destination (reverse_node_index (srv_tm s)) = Some v)
    (Hl : (u, v) ∈ (links (tm_graph (srv_tm s))).*1) (Hl' : (v, u) ∈ (links (tm_graph (srv_tm s))).*1) :
  ∃ s' e, handleLinkStateNotificationPM beyond uc_notification (true, true) ([REMOVE_LINK; net_type] ++ source) destination s = Ok ((), s') ∧
    links (tm_graph (srv_tm s')) ≡ₚ without [(u, v); (v, u)] (links (tm_graph (srv_tm s))) ∧
    manager_ok (srv_tm s') ∧ same_nodes (srv_tm s) (srv_tm s') ∧
    happened s' = happened s ++ e ∧ ∀ n, n ∈ (TM_to_nodeFID (srv_tm s)).*1 → node_updated (srv_tm s) (srv_tm s') n e.
Proof.
  destruct (update_fails _ source destination u v M Hne Hs Hd Hl Hl') as (tm' & rs & E & Hf).
  enough (wp (handleLinkStateNotificationPM beyond uc_notification (true, true) ([REMOVE_LINK; net_type] ++ source) destination)
    (λ _ s', ∃ e, links (tm_graph (srv_tm s')) ≡ₚ without [(u, v); (v, u)] (links (tm_graph (srv_tm s))) ∧
      manager_ok (srv_tm s') ∧ same_nodes (srv_tm s) (srv_tm s') ∧
      happened s' = happened s ++ e ∧ ∀ n, n ∈ (TM_to_nodeFID (srv_tm s)).*1 → node_updated (srv_tm s) (srv_tm s') n e) s) as Hwp.
  { apply wp_ok in Hwp as ([] & s' & Erun & e & H). by exists s', e. }
  unfold handleLinkStateNotificationPM. apply wp_bind. eapply wp_read_report; [done|done|done|done|exact Hb|exact E|].
  cbn [fst snd negb]. change (REMOVE_LINK =? REMOVE_LINK) with true. cbn match. apply wp_bind.
  eapply wp_mono; [apply (wp_failure _ (srv_tm s) [(u, v); (v, u)]); [done|done|exact Hf]|].
  intros all s1 (Oall & rv & t & f & e & -> & M' & Ek & Hup).
  eapply wp_mono; [apply wp_announce; [done|apply (mo_freed _ M')]|]. intros _ s' [e' ->].
  exists ((LinkState <$> rs) ++ e ++ e'). cbn [happens stored set_tm srv_tm happened] in *. split_and!; [|exact M'|exact Ek|by rw -!app_assoc|].
  - exact (lo_links _ _ _ _ (fa_lost _ _ _ Hf)).
  - intros n Hn. eapply node_updated_more; [|by apply Hup]. set_solver.
Qed.

(** ** The state after the start *)

Lemma calculate_all_keys nodes tm tm' : calculate_all nodes tm = Ok tm' → NoDup nodes →
  (∀ n, n ∈ nodes → map_find n (TM_to_nodeFID tm) = None) → map_ok (TM_to_nodeFID tm) →
  map_ok (TM_to_nodeFID tm') ∧ (TM_to_nodeFID tm').*1 ≡ₚ nodes ++ (TM_to_nodeFID tm).*1.
Proof.
  revert tm. induction nodes as [|n nodes IH]; intros tm H Hnd Hno Hm; [by injection H as <-|].
  apply NoDup_cons in Hnd as [Hn Hnd]. cbn [calculate_all] in H.
  destruct (calculateFID n (RVnodeID tm) tm) as [rv|]; [|done]. cbn [mbind res_mbind res_bind] in H.
  destruct (calculateFID n (tm_nodeID tm) tm) as [t|]; [|done]. cbn [mbind res_mbind res_bind] in H.
  destruct (calculateFID (tm_nodeID tm) n tm) as [f|]; [|done]. cbn [mbind res_mbind res_bind] in H.
  apply IH in H as [H1 H2]; [|done| |by apply map_ok_set].
  - split; [done|]. rw H2. cbn [set_FIDs TM_to_nodeFID]. unfold map_set. rw Hno; [|by left]. rw map_place_keys. by rw -Permutation_middle.
  - intros k Hk. cbn [set_FIDs TM_to_nodeFID]. rw map_find_set decide_False; [|by intros ->]. apply Hno. by right.
Qed.

Lemma read_vertices_keys vs tm tm' : read_vertices vs tm = Ok tm' → map_ok (reverse_node_index tm) →
  map_ok (reverse_node_index tm') ∧ TM_to_nodeFID tm' = TM_to_nodeFID tm ∧ freedLIDs tm' = freedLIDs tm.
Proof.
  revert tm. induction vs as [|v vs IH]; intros tm; [by intros [= <-]|]. cbn [read_vertices].
  destruct (Bitvector_of_string _ _) as [b|]; [|done]. cbn [mbind res_mbind res_bind]. intros H Hm.
  apply IH in H as (H1 & H2 & H3); [by split_and!|]. cbn. by apply map_ok_add.
Qed.

Lemma read_edges_keys es tm tm' : read_edges es tm = Ok tm' → reverse_node_index tm' = reverse_node_index tm ∧
  TM_to_nodeFID tm' = TM_to_nodeFID tm ∧ freedLIDs tm' = freedLIDs tm.
Proof.
  revert tm. induction es as [|e es IH]; intros tm; [by intros [= <-]|]. cbn [read_edges].
  destruct (Bitvector_of_string _ _) as [b|]; [|done]. cbn [mbind res_mbind res_bind]. by intros (H1 & H2 & H3)%IH.
Qed.

(** A manager that has read its topology and calculated its paths. *)
Lemma manager_starts_ok g tm : attributes_ok g → NoDup (links g).*1 →
  (∀ v, (v < igraph_vcount g)%nat → ∃ i, (i < 256)%nat ∧ attr_bit (VAS_iLID g v) i = true) →
  reverse_node_index tm = [] → nodeID_iLID tm = [] → edge_LID tm = [] → TM_to_nodeFID tm = [] → freedLIDs tm = [] →
  (∃ v, (v < igraph_vcount g)%nat ∧ VAS_NODEID g v = RVnodeID tm) → (∃ v, (v < igraph_vcount g)%nat ∧ VAS_NODEID g v = tm_nodeID tm) →
  ∃ tm1 tm2, readTopology g tm = Ok tm1 ∧ calculateRVTMFIDs tm1 = Ok tm2 ∧ manager_ok tm2 ∧ tm_graph tm2 = g ∧
    tm_nodeID tm2 = tm_nodeID tm ∧ RVnodeID tm2 = RVnodeID tm ∧ extension tm2 = extension tm.
Proof.
  intros A Hnd Hnamed H1 H2 H3 H4 H5 HR HT.
  destruct (readTopology_ok g tm A H1 H2 H3) as (tm1 & E1 & T & G & EN & ER & EX & _).
  assert (map_ok (reverse_node_index tm1) ∧ TM_to_nodeFID tm1 = [] ∧ freedLIDs tm1 = []) as (Hmap & Ef & Efr).
  { unfold readTopology in E1. destruct (read_vertices _ _) as [tm0|] eqn:E0; [|done]. cbn [mbind res_mbind res_bind] in E1.
    apply read_vertices_keys in E0 as (K1 & K2 & K3); [|cbn; rw H1; constructor]. apply read_edges_keys in E1 as (-> & -> & ->).
    rw K2 K3. by split_and!. }
  assert (∀ n, (∃ v, (v < igraph_vcount g)%nat ∧ VAS_NODEID g v = n) → known tm1 n) as Hk.
  { intros n (v & Hv & En). exists v. apply (to_nodes _ T). by rw G. }
  assert (known tm1 (RVnodeID tm1) ∧ known tm1 (tm_nodeID tm1)) as [KR KT] by (split; [rw ER|rw EN]; by apply Hk).
  assert (Forall (known tm1) (reverse_node_index tm1).*1) as Hall by (apply Forall_forall; intros n Hn; by apply map_find_keys).
  destruct (calculate_all_run (reverse_node_index tm1).*1 tm1 (laws _) T Hall KR KT) as (rv & t & f & E2 & Hp & _).
  destruct (calculate_all_keys _ _ _ E2) as [Hok Hkeys]; [done|by rw Ef|rw Ef; constructor|]. rw Ef app_nil_r in Hkeys.
  cbn [set_FIDs TM_to_nodeFID] in Hok, Hkeys. exists tm1, (set_FIDs rv t f tm1).
  assert (∀ n, n ∈ f.*1 → n ∈ (reverse_node_index tm1).*1) as Hin by (intros n; by rw Hkeys).
  split_and!; [done|exact E2| |done..]. split; cbn [set_FIDs tm_graph freedLIDs TM_to_nodeFID].
  - by apply set_FIDs_ok.
  - done.
  - split; cbn [set_FIDs TM_to_nodeFID reverse_node_index tm_RVFID tm_TMFID]; [done|by rw -(length_fmap fst f) Hkeys length_fmap|].
    intros n Hn%Hin. split; [by apply map_find_keys|].
    destruct (Hp n Hn) as ((F1 & K1 & L1) & (F2 & K2 & L2) & (F3 & K3 & L3)).
    split_and!; eexists; (split; [eassumption|]); [apply L3|apply L1|apply L2].
  - by rw G.
  - by rw G.
  - intros p _. by rw Efr.
  - by rw Efr.
  - intros n Hn%Hin. destruct (Hp n Hn) as ((F1 & K1 & L1) & (F2 & K2 & L2) & (F3 & K3 & L3)). apply map_find_keys in Hn.
    exists F3, F1, F2. split_and!; [done|done|done| |].
    + by apply (calculated_conducts tm1).
    + intros _. split; by apply (calculated_conducts tm1).
Qed.
End failure.
