(* ===== verification/TopologyReturn.v ===== *)
(** * Paths after a link returned

    The nodes that a link that returned can reach again get their paths; what
    was kept for the others still leads where it should, if the rendezvous node
    is the one of the manager. *)

From S2P Require Import Prelude Enums BitVector Packet Forwarder ForwarderProofs StdMap RvMessages ClientApi LibBitvector.
From S2P Require Import Topology TopologyPaths TopologyFID TopologyServe TopologyUpdate TopologyLinks TopologyManager TopologyRequests TopologyRepair TopologyFailure.

Section return_.
Context `{IG : Igraph} `{HP : Heap}.
Implicit Types (tm : tmgraph) (g : graph) (F : BABitvector) (P C : nat → bool).

(** ** A graph with more links *)

Record extends g g' : Prop := {
  ex_links l : l ∈ links g → l ∈ links g';
  ex_vertices : same_vertices g g';
}.

Lemma route_extends g g' F u v : extends g g' → route g F u v → route g' F u v.
Proof.
  intros [Hl (Ev & _ & Ei)]. induction 1 as [v Hv Hr|u v w s Hu Hin Hr Hw IH]; [constructor; [by rw Ev|by rw Ei]|].
  apply (route_hop g' F u v w s); [by rw Ev|by apply Hl|done|done].
Qed.

Definition both_ways g : Prop := ∀ u v, (u, v) ∈ (links g).*1 → (v, u) ∈ (links g).*1.

Lemma walk_snoc g u v w e p : walk g u v p → edge g v w e → (w < igraph_vcount g)%nat → walk g u w (p ++ [w]).
Proof.
  intros Hw He Hv. revert He. induction Hw as [u Hu|u x v e' p Hu He' Hw IH]; intros He; cbn.
  - eapply walk_cons; [done|exact He|by constructor].
  - eapply walk_cons; [done|exact He'|by apply IH].
Qed.

Lemma walk_back g u v p : both_ways g → walk g u v p → ∃ q, walk g v u q.
Proof.
  intros Hb. induction 1 as [u Hu|u v w e p Hu He%link_of_edge Hw [q Hq]]; [exists [u]; by constructor|].
  apply (list_elem_of_fmap_2 fst) in He. apply Hb, list_elem_of_fmap in He as ([p' s] & Ep & Hin). cbn in Ep. subst p'.
  apply edge_of_link in Hin as (e' & He' & _). exists (q ++ [u]). by eapply walk_snoc.
Qed.

(** What leads to its end still does; zero does where there still is no way. *)
Lemma conducts_extends tm tm' F s d : manager_ok tm → FID_ok F → conducts tm F s d → extends (tm_graph tm) (tm_graph tm') →
  reverse_node_index tm' = reverse_node_index tm → BABitvector_zero F = false → conducts tm' F s d.
Proof.
  intros M O (u & v & Eu & Ev & Hc) Hx Er Hz. exists u, v. rw Er. split_and!; [done|done|]. left.
  destruct Hc as [Hr|[Hz' _]]; [by eapply route_extends|congruence].
Qed.

(** Other identifiers may be kept for the links that are out. *)
Lemma set_freed_manager tm f : manager_ok tm → Forall (λ l, FID_ok l.2) f → (∀ p, p ∈ (links (tm_graph tm)).*1 → map_find p f = None) →
  manager_ok (set_freed f tm).
Proof.
  intros [T K E Hl Hn _ _ Hp] Hf Ha. split; cbn [set_freed tm_graph freedLIDs]; [|exact K| |done|done|done|done|exact Hp].
  - destruct T as [T1 T2 T3 T4]. split; [exact T1|exact T2|exact T3|exact T4].
  - destruct E as [E1 E2 E3]. split; [exact E1|exact E2|exact E3].
Qed.

(** ** The identifiers of links that are kept *)

Definition bits_string F : bytes := (λ i, if bv_bit F (255 - i) then 49 else 48) <$> seq 0 256.

Lemma bits_string_ok F : FID_ok F → attr_ok (bits_string F) ∧ has_bits F (attr_bit (bits_string F)).
Proof.
  intros O. assert (length (bits_string F) = 256%nat) as Hl by done. split; [split; [done|]|split; [done|]].
  - apply Forall_fmap, Forall_forall. intros i _. cbn. destruct (bv_bit F _); [by right|by left].
  - intros i Hi. unfold attr_bit. rw nth_lookup. unfold bits_string. rw list_lookup_fmap lookup_seq_lt; [|lia]. cbn [fmap option_fmap option_map default].
    replace (255 - (0 + (255 - i)))%nat with i by lia. by destruct (bv_bit F i).
Qed.

Lemma kept_string F : FID_ok F → Bitvector_to_string F = Ok (bits_string F).
Proof. intros [A H]%bits_string_ok. by apply lid_string. Qed.

(** ** The return of a link *)

(** [tm'] is [tm] with links that were out. *)
Record returns tm tm' : Prop := {
  re_tables : tm_ok tm';
  re_graph : extends (tm_graph tm) (tm_graph tm');
  re_nodes : reverse_node_index tm' = reverse_node_index tm;
  re_same : same_paths tm tm';
  re_links : NoDup (links (tm_graph tm')).*1;
  re_apart p : p ∈ (links (tm_graph tm')).*1 → map_find p (freedLIDs tm') = None;
  re_freed : Forall (λ l, FID_ok l.2) (freedLIDs tm');
}.

Context `{IE : !IgraphEdits} (laws : ∀ g, igraph_laws g).

Lemma not_a_link tm p b : manager_ok tm → map_find p (freedLIDs tm) = Some b → p ∉ (links (tm_graph tm)).*1.
Proof. intros M Eb Hin%(mo_apart _ M). congruence. Qed.

Lemma map_del_Forall {K V} `{EqDecision K} (Q : K * V → Prop) k (m : list (K * V)) : Forall Q m → Forall Q (map_del k m).
Proof. intros H. apply Forall_forall. intros x [_ Hx]%list_elem_of_filter. by eapply Forall_forall in H. Qed.

Lemma update_returns tm source destination u v b b' : manager_ok tm → u ≠ v →
  map_find source (reverse_node_index tm) = Some u → map_find destination (reverse_node_index tm) = Some v →
  map_find (u, v) (freedLIDs tm) = Some b → map_find (v, u) (freedLIDs tm) = Some b' →
  ∃ tm' rs, updateGraph source destination true false (true, true) tm = Ok (true, tm', rs) ∧ returns tm tm' ∧
    links (tm_graph tm') ≡ₚ ((u, v), bits_string b) :: ((v, u), bits_string b') :: links (tm_graph tm).
Proof.
  intros M Hne Hs Hd Eb Eb'. assert ((u, v) ≠ (v, u)) as Hpq by congruence.
  pose proof (not_a_link _ _ _ M Eb) as Hp. pose proof (not_a_link _ _ _ M Eb') as Hp'.
  assert (FID_ok b) as Ob by apply (proj1 (Forall_forall _ _) (mo_freed _ M) _ (find_in _ _ _ Eb)).
  assert (FID_ok b') as Ob' by apply (proj1 (Forall_forall _ _) (mo_freed _ M) _ (find_in _ _ _ Eb')).
  destruct (bits_string_ok b Ob) as [A _], (bits_string_ok b' Ob') as [A' _].
  destruct (restore_both laws tm source destination (u, v) (v, u) b b' _ _ (mo_tables _ M) (mo_links _ M) Hpq Hp Hp' A A' Eb Eb'
    (kept_string b Ob) (kept_string b' Ob')) as (tm' & rs & E & T' & Hl & Hf & Er & Hv & Hsame & Ef).
  exists tm', rs. split_and!; [| |exact Hl].
  - unfold updateGraph. rw Hs Hd. cbn [found or_fault mbind res_mbind res_bind]. rw Eb Eb'.
    assert (igraph_get_eid (tm_graph tm) u v = None) as ->.
    { destruct (igraph_get_eid _ u v) as [e|] eqn:Ee; [|done]. destruct Hp. apply (law_eid _ (laws _)), link_of_edge in Ee.
      by apply (list_elem_of_fmap_2 fst) in Ee. }
    exact E.
  - split; [done| |done|done| | |].
    + split; [|done]. intros l Hin. rw Hl. by do 2 right.
    + rw Hl. cbn. constructor; [by intros [?|?]%elem_of_cons|]. constructor; [done|apply (mo_links _ M)].
    + intros p. rw Hl Hf. cbn. rw !elem_of_cons. intros Hin. destruct (decide _) as [|Hno]; [done|].
      destruct Hin as [->|[->|Hin]]; [by destruct Hno; left|by destruct Hno; right|by apply (mo_apart _ M)].
    + rw Ef. do 2 apply map_del_Forall. apply (mo_freed _ M).
Qed.

(** ** One node *)

(** From the entry [F] of [n]: a node that had no way and has one now gets its
    paths, and nothing changes for another one. *)
Definition reconnected tm n F (rv t f rv' t' f' : list (bytes * option BABitvector)) (e : list tm_event) : Prop :=
  let C := calculated tm (tm_nodeID tm) n in
  if BABitvector_zero F && negb (empty_bits C) then
    table_set f f' n C ∧ table_set rv rv' n (calculated tm n (RVnodeID tm)) ∧ table_set t t' n (calculated tm n (tm_nodeID tm)) ∧
    told_FID f' n UPDATE_RVFID (calculated tm n (RVnodeID tm)) e ∧ told_FID f' n UPDATE_TMFID (calculated tm n (tm_nodeID tm)) e
  else rv' = rv ∧ t' = t ∧ f' = f.

#[local] Opaque empty_bits.

Lemma wp_reconnect s0 i n F R B : tm_ok (srv_tm s0) → known (srv_tm s0) (tm_nodeID (srv_tm s0)) ∧ known (srv_tm s0) (RVnodeID (srv_tm s0)) →
  known (srv_tm s0) n → map_ok (TM_to_nodeFID (srv_tm s0)) → (TM_to_nodeFID (srv_tm s0)).*1 !! i = Some n →
  map_find n (TM_to_nodeFID (srv_tm s0)) = Some (Some F) → map_find n (tm_RVFID (srv_tm s0)) = Some (Some R) →
  map_find n (tm_TMFID (srv_tm s0)) = Some (Some B) →
  wp (reconnect i) (λ _ s', ∃ rv t f e, s' = stored rv t f e s0 ∧
    reconnected (srv_tm s0) n F (tm_RVFID (srv_tm s0)) (tm_TMFID (srv_tm s0)) (TM_to_nodeFID (srv_tm s0)) rv t f e) s0.
Proof.
  intros T [HT HR] Hn Hm Hi EF ER EB. set (tm := srv_tm s0) in *. unfold reconnect, at_iterator.
  assert (∀ s, s = s0 → BABitvector_zero F && negb (empty_bits (calculated tm (tm_nodeID tm) n)) = false → ∃ rv t f e, s = stored rv t f e s0 ∧
    reconnected tm n F (tm_RVFID tm) (tm_TMFID tm) (TM_to_nodeFID tm) rv t f e) as Hsame.
  { intros s -> Ez. exists (tm_RVFID tm), (tm_TMFID tm), (TM_to_nodeFID tm), []. split; [by rw stored_nothing|]. unfold reconnected. by rw Ez. }
  apply wp_bind, wp_bind, wp_gets. apply wp_bind. eapply wp_lift_opt; [by apply key_at|]. apply wp_bind. eapply wp_lift_opt; [done|].
  apply wp_ret. cbn [fst snd]. destruct (BABitvector_zero F) eqn:Ez; cbn [negb]; [|apply wp_ret; by apply Hsame].
  apply wp_bind, wp_gets, wp_bind. destruct (calculate_run tm (tm_nodeID tm) n (laws _) T HT Hn) as (F1 & E1 & H1).
  eapply wp_on_tm; [exact E1|]. rw (zero_bits F1 _ H1). destruct (empty_bits _) eqn:Ee; [apply wp_ret; apply Hsame; done|].
  destruct (assign_set _ n F F1 _ EF H1) as (f' & Ef & Hf'). apply wp_bind.
  eapply wp_upd_tm; [unfold setTM_to_nodeFID; fold tm; rw Ef; done|].
  apply wp_bind. destruct (calculate_run tm n (RVnodeID tm) (laws _) T Hn HR) as (F2 & E2 & H2).
  eapply wp_on_tm; [exact E2|]. destruct (assign_set _ n R F2 _ ER H2) as (rv' & Erv & Hrv'). apply wp_bind.
  eapply wp_upd_tm; [unfold setRVFID; cbn [set_tm srv_tm set_FIDs tm_RVFID]; fold tm; rw Erv; done|].
  assert (∃ F', map_find n f' = Some (Some F') ∧ FID_ok F') as Hpath by (destruct Hf' as (_ & (F' & ? & []) & _); by exists F').
  apply wp_bind, (wp_send_update _ f' n UPDATE_RVFID (calculated tm n (RVnodeID tm))); [done|done|done|]. intros ev1 Ht1.
  apply wp_bind. destruct (calculate_run tm n (tm_nodeID tm) (laws _) T Hn HT) as (F3 & E3 & H3).
  eapply wp_on_tm; [exact E3|]. destruct (assign_set _ n B F3 _ EB H3) as (t' & Et & Ht'). apply wp_bind.
  eapply wp_upd_tm; [unfold setTMFID; cbn [happens set_tm srv_tm set_FIDs tm_TMFID]; fold tm; rw Et; done|].
  apply (wp_send_update _ f' n UPDATE_TMFID (calculated tm n (tm_nodeID tm))); [done|done|done|]. intros ev2 Ht2.
  exists rv', t', f', [ev1; ev2]. split; [unfold stored, happens, set_tm; cbn; by rw -app_assoc|].
  unfold reconnected. rw Ez Ee. split_and!; [done..|by apply (told_app _ _ _ _ [ev1] [ev2])|by apply (told_prefix _ _ _ _ [ev1] [ev2])].
Qed.

(** ** All nodes *)

(** The entries of a node after the loop, with what they were before. *)
Definition node_reconnected tm n (rv t f : list (bytes * option BABitvector)) (e : list tm_event) : Prop :=
  ∃ F R B F' R' B', map_find n (TM_to_nodeFID tm) = Some (Some F) ∧ map_find n (tm_RVFID tm) = Some (Some R) ∧
    map_find n (tm_TMFID tm) = Some (Some B) ∧
    map_find n f = Some (Some F') ∧ map_find n rv = Some (Some R') ∧ map_find n t = Some (Some B') ∧
    if BABitvector_zero F && negb (empty_bits (calculated tm (tm_nodeID tm) n)) then
      has_bits F' (calculated tm (tm_nodeID tm) n) ∧ has_bits R' (calculated tm n (RVnodeID tm)) ∧
      has_bits B' (calculated tm n (tm_nodeID tm)) ∧
      told_FID f n UPDATE_RVFID (calculated tm n (RVnodeID tm)) e ∧ told_FID f n UPDATE_TMFID (calculated tm n (tm_nodeID tm)) e
    else F' = F ∧ R' = R ∧ B' = B.

Lemma told_kept f f' n type C e e' : map_find n f' = map_find n f → told_FID f n type C e → told_FID f' n type C (e ++ e').
Proof. intros E (F & G & E1 & E2 & E3). exists F, G. rw E. set_solver. Qed.

Lemma node_reconnected_kept tm n rv t f e rv' t' f' e' : node_reconnected tm n rv t f e →
  map_find n rv' = map_find n rv → map_find n t' = map_find n t → map_find n f' = map_find n f → node_reconnected tm n rv' t' f' (e ++ e').
Proof.
  intros (F & R & B & F' & R' & B' & H1 & H2 & H3 & H4 & H5 & H6 & H) Er Et Ef. exists F, R, B, F', R', B'. rw Er Et Ef.
  split_and!; try done. destruct (_ && _); [|done]. destruct H as (HF & HR & HB & T1 & T2). split_and!; try done; by eapply told_kept.
Qed.

Lemma reconnected_other tm n F rv t f rv' t' f' e k : reconnected tm n F rv t f rv' t' f' e → k ≠ n →
  map_find k rv' = map_find k rv ∧ map_find k t' = map_find k t ∧ map_find k f' = map_find k f.
Proof.
  unfold reconnected. destruct (_ && _); [|by intros (-> & -> & ->)]. intros ((_ & _ & H1) & (_ & _ & H2) & (_ & _ & H3) & _) Hk.
  split_and!; [by apply H2|by apply H3|by apply H1].
Qed.

Lemma reconnected_keys tm n F rv t f rv' t' f' e : reconnected tm n F rv t f rv' t' f' e → f'.*1 = f.*1.
Proof. unfold reconnected. destruct (_ && _); [|by intros (_ & _ & ->)]. by intros ((H & _) & _). Qed.

Lemma reconnected_node tm n F R B f rv t rv' t' f' e0 e : map_find n (TM_to_nodeFID tm) = Some (Some F) →
  map_find n (tm_RVFID tm) = Some (Some R) → map_find n (tm_TMFID tm) = Some (Some B) → entry_kept tm n rv t f →
  reconnected tm n F rv t f rv' t' f' e → node_reconnected tm n rv' t' f' (e0 ++ e).
Proof.
  intros EF ER EB (Er & Et & Ef) H. unfold reconnected in H. unfold node_reconnected. destruct (_ && _) eqn:Ec.
  - destruct H as ((_ & (F' & EF' & HF') & _) & (_ & (R' & ER' & HR') & _) & (_ & (B' & EB' & HB') & _) & T1 & T2).
    exists F, R, B, F', R', B'. rw Ec. split_and!; try done; by apply told_prefix.
  - destruct H as (-> & -> & ->). exists F, R, B, F, R, B. rw Ec. split_and!; try done; congruence.
Qed.

Lemma wp_link_restored s0 : tm_ok (srv_tm s0) → known (srv_tm s0) (tm_nodeID (srv_tm s0)) ∧ known (srv_tm s0) (RVnodeID (srv_tm s0)) →
  entries_ok (srv_tm s0) →
  wp link_restored (λ _ s', ∃ rv t f e, s' = stored rv t f e s0 ∧ f.*1 = (TM_to_nodeFID (srv_tm s0)).*1 ∧
    ∀ n, n ∈ (TM_to_nodeFID (srv_tm s0)).*1 → node_reconnected (srv_tm s0) n rv t f e) s0.
Proof.
  intros T Hends [Hm Hcount Hk]. set (tm := srv_tm s0) in *. unfold link_restored, no_nodes. apply wp_bind, wp_gets. fold tm.
  set (nodes := (TM_to_nodeFID tm).*1) in *. set (N := length nodes).
  assert (length (reverse_node_index tm) = N) as -> by (unfold N, nodes; by rw length_fmap).
  eapply wp_mono; [apply (wp_mfor (λ d _ s', ∃ rv t f e, s' = stored rv t f e s0 ∧ f.*1 = nodes ∧
    ∀ j n, nodes !! j = Some n → if (j <? length d)%nat then node_reconnected tm n rv t f e else entry_kept tm n rv t f))|].
  - exists (tm_RVFID tm), (tm_TMFID tm), (TM_to_nodeFID tm), []. split_and!; [by rw stored_nothing|done|]. intros j n _. by destruct j.
  - intros d i rest s' Hd (rv & t & f & e & -> & Hf & Hj). assert (i = length d ∧ (length d < N)%nat) as [-> Hlt].
    { assert (seq 0 N !! length d = Some i) as Hi by (rw -Hd lookup_app_r // Nat.sub_diag; done).
      apply lookup_seq in Hi as [-> ?]. done. }
    destruct (lookup_lt_is_Some_2 nodes (length d)) as [n Hn]; [exact Hlt|].
    pose proof (Hj (length d) n Hn) as Hkept. rw Nat.ltb_irrefl in Hkept.
    destruct (Hk n) as (Hkn & (F & EF & OF) & (R & ER & OR) & (B & EB & OB)); [by eapply list_elem_of_lookup_2|].
    assert (Hkept' := Hkept). destruct Hkept' as (Erv & Et & Ef).
    eapply wp_mono; [apply (wp_reconnect (stored rv t f e s0) (length d) n F R B); try done|].
    + by apply set_FIDs_ok.
    + unfold map_ok. cbn [stored srv_tm set_FIDs TM_to_nodeFID]. by rw Hf.
    + cbn [stored srv_tm set_FIDs TM_to_nodeFID]. by rw Hf.
    + cbn [stored srv_tm set_FIDs TM_to_nodeFID]. by rw Ef.
    + cbn [stored srv_tm set_FIDs tm_RVFID]. by rw Erv.
    + cbn [stored srv_tm set_FIDs tm_TMFID]. by rw Et.
    + intros _ s' (rv' & t' & f' & e' & -> & Hrec). cbn [stored srv_tm set_FIDs tm_RVFID tm_TMFID TM_to_nodeFID] in Hrec.
      exists rv', t', f', (e ++ e'). split; [by rw stored_stored|]. split; [by rw (reconnected_keys _ _ _ _ _ _ _ _ _ _ Hrec)|].
      intros j q Hq. rw length_app. cbn [length]. destruct (decide (j = length d)) as [->|Hjk].
      * assert (q = n) as -> by congruence. rw (proj2 (Nat.ltb_lt _ _)); [|lia]. by eapply (reconnected_node tm n F R B).
      * assert (q ≠ n) as Hqn by (intros ->; apply Hjk; by eapply NoDup_lookup).
        destruct (reconnected_other _ _ _ _ _ _ _ _ _ _ q Hrec Hqn) as (E1 & E2 & E3).
        specialize (Hj j q Hq). assert ((j <? length d + 1)%nat = (j <? length d)%nat) as -> by lia. destruct (j <? length d)%nat.
        -- by eapply node_reconnected_kept.
        -- unfold entry_kept in *. by rw E1 E2 E3.
  - intros _ s' (rv & t & f & e & -> & Hf & Hj). exists rv, t, f, e. split_and!; [done|done|].
    intros n [j Hn]%list_elem_of_lookup. specialize (Hj j n Hn). rw length_seq in Hj. apply lookup_lt_Some in Hn.
    by rw (proj2 (Nat.ltb_lt _ _) Hn) in Hj.
Qed.

(** ** The state of the manager *)

Lemma empty_no_walk tm tm' n u v : manager_ok tm → returns tm tm' → known tm' (tm_nodeID tm') → known tm' n →
  map_find (tm_nodeID tm') (reverse_node_index tm') = Some u → map_find n (reverse_node_index tm') = Some v →
  empty_bits (calculated tm' (tm_nodeID tm') n) = true → ∀ p, ¬ walk (tm_graph tm') u v p.
Proof.
  intros M Hr HT Hn Eu Ev Ee. destruct (calculate_run tm' (tm_nodeID tm') n (laws _) (re_tables _ _ Hr) HT Hn) as (F1 & _ & H1).
  destruct (calculated_conducts tm' _ _ F1 (laws _) (re_tables _ _ Hr) HT Hn H1) as (u' & v' & Eu' & Ev' & [Hroute|[_ Hno]]).
  - pose proof (zero_bits F1 _ H1) as Ez. rw (route_nonzero _ _ _ _ (to_attributes _ (re_tables _ _ Hr)) (proj1 H1) Hroute) in Ez; [congruence|].
    destruct (ex_vertices _ _ (re_graph _ _ Hr)) as (Evc & _ & Ei). intros x. rw Evc Ei. apply (mo_named _ M).
  - assert (u' = u ∧ v' = v) as [-> ->] by (split; congruence). done.
Qed.

(** A node with a way from the manager has one to it. *)
Lemma own_nonzero tm F G n : manager_ok tm → both_ways (tm_graph tm) → FID_ok F → FID_ok G → BABitvector_zero F = false →
  conducts tm F (tm_nodeID tm) n → conducts tm G n (tm_nodeID tm) → BABitvector_zero G = false.
Proof.
  intros M Hb OF OG Hz HF HG. destruct (BABitvector_zero G) eqn:Ez; [|done]. destruct HF as (u & v & Eu & Ev & [Hr|[Hz' _]]); [|congruence].
  destruct (route_walk _ _ _ _ Hr) as [p [q Hq]%walk_back]; [|done].
  by apply (proj1 (conducts_zero tm G _ _ v u M OG HG Ev Eu) Ez) in Hq.
Qed.

(** From [tm] to [tm']: a node that is reached is told the identifiers that
    are not what they were. *)
Definition node_informed tm tm' (n : bytes) (e : list tm_event) : Prop :=
  ∃ R B F' R' B', map_find n (tm_RVFID tm) = Some (Some R) ∧ map_find n (tm_TMFID tm) = Some (Some B) ∧
    map_find n (TM_to_nodeFID tm') = Some (Some F') ∧ map_find n (tm_RVFID tm') = Some (Some R') ∧ map_find n (tm_TMFID tm') = Some (Some B') ∧
    (¬ same_bits R R' → informed n F' UPDATE_RVFID R' e) ∧ (¬ same_bits B B' → informed n F' UPDATE_TMFID B' e).

Lemma told_sent f n type C R' F e : has_bits R' C → map_find n f = Some (Some F) → told_FID f n type C e → informed n F type R' e.
Proof.
  intros HR' EF (F1 & G & EF1 & HG & Hin). assert (F1 = F) as -> by congruence. unfold informed.
  rw -(same_bits_bytes R' G) //; [apply HR'|]. eapply has_bits_ext; [exact HG|]. intros i Hi. destruct HR' as [_ B]. by rw B.
Qed.

Lemma entry_returned tm tm' rv t f e n : manager_ok tm → both_ways (tm_graph tm) → RVnodeID tm = tm_nodeID tm → returns tm tm' →
  n ∈ (TM_to_nodeFID tm).*1 → node_reconnected tm' n rv t f e →
  let tm2 := set_FIDs rv t f tm' in
  node_served tm2 n ∧ node_informed tm tm2 n e ∧ known tm2 n ∧
    (∃ F, map_find n f = Some (Some F) ∧ FID_ok F) ∧ (∃ F, map_find n rv = Some (Some F) ∧ FID_ok F) ∧
    ∃ F, map_find n t = Some (Some F) ∧ FID_ok F.
Proof.
  intros M Hb HRV Hr Hn Hrec tm2. assert (Hr' := Hr). destruct Hr' as [T' Hx Er (EN & ERV & EX & Erv & Et & Ef) _ _ _].
  destruct (en_known _ (mo_entries _ M) n Hn) as (Hk & (F & EF & OF) & (R & ER & OR) & (B & EB & OB)).
  destruct (mo_paths _ M n Hn) as (F0 & R0 & B0 & EF0 & ER0 & EB0 & Hc & Hown).
  assert (F0 = F ∧ R0 = R ∧ B0 = B) as (-> & -> & ->) by (split_and!; congruence).
  destruct Hrec as (F0 & R0 & B0 & F' & R' & B' & EF1 & ER1 & EB1 & EF' & ER' & EB' & H).
  assert (F0 = F ∧ R0 = R ∧ B0 = B) as (-> & -> & ->) by (split_and!; congruence).
  assert (known tm' (tm_nodeID tm') ∧ known tm' n ∧ known tm' (RVnodeID tm')) as (HT & Hk' & HR).
  { unfold known. rw ERV HRV EN Er. split_and!; [apply (mo_ends _ M)|done|apply (mo_ends _ M)]. }
  assert (FID_ok F' ∧ FID_ok R' ∧ FID_ok B') as (OF' & OR' & OB').
  { destruct (_ && _); [split_and!; apply H|]. by destruct H as (-> & -> & ->). }
  assert (∀ Q : Prop, Q → Q ∧ known tm2 n ∧ (∃ F, map_find n f = Some (Some F) ∧ FID_ok F) ∧ (∃ F, map_find n rv = Some (Some F) ∧ FID_ok F) ∧
    ∃ F, map_find n t = Some (Some F) ∧ FID_ok F) as Hrest by (intros Q HQ; split_and!; eauto).
  rw assoc. apply Hrest. clear Hrest. destruct (BABitvector_zero F && negb _) eqn:Ec.
  - destruct H as (HF & HR1 & HB1 & T1 & T2). split.
    + exists F', R', B'. split_and!; [exact EF'|exact ER'|exact EB'|exact (calculated_conducts tm' _ _ F' (laws _) T' HT Hk' HF)|].
      intros _. split; [exact (calculated_conducts tm' _ _ R' (laws _) T' Hk' HR HR1)|exact (calculated_conducts tm' _ _ B' (laws _) T' Hk' HT HB1)].
    + exists R, B, F', R', B'. split_and!; [exact ER|exact EB|exact EF'|exact ER'|exact EB'| |]; intros _; by eapply told_sent.
  - destruct H as (-> & -> & ->). split.
    + exists F, R, B. split_and!; [exact EF'|exact ER'|exact EB'| |].
      * destruct (BABitvector_zero F) eqn:Ez.
        -- destruct Hc as (u & v & Eu & Ev & _). rw -EN -Er in Eu. rw -Er in Ev. exists u, v. split_and!; [done|done|]. right.
           split; [done|]. apply (empty_no_walk tm tm' n); try done. by destruct (empty_bits _).
        -- unfold tm2. cbn [set_FIDs tm_nodeID]. rw EN. by apply (conducts_extends tm tm').
      * intros Ez. destruct (Hown Ez) as [HcR HcB]. unfold tm2. cbn [set_FIDs RVnodeID tm_nodeID]. rw ERV EN HRV. rw HRV in HcR.
        split; apply (conducts_extends tm tm'); try done; by apply (own_nonzero tm F _ n).
    + exists R, B, F, R, B. split_and!; [exact ER|exact EB|exact EF'|exact ER'|exact EB'| |]; intros Hd; by destruct Hd.
Qed.

Lemma wp_return s0 tm : manager_ok tm → both_ways (tm_graph tm) → RVnodeID tm = tm_nodeID tm → returns tm (srv_tm s0) →
  wp link_restored (λ _ s', ∃ rv t f e, s' = stored rv t f e s0 ∧ manager_ok (srv_tm s') ∧
    same_nodes tm (srv_tm s') ∧
    ∀ n, n ∈ (TM_to_nodeFID tm).*1 → node_informed tm (srv_tm s') n e) s0.
Proof.
  intros M Hb HRV Hr. assert (Hr' := Hr). destruct Hr' as [T' Hx Er (EN & ERV & EX & Erv & Et & Ef) Hnd Hap Hfl].
  eapply wp_mono; [apply (wp_link_restored s0)|].
  - done.
  - unfold known. rw EN ERV Er. apply (mo_ends _ M).
  - destruct (mo_entries _ M) as [H1 H2 H3]. split; rw ?Ef ?Er ?Erv ?Et; [done|done|]. unfold known. by rw Er.
  - intros _ s' (rv & t & f & e & -> & Ek & Hrec). rw Ef in Ek, Hrec. exists rv, t, f, e. split; [done|].
    pose proof (λ n Hn, entry_returned tm _ rv t f e n M Hb HRV Hr Hn (Hrec n Hn)) as Hup. cbn [stored srv_tm].
    split; [|split; [split_and!; [exact EN|exact ERV|apply EX|apply EX|exact Er|exact Ek]|intros n Hn; apply Hup, Hn]]. split; cbn [set_FIDs tm_graph freedLIDs TM_to_nodeFID]; [by apply set_FIDs_ok| | |done| |done|done|].
    + unfold known. cbn. rw EN ERV Er. apply (mo_ends _ M).
    + destruct (mo_entries _ M) as [H1 H2 H3]. split; cbn [set_FIDs TM_to_nodeFID reverse_node_index tm_RVFID tm_TMFID].
      * unfold map_ok. by rw Ek.
      * rw Er H2. by rw -!(length_fmap fst) Ek.
      * intros n Hn. rw Ek in Hn. by apply Hup.
    + destruct (ex_vertices _ _ Hx) as (Ev & _ & Ei). intros v. rw Ev Ei. apply (mo_named _ M).
    + intros n Hn. rw Ek in Hn. by apply Hup.
Qed.

(** [C28] A link that is out is reported as back, in both directions, and the
    monitoring agent answers for both.  The graph has it again, with the
    identifiers it had, and the manager is again in a state in which the
    identifiers it keeps lead where they should: each node that can be reached
    now has its paths, also those that had lost them, and is sent the ones that
    are new.  This is so when the rendezvous node is that of the manager and
    the links are in both directions; an agent that does not answer ends the
    update before the second identifier is put back. *)
Theorem link_return_repaired beyond uc_notification (s : tm_server) source destination type net_type z u v b b'
    (M : manager_ok (srv_tm s)) (Hboth : both_ways (tm_graph (srv_tm s))) (HRV : RVnodeID (srv_tm s) = tm_nodeID (srv_tm s))
    (Hlen : length source = NODEID_LEN) (Hstr : Forall (λ c, c ≠ 0) source) (Hb : c_string beyond = Ok z)
    (Hty : type ≠ 0 ∧ type ≠ REMOVE_LINK) (Hnt : net_type ≠ 0) (Hne : u ≠ v)
    (Hs : map_find source (reverse_node_index (srv_tm s)) = Some u) (Hd : map_find destination (reverse_node_index (srv_tm s)) = Some v)
    (Eb : map_find (u, v) (freedLIDs (srv_tm s)) = Some b) (Eb' : map_find (v, u) (freedLIDs (srv_tm s)) = Some b') :
  ∃ s' e, handleLinkStateNotificationPM beyond uc_notification (true, true) ([type; net_type] ++ source) destination s = Ok ((), s') ∧
    links (tm_graph (srv_tm s')) ≡ₚ ((u, v), bits_string b) :: ((v, u), bits_string b') :: links (tm_graph (srv_tm s)) ∧
    manager_ok (srv_tm s') ∧ same_nodes (srv_tm s) (srv_tm s') ∧
    happened s' = happened s ++ e ∧ ∀ n, n ∈ (TM_to_nodeFID (srv_tm s)).*1 → node_informed (srv_tm s) (srv_tm s') n e.
Proof.
  destruct (update_returns _ source destination u v b b' M Hne Hs Hd Eb Eb') as (tm' & rs & E & Hr & Hl).
  enough (wp (handleLinkStateNotificationPM beyond uc_notification (true, true) ([type; net_type] ++ source) destination)
    (λ _ s', ∃ e, links (tm_graph (srv_tm s')) ≡ₚ ((u, v), bits_string b) :: ((v, u), bits_string b') :: links (tm_graph (srv_tm s)) ∧
      manager_ok (srv_tm s') ∧ same_nodes (srv_tm s) (srv_tm s') ∧
      happened s' = happened s ++ e ∧ ∀ n, n ∈ (TM_to_nodeFID (srv_tm s)).*1 → node_informed (srv_tm s) (srv_tm s') n e) s) as Hwp.
  { apply wp_ok in Hwp as ([] & s' & Erun & e & H). by exists s', e. }
  destruct Hty as [Ht0 Ht]. assert ((type =? REMOVE_LINK) = false) as Et by by apply Z.eqb_neq.
  unfold handleLinkStateNotificationPM. apply wp_bind. eapply wp_read_report; [done|done|done|done|exact Hb|rw Et; exact E|].
  cbn [fst snd negb]. rw Et. eapply wp_mono; [apply (wp_return _ (srv_tm s)); [done|done|done|exact Hr]|].
  intros _ s' (rv & t & f & e & -> & M' & Ek & Hup). exists ((LinkState <$> rs) ++ e).
  cbn [happens stored set_tm srv_tm happened] in *. split_and!; [exact Hl|exact M'|exact Ek|by rw -app_assoc|].
  intros n Hn. destruct (Hup n Hn) as (R & B & F' & R' & B' & H1 & H2 & H3 & H4 & H5 & H6 & H7). exists R, B, F', R', B'.
  split_and!; [done..|intros Hd1|intros Hd1]; unfold informed in *; set_solver.
Qed.
End return_.
