(* ===== verification/TopologyFailureNet.v ===== *)
(** * Failures in small networks

    The properties of TopologyFailure.v and TopologyReturn.v, applied to three
    nodes; and what they say nothing about: a rendezvous node that is not the
    manager's. *)

From S2P Require Import Prelude Enums BitVector Packet Forwarder ForwarderProofs StdMap RvMessages ClientApi LibBitvector.
From S2P Require Import Topology TopologyPaths TopologyFID TopologyServe TopologyIgraph TopologyUpdate TopologyLinks TopologyNet TopologyManager TopologyRequests.
From S2P Require Import TopologyRepair TopologyFailure TopologyReturn.

Module Ring.
Import Net.

Definition nodes : list (bytes * bytes) := [(name 1, lid 0); (name 2, lid 1); (name 3, lid 2)].
Definition between (u v k : nat) : list ((nat * nat) * bytes) := [((u, v), lid k); ((v, u), lid (S k))].
Definition ring : lgraph := mkLG nodes (between 0 1 10 ++ between 0 2 12 ++ between 1 2 14).
(** The same without the link between the first two, and with links of the
    first node only. *)
Definition line : lgraph := mkLG nodes (between 0 2 12).
Definition star : lgraph := mkLG nodes (between 0 1 10 ++ between 0 2 12).

(** The manager runs on the first node; the rendezvous node is [rv]. *)
Definition fresh (G : lgraph) (rv : bytes) : tmgraph := mkTM _ G (name 1) rv (name 1) [] [false; false; false; true; false] [] [] [] [] [] [] [] [].
Definition started (G : lgraph) (rv : bytes) : tmgraph :=
  get (fresh G rv) (tm ← readTopology G (fresh G rv); calculateRVTMFIDs tm).

Definition networkb (G : lgraph) : bool :=
  attributesb G && bool_decide (NoDup (lg_links G).*1) && bool_decide ((lg_nodes G).*1 = [name 1; name 2; name 3]) &&
  forallb (λ n, existsb (attr_bit n.2) (seq 0 256)) (lg_nodes G).

Lemma started_ok G k : networkb G = true → k ∈ [1; 2; 3] → let tm := started G (name k) in
  manager_ok (IG := list_igraph) tm ∧ tm_graph tm = G ∧ tm_nodeID tm = name 1 ∧ RVnodeID tm = name k.
Proof.
  intros [[[A Hnd%bool_decide_eq_true]%andb_true_iff Hn%bool_decide_eq_true]%andb_true_iff Hnamed]%andb_true_iff Hk.
  assert (length (lg_nodes G) = 3%nat) as Hl by (rw -(length_fmap fst) Hn; reflexivity).
  assert (∀ v n, [name 1; name 2; name 3] !! v = Some n → (v < length (lg_nodes G))%nat ∧ VAS_NODEID (G : graph) v = n) as Hat.
  { intros v n Hv. rw Hl. split; [by apply lookup_lt_Some in Hv|]. cbn. rw -Hn list_lookup_fmap in Hv. destruct (lg_nodes G !! v); [by injection Hv|done]. }
  destruct (manager_starts_ok (IG := list_igraph) list_igraph_laws G (fresh G (name k))) as (tm1 & tm2 & E1 & E2 & M & EG & EN & ER & _); try done.
  - by apply attributesb_ok.
  - by rw list_links.
  - intros v [n En]%lookup_lt_is_Some_2. cbn. rw En. apply list_elem_of_lookup_2, list_elem_of_In, (proj1 (forallb_forall _ _) Hnamed) in En.
    apply existsb_exists in En as (i & Hi%in_seq & Hb). exists i. split; [lia|done].
  - cbn [fresh RVnodeID]. assert (∃ v, [name 1; name 2; name 3] !! v = Some (name k)) as [v Hv].
    { rw !elem_of_cons in Hk. destruct Hk as [->|[->|[->|Hk]]]; [by exists 0%nat|by exists 1%nat|by exists 2%nat|by apply elem_of_nil in Hk]. }
    exists v. by apply Hat.
  - exists 0%nat. by apply Hat.
  - assert (started G (name k) = tm2) as ->.
    { unfold started. rw E1. cbn [mbind res_mbind res_bind]. by rw E2. }
    done.
Qed.

Definition srv (tm : tmgraph) : tm_server (IG := list_igraph) := mkSrv tm ∅ [].

(** The identifiers of the link between the first two nodes. *)
Definition vec (k : nat) : BABitvector := get BABitvector_empty (Bitvector_of_string (new_words (length (lid k))) (lid k)).
Definition out : list ((nat * nat) * BABitvector) := [((0, 1), vec 10); ((1, 0), vec 11)]%nat.
Definition cut : tmgraph := set_freed out (started line (name 1)).

Lemma vec_ok k : attrb (lid k) = true → FID_ok (vec k).
Proof. intros A%attrb_ok. destruct (of_attribute _ A) as (b & E & O & _). unfold vec. by rw E. Qed.

Lemma cut_of tm : manager_ok tm ∧ tm_graph tm = line ∧ tm_nodeID tm = name 1 ∧ RVnodeID tm = name 1 →
  manager_ok (set_freed out tm) ∧ tm_graph (set_freed out tm) = line ∧ tm_nodeID (set_freed out tm) = name 1 ∧ RVnodeID (set_freed out tm) = name 1.
Proof.
  intros (M & G & EN & ER). split; [|exact (conj G (conj EN ER))]. apply set_freed_manager; [exact M| |].
  - constructor; [apply vec_ok; vm_compute; reflexivity|]. constructor; [apply vec_ok; vm_compute; reflexivity|constructor].
  - rw G list_links. intros p Hp. change (lg_links line).*1 with [(0, 2); (2, 0)]%nat in Hp.
    apply elem_of_cons in Hp as [->|Hp]; [vm_compute; reflexivity|]. apply elem_of_cons in Hp as [->|Hp]; [vm_compute; reflexivity|].
    destruct (proj1 (elem_of_nil _) Hp).
Qed.

Lemma cut_ok : manager_ok (IG := list_igraph) cut ∧ tm_graph cut = line ∧ tm_nodeID cut = name 1 ∧ RVnodeID cut = name 1.
Proof.
  assert (networkb line = true) as Hnet by (vm_compute; reflexivity). exact (cut_of _ (started_ok line 1 Hnet ltac:(left))).
Qed.

(** With the rendezvous node at the end of a link that fails and returns, the
    nodes that the manager kept its path to have no path to the rendezvous node
    any more, although there is one again. *)
Definition report (type : Z) (s : tm_server) : tm_server :=
  match handleLinkStateNotificationPM [0] false (true, true) ([type; 1] ++ name 1) (name 3) s with Ok (_, s) => s | Fault _ => s end.

Example rendezvous_not_reconnected :
  let s := srv (started star (name 3)) in let s' := report ADD_LINK (report REMOVE_LINK s) in
  path_of (srv_tm s') (name 2) (name 3) = [1; 0; 2]%nat ∧
  (BABitvector_zero <$> mjoin (map_find (name 2) (tm_RVFID (srv_tm s)))) = Some false ∧
  (BABitvector_zero <$> mjoin (map_find (name 2) (TM_to_nodeFID (srv_tm s')))) = Some false ∧
  (BABitvector_zero <$> mjoin (map_find (name 2) (tm_RVFID (srv_tm s')))) = Some true.
Proof. split_and!; vm_compute; reflexivity. Qed.
End Ring.

Section instances.
Import Net Ring.

Lemma link_failure_repaired_witness : ∃ s' e F,
  handleLinkStateNotificationPM [0] false (true, true) ([REMOVE_LINK; 1] ++ name 1) (name 2) (srv (started ring (name 1))) = Ok ((), s') ∧
  happened s' = e ∧ manager_ok (srv_tm s') ∧ map_find (name 2) (TM_to_nodeFID (srv_tm s')) = Some (Some F) ∧
  conducts (srv_tm s') F (name 1) (name 2).
Proof.
  assert (networkb ring = true) as Hnet by (vm_compute; reflexivity).
  destruct (started_ok ring 1 Hnet ltac:(left)) as (M & G & EN0 & _).
  assert (map_find (name 1) (reverse_node_index (started ring (name 1))) = Some 0%nat ∧
    map_find (name 2) (reverse_node_index (started ring (name 1))) = Some 1%nat) as [H1 H2] by (vm_compute; split; reflexivity).
  assert ((0, 1)%nat ∈ (links (tm_graph (started ring (name 1)))).*1 ∧ (1, 0)%nat ∈ (links (tm_graph (started ring (name 1)))).*1) as [Hl Hl'].
  { rw G list_links. split; [left|right; left]. }
  assert (Forall (λ c, c ≠ 0) (name 1)) as Hstr by (apply (bool_decide_eq_true_1 _); vm_compute; reflexivity).
  destruct (link_failure_repaired (IG := list_igraph) list_igraph_laws [0] false (srv (started ring (name 1))) (name 1) (name 2) 1 [] 0 1
    M eq_refl Hstr eq_refl ltac:(lia) ltac:(lia) H1 H2 Hl Hl') as (s' & e & E & _ & M' & (EN & _ & _ & _ & Ek) & Ee & _).
  assert (name 2 ∈ (TM_to_nodeFID (srv_tm s')).*1) as Hin.
  { rw Ek. apply (bool_decide_eq_true_1 _). vm_compute. reflexivity. }
  destruct (mo_paths _ M' _ Hin) as (F & R & B & EF & _ & _ & Hc & _).
  rw EN EN0 in Hc. exists s', e, F. exact (conj E (conj Ee (conj M' (conj EF Hc)))).
Defined.

(** The second node had no path, and has one. *)
Lemma link_return_repaired_witness : ∃ s' e F,
  handleLinkStateNotificationPM [0] false (true, true) ([ADD_LINK; 1] ++ name 1) (name 2) (srv cut) = Ok ((), s') ∧
  happened s' = e ∧ manager_ok (srv_tm s') ∧ map_find (name 2) (TM_to_nodeFID (srv_tm s')) = Some (Some F) ∧
  conducts (srv_tm s') F (name 1) (name 2) ∧ length (links (tm_graph (srv_tm s'))) = 4%nat.
Proof.
  destruct cut_ok as (M & G & EN0 & ER0).
  assert (map_find (name 1) (reverse_node_index cut) = Some 0%nat ∧ map_find (name 2) (reverse_node_index cut) = Some 1%nat) as [H1 H2]
    by (vm_compute; split; reflexivity).
  assert (both_ways (tm_graph cut)) as Hboth.
  { rw G. intros u v. rw list_links. change (lg_links line).*1 with [(0, 2); (2, 0)]%nat. rw !elem_of_cons.
    intros [[= -> ->]|[[= -> ->]|H]]; [right; left; reflexivity|left; reflexivity|destruct (proj1 (elem_of_nil _) H)]. }
  assert (RVnodeID cut = tm_nodeID cut) as HRV by (rw EN0 ER0; reflexivity).
  assert (Forall (λ c, c ≠ 0) (name 1)) as Hstr by (apply (bool_decide_eq_true_1 _); vm_compute; reflexivity).
  assert (ADD_LINK ≠ 0 ∧ ADD_LINK ≠ REMOVE_LINK) as Hty by (split; discriminate).
  destruct (link_return_repaired (IG := list_igraph) list_igraph_laws [0] false (srv cut) (name 1) (name 2) ADD_LINK 1 [] 0 1 (vec 10) (vec 11)
    M Hboth HRV eq_refl Hstr eq_refl Hty ltac:(lia) ltac:(lia) H1 H2 eq_refl eq_refl) as (s' & e & E & Hl & M' & (EN & _ & _ & _ & Ek) & Ee & _).
  assert (name 2 ∈ (TM_to_nodeFID (srv_tm s')).*1) as Hin.
  { rw Ek. apply (bool_decide_eq_true_1 _). vm_compute. reflexivity. }
  destruct (mo_paths _ M' _ Hin) as (F & R & B & EF & _ & _ & Hc & _). cbn [srv srv_tm] in EN. rw EN EN0 in Hc.
  assert (length (links (tm_graph (srv_tm s'))) = 4%nat) as Hlen.
  { apply Permutation_length in Hl. cbn [srv srv_tm] in Hl. rw G !list_links in Hl. rw list_links. exact Hl. }
  exists s', e, F. exact (conj E (conj Ee (conj M' (conj EF (conj Hc Hlen))))).
Defined.
End instances.
