(* ===== verification/ResiliencyManager.v ===== *)
(** * The resiliency manager

    TopologyManager/rm.cpp: the process that keeps the paths of all deliveries,
    as the topology manager reports them, and that asks for new ones when a
    link of a path is lost.

    The handlers get a copy of the message without its first byte; reads past
    its end see [after], the memory behind the copy, and [beyond] is the memory
    behind the event itself. *)

From S2P Require Import Prelude StdString Enums BitVector Packet StdMap RvMessages ClientApi LibBitvector Topology TopologyUpdate TopologyManager.

(** ** Identifiers *)

Definition rm_resl_bin_id : bytes := hex_id 48.
Definition rm_uc_resl_bin_id : bytes := hex_id 51.
Definition rm_resl_resp_bin_id : bytes := hex_id 49.
Definition rm_resl_req_bin_id : bytes := hex_id 50.
Definition rm_UpdatePathId : bytes := rm_resl_bin_id.
Definition rm_UpdateUnicastPathId : bytes := rm_resl_bin_id ++ rm_uc_resl_bin_id.
Definition rm_DiscoverFailureId : bytes := rm_resl_req_bin_id.

(** A map of sets. *)
Abbreviation set_map := (list (bytes * list bytes)).

(** [m[k].insert(l.begin(), l.end())] *)
Definition add_all (k : bytes) (l : list bytes) (m : set_map) : set_map :=
  map_set k (foldl (λ s x, set_add x s) (default [] (map_find k m)) l) m.

(** [boost::split] at each of the characters of "->", with empty parts kept. *)
Fixpoint split_path (s : bytes) : list bytes :=
  match s with
  | [] => [[]]
  | c :: s => match split_path s with
              | t :: ts => if (c =? 45) || (c =? 62) then [] :: t :: ts else (c :: t) :: ts
              | [] => []
              end
  end.

Section manager.
Context `{IG : Igraph} `{HP : Heap}.

(** The parts of the graph object that this process uses, and what it
    publishes. *)
Record rmanager := mkRM {
  rm_graph : tmgraph;
  path_info : set_map;
  unicast_path_info : list (bytes * list (bytes * bytes));
  ex_pubs : set_map;
  ex_subs : set_map;
  published : list tm_event;
}.
Implicit Types (r : rmanager).

Definition R (A : Type) : Type := M rmanager A.
#[global] Instance R_ret : MRet R := @M_ret rmanager.
#[global] Instance R_bind : MBind R := @M_bind rmanager.

Definition set_paths p x r := mkRM (rm_graph r) p (unicast_path_info r) x (ex_subs r) (published r).
Definition set_unicast u x r := mkRM (rm_graph r) (path_info r) u (ex_pubs r) x (published r).
Definition rm_publishes e r := mkRM (rm_graph r) (path_info r) (unicast_path_info r) (ex_pubs r) (ex_subs r) (published r ++ [e]).

Context (beyond after : bytes).

(** ** Deliveries *)

(** The paths, each behind its length; also where they end. *)
Fixpoint read_paths (request : bytes) (path_idx n : nat) (path_vecs : list bytes) : res (list bytes * nat) :=
  match n with
  | O => Ok (path_vecs, path_idx)
  | S n =>
      path_len ← data_byte (request ++ after) path_idx;
      path_v ← substr request (path_idx + 1) (Z.to_nat path_len);
      read_paths request (path_idx + 1 + Z.to_nat path_len) n (set_add path_v path_vecs)
  end.

(** [n] strings of [len] characters. *)
Fixpoint read_nodes (m : bytes) (off n len : nat) (nodes : list bytes) : res (list bytes) :=
  match n with
  | O => Ok nodes
  | S n => node ← data_read m off len; read_nodes m (off + len) n len (set_add node nodes)
  end.

Definition handleMulticastPathNotification (request : bytes) : R () :=
  let m := request ++ after in
  _ ← from_res (data_byte m 0);
  IDlen ← from_res (data_byte m 1);
  let ids_size := (Z.to_nat IDlen * PURSUIT_ID_LEN + 2)%nat in
  icn_id ← from_res (data_read m 0 ids_size);
  no_paths ← from_res (data_byte m ids_size);
  '(path_vecs, path_idx) ← from_res (read_paths request (ids_size + 1) (Z.to_nat no_paths) []);
  info ← gets path_info;
  let info := match map_find icn_id info with
              | None => if bool_decide (path_vecs = []) then info else map_add icn_id path_vecs info
              | Some _ => if bool_decide (path_vecs = []) then map_del icn_id info else map_add icn_id path_vecs (map_del icn_id info)
              end in
  modify (λ r, set_paths info (ex_pubs r) r);;
  no_alt_pubs ← from_res (data_byte m path_idx);
  alternative_publishers ← from_res (read_nodes m (path_idx + 1) (Z.to_nat no_alt_pubs) PURSUIT_ID_LEN []);
  modify (λ r, set_paths (path_info r) (map_add icn_id alternative_publishers (map_del icn_id (ex_pubs r))) r).

(** Only the first path is read. *)
Definition handleUnicastPathNotification (request : bytes) : R () :=
  let m := request ++ after in
  _ ← from_res (data_byte m 0);
  IDlen ← from_res (data_byte m 1);
  let ids_size := (Z.to_nat IDlen * PURSUIT_ID_LEN + 2)%nat in
  icn_id ← from_res (data_read m 0 ids_size);
  publisher ← from_res (data_read m ids_size NODEID_LEN);
  no_paths ← from_res (data_byte m (ids_size + NODEID_LEN));
  let path_idx := (ids_size + NODEID_LEN + 1)%nat in
  '(path, path_idx) ← (if 0 <? no_paths then
      path_len ← from_res (data_byte m path_idx);
      path_v ← from_res (data_read m (path_idx + 1) (Z.to_nat path_len));
      mret (Some path_v, (path_idx + 1 + Z.to_nat path_len)%nat)
    else mret (None, path_idx));
  info ← gets unicast_path_info;
  let info := match map_find icn_id info, path with
              | None, None => info
              | None, Some path_v => map_set icn_id (map_set publisher path_v []) info
              | Some paths, None => map_set icn_id (map_del publisher paths) info
              | Some paths, Some path_v => map_set icn_id (map_set publisher path_v (map_del publisher paths)) info
              end in
  modify (λ r, set_unicast info (ex_subs r) r);;
  no_alt_subs ← from_res (data_byte m path_idx);
  alternative_subscribers ← from_res (read_nodes m (path_idx + 1) (Z.to_nat no_alt_subs) NODEID_LEN []);
  modify (λ r, set_unicast (unicast_path_info r) (map_add icn_id alternative_subscribers (map_del icn_id (ex_subs r))) r).

(** ** Requests for new paths *)

(** [memcpy] of the identifiers of nodes, one after the other. *)
Fixpoint put_nodes (nodes : list bytes) (offset : nat) (p : packet) : res (packet * nat) :=
  match nodes with
  | [] => Ok (p, offset)
  | n :: nodes =>
      node ← c_str_read n NODEID_LEN; p ← packet_put offset node p;
      put_nodes nodes (offset + NODEID_LEN) p
  end.

Definition request_size (pubs subs : list bytes) (id : bytes) : Z :=
  4 + u8 (zlen pubs) * Z.of_nat NODEID_LEN + u8 (zlen subs) * Z.of_nat NODEID_LEN + zlen id.

(** One request.  The first byte is written at the start, the others from
    [offset] on; the result is where the identifier was written. *)
Definition write_request (offset : nat) (pubs subs : list bytes) (id : bytes) : res (packet * nat) :=
  p ← packet_put 0 [MATCH_PUB_SUBS] (packet_make (request_size pubs subs id));
  p ← packet_put (offset + 1) [IMPLICIT_RENDEZVOUS] p;
  p ← packet_put (offset + 2) [u8 (zlen pubs)] p;
  '(p, offset) ← put_nodes pubs (offset + 3) p;
  p ← packet_put offset [u8 (zlen subs)] p;
  '(p, offset) ← put_nodes subs (offset + 1) p;
  p ← packet_put offset id p;
  Ok (p, offset).

Definition FID_to_tm : R bytes :=
  tm ← gets rm_graph;
  F ← from_res (calculateFID (RMnodeID tm) (tm_nodeID tm) tm);
  from_res (FID_read F).

(** [offset] is 0 for the first identifier only. *)
Definition requestMulticastTree (ids : list bytes) (publishers subscribers : set_map) : R (set_map * set_map) :=
  tm ← gets rm_graph;
  let notification_id := rm_resl_resp_bin_id ++ tm_nodeID tm in
  FID ← FID_to_tm;
  '(publishers, subscribers, _) ← mfoldl (λ '(publishers, subscribers, offset) id,
      x ← gets ex_pubs;
      alternatives ← lift_opt NullDeref (map_find id x);
      let publishers := add_all id alternatives publishers in
      let subscribers := add_all id [] subscribers in
      '(notification, offset) ← from_res (write_request offset (default [] (map_find id publishers)) (default [] (map_find id subscribers)) id);
      modify (rm_publishes (Publish notification_id FID notification));;
      mret (publishers, subscribers, offset)) (publishers, subscribers, 0%nat) ids;
  mret (publishers, subscribers).

(** A request for each publisher, all with the same number of publishers. *)
Definition requestUnicastPaths (ids : list bytes) (publishers subscribers : set_map) : R () :=
  tm ← gets rm_graph;
  let notification_id := rm_resl_resp_bin_id ++ rm_uc_resl_bin_id ++ tm_nodeID tm in
  FID ← FID_to_tm;
  _ ← mfoldl (λ '(publishers, subscribers) id,
      x ← gets ex_subs;
      alternatives ← lift_opt NullDeref (map_find id x);
      let subscribers := add_all id alternatives subscribers in
      let publishers := add_all id [] publishers in
      mfor (default [] (map_find id publishers)) (λ pub,
        '(notification, _) ← from_res (write_request 0 [pub] (default [] (map_find id subscribers)) id);
        modify (rm_publishes (Publish notification_id FID notification)));;
      mret (publishers, subscribers)) (publishers, subscribers) ids;
  mret ().

(** ** A lost link *)

(** What the search has found: the ends of the paths of each delivery, and the
    deliveries that are affected. *)
Record found_paths := mkFound { f_publishers : set_map; f_subscribers : set_map; f_ids : list bytes }.

Definition see_path (lsn_publisher affected_node icn_id : bytes) (affected_pub : option bytes) (path : bytes) (f : found_paths) : found_paths :=
  let path_nodes := split_path path in
  mkFound (add_all icn_id [default (default [] (head path_nodes)) affected_pub] (f_publishers f))
    (add_all icn_id [default [] (last path_nodes)] (f_subscribers f))
    (if bool_decide (lsn_publisher ∈ path_nodes) && bool_decide (affected_node ∈ path_nodes) then set_add icn_id (f_ids f) else f_ids f).

Definition search_multicast (lsn_publisher affected_node : bytes) (info : set_map) (f : found_paths) : found_paths :=
  foldl (λ f e, foldl (λ f path, see_path lsn_publisher affected_node e.1 None path f) f e.2) f info.

Definition search_unicast (lsn_publisher affected_node : bytes) (info : list (bytes * list (bytes * bytes))) (f : found_paths) : found_paths :=
  foldl (λ f e, foldl (λ f p, see_path lsn_publisher affected_node e.1 (Some p.1) p.2 f) f e.2) f info.

Definition handleLinkStateNotification (request : bytes) : R () :=
  let m := request ++ after in
  _ ← from_res (data_byte m 0);
  lsn_publisher ← from_res (c_substr m 1 NODEID_LEN);
  affected_node ← from_res (c_substr m (1 + NODEID_LEN) NODEID_LEN);
  r ← gets id;
  let f := search_multicast lsn_publisher affected_node (path_info r) (mkFound [] [] []) in
  let fu := search_unicast lsn_publisher affected_node (unicast_path_info r) (mkFound (f_publishers f) (f_subscribers f) []) in
  '(publishers, subscribers) ← (if bool_decide (f_ids f = []) then mret (f_publishers fu, f_subscribers fu)
    else requestMulticastTree (f_ids f) (f_publishers fu) (f_subscribers fu));
  if bool_decide (f_ids fu = []) then mret () else requestUnicastPaths (f_ids fu) publishers subscribers.

(** ** Events *)

(** The length of the copy is a byte. *)
Definition DispathToHandler (id request : bytes) : R () :=
  let m := request ++ beyond in
  request_type ← from_res (data_byte m 0);
  let payload_len := u8 (zlen request - 1) in
  payload ← from_res (data_read m 1 (Z.to_nat payload_len));
  if bool_decide (id = rm_UpdatePathId) then
    if request_type =? UPDATE_DELIVERY then handleMulticastPathNotification payload else mret ()
  else if bool_decide (id = rm_UpdateUnicastPathId) then
    if request_type =? UPDATE_DELIVERY then handleUnicastPathNotification payload else mret ()
  else if bool_decide (id = rm_DiscoverFailureId) then
    if request_type =? DISCOVER_FAILURE then handleLinkStateNotification payload else mret ()
  else mret ().

(** One turn of the loop; an identifier shorter than the part that is cut off
    stays as it is. *)
Definition event_listener_loop (ev : Event) : R () :=
  if ev_type ev =? PUBLISHED_DATA then
    data ← lift_opt NullDeref (ev_data ev);
    let prefix_id := if (length (ev_id ev) <? PURSUIT_ID_LEN)%nat then ev_id ev else take (length (ev_id ev) - PURSUIT_ID_LEN) (ev_id ev) in
    DispathToHandler prefix_id data
  else mret ().
End manager.

(** What [main] subscribes to: identifier and prefix, in order. *)
Definition rm_subscriptions : list (bytes * bytes) :=
  [(rm_resl_bin_id, []); (rm_resl_req_bin_id, []); (rm_uc_resl_bin_id, rm_resl_bin_id); (rm_uc_resl_bin_id, rm_resl_req_bin_id)].
