(* ===== verification/Resiliency.v ===== *)
(** * Deliveries that are reported

    What the topology manager tells the resiliency manager about a delivery,
    and that the latter keeps exactly that. *)

From S2P Require Import Prelude StdString Enums BitVector Packet Forwarder ForwarderProofs StdMap RvMessages ClientApi LibBitvector.
From S2P Require Import Topology TopologyPaths TopologyFID TopologyServe TopologyUpdate TopologyManager TopologyRequests ResiliencyManager.

(** The key of a delivery of one identifier. *)
Definition icn_key (k : bytes) : bytes := counted (id_field <$> [k]).

(** A string behind its length. *)
Definition path_field (p : bytes) : bytes := zlen p :: p.

Definition delivery_bytes (k : bytes) (paths alts : list bytes) : bytes :=
  [UPDATE_DELIVERY] ++ icn_key k ++ [zlen paths] ++ mjoin (path_field <$> paths) ++ [zlen alts] ++ mjoin alts.

(** ** What is collected *)

Section collected.
Context (pv : list (bytes * list bytes)).

Definition paths_in (result : list (bytes * option BABitvector)) : list bytes :=
  mjoin ((λ e, match e.2 with Some _ => default [] (map_find e.1 pv) | None => [] end) <$> result).
Definition alts_in (result : list (bytes * option BABitvector)) : list bytes :=
  omap (λ e, match e.2 with Some _ => None | None => Some e.1 end) result.

Lemma elem_of_paths_in result x : x ∈ paths_in result ↔ ∃ p F l, (p, Some F) ∈ result ∧ map_find p pv = Some l ∧ x ∈ l.
Proof.
  unfold paths_in. rw list_elem_of_join. split.
  - intros (l & Hx & (e & -> & He)%list_elem_of_fmap). destruct e as [p [F|]]; cbn in Hx; [|by apply elem_of_nil in Hx].
    destruct (map_find p pv) as [l|] eqn:E; [|by apply elem_of_nil in Hx]. by exists p, F, l.
  - intros (p & F & l & Hin & E & Hx). exists l. split; [done|]. apply list_elem_of_fmap. exists (p, Some F). split; [|done]. cbn. by rw E.
Qed.

Lemma elem_of_alts_in result p : p ∈ alts_in result ↔ (p, None) ∈ result.
Proof.
  unfold alts_in. rw list_elem_of_omap. split.
  - intros ([q [F|]] & Hin & E); [done|]. by injection E as ->.
  - intros Hin. by exists (p, None).
Qed.

Definition wrapped (paths : list bytes) : bytes := mjoin ((λ p, u8 (zlen p) :: p) <$> paths).

Lemma add_paths r paths : foldl add_path r paths =
  mkRs (if bool_decide (paths = []) then no_pathvectors r else u8 (no_pathvectors r + zlen paths)) (pathvectors_Field r ++ wrapped paths)
    (no_alternatives r) (alternatives r).
Proof.
  revert r. induction paths as [|p paths IH]; intros r; [destruct r; cbn; by rw app_nil_r|]. cbn [foldl]. rw IH.
  unfold add_path, wrapped. cbn [no_pathvectors pathvectors_Field no_alternatives alternatives fmap list_fmap mjoin list_join].
  rw (bool_decide_eq_false_2 (p :: paths = [])) // zlen_cons -app_assoc. f_equal.
  destruct (decide (paths = [])) as [->|Hn]; [rw bool_decide_eq_true_2 // zlen_nil; f_equal; lia|].
  rw bool_decide_eq_false_2 //. unfold u8. rw Zplus_mod_idemp_l. f_equal. lia.
Qed.

Lemma collected_all result r : 0 <= no_pathvectors r < 256 → 0 <= no_alternatives r < 256 →
  foldl (collect pv) r result = mkRs (u8 (no_pathvectors r + zlen (paths_in result))) (pathvectors_Field r ++ wrapped (paths_in result))
    (u8 (no_alternatives r + zlen (alts_in result))) (alternatives r ++ mjoin (alts_in result)).
Proof.
  revert r. induction result as [|[p [F|]] result IH]; intros r Hn Ha.
  - destruct r. cbn in *. rw !zlen_nil !Z.add_0_r !app_nil_r. unfold u8. by rw !Z.mod_small.
  - cbn [foldl]. unfold collect at 2. cbn [fst snd]. set (l := default [] (map_find p pv)).
    assert (paths_in ((p, Some F) :: result) = l ++ paths_in result) as -> by done.
    change (alts_in ((p, Some F) :: result)) with (alts_in result). rw add_paths IH; cbn [no_pathvectors pathvectors_Field no_alternatives alternatives].
    + unfold wrapped. rw fmap_app join_app app_assoc zlen_app. f_equal. destruct (decide (l = [])) as [->|Hl].
      * rw bool_decide_eq_true_2; [|done]. change (zlen (@nil bytes)) with 0. by rw Z.add_0_l.
      * rw bool_decide_eq_false_2 //. unfold u8. rw Zplus_mod_idemp_l. by rw Z.add_assoc.
    + case_bool_decide; [done|]. unfold u8. lia.
    + done.
  - cbn [foldl]. unfold collect at 2. cbn [fst snd]. change (paths_in ((p, None) :: result)) with (paths_in result).
    change (alts_in ((p, None) :: result)) with (p :: alts_in result). unfold add_alternative. rw IH;
      cbn [no_pathvectors pathvectors_Field no_alternatives alternatives]; [|done|unfold u8; lia].
    rw zlen_cons. cbn [mjoin list_join]. rw app_assoc. f_equal. unfold u8. rw Zplus_mod_idemp_l. f_equal. lia.
Qed.
End collected.

(** Lengths that fit in a byte. *)
Lemma wrapped_cons p paths : wrapped (p :: paths) = u8 (zlen p) :: p ++ wrapped paths.
Proof. done. Qed.

Lemma wrapped_count paths : zlen paths <= zlen (wrapped paths).
Proof. induction paths as [|q paths IH]; [done|]. rw wrapped_cons !zlen_cons zlen_app. pose proof (zlen_nonneg q). lia. Qed.

Lemma wrapped_fields paths : zlen (wrapped paths) < 256 → wrapped paths = mjoin (path_field <$> paths) ∧ zlen paths < 256 ∧
  Forall (λ p, zlen p < 256) paths.
Proof.
  intros H. split_and!.
  - induction paths as [|p paths IH]; [done|]. rw wrapped_cons zlen_cons zlen_app in H. pose proof (zlen_nonneg p). pose proof (zlen_nonneg (wrapped paths)).
    rw wrapped_cons IH; [|lia]. cbn [fmap list_fmap mjoin list_join]. unfold path_field at 2. unfold u8. by rw Z.mod_small; [|lia].
  - pose proof (wrapped_count paths). lia.
  - induction paths as [|p paths IH]; [done|]. rw wrapped_cons zlen_cons zlen_app in H. pose proof (zlen_nonneg p). pose proof (zlen_nonneg (wrapped paths)).
    constructor; [lia|]. apply IH. lia.
Qed.

Section delivery.
Context `{IG : Igraph} `{HP : Heap}.
Implicit Types (tm : tmgraph) (s : tm_server) (r : rmanager).
Context (beyond : bytes).

(** ** The message of the topology manager *)

Lemma puts_at off (c1 c2 c3 c4 : bytes) p q : (off ≤ length p)%nat → take off p = q →
  length p = (off + length (c1 ++ c2 ++ c3 ++ c4))%nat →
  (p ← packet_put off c1 p; p ← packet_put (off + length c1) c2 p; p ← packet_put (off + length c1 + length c2) c3 p;
    packet_put (off + length c1 + length c2 + length c3) c4 p) = Ok (q ++ (Some <$> c1 ++ c2 ++ c3 ++ c4)).
Proof.
  intros Hoff <- Hl. pose proof (packet_put_all_spec [c1; c2; c3; c4] off p Hoff) as H. cbn [mjoin list_join] in H. rw app_nil_r in H.
  rw (proj2 (Nat.leb_le _ _)) in H; [|by rw Hl]. rw (drop_ge p) in H; [|by rw Hl]. rw app_nil_r in H. rw -H. cbn [packet_put_all].
  destruct (packet_put off c1 p) as [p1|]; [|done]. cbn [mbind res_mbind res_bind]. destruct (packet_put _ c2 p1) as [p2|]; [|done].
  cbn [mbind res_mbind res_bind]. destruct (packet_put _ c3 p2) as [p3|]; [|done]. cbn [mbind res_mbind res_bind].
  by destruct (packet_put _ c4 p3).
Qed.

Lemma take_some (a b : bytes) (c : packet) n : length a = n → take n ((Some <$> a ++ b) ++ c) = Some <$> a.
Proof. intros <-. rw fmap_app -app_assoc -(length_fmap Some a). apply take_app_length. Qed.

Lemma update_delivery_run s k paths alts : (length k mod PURSUIT_ID_LEN = 0)%nat ∧ zlen k < 256 → holds_path (srv_tm s) (RMnodeID (srv_tm s)) → (2 ≤ length beyond)%nat →
  zlen (wrapped paths) < 256 → zlen alts < 256 → Forall (λ a, length a = NODEID_LEN) alts →
  update_delivery 1 (zlen k / ID_LEN) (ids_after beyond k []) (mkRs (zlen paths) (wrapped paths) (zlen alts) (mjoin alts)) s =
  Ok ((), happens [publication (srv_tm s) (RMnodeID (srv_tm s)) (UpdatePathId ++ RMnodeID (srv_tm s)) (delivery_bytes k paths alts)] s).
Proof.
  intros [Hmod Hk] Hp Hb Hw Ha Halts. destruct (wrapped_fields paths Hw) as (Ew & Hn & _).
  assert (Z.to_nat (zlen k / ID_LEN) * PURSUIT_ID_LEN = length k)%nat as Elen.
  { unfold zlen, ID_LEN, PURSUIT_ID_LEN in *. lia. }
  assert (length (mjoin alts) = (length alts * NODEID_LEN)%nat) as Lalts.
  { pose proof (zlen_mjoin_fixed _ _ Halts) as H1. unfold zlen in H1. lia. }
  assert (∃ x, ids_after beyond k [] = k ++ x ∧ length x = 2%nat) as (x & Ex & Lx).
  { exists (take 2 beyond). split; [|rw length_take; lia]. unfold ids_after. cbn [fmap list_fmap mjoin list_join]. cbn [app].
    assert (length (counted [id_field k]) = (length k + 2)%nat) as -> by (cbn; rw app_nil_r; lia).
    rw take_app. rw (take_ge k); [|lia]. by replace (length k + 2 - length k)%nat with 2%nat by lia. }
  unfold update_delivery. cbn [no_pathvectors pathvectors_Field no_alternatives alternatives]. rw Elen Ex.
  assert ((if zlen paths >? 0 then length (wrapped paths) else 0%nat) = length (wrapped paths)) as ->.
  { destruct paths as [|p paths]; [done|]. rw zlen_cons. pose proof (zlen_nonneg paths). by destruct (Z.gtb_spec (1 + zlen paths) 0); [|lia]. }
  assert (Z.to_nat (zlen alts) * NODEID_LEN = length (mjoin alts))%nat as -> by (rw Lalts; unfold zlen; lia).
  set (c1 := [zlen paths]). set (c3 := [zlen alts]). set (pre := [UPDATE_DELIVERY; 1; zlen k / ID_LEN] ++ k).
  set (size := 3 + 1 * (zlen k / ID_LEN) * Z.of_nat PURSUIT_ID_LEN + 1 + Z.of_nat (length (wrapped paths)) + 1 + zlen alts * Z.of_nat NODEID_LEN).
  assert (size = Z.of_nat (3 + length k + length (c1 ++ wrapped paths ++ c3 ++ mjoin alts))) as Esize.
  { rw !length_app Lalts. subst size. unfold zlen in *. unfold ID_LEN, PURSUIT_ID_LEN, NODEID_LEN in *. cbn [length c1 c3]. lia. }
  rw packet_put_all_make; [|rw Esize; lia].
  assert (mjoin [[UPDATE_DELIVERY]; [1]; [zlen k / ID_LEN]; k ++ x] = pre ++ x) as -> by (subst pre; cbn; by rw app_nil_r).
  assert (length pre = (3 + length k)%nat) as Lpre by done.
  assert ((zlen (pre ++ x) <=? size) = true) as ->.
  { apply Z.leb_le. unfold zlen. rw (length_app pre x) Lpre Lx Esize !length_app. cbn [length c1 c3]. lia. }
  set (p0 := _ ++ replicate _ None). cbn [mbind res_mbind res_bind].
  assert (length p0 = (3 + length k + length (c1 ++ wrapped paths ++ c3 ++ mjoin alts))%nat) as Lp0.
  { subst p0. rw length_app length_fmap length_replicate Esize !(length_app pre x) Lpre Lx !length_app. cbn [length c1 c3]. lia. }
  pose proof (puts_at (3 + length k) c1 (wrapped paths) c3 (mjoin alts) p0 (Some <$> pre) ltac:(rw Lp0; lia)) as Hputs.
  specialize (Hputs (take_some pre x _ _ Lpre) Lp0).
  rw !(c_str_read_all _ _ eq_refl). cbn [mbind res_mbind res_bind].
  change (length c1) with 1%nat in Hputs. change (length c3) with 1%nat in Hputs.
  assert (3 + length k + 1 = 4 + length k)%nat as E1 by lia. rw E1 in Hputs.
  assert (4 + length k + length (wrapped paths) + 1 = 5 + length k + length (wrapped paths))%nat as E2 by lia. rw E2 in Hputs. rw Hputs.
  rw -fmap_app from_res_bind. unfold mbind, T_bind, M_bind, gets. rw publish_to_run //. do 3 f_equal.
  unfold delivery_bytes, icn_key, counted. subst pre c1 c3. rw Ew. cbn [fmap list_fmap mjoin list_join]. unfold id_field.
  by rw app_nil_r -!app_assoc.
Qed.

(** ** What the resiliency manager reads *)

Context (after : bytes).

Lemma read_paths_run request paths d1 d3 acc : request = d1 ++ mjoin (path_field <$> paths) ++ d3 → Forall (λ p, zlen p < 256) paths →
  read_paths after request (length d1) (length paths) acc =
  Ok (foldl (λ a k, set_add k a) acc paths, (length d1 + length (mjoin (path_field <$> paths)))%nat).
Proof.
  intros Hr Hf. revert d1 acc Hr. induction Hf as [|p paths Hp Hf IH]; intros d1 acc Hr; [cbn; by rw Nat.add_0_r|].
  cbn [fmap list_fmap mjoin list_join] in Hr |- *. cbn [length read_paths foldl]. unfold path_field in Hr at 1. rw -app_assoc in Hr.
  set (rest := mjoin (path_field <$> paths)) in *.
  rw (data_byte_at (request ++ after) d1 (zlen p) ((p ++ rest ++ d3) ++ after) (length d1)) //; [|by rw Hr -!app_assoc].
  cbn [mbind res_mbind res_bind]. assert (Z.to_nat (zlen p) = length p) as -> by (unfold zlen; lia).
  assert (substr request (length d1 + 1) (length p) = Ok p) as ->.
  { unfold substr. assert (length request = (length d1 + 1 + length (p ++ rest ++ d3))%nat) as Hl by (rw Hr length_app /=; lia).
    destruct (Nat.ltb_spec (length request) (length d1 + 1)); [lia|]. f_equal.
    rw (drop_at request (d1 ++ [zlen p]) (p ++ rest ++ d3)); [by rw take_app_length|by rw Hr -app_assoc|by rw length_app]. }
  cbn [mbind res_mbind res_bind].
  pose proof (IH (d1 ++ zlen p :: p) (set_add p acc)) as IH'. rw length_app in IH'. cbn [length] in IH'.
  replace (length d1 + 1 + length p)%nat with (length d1 + S (length p))%nat by lia. rw IH'; [|by rw Hr -!app_assoc].
  do 2 f_equal. rw !length_app. cbn [length path_field]. fold rest. lia.
Qed.

Lemma read_nodes_run m nodes d1 d3 len acc : m = d1 ++ mjoin nodes ++ d3 → Forall (λ x, length x = len) nodes →
  read_nodes m (length d1) (length nodes) len acc = Ok (foldl (λ a k, set_add k a) acc nodes).
Proof.
  intros Hm Hf. revert d1 acc Hm. induction Hf as [|x nodes Hx Hf IH]; intros d1 acc Hm; [done|].
  cbn [length read_nodes foldl]. change (mjoin (x :: nodes)) with (x ++ mjoin nodes) in Hm. rw -app_assoc in Hm.
  rw -Hx (data_read_at m d1 x (mjoin nodes ++ d3)) //. cbn [mbind res_mbind res_bind]. rw Hx.
  pose proof (IH (d1 ++ x) (set_add x acc)) as IH'. rw length_app Hx in IH'. apply IH'. by rw -app_assoc.
Qed.

(** What is kept for the delivery, and that nothing else changes. *)
Record recorded k (paths alts : list bytes) r r' : Prop := {
  rec_paths : map_find (icn_key k) (path_info r') = if bool_decide (paths = []) then None else Some (set_of paths);
  rec_alts : map_find (icn_key k) (ex_pubs r') = Some (set_of alts);
  rec_other j : j ≠ icn_key k → map_find j (path_info r') = map_find j (path_info r) ∧ map_find j (ex_pubs r') = map_find j (ex_pubs r);
  rec_rest : rm_graph r' = rm_graph r ∧ unicast_path_info r' = unicast_path_info r ∧ ex_subs r' = ex_subs r ∧ published r' = published r;
}.

Lemma set_of_nil (l : list bytes) : set_of l = [] ↔ l = [].
Proof.
  split; [|by intros ->]. intros E. destruct l as [|x l]; [done|]. exfalso. assert (x ∈ set_of (x :: l)) as H by (apply to_set_of; by left).
  rw E in H. by apply elem_of_nil in H.
Qed.

Lemma icn_key_size k : (length k mod PURSUIT_ID_LEN = 0)%nat → zlen k < 256 → ∃ n, icn_key k = [1; n] ++ k ∧ (Z.to_nat n * PURSUIT_ID_LEN + 2)%nat = length (icn_key k).
Proof.
  intros Hm Hk. exists (zlen k / ID_LEN). assert (icn_key k = [1; zlen k / ID_LEN] ++ k) as E by (unfold icn_key, counted; cbn [fmap list_fmap mjoin list_join]; by rw app_nil_r). split; [done|].
  rw E. cbn [app length]. unfold zlen, ID_LEN, PURSUIT_ID_LEN in *. lia.
Qed.

(** The two ways to renew an entry. *)
Lemma renewed_find {V} (k : bytes) (v : V) m j : map_find j (map_add k v (map_del k m)) = if decide (j = k) then Some v else map_find j m.
Proof. rw map_find_add !map_find_del. rw (decide_True (P := k = k)) //. by case_decide. Qed.

Lemma kept_find k (l : list bytes) (info : set_map) j :
  map_find j (match map_find k info with
              | None => if bool_decide (l = []) then info else map_add k l info
              | Some _ => if bool_decide (l = []) then map_del k info else map_add k l (map_del k info)
              end) = if decide (j = k) then (if bool_decide (l = []) then None else Some l) else map_find j info.
Proof.
  destruct (map_find k info) as [old|] eqn:E; case_bool_decide as Hl.
  - rw map_find_del. done.
  - apply renewed_find.
  - case_decide; [by subst|done].
  - rw map_find_add E. by case_decide.
Qed.

Lemma wp_notification k paths alts r : (length k mod PURSUIT_ID_LEN = 0)%nat → zlen k < 256 →
  Forall (λ p, zlen p < 256) paths → Forall (λ a, length a = PURSUIT_ID_LEN) alts →
  wp (handleMulticastPathNotification after (icn_key k ++ [zlen paths] ++ mjoin (path_field <$> paths) ++ [zlen alts] ++ mjoin alts))
    (λ _, recorded k paths alts r) r.
Proof.
  intros Hm Hk Hp Ha. destruct (icn_key_size k Hm Hk) as (n & Ek & Ln). set (icn := icn_key k) in *. set (fields := mjoin (path_field <$> paths)).
  set (request := icn ++ [zlen paths] ++ fields ++ [zlen alts] ++ mjoin alts).
  assert (request ++ after = icn ++ zlen paths :: fields ++ zlen alts :: mjoin alts ++ after) as Em by (subst request; by rw -!app_assoc).
  unfold handleMulticastPathNotification. apply wp_bind. eapply wp_from_res; [by rw Em Ek|]. apply wp_bind. eapply wp_from_res; [by rw Em Ek|].
  rw Ln. apply wp_bind. eapply wp_from_res; [by apply (data_read_at _ [] icn (zlen paths :: fields ++ zlen alts :: mjoin alts ++ after))|].
  apply wp_bind. eapply wp_from_res; [by apply (data_byte_at _ icn _ (fields ++ zlen alts :: mjoin alts ++ after))|].
  assert (Z.to_nat (zlen paths) = length paths ∧ Z.to_nat (zlen alts) = length alts) as [Enp Ena] by (unfold zlen; lia). rw Enp.
  apply wp_bind. eapply wp_from_res.
  { replace (length icn + 1)%nat with (length (icn ++ [zlen paths])) by by rw length_app.
    apply (read_paths_run request paths (icn ++ [zlen paths]) ([zlen alts] ++ mjoin alts)); [|done]. subst request. by rw -!app_assoc. }
  fold (set_of paths). apply wp_bind, wp_gets. apply wp_bind, wp_modify. fold fields.
  assert (length (icn ++ [zlen paths]) + length fields = length (icn ++ zlen paths :: fields))%nat as -> by (rw !length_app /=; lia).
  apply wp_bind. eapply wp_from_res; [apply (data_byte_at _ (icn ++ zlen paths :: fields) (zlen alts) (mjoin alts ++ after)); [by rw Em -app_assoc|done]|].
  apply wp_bind. rw Ena. eapply wp_from_res.
  { replace (length (icn ++ zlen paths :: fields) + 1)%nat with (length ((icn ++ zlen paths :: fields) ++ [zlen alts])) by by rw length_app.
    apply (read_nodes_run _ alts _ after); [|done]. rw Em. by rw -!app_assoc. }
  fold (set_of alts). apply wp_modify. split; cbn [set_paths path_info ex_pubs rm_graph unicast_path_info ex_subs published].
  - rw kept_find decide_True //. by rw (bool_decide_ext _ _ (set_of_nil paths)).
  - by rw renewed_find decide_True.
  - intros j Hj. by rw kept_find renewed_find !decide_False.
  - done.
Qed.

(** ** Messages *)

Lemma dispatch_run later id type payload (r : rmanager) : zlen payload < 256 →
  DispathToHandler later after id (type :: payload) r =
  (if bool_decide (id = rm_UpdatePathId) then if type =? UPDATE_DELIVERY then handleMulticastPathNotification after payload else mret ()
   else if bool_decide (id = rm_UpdateUnicastPathId) then if type =? UPDATE_DELIVERY then handleUnicastPathNotification after payload else mret ()
   else if bool_decide (id = rm_DiscoverFailureId) then if type =? DISCOVER_FAILURE then handleLinkStateNotification after payload else mret ()
   else mret ()) r.
Proof.
  intros Hl. pose proof (zlen_nonneg payload). unfold DispathToHandler. rw zlen_cons.
  assert (u8 (1 + zlen payload - 1) = zlen payload) as -> by (unfold u8; rw Z.mod_small; lia).
  assert (Z.to_nat (zlen payload) = length payload) as -> by (unfold zlen; lia).
  change (data_byte ((type :: payload) ++ later) 0) with (Ok type).
  by rw (data_read_at ((type :: payload) ++ later) [type] payload later 1).
Qed.

(** The event of a publication under a scope, for one node. *)
Definition event_for (scope node data : bytes) : Event := mkEv PUBLISHED_DATA (scope ++ node) [] [] (Some data).

Lemma event_run later scope node data (r : rmanager) : length node = PURSUIT_ID_LEN →
  event_listener_loop later after (event_for scope node data) r = DispathToHandler later after scope data r.
Proof.
  intros Hn. unfold event_listener_loop, event_for. cbn [ev_type ev_data ev_id]. change (PUBLISHED_DATA =? PUBLISHED_DATA) with true. cbv iota.
  assert ((length (scope ++ node) <? PURSUIT_ID_LEN)%nat = false) as -> by (rw length_app Hn; apply Nat.ltb_ge; lia).
  assert (take (length (scope ++ node) - PURSUIT_ID_LEN) (scope ++ node) = scope) as ->.
  { rw length_app Hn Nat.add_sub. apply take_app_length. }
  done.
Qed.

(** What the resiliency manager keeps of a delivery from [ps] to [ss]. *)
Definition keeps tm (ps ss : list bytes) (result : list (bytes * option BABitvector)) k r r' : Prop :=
  (∀ x, (∃ l, map_find (icn_key k) (path_info r') = Some l ∧ x ∈ l) ↔
    ∃ p d, d ∈ ss ∧ server tm (set_of ps) d = Some p ∧ x = path_string (tm_graph tm) (path_of tm p d)) ∧
  (∃ l, map_find (icn_key k) (ex_pubs r') = Some l ∧ ∀ p, p ∈ l ↔ (p, None) ∈ result) ∧
  (∀ j, j ≠ icn_key k → map_find j (path_info r') = map_find j (path_info r) ∧ map_find j (ex_pubs r') = map_find j (ex_pubs r)) ∧
  rm_graph r' = rm_graph r ∧ unicast_path_info r' = unicast_path_info r ∧ ex_subs r' = ex_subs r ∧ published r' = published r.

Lemma recorded_keeps tm ps ss rs result pv k r r' : formation tm ps ss result → paths_ok tm (set_of ps) (set_of ss) rs pv → rs = true →
  recorded k (paths_in pv result) (alts_in result) r r' → keeps tm ps ss result k r r'.
Proof.
  intros [[Hnd Hkeys] Hno Hso Hserved] Hpv -> [Hp Ha Ho Hr]. unfold keeps. rw Hp Ha. split; [|split; [|split; [exact Ho|exact Hr]]].
  - intros x. transitivity (x ∈ paths_in pv result).
    { case_bool_decide as E; [rw E; split; [by intros (l & ? & _)|by intros ?%elem_of_nil]|]. split.
      - intros (l & [= <-] & Hx). by apply of_set_of.
      - intros Hx. eexists. split; [done|]. by apply to_set_of. }
    rw elem_of_paths_in. split.
    + intros (p & F & l & Hin & El & Hx). assert (p ∈ ps) as Hps by (apply Hkeys; by apply (list_elem_of_fmap_2 fst _ (p, Some F))).
      destruct (Hpv p (to_set_of _ _ Hps)) as (l' & El' & Hl'). assert (l' = l) as -> by congruence.
      apply Hl' in Hx as (_ & d & Hd & ->). apply elem_of_served in Hd as [Es Hd%of_set_of]. by exists p, d.
    + intros (p & d & Hd & Es & ->). destruct (Hserved d Hd) as (p' & F & Hin & Es' & _). assert (p' = p) as -> by congruence.
      assert (p ∈ ps) as Hps by (apply Hkeys; by apply (list_elem_of_fmap_2 fst _ (p, Some F))).
      destruct (Hpv p (to_set_of _ _ Hps)) as (l & El & Hl). exists p, F, l. split_and!; [done|done|]. apply Hl. split; [done|].
      exists d. split; [|done]. apply elem_of_served. split; [done|by apply to_set_of].
  - eexists. split; [done|]. intros p. rw elem_of_set_of. apply elem_of_alts_in.
Qed.

Lemma delivery_length k paths alts : zlen (delivery_bytes k paths alts) <= 256 → (length k mod PURSUIT_ID_LEN = 0)%nat →
  Forall (λ a, length a = NODEID_LEN) alts →
  zlen k < 256 ∧ zlen (wrapped paths) < 256 ∧ zlen alts < 256 ∧
  ∃ payload, delivery_bytes k paths alts = UPDATE_DELIVERY :: payload ∧ zlen payload < 256 ∧
    payload = icn_key k ++ [zlen paths] ++ mjoin (path_field <$> paths) ++ [zlen alts] ++ mjoin alts.
Proof.
  intros Hl Hm Ha. unfold delivery_bytes in *. rw !zlen_app in Hl. change (zlen [UPDATE_DELIVERY]) with 1 in Hl.
  change (zlen [zlen paths]) with 1 in Hl. change (zlen [zlen alts]) with 1 in Hl.
  assert (zlen (icn_key k) = 2 + zlen k) as Ek.
  { unfold icn_key, counted. cbn [fmap list_fmap mjoin list_join]. rw app_nil_r. unfold id_field. rw !zlen_cons. lia. }
  assert (zlen (mjoin (path_field <$> paths)) = zlen (wrapped paths)) as Ew.
  { clear. induction paths as [|p paths IH]; [done|]. rw wrapped_cons. cbn [fmap list_fmap mjoin list_join]. unfold path_field at 1.
    rw ?zlen_cons ?zlen_app ?zlen_cons IH. lia. }
  pose proof (zlen_mjoin_fixed _ _ Ha) as El. pose proof (zlen_nonneg k). pose proof (zlen_nonneg (wrapped paths)). pose proof (zlen_nonneg alts).
  unfold NODEID_LEN in *. split_and!; [lia|lia|lia|]. eexists. split; [done|]. split; [|done].
  rw !zlen_app. change (zlen [zlen paths]) with 1. change (zlen [zlen alts]) with 1. lia.
Qed.

Lemma collected_small pv result : zlen (paths_in pv result) < 256 → zlen (alts_in result) < 256 →
  foldl (collect pv) (mkRs 0 [] 0 []) result =
  mkRs (zlen (paths_in pv result)) (wrapped (paths_in pv result)) (zlen (alts_in result)) (mjoin (alts_in result)).
Proof.
  intros Hp Ha. rw collected_all //. cbn [no_pathvectors pathvectors_Field no_alternatives alternatives app].
  pose proof (zlen_nonneg (paths_in pv result)). pose proof (zlen_nonneg (alts_in result)). unfold u8. by rw !Z.add_0_l !Z.mod_small.
Qed.

Context (qos : option (bytes → list bytes → list bytes → res (list (bytes * option BABitvector) * list (bytes * list bytes)))).

(** A request for paths when the resiliency manager is told about them. *)
Lemma request_reported s strategy ps ss k : can_form true (srv_tm s) ps ss → getExten QOS (srv_tm s) = Ok false →
  node_ids ps → node_ids ss → (length k mod PURSUIT_ID_LEN = 0)%nat → zlen k < 256 → (2 ≤ length beyond)%nat →
  holds_path (srv_tm s) (RMnodeID (srv_tm s)) →
  ∃ result pv, calculateFIDs (set_of ps) (set_of ss) [] [] (srv_tm s) = Ok (result, pv) ∧ formation (srv_tm s) ps ss result ∧ paths_ok (srv_tm s) (set_of ps) (set_of ss) true pv ∧
    Forall (λ a, length a = NODEID_LEN) (alts_in result) ∧
    let data := delivery_bytes k (paths_in pv result) (alts_in result) in
    (zlen data <= 256 → handleMulticastPathRequest beyond qos (paths_request MATCH_PUB_SUBS strategy ps ss [k]) s =
      Ok ((), happens (answers (srv_tm s) MATCH_PUB_SUBS [k] result ++
        [publication (srv_tm s) (RMnodeID (srv_tm s)) (UpdatePathId ++ RMnodeID (srv_tm s)) data]) (counted_request s k))).
Proof.
  intros C Hq Hps Hss Hm Hk Hb HRM. destruct (formation_table true _ ps ss C) as (result & pv & Ecalc & Hform & HF & Hhas & Hpv).
  exists result, pv. assert (Forall (λ a, length a = NODEID_LEN) (alts_in result)) as Ha.
  { apply Forall_forall. intros a Hin%elem_of_alts_in. assert (a ∈ ps) as Hps'.
    { apply (fo_keys _ _ _ _ Hform). by apply (list_elem_of_fmap_2 fst _ (a, None)). }
    destruct Hps as [Hps _]. by eapply Forall_forall in Hps. }
  split_and!; [done|done|done|done|]. intros data Hl. destruct (delivery_length _ _ _ Hl Hm Ha) as (_ & Hw & Hal & _).
  destruct (wrapped_fields _ Hw) as (_ & Hn & _). assert (path_ids [k]) as Hids by (split; [by constructor|done]).
  rw (paths_request_run beyond qos s true MATCH_PUB_SUBS strategy ps ss k [] result pv (or_introl eq_refl) Hps Hss Hids Hb Hq (cf_rs _ _ _ _ C) Ecalc HF Hhas).
  rw collected_small //. change (zlen [k]) with 1. rw update_delivery_run //. by rw happens_happens.
Qed.

(** The event of the report, at the resiliency manager. *)
Lemma event_kept tm ps ss result pv k node : formation tm ps ss result → paths_ok tm (set_of ps) (set_of ss) true pv →
  Forall (λ a, length a = NODEID_LEN) (alts_in result) → (length k mod PURSUIT_ID_LEN = 0)%nat → length node = PURSUIT_ID_LEN →
  let data := delivery_bytes k (paths_in pv result) (alts_in result) in zlen data <= 256 →
  ∀ later r, ∃ r', event_listener_loop later after (event_for UpdatePathId node data) r = Ok ((), r') ∧ keeps tm ps ss result k r r'.
Proof.
  intros Hform Hpv Ha Hm Hnode data Hl later r. subst data.
  destruct (delivery_length _ _ _ Hl Hm Ha) as (Hk & Hw & _ & payload & -> & Hpl & Ep).
  rw event_run // dispatch_run //. rw bool_decide_eq_true_2 // Z.eqb_refl Ep.
  destruct (wrapped_fields _ Hw) as (_ & _ & Hpf).
  destruct (wp_ok _ _ _ (wp_notification k (paths_in pv result) (alts_in result) r Hm Hk Hpf Ha)) as ([] & r' & E & Hrec).
  exists r'. split; [exact E|]. by eapply recorded_keeps.
Qed.

(** The report about the delivery fits in the byte for its length. *)
Definition report_fits tm (ps ss : list bytes) (k : bytes) : Prop := ∀ result pv,
  calculateFIDs (set_of ps) (set_of ss) [] [] tm = Ok (result, pv) → zlen (delivery_bytes k (paths_in pv result) (alts_in result)) <= 256.

(** [C29] A request for the paths of an item, with resiliency and without
    quality of service, when the manager keeps a path to each publisher and
    to the resiliency manager, and each subscriber can be reached from one of
    the publishers ([can_form]).  The topology manager answers each publisher,
    and reports the delivery to the resiliency manager, whose handler, when
    the report has at most 256 bytes, keeps for the item exactly the paths over
    which its subscribers are served, and as alternatives the publishers that
    serve none, and changes nothing else. *)
Theorem delivery_reported s strategy ps ss k
    (C : can_form true (srv_tm s) ps ss) (Hq : getExten QOS (srv_tm s) = Ok false) (Hps : node_ids ps) (Hss : node_ids ss)
    (Hm : (length k mod PURSUIT_ID_LEN = 0)%nat) (Hk : zlen k < 256) (Hb : (2 ≤ length beyond)%nat)
    (HRM : holds_path (srv_tm s) (RMnodeID (srv_tm s))) (Hnode : length (RMnodeID (srv_tm s)) = PURSUIT_ID_LEN)
    (Hfit : report_fits (srv_tm s) ps ss k) :
  ∃ result data, formation (srv_tm s) ps ss result ∧
    ∃ s', handleMulticastPathRequest beyond qos (paths_request MATCH_PUB_SUBS strategy ps ss [k]) s = Ok ((), s') ∧
      srv_tm s' = srv_tm s ∧ (∃ n, happened s' = happened s ++ PathCalculations (root_scope_of k) n :: answers (srv_tm s) MATCH_PUB_SUBS [k] result ++
        [Publish (UpdatePathId ++ RMnodeID (srv_tm s)) (bytes_of_FID (path_to (srv_tm s) (RMnodeID (srv_tm s)))) (Some <$> data)]) ∧
      ∀ later r, ∃ r', event_listener_loop later after (event_for UpdatePathId (RMnodeID (srv_tm s)) data) r = Ok ((), r') ∧
        keeps (srv_tm s) ps ss result k r r'.
Proof.
  destruct (request_reported s strategy ps ss k C Hq Hps Hss Hm Hk Hb HRM) as (result & pv & Ecalc & Hform & Hpv & Ha & Hrun).
  pose proof (Hfit _ _ Ecalc) as Hl. exists result, (delivery_bytes k (paths_in pv result) (alts_in result)). split; [done|]. eexists. split; [by apply Hrun|]. split; [done|]. split.
  { eexists. cbn. by rw -app_assoc. }
  by apply event_kept.
Qed.
End delivery.
