(* ===== verification/ResiliencyRecovery.v ===== *)
(** * Recovery of a delivery

    A link of a delivery is lost: the topology manager repairs its own paths
    and tells the resiliency manager, which asks for new paths for the
    publishers and subscribers of the delivery; and what happens when more than
    one delivery is affected. *)

From S2P Require Import Prelude Enums BitVector Packet Forwarder ForwarderProofs StdMap RvMessages ClientApi LibBitvector.
From S2P Require Import Topology TopologyPaths TopologyFID TopologyServe TopologyUpdate TopologyLinks TopologyManager TopologyRequests.
From S2P Require Import TopologyRepair TopologyFailure ResiliencyManager Resiliency.

(** ** Paths as strings *)

Definition plain (n : bytes) : Prop := n ≠ [] ∧ Forall (λ c, c ≠ 45 ∧ c ≠ 62) n.

(** The parts of names that are joined. *)
Fixpoint joined (names : list bytes) : list bytes :=
  match names with [] => [[]] | [n] => [n] | n :: names => n :: [] :: joined names end.

Lemma split_plain n : Forall (λ c, c ≠ 45 ∧ c ≠ 62) n → split_path n = [n].
Proof. induction 1 as [|c n [H1 H2] _ IH]; [done|]. cbn. rw IH. by destruct (Z.eqb_spec c 45), (Z.eqb_spec c 62). Qed.

Lemma split_app n s t ts : Forall (λ c, c ≠ 45 ∧ c ≠ 62) n → split_path s = t :: ts → split_path (n ++ [45; 62] ++ s) = n :: [] :: t :: ts.
Proof.
  intros Hn Hs. induction Hn as [|c n [H1 H2] _ IH]; cbn in *; [by rw Hs|]. rw IH. by destruct (Z.eqb_spec c 45), (Z.eqb_spec c 62).
Qed.

Lemma joined_cons names : ∃ t ts, joined names = t :: ts.
Proof. destruct names as [|n [|m names]]; by eexists _, _. Qed.

Section strings.
Context `{IG : Igraph}.
Implicit Types (g : graph).

Lemma split_path_string g p : Forall (λ v, plain (VAS_NODEID g v)) p → split_path (path_string g p) = joined (VAS_NODEID g <$> p).
Proof.
  induction 1 as [|v p [Hv1 Hv2] Hp IH]; [done|]. destruct p as [|w p]; [by apply split_plain|].
  change (path_string g (v :: w :: p)) with (VAS_NODEID g v ++ [45; 62] ++ path_string g (w :: p)).
  destruct (joined_cons (VAS_NODEID g <$> w :: p)) as (t & ts & E). rw E in IH.
  rw (split_app _ _ t ts Hv2 IH). change (VAS_NODEID g <$> w :: p) with (VAS_NODEID g w :: (VAS_NODEID g <$> p)) in E.
  change (joined (VAS_NODEID g <$> v :: w :: p)) with (VAS_NODEID g v :: [] :: joined (VAS_NODEID g w :: (VAS_NODEID g <$> p))). by rw E.
Qed.

Lemma joined_head names n : head names = Some n → head (joined names) = Some n.
Proof. by destruct names as [|m [|m' names]]. Qed.

Lemma last_later {A} (x y : A) l : last (x :: y :: l) = last (y :: l).
Proof. done. Qed.

Lemma joined_last names n : last names = Some n → last (joined names) = Some n.
Proof.
  induction names as [|m names IH]; [done|]. destruct names as [|m' names]; [done|]. intros H. rw last_later in H.
  change (joined (m :: m' :: names)) with (m :: [] :: joined (m' :: names)). destruct (joined_cons (m' :: names)) as (t & ts & E).
  specialize (IH H). rw E in IH |- *. by rw !last_later.
Qed.

Lemma elem_of_joined names n : n ≠ [] → n ∈ joined names ↔ n ∈ names.
Proof.
  intros Hn. induction names as [|m names IH]; [cbn; set_solver|]. destruct names as [|m' names]; [done|].
  change (joined (m :: m' :: names)) with (m :: [] :: joined (m' :: names)). rw !(elem_of_cons _ n) IH. set_solver.
Qed.

(** The parts of the string of a walk. *)
Lemma path_parts g u v p : (∀ v, (v < igraph_vcount g)%nat → plain (VAS_NODEID g v)) → walk g u v p →
  default [] (head (split_path (path_string g p))) = VAS_NODEID g u ∧ default [] (last (split_path (path_string g p))) = VAS_NODEID g v ∧
  ∀ n, n ≠ [] → n ∈ split_path (path_string g p) ↔ ∃ w, w ∈ p ∧ n = VAS_NODEID g w.
Proof.
  intros Hpl Hw. assert (Forall (λ w, (w < igraph_vcount g)%nat) p ∧ head p = Some u ∧ last p = Some v) as (Hf & Hh & Hl).
  { clear Hpl. induction Hw as [u Hu|u w v e p Hu He Hw (Hf & Hh & Hl)]; [by repeat constructor|]. split_and!; [by constructor|done|].
    destruct p as [|x p]; [done|]. by rw last_later. }
  rw split_path_string; [|eapply Forall_impl; [exact Hf|exact Hpl]]. split_and!.
  - rw (joined_head _ (VAS_NODEID g u)) //. destruct p; [done|]. by injection Hh as ->.
  - rw (joined_last _ (VAS_NODEID g v)) //. by rw fmap_last Hl.
  - intros n Hn. rw elem_of_joined // list_elem_of_fmap. naive_solver.
Qed.
End strings.

(** ** The search for what is affected *)

Definition first_part (path : bytes) : bytes := default [] (head (split_path path)).
Definition last_part (path : bytes) : bytes := default [] (last (split_path path)).

(** Both nodes are on the path. *)
Definition cut (a b path : bytes) : Prop := a ∈ split_path path ∧ b ∈ split_path path.

Definition of_key (j : bytes) (m : set_map) : list bytes := default [] (map_find j m).
Definition sets_ok (m : set_map) : Prop := ∀ j, NoDup (of_key j m).

Lemma of_key_add_all j k l m : of_key j (add_all k l m) = if decide (j = k) then foldl (λ a x, set_add x a) (of_key k m) l else of_key j m.
Proof. unfold of_key, add_all. rw map_find_set. by case_decide. Qed.

Lemma elem_of_add_all j k l m x : x ∈ of_key j (add_all k l m) ↔ (j = k ∧ x ∈ l) ∨ x ∈ of_key j m.
Proof. rw of_key_add_all. case_decide as E; [subst; rw elem_of_set_adds; set_solver|naive_solver]. Qed.

Lemma add_all_sets k l m : sets_ok m → sets_ok (add_all k l m).
Proof. intros H j. rw of_key_add_all. case_decide; [by apply NoDup_set_adds|done]. Qed.

(** The paths that are looked at, with their keys and publishers. *)
Abbreviation entry := (bytes * option bytes * bytes)%type (only parsing).
Definition see (a b : bytes) (f : found_paths) (e : entry) : found_paths := see_path a b e.1.1 e.1.2 e.2 f.
Definition multicast_entries (info : set_map) : list entry := mjoin ((λ e, (λ path, (e.1, None, path)) <$> e.2) <$> info).
Definition unicast_entries (info : list (bytes * list (bytes * bytes))) : list entry :=
  mjoin ((λ e, (λ p, (e.1, Some p.1, p.2)) <$> e.2) <$> info).

Lemma search_multicast_flat a b info f : search_multicast a b info f = foldl (see a b) f (multicast_entries info).
Proof.
  unfold search_multicast, multicast_entries. revert f. induction info as [|[k paths] info IH]; intros f; [done|].
  cbn [foldl fmap list_fmap mjoin list_join]. rw foldl_app IH. f_equal. generalize f. clear. induction paths as [|p paths IH]; intros f; [done|].
  cbn. apply IH.
Qed.

Lemma search_unicast_flat a b info f : search_unicast a b info f = foldl (see a b) f (unicast_entries info).
Proof.
  unfold search_unicast, unicast_entries. revert f. induction info as [|[k paths] info IH]; intros f; [done|].
  cbn [foldl fmap list_fmap mjoin list_join]. rw foldl_app IH. f_equal. generalize f. clear. induction paths as [|p paths IH]; intros f; [done|].
  cbn. apply IH.
Qed.

Record found_ok (f : found_paths) : Prop := { fk_pubs : sets_ok (f_publishers f); fk_subs : sets_ok (f_subscribers f); fk_ids : NoDup (f_ids f) }.

(** What the search finds. *)
Lemma search_found a b l f : found_ok f → let f' := foldl (see a b) f l in found_ok f' ∧
  (∀ j x, x ∈ of_key j (f_publishers f') ↔ x ∈ of_key j (f_publishers f) ∨ ∃ o path, (j, o, path) ∈ l ∧ x = default (first_part path) o) ∧
  (∀ j x, x ∈ of_key j (f_subscribers f') ↔ x ∈ of_key j (f_subscribers f) ∨ ∃ o path, (j, o, path) ∈ l ∧ x = last_part path) ∧
  ∀ j, j ∈ f_ids f' ↔ j ∈ f_ids f ∨ ∃ o path, (j, o, path) ∈ l ∧ cut a b path.
Proof.
  revert f. induction l as [|[[k o] path] l IH]; intros f Hf; cbn [foldl].
  { split; [done|]. split_and!; intros; (split; [by left|]); intros [H|(o & path & H & _)]; [done|by apply elem_of_nil in H|done|by apply elem_of_nil in H|done|by apply elem_of_nil in H]. }
  assert (found_ok (see a b f (k, o, path))) as Hok.
  { destruct Hf as [H1 H2 H3]. unfold see, see_path. cbn [fst snd]. split; cbn [f_publishers f_subscribers f_ids]; [by apply add_all_sets..|].
    destruct (_ && _); [by apply NoDup_set_add|done]. }
  destruct (IH _ Hok) as (Hok' & H1 & H2 & H3). split; [exact Hok'|]. unfold see, see_path in H1, H2, H3. cbn [fst snd f_publishers f_subscribers f_ids] in H1, H2, H3.
  split_and!.
  - intros j x. rw H1 elem_of_add_all list_elem_of_singleton. fold (first_part path). split.
    + intros [[[-> ->]|H]|(o' & path' & H & ->)]; [right; exists o, path; split; [by left|done]|by left|right; exists o', path'; split; [by right|done]].
    + intros [H|(o' & path' & [[= -> -> ->]|H]%elem_of_cons & ->)]; [left; by right|left; left; done|right; by exists o', path'].
  - intros j x. rw H2 elem_of_add_all list_elem_of_singleton. fold (last_part path). split.
    + intros [[[-> ->]|H]|(o' & path' & H & ->)]; [right; exists o, path; split; [by left|done]|by left|right; exists o', path'; split; [by right|done]].
    + intros [H|(o' & path' & [[= -> -> ->]|H]%elem_of_cons & ->)]; [left; by right|left; left; done|right; by exists o', path'].
  - intros j. rw H3. assert (j ∈ (if bool_decide (a ∈ split_path path) && bool_decide (b ∈ split_path path) then set_add k (f_ids f) else f_ids f) ↔
      j ∈ f_ids f ∨ (j = k ∧ cut a b path)) as ->.
    { unfold cut. destruct (bool_decide_reflect (a ∈ split_path path)), (bool_decide_reflect (b ∈ split_path path)); cbn [andb];
        [rw elem_of_set_add|..]; naive_solver. }
    split.
    + intros [[H|[-> H]]|(o' & path' & H & Hc)]; [by left|right; exists o, path; split; [by left|done]|right; exists o', path'; split; [by right|done]].
    + intros [H|(o' & path' & [[= -> -> ->]|H]%elem_of_cons & Hc)]; [left; by left|left; by right|right; by exists o', path'].
Qed.

Lemma found_nothing : found_ok (mkFound [] [] []).
Proof. split; [intros j; constructor|intros j; constructor|constructor]. Qed.

Lemma elem_of_multicast info j o path : (j, o, path) ∈ multicast_entries info ↔ o = None ∧ ∃ paths, (j, paths) ∈ info ∧ path ∈ paths.
Proof.
  unfold multicast_entries. rw list_elem_of_join. split.
  - intros (l & Hin & ([k paths] & -> & Hk)%list_elem_of_fmap). apply list_elem_of_fmap in Hin as (p & [= -> -> ->] & Hp). split; [done|]. by exists paths.
  - intros (-> & paths & Hk & Hp). exists ((λ path, (j, None, path)) <$> paths). split; [apply list_elem_of_fmap; by exists path|].
    apply list_elem_of_fmap. by exists (j, paths).
Qed.

Lemma elem_of_unicast info j o path : (j, o, path) ∈ unicast_entries info ↔ ∃ p paths, o = Some p ∧ (j, paths) ∈ info ∧ (p, path) ∈ paths.
Proof.
  unfold unicast_entries. rw list_elem_of_join. split.
  - intros (l & Hin & ([k paths] & -> & Hk)%list_elem_of_fmap). apply list_elem_of_fmap in Hin as ([p q] & [= -> -> ->] & Hp). by exists p, paths.
  - intros (p & paths & -> & Hk & Hp). exists ((λ p, (j, Some p.1, p.2)) <$> paths). split; [apply list_elem_of_fmap; by exists (p, path)|].
    apply list_elem_of_fmap. by exists (j, paths).
Qed.

(** ** Requests *)

Lemma put_nodes_run nodes off p : Forall (λ n, length n = NODEID_LEN) nodes →
  put_nodes nodes off p = (p ← packet_put_all off nodes p; Ok (p, (off + length (mjoin nodes))%nat)).
Proof.
  intros Hn. revert off p. induction Hn as [|n nodes Hl Hn IH]; intros off p; [cbn; by rw Nat.add_0_r|].
  cbn [put_nodes packet_put_all]. rw (c_str_read_all n NODEID_LEN Hl). cbn [mbind res_mbind res_bind].
  destruct (packet_put off n p) as [p1|]; [|done]. cbn [mbind res_mbind res_bind]. rw IH. change (mjoin (n :: nodes)) with (n ++ mjoin nodes).
  by rw length_app Nat.add_assoc Hl.
Qed.

Lemma packet_put_all_app c1 c2 off p : packet_put_all off (c1 ++ c2) p =
  (p ← packet_put_all off c1 p; packet_put_all (off + length (mjoin c1)) c2 p).
Proof.
  revert off p. induction c1 as [|c c1 IH]; intros off p; [cbn; by rw Nat.add_0_r|]. cbn [app packet_put_all].
  destruct (packet_put off c p) as [p1|]; [|done]. cbn [mbind res_mbind res_bind]. rw IH. change (mjoin (c :: c1)) with (c ++ mjoin c1).
  by rw length_app Nat.add_assoc.
Qed.

Lemma packet_put_all_cons c cs off p : packet_put_all off (c :: cs) p = (p ← packet_put off c p; packet_put_all (off + length c) cs p).
Proof. done. Qed.

Lemma write_request_run pubs subs id : Forall (λ n, length n = NODEID_LEN) pubs → Forall (λ n, length n = NODEID_LEN) subs →
  zlen pubs < 256 → zlen subs < 256 →
  ∃ off, write_request 0 pubs subs id =
    Ok (Some <$> [MATCH_PUB_SUBS; IMPLICIT_RENDEZVOUS] ++ counted pubs ++ counted subs ++ id, off).
Proof.
  intros Hp Hs Np Ns. pose proof (zlen_nonneg pubs). pose proof (zlen_nonneg subs).
  assert (u8 (zlen pubs) = zlen pubs ∧ u8 (zlen subs) = zlen subs) as [Ep Es] by (unfold u8; by rw !Z.mod_small).
  set (chunks := [[MATCH_PUB_SUBS]; [IMPLICIT_RENDEZVOUS]; [zlen pubs]] ++ pubs ++ [[zlen subs]] ++ subs ++ [id]).
  assert (mjoin chunks = [MATCH_PUB_SUBS; IMPLICIT_RENDEZVOUS] ++ counted pubs ++ counted subs ++ id) as Ej.
  { unfold chunks. rw !join_app. cbn. by rw app_nil_r. }
  assert (request_size pubs subs id = zlen (mjoin chunks)) as Hsize.
  { rw Ej. unfold request_size, counted. rw Ep Es !zlen_app !zlen_cons (zlen_mjoin_fixed _ _ Hp) (zlen_mjoin_fixed _ _ Hs).
    change (zlen (@nil Z)) with 0. lia. }
  pose proof (build_exact _ _ Hsize) as Hb. rw Ej in Hb.
  unfold build in Hb. unfold chunks in Hb. cbn [app] in Hb. rw packet_put_all_cons in Hb. unfold write_request. cbn [Nat.add]. rw Ep Es.
  destruct (packet_put 0 [MATCH_PUB_SUBS] _) as [p1|]; [|done]. cbn [mbind res_mbind res_bind length Nat.add] in Hb |- *.
  rw packet_put_all_cons in Hb. destruct (packet_put 1 _ p1) as [p2|]; [|done]. cbn [mbind res_mbind res_bind length Nat.add] in Hb |- *.
  rw packet_put_all_cons in Hb. destruct (packet_put 2 _ p2) as [p3|]; [|done]. cbn [mbind res_mbind res_bind length Nat.add] in Hb |- *.
  rw put_nodes_run //. rw packet_put_all_app in Hb. destruct (packet_put_all 3 pubs p3) as [p4|]; [|done]. cbn [mbind res_mbind res_bind] in Hb |- *.
  rw packet_put_all_cons in Hb. destruct (packet_put _ [zlen subs] p4) as [p5|]; [|done]. cbn [mbind res_mbind res_bind] in Hb |- *.
  rw put_nodes_run //. rw packet_put_all_app in Hb. cbn [length] in Hb. destruct (packet_put_all _ subs p5) as [p6|]; [|done].
  cbn [mbind res_mbind res_bind] in Hb |- *. rw packet_put_all_cons in Hb. destruct (packet_put _ id p6) as [p7|]; [|done].
  cbn [mbind res_mbind res_bind] in Hb |- *. cbn [packet_put_all] in Hb. injection Hb as ->. by eexists.
Qed.

(** From another place the identifier does not fit any more. *)
Lemma packet_put_inv off c p r : packet_put off c p = r → (∃ q, r = Ok q ∧ length q = length p ∧ (off + length c ≤ length p)%nat) ∨ r = Fault OutOfBounds.
Proof.
  intros <-. destruct (packet_put off c p) as [q|e] eqn:E; [left|right].
  - exists q. split_and!; [done|by eapply packet_put_length|]. unfold packet_put in E. by destruct (Nat.leb_spec (off + length c) (length p)).
  - unfold packet_put in E. destruct (_ <=? _)%nat; [done|by injection E as <-].
Qed.

Lemma put_nodes_inv nodes off p : (∃ q, put_nodes nodes off p = Ok (q, (off + length nodes * NODEID_LEN)%nat) ∧ length q = length p) ∨
  put_nodes nodes off p = Fault OutOfBounds.
Proof.
  revert off p. induction nodes as [|n nodes IH]; intros off p; [left; exists p; cbn; by rw Nat.add_0_r|]. cbn [put_nodes].
  unfold c_str_read. destruct (_ <=? _)%nat; [|by right]. cbn [mbind res_mbind res_bind].
  destruct (packet_put_inv off (take NODEID_LEN (n ++ [0])) p _ eq_refl) as [(q & -> & Hl & _)| ->]; [|by right]. cbn [mbind res_mbind res_bind].
  destruct (IH (off + NODEID_LEN)%nat q) as [(q' & -> & Hl')| ->]; [|by right]. left. exists q'. split; [|congruence]. do 2 f_equal. cbn [length]. unfold NODEID_LEN. lia.
Qed.

Lemma write_request_overflow offset pubs subs id : (1 ≤ offset)%nat → write_request offset pubs subs id = Fault OutOfBounds.
Proof.
  intros Ho. unfold write_request. set (p0 := packet_make _).
  assert (length p0 ≤ 4 + length pubs * NODEID_LEN + length subs * NODEID_LEN + length id)%nat as Hl.
  { subst p0. unfold packet_make. rw length_replicate. unfold request_size. assert (∀ l : list bytes, 0 <= u8 (zlen l) <= zlen l) as Hu.
    { intros l. unfold u8. pose proof (zlen_nonneg l). split; [lia|]. apply Z.mod_le; lia. }
    pose proof (Hu pubs). pose proof (Hu subs). unfold zlen, NODEID_LEN in *. lia. }
  destruct (packet_put_inv 0 [MATCH_PUB_SUBS] p0 _ eq_refl) as [(p1 & -> & L1 & _)| ->]; [|done]. cbn [mbind res_mbind res_bind].
  destruct (packet_put_inv (offset + 1) [IMPLICIT_RENDEZVOUS] p1 _ eq_refl) as [(p2 & -> & L2 & _)| ->]; [|done]. cbn [mbind res_mbind res_bind].
  destruct (packet_put_inv (offset + 2) [u8 (zlen pubs)] p2 _ eq_refl) as [(p3 & -> & L3 & _)| ->]; [|done]. cbn [mbind res_mbind res_bind].
  destruct (put_nodes_inv pubs (offset + 3) p3) as [(p4 & -> & L4)| ->]; [|done]. cbn [mbind res_mbind res_bind].
  destruct (packet_put_inv (offset + 3 + length pubs * NODEID_LEN) [u8 (zlen subs)] p4 _ eq_refl) as [(p5 & -> & L5 & _)| ->]; [|done].
  cbn [mbind res_mbind res_bind]. destruct (put_nodes_inv subs (offset + 3 + length pubs * NODEID_LEN + 1) p5) as [(p6 & -> & L6)| ->]; [|done].
  cbn [mbind res_mbind res_bind].
  destruct (packet_put_inv (offset + 3 + length pubs * NODEID_LEN + 1 + length subs * NODEID_LEN) id p6 _ eq_refl) as [(p7 & _ & _ & Hfit)| ->]; [|done]. lia.
Qed.

Lemma write_request_ends offset pubs subs id :
  (∃ q off, write_request offset pubs subs id = Ok (q, off) ∧ (1 ≤ off)%nat) ∨ write_request offset pubs subs id = Fault OutOfBounds.
Proof.
  unfold write_request.
  destruct (packet_put_inv 0 [MATCH_PUB_SUBS] (packet_make (request_size pubs subs id)) _ eq_refl) as [(p1 & -> & _)| ->]; [|by right].
  cbn [mbind res_mbind res_bind].
  destruct (packet_put_inv (offset + 1) [IMPLICIT_RENDEZVOUS] p1 _ eq_refl) as [(p2 & -> & _)| ->]; [|by right]. cbn [mbind res_mbind res_bind].
  destruct (packet_put_inv (offset + 2) [u8 (zlen pubs)] p2 _ eq_refl) as [(p3 & -> & _)| ->]; [|by right]. cbn [mbind res_mbind res_bind].
  destruct (put_nodes_inv pubs (offset + 3) p3) as [(p4 & -> & _)| ->]; [|by right]. cbn [mbind res_mbind res_bind].
  destruct (packet_put_inv (offset + 3 + length pubs * NODEID_LEN) [u8 (zlen subs)] p4 _ eq_refl) as [(p5 & -> & _)| ->]; [|by right].
  cbn [mbind res_mbind res_bind]. destruct (put_nodes_inv subs (offset + 3 + length pubs * NODEID_LEN + 1) p5) as [(p6 & -> & _)| ->]; [|by right].
  cbn [mbind res_mbind res_bind].
  destruct (packet_put_inv (offset + 3 + length pubs * NODEID_LEN + 1 + length subs * NODEID_LEN) id p6 _ eq_refl) as [(p7 & -> & _)| ->]; [|by right].
  left. eexists _, _. split; [done|]. lia.
Qed.

(** ** The resiliency manager after a failure *)

Section recovery.
Context `{IG : Igraph} `{HP : Heap}.
Implicit Types (tm : tmgraph) (s : tm_server) (r : rmanager).
Context (after z : bytes) (Hafter : c_string after = Ok z).

(** The message about a lost link, without its first byte. *)
Definition failure_bytes (net_type : Z) (a b : bytes) : bytes := net_type :: a ++ b.

Lemma read_failure net_type a b : net_type ≠ 0 → length a = NODEID_LEN → length b = NODEID_LEN → Forall (λ c, c ≠ 0) a → Forall (λ c, c ≠ 0) b →
  c_substr (failure_bytes net_type a b ++ after) 1 NODEID_LEN = Ok a ∧
  c_substr (failure_bytes net_type a b ++ after) (1 + NODEID_LEN) NODEID_LEN = Ok b.
Proof.
  intros Hn La Lb Ha Hb.
  assert (c_string (failure_bytes net_type a b ++ after) = Ok (failure_bytes net_type a b ++ z)) as E.
  { apply c_string_app; [|done]. constructor; [done|]. by apply Forall_app. }
  unfold c_substr. rw E. cbn [mbind res_mbind res_bind].
  assert (length (failure_bytes net_type a b ++ z) = (1 + NODEID_LEN + NODEID_LEN + length z)%nat) as Hl.
  { unfold failure_bytes. cbn [app length]. rw !length_app La Lb. lia. }
  destruct (Nat.ltb_spec (length (failure_bytes net_type a b ++ z)) 1); [lia|].
  destruct (Nat.ltb_spec (length (failure_bytes net_type a b ++ z)) (1 + NODEID_LEN)); [lia|]. split; f_equal.
  - change (failure_bytes net_type a b ++ z) with (net_type :: (a ++ b) ++ z). cbn [drop]. rw -app_assoc -La. apply take_app_length.
  - rw (drop_at _ (net_type :: a) (b ++ z)); [rw -Lb; apply take_app_length|by rw /failure_bytes /= -app_assoc|by rw /= La].
Qed.

(** What the deliveries [info] are, and that only that of [k] has a path over
    both nodes. *)
Record one_affected r (a b key : bytes) : Prop := {
  oa_cut : ∃ paths path, (key, paths) ∈ path_info r ∧ path ∈ paths ∧ cut a b path;
  oa_only j paths path : (j, paths) ∈ path_info r → path ∈ paths → cut a b path → j = key;
  oa_unicast j paths p path : (j, paths) ∈ unicast_path_info r → (p, path) ∈ paths → j ≠ key ∧ ¬ cut a b path;
}.

Definition delivers_from r key x : Prop := ∃ paths path, (key, paths) ∈ path_info r ∧ path ∈ paths ∧ x = first_part path.
Definition delivers_to r key x : Prop := ∃ paths path, (key, paths) ∈ path_info r ∧ path ∈ paths ∧ x = last_part path.

Lemma singleton_of (l : list bytes) x : NoDup l → (∀ y, y ∈ l ↔ y = x) → l = [x].
Proof.
  intros Hn H. destruct l as [|y l]; [exfalso; apply (elem_of_nil (A := bytes) x); by apply H|]. assert (y = x) as -> by (apply H; by left).
  destruct l as [|w l]; [done|]. assert (w = x) as -> by (apply H; right; by left). apply NoDup_cons in Hn as [Hn _]. by destruct Hn; left.
Qed.

(** The result of both searches. *)
Lemma one_found r a b key : one_affected r a b key →
  let f := search_multicast a b (path_info r) (mkFound [] [] []) in
  let fu := search_unicast a b (unicast_path_info r) (mkFound (f_publishers f) (f_subscribers f) []) in
  f_ids f = [key] ∧ f_ids fu = [] ∧ sets_ok (f_publishers fu) ∧ sets_ok (f_subscribers fu) ∧
  (∀ x, x ∈ of_key key (f_publishers fu) ↔ delivers_from r key x) ∧ ∀ x, x ∈ of_key key (f_subscribers fu) ↔ delivers_to r key x.
Proof.
  intros [(cp & cq & Hc1 & Hc2 & Hc3) Honly Hu] f fu. subst fu. subst f. rw search_multicast_flat search_unicast_flat.
  destruct (search_found a b (multicast_entries (path_info r)) _ found_nothing) as (Hok & H1 & H2 & H3). set (f1 := foldl _ _ _) in *.
  assert (found_ok (mkFound (f_publishers f1) (f_subscribers f1) [])) as Hok'.
  { destruct Hok as [K1 K2 _]. split; [exact K1|exact K2|constructor]. }
  destruct (search_found a b (unicast_entries (unicast_path_info r)) _ Hok') as (Hokf & U1 & U2 & U3).
  set (f2 := foldl (see a b) (mkFound (f_publishers f1) (f_subscribers f1) []) (unicast_entries (unicast_path_info r))) in *.
  cbn [f_publishers f_subscribers f_ids] in *. split_and!.
  - apply singleton_of; [apply (fk_ids _ Hok)|]. intros y. rw H3. split.
    + intros [H|(o & path & (_ & paths & Hin & Hp)%elem_of_multicast & Hc)]; [by apply elem_of_nil in H|]. by eapply Honly.
    + intros ->. right. exists None, cq. split; [|done]. apply elem_of_multicast. split; [done|]. by exists cp.
  - destruct (f_ids f2) as [|y l] eqn:E; [done|]. exfalso. assert (y ∈ y :: l) as Hy by by left. apply U3 in Hy as [H|H]; [by apply elem_of_nil in H|].
    destruct H as (o & path & (p & paths & -> & Hin & Hp)%elem_of_unicast & Hc). by destruct (Hu _ _ _ _ Hin Hp).
  - apply Hokf.
  - apply Hokf.
  - intros x. rw U1 H1. split.
    + intros [[H|(o & path & (-> & paths & Hin & Hp)%elem_of_multicast & ->)]|(o & path & (p & paths & -> & Hin & Hp)%elem_of_unicast & _)];
        [by apply elem_of_nil in H|by exists paths, path|]. by destruct (Hu _ _ _ _ Hin Hp).
    + intros (paths & path & Hin & Hp & ->). left. right. exists None, path. split; [|done]. apply elem_of_multicast. split; [done|]. by exists paths.
  - intros x. rw U2 H2. split.
    + intros [[H|(o & path & (-> & paths & Hin & Hp)%elem_of_multicast & ->)]|(o & path & (p & paths & -> & Hin & Hp)%elem_of_unicast & _)];
        [by apply elem_of_nil in H|by exists paths, path|]. by destruct (Hu _ _ _ _ Hin Hp).
    + intros (paths & path & Hin & Hp & ->). left. right. exists None, path. split; [|done]. apply elem_of_multicast. split; [done|]. by exists paths.
Qed.

Lemma NoDup_in_length (l N : list bytes) : NoDup l → (∀ x, x ∈ l → x ∈ N) → zlen N < 256 → zlen l < 256.
Proof.
  intros Hl Hin HN. assert (length l ≤ length N)%nat as H; [|unfold zlen in *; lia].
  apply NoDup_incl_length; [by apply NoDup_ListNoDup|]. intros x Hx%list_elem_of_In. by apply list_elem_of_In, Hin.
Qed.

(** What the process needs to send: its own graph, as it was read. *)
Record can_send r : Prop := {
  cs_laws : igraph_laws (tm_graph (rm_graph r));
  cs_tables : tm_ok (rm_graph r);
  cs_known : known (rm_graph r) (RMnodeID (rm_graph r)) ∧ known (rm_graph r) (tm_nodeID (rm_graph r));
}.

Lemma FID_to_tm_run r : can_send r → ∃ F, FID_ok F ∧ has_bits F (calculated (rm_graph r) (RMnodeID (rm_graph r)) (tm_nodeID (rm_graph r))) ∧
  FID_to_tm r = Ok (bytes_of_FID F, r).
Proof.
  intros [L T [H1 H2]]. destruct (calculate_run (rm_graph r) _ _ L T H1 H2) as (F & E & HF). exists F. split_and!; [apply HF|done|].
  unfold FID_to_tm, gets, from_res, mbind, R_bind, M_bind. by rw E FID_ok_read; [|apply HF].
Qed.

(** One delivery is affected: one request, for all its publishers, those that
    served and the alternatives, and its subscribers. *)
Lemma lsn_one r net_type a b k alts ps ss : net_type ≠ 0 → length a = NODEID_LEN → length b = NODEID_LEN →
  Forall (λ c, c ≠ 0) a → Forall (λ c, c ≠ 0) b → one_affected r a b (icn_key k) → map_find (icn_key k) (ex_pubs r) = Some alts → can_send r →
  node_ids ps → node_ids ss → (∀ x, delivers_from r (icn_key k) x ∨ x ∈ alts → x ∈ ps) → (∀ x, delivers_to r (icn_key k) x → x ∈ ss) →
  ∃ X Y F, FID_ok F ∧ has_bits F (calculated (rm_graph r) (RMnodeID (rm_graph r)) (tm_nodeID (rm_graph r))) ∧
    handleLinkStateNotification after (failure_bytes net_type a b) r =
      Ok ((), rm_publishes (Publish (rm_resl_resp_bin_id ++ tm_nodeID (rm_graph r)) (bytes_of_FID F)
        (Some <$> paths_request MATCH_PUB_SUBS IMPLICIT_RENDEZVOUS X Y [k])) r) ∧
    node_ids X ∧ node_ids Y ∧ (∀ x, x ∈ X ↔ delivers_from r (icn_key k) x ∨ x ∈ alts) ∧ ∀ x, x ∈ Y ↔ delivers_to r (icn_key k) x.
Proof.
  intros Hnt La Lb Ha Hb Hone Halts Hsend Hpsi Hssi Hinp Hins. destruct (read_failure net_type a b Hnt La Lb Ha Hb) as [E1 E2].
  destruct (one_found r a b _ Hone) as (Ef & Efu & Hsp & Hss & HX & HY). destruct (FID_to_tm_run r Hsend) as (F & OF & HF & EF).
  set (key := icn_key k) in *. set (f := search_multicast a b (path_info r) (mkFound [] [] [])) in *.
  set (fu := search_unicast a b (unicast_path_info r) (mkFound (f_publishers f) (f_subscribers f) [])) in *.
  set (pubs := add_all key alts (f_publishers fu)). set (subs := add_all key [] (f_subscribers fu)).
  assert (∀ x, x ∈ of_key key pubs ↔ delivers_from r key x ∨ x ∈ alts) as HX'.
  { intros x. unfold pubs. rw elem_of_add_all HX. naive_solver. }
  assert (∀ x, x ∈ of_key key subs ↔ delivers_to r key x) as HY'.
  { intros x. unfold subs. rw elem_of_add_all HY. split; [|by right]. intros [[_ H]|H]; [by apply elem_of_nil in H|done]. }
  assert (∀ l N, node_ids N → NoDup l → (∀ x, x ∈ l → x ∈ N) → node_ids l) as Hids.
  { intros l N [HN8 HN] Hl Hin'. split; [|by eapply NoDup_in_length]. apply Forall_forall. intros x Hx%Hin'. by eapply Forall_forall in HN8. }
  destruct (Hids (of_key key pubs) ps) as [Xl Xn]; [exact Hpsi|by apply add_all_sets|intros x Hx%HX'; by apply Hinp|].
  destruct (Hids (of_key key subs) ss) as [Yl Yn]; [exact Hssi|by apply add_all_sets|intros x Hx%HY'; by apply Hins|].
  destruct (write_request_run (of_key key pubs) (of_key key subs) key Xl Yl Xn Yn) as [off Ew].
  exists (of_key key pubs), (of_key key subs), F. split_and!; [done|done| |done|done|done|done].
  set (r' := rm_publishes _ r). enough (wp (handleLinkStateNotification after (failure_bytes net_type a b)) (λ _ q, q = r') r) as Hwp.
  { by destruct (wp_ok _ _ _ Hwp) as ([] & q & E & ->). }
  unfold handleLinkStateNotification. apply wp_bind. eapply wp_from_res; [done|]. apply wp_bind. eapply wp_from_res; [exact E1|].
  apply wp_bind. eapply wp_from_res; [exact E2|]. apply wp_bind, wp_gets. cbn [id]. fold f. fold fu. rw Ef Efu.
  apply wp_bind. rw (bool_decide_eq_false_2 ([key] = [])) //. unfold requestMulticastTree. apply wp_bind, wp_gets, wp_bind.
  eapply ok_wp; [exact EF|]. cbn [mfoldl]. apply wp_bind, wp_bind, wp_bind, wp_gets. apply wp_bind. eapply wp_lift_opt; [exact Halts|]. apply wp_bind.
  eapply wp_from_res; [exact Ew|]. apply wp_bind, wp_modify, wp_ret, wp_ret, wp_ret. rw bool_decide_eq_true_2 //.
Qed.

Definition affected r (a b j : bytes) : Prop := ∃ paths path, (j, paths) ∈ path_info r ∧ path ∈ paths ∧ cut a b path.

(** When more than one delivery is affected, the second request is written
    past the end of its buffer. *)
Theorem two_affected_overflow r net_type a b j1 j2
    (Hnt : net_type ≠ 0) (La : length a = NODEID_LEN) (Lb : length b = NODEID_LEN) (Ha : Forall (λ c, c ≠ 0) a) (Hb : Forall (λ c, c ≠ 0) b)
    (Hsend : can_send r) (Hne : j1 ≠ j2) (H1 : affected r a b j1) (H2 : affected r a b j2)
    (Halts : ∀ j, affected r a b j → is_Some (map_find j (ex_pubs r))) :
  handleLinkStateNotification after (failure_bytes net_type a b) r = Fault OutOfBounds.
Proof.
  destruct (read_failure net_type a b Hnt La Lb Ha Hb) as [E1 E2]. destruct (FID_to_tm_run r Hsend) as (F & _ & _ & EF).
  destruct (search_found a b (multicast_entries (path_info r)) _ found_nothing) as (_ & _ & _ & H3).
  rw -search_multicast_flat in H3. set (f := search_multicast a b (path_info r) (mkFound [] [] [])) in *.
  assert (∀ j, j ∈ f_ids f ↔ affected r a b j) as Hids.
  { intros j. rw H3. split.
    - intros [H|(o & path & (_ & paths & Hin & Hp)%elem_of_multicast & Hc)]; [by apply elem_of_nil in H|by exists paths, path].
    - intros (paths & path & Hin & Hp & Hc). right. exists None, path. split; [|done]. apply elem_of_multicast. split; [done|]. by exists paths. }
  assert (∃ x y l, f_ids f = x :: y :: l) as (x & y & l & Ef).
  { apply Hids in H1, H2. destruct (f_ids f) as [|x [|y l]]; [by apply elem_of_nil in H1| |by exists x, y, l].
    apply list_elem_of_singleton in H1, H2. congruence. }
  destruct (Halts x) as [altsx Ex]; [apply Hids; rw Ef; by left|]. destruct (Halts y) as [altsy Ey]; [apply Hids; rw Ef; right; by left|].
  set (fu := search_unicast a b (unicast_path_info r) (mkFound (f_publishers f) (f_subscribers f) [])).
  assert (requestMulticastTree (x :: y :: l) (f_publishers fu) (f_subscribers fu) r = Fault OutOfBounds) as Hreq.
  { unfold requestMulticastTree. cbn [mfoldl]. unfold mbind, R_bind, M_bind, gets, lift_opt, from_res, modify, mret, R_ret, M_ret. rw EF Ex.
    destruct (write_request_ends 0 (default [] (map_find x (add_all x altsx (f_publishers fu)))) (default [] (map_find x (add_all x [] (f_subscribers fu)))) x)
      as [(q & off & -> & Hoff)| ->]; [|done]. cbn [rm_publishes ex_pubs]. rw Ey. by rw write_request_overflow. }
  unfold handleLinkStateNotification, mbind, R_bind, M_bind, gets, from_res. cbv zeta. rw E1 E2.
  change (data_byte (failure_bytes net_type a b ++ after) 0) with (Ok net_type). cbv beta iota. cbn [id]. fold f. fold fu. rw Ef.
  rw bool_decide_eq_false_2 //. by rw Hreq.
Qed.
End recovery.
