(* ===== verification/DeliveryRecovery.v ===== *)
(** * A delivery survives the loss of a link

    The topology manager and the resiliency manager together: from the report
    about a lost link to the new paths of the delivery that used it. *)

From S2P Require Import Prelude Enums BitVector Packet Forwarder ForwarderProofs StdMap RvMessages ClientApi LibBitvector.
From S2P Require Import Topology TopologyPaths TopologyFID TopologyServe TopologyUpdate TopologyLinks TopologyManager TopologyRequests.
From S2P Require Import TopologyRepair TopologyFailure ResiliencyManager Resiliency ResiliencyRecovery.

Section recovery.
Context `{IG : Igraph} `{HP : Heap} `{IE : !IgraphEdits} (laws : ∀ g, igraph_laws g).
Implicit Types (tm : tmgraph) (s : tm_server) (r : rmanager) (g : graph).
Context (beyond after : bytes) (zb za : bytes) (Hbeyond : c_string beyond = Ok zb) (Hafter : c_string after = Ok za) (Hroom : (2 ≤ length beyond)%nat).
Context (qos : option (bytes → list bytes → list bytes → res (list (bytes * option BABitvector) * list (bytes * list bytes)))).
Context (uc_notification : bool).

(** ** Events at the topology manager *)

(** Resiliency is on; path management and quality of service are not. *)
Definition resilient tm : Prop := getExten PM tm = Ok false ∧ getExten RS tm = Ok true ∧ getExten QOS tm = Ok false.

Lemma resilient_same tm tm' : extension tm' = extension tm → resilient tm → resilient tm'.
Proof. unfold resilient, getExten. by intros ->. Qed.

Lemma listener_run scope node data s : length node = PURSUIT_ID_LEN → resilient (srv_tm s) →
  event_listener beyond qos uc_notification (true, true) (event_for scope node data) s =
  ((if bool_decide (scope = lsn_bin_id) then handleLinkStateNotificationRM beyond (true, true) data node
    else if bool_decide (scope = UnicastDeliveryId) || bool_decide (scope = RecoverUnicastDeliveryId) then handleUnicastPathRequest beyond data
    else handleMulticastPathRequest beyond qos data);; mret true) s.
Proof.
  intros Hn (Hp & Hr & Hq). unfold event_listener, event_for. cbn [ev_type ev_data ev_id].
  change (PUBLISHED_DATA =? UNDEF_EVENT) with false. change (PUBLISHED_DATA =? PUBLISHED_DATA) with true. cbv iota. cbn [negb].
  assert ((length (scope ++ node) <? PURSUIT_ID_LEN)%nat = false) as -> by (rw length_app Hn; apply Nat.ltb_ge; lia).
  assert (length (scope ++ node) - PURSUIT_ID_LEN = length scope)%nat as -> by (rw length_app Hn; lia). rw take_app_length drop_app_length. cbv zeta.
  change ((lift_opt NullDeref (Some data) ≫= ?f) s) with (f data s). cbv beta. change ((lift_opt OutOfRange (Some ()) ≫= ?f) s) with (f () s). cbv beta.
  rw (on_tm_bind _ _ _ _ Hp) (on_tm_bind _ _ _ _ Hr) (on_tm_bind _ _ _ _ Hq). rw !andb_false_r andb_true_r. done.
Qed.

(** ** The report *)

(** What the resiliency manager is told about a link. *)
Definition failure_message (net_type : Z) (a b : bytes) : bytes := DISCOVER_FAILURE :: failure_bytes net_type a b.

Lemma wp_reported s source destination net_type u v : manager_ok (srv_tm s) →
  length source = NODEID_LEN → length destination = NODEID_LEN → Forall (λ c, c ≠ 0) source → net_type ≠ 0 → u ≠ v →
  map_find source (reverse_node_index (srv_tm s)) = Some u → map_find destination (reverse_node_index (srv_tm s)) = Some v →
  (u, v) ∈ (links (tm_graph (srv_tm s))).*1 → (v, u) ∈ (links (tm_graph (srv_tm s))).*1 →
  RMnodeID (srv_tm s) ∈ (TM_to_nodeFID (srv_tm s)).*1 →
  wp (handleLinkStateNotificationRM beyond (true, true) ([REMOVE_LINK; net_type] ++ source) destination)
    (λ _ s', ∃ e, links (tm_graph (srv_tm s')) ≡ₚ without [(u, v); (v, u)] (links (tm_graph (srv_tm s))) ∧
      manager_ok (srv_tm s') ∧ same_nodes (srv_tm s) (srv_tm s') ∧
      (∀ n, n ∈ (TM_to_nodeFID (srv_tm s)).*1 → node_updated (srv_tm s) (srv_tm s') n e) ∧
      happened s' = happened s ++ e ++
        [publication (srv_tm s') (RMnodeID (srv_tm s)) (DiscoverFailureId ++ RMnodeID (srv_tm s)) (failure_message net_type destination source)]) s.
Proof.
  intros M Ls Ld Hstr Hnt Hne Hs Hd Hl Hl' HRM. destruct (update_fails laws _ source destination u v M Hne Hs Hd Hl Hl') as (tm' & rs & E & Hf).
  unfold handleLinkStateNotificationRM. apply wp_bind. eapply wp_read_report; [done|done|done|done|exact Hbeyond|exact E|].
  cbn [fst snd negb]. change (REMOVE_LINK =? REMOVE_LINK) with true. cbn match. apply wp_bind.
  eapply wp_mono; [apply (wp_failure _ (srv_tm s) [(u, v); (v, u)]); [done|done|exact Hf]|].
  intros all s1 (_ & rv & t & f & e & -> & M' & Ek & Hup). apply wp_bind. eapply wp_from_res; [by apply c_str_read_all|].
  apply wp_bind. eapply wp_from_res; [by apply c_str_read_all|]. apply wp_bind, wp_gets. set (s1 := stored _ _ _ _ _) in *.
  destruct Ek as (EN & ERV & (ERM & EX) & Er & Ek). rw ERM.
  assert (holds_path (srv_tm s1) (RMnodeID (srv_tm s))) as Hpath.
  { rw -Ek in HRM. by destruct (en_known _ (mo_entries _ M') _ HRM) as (_ & HF & _). }
  apply (wp_publish_to (RMnodeID (srv_tm s)) _ (failure_message net_type destination source)); [exact Hpath|].
  exists ((LinkState <$> rs) ++ e). cbn [happens srv_tm happened]. split_and!; [|exact M'|by split_and!| |by rw -!app_assoc].
  - exact (lo_links _ _ _ _ (fa_lost _ _ _ Hf)).
  - intros n Hn. eapply node_updated_more; [|by apply Hup]. set_solver.
Qed.

(** ** The delivery that is affected *)

(** The names of the nodes: eight characters, none of which is null or stands
    between the names of a path. *)
Definition good_names g : Prop := ∀ v, (v < igraph_vcount g)%nat →
  length (VAS_NODEID g v) = NODEID_LEN ∧ Forall (λ c, c ≠ 0 ∧ c ≠ 45 ∧ c ≠ 62) (VAS_NODEID g v).

Lemma good_plain g v : good_names g → (v < igraph_vcount g)%nat → plain (VAS_NODEID g v) ∧ Forall (λ c, c ≠ 0) (VAS_NODEID g v).
Proof.
  intros G [Hl Hf]%G. split; [split|].
  - intros En. by rw En in Hl.
  - eapply Forall_impl; [exact Hf|]. naive_solver.
  - eapply Forall_impl; [exact Hf|]. naive_solver.
Qed.

(** The resiliency manager knows no other delivery with a path over both
    nodes, and no unicast path over them or for the same item. *)
Record only_affected r (a b key : bytes) : Prop := {
  of_keys : map_ok (path_info r);
  of_only j paths path : (j, paths) ∈ path_info r → path ∈ paths → cut a b path → j = key;
  of_unicast j paths p path : (j, paths) ∈ unicast_path_info r → (p, path) ∈ paths → j ≠ key ∧ ¬ cut a b path;
}.

Lemma on_walk g u v p w : walk g u v p → w ∈ p → (w < igraph_vcount g)%nat.
Proof.
  induction 1 as [|? ? ? ? ? ? ? ? IH]; [by intros ->%list_elem_of_singleton|]. intros [->|Hin]%elem_of_cons; [done|by apply IH].
Qed.

Section delivery.
Context tm (ps ss : list bytes) (k : bytes) (result : list (bytes * option BABitvector)) r0 r.
Context (L : igraph_laws (tm_graph tm)) (T : tm_ok tm) (G : good_names (tm_graph tm)).
Context (Hkp : Forall (known tm) ps) (Hks : Forall (known tm) ss).
Context (Hform : formation tm ps ss result) (Hkeeps : keeps tm ps ss result k r0 r) (Hmap : map_ok (path_info r)).

Lemma served_path p d : d ∈ ss → server tm (set_of ps) d = Some p → p ∈ ps ∧ ∃ u v,
  map_find p (reverse_node_index tm) = Some u ∧ map_find d (reverse_node_index tm) = Some v ∧ walk (tm_graph tm) u v (path_of tm p d).
Proof.
  intros Hd Es. destruct (fo_served _ _ _ _ Hform d Hd) as (p' & F & Hin & Es' & Hn & _). assert (p' = p) as -> by congruence.
  assert (p ∈ ps) as Hp by (apply (fo_keys _ _ _ _ Hform); by apply (list_elem_of_fmap_2 fst _ (p, Some F))). split; [done|].
  destruct (proj1 (Forall_forall _ _) Hkp p Hp) as [u Eu]. destruct (proj1 (Forall_forall _ _) Hks d Hd) as [v Ev].
  exists u, v. split_and!; [done|done|]. by apply path_walk.
Qed.

(** The string of a path in use. *)
Lemma served_parts p d : d ∈ ss → server tm (set_of ps) d = Some p →
  let path := path_string (tm_graph tm) (path_of tm p d) in
  first_part path = p ∧ last_part path = d ∧
  ∀ w, (w < igraph_vcount (tm_graph tm))%nat → VAS_NODEID (tm_graph tm) w ∈ split_path path ↔ w ∈ path_of tm p d.
Proof.
  intros Hd Es path. destruct (served_path p d Hd Es) as (_ & u & v & Eu & Ev & Hw).
  destruct (path_parts (tm_graph tm) u v _ (λ w Hw', proj1 (good_plain _ w G Hw')) Hw) as (H1 & H2 & H3).
  assert (VAS_NODEID (tm_graph tm) u = p ∧ VAS_NODEID (tm_graph tm) v = d) as [Ep Ed] by (split; by apply (to_nodes _ T)).
  split_and!; [by rw -Ep|by rw -Ed|]. intros w Hwv. rw H3; [|apply (good_plain _ w G Hwv)]. split; [|by exists w].
  intros (w' & Hin & E). assert (w' < igraph_vcount (tm_graph tm))%nat as Hw' by by eapply on_walk.
  assert (map_find (VAS_NODEID (tm_graph tm) w) (reverse_node_index tm) = Some w) as E1 by by apply (to_nodes _ T).
  assert (map_find (VAS_NODEID (tm_graph tm) w) (reverse_node_index tm) = Some w') as E2 by by rw E; apply (to_nodes _ T).
  by assert (w = w') as -> by congruence.
Qed.

Lemma kept_path x : (∃ paths, (icn_key k, paths) ∈ path_info r ∧ x ∈ paths) ↔
  ∃ p d, d ∈ ss ∧ server tm (set_of ps) d = Some p ∧ x = path_string (tm_graph tm) (path_of tm p d).
Proof. rw -(proj1 Hkeeps x). by setoid_rewrite (map_find_elem (icn_key k) _ (path_info r) Hmap). Qed.

(** The publishers and the subscribers that a request names are those of the
    delivery. *)
Lemma request_ends alts : map_find (icn_key k) (ex_pubs r) = Some alts →
  (∀ x, delivers_from r (icn_key k) x ∨ x ∈ alts ↔ x ∈ ps) ∧ ∀ x, delivers_to r (icn_key k) x ↔ x ∈ ss.
Proof.
  intros Ea. destruct Hkeeps as (_ & (l & El & Hal) & _). assert (l = alts) as -> by congruence.
  assert (∀ x, delivers_from r (icn_key k) x ↔ ∃ d, d ∈ ss ∧ server tm (set_of ps) d = Some x) as Hfrom.
  { intros x. split.
    - intros (paths & path & Hin & Hp & ->). destruct (proj1 (kept_path path)) as (p & d & Hd & Es & ->); [by exists paths|].
      destruct (served_parts p d Hd Es) as (-> & _). by exists d.
    - intros (d & Hd & Es). destruct (proj2 (kept_path (path_string (tm_graph tm) (path_of tm x d)))) as (paths & Hin & Hp); [by exists x, d|].
      eexists paths, _. split_and!; [done|done|]. by destruct (served_parts x d Hd Es) as (-> & _). }
  split; intros x.
  - rw Hfrom Hal. split.
    + intros [(d & Hd & Es)|Hin]; [by eapply served_path|]. apply (fo_keys _ _ _ _ Hform). by apply (list_elem_of_fmap_2 fst _ (x, None)).
    + intros Hx%(fo_keys _ _ _ _ Hform). apply list_elem_of_fmap in Hx as ([p [F|]] & -> & Hin); [left|by right].
      by destruct (fo_some _ _ _ _ Hform p F Hin) as (_ & Hd & _).
  - split.
    + intros (paths & path & Hin & Hp & ->). destruct (proj1 (kept_path path)) as (p & d & Hd & Es & ->); [by exists paths|].
      by destruct (served_parts p d Hd Es) as (_ & -> & _).
    + intros Hx. destruct (fo_served _ _ _ _ Hform x Hx) as (p & F & _ & Es & _).
      destruct (proj2 (kept_path (path_string (tm_graph tm) (path_of tm p x)))) as (paths & Hin & Hp); [by exists p, x|].
      eexists paths, _. split_and!; [done|done|]. by destruct (served_parts p x Hx Es) as (_ & -> & _).
Qed.

(** A path of the delivery over both nodes is seen. *)
Lemma affected_one u v p d : (u < igraph_vcount (tm_graph tm))%nat → (v < igraph_vcount (tm_graph tm))%nat →
  let a := VAS_NODEID (tm_graph tm) u in let b := VAS_NODEID (tm_graph tm) v in
  d ∈ ss → server tm (set_of ps) d = Some p → u ∈ path_of tm p d → v ∈ path_of tm p d →
  only_affected r a b (icn_key k) → one_affected r a b (icn_key k).
Proof.
  intros Hu Hv a b Hd Es Hpu Hpv [_ Ho Huc]. split; [|exact Ho|exact Huc].
  destruct (proj2 (kept_path (path_string (tm_graph tm) (path_of tm p d)))) as (paths & Hin & Hp); [by exists p, d|].
  exists paths, (path_string (tm_graph tm) (path_of tm p d)). split_and!; [done|done|].
  destruct (served_parts p d Hd Es) as (_ & _ & Hparts). split; by apply Hparts.
Qed.
End delivery.

(** ** The recovery *)

(** What holds before the failure. *)
Record delivers s (ps ss : list bytes) (k : bytes) : Prop := {
  dl_manager : manager_ok (srv_tm s);
  dl_forms : can_form true (srv_tm s) ps ss;
  dl_resilient : resilient (srv_tm s);
  dl_names : good_names (tm_graph (srv_tm s));
  dl_RM : RMnodeID (srv_tm s) ∈ (TM_to_nodeFID (srv_tm s)).*1;
  dl_ids : node_ids ps ∧ node_ids ss;
  dl_key : (length k mod PURSUIT_ID_LEN = 0)%nat ∧ zlen k < 256;
}.

(** Every subscriber has a path from one of the publishers. *)
Definition still_served tm (ps ss : list bytes) : Prop :=
  (∀ p d, zlen (path_of tm p d) < UINT_MAX) ∧ ∀ d, d ∈ ss → ∃ p, p ∈ ps ∧ path_of tm p d ≠ [].

Lemma known_length tm n : tm_ok tm → good_names (tm_graph tm) → known tm n → length n = NODEID_LEN.
Proof. intros T G [v Ev]. apply (to_nodes _ T) in Ev as [Hv <-]. apply (G v Hv). Qed.

Lemma forms_again tm tm' ps ss X Y : can_form true tm ps ss → manager_ok tm' → same_nodes tm tm' → still_served tm' ps ss →
  (∀ x, x ∈ X ↔ x ∈ ps) → (∀ x, x ∈ Y ↔ x ∈ ss) → can_form true tm' X Y.
Proof.
  intros [_ _ Hrs Hp Hs _ _] M' (_ & _ & (_ & EX) & Er & Ek) [Hlen Hreach] HX HY.
  assert (∀ n, known tm n → known tm' n) as Hkn by (intros n; unfold known; by rw Er).
  split; [apply laws|apply (mo_tables _ M')|unfold getExten in *; by rw EX| | |done|].
  - apply Forall_forall. intros x Hx%HX. destruct (proj1 (Forall_forall _ _) Hp x Hx) as [Hk (F & EF & _)]. split; [by apply Hkn|].
    assert (x ∈ (TM_to_nodeFID tm').*1) as Hin by (rw Ek; apply map_find_keys; by eexists).
    by destruct (en_known _ (mo_entries _ M') x Hin) as (_ & HF & _).
  - apply Forall_forall. intros y Hy%HY. apply Hkn. by apply (proj1 (Forall_forall _ _) Hs).
  - intros d Hd%HY. destruct (Hreach d Hd) as (p & Hpin & Hn). exists p. by rw HX.
Qed.

(** The message about the link, at the resiliency manager. *)
Lemma failure_event later net_type a b node r : length node = PURSUIT_ID_LEN → length a = NODEID_LEN → length b = NODEID_LEN →
  event_listener_loop later after (event_for rm_DiscoverFailureId node (failure_message net_type a b)) r =
  handleLinkStateNotification after (failure_bytes net_type a b) r.
Proof.
  intros Hn La Lb. unfold failure_message. rw event_run // dispatch_run; [done|]. unfold failure_bytes. rw zlen_cons zlen_app /zlen La Lb. done.
Qed.

(** [C5] A link on a path of a delivery is lost.  It is reported as a link in
    both directions ([net_type] is not zero) and was one, and the monitoring
    agent answers the topology manager for both directions.  The topology
    manager, with resiliency and without quality of service, takes the link
    out of its graph, keeps its own paths right, and tells the resiliency
    manager.  This one, if it keeps the delivery as it was reported, has a path
    to the topology manager, and no other delivery it keeps uses the two nodes,
    asks for new paths for exactly the publishers and the subscribers of the delivery; and
    when each of these subscribers can still be reached from one of the
    publishers, and the report about the new paths has at most 256 bytes, the
    topology manager answers the request with identifiers that serve every
    subscriber from its nearest publisher in the graph that is left. *)
Theorem delivery_recovers s ps ss k result r0 r u v p d net_type
    (D : delivers s ps ss k) (Hform : formation (srv_tm s) ps ss result) (Hkeeps : keeps (srv_tm s) ps ss result k r0 r)
    (Hd : d ∈ ss) (Hserver : server (srv_tm s) (set_of ps) d = Some p) (Hu : u ∈ path_of (srv_tm s) p d) (Hv : v ∈ path_of (srv_tm s) p d)
    (Hl : (u, v) ∈ (links (tm_graph (srv_tm s))).*1) (Hl' : (v, u) ∈ (links (tm_graph (srv_tm s))).*1) (Hne : u ≠ v) (Hnt : net_type ≠ 0)
    (Honly : only_affected r (VAS_NODEID (tm_graph (srv_tm s)) v) (VAS_NODEID (tm_graph (srv_tm s)) u) (icn_key k)) (Hsend : can_send r) :
  let a := VAS_NODEID (tm_graph (srv_tm s)) u in let b := VAS_NODEID (tm_graph (srv_tm s)) v in
  ∃ s1 e, event_listener beyond qos uc_notification (true, true) (event_for lsn_bin_id b ([REMOVE_LINK; net_type] ++ a)) s = Ok (true, s1) ∧
    links (tm_graph (srv_tm s1)) ≡ₚ without [(u, v); (v, u)] (links (tm_graph (srv_tm s))) ∧ manager_ok (srv_tm s1) ∧
    happened s1 = happened s ++ e ++
      [publication (srv_tm s1) (RMnodeID (srv_tm s)) (rm_DiscoverFailureId ++ RMnodeID (srv_tm s)) (failure_message net_type b a)] ∧
    ∀ later, ∃ r1 X Y FID,
      event_listener_loop later after (event_for rm_DiscoverFailureId (RMnodeID (srv_tm s)) (failure_message net_type b a)) r = Ok ((), r1) ∧
      let request := paths_request MATCH_PUB_SUBS IMPLICIT_RENDEZVOUS X Y [k] in
      published r1 = published r ++ [Publish (resl_resp_bin_id ++ tm_nodeID (rm_graph r)) FID (Some <$> request)] ∧
      (∀ x, x ∈ X ↔ x ∈ ps) ∧ (∀ y, y ∈ Y ↔ y ∈ ss) ∧
      (still_served (srv_tm s1) ps ss → report_fits (srv_tm s1) X Y k → ∃ result' s2 n told,
        event_listener beyond qos uc_notification (true, true) (event_for resl_resp_bin_id (tm_nodeID (srv_tm s)) request) s1 = Ok (true, s2) ∧
        formation (srv_tm s1) X Y result' ∧ srv_tm s2 = srv_tm s1 ∧
        happened s2 = happened s1 ++ PathCalculations (root_scope_of k) n :: answers (srv_tm s1) MATCH_PUB_SUBS [k] result' ++ [told]).
Proof.
  destruct D as [M C Hr G HRM [Hps Hss] [Hm Hk]]. intros a b. assert (T := mo_tables _ M). assert (L := laws (tm_graph (srv_tm s))).
  assert (Forall (known (srv_tm s)) ps) as Hkp by (eapply Forall_impl; [exact (cf_pubs _ _ _ _ C)|by intros ? []]).
  pose proof (cf_subs _ _ _ _ C) as Hks. assert (Hmap := of_keys _ _ _ _ Honly).
  destruct (served_path _ ps ss result L Hkp Hks Hform p d Hd Hserver) as (_ & up & vp & _ & _ & Hw).
  assert (u < igraph_vcount (tm_graph (srv_tm s)) ∧ v < igraph_vcount (tm_graph (srv_tm s)))%nat as [Hub Hvb] by (split; by eapply on_walk).
  destruct (G u Hub) as [La _], (G v Hvb) as [Lb _]. destruct (good_plain _ u G Hub) as [_ Na], (good_plain _ v G Hvb) as [_ Nb].
  assert (length (RMnodeID (srv_tm s)) = PURSUIT_ID_LEN ∧ length (tm_nodeID (srv_tm s)) = PURSUIT_ID_LEN) as [LRM LTM].
  { split; apply (known_length (srv_tm s)); [done|done|by apply (en_known _ (mo_entries _ M))|done|done|apply (mo_ends _ M)]. }
  assert (map_find a (reverse_node_index (srv_tm s)) = Some u ∧ map_find b (reverse_node_index (srv_tm s)) = Some v) as [Ea Eb] by (split; by apply (to_nodes _ T)).
  destruct (wp_ok _ _ _ (wp_reported s a b net_type u v M La Lb Na Hnt Hne Ea Eb Hl Hl' HRM)) as ([] & s1 & Erun & e & Hlinks & M1 & Hsame & _ & Hev).
  exists s1, e. split; [rw listener_run // bool_decide_eq_true_2 //; unfold mbind, T_bind, M_bind; by rw Erun|]. split; [done|]. split; [done|]. split; [exact Hev|].
  intros later. destruct Hkeeps as (K1 & K2 & K3). assert (Hkeeps := conj K1 (conj K2 K3)). destruct K2 as (alts & Ealts & _).
  destruct (request_ends _ ps ss k result r0 r L T G Hkp Hks Hform Hkeeps Hmap alts Ealts) as [Hfrom Hto].
  pose proof (affected_one _ ps ss k result r0 r L T G Hkp Hks Hform Hkeeps Hmap v u p d Hvb Hub Hd Hserver Hv Hu Honly) as Hone.
  destruct (lsn_one after za Hafter r net_type b a k alts ps ss Hnt Lb La Nb Na Hone Ealts Hsend Hps Hss (λ x, proj1 (Hfrom x)) (λ x, proj1 (Hto x)))
    as (X & Y & F & _ & _ & Elsn & IX & IY & HX & HY).
  eexists _, X, Y, (bytes_of_FID F). split; [rw failure_event //; exact Elsn|]. cbv zeta. cbn [published rm_publishes]. split; [done|].
  assert ((∀ x, x ∈ X ↔ x ∈ ps) ∧ ∀ y, y ∈ Y ↔ y ∈ ss) as [HX' HY'] by (split; intros x; [by rw HX|by rw HY]).
  split; [done|]. split; [done|]. intros Hstill Hfit. pose proof Hsame as (_ & _ & (ERM & EX) & _ & Ek).
  assert (resilient (srv_tm s1)) as Hr1 by by eapply resilient_same.
  assert (holds_path (srv_tm s1) (RMnodeID (srv_tm s1))) as HRM1.
  { rw -Ek -ERM in HRM. by destruct (en_known _ (mo_entries _ M1) _ HRM) as (_ & HF & _). }
  destruct (request_reported beyond qos s1 IMPLICIT_RENDEZVOUS X Y k (forms_again _ _ ps ss X Y C M1 Hsame Hstill HX' HY') (proj2 (proj2 Hr1)) IX IY Hm Hk Hroom HRM1)
    as (result' & pv & Ecalc & Hform' & _ & _ & Hreq).
  specialize (Hreq (Hfit _ _ Ecalc)). eexists result', _, _, _. split.
  { rw listener_run //. rw bool_decide_eq_false_2 //. rw (bool_decide_eq_false_2 (resl_resp_bin_id = _)) //. rw (bool_decide_eq_false_2 (resl_resp_bin_id = _)) //.
    cbn [orb]. unfold mbind, T_bind, M_bind. rw Hreq. done. }
  split; [done|]. split; [done|]. cbn. by rw -app_assoc.
Qed.
End recovery.
