(* ===== verification/DeliveryNet.v ===== *)
(** * Deliveries in a small network

    The properties of Resiliency.v and DeliveryRecovery.v, applied to a ring of
    three nodes: the first node publishes, the second subscribes, and the link
    between them is lost.  The manager and the resiliency manager run on the
    first node. *)

From S2P Require Import Prelude Enums BitVector Packet Forwarder ForwarderProofs StdMap RvMessages ClientApi LibBitvector.
From S2P Require Import Topology TopologyPaths TopologyFID TopologyServe TopologyIgraph TopologyUpdate TopologyLinks TopologyNet TopologyManager TopologyRequests.
From S2P Require Import TopologyRepair TopologyFailure TopologyFailureNet ResiliencyManager Resiliency ResiliencyRecovery DeliveryRecovery.

Module Resilient.
Import Net Ring.

Definition item : bytes := replicate 8 7.
Definition resilient_tm : tmgraph := set_extension [false; false; true; false; false] (started ring (name 1)).
Definition manager : tm_server (IG := list_igraph) := srv resilient_tm.
Definition recovery : rmanager (IG := list_igraph) := mkRM resilient_tm [] [] [] [] [].

Lemma extended_of x tm : manager_ok tm ∧ tm_graph tm = ring ∧ tm_nodeID tm = name 1 ∧ RVnodeID tm = name 1 →
  manager_ok (set_extension x tm) ∧ tm_graph (set_extension x tm) = ring.
Proof.
  intros ([T H1 H2 H3 H4 H5 H6 H7] & G & _). split; [|exact G]. split; [|exact H1| |exact H3|exact H4|exact H5|exact H6|exact H7].
  - destruct T as [T1 T2 T3 T4]. split; [exact T1|exact T2|exact T3|exact T4].
  - destruct H2 as [K1 K2 K3]. split; [exact K1|exact K2|exact K3].
Qed.

Lemma resilient_manager : manager_ok resilient_tm ∧ tm_graph resilient_tm = ring.
Proof.
  assert (networkb ring = true) as Hnet by (vm_compute; reflexivity). exact (extended_of _ _ (started_ok ring 1 Hnet ltac:(left))).
Qed.

Lemma only_server (tm : @tmgraph list_igraph) x d p : server tm [x] d = Some p → p = x.
Proof. unfold server. cbn. destruct (_ >? _); cbn; congruence. Qed.

(** From what is known of the manager to what the deliveries need. *)
Lemma short_paths (tm : @tmgraph list_igraph) p d : length (lg_nodes (tm_graph tm)) = 3%nat → zlen (path_of tm p d) < UINT_MAX.
Proof. intros Hl. pose proof (list_paths tm p d) as H. unfold zlen in *. rw Hl in H. unfold UINT_MAX. lia. Qed.

Lemma forms_of (tm : @tmgraph list_igraph) : manager_ok tm → length (lg_nodes (tm_graph tm)) = 3%nat → getExten RS tm = Ok true →
  name 1 ∈ (TM_to_nodeFID tm).*1 → name 2 ∈ (TM_to_nodeFID tm).*1 → path_of tm (name 1) (name 2) ≠ [] → can_form true tm [name 1] [name 2].
Proof.
  intros M Hl Hx H1 H2 Hp. destruct (en_known _ (mo_entries _ M) _ H1) as (K1 & F1 & _), (en_known _ (mo_entries _ M) _ H2) as (K2 & _).
  split; [apply list_igraph_laws|apply (mo_tables _ M)|exact Hx| | | |].
  - constructor; [exact (conj K1 F1)|constructor].
  - constructor; [exact K2|constructor].
  - intros p d. by apply short_paths.
  - intros d ->%list_elem_of_singleton. exists (name 1). split; [left|exact Hp].
Qed.

Definition good_nodes (G : lgraph) : bool :=
  forallb (λ n, (length n.1 =? NODEID_LEN)%nat && forallb (λ c, negb (c =? 0) && negb (c =? 45) && negb (c =? 62)) n.1) (lg_nodes G).

Lemma good_nodes_ok (G : lgraph) : good_nodes G = true → good_names (IG := list_igraph) G.
Proof.
  intros H v Hv%lookup_lt_is_Some_2. destruct Hv as [n En]. cbn. rw En.
  apply list_elem_of_lookup_2, list_elem_of_In, (proj1 (forallb_forall _ _) H) in En. apply andb_true_iff in En as [Hl%Nat.eqb_eq Hf].
  split; [exact Hl|]. apply Forall_forall. intros c Hc%list_elem_of_In. apply (proj1 (forallb_forall _ _) Hf) in Hc.
  destruct (Z.eqb_spec c 0), (Z.eqb_spec c 45), (Z.eqb_spec c 62); done.
Qed.

(** The report about the delivery fits. *)
Definition fitsb (tm : @tmgraph list_igraph) : bool :=
  match calculateFIDs [name 1] [name 2] [] [] tm with
  | Ok (result, pv) => zlen (delivery_bytes item (paths_in pv result) (alts_in result)) <=? 256
  | Fault _ => true
  end.

Lemma fitsb_ok tm X Y : set_of X = [name 1] → set_of Y = [name 2] → fitsb tm = true → report_fits tm X Y item.
Proof. intros EX EY H result pv E. unfold fitsb in H. rw EX EY in E. rw E in H. by apply Z.leb_le. Qed.

Lemma set_of_singleton (l : list bytes) x : (∀ y, y ∈ l ↔ y ∈ [x]) → set_of l = [x].
Proof. intros H. apply singleton_of; [apply NoDup_set_adds; constructor|]. intros y. rw elem_of_set_of H. apply list_elem_of_singleton. Qed.

Lemma manager_delivers : delivers (IG := list_igraph) manager [name 1] [name 2] item.
Proof.
  destruct resilient_manager as [M G]. assert (length (lg_nodes (tm_graph resilient_tm)) = 3%nat) as Hl by (rw G; reflexivity).
  assert (name 1 ∈ (TM_to_nodeFID resilient_tm).*1) as H1 by (apply (bool_decide_eq_true_1 _); vm_compute; reflexivity).
  assert (name 2 ∈ (TM_to_nodeFID resilient_tm).*1) as H2 by (apply (bool_decide_eq_true_1 _); vm_compute; reflexivity).
  split.
  - exact M.
  - exact (forms_of _ M Hl eq_refl H1 H2 ltac:(vm_compute; discriminate)).
  - split; [reflexivity|split; reflexivity].
  - cbn [manager srv srv_tm]. rw G. apply good_nodes_ok. vm_compute. reflexivity.
  - exact H1.
  - split; (split; [constructor; [reflexivity|constructor]|reflexivity]).
  - split; reflexivity.
Qed.

(** The identifiers and the paths of the delivery. *)
Definition formed : list (bytes * option BABitvector) * list (bytes * list bytes) :=
  match calculateFIDs (set_of [name 1]) (set_of [name 2]) [] [] resilient_tm with Ok x => x | Fault _ => ([], []) end.
Definition report_data : bytes := delivery_bytes item (paths_in formed.2 formed.1) (alts_in formed.1).
Definition kept : rmanager (IG := list_igraph) :=
  match event_listener_loop [] [0] (event_for UpdatePathId (name 1) report_data) recovery with Ok (_, r) => r | Fault _ => recovery end.

Lemma delivery_kept : formation resilient_tm [name 1] [name 2] formed.1 ∧
  keeps resilient_tm [name 1] [name 2] formed.1 item recovery kept.
Proof.
  destruct manager_delivers as [M C (_ & _ & Hq) _ HRM [Hps Hss] [Hm Hk]].
  destruct (request_reported [0; 0] None manager IMPLICIT_RENDEZVOUS [name 1] [name 2] item C Hq Hps Hss Hm Hk ltac:(cbn; lia))
    as (result & pv & Ecalc & Hform & Hpv & Ha & _).
  { by destruct (en_known _ (mo_entries _ M) _ HRM) as (_ & HF & _). }
  assert (formed = (result, pv)) as Ef.
  { unfold formed. change (srv_tm manager) with resilient_tm in Ecalc. by rw Ecalc. }
  rw Ef. split; [exact Hform|].
  assert (zlen report_data <= 256) as Hfit by (apply Z.leb_le; vm_compute; reflexivity). unfold report_data in Hfit. rw Ef in Hfit.
  destruct (event_kept [0] _ _ _ _ _ _ (name 1) Hform Hpv Ha Hm eq_refl Hfit [] recovery) as (r' & E & Hkeeps).
  assert (kept = r') as ->; [|exact Hkeeps]. unfold kept, report_data. rw Ef. by rw E.
Qed.

Lemma sends_of (tm : @tmgraph list_igraph) (r : @rmanager list_igraph) : manager_ok tm → RMnodeID tm ∈ (TM_to_nodeFID tm).*1 → rm_graph r = tm → can_send r.
Proof.
  intros M H ->%eq_sym. split; [apply list_igraph_laws|apply (mo_tables _ M)|]. split; [by apply (en_known _ (mo_entries _ M))|apply (mo_ends _ M)].
Qed.

Lemma alone_of (r : @rmanager list_igraph) a b key : (path_info r).*1 = [key] → unicast_path_info r = [] → only_affected r a b key.
Proof.
  intros Ek Eu. split.
  - unfold map_ok. rw Ek. apply NoDup_singleton.
  - intros j paths path Hin _ _. apply (list_elem_of_fmap_2 fst) in Hin. rw Ek in Hin. by apply list_elem_of_singleton in Hin.
  - rw Eu. intros j paths p path Hin. by apply elem_of_nil in Hin.
Qed.

Lemma kept_alone : only_affected kept (name 2) (name 1) (icn_key item) ∧ can_send kept.
Proof.
  destruct delivery_kept as (_ & _ & _ & _ & Eg & _). destruct manager_delivers as [M _ _ _ HRM _ _]. split.
  - apply alone_of; vm_compute; reflexivity.
  - exact (sends_of _ _ M HRM Eg).
Qed.

(** With a second item over the same path the loss of the link makes the
    process write past the end of its second request. *)
Definition item2 : bytes := replicate 8 9.
Definition kept2 : rmanager (IG := list_igraph) :=
  match event_listener_loop [] [0] (event_for UpdatePathId (name 1) (delivery_bytes item2 (paths_in formed.2 formed.1) (alts_in formed.1))) kept with
  | Ok (_, r) => r | Fault _ => kept end.

Example second_request_overflows :
  length (path_info kept2) = 2%nat ∧
  event_listener_loop [] [0] (event_for rm_DiscoverFailureId (name 1) (failure_message 1 (name 2) (name 1))) kept2 = Fault OutOfBounds.
Proof. split; vm_compute; reflexivity. Qed.
End Resilient.

Section instances.
Import Net Ring Resilient.

Lemma delivery_reported_witness : ∃ data s' r',
  handleMulticastPathRequest [0; 0] None (paths_request MATCH_PUB_SUBS IMPLICIT_RENDEZVOUS [name 1] [name 2] [item]) manager = Ok ((), s') ∧
  event_listener_loop [] [0] (event_for UpdatePathId (name 1) data) recovery = Ok ((), r') ∧
  ∃ l, map_find (icn_key item) (path_info r') = Some l ∧ path_string (ring : graph) [0; 1]%nat ∈ l.
Proof.
  destruct manager_delivers as [M C (_ & _ & Hq) _ HRM [Hps Hss] [Hm Hk]].
  assert (holds_path resilient_tm (RMnodeID resilient_tm)) as HF by exact (proj1 (proj2 (en_known _ (mo_entries _ M) _ HRM))).
  assert (report_fits resilient_tm [name 1] [name 2] item) as Hfit.
  { apply fitsb_ok; [reflexivity|reflexivity|]. vm_compute. reflexivity. }
  destruct (delivery_reported [0; 0] [0] None manager IMPLICIT_RENDEZVOUS [name 1] [name 2] item C Hq Hps Hss Hm Hk ltac:(cbn; lia) HF eq_refl Hfit)
    as (result & data & _ & s' & E & _ & _ & Hev).
  destruct (Hev [] recovery) as (r' & Er & Hkeeps & _). exists data, s', r'. split; [exact E|]. split; [exact Er|].
  apply Hkeeps. exists (name 1), (name 2). split; [left|]. destruct resilient_manager as [_ G].
  split; [vm_compute; reflexivity|]. change (tm_graph (srv_tm manager)) with (tm_graph resilient_tm). rw G. vm_compute. reflexivity.
Defined.

(** The link between the two is lost; the new path leads over the third node. *)
Lemma delivery_recovers_witness : ∃ s1 r1 X Y s2 F,
  event_listener [0; 0] None false (true, true) (event_for lsn_bin_id (name 2) ([REMOVE_LINK; 1] ++ name 1)) manager = Ok (true, s1) ∧
  event_listener_loop [] [0] (event_for rm_DiscoverFailureId (name 1) (failure_message 1 (name 2) (name 1))) kept = Ok ((), r1) ∧
  event_listener [0; 0] None false (true, true) (event_for resl_resp_bin_id (name 1) (paths_request MATCH_PUB_SUBS IMPLICIT_RENDEZVOUS X Y [item])) s1 = Ok (true, s2) ∧
  path_of (srv_tm s1) (name 1) (name 2) = [0; 2; 1]%nat ∧
  ∀ e LID, e ∈ path_eids (tm_graph (srv_tm s1)) [0; 2; 1]%nat → vector_of (EAS_LID (tm_graph (srv_tm s1)) e) LID → matches F LID = Ok true.
Proof.
  pose proof manager_delivers as D. destruct delivery_kept as [Hform Hkeeps]. destruct kept_alone as [Honly Hsend]. destruct resilient_manager as [_ G].
  assert (tm_graph (srv_tm manager) = ring) as G' by exact G.
  assert ((0, 1)%nat ∈ (links (tm_graph (srv_tm manager))).*1 ∧ (1, 0)%nat ∈ (links (tm_graph (srv_tm manager))).*1) as [Hl Hl'].
  { rw G' list_links. split; [left|right; left]. }
  assert (VAS_NODEID (tm_graph (srv_tm manager)) 1 = name 2 ∧ VAS_NODEID (tm_graph (srv_tm manager)) 0 = name 1) as [N2 N1] by (rw G'; split; reflexivity).
  assert (0%nat ∈ path_of (srv_tm manager) (name 1) (name 2)) as Hu by (apply (bool_decide_eq_true_1 _); vm_compute; reflexivity).
  assert (1%nat ∈ path_of (srv_tm manager) (name 1) (name 2)) as Hv by (apply (bool_decide_eq_true_1 _); vm_compute; reflexivity).
  assert (server (srv_tm manager) (set_of [name 1]) (name 2) = Some (name 1)) as Hserver by (vm_compute; reflexivity).
  assert (only_affected kept (VAS_NODEID (tm_graph (srv_tm manager)) 1) (VAS_NODEID (tm_graph (srv_tm manager)) 0) (icn_key item)) as Honly'.
  { rw N2 N1. exact Honly. }
  destruct (delivery_recovers (IG := list_igraph) list_igraph_laws [0; 0] [0] [] [] eq_refl eq_refl ltac:(cbn; lia) None false manager [name 1] [name 2] item
    formed.1 recovery kept 0 1 (name 1) (name 2) 1 D Hform Hkeeps ltac:(left) Hserver Hu Hv Hl Hl' ltac:(lia) ltac:(lia) Honly' Hsend)
    as (s1 & e & E1 & _ & _ & _ & Hrest).
  destruct (Hrest []) as (r1 & X & Y & FID & Er & _ & HX & HY & Hanswer). rw N2 N1 in E1. rw N2 N1 in Er.
  set (report := event_listener [0; 0] None false (true, true) (event_for lsn_bin_id (name 2) ([REMOVE_LINK; 1] ++ name 1)) manager) in *.
  assert (match report with Ok (_, s) => (length (lg_nodes (tm_graph (srv_tm s))) =? 3)%nat && bool_decide (path_of (srv_tm s) (name 1) (name 2) = [0; 2; 1]%nat) && fitsb (srv_tm s)
    | Fault _ => false end = true) as Htest by (vm_compute; reflexivity).
  rw E1 in Htest. apply andb_true_iff in Htest as [[Hl3%Nat.eqb_eq Hpath%bool_decide_eq_true]%andb_true_iff Hfit].
  destruct Hanswer as (result' & s2 & n & told & E2 & Hform' & _).
  - split; [intros p d; exact (short_paths _ p d Hl3)|]. intros d ->%list_elem_of_singleton. exists (name 1). split; [left|]. rw Hpath. discriminate.
  - apply fitsb_ok; [by apply set_of_singleton|by apply set_of_singleton|exact Hfit].
  - destruct (fo_served _ _ _ _ Hform' (name 2)) as (p & F & _ & Es & _ & _ & Hlinks & _); [by apply HY; left|].
    assert (p = name 1) as ->.
    { rw (set_of_singleton X (name 1) HX) in Es. exact (only_server _ _ _ _ Es). }
    rw Hpath in Hlinks. exists s1, r1, X, Y, s2, F. exact (conj E1 (conj Er (conj E2 (conj Hpath Hlinks)))).
Defined.
End instances.
