(* ===== verification/NapTypes.v ===== *)
(** * Identifiers of the network attachment point

    apps/nap/types: IP addresses, network masks, routing prefixes, and ICN
    identifiers, which are strings of digits, sixteen for each scope. *)

From S2P Require Import Prelude StdString Enums ClientApi.

(** ** Addresses

    An address is the [uint32_t] in network order, as it is in memory: its
    first octet is the lowest byte. *)

Abbreviation IpAddress := Z (only parsing).

Definition first_octet (ip : IpAddress) : Z := ip mod 256.

Record RoutingPrefix := mkRp { rp_networkAddress : IpAddress; rp_netmask : Z; rp_uint : Z }.

Definition RoutingPrefix_of (networkAddress netmask : Z) : RoutingPrefix := mkRp networkAddress netmask (Z.land networkAddress netmask).

(** ** ICN identifiers *)

(** A [char] is signed. *)
Definition s8 (c : Z) : Z := if c <? 128 then c else c - 256.

Definition hashString (str : bytes) : Z := foldl (λ h c, u32 (h * 31 + s8 c)) 0 (c_str str).

Record IcnId := mkIcn {
  icnIdString : bytes;
  icnIdHashed : Z;
  rootNamespace : Z;
  fidRequested : bool;
  icn_forwarding : bool;
  pausing : bool;
}.

Definition rootNamespace_of (s : bytes) : Z := u16 (atoi (take 16 s)).

(** The constructors, after the string was made. *)
Definition IcnId_of (s : bytes) : IcnId := mkIcn s (hashString s) (rootNamespace_of s) false false false.

(** [operator=(string &)] *)
Definition IcnId_assign (s : bytes) (i : IcnId) : IcnId := mkIcn s (hashString s) (rootNamespace_of s) (fidRequested i) false (pausing i).

Definition set_forwarding (state : bool) (i : IcnId) : IcnId :=
  mkIcn (icnIdString i) (icnIdHashed i) (rootNamespace i) (fidRequested i) state (pausing i).
Definition set_fidRequested (state : bool) (i : IcnId) : IcnId :=
  mkIcn (icnIdString i) (icnIdHashed i) (rootNamespace i) state (icn_forwarding i) (pausing i).
Definition set_pausing (state : bool) (i : IcnId) : IcnId :=
  mkIcn (icnIdString i) (icnIdHashed i) (rootNamespace i) (fidRequested i) (icn_forwarding i) state.

(** One scope: a number in sixteen digits. *)
Definition scope_digits (n : Z) : bytes := setw 16 (dec n).

Definition scopeLevels_of (str : bytes) : nat := if (length str mod 16 =? 0)%nat then (length str / 16)%nat else S (length str / 16).

Definition IcnId_prefix (routingPrefix : RoutingPrefix) : IcnId := IcnId_of (scope_digits NAMESPACE_IP ++ scope_digits (rp_uint routingPrefix)).
Definition IcnId_hashed (hashedFqdn : Z) : IcnId := IcnId_of (scope_digits NAMESPACE_HTTP ++ scope_digits hashedFqdn).
Definition IcnId_address (routingPrefix : RoutingPrefix) (ipAddress : IpAddress) : IcnId :=
  IcnId_of (scope_digits NAMESPACE_IP ++ scope_digits (rp_uint routingPrefix) ++ scope_digits ipAddress).
(** [42] is the star, the wildcard. *)
Definition IcnId_fqdn (fqdn : bytes) : IcnId :=
  let hashed := if bool_decide (fqdn = [42]) then dec DEFAULT_HTTP_IID else dec (hashString fqdn) in
  IcnId_of (scope_digits NAMESPACE_HTTP ++ setw (scopeLevels_of hashed * 16) hashed).
Definition IcnId_url (fqdn resource : bytes) : IcnId :=
  let hashed := dec (hashString (fqdn ++ resource)) in
  IcnId_of (scope_digits NAMESPACE_HTTP ++ setw (scopeLevels_of hashed * 16) hashed).
Definition IcnId_item (rootNamespace informationItem : Z) : IcnId := IcnId_of (scope_digits rootNamespace ++ scope_digits informationItem).

(** The scopes of IP multicast. *)
Definition createIGMPDataScopeId (ipAddress : option IpAddress) : IcnId :=
  IcnId_of (scope_digits NAMESPACE_IGMP_DATA ++ default [] (scope_digits <$> ipAddress)).
Definition createIGMPCtrlScopeId (ipAddress : option IpAddress) : IcnId :=
  IcnId_of (scope_digits NAMESPACE_IGMP_CTRL ++ default [] (scope_digits <$> ipAddress)).
Definition createIGMPCtrlFromDataScopeId (dataId : IcnId) : res IcnId :=
  s ← substr (icnIdString dataId) 16 16; Ok (IcnId_of (scope_digits NAMESPACE_IGMP_CTRL ++ setw 16 s)).
Definition createIGMPDataFromCtrlScopeId (ctrlId : IcnId) : res IcnId :=
  s ← substr (icnIdString ctrlId) 16 16; Ok (IcnId_of (scope_digits NAMESPACE_IGMP_DATA ++ setw 16 s)).
Definition extractIPAddrFromCId (cId : IcnId) : res IpAddress :=
  s ← substr (icnIdString cId) 16 16; Ok (u32 (atoi (c_str s))).

(** Parts of the identifier.  A position before the start is a very large
    number. *)
Definition icn_id (i : IcnId) : res bytes :=
  if (length (icnIdString i) <? 16)%nat then Fault OutOfRange else substr (icnIdString i) (length (icnIdString i) - 16) 16.
Definition prefixId (i : IcnId) : bytes :=
  if (length (icnIdString i) <? 16)%nat then icnIdString i else take (length (icnIdString i) - 16) (icnIdString i).
Definition rootScopeId (i : IcnId) : bytes := take 16 (icnIdString i).
Definition scopeId (scopeLevel : nat) (i : IcnId) : res bytes := substr (icnIdString i) ((scopeLevel - 1) * 16) 16.
Definition scopePath (scopeLevel : nat) (i : IcnId) : bytes := take (scopeLevel * 16) (icnIdString i).
Definition scopeLevels (i : IcnId) : nat := (length (icnIdString i) / 16)%nat.
Definition icn_empty (i : IcnId) : bool := icnIdHashed i =? 0.
Definition uintId (i : IcnId) : res Z := s ← icn_id i; Ok (u32 (atoi (c_str s))).

(** The same in bytes, as the library takes them. *)
Definition binEmpty : bytes := hex_to_chararray [].
Definition binIcnId (i : IcnId) : bytes := hex_to_chararray (icnIdString i).
Definition binId (i : IcnId) : res bytes := s ← icn_id i; Ok (hex_to_chararray s).
Definition binPrefixId (i : IcnId) : bytes := hex_to_chararray (prefixId i).
Definition binRootScopeId (i : IcnId) : bytes := hex_to_chararray (rootScopeId i).
Definition binScopeId (scopeLevel : nat) (i : IcnId) : res bytes := s ← scopeId scopeLevel i; Ok (hex_to_chararray s).
Definition binScopePath (scopeLevel : nat) (i : IcnId) : bytes := hex_to_chararray (scopePath scopeLevel i).
Definition icn_length (i : IcnId) : Z := zlen (binIcnId i).

(** ** Lemmas *)

Lemma hex_value_digit c : is_digit c = true → hex_value c = Some (c - 48) ∧ hex_lower (c - 48) = c.
Proof. unfold is_digit, hex_value, hex_lower. intros H. rw H. split; [done|]. destruct (Z.ltb_spec (c - 48) 10); lia. Qed.

(** Digits that were read as bytes are printed again. *)
Lemma digits_hex n s : Forall (λ c, is_digit c = true) s → length s = (2 * n)%nat →
  chararray_to_hex (hex_to_chararray s) = s ∧ length (hex_to_chararray s) = n ∧ Forall is_byte (hex_to_chararray s).
Proof.
  revert s. induction n as [|n IH]; intros s H Hl; [by destruct s|]. destruct s as [|a [|b s]]; [done|cbn in Hl; lia|].
  apply Forall_cons in H as [Ha H]. apply Forall_cons in H as [Hb H]. destruct (IH s H ltac:(cbn in Hl; lia)) as (E & El & Eb).
  destruct (hex_value_digit a Ha) as [Va La], (hex_value_digit b Hb) as [Vb Lb]. unfold is_digit in Ha, Hb.
  cbn [hex_to_chararray]. unfold read_hex. rw Va Vb. assert (u8 (16 * (a - 48) + (b - 48)) = 16 * (a - 48) + (b - 48)) as Eu.
  { unfold u8. apply Z.mod_small. lia. }
  rw Eu. split_and!; [|by rw /= El|constructor; [unfold is_byte; lia|done]]. cbn [chararray_to_hex]. rw E.
  destruct (Z.gtb_spec (16 * (a - 48) + (b - 48)) 15).
  - assert ((16 * (a - 48) + (b - 48)) / 16 = a - 48 ∧ (16 * (a - 48) + (b - 48)) mod 16 = b - 48) as [-> ->] by lia. by rw La Lb.
  - assert (a = 48) as -> by lia. by rw (_ : 16 * (48 - 48) + (b - 48) = b - 48) ?Lb; [|lia].
Qed.

(** A prefix or an address: a [uint32_t]. *)
Definition is_u32 (n : Z) : Prop := 0 <= n < 2 ^ 32.

Lemma scope_digits_digits n : Forall (λ c, is_digit c = true) (scope_digits n).
Proof. apply setw_digits, dec_digits_only. Qed.

Lemma scope_digits_length n : 0 <= n < 2 ^ 32 → length (scope_digits n) = 16%nat.
Proof. intros Hn. apply setw_length. pose proof (dec_length n 9). lia. Qed.

Lemma scope_digits_inj n m : 0 <= n < 2 ^ 32 → 0 <= m < 2 ^ 32 → scope_digits n = scope_digits m → n = m.
Proof. intros Hn Hm. apply setw_inj; lia. Qed.


Lemma atoi_scope n : is_u32 n → atoi (scope_digits n) = n.
Proof. unfold is_u32. intros Hn. apply atoi_setw. lia. Qed.

Lemma setw_scope n : is_u32 n → setw 16 (scope_digits n) = scope_digits n.
Proof. intros Hn. unfold setw. by rw scope_digits_length. Qed.

Section address.
Context (p : RoutingPrefix) (ip : IpAddress) (Hp : is_u32 (rp_uint p)) (Hip : is_u32 ip).

Lemma address_string : icnIdString (IcnId_address p ip) = scope_digits NAMESPACE_IP ++ scope_digits (rp_uint p) ++ scope_digits ip.
Proof. done. Qed.

Lemma address_digits : Forall (λ c, is_digit c = true) (icnIdString (IcnId_address p ip)).
Proof. rw address_string. apply Forall_app_2; [apply scope_digits_digits|]. apply Forall_app_2; apply scope_digits_digits. Qed.

Lemma address_length : length (icnIdString (IcnId_address p ip)) = 48%nat.
Proof.
  rw address_string (length_app (scope_digits _)) (length_app (scope_digits _)). by rw !scope_digits_length.
Qed.

Lemma address_root : rootNamespace (IcnId_address p ip) = NAMESPACE_IP.
Proof.
  cbn [IcnId_address IcnId_of rootNamespace]. unfold rootNamespace_of. rw (take_app_length' (scope_digits NAMESPACE_IP)); [|by rw scope_digits_length].
  by rw atoi_scope.
Qed.

Lemma address_bin : chararray_to_hex (binIcnId (IcnId_address p ip)) = icnIdString (IcnId_address p ip) ∧
  length (binIcnId (IcnId_address p ip)) = 24%nat ∧ Forall is_byte (binIcnId (IcnId_address p ip)).
Proof. by apply (digits_hex 24); [apply address_digits|rw address_length]. Qed.

Lemma address_parts : icn_id (IcnId_address p ip) = Ok (scope_digits ip) ∧
  prefixId (IcnId_address p ip) = scope_digits NAMESPACE_IP ++ scope_digits (rp_uint p).
Proof.
  unfold icn_id, prefixId. rw address_length. cbn [Nat.ltb Nat.leb Nat.sub]. split.
  - apply (substr_at _ (scope_digits NAMESPACE_IP ++ scope_digits (rp_uint p)) _ []); [by rw address_string app_nil_r -app_assoc|..].
    + rw (length_app (scope_digits _)). by rw !scope_digits_length.
    + by rw scope_digits_length.
  - rw address_string app_assoc. apply take_app_length'. rw (length_app (scope_digits _)). by rw !scope_digits_length.
Qed.
End address.

(** Different addresses have different identifiers. *)
Lemma address_bin_inj p ip p' ip' : is_u32 (rp_uint p) → is_u32 ip → is_u32 (rp_uint p') → is_u32 ip' →
  binIcnId (IcnId_address p ip) = binIcnId (IcnId_address p' ip') → rp_uint p = rp_uint p' ∧ ip = ip'.
Proof.
  intros Hp Hi Hp' Hi' E. apply (f_equal chararray_to_hex) in E. rw (proj1 (address_bin p ip Hp Hi)) (proj1 (address_bin p' ip' Hp' Hi')) !address_string in E.
  apply app_inv_head in E. apply app_inj_1 in E as [E1 E2]; [|by rw !scope_digits_length]. split; by apply scope_digits_inj.
Qed.

(** The address of a multicast scope is read from it again, and the two scopes
    of an address are made from each other. *)
Lemma igmp_roundtrip ip : is_u32 ip → extractIPAddrFromCId (createIGMPDataScopeId (Some ip)) = Ok ip ∧
  createIGMPCtrlFromDataScopeId (createIGMPDataScopeId (Some ip)) = Ok (createIGMPCtrlScopeId (Some ip)) ∧
  createIGMPDataFromCtrlScopeId (createIGMPCtrlScopeId (Some ip)) = Ok (createIGMPDataScopeId (Some ip)).
Proof.
  intros Hip. assert (∀ ns, is_u32 ns → substr (scope_digits ns ++ scope_digits ip) 16 16 = Ok (scope_digits ip)) as Hs.
  { intros ns Hns. apply (substr_at _ (scope_digits ns) _ []); [by rw app_nil_r|by apply scope_digits_length|by apply scope_digits_length]. }
  unfold extractIPAddrFromCId, createIGMPCtrlFromDataScopeId, createIGMPDataFromCtrlScopeId, createIGMPDataScopeId, createIGMPCtrlScopeId.
  cbn [fmap option_fmap option_map default IcnId_of icnIdString]. rw !Hs //. cbn [mbind res_mbind res_bind]. rw setw_scope //. split_and!; [|done|done].
  rw c_str_digits; [|apply scope_digits_digits]. rw atoi_scope //. unfold u32. by rw Z.mod_small.
Qed.
