(* ===== verification/Unreliable.v ===== *)
(** * The unreliable transport protocol

    apps/nap/transport/unreliable.cc: a packet that is too long for one
    publication is cut into fragments, which may arrive in any order and
    between those of other packets, and are put together again.

    A packet is the memory from its first byte on; the buffer of the fragments
    is a map from the keys of packets to maps from sequence numbers. *)

From S2P Require Import Prelude Enums StdString Packet StdMap ClientApi NapTypes.

(** ** Headers *)

Definition TRANSPORT_STATE_START : Z := 0.
Definition TRANSPORT_STATE_FRAGMENT : Z := 1.
Definition TRANSPORT_STATE_FINISHED : Z := 2.
Definition TRANSPORT_STATE_SINGLE_PACKET : Z := 3.
Definition TRANSPORT_STATE_UNKNOWN : Z := 4.

Record utp_header := mkUtp { utp_key : Z; payloadLength : Z; sequence : Z; utp_state : Z }.

Definition UTP_HEADER : nat := 6.

Definition utp_bytes (h : utp_header) : bytes := le_bytes 2 (utp_key h) ++ le_bytes 2 (payloadLength h) ++ [sequence h; utp_state h].

Definition utp_read (data : bytes) : res utp_header :=
  key ← data_read data 0 2; len ← data_read data 2 2; seq ← data_byte data 4; state ← data_byte data 5;
  Ok (mkUtp (le_number key) (le_number len) seq state).

Definition fragment : Type := utp_header * bytes.
Definition fragment_bytes (f : fragment) : bytes := utp_bytes f.1 ++ f.2.

(** ** Publication *)

Definition maxPayloadLength (mitu : Z) (icnId : IcnId) : Z := u16 (mitu - icn_length icnId - 20 - Z.of_nat UTP_HEADER).

(** The loop; [header] is the one of the fragment before. *)
Fixpoint utp_fragments (fuel : nat) (header : utp_header) (data : bytes) (bytesSent dataSize : Z) : res (list fragment) :=
  if negb (bytesSent <? dataSize) then Ok [] else
  match fuel with
  | O => Fault OutOfFuel
  | S fuel =>
      let header := if bytesSent + payloadLength header >? dataSize
        then mkUtp (utp_key header) (u16 (dataSize - bytesSent)) (sequence header) TRANSPORT_STATE_FINISHED else header in
      let header := mkUtp (utp_key header) (payloadLength header) (u8 (sequence header + 1)) (utp_state header) in
      payload ← data_read data 0 (Z.to_nat (payloadLength header));
      fragments ← utp_fragments fuel (mkUtp (utp_key header) (payloadLength header) (sequence header) TRANSPORT_STATE_FRAGMENT)
        (drop (Z.to_nat (payloadLength header)) data) (u16 (bytesSent + payloadLength header)) dataSize;
      Ok ((header, payload) :: fragments)
  end.

(** [rand] is the result of rand().  The packets that are published. *)
Definition Unreliable_publish (mitu : Z) (rand : Z) (icnId : IcnId) (data : bytes) (dataSize : Z) : res (list fragment) :=
  let max := maxPayloadLength mitu icnId in
  let key := u16 (icnIdHashed icnId + rand) in
  if max <? dataSize then utp_fragments (Z.to_nat dataSize) (mkUtp key max 0 TRANSPORT_STATE_START) data 0 dataSize
  else
    payload ← data_read data 0 (Z.to_nat dataSize);
    Ok [(mkUtp key dataSize 1 TRANSPORT_STATE_SINGLE_PACKET, payload)].

(** ** Reassembly *)

Abbreviation utp_packets := (list (Z * fragment)).
Abbreviation reassembly_buffer := (list (Z * list (Z * fragment))).

(** The loop over the fragments of a packet; [None] if one is missing. *)
Fixpoint utp_scan (packets : utp_packets) (previousSequenceNumber finished len : Z) : option (Z * Z) :=
  match packets with
  | [] => Some (finished, len)
  | (seq, f) :: packets =>
      if previousSequenceNumber =? 0 then
        if utp_state f.1 =? TRANSPORT_STATE_START then utp_scan packets seq finished (u16 (len + payloadLength f.1)) else None
      else if seq =? previousSequenceNumber + 1 then utp_scan packets seq (utp_state f.1) (u16 (len + payloadLength f.1)) else None
  end.

Fixpoint utp_copy (packets : utp_packets) (offset : Z) (p : packet) : res packet :=
  match packets with
  | [] => Ok p
  | (_, f) :: packets => p ← packet_put (Z.to_nat offset) f.2 p; utp_copy packets (u16 (offset + payloadLength f.1)) p
  end.

(** After a fragment was put into the buffer: the buffer, and the packet that
    is sent to the IP socket when it is complete. *)
Definition utp_complete (key : Z) (packets : utp_packets) (buffer : reassembly_buffer) : res (reassembly_buffer * option packet) :=
  match utp_scan packets 0 TRANSPORT_STATE_UNKNOWN 0 with
  | None => Ok (buffer, None)
  | Some (finished, len) =>
      if negb (finished =? TRANSPORT_STATE_FINISHED) then Ok (buffer, None) else
      p ← utp_copy packets 0 (packet_make len);
      Ok (map_del key buffer, Some p)
  end.

Definition Unreliable_handle (data : bytes) (dataSize : Z) (buffer : reassembly_buffer) : res (reassembly_buffer * option packet) :=
  header ← utp_read data;
  let data := drop UTP_HEADER data in
  let dataSize := u16 (dataSize - Z.of_nat UTP_HEADER) in
  if utp_state header <=? TRANSPORT_STATE_FINISHED then
    payload ← data_read data 0 (Z.to_nat (payloadLength header));
    let packets := map_add (sequence header) (header, payload) (default [] (map_find (utp_key header) buffer)) in
    utp_complete (utp_key header) packets (map_set (utp_key header) packets buffer)
  else if utp_state header =? TRANSPORT_STATE_SINGLE_PACKET then
    p ← data_read data 0 (Z.to_nat dataSize); Ok (buffer, Some (Some <$> (p : bytes)))
  else Ok (buffer, None).

(** Packets one after the other; what the IP socket gets. *)
Fixpoint handle_all (arrivals : list bytes) (buffer : reassembly_buffer) : res (reassembly_buffer * list packet) :=
  match arrivals with
  | [] => Ok (buffer, [])
  | data :: arrivals =>
      '(buffer, p) ← Unreliable_handle data (zlen data) buffer;
      '(buffer, ps) ← handle_all arrivals buffer;
      Ok (buffer, option_list p ++ ps)
  end.
