(* ===== verification/Reassembly.v ===== *)
(** * Fragments in any order

    The fragments of packets, however they arrive, give each packet once, as
    it was published. *)

From S2P Require Import Prelude Enums StdString Packet StdMap RvMessages ClientApi NapTypes Unreliable.

(** ** How a packet is cut *)

(** The fragments from [seq] on, the first with the state [st]. *)
Inductive cut_up (key : Z) : Z → Z → list fragment → Prop :=
  | cut_last seq st p : cut_up key seq st [(mkUtp key (zlen p) seq TRANSPORT_STATE_FINISHED, p)]
  | cut_more seq st p l : cut_up key (seq + 1) TRANSPORT_STATE_FRAGMENT l → cut_up key seq st ((mkUtp key (zlen p) seq st, p) :: l).

Lemma data_read_take (data : bytes) n : (n ≤ length data)%nat → data_read data 0 n = Ok (take n data).
Proof. intros H. unfold data_read. by destruct (Nat.leb_spec (0 + n) (length data)); [|lia]. Qed.

Lemma fragments_cut fuel key max seq st data sent size : 0 < max < 65536 → 0 <= sent < size → size < 65536 → size - sent <= zlen data →
  (size - sent) mod max ≠ 0 → 0 <= seq → seq + (size - sent) / max + 1 <= 255 → size - sent <= Z.of_nat fuel →
  ∃ l, utp_fragments fuel (mkUtp key max seq st) data sent size = Ok l ∧ cut_up key (seq + 1) st l ∧
    mjoin l.*2 = take (Z.to_nat (size - sent)) data ∧ zlen l = (size - sent) / max + 1 ∧ Forall (λ f, zlen f.2 <= max) l.
Proof.
  revert seq st data sent. induction fuel as [|fuel IH]; intros seq st data sent Hmax Hsent Hsize Hdata Hmod Hseq Hn Hfuel; [lia|].
  assert (u8 (seq + 1) = seq + 1) as Eseq.
  { unfold u8. apply Z.mod_small. pose proof (Z.div_pos (size - sent) max). lia. }
  cbn [utp_fragments]. destruct (Z.ltb_spec sent size); [|lia]. cbn [negb payloadLength utp_key sequence utp_state].
  destruct (Z.gtb_spec (sent + max) size) as [Hlast|Hmore].
  - assert (u16 (size - sent) = size - sent) as -> by (unfold u16; apply Z.mod_small; lia).
    cbn [payloadLength utp_key sequence utp_state]. rw Eseq. unfold zlen in Hdata. rw data_read_take; [|lia]. cbn [mbind res_mbind res_bind].
    assert (u16 (sent + (size - sent)) = size) as -> by (unfold u16; rw Z.mod_small; lia).
    assert (utp_fragments fuel (mkUtp key (size - sent) (seq + 1) TRANSPORT_STATE_FRAGMENT) (drop (Z.to_nat (size - sent)) data) size size = Ok []) as ->.
    { destruct fuel; cbn; by destruct (Z.ltb_spec size size); [lia|]. }
    cbn [mbind res_mbind res_bind]. assert (zlen (take (Z.to_nat (size - sent)) data) = size - sent) as El by (unfold zlen; rw length_take; lia).
    eexists. split; [done|]. split_and!.
    + rw -{1}El. apply cut_last.
    + cbn. by rw app_nil_r.
    + change (zlen _) with 1. rw Z.div_small; lia.
    + constructor; [|done]. cbn. rw El. lia.
  - assert ((size - sent) / max = (size - (sent + max)) / max + 1 ∧ (size - sent) mod max = (size - (sent + max)) mod max) as [Ediv Emod].
    { assert (size - sent = (size - (sent + max)) + 1 * max) as E by lia. rw {1 2}E. rw Z.div_add; [|lia]. by rw Z.mod_add; [|lia]. }
    assert (sent + max < size).
    { destruct (decide (sent + max = size)) as [E|]; [|lia]. rw Emod E Z.sub_diag in Hmod. by rw Z.mod_0_l in Hmod; [|lia]. }
    cbn [payloadLength utp_key sequence utp_state]. rw Eseq. unfold zlen in Hdata. rw data_read_take; [|lia]. cbn [mbind res_mbind res_bind].
    assert (u16 (sent + max) = sent + max) as -> by (unfold u16; apply Z.mod_small; lia).
    destruct (IH (seq + 1) TRANSPORT_STATE_FRAGMENT (drop (Z.to_nat max) data) (sent + max)) as (l & E & Hcut & Hjoin & Hlen & Hall);
      [done|lia|done|unfold zlen; rw length_drop; lia|by rw -Emod|lia|lia|lia|].
    rw E. cbn [mbind res_mbind res_bind]. eexists. split; [done|].
    assert (zlen (take (Z.to_nat max) data) = max) as El by (unfold zlen; rw length_take; lia). split_and!.
    + rw -{1}El. by apply cut_more.
    + cbn [fmap list_fmap mjoin list_join snd]. change (list_fmap _ _ snd l) with (l.*2). rw Hjoin.
      assert (Z.to_nat (size - sent) = (Z.to_nat max + Z.to_nat (size - (sent + max)))%nat) as -> by lia.
      apply take_take_drop.
    + rw zlen_cons Hlen. lia.
    + constructor; [cbn; rw El; lia|done].
Qed.

(** ** Headers *)

Definition header_ok (f : fragment) : Prop := 0 <= utp_key f.1 < 65536 ∧ 0 <= payloadLength f.1 < 65536.

Lemma utp_read_fragment f : header_ok f → utp_read (fragment_bytes f) = Ok f.1 ∧ drop UTP_HEADER (fragment_bytes f) = f.2.
Proof.
  destruct f as [[key len seq st] p]. intros [Hk Hl]. cbn in Hk, Hl. split; [|done].
  unfold utp_read, fragment_bytes, utp_bytes. cbn [fst snd utp_key payloadLength sequence utp_state le_bytes app].
  cbn. do 2 f_equal; lia.
Qed.

Lemma handle_fragment f buffer : header_ok f → payloadLength f.1 = zlen f.2 → utp_state f.1 <= TRANSPORT_STATE_FINISHED →
  let packets := map_add (sequence f.1) f (default [] (map_find (utp_key f.1) buffer)) in
  Unreliable_handle (fragment_bytes f) (zlen (fragment_bytes f)) buffer =
    utp_complete (utp_key f.1) packets (map_set (utp_key f.1) packets buffer).
Proof.
  intros Hh Hl Hst packets. destruct (utp_read_fragment f Hh) as [E1 E2]. unfold Unreliable_handle. rw E1. cbn [mbind res_mbind res_bind]. rw E2.
  rw (proj2 (Z.leb_le _ _) Hst) Hl. unfold zlen. rw data_read_take; [|lia]. rw Nat2Z.id take_ge //. cbn [mbind res_mbind res_bind]. by destruct f.
Qed.

Lemma handle_single f buffer : header_ok f → utp_state f.1 = TRANSPORT_STATE_SINGLE_PACKET → zlen f.2 < 65536 →
  Unreliable_handle (fragment_bytes f) (zlen (fragment_bytes f)) buffer = Ok (buffer, Some (Some <$> f.2)).
Proof.
  intros Hh Hst Hl. destruct (utp_read_fragment f Hh) as [E1 E2]. unfold Unreliable_handle. rw E1. cbn [mbind res_mbind res_bind]. rw E2 Hst.
  change (TRANSPORT_STATE_SINGLE_PACKET <=? TRANSPORT_STATE_FINISHED) with false. change (TRANSPORT_STATE_SINGLE_PACKET =? TRANSPORT_STATE_SINGLE_PACKET) with true.
  cbv iota. assert (u16 (zlen (fragment_bytes f) - Z.of_nat UTP_HEADER) = zlen f.2) as ->.
  { unfold fragment_bytes. rw zlen_app (_ : zlen (utp_bytes f.1) = 6) //. pose proof (zlen_nonneg f.2). unfold u16, UTP_HEADER. rw Z.mod_small; lia. }
  unfold zlen. by rw data_read_take ?Nat2Z.id ?take_ge.
Qed.

(** ** The buffer of one packet *)

Definition entries (l : list fragment) : utp_packets := (λ f, (sequence f.1, f)) <$> l.

Lemma cut_sequence key seq st l : cut_up key seq st l → Forall (λ f, seq <= sequence f.1) l ∧ map_sorted (entries l).
Proof.
  induction 1 as [seq st p|seq st p l H [IH1 IH2]]; [split; [by repeat constructor|by repeat constructor]|]. split.
  - constructor; [done|]. eapply Forall_impl; [exact IH1|]. cbn. lia.
  - constructor; [exact IH2|]. apply Forall_forall. intros e (f & -> & Hf)%list_elem_of_fmap. apply (proj1 (Forall_forall _ _) IH1) in Hf.
    unfold key_ltb, Z_order. cbn in *. lia.
Qed.

Lemma entries_filter (P : fragment → Prop) `{∀ f, Decision (P f)} l : entries (filter P l) = filter (λ e, P e.2) (entries l).
Proof.
  induction l as [|f l IH]; [done|]. rw filter_cons. change (entries (f :: l)) with ((sequence f.1, f) :: entries l). rw filter_cons. cbn [snd].
  case_decide; [|done]. change (entries (f :: filter P l)) with ((sequence f.1, f) :: entries (filter P l)). by rw IH.
Qed.

(** What the loop says about some of the fragments: [Some (FINISHED, _)] only
    if these are all. *)
Definition unfinished (o : option (Z * Z)) : Prop := match o with Some (finished, _) => finished ≠ TRANSPORT_STATE_FINISHED | None => True end.

Lemma scan_later key seq st l (P : fragment → Prop) `{∀ f, Decision (P f)} prev fin len : cut_up key seq st l →
  0 < prev → prev + 1 < seq → fin ≠ TRANSPORT_STATE_FINISHED → unfinished (utp_scan (entries (filter P l)) prev fin len).
Proof.
  intros Hc Hprev Hseq Hfin. destruct (cut_sequence _ _ _ _ Hc) as [Hs _].
  assert (Forall (λ f, seq <= sequence f.1) (filter P l)) as Hs'.
  { apply Forall_forall. intros f [_ Hf]%list_elem_of_filter. by apply (proj1 (Forall_forall _ _) Hs). }
  destruct (filter P l) as [|f l']; [done|]. apply Forall_cons in Hs' as [Hf _]. cbn. destruct (Z.eqb_spec prev 0); [lia|].
  by destruct (Z.eqb_spec (sequence f.1) (prev + 1)); [lia|].
Qed.

Lemma scan_rest key seq st l (P : fragment → Prop) `{∀ f, Decision (P f)} fin len : cut_up key seq st l → st = TRANSPORT_STATE_FRAGMENT → 1 < seq →
  fin ≠ TRANSPORT_STATE_FINISHED →
  if decide (Forall P l) then ∃ len', utp_scan (entries (filter P l)) (seq - 1) fin len = Some (TRANSPORT_STATE_FINISHED, len')
  else unfinished (utp_scan (entries (filter P l)) (seq - 1) fin len).
Proof.
  intros Hc. revert fin len. induction Hc as [seq st p|seq st p l Hc IH]; intros fin len Est Hseq Hfin; rw filter_cons.
  - destruct (decide (P _)) as [HP|HP].
    + rw decide_True; [|by constructor]. cbn. destruct (Z.eqb_spec (seq - 1) 0); [lia|]. destruct (Z.eqb_spec seq (seq - 1 + 1)); [by eexists|lia].
    + rw decide_False; [done|]. by intros [? _]%Forall_cons.
  - destruct (decide (P _)) as [HP|HP].
    + cbn [entries fmap list_fmap utp_scan fst sequence]. destruct (Z.eqb_spec (seq - 1) 0); [lia|]. destruct (Z.eqb_spec seq (seq - 1 + 1)); [|lia].
      specialize (IH (utp_state (mkUtp key (zlen p) seq st)) (u16 (len + zlen p)) eq_refl ltac:(lia) ltac:(by rw Est)).
      rw (_ : seq + 1 - 1 = seq) in IH; [|lia]. destruct (decide (Forall P l)) as [Ha|Ha].
      * rw decide_True; [|by constructor]. exact IH.
      * rw decide_False; [exact IH|]. by intros [_ ?]%Forall_cons.
    + rw decide_False; [|by intros [? _]%Forall_cons]. eapply scan_later; [exact Hc|lia|lia|done].
Qed.

(** Of a whole packet of at least two fragments. *)
Lemma scan_packet key f g l (P : fragment → Prop) `{∀ f, Decision (P f)} : cut_up key 1 TRANSPORT_STATE_START (f :: g :: l) →
  if decide (Forall P (f :: g :: l)) then ∃ len, utp_scan (entries (filter P (f :: g :: l))) 0 TRANSPORT_STATE_UNKNOWN 0 = Some (TRANSPORT_STATE_FINISHED, len)
  else unfinished (utp_scan (entries (filter P (f :: g :: l))) 0 TRANSPORT_STATE_UNKNOWN 0).
Proof.
  intros Hc. inversion Hc as [|seq st p l' Hc' E1 E2 E3]. subst f. set (rest := g :: l) in *. rw filter_cons. cbn in Hc'.
  destruct (decide (P _)) as [HP|HP].
  - cbn [entries fmap list_fmap utp_scan fst sequence utp_state]. change (0 =? 0) with true. change (TRANSPORT_STATE_START =? TRANSPORT_STATE_START) with true. cbv iota.
    pose proof (scan_rest _ _ _ rest P TRANSPORT_STATE_UNKNOWN (u16 (0 + zlen p)) Hc' eq_refl ltac:(lia) ltac:(done)) as H'.
    change (2 - 1) with 1 in H'. destruct (decide (Forall P rest)) as [Ha|Ha].
    + rw decide_True; [|by constructor]. exact H'.
    + rw decide_False; [exact H'|]. by intros [_ ?]%Forall_cons.
  - rw decide_False; [|by intros [? _]%Forall_cons].
    assert (Forall (λ f, utp_state f.1 ≠ TRANSPORT_STATE_START) (filter P rest)) as Hno.
    { apply Forall_forall. intros f [_ Hf]%list_elem_of_filter. revert f Hf. apply Forall_forall. clear -Hc'.
      remember TRANSPORT_STATE_FRAGMENT as st eqn:Est. induction Hc' as [|? ? ? ? ? IH]; constructor; [done|done|by subst|by apply IH]. }
    destruct (filter P rest) as [|f l1]; [done|]. apply Forall_cons in Hno as [Hf _]. cbn. by destruct (Z.eqb_spec (utp_state f.1) TRANSPORT_STATE_START).
Qed.

(** ** Putting a packet together *)

Definition lengths_ok (l : list fragment) : Prop := Forall (λ f, payloadLength f.1 = zlen f.2) l.

Lemma cut_lengths key seq st l : cut_up key seq st l → lengths_ok l ∧ Forall (λ f, utp_key f.1 = key) l.
Proof. induction 1 as [|? ? ? ? _ [IH1 IH2]]; (split; [by repeat constructor|by repeat constructor]). Qed.

Lemma zlen_payloads_cons (f : fragment) l : zlen (mjoin (f :: l).*2) = zlen f.2 + zlen (mjoin l.*2).
Proof. cbn. by rw zlen_app. Qed.

Lemma scan_length l prev fin len fin' len' : lengths_ok l → 0 <= len → len + zlen (mjoin l.*2) < 65536 →
  utp_scan (entries l) prev fin len = Some (fin', len') → len' = len + zlen (mjoin l.*2).
Proof.
  intros H. revert prev fin len. induction H as [|f l Hf _ IH]; intros prev fin len Hlen Hsum E.
  - injection E as _ <-. cbn. rw zlen_nil. lia.
  - rw zlen_payloads_cons in Hsum |- *. pose proof (zlen_nonneg f.2). pose proof (zlen_nonneg (mjoin l.*2)).
    assert (u16 (len + payloadLength f.1) = len + zlen f.2) as Eu by (rw Hf; unfold u16; apply Z.mod_small; lia).
    cbn [entries fmap list_fmap utp_scan] in E. rw Eu in E. fold (entries l) in E.
    destruct (prev =? 0); [destruct (_ =? _) in E|destruct (_ =? _) in E]; try done; apply IH in E; lia.
Qed.

Lemma copy_all l off p : lengths_ok l → Z.of_nat off + zlen (mjoin l.*2) < 65536 →
  utp_copy (entries l) (Z.of_nat off) p = packet_put_all off l.*2 p.
Proof.
  intros H. revert off p. induction H as [|f l Hf _ IH]; intros off p Hsum; [done|]. rw zlen_payloads_cons in Hsum.
  cbn [entries fmap list_fmap utp_copy packet_put_all]. rw Nat2Z.id. destruct (packet_put off f.2 p) as [q|]; [|done].
  cbn [mbind res_mbind res_bind]. pose proof (zlen_nonneg (mjoin l.*2)).
  assert (u16 (Z.of_nat off + payloadLength f.1) = Z.of_nat (off + length f.2)) as ->.
  { rw Hf. unfold u16. rw Z.mod_small; unfold zlen in *; lia. }
  apply IH. unfold zlen in *. lia.
Qed.

(** ** Messages *)

#[export] Instance utp_header_eq_dec : EqDecision utp_header.
Proof. solve_decision. Defined.
#[export] Instance fragment_eq_dec : EqDecision fragment.
Proof. unfold fragment. solve_decision. Defined.

Record message := mkMsg { m_key : Z; m_frags : list fragment; m_data : bytes }.

#[export] Instance message_eq_dec : EqDecision message.
Proof. solve_decision. Defined.

(** A packet in one publication, or cut up. *)
Record message_ok (m : message) : Prop := {
  mo_headers : Forall header_ok (m_frags m);
  mo_keys : Forall (λ f, utp_key f.1 = m_key m) (m_frags m);
  mo_length : zlen (m_data m) < 65536;
  mo_cut : (∃ h, m_frags m = [(h, m_data m)] ∧ utp_state h = TRANSPORT_STATE_SINGLE_PACKET) ∨
    ((∃ f g l, m_frags m = f :: g :: l) ∧ cut_up (m_key m) 1 TRANSPORT_STATE_START (m_frags m) ∧ mjoin (m_frags m).*2 = m_data m);
}.

(** The fragments of [m] in the buffer, after those in [d] have come. *)
Definition came (d : list fragment) (m : message) : list fragment := filter (λ f, f ∈ d) (m_frags m).
Definition complete (d : list fragment) (m : message) : Prop := Forall (λ f, f ∈ d) (m_frags m).
#[export] Instance complete_dec d m : Decision (complete d m) := _.

Definition in_buffer (d : list fragment) (m : message) : option utp_packets :=
  if decide (complete d m) then None else if decide (came d m = []) then None else Some (entries (came d m)).

Lemma came_complete d m : complete d m → came d m = m_frags m.
Proof. unfold complete, came. induction 1 as [|f l Hf _ IH]; [done|]. rw filter_cons decide_True // IH. done. Qed.

Lemma message_sorted m : message_ok m → (∃ f g l, m_frags m = f :: g :: l) → map_sorted (entries (m_frags m)).
Proof.
  intros M (f & g & l & E). destruct (mo_cut _ M) as [(h & E' & _)|(_ & Hc & _)]; [congruence|]. by destruct (cut_sequence _ _ _ _ Hc).
Qed.

(** One more fragment. *)
Lemma fragment_added d m f : message_ok m → (∃ f g l, m_frags m = f :: g :: l) → f ∈ m_frags m → f ∉ d →
  map_add (sequence f.1) f (default [] (in_buffer d m)) = entries (came (f :: d) m).
Proof.
  intros M Htwo Hf Hd. pose proof (message_sorted m M Htwo) as Hs.
  assert (default [] (in_buffer d m) = entries (came d m)) as ->.
  { unfold in_buffer. rw decide_False; [|by intros Hc; eapply Forall_forall in Hc; [|exact Hf]]. case_decide as E; [by rw E|done]. }
  assert (∀ d', map_sorted (entries (came d' m))) as Hsub by (intros d'; unfold came; rw entries_filter; by apply map_sorted_filter).
  assert (∀ d' g, (sequence g.1, g) ∈ entries (came d' m) ↔ g ∈ d' ∧ g ∈ m_frags m) as Hin.
  { intros d' g. unfold came, entries. rw list_elem_of_fmap. split; [|intros Hg; exists g; split; [done|by apply list_elem_of_filter]].
    intros (g' & E & Hg%list_elem_of_filter). by injection E as _ ->. }
  assert (map_find (sequence f.1) (entries (came d m)) = None) as Hno.
  { destruct (map_find (sequence f.1) (entries (came d m))) as [g|] eqn:E; [|done]. exfalso.
    assert (sequence g.1 = sequence f.1 ∧ g ∈ d ∧ g ∈ m_frags m) as (Es & Hg & Hg').
    { apply (map_find_elem _ _ _ (map_sorted_ok _ (Hsub d))) in E. unfold entries in E. apply list_elem_of_fmap in E as (g' & [= Es ->] & Hg%list_elem_of_filter). by split. }
    pose proof (map_sorted_ok _ Hs) as Hok. assert ((sequence f.1, g) ∈ entries (m_frags m)) as H1 by (rw -Es; by apply (list_elem_of_fmap_2 (λ f, (sequence f.1, f)))).
    assert ((sequence f.1, f) ∈ entries (m_frags m)) as H2 by by apply (list_elem_of_fmap_2 (λ f, (sequence f.1, f))).
    apply (map_find_elem _ _ _ Hok) in H1, H2. by assert (f = g) as -> by congruence. }
  apply map_sorted_unique; [by apply map_sorted_add|done|]. intros [s g].
  rw (map_find_elem s g _ (map_sorted_ok _ (map_sorted_add _ _ _ (Hsub d)))) map_find_add Hno. cbn [default].
  assert ((s, g) ∈ entries (came (f :: d) m) ↔ s = sequence g.1 ∧ g ∈ f :: d ∧ g ∈ m_frags m) as ->.
  { split; [|by intros (-> & Hg); apply Hin]. intros Hg. assert (s = sequence g.1) as -> by (unfold entries in Hg; apply list_elem_of_fmap in Hg as (g' & E & _); by injection E as -> ->).
    by apply Hin in Hg. }
  case_decide as E.
  - split; [by intros [= <-]; split_and!; [|left|]|]. intros (Es & [->|Hg]%elem_of_cons & Hg'); [done|]. exfalso.
    assert ((sequence f.1, g) ∈ entries (came d m)) as Hg2.
    { rw -E Es. by apply Hin. }
    apply (map_find_elem _ _ _ (map_sorted_ok _ (Hsub d))) in Hg2. congruence.
  - rw -(map_find_elem s g _ (map_sorted_ok _ (Hsub d))). split.
    + intros Hg. assert (s = sequence g.1) as -> by (unfold entries in Hg; apply list_elem_of_fmap in Hg as (g' & E' & _); by injection E' as -> ->).
      apply Hin in Hg as [Hg Hg']. split_and!; [done|by right|done].
    + intros (-> & [->|Hg]%elem_of_cons & Hg'); [done|]. by apply Hin.
Qed.

(** ** Any order *)

Section arrivals.
Context (msgs : list message) (Hok : Forall message_ok msgs) (Hkeys : NoDup (m_key <$> msgs)) (buffer0 : reassembly_buffer).
Implicit Types (m : message) (f : fragment) (d : list fragment).

Definition all_frags : list fragment := mjoin (m_frags <$> msgs).

Lemma elem_of_all_frags f : f ∈ all_frags ↔ ∃ m, m ∈ msgs ∧ f ∈ m_frags m.
Proof.
  unfold all_frags. rw list_elem_of_join. split.
  - intros (l & Hf & (m & -> & Hm)%list_elem_of_fmap). by exists m.
  - intros (m & Hm & Hf). exists (m_frags m). split; [done|]. by apply (list_elem_of_fmap_2 m_frags).
Qed.

Lemma message_at m : m ∈ msgs → message_ok m.
Proof. by apply Forall_forall. Qed.

(** A key belongs to one message, and so does a fragment. *)
Lemma same_key m m' : m ∈ msgs → m' ∈ msgs → m_key m = m_key m' → m = m'.
Proof.
  clear Hok. intros Hm Hm' E. induction msgs as [|x l IH]; [by apply elem_of_nil in Hm|]. apply NoDup_cons in Hkeys as [Hx Hl].
  apply elem_of_cons in Hm as [->|Hm]; apply elem_of_cons in Hm' as [->|Hm']; [done| | |by apply IH].
  - destruct Hx. rw E. by apply (list_elem_of_fmap_2 m_key).
  - destruct Hx. rw -E. by apply (list_elem_of_fmap_2 m_key).
Qed.

Lemma same_message m m' f : m ∈ msgs → m' ∈ msgs → f ∈ m_frags m → f ∈ m_frags m' → m = m'.
Proof.
  intros Hm Hm' Hf Hf'. apply same_key; [done|done|].
  rw -(proj1 (Forall_forall _ _) (mo_keys _ (message_at m Hm)) f Hf). apply (proj1 (Forall_forall _ _) (mo_keys _ (message_at m' Hm')) f Hf').
Qed.

Lemma frags_shape m : message_ok m → NoDup (m_frags m) ∧ m_frags m ≠ [].
Proof.
  intros M. destruct (mo_cut _ M) as [(h & -> & _)|((f & g & l & E) & Hc & _)]; [split; [apply NoDup_singleton|done]|].
  split; [|by rw E]. destruct (cut_sequence _ _ _ _ Hc) as [_ Hs]. apply map_sorted_ok in Hs. unfold map_ok, entries in Hs.
  rw -list_fmap_compose in Hs. by eapply NoDup_fmap_1.
Qed.

Lemma all_frags_nodup : NoDup all_frags.
Proof.
  assert (∀ l, l ⊆ msgs → NoDup l → NoDup (mjoin (m_frags <$> l))) as H; [|apply H; [done|by eapply NoDup_fmap_1]].
  induction l as [|m l IH]; intros Hsub Hnd; [constructor|]. apply NoDup_cons in Hnd as [Hm Hnd]. cbn. apply NoDup_app. split_and!.
  - apply frags_shape, message_at, Hsub. by left.
  - intros f Hf (x & Hfx & (m' & -> & Hm')%list_elem_of_fmap)%list_elem_of_join. destruct Hm.
    assert (m = m') as ->; [|done]. eapply same_message; [apply Hsub; by left|apply Hsub; by right|exact Hf|exact Hfx].
  - apply IH; [|done]. intros x Hx. apply Hsub. by right.
Qed.

(** What the buffer holds after the fragments [d]. *)
Definition holds d (buffer : reassembly_buffer) : Prop :=
  (∀ m, m ∈ msgs → map_find (m_key m) buffer = in_buffer d m) ∧ ∀ k, k ∉ m_key <$> msgs → map_find k buffer = map_find k buffer0.

Lemma other_message d m m' f : m ∈ msgs → m' ∈ msgs → f ∈ m_frags m → m' ≠ m →
  in_buffer (f :: d) m' = in_buffer d m' ∧ (complete (f :: d) m' ↔ complete d m').
Proof.
  intros Hm Hm' Hf Hne. assert (∀ g, g ∈ m_frags m' → g ∈ f :: d ↔ g ∈ d) as Hg.
  { intros g Hg. rw elem_of_cons. split; [|by right]. intros [->|?]; [|done]. destruct Hne. by eapply same_message. }
  assert (complete (f :: d) m' ↔ complete d m') as Hc.
  { unfold complete. rw !Forall_forall. split; intros H g Hin; by apply Hg, H. }
  split; [|done]. unfold in_buffer. assert (came (f :: d) m' = came d m') as ->.
  { unfold came. clear -Hg. induction (m_frags m') as [|g l IH]; [done|]. rw !filter_cons IH; [|intros x Hx; apply Hg; by right].
    pose proof (Hg g (list_elem_of_here _ _)). by destruct (decide (g ∈ f :: d)), (decide (g ∈ d)); try tauto. }
  by destruct (decide (complete (f :: d) m')), (decide (complete d m')); try tauto.
Qed.

Lemma holds_step d buffer buffer' m f : holds d buffer → m ∈ msgs → f ∈ m_frags m →
  map_find (m_key m) buffer' = in_buffer (f :: d) m → (∀ k, k ≠ m_key m → map_find k buffer' = map_find k buffer) → holds (f :: d) buffer'.
Proof.
  intros [H1 H2] Hm Hf E Ho. split.
  - intros m' Hm'. destruct (decide (m' = m)) as [->|Hne]; [done|]. rw Ho; [by rw H1 // (proj1 (other_message d m m' f Hm Hm' Hf Hne))|].
    intros Ek. destruct Hne. by apply same_key.
  - intros k Hk. rw Ho; [by apply H2|]. intros ->. destruct Hk. by apply (list_elem_of_fmap_2 m_key).
Qed.

(** The packet that a fragment completes. *)
Lemma arrive d buffer m f : holds d buffer → m ∈ msgs → f ∈ m_frags m → f ∉ d →
  ∃ buffer', Unreliable_handle (fragment_bytes f) (zlen (fragment_bytes f)) buffer =
      Ok (buffer', if decide (complete (f :: d) m) then Some (Some <$> m_data m) else None) ∧ holds (f :: d) buffer'.
Proof.
  intros Hh Hm Hf Hd. pose proof (message_at m Hm) as M. pose proof (proj1 (Forall_forall _ _) (mo_headers _ M) f Hf) as Hhd.
  pose proof (proj1 (Forall_forall _ _) (mo_keys _ M) f Hf) as Ek. cbn in Ek. pose proof (mo_length _ M) as Hlen.
  destruct (mo_cut _ M) as [(h & E & Hst)|(Htwo & Hc & Hj)].
  - assert (f = (h, m_data m)) as -> by (rw E in Hf; by apply list_elem_of_singleton in Hf).
    exists buffer. split; [rw handle_single // decide_True //; unfold complete; rw E; by repeat constructor|].
    eapply holds_step; [exact Hh|exact Hm|by rw E; left| |done]. destruct Hh as [H1 _]. rw H1 //. unfold in_buffer.
    assert (complete ((h, m_data m) :: d) m) as Hall by (unfold complete; rw E; by repeat constructor).
    rw (decide_True _ _ Hall). assert (came d m = []) as Ec by (unfold came; rw E; by rw filter_cons decide_False).
    case_decide; [done|]. by rw decide_True.
  - destruct (cut_lengths _ _ _ _ Hc) as [Hl _]. pose proof (proj1 (Forall_forall _ _) Hl f Hf) as Elen. cbn in Elen.
    assert (utp_state f.1 <= TRANSPORT_STATE_FINISHED) as Hst.
    { clear -Hc Hf. assert (∀ k s st l, cut_up k s st l → st <= 2 → ∀ x, x ∈ l → utp_state x.1 <= 2) as H; [|by eapply H].
      induction 1 as [|? ? ? ? _ IH]; intros Hs x Hx; [by apply list_elem_of_singleton in Hx as ->|]. apply elem_of_cons in Hx as [->|Hx]; [done|by apply IH]. }
    rw (handle_fragment f buffer Hhd Elen Hst) Ek. destruct Hh as [H1 H2]. rw (H1 m Hm) (fragment_added d m f M Htwo Hf Hd).
    unfold utp_complete. destruct Htwo as (f0 & g0 & l0 & Efrags). pose proof Hc as Hc'. rw Efrags in Hc'.
    pose proof (scan_packet (m_key m) f0 g0 l0 (λ g, g ∈ f :: d) Hc') as Hscan. rw -Efrags in Hscan. fold (came (f :: d) m) in Hscan.
    change (Forall (λ g, g ∈ f :: d) (m_frags m)) with (complete (f :: d) m) in Hscan.
    destruct (decide (complete (f :: d) m)) as [Hall|Hnot].
    + destruct Hscan as [len E]. rw E. rw came_complete // in E |- *.
      assert (0 + zlen (mjoin (m_frags m).*2) < 65536) as Hsum by (rw Hj; lia).
      assert (len = zlen (mjoin (m_frags m).*2)) as -> by (apply (scan_length _ _ _ _ _ _ Hl) in E; lia).
      cbn [negb]. change (TRANSPORT_STATE_FINISHED =? TRANSPORT_STATE_FINISHED) with true. cbn [negb].
      rw (copy_all _ 0 _ Hl Hsum). pose proof (build_exact (zlen (mjoin (m_frags m).*2)) (m_frags m).*2 eq_refl) as Hb. unfold build in Hb.
      rw Hb. cbn [mbind res_mbind res_bind]. rw Hj. eexists. split; [done|]. eapply holds_step; [by split|exact Hm|exact Hf| |].
      * rw map_find_del decide_True //. unfold in_buffer. by rw decide_True.
      * intros k Hk. by rw map_find_del map_find_set !decide_False.
    + assert (∀ buf, (match utp_scan (entries (came (f :: d) m)) 0 TRANSPORT_STATE_UNKNOWN 0 with
        | Some (finished, len) => if negb (finished =? TRANSPORT_STATE_FINISHED) then Ok (buf, None)
            else p ← utp_copy (entries (came (f :: d) m)) 0 (packet_make len); Ok (map_del (m_key m) buf, Some p)
        | None => Ok (buf, None) end) = Ok (buf, None)) as ->.
      { intros buf. destruct (utp_scan _ _ _ _) as [[fin len]|]; [|done]. cbn in Hscan. by destruct (Z.eqb_spec fin TRANSPORT_STATE_FINISHED). }
      eexists. split; [done|]. eapply holds_step; [by split|exact Hm|exact Hf| |].
      * rw map_find_set decide_True //. unfold in_buffer. rw decide_False //. rw decide_False //.
        intros En. apply (elem_of_nil (A := fragment) f). rw -En. unfold came. apply list_elem_of_filter. split; [by left|done].
      * intros k Hk. by rw map_find_set decide_False.
Qed.

Definition finished d : list message := filter (complete d) msgs.
Definition packet_of m : packet := Some <$> m_data m.

Lemma finished_step d m f : m ∈ msgs → f ∈ m_frags m → f ∉ d →
  finished (f :: d) ≡ₚ (if decide (complete (f :: d) m) then [m] else []) ++ finished d.
Proof.
  intros Hm Hf Hd. assert (¬ complete d m) as Hno by (intros Hc; eapply Forall_forall in Hc; [|exact Hf]; done).
  assert (∀ l, l ⊆ msgs → m ∉ l → filter (complete (f :: d)) l = filter (complete d) l) as Hsame.
  { induction l as [|x l IH]; intros Hsub Hml; [done|]. rw !filter_cons IH; [|set_solver|set_solver].
    pose proof (proj2 (other_message d m x f Hm (Hsub x (list_elem_of_here _ _)) Hf ltac:(set_solver))) as Hx.
    by destruct (decide (complete (f :: d) x)), (decide (complete d x)); try tauto. }
  unfold finished. destruct (list_elem_of_split _ _ Hm) as (a & b & E). pose proof Hkeys as Hnd%NoDup_fmap_1. rw E in Hnd.
  apply NoDup_app in Hnd as (_ & Hma & [Hmb _]%NoDup_cons). assert (m ∉ a) as Hma' by (intros H; apply (Hma m H); by left).
  rw {1 2}E !filter_app !filter_cons (decide_False (P := complete d m)) //. rw (Hsame a) // ?(Hsame b) //; [|set_solver|set_solver].
  destruct (decide (complete (f :: d) m)); [|done]. cbn [app]. by rw -Permutation_middle.
Qed.

Lemma run_arrivals todo d buffer : holds d buffer → NoDup (todo ++ d) → (∀ f, f ∈ todo → f ∈ all_frags) →
  ∃ buffer' out, handle_all (fragment_bytes <$> todo) buffer = Ok (buffer', out) ∧ holds (reverse todo ++ d) buffer' ∧
    out ++ (packet_of <$> finished d) ≡ₚ packet_of <$> finished (reverse todo ++ d).
Proof.
  revert d buffer. induction todo as [|f todo IH]; intros d buffer Hh Hnd Hin; [by exists buffer, []|].
  destruct (proj1 (elem_of_all_frags f) (Hin f (list_elem_of_here _ _))) as (m & Hm & Hf). cbn [app] in Hnd.
  apply NoDup_cons in Hnd as [Hfd Hnd]. assert (f ∉ d) as Hd by set_solver.
  destruct (arrive d buffer m f Hh Hm Hf Hd) as (buffer1 & E1 & Hh1).
  destruct (IH (f :: d) buffer1 Hh1) as (buffer2 & out & E2 & Hh2 & Hout).
  { rw -Permutation_middle. by constructor. }
  { intros g Hg. apply Hin. by right. }
  cbn [fmap list_fmap handle_all]. rw E1. cbn [mbind res_mbind res_bind]. fold (fmap (M := list) fragment_bytes todo). rw E2.
  cbn [mbind res_mbind res_bind]. exists buffer2. eexists. split; [done|]. rw reverse_cons -app_assoc. split; [exact Hh2|].
  cbn [app]. rw -Hout (finished_step d m f Hm Hf Hd) fmap_app !app_assoc.
  apply Permutation_app_tail. destruct (decide _); cbn [option_list fmap list_fmap app]; [|by rw app_nil_r]. by rw Permutation_app_comm.
Qed.

(** All fragments, in any order. *)
Lemma all_arrive arrivals : arrivals ≡ₚ fragment_bytes <$> all_frags → (∀ m, m ∈ msgs → map_find (m_key m) buffer0 = None) →
  ∃ buffer' out, handle_all arrivals buffer0 = Ok (buffer', out) ∧ (∀ k, map_find k buffer' = map_find k buffer0) ∧ out ≡ₚ packet_of <$> msgs.
Proof.
  intros Hp Hno. apply Permutation_map_inv in Hp as (todo & -> & Hp).
  assert (∀ m, m ∈ msgs → ¬ complete [] m) as Hnone.
  { intros m Hm Hc. destruct (frags_shape m (message_at m Hm)) as [_ Hne]. destruct (m_frags m) as [|f l] eqn:E; [done|].
    unfold complete in Hc. rw E in Hc. apply Forall_cons in Hc as [Hf _]. by apply elem_of_nil in Hf. }
  destruct (run_arrivals todo [] buffer0) as (buffer' & out & E & [H1 H2] & Hout).
  - split; [|done]. intros m Hm. rw Hno // /in_buffer decide_False; [|by apply Hnone].
    rw decide_True //. destruct (came [] m) as [|f l] eqn:Ec; [done|]. exfalso. assert (f ∈ came [] m) as Hf by (rw Ec; by left).
    unfold came in Hf. apply list_elem_of_filter in Hf as [Hf _]. by apply elem_of_nil in Hf.
  - rw app_nil_r -Hp. apply all_frags_nodup.
  - intros f Hf. by rw Hp.
  - rw app_nil_r in H1 Hout. assert (∀ m, m ∈ msgs → complete (reverse todo) m) as Hall.
    { intros m Hm. apply Forall_forall. intros f Hf. rw elem_of_reverse -Hp. apply elem_of_all_frags. by exists m. }
    exists buffer', out. split; [exact E|]. split.
    + intros k. destruct (decide (k ∈ m_key <$> msgs)) as [(m & -> & Hm)%list_elem_of_fmap|Hk]; [|by apply H2].
      rw H1 // Hno // /in_buffer decide_True //. by apply Hall.
    + assert (∀ d l, (∀ m, m ∈ l → ¬ complete d m) → filter (complete d) l = []) as Hf0.
      { clear. intros d l. induction l as [|m l IH]; intros H; [done|]. rw filter_cons decide_False; [|apply H; by left]. apply IH. intros x Hx. apply H. by right. }
      assert (∀ d (l : list message), (∀ m, m ∈ l → complete d m) → filter (complete d) l = l) as Hf1.
      { clear. intros d l. induction l as [|m l IH]; intros H; [done|]. rw filter_cons decide_True; [|apply H; by left]. f_equal. apply IH. intros x Hx. apply H. by right. }
      unfold finished in Hout. rw (Hf0 [] msgs) // (Hf1 (reverse todo) msgs) // app_nil_r in Hout. exact Hout.
Qed.
End arrivals.

(** ** Published packets *)

(** A packet as it is published: its identifier, the random number, and the
    bytes. *)
Record publication := mkPub { pub_icnId : IcnId; pub_rand : Z; pub_packet : bytes }.

Definition pub_key (p : publication) : Z := u16 (icnIdHashed (pub_icnId p) + pub_rand p).

(** What can be cut up: the packet fits in one publication, or it is not a
    multiple of the length of a fragment and has at most 255. *)
Record sendable (mitu : Z) (p : publication) : Prop := {
  sd_length : zlen (pub_packet p) < 65536;
  sd_cut : zlen (pub_packet p) <= maxPayloadLength mitu (pub_icnId p) ∨
    0 < maxPayloadLength mitu (pub_icnId p) ∧ zlen (pub_packet p) mod maxPayloadLength mitu (pub_icnId p) ≠ 0 ∧
    zlen (pub_packet p) / maxPayloadLength mitu (pub_icnId p) < 255;
}.

Lemma published_message mitu p : sendable mitu p →
  ∃ l, Unreliable_publish mitu (pub_rand p) (pub_icnId p) (pub_packet p) (zlen (pub_packet p)) = Ok l ∧
    message_ok (mkMsg (pub_key p) l (pub_packet p)) ∧
    ∀ f, f ∈ l → zlen (fragment_bytes f) <= Z.of_nat UTP_HEADER + maxPayloadLength mitu (pub_icnId p).
Proof.
  intros [Hlen Hcut]. set (max := maxPayloadLength mitu (pub_icnId p)) in *. set (data := pub_packet p) in *. pose proof (zlen_nonneg data) as Hpos.
  assert (0 <= max < 65536) as Hmax by (subst max; unfold maxPayloadLength, u16; lia).
  assert (0 <= pub_key p < 65536) as Hkey by (unfold pub_key, u16; lia).
  assert (∀ f, zlen (fragment_bytes f) = 6 + zlen f.2) as Hfl by (intros f; unfold fragment_bytes; by rw zlen_app).
  unfold Unreliable_publish. fold max. fold (pub_key p). destruct (Z.ltb_spec max (zlen data)) as [Hlong|Hshort].
  - destruct Hcut as [|(Hm & Hmod & Hn)]; [lia|].
    destruct (fragments_cut (Z.to_nat (zlen data)) (pub_key p) max 0 TRANSPORT_STATE_START data 0 (zlen data)) as (l & E & Hc & Hj & Hl & Hall);
      rw ?Z.sub_0_r; [lia|lia|lia|lia|done|lia|lia|lia|].
    rw Z.sub_0_r in Hj Hl. exists l. split; [exact E|]. destruct (cut_lengths _ _ _ _ Hc) as [Hlens Hks]. split; [split|]; cbn [m_frags m_key m_data].
    + apply Forall_forall. intros f Hf. split; [by rw (proj1 (Forall_forall _ _) Hks f Hf)|]. rw (proj1 (Forall_forall _ _) Hlens f Hf).
      pose proof (proj1 (Forall_forall _ _) Hall f Hf). pose proof (zlen_nonneg f.2). cbn in *. lia.
    + exact Hks.
    + exact Hlen.
    + right. split_and!; [|exact Hc|]; last first.
      { rw Hj. unfold zlen. by rw Nat2Z.id take_ge. }
      assert (1 <= zlen data / max) by (apply Z.div_le_lower_bound; lia). destruct l as [|f [|g l]]; [rw zlen_nil in Hl; lia|rw zlen_cons zlen_nil in Hl; lia|by eexists _, _, _].
    + intros f Hf. rw Hfl. pose proof (proj1 (Forall_forall _ _) Hall f Hf). unfold UTP_HEADER. cbn in *. lia.
  - rw data_read_take; [|unfold zlen; lia]. rw take_ge; [|unfold zlen; lia]. cbn [mbind res_mbind res_bind]. eexists. split; [done|]. split; [split|]; cbn [m_frags m_key m_data].
    + constructor; [|done]. split; cbn; [done|lia].
    + by repeat constructor.
    + exact Hlen.
    + left. by eexists.
    + intros f ->%list_elem_of_singleton. rw Hfl. unfold UTP_HEADER. cbn [snd]. lia.
Qed.

Definition cut_into (mitu : Z) (p : publication) (l : list fragment) : Prop :=
  Unreliable_publish mitu (pub_rand p) (pub_icnId p) (pub_packet p) (zlen (pub_packet p)) = Ok l.

Lemma publications_arrive mitu pubs sent arrivals buffer : Forall (sendable mitu) pubs → NoDup (pub_key <$> pubs) → Forall2 (cut_into mitu) pubs sent →
  arrivals ≡ₚ fragment_bytes <$> mjoin sent → (∀ p, p ∈ pubs → map_find (pub_key p) buffer = None) →
  ∃ buffer' out, handle_all arrivals buffer = Ok (buffer', out) ∧ (∀ k, map_find k buffer' = map_find k buffer) ∧
    out ≡ₚ (λ p, Some <$> pub_packet p) <$> pubs.
Proof.
  intros H Hkeys H2 Hp Hno.
  assert (∃ msgs, Forall message_ok msgs ∧ m_key <$> msgs = pub_key <$> pubs ∧ packet_of <$> msgs = (λ p, Some <$> pub_packet p) <$> pubs ∧ m_frags <$> msgs = sent)
    as (msgs & Hok & Ek & Ed & Es).
  { clear -H H2. induction H2 as [|p l pubs sent E _ IH]; [by exists []|]. apply Forall_cons in H as [Hp H]. destruct (IH H) as (msgs & I1 & I2 & I3 & I4).
    destruct (published_message mitu p Hp) as (l' & E' & M & _). unfold cut_into in E. rw E in E'. injection E' as <-.
    exists (mkMsg (pub_key p) l (pub_packet p) :: msgs). split_and!; [by constructor|cbn; by f_equal..]. }
  rw -Es in Hp. rw -Ek in Hkeys. rw -Ed. apply (all_arrive msgs Hok Hkeys buffer arrivals Hp). intros m Hm.
  assert (m_key m ∈ pub_key <$> pubs) as (p & -> & Hpin)%list_elem_of_fmap by (rw -Ek; by apply (list_elem_of_fmap_2 m_key)). by apply Hno.
Qed.

(** Packets that are published over the unreliable transport with different
    keys, each cut into as many fragments as it needs: whatever the order in
    which the fragments of all of them arrive, the receiver hands each packet
    to the IP socket exactly once and byte for byte, and its buffer is then as
    it was; and no publication is longer than the network allows. *)
Theorem packets_reassembled mitu (pubs : list publication) (H : Forall (sendable mitu) pubs) (Hkeys : NoDup (pub_key <$> pubs)) :
  ∃ sent : list (list fragment),
    Forall2 (λ p l, cut_into mitu p l ∧ ∀ f, f ∈ l → zlen (fragment_bytes f) <= Z.of_nat UTP_HEADER + maxPayloadLength mitu (pub_icnId p)) pubs sent ∧
    ∀ arrivals buffer, arrivals ≡ₚ fragment_bytes <$> mjoin sent → (∀ p, p ∈ pubs → map_find (pub_key p) buffer = None) →
      ∃ buffer' out, handle_all arrivals buffer = Ok (buffer', out) ∧ (∀ k, map_find k buffer' = map_find k buffer) ∧
        out ≡ₚ (λ p, Some <$> pub_packet p) <$> pubs.
Proof.
  assert (∃ sent, Forall2 (λ p l, cut_into mitu p l ∧ ∀ f, f ∈ l → zlen (fragment_bytes f) <= Z.of_nat UTP_HEADER + maxPayloadLength mitu (pub_icnId p)) pubs sent)
    as (sent & Hs).
  { clear Hkeys. induction H as [|p pubs Hp _ [sent IH]]; [by exists []|]. destruct (published_message mitu p Hp) as (l & E & _ & Hl).
    exists (l :: sent). by constructor. }
  exists sent. split; [exact Hs|]. intros arrivals buffer Hp Hno. eapply publications_arrive; [exact H|exact Hkeys| |exact Hp|exact Hno].
  eapply Forall2_impl; [exact Hs|]. by intros p l [? _].
Qed.
