(* ===== verification/NapIp.v ===== *)
(** * IP over ICN

    apps/nap: the path of IP packets through the network attachment point:
    the packet capture (demux/demux.cc), the handler of the IP name space
    (namespaces/ip.cc) with the cleaner of its buffer, the dispatch by root
    name space (namespaces/namespaces.cc, transport/transport.cc) and the loop
    over the events of the ICN core (icncore/icn.cc).

    What other name spaces do with an event or a packet is not modelled; that
    they get it is an effect. *)

From S2P Require Import Prelude Enums StdString Packet StdMap ClientApi NapTypes Unreliable.

(** ** State *)

Record nap_conf := mkConf {
  mitu : Z;
  mtu : Z;
  hostBasedNap : bool;
  hostRoutingPrefix : RoutingPrefix;
  endpointIpAddress : IpAddress;
  hostRoutingPrefixes : list (Z * RoutingPrefix);
}.

(** The time is in seconds. *)
Record packet_t := mkPacket { pk_packet : bytes; pk_packetSize : Z; pk_timestamp : Z }.

(** What leaves: a call of the library, a packet for the raw socket, an ICMP
    message to the sender of a packet that is too long. *)
Inductive nap_event :=
  | Api (m : option datagram)
  | SendPacket (p : packet)
  | IcmpFragNeeded (source destination : IpAddress) (ipHeaderLength : Z)
  | OtherNamespace (ev : Event)
  | Multicast (source destination : IpAddress) (packet : bytes).

(** [_icnIds] and [_packetBuffer] are unordered maps by the hash of an
    identifier. *)
Record nap := mkNap {
  icnIds : gmap Z IcnId;
  packetBuffer : gmap Z (IcnId * packet_t);
  reassembly : reassembly_buffer;
  nap_out : list nap_event;
}.

Definition set_icnIds t (n : nap) : nap := mkNap t (packetBuffer n) (reassembly n) (nap_out n).
Definition set_packetBuffer t (n : nap) : nap := mkNap (icnIds n) t (reassembly n) (nap_out n).
Definition set_reassembly t (n : nap) : nap := mkNap (icnIds n) (packetBuffer n) t (nap_out n).
Definition emit (l : list nap_event) (n : nap) : nap := mkNap (icnIds n) (packetBuffer n) (reassembly n) (nap_out n ++ l).

Definition N (A : Type) : Type := M nap A.
#[global] Instance N_ret : MRet N := @M_ret nap.
#[global] Instance N_bind : MBind N := @M_bind nap.

Section ip.
Context (conf : nap_conf).

(** ** The IP name space *)

(** From the last entry to the first. *)
Definition routingPrefix (ipAddress : IpAddress) : option RoutingPrefix :=
  snd <$> head (filter (λ e, Z.land ipAddress (rp_netmask e.2) = rp_uint e.2) (reverse (hostRoutingPrefixes conf))).

Definition publish_packet (rand : Z) (cid : IcnId) (data : bytes) (dataSize : Z) : N () :=
  fragments ← from_res (Unreliable_publish (mitu conf) rand cid data dataSize);
  modify (emit ((λ f, Api (Blackadder_publish_data (binIcnId cid) DOMAIN_LOCAL None (fragment_bytes f))) <$> fragments)).

Definition core_publish_info (cid : IcnId) : N () :=
  id ← from_res (binId cid); modify (emit [Api (Blackadder_publish_info id (binPrefixId cid) DOMAIN_LOCAL None)]).

(** The buffer has one packet for each identifier. *)
Definition bufferPacket (now : Z) (icnId : IcnId) (packet : bytes) (packetSize : Z) : N () :=
  data ← from_res (data_read packet 0 (Z.to_nat packetSize));
  buffer ← gets packetBuffer;
  let first := match buffer !! icnIdHashed icnId with None => icnId | Some (icnId, _) => icnId end in
  modify (set_packetBuffer (<[icnIdHashed icnId := (first, mkPacket data packetSize now)]> buffer)).

Definition deleteBufferedPacket (cid : IcnId) : N () := modify (λ n, set_packetBuffer (delete (icnIdHashed cid) (packetBuffer n)) n).

Definition Ip_handle (rand now : Z) (destinationIpAddress : IpAddress) (packet : bytes) (packetSize : Z) : N () :=
  match routingPrefix destinationIpAddress with
  | None => mret ()
  | Some prefix =>
      let cid := IcnId_address prefix destinationIpAddress in
      ids ← gets icnIds;
      match ids !! icnIdHashed cid with
      | None =>
          modify (set_icnIds (<[icnIdHashed cid := cid]> ids));;
          bufferPacket now cid packet packetSize;; core_publish_info cid
      | Some known =>
          if negb (icn_forwarding known) then
            if fidRequested known then mret () else
            bufferPacket now cid packet packetSize;; core_publish_info cid
          else publish_packet rand cid packet packetSize
      end
  end.

Definition Ip_icnId (icnId : IcnId) : N () :=
  modify (λ n, match icnIds n !! icnIdHashed icnId with Some _ => n | None => set_icnIds (<[icnIdHashed icnId := icnId]> (icnIds n)) n end).

Definition Ip_subscribeInfo (icnId : IcnId) : N () :=
  Ip_icnId icnId;;
  id ← from_res (binId icnId); modify (emit [Api (Blackadder_subscribe_info id (binPrefixId icnId) DOMAIN_LOCAL None)]).

Definition Ip_subscribeScope (icnId : IcnId) : N () :=
  Ip_icnId icnId;;
  id ← from_res (binId icnId); modify (emit [Api (Blackadder_subscribe_scope id (binPrefixId icnId) DOMAIN_LOCAL None)]).

Definition Ip_forwarding (cid : IcnId) (state : bool) : N () :=
  modify (λ n, match icnIds n !! icnIdHashed cid with
    | None => n
    | Some known =>
        let known := set_forwarding state known in
        set_icnIds (<[icnIdHashed cid := if state then set_fidRequested false known else known]> (icnIds n)) n
    end).

(** The identifier of this node: its address, or its network. *)
Definition own_icnId : IcnId :=
  if hostBasedNap conf then IcnId_address (hostRoutingPrefix conf) (endpointIpAddress conf) else IcnId_prefix (hostRoutingPrefix conf).

Definition Ip_initialise : N () :=
  let icnId := own_icnId in
  id2 ← from_res (binScopeId 2 icnId);
  id ← from_res (binId icnId);
  modify (emit [Api (Blackadder_publish_scope (binRootScopeId icnId) binEmpty DOMAIN_LOCAL None);
    Api (Blackadder_publish_scope id2 (binScopePath 1 icnId) DOMAIN_LOCAL None);
    Api (if hostBasedNap conf then Blackadder_subscribe_info id (binPrefixId icnId) DOMAIN_LOCAL None
         else Blackadder_subscribe_scope id (binPrefixId icnId) DOMAIN_LOCAL None)]);;
  Ip_icnId icnId.

Definition Ip_uninitialise : N () :=
  let icnId := own_icnId in
  id ← from_res (binId icnId);
  modify (emit [Api (if hostBasedNap conf then Blackadder_unsubscribe_info id (binPrefixId icnId) DOMAIN_LOCAL None
    else Blackadder_unsubscribe_scope id (binPrefixId icnId) DOMAIN_LOCAL None)]).

Definition Ip_publishFromBuffer (rand : Z) (cId : IcnId) : N () :=
  buffer ← gets packetBuffer;
  match buffer !! icnIdHashed cId with
  | None => mret ()
  | Some (_, p) => publish_packet rand cId (pk_packet p) (pk_packetSize p);; deleteBufferedPacket cId
  end.

(** ** The cleaner *)

Definition ENIGMA : Z := 23.

(** One round at the time [now].  [seconds()] is the field of the age, without
    the minutes. *)
Definition IpBufferCleaner_round (now : Z) : N () :=
  modify (λ n, set_packetBuffer (filter (λ e, ¬ ((now - pk_timestamp e.2.2) mod 60 > ENIGMA)) (packetBuffer n)) n).

(** ** Dispatch *)

(** [transport.handle] of a publication. *)
Definition Transport_handle (cId : IcnId) (ev : Event) (packet : bytes) (packetSize : Z) : N () :=
  if rootNamespace cId =? NAMESPACE_IP then
    buffer ← gets reassembly;
    '(buffer, p) ← from_res (Unreliable_handle packet packetSize buffer);
    modify (set_reassembly buffer);; modify (emit (SendPacket <$> option_list p))
  else modify (emit [OtherNamespace ev]).

Definition Namespaces_forwarding (cId : IcnId) (ev : Event) (state : bool) : N () :=
  if rootNamespace cId =? NAMESPACE_IP then Ip_forwarding cId state else modify (emit [OtherNamespace ev]).

Definition Icn_republish (icnId : IcnId) (ev : Event) : N () :=
  id ← from_res (binId icnId);
  modify (emit [Api (Blackadder_unpublish_info id (binPrefixId icnId) DOMAIN_LOCAL None)]);;
  Namespaces_forwarding icnId ev false.

(** One turn of the loop. *)
Definition Icn_event (rand : Z) (ev : Event) : N () :=
  let icnId := IcnId_of (chararray_to_hex (ev_id ev)) in
  let ip := rootNamespace icnId =? NAMESPACE_IP in
  let type := ev_type ev in
  if type =? SCOPE_PUBLISHED then if ip then Ip_subscribeScope icnId else modify (emit [OtherNamespace ev])
  else if type =? START_PUBLISH then
    Namespaces_forwarding icnId ev true;; if ip then Ip_publishFromBuffer rand icnId else mret ()
  else if (type =? STOP_PUBLISH) || (type =? PAUSE_PUBLISH) then Namespaces_forwarding icnId ev false
  else if type =? PUBLISHED_DATA then
    data ← lift_opt NullDeref (ev_data ev);
    Transport_handle icnId ev data (u16 (zlen data))
  else if type =? RE_PUBLISH then Icn_republish icnId ev
  else if (type =? START_PUBLISH_iSUB) || (type =? PUBLISHED_DATA_iSUB) then modify (emit [OtherNamespace ev])
  else mret ().

(** ** Packet capture *)

Definition ETHERTYPE_IP : Z := 2048.
Definition IP_DF : Z := 16384.
Definition IPPROTO_UDP : Z := 17.
Definition IPPROTO_IGMP : Z := 2.

(** Two bytes in network order. *)
Definition ntohs (m : bytes) (off : nat) : res Z := b ← data_read m off 2; Ok (le_number (reverse b)).

(** [len] and the captured bytes, of which the link header has
    [linkHdrLen]. *)
Definition Demux_processPacket (linkHdrLen : nat) (rand now len : Z) (frame : bytes) : N () :=
  if len >? zlen frame then mret () else
  ether_type ← from_res (ntohs frame 12);
  if negb (ether_type =? ETHERTYPE_IP) then mret () else
  let packet := drop linkHdrLen frame in
  hl ← from_res (data_byte packet 0);
  ipPacketSize ← from_res (ntohs packet 2);
  off ← from_res (ntohs packet 6);
  ip_p ← from_res (data_byte packet 9);
  src ← from_res (data_read packet 12 4);
  dst ← from_res (data_read packet 16 4);
  let source := le_number src in
  let destination := le_number dst in
  let ipHeaderLength := 4 * (hl mod 16) in
  (if (off =? IP_DF) && (len >? mtu conf) then modify (emit [IcmpFragNeeded destination source ipHeaderLength]) else mret ());;
  if (ip_p =? IPPROTO_UDP) && (223 <? first_octet destination) && (first_octet destination <? 240)
  then modify (emit [Multicast source destination packet])
  else if ip_p =? IPPROTO_IGMP then modify (emit [Multicast source destination (drop (Z.to_nat ipHeaderLength) packet)])
  else Ip_handle rand now destination packet ipPacketSize.
End ip.
