(* ===== verification/IpRefinement.v ===== *)
(** * The IP name space refines its specification

    What the attachment point does with the packets to each destination, on
    addresses: a destination is unknown, or it is known and publications to it
    have started or not, and one packet may wait for it.  [spec_step] says what
    a captured packet, a notification about the identifier of a destination and
    a round of the cleaner do; the handlers do the same, as long as the
    identifiers of the destinations have different hashes. *)

From S2P Require Import Prelude Enums StdString Packet StdMap RvMessages ClientApi NapTypes Unreliable Reassembly NapIp.

(** ** The specification *)

Inductive notice := Start | Stop | Pause | Republish | Resume.

(** A captured packet with the bytes of its link header; a notification about
    the identifier of an address; a round of the cleaner. *)
Inductive ip_op :=
  | Capture (rand now : Z) (mac : bytes) (ip : IpAddress) (packet : bytes)
  | Notify (rand : Z) (t : notice) (ip : IpAddress)
  | Clean (now : Z).

Inductive ip_act :=
  | AskSmaller (ip : IpAddress) (packet : bytes)
  | Advertise (ip : IpAddress)
  | Withdraw (ip : IpAddress)
  | Publish (rand : Z) (ip : IpAddress) (packet : bytes).

Record ip_spec := mkSpec { sp_started : gmap Z bool; sp_waiting : gmap Z (bytes * Z) }.

Definition old_packet (now t : Z) : bool := (now - t) mod 60 >? ENIGMA.

Section specification.
Context (conf : nap_conf).

(** The packet must not be fragmented and does not fit. *)
Definition too_long (packet : bytes) : bool :=
  match ntohs packet 6 with Ok off => off =? IP_DF | Fault _ => false end && (14 + zlen packet >? mtu conf).

Definition spec_capture (rand now : Z) (ip : IpAddress) (packet : bytes) (s : ip_spec) : ip_spec * list ip_act :=
  match routingPrefix conf ip with
  | None => (s, [])
  | Some _ =>
      if default false (sp_started s !! ip) then (s, [Publish rand ip packet])
      else (mkSpec (<[ip := false]> (sp_started s)) (<[ip := (packet, now)]> (sp_waiting s)), [Advertise ip])
  end.

Definition spec_step (op : ip_op) (s : ip_spec) : ip_spec * list ip_act :=
  match op with
  | Capture rand now _ ip packet =>
      let '(s, l) := spec_capture rand now ip packet s in (s, (if too_long packet then [AskSmaller ip packet] else []) ++ l)
  | Notify rand Start ip =>
      (mkSpec (alter (λ _, true) ip (sp_started s)) (delete ip (sp_waiting s)),
       match sp_waiting s !! ip with None => [] | Some (packet, _) => [Publish rand ip packet] end)
  | Notify _ Stop ip | Notify _ Pause ip => (mkSpec (alter (λ _, false) ip (sp_started s)) (sp_waiting s), [])
  | Notify _ Republish ip => (mkSpec (alter (λ _, false) ip (sp_started s)) (sp_waiting s), [Withdraw ip])
  | Notify _ Resume _ => (s, [])
  | Clean now => (mkSpec (sp_started s) (filter (λ e, ¬ Is_true (old_packet now e.2.2)) (sp_waiting s)), [])
  end.

Fixpoint spec_run (ops : list ip_op) (s : ip_spec) : ip_spec * list ip_act :=
  match ops with
  | [] => (s, [])
  | op :: ops => let '(s, l) := spec_step op s in let '(s, l') := spec_run ops s in (s, l ++ l')
  end.

(** ** The operations and their effects *)

Definition cid (ip : IpAddress) : option IcnId := (λ p, IcnId_address p ip) <$> routingPrefix conf ip.

Definition frame_of (mac packet : bytes) : bytes := mac ++ [8; 0] ++ packet.

Definition notice_type (t : notice) : Z :=
  match t with Start => START_PUBLISH | Stop => STOP_PUBLISH | Pause => PAUSE_PUBLISH | Republish => RE_PUBLISH | Resume => RESUME_PUBLISH end.

Definition notice_event (t : notice) (c : IcnId) : Event := mkEv (notice_type t) (binIcnId c) [] [] None.

Definition ip_step (op : ip_op) : N () :=
  match op with
  | Capture rand now mac _ packet => Demux_processPacket conf 14 rand now (zlen (frame_of mac packet)) (frame_of mac packet)
  | Notify rand t ip => match cid ip with None => mret () | Some c => Icn_event conf rand (notice_event t c) end
  | Clean now => IpBufferCleaner_round now
  end.

Definition source_of (packet : bytes) : IpAddress := le_number (take 4 (drop 12 packet)).
Definition header_length (packet : bytes) : Z := 4 * (default 0 (head packet) mod 16).

(** What the node sends for an act. *)
Definition act_events (a : ip_act) : list nap_event :=
  match a with
  | AskSmaller ip packet => [IcmpFragNeeded ip (source_of packet) (header_length packet)]
  | Advertise ip =>
      match cid ip with
      | None => []
      | Some c => [Api (Blackadder_publish_info (hex_to_chararray (scope_digits ip)) (binPrefixId c) DOMAIN_LOCAL None)]
      end
  | Withdraw ip =>
      match cid ip with
      | None => []
      | Some c => [Api (Blackadder_unpublish_info (hex_to_chararray (scope_digits ip)) (binPrefixId c) DOMAIN_LOCAL None)]
      end
  | Publish rand ip packet =>
      match cid ip with
      | None => []
      | Some c =>
          match Unreliable_publish (mitu conf) rand c packet (zlen packet) with
          | Ok l => (λ f, Api (Blackadder_publish_data (binIcnId c) DOMAIN_LOCAL None (fragment_bytes f))) <$> l
          | Fault _ => []
          end
      end
  end.

(** An IPv4 packet to [ip], complete, neither IGMP nor UDP to a multicast
    group. *)
Record ip_packet (ip : IpAddress) (packet : bytes) : Prop := {
  ik_length : (20 <= length packet)%nat;
  ik_total : ntohs packet 2 = Ok (zlen packet);
  ik_destination : le_number (take 4 (drop 16 packet)) = ip;
  ik_protocol : packet !! 9%nat ≠ Some IPPROTO_IGMP;
  ik_unicast : packet !! 9%nat = Some IPPROTO_UDP → ¬ (223 < first_octet ip < 240);
}.

(** What is asked of an operation: the destination is one of [dests], a
    notification is about one with a routing prefix, and a packet can be
    published. *)
Definition op_ok (dests : IpAddress → Prop) (op : ip_op) : Prop :=
  match op with
  | Capture _ _ mac ip packet => dests ip ∧ length mac = 12%nat ∧ ip_packet ip packet ∧
      ∀ c rand, cid ip = Some c → sendable (mitu conf) (mkPub c rand packet)
  | Notify _ _ ip => dests ip ∧ is_Some (cid ip)
  | Clean _ => True
  end.

Definition ip_init : ip_spec := mkSpec ∅ ∅.

(** ** The relation *)

Definition entry (n : nap) (s : ip_spec) (ip : IpAddress) (c : IcnId) : Prop :=
  match sp_started s !! ip with
  | None => icnIds n !! icnIdHashed c = None
  | Some b => ∃ k, icnIds n !! icnIdHashed c = Some k ∧ icn_forwarding k = b ∧ fidRequested k = false
  end ∧
  packetBuffer n !! icnIdHashed c = (λ e, (c, mkPacket e.1 (zlen e.1) e.2)) <$> sp_waiting s !! ip.

Section relation.
Context (dests : IpAddress → Prop).

Definition refines (n : nap) (s : ip_spec) : Prop :=
  (∀ ip c, dests ip → cid ip = Some c → entry n s ip c) ∧
  (∀ ip packet t, sp_waiting s !! ip = Some (packet, t) → ∀ c rand, cid ip = Some c → sendable (mitu conf) (mkPub c rand packet)).
End relation.
End specification.

(** ** The steps *)

Section steps.
Context (conf : nap_conf) (dests : IpAddress → Prop).
Context (Hdests : ∀ ip, dests ip → is_u32 ip).
Context (Hprefixes : ∀ ip p, routingPrefix conf ip = Some p → is_u32 (rp_uint p)).
Context (Hhash : ∀ a b c d, dests a → dests b → cid conf a = Some c → cid conf b = Some d → icnIdHashed c = icnIdHashed d → a = b).

Abbreviation refines := (refines conf dests).

(** *** Identifiers of destinations *)

Lemma cid_address ip c : dests ip → cid conf ip = Some c → ∃ p, routingPrefix conf ip = Some p ∧ c = IcnId_address p ip ∧ is_u32 (rp_uint p) ∧ is_u32 ip.
Proof.
  intros Hd Hc. unfold cid in Hc. destruct (routingPrefix conf ip) as [p|] eqn:E; [|done]. injection Hc as <-. exists p. split_and!; [done|done| |by apply Hdests].
  by eapply Hprefixes.
Qed.

Lemma cid_read ip c : dests ip → cid conf ip = Some c →
  IcnId_of (chararray_to_hex (binIcnId c)) = c ∧ rootNamespace c = NAMESPACE_IP ∧ binId c = Ok (hex_to_chararray (scope_digits ip)).
Proof.
  intros Hd Hc. destruct (cid_address ip c Hd Hc) as (p & _ & -> & Hp & Hip). split_and!.
  - by rw (proj1 (address_bin p ip Hp Hip)).
  - by apply address_root.
  - unfold binId. by rw (proj1 (address_parts p ip Hp Hip)).
Qed.

(** *** The relation after a change at one destination *)

Lemma refines_at ip c n s n' s' : refines n s → dests ip → cid conf ip = Some c →
  (∀ h, h ≠ icnIdHashed c → icnIds n' !! h = icnIds n !! h ∧ packetBuffer n' !! h = packetBuffer n !! h) →
  (∀ a, a ≠ ip → sp_started s' !! a = sp_started s !! a ∧ sp_waiting s' !! a = sp_waiting s !! a) →
  entry n' s' ip c →
  (∀ packet t, sp_waiting s' !! ip = Some (packet, t) → ∀ rand, sendable (mitu conf) (mkPub c rand packet)) → refines n' s'.
Proof.
  intros [H1 H2] Hd Hc Hn Hs He Hw. split.
  - intros a d Ha Hcd. destruct (decide (a = ip)) as [->|Hne]; [by simplify_eq|].
    destruct (Hn (icnIdHashed d)) as [En1 En2]; [intros E; destruct Hne; by eapply Hhash|].
    destruct (Hs a Hne) as [Es1 Es2]. unfold entry. rw En1 En2 Es1 Es2. by apply H1.
  - intros a packet t Ha d rand Hcd. destruct (decide (a = ip)) as [->|Hne]; [simplify_eq; by eapply Hw|].
    rw (proj2 (Hs a Hne)) in Ha. by eapply H2.
Qed.

Lemma refines_out n s l : refines n s → refines (emit l n) s.
Proof. intros [H1 H2]. by split. Qed.

(** What a step establishes. *)
Definition step_to (n : nap) (r : ip_spec * list ip_act) (n' : nap) : Prop :=
  refines n' r.1 ∧ nap_out n' = nap_out n ++ mjoin (act_events conf <$> r.2) ∧ reassembly n' = reassembly n.

(** *** Publications *)

Lemma publish_step rand ip c packet n (Q : () → nap → Prop) : cid conf ip = Some c → sendable (mitu conf) (mkPub c rand packet) →
  Q () (emit (act_events conf (Publish rand ip packet)) n) → wp (publish_packet conf rand c packet (zlen packet)) Q n.
Proof.
  intros Hc Hs HQ. destruct (published_message (mitu conf) (mkPub c rand packet) Hs) as (l & E & _). cbn in E.
  cbn [act_events] in HQ. rw Hc E in HQ. unfold publish_packet. wp_steps. eapply wp_from_res; [exact E|]. wp_steps. exact HQ.
Qed.

Lemma advertise_step ip c n (Q : () → nap → Prop) : dests ip → cid conf ip = Some c →
  Q () (emit (act_events conf (Advertise ip)) n) → wp (core_publish_info c) Q n.
Proof.
  intros Hd Hc HQ. destruct (cid_read ip c Hd Hc) as (_ & _ & E). cbn [act_events] in HQ. rw Hc in HQ.
  unfold core_publish_info. wp_steps. eapply wp_from_res; [exact E|]. wp_steps. exact HQ.
Qed.

Lemma buffer_step now c packet n (Q : () → nap → Prop) :
  Q () (set_packetBuffer (<[icnIdHashed c := (match packetBuffer n !! icnIdHashed c with None => c | Some (i, _) => i end, mkPacket packet (zlen packet) now)]>
    (packetBuffer n)) n) → wp (bufferPacket now c packet (zlen packet)) Q n.
Proof.
  intros HQ. unfold bufferPacket. wp_steps. eapply wp_from_res; [unfold zlen; rw data_read_take ?Nat2Z.id ?take_ge //; lia|]. wp_steps. exact HQ.
Qed.

(** *** Packets *)

Lemma handle_step rand now ip packet n s : refines n s → dests ip → (∀ c rand, cid conf ip = Some c → sendable (mitu conf) (mkPub c rand packet)) →
  wp (Ip_handle conf rand now ip packet (zlen packet)) (λ _, step_to n (spec_capture conf rand now ip packet s)) n.
Proof.
  intros Hr Hd Hs. unfold Ip_handle, spec_capture. pose proof (λ c, Hs c 0) as Hs0. destruct (routingPrefix conf ip) as [p|] eqn:Ep; last first.
  { apply wp_ret. split_and!; [exact Hr|by rw app_nil_r|done]. }
  assert (cid conf ip = Some (IcnId_address p ip)) as Hc by (unfold cid; by rw Ep). set (c := IcnId_address p ip) in *.
  destruct (proj1 Hr ip c Hd Hc) as [Hi Hb]. cbv zeta. wp_step. wp_step.
  assert (∀ n1, icnIds n1 = match icnIds n !! icnIdHashed c with None => <[icnIdHashed c := c]> (icnIds n) | Some _ => icnIds n end →
    packetBuffer n1 = packetBuffer n → nap_out n1 = nap_out n → reassembly n1 = reassembly n → default false (sp_started s !! ip) = false →
    wp (bufferPacket now c packet (zlen packet);; core_publish_info c)
      (λ _, step_to n (mkSpec (<[ip := false]> (sp_started s)) (<[ip := (packet, now)]> (sp_waiting s)), [Advertise ip])) n1) as Hnew.
  { intros n1 E1 E2 E3 E4 Ef. wp_step. apply buffer_step, (advertise_step ip); [done|done|]. unfold step_to. cbn [fst snd fmap list_fmap mjoin list_join].
    rw app_nil_r. split_and!; [|by rw /= E3|by rw /= E4]. apply refines_out. rw E2.
    eapply (refines_at ip c n s); [exact Hr|exact Hd|exact Hc|..]; cbn [icnIds packetBuffer sp_started sp_waiting set_packetBuffer].
    - intros h Hh. rw lookup_insert_ne // E1. split; [|done]. case_match; [done|]. by rw lookup_insert_ne.
    - intros a Ha. by rw !lookup_insert_ne.
    - unfold entry. cbn [icnIds packetBuffer sp_started sp_waiting set_packetBuffer]. rw !lookup_insert_eq E1 Hb. split.
      + destruct (sp_started s !! ip) as [b|].
        * destruct Hi as (k & Ek & Ef' & Er). rw Ek. exists k. rw Ek. cbn in Ef. by subst.
        * rw Hi. exists c. by rw lookup_insert_eq.
      + cbn. by destruct (sp_waiting s !! ip).
    - rw lookup_insert_eq. intros packet' t [= <- <-] r. by apply Hs. }
  destruct (sp_started s !! ip) as [b|] eqn:Es; cbn [default] in *.
  - destruct Hi as (k & Ek & Ef & Er). rw Ek Ef. destruct b; cbn [negb].
    + apply (publish_step rand ip); [done|by apply Hs|]. split_and!; [by apply refines_out|by rw /= app_nil_r|done].
    + rw Er. rw Ek in Hnew. by apply Hnew.
  - rw Hi. wp_step. wp_step. rw Hi in Hnew. by apply Hnew.
Qed.

Lemma capture_step rand now mac ip packet n s : refines n s → op_ok conf dests (Capture rand now mac ip packet) →
  wp (ip_step conf (Capture rand now mac ip packet)) (λ _, step_to n (spec_step conf (Capture rand now mac ip packet) s)) n.
Proof.
  intros Hr (Hd & Hmac & [Hlen Htotal Hdst Hproto Huni] & Hs). cbn [ip_step]. unfold Demux_processPacket.
  assert (drop 14 (frame_of mac packet) = packet) as Edrop.
  { unfold frame_of. rw app_assoc. apply drop_app_length'. by rw length_app Hmac. }
  assert (ntohs (frame_of mac packet) 12 = Ok ETHERTYPE_IP) as Eether.
  { unfold ntohs. by rw (data_read_at _ mac [8; 0] packet). }
  assert (zlen (frame_of mac packet) = 14 + zlen packet) as Elen by (unfold frame_of, zlen; rw !length_app Hmac; cbn; lia).
  assert (∀ i, (i < 20)%nat → ∃ b, packet !! i = Some b) as Hbyte by (intros i Hi; apply lookup_lt_is_Some_2; lia).
  assert (∀ i k, (i + k <= 20)%nat → data_read packet i k = Ok (take k (drop i packet))) as Hread.
  { intros i k Hi. unfold data_read. by destruct (Nat.leb_spec (i + k) (length packet)); [|lia]. }
  assert (∃ off, ntohs packet 6 = Ok off) as [off Eoff] by (unfold ntohs; rw Hread; [by eexists|lia]).
  destruct (Hbyte 0%nat) as [hl Ehl]; [lia|]. destruct (Hbyte 9%nat) as [pr Epr]; [lia|].
  rw Z.gtb_ltb Z.ltb_irrefl. wp_step. eapply wp_from_res; [exact Eether|]. cbn [negb]. change (ETHERTYPE_IP =? ETHERTYPE_IP) with true. cbv iota. rw Edrop.
  cbn [negb]. wp_step. eapply wp_from_res; [unfold data_byte; by rw Ehl|]. wp_step. eapply wp_from_res; [exact Htotal|].
  wp_step. eapply wp_from_res; [exact Eoff|]. wp_step. eapply wp_from_res; [unfold data_byte; by rw Epr|].
  wp_step. eapply wp_from_res; [apply Hread; lia|]. wp_step. eapply wp_from_res; [apply Hread; lia|]. cbv zeta. rw Hdst Elen.
  assert (∀ n1 ask, n1 = emit (mjoin (act_events conf <$> ask)) n →
    wp (Ip_handle conf rand now ip packet (zlen packet)) (λ _, step_to n (let '(s', l) := spec_capture conf rand now ip packet s in (s', ask ++ l))) n1) as Hgo.
  { intros n1 ask ->. eapply wp_mono; [apply handle_step; [by apply refines_out|exact Hd|exact Hs]|]. intros [] n2. destruct (spec_capture conf rand now ip packet s) as [s' l].
    intros (H1 & H2 & H3). split_and!; [exact H1| |by rw H3]. rw H2. cbn [emit nap_out snd fst]. by rw fmap_app join_app app_assoc. }
  assert ((pr =? IPPROTO_UDP) && (223 <? first_octet ip) && (first_octet ip <? 240) = false) as ->.
  { destruct (Z.eqb_spec pr IPPROTO_UDP) as [->|]; [|done]. specialize (Huni Epr). lia. }
  assert ((pr =? IPPROTO_IGMP) = false) as -> by (apply Z.eqb_neq; congruence).
  wp_step. cbn [spec_step]. unfold too_long. rw Eoff. destruct ((off =? IP_DF) && (14 + zlen packet >? mtu conf)).
  - wp_step. apply Hgo. cbn [fmap list_fmap mjoin list_join act_events app]. unfold source_of, header_length. by destruct packet as [|b pk]; [|injection Ehl as ->].
  - wp_step. apply Hgo. by destruct n as [? ? ? o]; unfold emit; cbn; rw app_nil_r.
Qed.

(** *** Notifications *)

Lemma forwarding_at ip c b n s : refines n s → dests ip → cid conf ip = Some c →
  let n' := match icnIds n !! icnIdHashed c with
    | None => n
    | Some known => set_icnIds (<[icnIdHashed c := let known := set_forwarding b known in if b then set_fidRequested false known else known]> (icnIds n)) n
    end in
  refines n' (mkSpec (alter (λ _, b) ip (sp_started s)) (sp_waiting s)) ∧ nap_out n' = nap_out n ∧ reassembly n' = reassembly n ∧ packetBuffer n' = packetBuffer n.
Proof.
  intros Hr Hd Hc n'. destruct (proj1 Hr ip c Hd Hc) as [Hi Hb]. assert (nap_out n' = nap_out n ∧ reassembly n' = reassembly n ∧ packetBuffer n' = packetBuffer n) as (E1 & E2 & E3).
  { subst n'. by destruct (icnIds n !! icnIdHashed c). }
  split; [|done]. eapply (refines_at ip c n s); [exact Hr|exact Hd|exact Hc|..]; cbn [sp_started sp_waiting].
  - intros h Hh. rw E3. split; [|done]. subst n'. case_match; [|done]. cbn. by rw lookup_insert_ne.
  - intros a Ha. by rw lookup_alter_ne.
  - unfold entry. cbn [sp_started sp_waiting]. rw lookup_alter_eq E3 Hb. split; [|done]. subst n'. destruct (sp_started s !! ip) as [b0|] eqn:Es; cbn [fmap option_fmap option_map].
    + destruct Hi as (k & Ek & _ & Er). rw Ek. cbn [icnIds set_icnIds]. rw lookup_insert_eq. eexists. split; [done|]. by destruct b.
    + by rw Hi.
  - intros packet t Hw rand. by eapply (proj2 Hr).
Qed.

Lemma notify_step rand t ip n s : refines n s → op_ok conf dests (Notify rand t ip) →
  wp (ip_step conf (Notify rand t ip)) (λ _, step_to n (spec_step conf (Notify rand t ip) s)) n.
Proof.
  intros Hr [Hd [c Hc]]. cbn [ip_step]. rw Hc. destruct (cid_read ip c Hd Hc) as (Ec & Ens & Eid).
  unfold Icn_event, notice_event. cbn [ev_id ev_type]. rw Ec Ens. change (NAMESPACE_IP =? NAMESPACE_IP) with true. cbv iota zeta.
  assert (∀ b ev n0 (Q : () → nap → Prop), refines n0 s → (∀ n', refines n' (mkSpec (alter (λ _, b) ip (sp_started s)) (sp_waiting s)) → nap_out n' = nap_out n0 →
    reassembly n' = reassembly n0 → Q () n') → wp (Namespaces_forwarding c ev b) Q n0) as Hfw.
  { intros b ev n0 Q Hr0 HQ. unfold Namespaces_forwarding. rw Ens. change (NAMESPACE_IP =? NAMESPACE_IP) with true. cbv iota.
    unfold Ip_forwarding. apply wp_modify. destruct (forwarding_at ip c b n0 s Hr0 Hd Hc) as (H1 & H2 & H3 & _). by apply HQ. }
  destruct t; cbn [notice_type].
  - change (START_PUBLISH =? SCOPE_PUBLISHED) with false. change (START_PUBLISH =? START_PUBLISH) with true. cbv iota. wp_step.
    apply Hfw; [exact Hr|]. intros n1 Hr1 Eo1 Er1. unfold Ip_publishFromBuffer. wp_steps. destruct (proj1 Hr1 ip c Hd Hc) as [_ Hb]. cbn [sp_waiting] in Hb. rw Hb.
    cbn [spec_step]. destruct (sp_waiting s !! ip) as [[packet t]|] eqn:Ew; cbn [fmap option_fmap option_map fst snd pk_packet pk_packetSize].
    + wp_step. apply (publish_step rand ip); [done|by eapply (proj2 Hr)|]. unfold deleteBufferedPacket. apply wp_modify.
      split_and!; [|cbn [emit nap_out set_packetBuffer fmap list_fmap mjoin list_join snd]; by rw app_nil_r Eo1|by rw /= Er1].
      eapply (refines_at ip c n1); [exact Hr1|exact Hd|exact Hc|..]; cbn [sp_started sp_waiting fst icnIds packetBuffer set_packetBuffer emit].
      * intros h Hh. split; [done|by rw lookup_delete_ne].
      * intros a Ha. split; [done|by rw lookup_delete_ne].
      * destruct (proj1 Hr1 ip c Hd Hc) as [Hi _]. unfold entry. cbn [sp_started sp_waiting icnIds packetBuffer set_packetBuffer emit] in *.
        split; [exact Hi|]. by rw !lookup_delete_eq.
      * intros p t'. by rw lookup_delete_eq.
    + apply wp_ret. split_and!; [|by rw /= app_nil_r|done]. cbn [fst]. by rw delete_id.
  - change (STOP_PUBLISH =? SCOPE_PUBLISHED) with false. change (STOP_PUBLISH =? START_PUBLISH) with false. cbn [orb]. apply Hfw; [done|].
    intros n1 H1 H2 H3. split_and!; [exact H1|by rw /= app_nil_r|done].
  - change (PAUSE_PUBLISH =? SCOPE_PUBLISHED) with false. change (PAUSE_PUBLISH =? START_PUBLISH) with false. apply Hfw; [done|].
    intros n1 H1 H2 H3. split_and!; [exact H1|by rw /= app_nil_r|done].
  - change (RE_PUBLISH =? SCOPE_PUBLISHED) with false. change (RE_PUBLISH =? START_PUBLISH) with false. change (RE_PUBLISH =? STOP_PUBLISH) with false.
    change (RE_PUBLISH =? PAUSE_PUBLISH) with false. change (RE_PUBLISH =? PUBLISHED_DATA) with false. cbn [orb]. change (RE_PUBLISH =? RE_PUBLISH) with true. cbv iota. unfold Icn_republish. wp_step. eapply wp_from_res; [exact Eid|].
    wp_step. wp_step. apply Hfw; [by apply refines_out|]. intros n1 H1 H2 H3. split_and!; [exact H1| |done].
    cbn [spec_step snd fmap list_fmap mjoin list_join act_events]. rw Hc app_nil_r. exact H2.
  - apply wp_ret. split_and!; [exact Hr|by rw /= app_nil_r|done].
Qed.


(** *** The cleaner *)

Lemma clean_step now n s : refines n s → wp (ip_step conf (Clean now)) (λ _, step_to n (spec_step conf (Clean now) s)) n.
Proof.
  intros [H1 H2]. apply wp_modify. split_and!; [|by rw /= app_nil_r|done]. cbn [spec_step fst]. split.
  - intros ip c Hd Hc. destruct (H1 ip c Hd Hc) as [Hi Hb]. split; [exact Hi|]. cbn [packetBuffer set_packetBuffer sp_waiting].
    rw !map_lookup_filter Hb. destruct (sp_waiting s !! ip) as [[packet t]|]; [|done]. cbn. unfold old_packet.
    rw !option_guard_decide. destruct (Z.gtb_spec ((now - t) mod 60) ENIGMA); repeat case_decide; cbn in *; try done; lia || tauto.
  - intros ip packet t Hw. cbn [sp_waiting] in Hw. rw map_lookup_filter_Some in Hw. by eapply H2, Hw.
Qed.

Lemma op_step op n s : refines n s → op_ok conf dests op → wp (ip_step conf op) (λ _, step_to n (spec_step conf op s)) n.
Proof.
  destruct op; intros Hr Ho; [by apply capture_step|by apply notify_step|by apply clean_step].
Qed.

Lemma ops_run ops n s : refines n s → Forall (op_ok conf dests) ops → wp (mfor ops (ip_step conf)) (λ _, step_to n (spec_run conf ops s)) n.
Proof.
  intros Hr Ho. revert n s Hr. induction Ho as [|op ops Ho _ IH]; intros n s Hr.
  - apply wp_ret. split_and!; [exact Hr|by rw /= app_nil_r|done].
  - cbn [mfor spec_run]. wp_step. eapply wp_mono; [by apply op_step|]. intros [] n1 (H1 & H2 & H3). destruct (spec_step conf op s) as [s1 l1]. cbn [fst snd] in *.
    eapply wp_mono; [by apply IH|]. intros [] n2 (H4 & H5 & H6). destruct (spec_run conf ops s1) as [s2 l2]. split_and!; [exact H4| |by rw H6].
    rw H5 H2. cbn [snd]. by rw fmap_app join_app app_assoc.
Qed.

(** *** What is published *)

Definition publish_ok (a : ip_act) : Prop :=
  match a with Publish rand ip packet => dests ip ∧ ∃ c, cid conf ip = Some c ∧ sendable (mitu conf) (mkPub c rand packet) | _ => True end.

Lemma acts_published op n s : refines n s → op_ok conf dests op → Forall publish_ok (spec_step conf op s).2.
Proof.
  intros [_ Hw] Ho. destruct op as [rand now mac ip packet|rand t ip|now]; [|destruct t; try by repeat constructor|by constructor].
  - cbn [spec_step]. destruct Ho as (Hd & _ & _ & Hs). unfold spec_capture. destruct (routingPrefix conf ip) as [p|] eqn:E.
    + assert (publish_ok (Publish rand ip packet)) as Hp by (split; [exact Hd|]; exists (IcnId_address p ip); unfold cid; rw E; split; [done|]; apply Hs; unfold cid; by rw E).
      destruct (too_long conf packet), (default false (sp_started s !! ip)); cbn [fst snd app]; rw ?Forall_cons Forall_nil; done.
    + destruct (too_long conf packet); by repeat constructor.
  - cbn [spec_step snd]. destruct Ho as [Hd [c Hc]]. destruct (sp_waiting s !! ip) as [[packet t]|] eqn:E; [|done].
    constructor; [|done]. split; [exact Hd|]. exists c. split; [exact Hc|]. by eapply Hw.
Qed.

Lemma run_published ops n s : refines n s → Forall (op_ok conf dests) ops → Forall publish_ok (spec_run conf ops s).2.
Proof.
  intros Hr Ho. revert n s Hr. induction Ho as [|op ops Ho _ IH]; intros n s Hr; [done|]. cbn [spec_run].
  pose proof (acts_published op n s Hr Ho) as Hop. destruct (wp_ok _ _ _ (op_step op n s Hr Ho)) as ([] & n1 & _ & H1 & _ & _).
  destruct (spec_step conf op s) as [s1 l1]. cbn [fst snd] in *. specialize (IH n1 s1 H1). destruct (spec_run conf ops s1) as [s2 l2]. by apply Forall_app.
Qed.
End steps.

(** ** One destination *)

Section history.
Context (conf : nap_conf) (ip : IpAddress).

Definition captured (op : ip_op) : list bytes :=
  match op with Capture _ _ _ ip' packet => if bool_decide (ip' = ip) then [packet] else [] | _ => [] end.
Definition published (a : ip_act) : list bytes :=
  match a with Publish _ ip' packet => if bool_decide (ip' = ip) then [packet] else [] | _ => [] end.
Definition waiting (s : ip_spec) : list bytes := match sp_waiting s !! ip with None => [] | Some (packet, _) => [packet] end.

(** What was published and what waits, of what was captured: nothing twice and
    in order; the last one, if nothing was cleaned; and while publications are
    started nothing waits. *)
Record served (cleaned : bool) (s : ip_spec) (caps pubs : list bytes) : Prop := {
  sv_order : sublist (pubs ++ waiting s) caps;
  sv_last : cleaned = false → last (pubs ++ waiting s) = last caps;
  sv_started : sp_started s !! ip = Some true → waiting s = [];
}.

Definition is_clean (op : ip_op) : bool := match op with Clean _ => true | _ => false end.

Lemma sublist_head {A} (a b c : list A) : sublist (a ++ b) c → sublist a c.
Proof. intros H. etrans; [|exact H]. rw -{1}(app_nil_r a). by apply sublist_app; [|apply sublist_nil_l]. Qed.

Lemma served_capture cl s caps pubs rand now mac ip' packet : is_Some (routingPrefix conf ip) → served cl s caps pubs →
  let r := spec_step conf (Capture rand now mac ip' packet) s in
  served cl r.1 (caps ++ captured (Capture rand now mac ip' packet)) (pubs ++ mjoin (published <$> r.2)).
Proof.
  intros [p Hp] [H1 H2 H3]. cbn [spec_step captured].
  assert (∀ l, pubs ++ mjoin (published <$> (if too_long conf packet then [AskSmaller ip' packet] else []) ++ l) = pubs ++ mjoin (published <$> l)) as Hask.
  { intros l. by destruct (too_long conf packet). }
  unfold spec_capture. destruct (bool_decide_reflect (ip' = ip)) as [->|Hne].
  - rw Hp. assert (sublist pubs caps) as Hpub by (by eapply sublist_head). destruct (sp_started s !! ip) as [[]|] eqn:Es; cbn [default fst snd]; rw Hask //; cbn.
    + pose proof (H3 eq_refl) as Ew. rw bool_decide_eq_true_2 //. split; rw ?Ew ?app_nil_r; [by apply sublist_app|intros _; by rw !last_snoc|done].
    + rw app_nil_r. split; cbn; unfold waiting; cbn; rw ?lookup_insert_eq; [by apply sublist_app|intros _; by rw !last_snoc|done].
    + rw app_nil_r. split; cbn; unfold waiting; cbn; rw ?lookup_insert_eq; [by apply sublist_app|intros _; by rw !last_snoc|done].
  - rw app_nil_r. destruct (routingPrefix conf ip') as [p'|]; [|cbn [fst snd]; rw Hask //= app_nil_r; by split].
    destruct (default false (sp_started s !! ip')); cbn [fst snd]; rw Hask //; cbn; rw ?bool_decide_eq_false_2 // ?app_nil_r; [by split|].
    split; unfold waiting in *; cbn; rw !lookup_insert_ne //.
Qed.

Lemma served_notify cl s caps pubs rand t ip' : served cl s caps pubs →
  let r := spec_step conf (Notify rand t ip') s in served cl r.1 caps (pubs ++ mjoin (published <$> r.2)).
Proof.
  intros [H1 H2 H3]. destruct (decide (ip' = ip)) as [->|Hne].
  - destruct t; cbn [spec_step fst snd]; try by (rw /= app_nil_r; split; unfold waiting in *; cbn; [|done|]; [|rw ?lookup_alter_eq; try done; by destruct (sp_started s !! ip)]).
    assert (mjoin (published <$> match sp_waiting s !! ip with None => [] | Some (packet, _) => [Publish rand ip packet] end) = waiting s) as ->.
    { unfold waiting. destruct (sp_waiting s !! ip) as [[packet t]|]; [|done]. cbn. by rw bool_decide_eq_true_2. }
    assert (waiting (mkSpec (alter (λ _, true) ip (sp_started s)) (delete ip (sp_waiting s))) = []) as Ew by (unfold waiting; cbn; by rw lookup_delete_eq).
    split; rw ?Ew ?app_nil_r //.
  - assert (∀ b (s' : ip_spec), sp_started s' = alter (λ _, b) ip' (sp_started s) → waiting s' = waiting s → served cl s' caps pubs) as Hs.
    { intros b s' E1 E2. split; rw ?E1 ?E2 // lookup_alter_ne //. }
    destruct t; cbn [spec_step fst snd].
    + assert (mjoin (published <$> match sp_waiting s !! ip' with None => [] | Some (packet, _) => [Publish rand ip' packet] end) = []) as ->.
      { destruct (sp_waiting s !! ip') as [[packet t]|]; [|done]. cbn. by rw bool_decide_eq_false_2. }
      rw app_nil_r. apply (Hs true); [done|]. unfold waiting. cbn. by rw lookup_delete_ne.
    + rw /= app_nil_r. by apply (Hs false).
    + rw /= app_nil_r. by apply (Hs false).
    + rw /= app_nil_r. by apply (Hs false).
    + rw /= app_nil_r. by split.
Qed.

Lemma served_clean s caps pubs cl now : served cl s caps pubs → served true (spec_step conf (Clean now) s).1 caps pubs.
Proof.
  intros [H1 H2 H3]. cbn. assert (sublist (waiting (spec_step conf (Clean now) s).1) (waiting s)) as Hw.
  { unfold waiting. cbn. rw map_lookup_filter. destruct (sp_waiting s !! ip) as [[packet t]|]; [|done]. cbn. rw option_guard_decide.
    case_decide; [done|apply sublist_nil_l]. }
  split; [|done|].
  - etrans; [|exact H1]. by apply sublist_app.
  - intros Hs. cbn in Hs. specialize (H3 Hs). rw H3 in Hw. by apply sublist_nil_r in Hw.
Qed.

Lemma served_run ops cl s caps pubs : is_Some (routingPrefix conf ip) → served cl s caps pubs →
  served (cl || existsb is_clean ops) (spec_run conf ops s).1 (caps ++ mjoin (captured <$> ops)) (pubs ++ mjoin (published <$> (spec_run conf ops s).2)).
Proof.
  intros Hp. revert cl s caps pubs. induction ops as [|op ops IH]; intros cl s caps pubs Hs.
  - cbn. by rw orb_false_r !app_nil_r.
  - cbn [spec_run fmap list_fmap mjoin list_join existsb]. destruct (spec_step conf op s) as [s1 l1] eqn:E. specialize (IH (cl || is_clean op) s1 (caps ++ captured op) (pubs ++ mjoin (published <$> l1))).
    destruct (spec_run conf ops s1) as [s2 l2]. cbn [fst snd] in *. rw fmap_app join_app !app_assoc orb_assoc. apply IH.
    assert (s1 = (spec_step conf op s).1 ∧ l1 = (spec_step conf op s).2) as [-> ->] by by rw E.
    destruct op; cbn [is_clean captured]; rw ?orb_false_r ?orb_true_r.
    + by apply served_capture.
    + rw app_nil_r. by apply served_notify.
    + rw /= !app_nil_r. by eapply served_clean.
Qed.

Lemma served_init ops : is_Some (routingPrefix conf ip) →
  served (existsb is_clean ops) (spec_run conf ops ip_init).1 (mjoin (captured <$> ops)) (mjoin (published <$> (spec_run conf ops ip_init).2)).
Proof. intros Hp. apply (served_run ops false ip_init [] []); [exact Hp|by split]. Qed.
End history.
