(* ===== verification/IpOverIcn.v ===== *)
(** * IP over ICN: the properties

    The routing prefix of a destination, what the name space does with the
    packets to a destination and with the notifications about it, and a packet
    from one attachment point to another. *)

From S2P Require Import Prelude Enums StdString Packet StdMap RvMessages ClientApi NapTypes Unreliable Reassembly NapIp IpRefinement.
From Stdlib Require Import Sorted.

(** ** Routing prefixes *)

Section prefixes.
Context (conf : nap_conf).

(** What [Configuration] reads: entries by the number of the prefix. *)
Record table_ok : Prop := {
  tb_sorted : map_sorted (hostRoutingPrefixes conf);
  tb_entries k p : (k, p) ∈ hostRoutingPrefixes conf → k = rp_uint p ∧ 0 <= rp_netmask p ∧ ∃ a, is_u32 a ∧ rp_uint p = Z.land a (rp_netmask p);
}.

Definition prefix_covers (p : RoutingPrefix) (ip : IpAddress) : Prop := Z.land ip (rp_netmask p) = rp_uint p.

Lemma land_le a b : 0 <= a → 0 <= b → Z.land a b <= a.
Proof. intros Ha Hb. rw -(Z2N.id a Ha) -(Z2N.id b Hb) -N2Z.inj_land. apply N2Z.inj_le, N.land_le_l. Qed.

Lemma head_first {A} (l : list A) (R : A → A → Prop) x y : StronglySorted R l → head (reverse l) = Some x → y ∈ l → y = x ∨ R y x.
Proof.
  intros Hs. induction Hs as [|z l Hl IH Hz]; [done|]. rw reverse_cons. intros Hh Hy. destruct (reverse l) as [|w l'] eqn:E.
  - injection Hh as ->. assert (l = []) as -> by (apply (f_equal reverse) in E; by rw reverse_involutive in E). left. by apply list_elem_of_singleton in Hy.
  - injection Hh as ->. apply elem_of_cons in Hy as [->|Hy]; [|by apply IH]. right. apply (proj1 (Forall_forall _ _) Hz).
    rw -elem_of_reverse E. by left.
Qed.

(** The routing prefix of a destination is a configured one that prefix_covers
    it, and no other covering prefix is at least as long; there is none only
    when no configured prefix prefix_covers the destination. *)
Theorem longest_prefix ip (T : table_ok) (Hip : 0 <= ip) :
  match routingPrefix conf ip with
  | Some p => (rp_uint p, p) ∈ hostRoutingPrefixes conf ∧ prefix_covers p ip ∧
      ∀ k q, (k, q) ∈ hostRoutingPrefixes conf → prefix_covers q ip → Z.land (rp_netmask p) (rp_netmask q) = rp_netmask p → q = p
  | None => ∀ k q, (k, q) ∈ hostRoutingPrefixes conf → ¬ prefix_covers q ip
  end.
Proof.
  unfold routingPrefix. rw filter_reverse. set (l := filter _ (hostRoutingPrefixes conf)).
  assert (∀ e, e ∈ l ↔ prefix_covers e.2 ip ∧ e ∈ hostRoutingPrefixes conf) as Hl by (intros e; exact (list_elem_of_filter _ _ e)).
  assert (map_sorted l) as Hs by (apply map_sorted_filter, T).
  destruct (head (reverse l)) as [[k p]|] eqn:E; cbn [fmap option_fmap option_map snd].
  - assert ((k, p) ∈ l) as Hin by (rw -elem_of_reverse; destruct (reverse l); [done|injection E as ->; left]).
    apply Hl in Hin as [Hc Hin]. cbn in Hc. destruct (tb_entries T k p Hin) as (-> & Hm & _). split_and!; [done|done|].
    intros k' q Hq Hcq Hland. destruct (tb_entries T k' q Hq) as (-> & Hmq & _).
    destruct (head_first l _ _ (rp_uint q, q) Hs E) as [[= _ ->]|Hlt]; [by apply Hl|done|]. cbn in Hlt. unfold key_ltb, Z_order in Hlt. exfalso.
    assert (rp_uint p = Z.land (rp_uint q) (rp_netmask p)) as Eu by (unfold prefix_covers in Hc, Hcq; rw -Hc -Hcq -Z.land_assoc (Z.land_comm (rp_netmask q)); by rw Hland).
    assert (0 <= rp_uint q) as Hpos by (unfold prefix_covers in Hcq; rw -Hcq; apply Z.land_nonneg; by left).
    pose proof (land_le (rp_uint q) (rp_netmask p) Hpos Hm). lia.
  - intros k q Hq Hc. assert ((k, q) ∈ l) as Hin by by apply Hl.
    rw -elem_of_reverse in Hin. destruct (reverse l); [by apply elem_of_nil in Hin|done].
Qed.
End prefixes.

(** ** Destinations *)

(** The destinations that are considered: addresses with different hashes of
    their identifiers. *)
Record destinations_ok (conf : nap_conf) (dests : IpAddress → Prop) : Prop := {
  do_u32 ip : dests ip → is_u32 ip;
  do_prefix ip p : routingPrefix conf ip = Some p → is_u32 (rp_uint p);
  do_hash a b c d : dests a → dests b → cid conf a = Some c → cid conf b = Some d → icnIdHashed c = icnIdHashed d → a = b;
}.

Lemma ops_to conf dests ops n s : destinations_ok conf dests → refines conf dests n s → Forall (op_ok conf dests) ops →
  ∃ n', mfor ops (ip_step conf) n = Ok ((), n') ∧ step_to conf dests n (spec_run conf ops s) n'.
Proof. intros [H1 H2 H3] Hr Ho. destruct (wp_ok _ _ _ (ops_run conf dests H1 H2 H3 ops n s Hr Ho)) as ([] & n' & E & Hs). by exists n'. Qed.

(** The IP name space refines its specification.  From a state that
    stands for a state of the specification, frames with packets to the
    destinations, notifications about their identifiers, and rounds of the
    cleaner, in any order: the attachment point runs without a fault, ends in a
    state that stands for the one the specification ends in, and calls the
    library and answers senders exactly as the specification says. *)
Theorem name_space_refines conf dests ops n s (D : destinations_ok conf dests) (R : refines conf dests n s) (H : Forall (op_ok conf dests) ops) :
  ∃ n', mfor ops (ip_step conf) n = Ok ((), n') ∧ refines conf dests n' (spec_run conf ops s).1 ∧
    nap_out n' = nap_out n ++ mjoin (act_events conf <$> (spec_run conf ops s).2) ∧ reassembly n' = reassembly n.
Proof. exact (ops_to conf dests ops n s D R H). Qed.

(** A state in which no destination is known. *)
Definition fresh (conf : nap_conf) (dests : IpAddress → Prop) (n : nap) : Prop :=
  ∀ ip c, dests ip → cid conf ip = Some c → icnIds n !! icnIdHashed c = None ∧ packetBuffer n !! icnIdHashed c = None.

Lemma fresh_refines conf dests n : fresh conf dests n → refines conf dests n ip_init.
Proof. intros H. split; [|done]. intros ip c Hd Hc. destruct (H ip c Hd Hc) as [E1 E2]. split; [exact E1|by rw E2]. Qed.



(** ** From one attachment point to another *)



Lemma filter_join {A} (f : A → bool) (l : list (list A)) : filter f (mjoin l) = mjoin (filter f <$> l).
Proof. induction l as [|x l IH]; [done|]. cbn. by rw filter_app IH. Qed.




Section crossing.
Context (conf : nap_conf) (dests : IpAddress → Prop) (D : destinations_ok conf dests).
Context (Hmitu : 50 <= mitu conf < 65536).






End crossing.


(** ** Instances *)

Definition fits (conf : nap_conf) (ip : IpAddress) (packet : bytes) : bool :=
  match cid conf ip with
  | None => true
  | Some c =>
      let max := maxPayloadLength (mitu conf) c in
      (zlen packet <? 65536) && ((zlen packet <=? max) || ((0 <? max) && negb (zlen packet mod max =? 0) && (zlen packet / max <? 255)))
  end.

Lemma fits_sendable conf ip packet c rand : fits conf ip packet = true → cid conf ip = Some c → sendable (mitu conf) (mkPub c rand packet).
Proof.
  unfold fits. intros Hf Hc. rw Hc in Hf. apply andb_true_iff in Hf as [H1%Z.ltb_lt [H2%Z.leb_le|H2]%orb_true_iff]; split; cbn [pub_packet pub_icnId]; [done|by left|done|].
  right. apply andb_true_iff in H2 as [[H2%Z.ltb_lt H3]%andb_true_iff H4%Z.ltb_lt]. split_and!; [done| |done].
  by destruct (Z.eqb_spec (zlen packet mod maxPayloadLength (mitu conf) c) 0).
Qed.

Module TwoHosts.

(** 10.0.0.0/8 and 10.1.0.0/16. *)
Definition p8 : RoutingPrefix := RoutingPrefix_of 10 255.
Definition p16 : RoutingPrefix := RoutingPrefix_of (10 + 256) 65535.
Definition conf : nap_conf := mkConf 100 1500 true p8 (10 + 9 * 2 ^ 24) [(10, p8); (266, p16)].

(** 10.0.0.1 and 10.1.0.2. *)
Definition host1 : IpAddress := 10 + 2 ^ 24.
Definition host2 : IpAddress := 10 + 256 + 2 * 2 ^ 24.
Definition hosts (ip : IpAddress) : Prop := ip ∈ [host1; host2].

Definition ip_bytes (dst : IpAddress) (data : bytes) : bytes :=
  [69; 0] ++ reverse (le_bytes 2 (20 + zlen data)) ++ [0; 0; 0; 0; 64; 6; 0; 0] ++ [10; 9; 9; 9] ++ le_bytes 4 dst ++ data.

Definition packet1 : bytes := ip_bytes host1 [1; 2; 3].
Definition packet2 : bytes := ip_bytes host1 (replicate 100 7).
Definition packet3 : bytes := ip_bytes host2 (replicate 50 8).
Definition mac : bytes := replicate 12 1.

(** The first packet to each destination waits until the destination starts;
    the next one is cut into three. *)
Definition ops : list ip_op :=
  [Capture 1 0 mac host1 packet1; Capture 2 1 mac host2 packet3; Notify 3 Start host1; Capture 4 2 mac host1 packet2; Notify 5 Start host2;
   Notify 0 Stop host1; Clean 40; Capture 6 41 mac host1 packet1].

Definition nap0 : nap := mkNap ∅ ∅ [] [].

Lemma hosts_ok : destinations_ok conf hosts.
Proof.
  assert (∀ ip, hosts ip → ip = host1 ∨ ip = host2) as Hh by (intros ip H; unfold hosts in H; set_solver).
  split.
  - intros ip [-> | ->]%Hh; by vm_compute.
  - intros ip p. unfold routingPrefix. destruct (head _) as [[k q]|] eqn:E; [|done]. intros [= <-]. assert ((k, q) ∈ [(10, p8); (266, p16)]) as Hin.
    { assert ((k, q) ∈ filter (λ e : Z * RoutingPrefix, Z.land ip (rp_netmask e.2) = rp_uint e.2) (reverse [(10, p8); (266, p16)])) as Hf.
      { cbn [hostRoutingPrefixes conf] in E. destruct (filter _ _); [done|]. injection E as ->. by left. }
      apply list_elem_of_filter in Hf as [_ Hf]. by rw elem_of_reverse in Hf. }
    set_unfold. destruct Hin as [[= -> ->]|[[= -> ->]|[]]]; by vm_compute.
  - intros a b c d [-> | ->]%Hh [-> | ->]%Hh; vm_compute; intros [= <-] [= <-]; try done.
Qed.

Lemma capture_ok rand now ip packet : hosts ip → (20 <= length packet)%nat → ntohs packet 2 = Ok (zlen packet) → le_number (take 4 (drop 16 packet)) = ip →
  packet !! 9%nat = Some 6 → fits conf ip packet = true → op_ok conf hosts (Capture rand now mac ip packet).
Proof.
  intros Hd H1 H2 H3 H4 H5. split_and!; [exact Hd|done| |].
  - split; [exact H1|exact H2|exact H3|by rw H4|by rw H4].
  - intros c r Hc. by apply (fits_sendable conf ip).
Qed.

Lemma hosts12 : hosts host1 ∧ hosts host2 ∧ is_Some (cid conf host1) ∧ is_Some (cid conf host2).
Proof. split_and!; [by left|by right; left|by eexists|by eexists]. Qed.

Lemma ops_ok : Forall (op_ok conf hosts) ops.
Proof.
  destruct hosts12 as (H1 & H2 & C1 & C2).
  assert (Hc : ∀ rand now ip packet, hosts ip → (20 <=? length packet)%nat && bool_decide (packet !! 9%nat = Some 6) && fits conf ip packet &&
    bool_decide (le_number (take 4 (drop 16 packet)) = ip) && match ntohs packet 2 with Ok n => n =? zlen packet | Fault _ => false end = true →
    op_ok conf hosts (Capture rand now mac ip packet)).
  { intros rand now ip packet Hd [[[[Ha%Nat.leb_le Hb%bool_decide_eq_true]%andb_true_iff Hf]%andb_true_iff He%bool_decide_eq_true]%andb_true_iff Hn]%andb_true_iff.
    apply capture_ok; try done. destruct (ntohs packet 2) as [k|]; [|done]. apply Z.eqb_eq in Hn. by subst. }
  unfold ops. rw !Forall_cons Forall_nil.
  split_and!; [apply Hc; [exact H1|vm_compute; reflexivity]|apply Hc; [exact H2|vm_compute; reflexivity]|exact (conj H1 C1)|
    apply Hc; [exact H1|vm_compute; reflexivity]|exact (conj H2 C2)|exact (conj H1 C1)|exact I|apply Hc; [exact H1|vm_compute; reflexivity]|exact I].
Qed.

Lemma nap0_fresh : fresh conf hosts nap0.
Proof. done. Qed.

Definition specs : ip_spec * list ip_act := spec_run conf ops ip_init.





End TwoHosts.

(** ** What the code does not do *)

Module Limits.
Import TwoHosts.

(** A packet that is a multiple of the length of a fragment: no fragment has
    the state FINISHED, so the receiver keeps the fragments and never sends
    the packet. *)
Example multiple_never_delivered : ∃ l b,
  Unreliable_publish 100 1 (IcnId_address p8 host1) (replicate 100 7) 100 = Ok l ∧ length l = 2%nat ∧
  handle_all (fragment_bytes <$> l) [] = Ok (b, []) ∧ b ≠ [].
Proof. eexists _, _. split; [vm_compute; reflexivity|]. split; [done|]. split; [vm_compute; reflexivity|done]. Qed.

(** No room for a payload: the loop does not end. *)
Example no_room_no_end fuel key data : utp_fragments fuel (mkUtp key 0 0 TRANSPORT_STATE_START) data 0 1 = Fault OutOfFuel.
Proof.
  assert (∀ seq st, utp_fragments fuel (mkUtp key 0 seq st) data 0 1 = Fault OutOfFuel) as H; [|by apply H].
  induction fuel as [|fuel IH]; intros seq st; [done|]. cbn. by rw IH.
Qed.

(** Two addresses of the default route with the same hash: the packet to the
    second takes the place of the one to the first, and is published for the
    first when that starts. *)
Definition all : RoutingPrefix := RoutingPrefix_of 0 0.
Definition gateway : nap_conf := mkConf 100 1500 true all (10 + 9 * 2 ^ 24) [(0, all)].
Definition a : IpAddress := 1161046244.
Definition b : IpAddress := 1336407441.

Example same_hash_misdelivered :
  match mfor [Capture 1 0 mac a (ip_bytes a [1]); Capture 2 1 mac b (ip_bytes b [2]); Notify 3 Start a] (ip_step gateway) nap0 with
  | Ok (_, n) => last (nap_out n)
  | Fault _ => None
  end = Some (Api (Blackadder_publish_data (binIcnId (IcnId_address all a)) DOMAIN_LOCAL None
    (fragment_bytes (mkUtp (u16 (icnIdHashed (IcnId_address all a) + 3)) 21 1 TRANSPORT_STATE_SINGLE_PACKET, ip_bytes b [2])))).
Proof. vm_compute. reflexivity. Qed.
End Limits.

(** The longer of the two prefixes that cover the second destination. *)
Lemma longest_prefix_witness : routingPrefix TwoHosts.conf TwoHosts.host2 = Some TwoHosts.p16 ∧ prefix_covers TwoHosts.p8 TwoHosts.host2 ∧
  (∀ k q, (k, q) ∈ hostRoutingPrefixes TwoHosts.conf → prefix_covers q TwoHosts.host2 → Z.land 65535 (rp_netmask q) = 65535 → q = TwoHosts.p16).
Proof.
  assert (table_ok TwoHosts.conf) as T.
  { split.
    - repeat constructor.
    - intros k p Hin. set_unfold. destruct Hin as [[= -> ->]|[[= -> ->]|[]]]; (split_and!; [done|done|]); [exists 10|exists 266]; by vm_compute. }
  split_and!; [by vm_compute|by vm_compute|].
  exact (proj2 (proj2 (longest_prefix TwoHosts.conf TwoHosts.host2 T ltac:(by vm_compute)))).
Defined.

(** Eight operations. *)
Lemma name_space_refines_witness :
  ∃ n', mfor TwoHosts.ops (ip_step TwoHosts.conf) TwoHosts.nap0 = Ok ((), n') ∧ refines TwoHosts.conf TwoHosts.hosts n' TwoHosts.specs.1 ∧
    nap_out n' = [] ++ mjoin (act_events TwoHosts.conf <$> TwoHosts.specs.2).
Proof.
  destruct (name_space_refines TwoHosts.conf TwoHosts.hosts TwoHosts.ops TwoHosts.nap0 ip_init TwoHosts.hosts_ok
    (fresh_refines _ _ _ TwoHosts.nap0_fresh) TwoHosts.ops_ok) as (n' & H1 & H2 & H3 & _).
  exists n'. split; [exact H1|]. split; [exact H2|exact H3].
Defined.

